(* ===== verification/_CoqProject ===== *)
-Q . S2P
Prelude.v
VoteInterface.v
VoteState.v
VoteStateProofs.v
TowerVoteState.v
ThreadSet.v
ThreadLocks.v
ThreadLocksProofs.v
AccountLocks.v
AccountLocksProofs.v
BundleLocks.v
CostModel.v
CostTracker.v
CostTrackerProofs.v
QosService.v
QosServiceProofs.v
UnifiedScheduler.v
UnifiedMachine.v
UnifiedFifo.v
UnifiedFifoProofs.v
UnifiedPriority.v
UnifiedPriorityProofs.v
UnifiedSpec.v
OrdMap.v
ForkChoice.v
ForkTree.v
ForkAggregate.v
ForkProcess.v
ForkInvariant.v
ForkVotes.v
ForkSearch.v
ForkLeaf.v
ForkAddLeaf.v
ForkMarks.v
ForkRoots.v
ForkSplit.v
ForkMerge.v
ForkPurge.v
LatestVotes.v
ForkSpec.v
ForkTheorems.v
SvmInterface.v
TransactionAccounts.v
InstructionAccounts.v
TransactionContext.v
InvokeContext.v
SysvarCache.v
AccountSafety.v
AccountRun.v
AccessViolation.v
CpiPrivileges.v
RuntimeSafety.v
RuntimeProofs.v
RuntimeFuel.v
SystemProgram.v
SystemProofs.v
SystemSpec.v
NonceProofs.v
Programs.v
SvmModel.v
MessageProofs.v
SvmTheorems.v
VoteAccount.v
VoteProgram.v
VoteSafety.v
VoteSpec.v
VoteAccess.v
VoteFunds.v
VoteInstructions.v
VoteModel.v
VoteTheorems.v
RentState.v
AccountLoader.v
TransactionProcessor.v
LoaderProofs.v
FeeProofs.v
ExecutionProofs.v
BatchProofs.v
BatchModel.v
TransactionTheorems.v
