(* ===== verification/Prelude.v ===== *)
(** * Verification of the Rakurai validator: root file and prelude

    The repository is a Solana validator (Agave with the changes of Jito and
    Rakurai).  A validator receives transactions, schedules them so that conflicting
    ones do not run at the same time, keeps a block within its cost limits, executes
    each transaction on the accounts it names, and votes on the forks of the ledger.
    This development models the parts of it whose correctness is a matter of state
    and arithmetic rather than of input and output, and proves that they do what they
    promise.  Definitions follow the sources function by function and are executable;
    code of other crates is a parameter (a type class or a section variable) whose
    documented behaviour is stated as a law, with a concrete instance that satisfies
    it.

    ** Conventions

    Machine integers are [Z] with the arithmetic of the sources written out below
    ([checked_add], [saturating_sub], [wrapping_add], ...).  A fallible function
    returns [outcome E A]: a value, an error, or [Panic] where the source unwraps,
    indexes or asserts.  A function with a [&mut] argument is a [stm S E A]: it
    returns the state it leaves also when it fails.  Loops that are not structural
    take fuel; a fallible loop that runs out of it ends in [Panic], which the theorems
    exclude.  The steps of a long function are definitions of their own, placed before
    the function.

    ** Parts and files

    - Voting ([programs/vote/src/vote_state/handler.rs] and [mod.rs],
      [core/src/consensus/tower_vote_state.rs]).  [VoteInterface] holds the types of
      the vote crate, [VoteState] the vote state with lockouts, credits and
      timestamps, the processing of votes and the check, filter and application of
      tower syncs; [VoteStateProofs] shows that neither panics, that the tower and
      the credits stay well formed, that roots never move back and that an abandoned
      vote is never still locked out.  [TowerVoteState] is the tower the validator
      keeps for itself, which follows the state on chain.
    - Account locks ([scheduling-utils/src/thread_aware_account_locks.rs],
      [accounts-db/src/account_locks.rs] and [accounts.rs], the batches of
      [runtime/src/bank.rs] and [transaction_batch.rs],
      [core/src/bundle_stage/bundle_account_locker.rs],
      [core/src/banking_stage/transaction_scheduler/in_flight_tracker.rs]).
      [ThreadSet], [ThreadLocks], [ThreadLocksProofs]: the locks of the scheduler's
      threads; [AccountLocks], [AccountLocksProofs]: the locks of the
      bank; [BundleLocks]: the locks of bundles and the in-flight tracker.  In every
      interleaving conflicting transactions are not held at the same time, and
      unlocking restores the tables.
    - Block costs ([cost-model], [core/src/banking_stage/qos_service.rs]).
      [CostModel] computes the cost of a transaction, [CostTracker] keeps a block
      within its limits, [QosService] selects and settles transactions;
      [CostTrackerProofs] and [QosServiceProofs] show that the tracker is the exact
      ledger of the transactions in it and accepts a transaction exactly when the
      limits allow it.
    - Unified scheduler ([unified-scheduler-logic/src/lib.rs]).  [UnifiedScheduler]
      is the state machine, [UnifiedMachine] proves it over any queue discipline;
      [UnifiedFifo] and
      [UnifiedFifoProofs], [UnifiedPriority] and [UnifiedPriorityProofs] give the
      invariants of the two modes, and [UnifiedSpec] the contract: tasks in flight do not conflict, the order of
      scheduling is respected, every task is retired.
    - Fork choice ([core/src/consensus/heaviest_subtree_fork_choice.rs],
      [tree_diff.rs], [latest_validator_votes_for_frozen_banks.rs]).  [OrdMap] is the
      ordered map of the sources, [ForkChoice] the tree and its operations, [LatestVotes]
      the source of vote batches.  [ForkTree] and [ForkInvariant] hold the invariant;
      [ForkAggregate], [ForkProcess], [ForkVotes], [ForkSearch], [ForkLeaf],
      [ForkAddLeaf], [ForkMarks], [ForkRoots], [ForkSplit], [ForkMerge] and [ForkPurge]
      prove the operations one by one; [ForkSpec] defines the reachable states, and
      [ForkTheorems] shows that the best block is the one the GHOST rule finds from
      the latest votes.
    - Transaction runtime ([transaction-context], [program-runtime/src] with
      [invoke_context.rs], [memory_context.rs] and [sysvar_cache.rs],
      [programs/system]).  [SvmInterface] lists what other crates provide.
      [TransactionAccounts], [InstructionAccounts] and [TransactionContext] are the
      accounts of a transaction, the checked operations on a borrowed account, and
      the trace and stack of instructions; [InvokeContext] runs programs, their
      cross-program invocations and whole messages; [SysvarCache] and
      [SystemProgram] are the sysvars and the system program with its nonce
      accounts; [AccessViolation] grows an account on a memory access.
      [AccountSafety] defines what a program may do to accounts and proves it of
      every operation, [AccountRun] computes the operations exactly,
      [CpiPrivileges] is about the privileges of a callee, [RuntimeSafety] states
      the contract between the runtime and a program, [RuntimeProofs] discharges the
      runtime's side and [Programs] the programs' side, [RuntimeFuel] bounds the
      nesting of invocations, [SystemProofs], [SystemSpec] and [NonceProofs] are
      about the system program, [SvmModel] is a concrete instance, and
      [MessageProofs] and [SvmTheorems] state what a message can and cannot do.
    - Vote program ([programs/vote/src/vote_processor.rs], the operations on accounts
      of [vote_state/mod.rs] and [handler.rs]).  [VoteAccount] holds the versions of
      a vote state and every operation on the account that holds one, with the
      handler of [VoteState] inside; [VoteProgram] is the dispatch, which borrows the
      vote account and releases it before a withdrawal or a deposit.  [VoteSafety]
      shows that the program keeps the contract of the runtime, [VoteSpec] what an
      account holds after it is written, [VoteAccess] which signatures each change
      of a vote state needs and that the state stays well formed, [VoteFunds] the
      conditions and effect of a withdrawal, [VoteInstructions] lifts these to whole
      instructions, [VoteModel] is a concrete instance, and [VoteTheorems] states the
      results.
    - Transaction processor ([svm/src] with [rent_calculator.rs],
      [transaction_account_state_info.rs], [account_loader.rs],
      [rollback_accounts.rs], [nonce_info.rs] and [transaction_processor.rs]).
      [RentState] is the check of the rent states before and after execution,
      [AccountLoader] the accounts a batch has read or written in front of the
      accounts database, the fee payer check, the loading of a transaction and the
      accounts kept for its failure; [TransactionProcessor] validates, loads and
      executes the transactions of a batch with the [process_message] of the
      runtime.  [LoaderProofs] shows what loading leaves unchanged, [FeeProofs] the
      charge of the fee and the advance of the nonce, [ExecutionProofs] carries the
      safety of a message over to the accounts that are stored, [BatchProofs]
      composes these over a round and a batch, [BatchModel] is a concrete instance,
      and [TransactionTheorems] states the results: who pays, what may change, that
      a batch loses its fees and nothing else, and that a failed transaction spends
      its nonce.

    ** How the parts interact

    The schedulers and the account locks decide which transactions run together; the
    cost tracker which of them fit the block; the transaction processor
    charges the fee, loads the accounts and stores what the runtime leaves in them;
    the runtime executes a message on its accounts with programs such as the system
    program and the vote program; votes that land change the
    vote state, whose latest votes feed the fork choice.  The contracts between
    components that call each other are interfaces: the scheduler logic is proved
    against both queue disciplines, the runtime against any programs that keep
    [program_ok], and the programs against any runtime that keeps [cpi_ok].

    ** Bounds and fuel

    The recursion of a cross-program invocation takes fuel; the instruction stack has
    a capacity, and one more than it is always enough ([message_fuel_enough]); the transaction
    processor hands its fuel to the messages it executes.  The
    traversals of the fork choice take the number of blocks, since each round visits
    a new block.  [clear_loop] of the scheduler takes the number of active tasks and
    [relock_loop] one more than the number of blocked ones.  The loops over a proposed
    tower take the sum of the lengths of the two lists they walk ([filter_loop] one
    more for the root), the binary search the length of its list, and the iteration
    of a thread set its 64 bits.  [is_zeroed] takes the length of the buffer.
    The sums of the cost tracker stay in 64 bits by its own checks, except under a
    limit equal to the greatest [u64] and for an execution over its estimate, where the
    theorem states the condition.

    ** Not modelled

    Networking, storage, threads and channels, command line tools, cryptography and
    the virtual machine are input and output, or the subject of other crates; the
    bank, the replay and banking stages mostly connect parts that are modelled here
    to those.  The loaders are not modelled.  The program cache is
    an interface of the transaction processor, since it orders compiled programs of
    the virtual machine; the balances, logs and inner instructions the processor
    records for its callers and its counters of errors are left out.  Inside the modelled parts log
    messages, metrics, timings, memory addresses handed to the virtual machine's
    host, and code for tests are left out. *)

From stdpp Require Export base option list gmap sets.
From Stdlib Require Export ZArith Lia.

#[export] Set Default Goal Selector "!".
Local Open Scope Z_scope.

(** ** Machine integers

    An unsigned [w]-bit integer is a [Z] in [0 .. 2^w - 1]; the arithmetic the
    sources call on it (checked, saturating, wrapping) is written out. *)

Definition umax (w : Z) : Z := 2 ^ w - 1.
Definition u8_max : Z := 255.
Definition u16_max : Z := 65535.
Definition u32_max : Z := 4294967295.
Definition u64_max : Z := 18446744073709551615.
Definition u128_max : Z := 340282366920938463463374607431768211455.
Definition i64_min : Z := -9223372036854775808.
Definition i64_max : Z := 9223372036854775807.

(** [is_u m z]: [z] is a value of the unsigned type whose greatest value is [m]. *)
Definition is_u (m z : Z) : Prop := 0 <= z <= m.

Definition checked_add (m a b : Z) : option Z :=
  if a + b <=? m then Some (a + b) else None.
Definition checked_sub (a b : Z) : option Z :=
  if b <=? a then Some (a - b) else None.
Definition checked_mul (m a b : Z) : option Z :=
  if a * b <=? m then Some (a * b) else None.
Definition checked_div (a b : Z) : option Z :=
  if b =? 0 then None else Some (a / b).
Definition checked_rem (a b : Z) : option Z :=
  if b =? 0 then None else Some (a mod b).
Definition saturating_add (m a b : Z) : Z := Z.min m (a + b).
Definition saturating_sub (a b : Z) : Z := Z.max 0 (a - b).
Definition saturating_mul (m a b : Z) : Z := Z.min m (a * b).
Definition wrapping_add (m a b : Z) : Z := (a + b) mod (m + 1).
Definition wrapping_sub (m a b : Z) : Z := (a - b) mod (m + 1).
Definition wrapping_mul (m a b : Z) : Z := (a * b) mod (m + 1).

(** A 32-byte public key, blockhash or program id, as the integer its bytes spell. *)
Abbreviation Pubkey := Z (only parsing).
Abbreviation Hash := Z (only parsing).
Abbreviation Slot := Z (only parsing).
Abbreviation Epoch := Z (only parsing).

(** ** Fallible computations

    A Rust [Result<A, E>] together with the third way a call can end: an
    [unwrap], [expect], [assert!] or index that panics. *)

Inductive outcome (E A : Type) : Type :=
| Ok (a : A)
| Err (e : E)
| Panic.
Arguments Ok {E A} a.
Arguments Err {E A} e.
Arguments Panic {E A}.

#[export] Instance outcome_ret E : MRet (outcome E) := fun A a => Ok a.
#[export] Instance outcome_bind E : MBind (outcome E) := fun A B f m =>
  match m with Ok a => f a | Err e => Err e | Panic => Panic end.
#[export] Instance outcome_fmap E : FMap (outcome E) := fun A B f m =>
  match m with Ok a => Ok (f a) | Err e => Err e | Panic => Panic end.

Definition is_ok {E A} (o : outcome E A) : bool :=
  match o with Ok _ => true | _ => false end.
Definition map_err {E E' A} (f : E -> E') (o : outcome E A) : outcome E' A :=
  match o with Ok a => Ok a | Err e => Err (f e) | Panic => Panic end.
(** [opt.ok_or(e)?] and [opt.expect(..)]. *)
Definition ok_or {E A} (e : E) (o : option A) : outcome E A :=
  match o with Some a => Ok a | None => Err e end.
Definition expect {E A} (o : option A) : outcome E A :=
  match o with Some a => Ok a | None => Panic end.

(** [assert!(b)]. *)
Definition ensure {E} (b : bool) : outcome E () := if b then Ok () else Panic.

(** ** Fallible computations on a [&mut] state

    The state is returned on every exit, since a Rust function that returns
    [Err] keeps the writes it made before. *)

Definition stm (S E A : Type) : Type := S -> outcome E A * S.

#[export] Instance stm_ret S E : MRet (stm S E) := fun A a s => (Ok a, s).
#[export] Instance stm_bind S E : MBind (stm S E) := fun A B f m s =>
  match m s with
  | (Ok a, s') => f a s'
  | (Err e, s') => (Err e, s')
  | (Panic, s') => (Panic, s')
  end.
Definition st_get {S E} : stm S E S := fun s => (Ok s, s).
Definition st_put {S E} (s : S) : stm S E unit := fun _ => (Ok tt, s).
Definition st_modify {S E} (f : S -> S) : stm S E unit := fun s => (Ok tt, f s).
Definition st_lift {S E A} (o : outcome E A) : stm S E A := fun s => (o, s).
Definition st_err {S E A} (e : E) : stm S E A := fun s => (Err e, s).
Definition st_map_err {S E E' A} (f : E -> E') (m : stm S E A) : stm S E' A :=
  fun s => let (o, s') := m s in (map_err f o, s').

Lemma bind_Ok {E A B} (f : A -> outcome E B) (m : outcome E A) b :
  (m ≫= f) = Ok b -> exists a, m = Ok a /\ f a = Ok b.
Proof. destruct m; simpl; [eauto | done | done]. Qed.

Lemma bind_not_Panic {E A B} (f : A -> outcome E B) (m : outcome E A) :
  m <> Panic -> (forall a, m = Ok a -> f a <> Panic) -> (m ≫= f) <> Panic.
Proof. destruct m; simpl; naive_solver. Qed.

Lemma st_bind_Ok {S E A B} (f : A -> stm S E B) (m : stm S E A) s b s' :
  (m ≫= f) s = (Ok b, s') -> exists a s1, m s = (Ok a, s1) /\ f a s1 = (Ok b, s').
Proof. unfold mbind, stm_bind. destruct (m s) as [[a|e|] s1]; naive_solver. Qed.

Lemma st_bind_not_Panic {S E A B} (f : A -> stm S E B) (m : stm S E A) s :
  fst (m s) <> Panic -> (forall a s', m s = (Ok a, s') -> fst (f a s') <> Panic) ->
  fst ((m ≫= f) s) <> Panic.
Proof. unfold mbind, stm_bind. destruct (m s) as [[a|e|] s1]; simpl; naive_solver. Qed.

Lemma st_bind_Err {S E A B} (f : A -> stm S E B) (m : stm S E A) s e s' :
  (m ≫= f) s = (Err e, s') ->
  m s = (Err e, s') \/ exists a s1, m s = (Ok a, s1) /\ f a s1 = (Err e, s').
Proof. unfold mbind, stm_bind. destruct (m s) as [[a|e1|] s1]; naive_solver. Qed.

Lemma st_lift_Ok {S E A} (o : outcome E A) (s s' : S) a :
  st_lift o s = (Ok a, s') -> o = Ok a /\ s' = s.
Proof. unfold st_lift. naive_solver. Qed.

Lemma ok_or_Ok {E A} (e : E) (o : option A) a : ok_or e o = Ok a <-> o = Some a.
Proof. destruct o; simpl; naive_solver. Qed.

Lemma expect_Ok {E A} (o : option A) a : @expect E A o = Ok a <-> o = Some a.
Proof. destruct o; simpl; naive_solver. Qed.

(** ** Ltac shared by the components *)

(** Splits a successful sequence of binds into the successes of its steps. *)
Ltac inv_ok :=
  repeat match goal with
  | H : _ ≫= _ = Ok _ |- _ => apply bind_Ok in H as (? & ? & H)
  | H : (_ ≫= _) _ = (Ok _, _) |- _ => apply st_bind_Ok in H as (? & ? & ? & H)
  | H : ok_or _ _ = Ok _ |- _ => apply ok_or_Ok in H
  | H : expect _ = Ok _ |- _ => apply expect_Ok in H
  | H : mret _ = Ok _ |- _ => unfold mret, outcome_ret in H
  | H : st_lift _ _ = (Ok _, _) |- _ => apply st_lift_Ok in H as [H ->]
  | H : st_get _ = (Ok _, _) |- _ => unfold st_get in H
  | H : st_put _ _ = (Ok _, _) |- _ => unfold st_put in H
  | H : st_modify _ _ = (Ok _, _) |- _ => unfold st_modify in H
  | H : st_err _ _ = (Ok _, _) |- _ => discriminate H
  | H : mret _ _ = (Ok _, _) |- _ => unfold mret, stm_ret in H
  | H : Ok _ = Ok _ |- _ => injection H as H; try subst
  | H : (Ok _, _) = (Ok _, _) |- _ => injection H as; try subst
  | H : Err _ = Ok _ |- _ => discriminate H
  | H : Panic = Ok _ |- _ => discriminate H
  | H : (Err _, _) = (Ok _, _) |- _ => discriminate H
  | H : (Panic, _) = (Ok _, _) |- _ => discriminate H
  end.

(** Case analysis on the outermost test of a hypothesis. *)
Ltac head_if H :=
  match type of H with
  | (if ?b then _ else _) = _ => let E := fresh "E" in destruct b eqn:E
  | (if ?b then _ else _) _ = _ => let E := fresh "E" in destruct b eqn:E
  end.

(** Case analysis on the boolean tests of the sources. *)
Ltac case_bool :=
  match goal with
  | |- context [if ?a <? ?b then _ else _] => destruct (Z.ltb_spec a b)
  | |- context [if ?a <=? ?b then _ else _] => destruct (Z.leb_spec a b)
  | |- context [if ?a =? ?b then _ else _] => destruct (Z.eqb_spec a b)
  | |- context [if ?b then _ else _] => let E := fresh "E" in destruct b eqn:E
  end.
Ltac case_bool_in H :=
  match type of H with
  | context [if ?a <? ?b then _ else _] => destruct (Z.ltb_spec a b)
  | context [if ?a <=? ?b then _ else _] => destruct (Z.leb_spec a b)
  | context [if ?a =? ?b then _ else _] => destruct (Z.eqb_spec a b)
  | context [if ?b then _ else _] => let E := fresh "E" in destruct b eqn:E
  end.

Lemma last_Some_app {A} (l : list A) x : last l = Some x -> exists l', l = l' ++ [x].
Proof. intros H. by apply last_Some in H. Qed.

Lemma last_is_Some {A} (l : list A) : l <> [] -> exists x, last l = Some x.
Proof. destruct (last l) eqn:E; [eauto|]. by apply last_None in E. Qed.

(** ** Lists whose neighbours are related *)

Fixpoint chain {A} (R : A -> A -> Prop) (l : list A) : Prop :=
  match l with
  | x :: (y :: _) as l' => R x y /\ chain R l'
  | _ => True
  end.

Section chain.
Context {A : Type} (R : A -> A -> Prop).

Lemma chain_tail x l : chain R (x :: l) -> chain R l.
Proof. destruct l; simpl; naive_solver. Qed.

Lemma chain_cons x l :
  chain R (x :: l) <-> (forall y, head l = Some y -> R x y) /\ chain R l.
Proof. destruct l; simpl; naive_solver. Qed.

Lemma chain_snoc l x :
  chain R (l ++ [x]) <-> chain R l /\ (forall y, last l = Some y -> R y x).
Proof.
  induction l as [|a l IH]; [simpl; naive_solver|].
  destruct l as [|b l]; [simpl; naive_solver|].
  change ((a :: b :: l) ++ [x]) with (a :: b :: (l ++ [x])).
  change (chain R (a :: b :: (l ++ [x]))) with (R a b /\ chain R ((b :: l) ++ [x])).
  rewrite IH. simpl. naive_solver.
Qed.

Lemma chain_mono (R' : A -> A -> Prop) l :
  (forall x y, R x y -> R' x y) -> chain R l -> chain R' l.
Proof.
  intros HR. induction l as [|a [|b l] IH]; simpl; [done..|].
  intros [??]. split; [auto|]. by apply IH.
Qed.

Lemma chain_trans_all `{!Transitive R} x l :
  chain R (x :: l) -> Forall (R x) l.
Proof.
  revert x. induction l as [|y l IH]; intros x; [done|].
  intros [Hxy Hl]. constructor; [done|].
  apply IH in Hl. eapply Forall_impl; [done|]. intros z ?. by etrans.
Qed.

Lemma chain_lookup l i x y :
  chain R l -> l !! i = Some x -> l !! S i = Some y -> R x y.
Proof.
  revert i. induction l as [|a l IH]; intros i Hc Hx Hy; [done|].
  destruct i as [|i].
  - destruct l; simpl in *; naive_solver.
  - apply (IH i); [by eapply chain_tail|done..].
Qed.

Lemma chain_intro l :
  (forall i x y, l !! i = Some x -> l !! S i = Some y -> R x y) -> chain R l.
Proof.
  induction l as [|a l IH]; intros H; [done|].
  apply chain_cons. split.
  - intros y Hy. destruct l as [|b l]; simplify_eq/=. by apply (H 0%nat).
  - apply IH. intros i x y Hx Hy. by apply (H (S i)).
Qed.

Lemma chain_lookup_lt `{!Transitive R} l i j x y :
  chain R l -> (i < j)%nat -> l !! i = Some x -> l !! j = Some y -> R x y.
Proof.
  intros Hc. revert y. induction j as [|j IH]; intros y Hij Hx Hy; [lia|].
  destruct (decide (i = j)) as [->|]; [by eapply chain_lookup|].
  destruct (lookup_lt_is_Some_2 l j) as [z Hz].
  { apply lookup_lt_Some in Hy. lia. }
  etrans; [apply (IH z); [lia|done..]|]. by eapply chain_lookup.
Qed.

Lemma chain_sublist `{!Transitive R} l k : sublist l k -> chain R k -> chain R l.
Proof.
  induction 1 as [|x l k Hs IH|x l k Hs IH]; intros Hc; [done| |].
  - apply chain_cons. split; [|by apply IH, (chain_tail x)].
    intros y Hy. apply chain_trans_all in Hc. rewrite Forall_forall in Hc. apply Hc.
    eapply elem_of_sublist; [|done]. destruct l; simplify_eq/=. by left.
  - by apply IH, (chain_tail x).
Qed.

Lemma chain_last_max `{!Transitive R} l x y :
  chain R l -> last l = Some x -> y ∈ l -> R y x \/ y = x.
Proof.
  intros Hc Hl Hy. apply last_Some_app in Hl as [l' ->].
  apply elem_of_app in Hy as [Hy|Hy]; [|right; by apply list_elem_of_singleton in Hy].
  left. apply list_elem_of_lookup in Hy as [i Hi].
  eapply (chain_lookup_lt (l' ++ [x]) i (length l')); [done| | |].
  - by eapply lookup_lt_Some.
  - by apply lookup_app_l_Some.
  - by rewrite lookup_app_r, Nat.sub_diag by lia.
Qed.
End chain.

Lemma chain_reverse {A} (R : A -> A -> Prop) l :
  chain R l -> chain (flip R) (reverse l).
Proof.
  induction l as [|a l IH]; intros Hc; [done|]. rewrite reverse_cons.
  apply chain_snoc. split; [by apply IH, (chain_tail _ a)|].
  intros y. rewrite last_reverse. apply chain_cons in Hc as [Hc _]. apply Hc.
Qed.

Lemma chain_map {A B} (f : A -> B) (R : B -> B -> Prop) (l : list A) :
  chain R (f <$> l) <-> chain (fun x y => R (f x) (f y)) l.
Proof. induction l as [|a [|b l] IH]; simpl in *; naive_solver. Qed.

#[export] Instance Z_gt_trans : Transitive Z.gt.
Proof. intros x y z. lia. Qed.

(** ** Occurrences of a key in a list *)

Fixpoint occ (a : Z) (l : list Z) : Z :=
  match l with
  | [] => 0
  | b :: l => (if bool_decide (b = a) then 1 else 0) + occ a l
  end.

Lemma occ_nonneg a l : 0 <= occ a l.
Proof. induction l; simpl; [lia|]. case_bool_decide; lia. Qed.
Lemma occ_pos a l : 0 < occ a l <-> a ∈ l.
Proof.
  induction l as [|b l IH]; simpl.
  - rewrite elem_of_nil. lia.
  - rewrite elem_of_cons, <-IH. pose proof (occ_nonneg a l). case_bool_decide; naive_solver lia.
Qed.
Lemma occ_length a l : occ a l <= Z.of_nat (length l).
Proof. induction l; simpl length; cbn [occ]; [done|]. case_bool_decide; lia. Qed.
Lemma occ_app a l1 l2 : occ a (l1 ++ l2) = occ a l1 + occ a l2.
Proof. induction l1; simpl; lia. Qed.
Lemma occ_NoDup a l : NoDup l -> occ a l <= 1.
Proof.
  induction 1 as [|b l Hb Hl IH]; simpl; [lia|]. case_bool_decide; [subst|lia].
  assert (occ a l = 0); [|lia]. destruct (decide (0 < occ a l)) as [H|].
  - by apply occ_pos in H.
  - pose proof (occ_nonneg a l). lia.
Qed.

Lemma filter_all {A} (P : A -> Prop) `{!forall x, Decision (P x)} (l : list A) :
  (forall x, x ∈ l -> P x) -> filter P l = l.
Proof.
  induction l as [|x l IH]; intros HP; [done|]. rewrite filter_cons_True by (apply HP; left).
  rewrite IH; [done|]. intros y Hy. apply HP. by right.
Qed.

Lemma filter_ext_in {A} (P R : A -> Prop) `{!forall x, Decision (P x), !forall x, Decision (R x)}
    (l : list A) :
  (forall x, x ∈ l -> P x <-> R x) -> filter P l = filter R l.
Proof.
  induction l as [|x l IH]; intros HP; [done|]. rewrite !filter_cons.
  rewrite IH by (intros; apply HP; by right).
  assert (P x <-> R x) by (apply HP; left). repeat case_decide; tauto.
Qed.

Lemma NoDup_fmap_inj {A B} (f : A -> B) (l : list A) x y :
  NoDup (f <$> l) -> x ∈ l -> y ∈ l -> f x = f y -> x = y.
Proof.
  induction l as [|z l IH]; [set_solver|]. intros [Hz Hnd]%NoDup_cons Hx Hy He.
  apply elem_of_cons in Hx as [->|Hx], Hy as [->|Hy]; auto.
  - destruct Hz. rewrite He. by apply list_elem_of_fmap_2.
  - destruct Hz. rewrite <-He. by apply list_elem_of_fmap_2.
Qed.

Lemma length_filter_ne {A} `{EqDecision A} (l : list A) x :
  NoDup l -> x ∈ l -> length l = S (length (filter (fun y => y <> x) l)).
Proof.
  induction l as [|y l IH]; [set_solver|]. intros [Hy Hnd]%NoDup_cons Hx. rewrite filter_cons.
  destruct (decide (y = x)) as [->|Hyx].
  - rewrite decide_False by auto. rewrite filter_all; [done|]. by intros z Hz ->.
  - rewrite decide_True by done. simpl. f_equal. apply IH; [done|]. set_solver.
Qed.

(** ** Sums over lists and maps *)

Definition zsum {A} (f : A -> Z) (l : list A) : Z := foldr (fun x s => f x + s) 0 l.

Section zsum.
Context {A : Type}.
Implicit Types (f g : A -> Z) (l k : list A).

#[export] Instance zsum_perm f : Proper ((≡ₚ) ==> eq) (zsum f).
Proof. induction 1; simpl; lia. Qed.

Lemma zsum_app f l k : zsum f (l ++ k) = zsum f l + zsum f k.
Proof. induction l; simpl; lia. Qed.

Lemma zsum_ext f g l : (forall x, x ∈ l -> f x = g x) -> zsum f l = zsum g l.
Proof.
  induction l as [|x l IH]; intros H; [done|]. simpl. rewrite (H x) by left.
  rewrite IH; [done|]. intros y Hy. apply H. by right.
Qed.

Lemma zsum_nonneg f l : (forall x, x ∈ l -> 0 <= f x) -> 0 <= zsum f l.
Proof.
  induction l as [|x l IH]; intros H; [done|]. simpl. pose proof (H x ltac:(left)).
  assert (0 <= zsum f l); [|lia]. apply IH. intros y Hy. apply H. by right.
Qed.

Lemma zsum_le f g l : (forall x, x ∈ l -> f x <= g x) -> zsum f l <= zsum g l.
Proof.
  induction l as [|x l IH]; intros H; [done|]. simpl. pose proof (H x ltac:(left)).
  assert (zsum f l <= zsum g l); [|lia]. apply IH. intros y Hy. apply H. by right.
Qed.

Lemma zsum_elem f l x : (forall y, y ∈ l -> 0 <= f y) -> x ∈ l -> f x <= zsum f l.
Proof.
  intros H (l1 & l2 & ->)%list_elem_of_split. rewrite zsum_app. simpl.
  assert (0 <= zsum f l1) by (apply zsum_nonneg; intros; apply H; set_solver).
  assert (0 <= zsum f l2) by (apply zsum_nonneg; intros; apply H; set_solver). lia.
Qed.

Lemma zsum_zero f l : (forall x, x ∈ l -> f x = 0) -> zsum f l = 0.
Proof. intros H. rewrite (zsum_ext f (fun _ => 0)) by done. induction l; simpl; set_solver. Qed.

Lemma zsum_add f g l : zsum (fun x => f x + g x) l = zsum f l + zsum g l.
Proof. induction l; simpl; lia. Qed.

(** The sum of a function that vanishes but at one element of a list without repeats. *)
Lemma zsum_single `{EqDecision A} x v l :
  NoDup l -> zsum (fun y => if decide (x = y) then v else 0) l = if decide (x ∈ l) then v else 0.
Proof.
  induction 1 as [|y l Hy Hl IH]; simpl; [done|]. rewrite IH.
  destruct (decide (x = y)) as [->|Hne].
  - rewrite decide_False by done. rewrite decide_True by left. lia.
  - destruct (decide (x ∈ l)).
    + rewrite decide_True by (by right). lia.
    + rewrite decide_False by (rewrite elem_of_cons; naive_solver). lia.
Qed.

Lemma zsum_submseteq f l k : (forall x, x ∈ k -> 0 <= f x) -> l ⊆+ k -> zsum f l <= zsum f k.
Proof.
  intros H [k' Hk]%submseteq_Permutation. rewrite Hk, zsum_app.
  assert (0 <= zsum f k'); [|lia]. apply zsum_nonneg. intros x Hx. apply H. rewrite Hk. set_solver.
Qed.
End zsum.

Lemma zsum_swap {A B} (f : A -> B -> Z) l k :
  zsum (fun x => zsum (f x) k) l = zsum (fun y => zsum (fun x => f x y) l) k.
Proof.
  induction l as [|x l IH]; simpl.
  - symmetry. by apply zsum_zero.
  - by rewrite IH, <-zsum_add.
Qed.

Lemma zsum_fmap {A B} (f : B -> Z) (g : A -> B) l : zsum f (g <$> l) = zsum (fun x => f (g x)) l.
Proof. induction l as [|x l IH]; [done|]. rewrite fmap_cons. simpl. by rewrite IH. Qed.

Definition msum {K} `{Countable K} {A} (f : K -> A -> Z) (m : gmap K A) : Z :=
  zsum (fun x => f x.1 x.2) (map_to_list m).

Section msum.
Context {K : Type} `{Countable K} {A : Type}.
Implicit Types (f g : K -> A -> Z) (m : gmap K A).

Lemma msum_empty f : msum f (∅ : gmap K A) = 0.
Proof. unfold msum. by rewrite map_to_list_empty. Qed.

Lemma msum_insert f m k x : m !! k = None -> msum f (<[k:=x]> m) = f k x + msum f m.
Proof. intros Hk. unfold msum. by rewrite map_to_list_insert. Qed.

Lemma msum_delete f m k x : m !! k = Some x -> msum f m = f k x + msum f (delete k m).
Proof.
  intros Hk. rewrite <-(msum_insert f (delete k m)) by apply lookup_delete_eq.
  by rewrite insert_delete_id.
Qed.

Lemma msum_update f m k x y :
  m !! k = Some x -> msum f (<[k:=y]> m) = msum f m - f k x + f k y.
Proof.
  intros Hk. rewrite <-insert_delete_eq, msum_insert by apply lookup_delete_eq.
  rewrite (msum_delete f m k x) by done. lia.
Qed.

Lemma msum_le f g m :
  (forall k x, m !! k = Some x -> f k x <= g k x) -> msum f m <= msum g m.
Proof.
  intros Hm. apply zsum_le. intros [k x] Hkx%elem_of_map_to_list. by apply Hm.
Qed.

Lemma msum_ext f g m :
  (forall k x, m !! k = Some x -> f k x = g k x) -> msum f m = msum g m.
Proof.
  intros Hm. apply zsum_ext. intros [k x] Hkx%elem_of_map_to_list. by apply Hm.
Qed.

Lemma msum_nonneg f m : (forall k x, m !! k = Some x -> 0 <= f k x) -> 0 <= msum f m.
Proof.
  intros Hm. apply zsum_nonneg. intros [k x] Hkx%elem_of_map_to_list. by apply Hm.
Qed.

Lemma msum_zero f m : (forall k x, m !! k = Some x -> f k x = 0) -> msum f m = 0.
Proof.
  intros Hm. apply zsum_zero. intros [k x] Hkx%elem_of_map_to_list. by apply Hm.
Qed.

Lemma msum_elem f m k x :
  (forall k x, m !! k = Some x -> 0 <= f k x) -> m !! k = Some x -> f k x <= msum f m.
Proof.
  intros Hf Hk. rewrite (msum_delete f m k x Hk).
  assert (0 <= msum f (delete k m)); [|lia].
  apply msum_nonneg. intros ?? [_ ?]%lookup_delete_Some. auto.
Qed.

(** The part of a sum over the keys of a list without repeats. *)
Lemma msum_part f m (l : list K) :
  (forall k x, m !! k = Some x -> 0 <= f k x) -> NoDup l ->
  zsum (fun k => from_option (f k) 0 (m !! k)) l <= msum f m.
Proof.
  intros Hf Hl. revert m Hf. induction Hl as [|k l Hk Hl IH]; intros m Hf; simpl.
  { by apply msum_nonneg. }
  assert (forall k' x, delete k m !! k' = Some x -> 0 <= f k' x) as Hf'.
  { intros ?? [_ ?]%lookup_delete_Some. auto. }
  specialize (IH _ Hf').
  rewrite (zsum_ext _ (fun k => from_option (f k) 0 (m !! k))) in IH.
  2: { intros y Hy. rewrite lookup_delete_ne; [done|]. by intros ->. }
  destruct (m !! k) as [x|] eqn:E; simpl.
  - rewrite (msum_delete f m k x E). lia.
  - by rewrite delete_id in IH.
Qed.
End msum.
