(* ===== verification/VoteInterface.v ===== *)
(** * Interface of the external crate [solana_vote_interface]

    The vote program and the tower are written against [Lockout],
    [LandedVote] and [AuthorizedVoters], which live in a crate that is not part
    of the repository.  [VoteInterface] lists the operations the sources call;
    [VoteInterfaceLaws] states the documented behaviour the proofs rely on.
    [vote_model] is one concrete instance, used to evaluate the definitions. *)

From S2P Require Import Prelude.
Local Open Scope Z_scope.

(** The errors of the vote program the sources name. *)
Inductive VoteError :=
| EmptySlots | VoteTooOld | SlotsMismatch | SlotHashMismatch | TimestampTooOld
| TooSoonToReauthorize | LockoutConflict | NewVoteStateLockoutMismatch
| SlotsNotOrdered | ConfirmationsNotOrdered | ZeroConfirmations
| ConfirmationTooLarge | RootRollBack | ConfirmationRollBack
| SlotSmallerThanRoot | TooManyVotes | VotesTooOldAllFiltered
| RootOnDifferentFork | ActiveVoteAccountClose | CommissionUpdateTooLate
| AssertionFailed.

(** A vote that landed, with its latency in slots ([u8]); the sources build it
    and read it by field. *)
Record LandedVote {Lockout : Type} := mk_landed {
  latency : Z;
  lockout : Lockout;
}.
Arguments LandedVote : clear implicits.
Arguments mk_landed {Lockout} _ _.

Class VoteInterface := {
  Lockout : Type;
  lockout_eq_dec :: EqDecision Lockout;
  lockout_new : Slot -> Lockout;
  lockout_slot : Lockout -> Slot;
  lockout_confirmation_count : Lockout -> Z;
  lockout_last_locked_out_slot : Lockout -> Slot;
  lockout_is_locked_out_at_slot : Lockout -> Slot -> bool;
  lockout_increase_confirmation_count : Z -> Lockout -> Lockout;
  landed_slot : LandedVote Lockout -> Slot;
  landed_confirmation_count : LandedVote Lockout -> Z;
  landed_from : Lockout -> LandedVote Lockout;
  landed_into : LandedVote Lockout -> Lockout;
  AuthorizedVoters : Type;
  av_contains : AuthorizedVoters -> Epoch -> bool;
  av_insert : Epoch -> Pubkey -> AuthorizedVoters -> AuthorizedVoters;
  av_get_and_cache : Epoch -> AuthorizedVoters -> option Pubkey * AuthorizedVoters;
  av_purge : Epoch -> AuthorizedVoters -> AuthorizedVoters;
  MAX_LOCKOUT_HISTORY : nat;
  MAX_EPOCH_CREDITS_HISTORY : nat;
  VOTE_CREDITS_GRACE_SLOTS : Z;
  VOTE_CREDITS_MAXIMUM_PER_SLOT : Z;
}.

Class VoteInterfaceLaws (VI : VoteInterface) : Prop := {
  (** [Lockout::new(slot)] has that slot and one confirmation. *)
  new_slot s : lockout_slot (lockout_new s) = s;
  new_count s : lockout_confirmation_count (lockout_new s) = 1;
  (** Increasing the confirmation count keeps the slot. *)
  increase_slot n l : lockout_slot (lockout_increase_confirmation_count n l) = lockout_slot l;
  increase_count n l : 0 <= n -> lockout_confirmation_count l + n <= u32_max ->
    lockout_confirmation_count (lockout_increase_confirmation_count n l) =
    lockout_confirmation_count l + n;
  (** A slot is locked out up to and including [last_locked_out_slot]. *)
  locked_out_spec l s :
    lockout_is_locked_out_at_slot l s = (s <=? lockout_last_locked_out_slot l);
  (** More confirmations never shorten a lockout. *)
  last_locked_out_mono l l' :
    lockout_slot l = lockout_slot l' ->
    lockout_confirmation_count l <= lockout_confirmation_count l' ->
    lockout_last_locked_out_slot l <= lockout_last_locked_out_slot l';
  count_nonneg l : 0 <= lockout_confirmation_count l;
  (** [LandedVote] delegates to its lockout; one made from a lockout has latency 0. *)
  landed_slot_spec v : landed_slot v = lockout_slot (lockout v);
  landed_count_spec v :
    landed_confirmation_count v = lockout_confirmation_count (lockout v);
  landed_from_spec l : landed_from l = mk_landed 0 l;
  landed_into_spec v : landed_into v = lockout v;
  max_lockout_history_pos : (0 < MAX_LOCKOUT_HISTORY)%nat;
  max_lockout_history_small : Z.of_nat MAX_LOCKOUT_HISTORY < u32_max;
  max_epoch_credits_pos : (0 < MAX_EPOCH_CREDITS_HISTORY)%nat;
  grace_u8 : is_u u8_max VOTE_CREDITS_GRACE_SLOTS;
  max_credits_u8 : 1 <= VOTE_CREDITS_MAXIMUM_PER_SLOT <= u8_max;
}.

Create Rewrite HintDb vote.
#[export] Hint Rewrite @new_slot @new_count @increase_slot @landed_slot_spec
  @landed_count_spec @landed_from_spec @locked_out_spec using typeclasses eauto : vote.

(** ** A concrete instance *)

Record model_lockout := mk_model_lockout { ml_slot : Z; ml_count : Z }.

#[export] Instance model_lockout_eq_dec : EqDecision model_lockout.
Proof. solve_decision. Defined.

Definition ml_last (l : model_lockout) : Z :=
  saturating_add u64_max (ml_slot l) (2 ^ Z.min (Z.max 0 (ml_count l)) 31).

(** The greatest epoch of the map not after [e]. *)
Definition model_av_at (e : Z) (m : gmap Z Z) : option Z :=
  snd <$> map_fold (fun k v (acc : option (Z * Z)) =>
    if k <=? e then
      match acc with
      | Some (k', _) => if k' <? k then Some (k, v) else acc
      | None => Some (k, v)
      end
    else acc) None m.

Definition vote_model : VoteInterface := {|
  Lockout := model_lockout;
  lockout_new s := mk_model_lockout s 1;
  lockout_slot := ml_slot;
  lockout_confirmation_count l := Z.max 0 (ml_count l);
  lockout_last_locked_out_slot := ml_last;
  lockout_is_locked_out_at_slot l s := s <=? ml_last l;
  lockout_increase_confirmation_count n l :=
    mk_model_lockout (ml_slot l) (saturating_add u32_max (Z.max 0 (ml_count l)) n);
  landed_slot v := ml_slot (lockout v);
  landed_confirmation_count v := Z.max 0 (ml_count (lockout v));
  landed_from l := mk_landed 0 l;
  landed_into v := lockout v;
  AuthorizedVoters := gmap Z Z;
  av_contains m e := bool_decide (is_Some (m !! e));
  av_insert e k m := <[e := k]> m;
  av_get_and_cache e m :=
    match model_av_at e m with
    | Some k => (Some k, <[e := k]> m)
    | None => (None, m)
    end;
  av_purge e m := filter (fun kv => e <= kv.1) m;
  MAX_LOCKOUT_HISTORY := 31;
  MAX_EPOCH_CREDITS_HISTORY := 64;
  VOTE_CREDITS_GRACE_SLOTS := 2;
  VOTE_CREDITS_MAXIMUM_PER_SLOT := 16;
|}.

Lemma vote_model_laws : VoteInterfaceLaws vote_model.
Proof.
  split; cbn; unfold is_u, u8_max, u32_max, saturating_add; try done; try lia.
  intros [s c] [s' c']; unfold ml_last, saturating_add; cbn. intros -> ?.
  assert (2 ^ Z.min (Z.max 0 c) 31 <= 2 ^ Z.min (Z.max 0 c') 31); [|lia].
  apply Z.pow_le_mono_r; lia.
Qed.
