(* ===== verification/VoteState.v ===== *)
(** * The on-chain vote state

    Models [programs/vote/src/vote_state/handler.rs] (the [VoteStateHandler]
    and its tower) and the vote-processing part of
    [programs/vote/src/vote_state/mod.rs] ([check_and_filter_proposed_vote_state],
    [check_slots_are_valid], [process_new_vote_state], [process_vote] and their
    callers).  The theorems are in [VoteStateProofs]. *)

From S2P Require Import Prelude VoteInterface.
Local Open Scope Z_scope.

Record BlockTimestamp := mk_ts { ts_slot : Slot; ts_timestamp : Z }.

#[export] Instance BlockTimestamp_eq_dec : EqDecision BlockTimestamp.
Proof. solve_decision. Defined.

Section VoteState.
Context {VI : VoteInterface}.

Abbreviation Landed := (LandedVote Lockout).

(** ** State *)

Record VoteStateV4 := mk_v4 {
  node_pubkey_ : Pubkey;
  authorized_withdrawer_ : Pubkey;
  inflation_rewards_collector_ : Pubkey;
  block_revenue_collector_ : Pubkey;
  inflation_rewards_commission_bps_ : Z;
  block_revenue_commission_bps_ : Z;
  pending_delegator_rewards_ : Z;
  bls_pubkey_compressed_ : option Z;
  votes_ : list Landed;
  root_slot_ : option Slot;
  authorized_voters_ : AuthorizedVoters;
  epoch_credits_ : list (Epoch * Z * Z);
  last_timestamp_ : BlockTimestamp;
}.

Inductive TargetVoteState :=
| TV4 (v4 : VoteStateV4).

Record VoteStateHandler := mk_handler { target_state : TargetVoteState }.

Definition v4_of (h : VoteStateHandler) : VoteStateV4 :=
  match target_state h with TV4 v4 => v4 end.
Definition new_v4 (v4 : VoteStateV4) : VoteStateHandler := mk_handler (TV4 v4).

Definition votes (h : VoteStateHandler) : list Landed := votes_ (v4_of h).
Definition root_slot (h : VoteStateHandler) : option Slot := root_slot_ (v4_of h).
Definition epoch_credits (h : VoteStateHandler) : list (Epoch * Z * Z) :=
  epoch_credits_ (v4_of h).
Definition last_timestamp (h : VoteStateHandler) : BlockTimestamp :=
  last_timestamp_ (v4_of h).

Definition set_votes (x : list Landed) (h : VoteStateHandler) : VoteStateHandler :=
  match target_state h with
  | TV4 (mk_v4 a b c d e f g i _ k l m n) => new_v4 (mk_v4 a b c d e f g i x k l m n)
  end.
Definition set_root_slot (x : option Slot) (h : VoteStateHandler) : VoteStateHandler :=
  match target_state h with
  | TV4 (mk_v4 a b c d e f g i j _ l m n) => new_v4 (mk_v4 a b c d e f g i j x l m n)
  end.
Definition set_epoch_credits (x : list (Epoch * Z * Z)) (h : VoteStateHandler) :
    VoteStateHandler :=
  match target_state h with
  | TV4 (mk_v4 a b c d e f g i j k l _ n) => new_v4 (mk_v4 a b c d e f g i j k l x n)
  end.
Definition set_last_timestamp (x : BlockTimestamp) (h : VoteStateHandler) :
    VoteStateHandler :=
  match target_state h with
  | TV4 (mk_v4 a b c d e f g i j k l m _) => new_v4 (mk_v4 a b c d e f g i j k l m x)
  end.

(** ** Queries on the tower *)

Definition last_lockout (h : VoteStateHandler) : option Lockout :=
  lockout <$> last (votes h).
Definition last_voted_slot (h : VoteStateHandler) : option Slot :=
  lockout_slot <$> last_lockout h.
Definition current_epoch (h : VoteStateHandler) : Epoch :=
  match last (epoch_credits h) with
  | None => 0
  | Some (e, _, _) => e
  end.

(** The standard library's binary search by key: is some element of [l] in the
    window [lo, lo + size) equal to [key]?  [size] halves at every step. *)
Fixpoint binary_search (fuel : nat) (l : list Z) (key : Z) (lo size : nat) : bool :=
  match fuel with
  | O => false
  | S fuel =>
    if (size =? 0)%nat then false
    else
      let mid := (lo + size / 2)%nat in
      match l !! mid with
      | None => false
      | Some x =>
        match Z.compare x key with
        | Eq => true
        | Lt => binary_search fuel l key (S mid) (size - size / 2 - 1)
        | Gt => binary_search fuel l key lo (size / 2)
        end
      end
  end.

Definition contains_slot (h : VoteStateHandler) (candidate_slot : Slot) : bool :=
  let l := landed_slot <$> votes h in
  binary_search (S (length l)) l candidate_slot 0 (length l).

(** ** Credits and timestamps *)

Definition compute_vote_latency (voted_for_slot current_slot : Slot) : Z :=
  Z.min (saturating_sub current_slot voted_for_slot) u8_max.

Definition credits_for_vote_at_index (h : VoteStateHandler) (index : nat) : Z :=
  let latency := match votes h !! index with Some v => latency v | None => 0 end in
  if latency =? 0 then 1
  else
    match checked_sub latency VOTE_CREDITS_GRACE_SLOTS with
    | None => VOTE_CREDITS_MAXIMUM_PER_SLOT
    | Some diff =>
      if diff =? 0 then VOTE_CREDITS_MAXIMUM_PER_SLOT
      else
        match checked_sub VOTE_CREDITS_MAXIMUM_PER_SLOT diff with
        | None => 1
        | Some credits => if credits =? 0 then 1 else credits
        end
    end.

(** [l.last_mut().unwrap()] replaced by its image under [f]. *)
Definition update_last {E A} (f : A -> A) (l : list A) : outcome E (list A) :=
  match last l with
  | None => Panic
  | Some _ => Ok (alter f (length l - 1)%nat l)
  end.

Definition increment_credits {E} (epoch : Epoch) (credits : Z) (h : VoteStateHandler) :
    outcome E VoteStateHandler :=
  ec ←
    match last (epoch_credits h) with
    | None => Ok (epoch_credits h ++ [(epoch, 0, 0)])
    | Some (last_epoch, last_credits, prev_credits) =>
      if decide (epoch <> last_epoch) then
        ec ← (if decide (last_credits <> prev_credits)
              then Ok (epoch_credits h ++ [(epoch, last_credits, last_credits)])
              else update_last (fun '(_, c, p) => (epoch, c, p)) (epoch_credits h));
        (* remove too old epoch credits *)
        Ok (if (MAX_EPOCH_CREDITS_HISTORY <? length ec)%nat then tail ec else ec)
      else Ok (epoch_credits h)
    end;
  ec ← update_last (fun '(e, c, p) => (e, saturating_add u64_max c credits, p)) ec;
  Ok (set_epoch_credits ec h).

Definition process_timestamp (slot : Slot) (timestamp : Z) :
    stm VoteStateHandler VoteError unit :=
  h ← st_get;
  let lt := last_timestamp h in
  if (slot <? ts_slot lt) || (timestamp <? ts_timestamp lt)
     || ((slot =? ts_slot lt) && negb (bool_decide (mk_ts slot timestamp = lt))
         && negb (ts_slot lt =? 0))
  then st_err TimestampTooOld
  else st_modify (set_last_timestamp (mk_ts slot timestamp)).

(** ** Pushing one vote *)

(** The [while let Some(vote) = self.last_lockout()] loop, on the reversed tower. *)
Fixpoint pop_expired_rev (next_vote_slot : Slot) (rev_votes : list Landed) : list Landed :=
  match rev_votes with
  | [] => []
  | v :: rest =>
    if negb (lockout_is_locked_out_at_slot (lockout v) next_vote_slot)
    then pop_expired_rev next_vote_slot rest
    else rev_votes
  end.

Definition pop_expired_votes (next_vote_slot : Slot) (h : VoteStateHandler) :
    VoteStateHandler :=
  set_votes (reverse (pop_expired_rev next_vote_slot (reverse (votes h)))) h.

Definition double_lockout_at (stack_depth i : nat) (v : Landed) : Landed :=
  if Z.of_nat i + landed_confirmation_count v <? Z.of_nat stack_depth
  then mk_landed (latency v) (lockout_increase_confirmation_count 1 (lockout v))
  else v.

Definition double_lockouts (h : VoteStateHandler) : VoteStateHandler :=
  set_votes (imap (double_lockout_at (length (votes h))) (votes h)) h.

Definition process_next_vote_slot {E} (next_vote_slot : Slot) (epoch : Epoch)
    (current_slot : Slot) (h : VoteStateHandler) : outcome E VoteStateHandler :=
  if match last_voted_slot h with Some s => next_vote_slot <=? s | None => false end
  then Ok h
  else
    let h := pop_expired_votes next_vote_slot h in
    let landed_vote :=
      mk_landed (compute_vote_latency next_vote_slot current_slot)
                (lockout_new next_vote_slot) in
    h ← (if (length (votes h) =? MAX_LOCKOUT_HISTORY)%nat then
           let credits := credits_for_vote_at_index h 0 in
           match votes h with
           | [] => Panic
           | oldest :: rest =>
             let h := set_votes rest h in
             let h := set_root_slot (Some (landed_slot oldest)) h in
             increment_credits epoch credits h
           end
         else Ok h);
    let h := set_votes (votes h ++ [landed_vote]) h in
    Ok (double_lockouts h).

(** ** Replacing the tower *)

(** The rollback check on the root, before the loops. *)
Definition check_root_rollback (new_root current_root : option Slot) :
    outcome VoteError unit :=
  match new_root, current_root with
  | Some n, Some c => if n <? c then Err RootRollBack else Ok tt
  | None, Some _ => Err RootRollBack
  | _, None => Ok tt
  end.

(** The first loop: every vote of the proposed tower against its predecessor. *)
Fixpoint check_new_votes (new_root : option Slot) (previous_vote : option Landed)
    (new_state : list Landed) : outcome VoteError unit :=
  match new_state with
  | [] => Ok tt
  | vote :: rest =>
    if landed_confirmation_count vote =? 0 then Err ZeroConfirmations
    else if Z.of_nat MAX_LOCKOUT_HISTORY <? landed_confirmation_count vote
    then Err ConfirmationTooLarge
    else if match new_root with
            | Some r => (landed_slot vote <=? r) && negb (r =? 0)
            | None => false
            end
    then Err SlotSmallerThanRoot
    else
      _ ← match previous_vote with
          | None => Ok tt
          | Some p =>
            if landed_slot vote <=? landed_slot p then Err SlotsNotOrdered
            else if landed_confirmation_count p <=? landed_confirmation_count vote
            then Err ConfirmationsNotOrdered
            else if lockout_last_locked_out_slot (lockout p) <? landed_slot vote
            then Err NewVoteStateLockoutMismatch
            else Ok tt
          end;
      check_new_votes new_root (Some vote) rest
  end.

(** The second loop: credits of the current votes the new root finalizes, and
    the index of the first one it does not. *)
Fixpoint rooted_credits {E} (h : VoteStateHandler) (new_root : Slot)
    (current_votes : list Landed) (earned_credits : Z) (index : nat) :
    outcome E (Z * nat) :=
  match current_votes with
  | [] => Ok (earned_credits, index)
  | v :: rest =>
    if landed_slot v <=? new_root then
      earned ← expect (checked_add u64_max earned_credits (credits_for_vote_at_index h index));
      rooted_credits h new_root rest earned (S index)
    else Ok (earned_credits, index)
  end.

(** The third loop: two cursors over the current and the proposed votes. *)
Fixpoint merge_votes (current : list Landed) :
    list Landed -> outcome VoteError (list Landed) :=
  fix go (new_state : list Landed) : outcome VoteError (list Landed) :=
    match current, new_state with
    | [], _ => Ok new_state
    | _, [] => Ok []
    | c :: current', n :: new' =>
      match Z.compare (landed_slot c) (landed_slot n) with
      | Lt =>
        if landed_slot n <=? lockout_last_locked_out_slot (lockout c)
        then Err LockoutConflict
        else merge_votes current' new_state
      | Eq =>
        if landed_confirmation_count n <? landed_confirmation_count c
        then Err ConfirmationRollBack
        else
          rest ← merge_votes current' new';
          Ok (mk_landed (latency c) (lockout n) :: rest)
      | Gt =>
        rest ← go new';
        Ok (n :: rest)
      end
    end.

Definition set_latency (current_slot : Slot) (v : Landed) : Landed :=
  if latency v =? 0
  then mk_landed (compute_vote_latency (landed_slot v) current_slot) (lockout v)
  else v.

Definition process_new_vote_state (new_state : list Landed) (new_root : option Slot)
    (timestamp : option Z) (epoch : Epoch) (current_slot : Slot) :
    stm VoteStateHandler VoteError unit :=
  h ← st_get;
  if (length new_state =? 0)%nat then st_lift Panic
  else if (MAX_LOCKOUT_HISTORY <? length new_state)%nat then st_err TooManyVotes
  else
    _ ← st_lift (check_root_rollback new_root (root_slot h));
    _ ← st_lift (check_new_votes new_root None new_state);
    '(earned_credits, index) ←
      st_lift (match new_root with
               | Some r => rooted_credits h r (votes h) 0 0
               | None => Ok (0, 0%nat)
               end);
    merged ← st_lift (merge_votes (drop index (votes h)) new_state);
    let new_state := set_latency current_slot <$> merged in
    _ ← (if decide (root_slot h <> new_root) then
           h' ← st_lift (increment_credits epoch earned_credits h);
           st_put h'
         else mret tt);
    _ ← match timestamp with
        | Some t =>
          v ← st_lift (expect (last new_state));
          process_timestamp (landed_slot v) t
        | None => mret tt
        end;
    _ ← st_modify (set_root_slot new_root);
    st_modify (set_votes new_state).

(** ** Checking a proposed tower against the slot hashes *)

(** The root too old for the slot hashes is replaced by the latest vote not
    after it, or by the current root. *)
Definition find_root_vote (h : VoteStateHandler) (root : Slot) : option Landed :=
  list_find (fun v => landed_slot v <= root) (reverse (votes h)) ≫= fun '(_, v) => Some v.

Definition overwrite_old_root (h : VoteStateHandler) (earliest : Slot)
    (proposed_root : option Slot) : option Slot :=
  match proposed_root with
  | Some root =>
    if root <? earliest then
      match find_root_vote h root with
      | Some v => Some (landed_slot v)
      | None => root_slot h
      end
    else proposed_root
  | None => None
  end.

(** The [while] loop over the proposed lockouts ([i], ascending) and the slot
    hashes ([j], from the oldest, at the end, to the newest).  Every iteration
    clears [root_to_check], increments [i] or decrements [j]. *)
Fixpoint filter_loop (fuel : nat) (h : VoteStateHandler) (lockouts : list Lockout)
    (slot_hashes : list (Slot * Hash)) (earliest : Slot)
    (root_to_check : option Slot) (i j : nat) (to_filter : list nat) :
    outcome VoteError (nat * nat * list nat) :=
  if ((i <? length lockouts) && (0 <? j))%nat then
    match fuel with
    | O => Panic
    | S fuel =>
      proposed_vote_slot ←
        match root_to_check with
        | Some root => Ok root
        | None => lockout_slot <$> expect (lockouts !! i)
        end;
      unordered ←
        (if decide (root_to_check = None /\ (0 < i)%nat) then
           prev ← expect (lockouts !! (i - 1)%nat);
           Ok (proposed_vote_slot <=? lockout_slot prev)
         else Ok false);
      if (unordered : bool) then Err SlotsNotOrdered
      else
        ancestor ← expect (slot_hashes !! (j - 1)%nat);
        match Z.compare proposed_vote_slot (fst ancestor) with
        | Lt =>
          if (j =? length slot_hashes)%nat then
            if earliest <=? proposed_vote_slot then Err AssertionFailed
            else
              let to_filter :=
                if negb (contains_slot h proposed_vote_slot) && bool_decide (root_to_check = None)
                then to_filter ++ [i] else to_filter in
              match root_to_check with
              | Some new_proposed_root =>
                if negb (new_proposed_root =? proposed_vote_slot) then Panic
                else if earliest <=? new_proposed_root then Err AssertionFailed
                else filter_loop fuel h lockouts slot_hashes earliest None i j to_filter
              | None =>
                filter_loop fuel h lockouts slot_hashes earliest None (S i) j to_filter
              end
          else
            match root_to_check with
            | Some _ => Err RootOnDifferentFork
            | None => Err SlotsMismatch
            end
        | Gt =>
          filter_loop fuel h lockouts slot_hashes earliest root_to_check i (j - 1) to_filter
        | Eq =>
          match root_to_check with
          | Some _ => filter_loop fuel h lockouts slot_hashes earliest None i j to_filter
          | None =>
            filter_loop fuel h lockouts slot_hashes earliest None (S i) (j - 1) to_filter
          end
        end
    end
  else Ok (i, j, to_filter).

(** The [retain] closure, with its two running indices. *)
Fixpoint retain_unfiltered (to_filter : list nat) (index filter_index : nat)
    (lockouts : list Lockout) : list Lockout :=
  match lockouts with
  | [] => []
  | l :: rest =>
    match to_filter !! filter_index with
    | None => l :: retain_unfiltered to_filter (S index) filter_index rest
    | Some k =>
      if (index =? k)%nat
      then retain_unfiltered to_filter (S index) (S filter_index) rest
      else l :: retain_unfiltered to_filter (S index) filter_index rest
    end
  end.

(** Returns the filtered lockouts and the adjusted root. *)
Definition check_and_filter_proposed_vote_state (h : VoteStateHandler)
    (proposed_lockouts : list Lockout) (proposed_root : option Slot)
    (proposed_hash : Hash) (slot_hashes : list (Slot * Hash)) :
    outcome VoteError (list Lockout * option Slot) :=
  match last proposed_lockouts with
  | None => Err EmptySlots
  | Some last_proposed =>
    let last_proposed_slot := lockout_slot last_proposed in
    if match last (votes h) with
       | Some v => last_proposed_slot <=? landed_slot v
       | None => false
       end
    then Err VoteTooOld
    else
      match last slot_hashes with
      | None => Err SlotsMismatch
      | Some (earliest, _) =>
        if last_proposed_slot <? earliest then Err VoteTooOld
        else
          let proposed_root := overwrite_old_root h earliest proposed_root in
          '(i, j, to_filter) ←
            filter_loop (length proposed_lockouts + length slot_hashes + 1)
              h proposed_lockouts slot_hashes earliest proposed_root
              0 (length slot_hashes) [];
          if negb (i =? length proposed_lockouts)%nat then Err SlotsMismatch
          else
            newest ← expect (slot_hashes !! j);
            if negb (last_proposed_slot =? fst newest) then Panic
            else if negb (snd newest =? proposed_hash) then Err SlotHashMismatch
            else Ok (retain_unfiltered to_filter 0 0 proposed_lockouts, proposed_root)
      end
  end.

Fixpoint valid_loop (fuel : nat) (h : VoteStateHandler) (vote_slots : list Slot)
    (slot_hashes : list (Slot * Hash)) (i j : nat) : outcome VoteError (nat * nat) :=
  if ((i <? length vote_slots) && (0 <? j))%nat then
    match fuel with
    | O => Panic
    | S fuel =>
      s ← expect (vote_slots !! i);
      if match last_voted_slot h with Some last => s <=? last | None => false end
      then valid_loop fuel h vote_slots slot_hashes (S i) j
      else
        sh ← expect (slot_hashes !! (j - 1)%nat);
        if negb (s =? fst sh)
        then valid_loop fuel h vote_slots slot_hashes i (j - 1)
        else valid_loop fuel h vote_slots slot_hashes (S i) (j - 1)
    end
  else Ok (i, j).

Definition check_slots_are_valid (h : VoteStateHandler) (vote_slots : list Slot)
    (vote_hash : Hash) (slot_hashes : list (Slot * Hash)) : outcome VoteError unit :=
  '(i, j) ← valid_loop (length vote_slots + length slot_hashes) h vote_slots slot_hashes
              0 (length slot_hashes);
  if (j =? length slot_hashes)%nat then Err VoteTooOld
  else if negb (i =? length vote_slots)%nat then Err SlotsMismatch
  else
    newest ← expect (slot_hashes !! j);
    if negb (snd newest =? vote_hash) then Err SlotHashMismatch
    else Ok tt.

(** ** Processing votes *)

Record Vote := mk_vote { vote_slots : list Slot; vote_hash : Hash; vote_timestamp : option Z }.

(** [VoteStateUpdate] and [TowerSync]: the same fields, processed alike. *)
Record TowerSync := mk_tower_sync {
  ts_lockouts : list Lockout;
  ts_root : option Slot;
  ts_hash : Hash;
  ts_time : option Z;
}.

Fixpoint process_vote_slots (slots : list Slot) (epoch : Epoch) (current_slot : Slot)
    (h : VoteStateHandler) : outcome VoteError VoteStateHandler :=
  match slots with
  | [] => Ok h
  | s :: rest =>
    h ← process_next_vote_slot s epoch current_slot h;
    process_vote_slots rest epoch current_slot h
  end.

Definition process_vote_unfiltered (slots : list Slot) (vote : Vote)
    (slot_hashes : list (Slot * Hash)) (epoch : Epoch) (current_slot : Slot)
    (h : VoteStateHandler) : outcome VoteError VoteStateHandler :=
  _ ← check_slots_are_valid h slots (vote_hash vote) slot_hashes;
  process_vote_slots slots epoch current_slot h.

Definition process_vote (vote : Vote) (slot_hashes : list (Slot * Hash)) (epoch : Epoch)
    (current_slot : Slot) (h : VoteStateHandler) : outcome VoteError VoteStateHandler :=
  if (length (vote_slots vote) =? 0)%nat then Err EmptySlots
  else
    let earliest_slot_in_history :=
      match last slot_hashes with Some (s, _) => s | None => 0 end in
    let slots := filter (fun s => earliest_slot_in_history <= s) (vote_slots vote) in
    if (length slots =? 0)%nat then Err VotesTooOldAllFiltered
    else process_vote_unfiltered slots vote slot_hashes epoch current_slot h.

Definition process_vote_unchecked (vote : Vote) (h : VoteStateHandler) :
    outcome VoteError VoteStateHandler :=
  if (length (vote_slots vote) =? 0)%nat then Err EmptySlots
  else
    let slot_hashes := (fun s => (s, vote_hash vote)) <$> reverse (vote_slots vote) in
    process_vote_unfiltered (vote_slots vote) vote slot_hashes (current_epoch h) 0 h.

Definition do_process_vote_state_update (slot_hashes : list (Slot * Hash))
    (epoch : Epoch) (slot : Slot) (update : TowerSync) : stm VoteStateHandler VoteError unit :=
  h ← st_get;
  '(lockouts, root) ← st_lift (check_and_filter_proposed_vote_state h
     (ts_lockouts update) (ts_root update) (ts_hash update) slot_hashes);
  process_new_vote_state (landed_from <$> lockouts) root (ts_time update) epoch slot.

Definition do_process_tower_sync (slot_hashes : list (Slot * Hash))
    (epoch : Epoch) (slot : Slot) (tower_sync : TowerSync) :
    stm VoteStateHandler VoteError unit :=
  h ← st_get;
  '(lockouts, root) ← st_lift (check_and_filter_proposed_vote_state h
     (ts_lockouts tower_sync) (ts_root tower_sync) (ts_hash tower_sync) slot_hashes);
  process_new_vote_state (landed_from <$> lockouts) root (ts_time tower_sync) epoch slot.

End VoteState.
