(* ===== verification/VoteStateProofs.v ===== *)
(** * Correctness of the on-chain vote state

    The tower invariant [tower_ok], the handler invariant [handler_ok], and the
    theorems on [process_next_vote_slot], [process_new_vote_state],
    [check_and_filter_proposed_vote_state] and their callers. *)

From S2P Require Import Prelude VoteInterface VoteState.
Local Open Scope Z_scope.

Section Proofs.
Context {VI : VoteInterface} {VL : VoteInterfaceLaws VI}.

Abbreviation Landed := (LandedVote Lockout).
Implicit Types (h : VoteStateHandler) (v : Landed) (l : list Landed).

(** ** The tower invariant *)

(** Two consecutive votes: slots ascend, confirmations strictly descend, and
    the later vote is still within the earlier one's lockout. *)
Definition vote_step (a b : Landed) : Prop :=
  landed_slot a < landed_slot b /\
  landed_confirmation_count b < landed_confirmation_count a /\
  landed_slot b <= lockout_last_locked_out_slot (lockout a).

Definition count_ok (v : Landed) : Prop :=
  1 <= landed_confirmation_count v <= Z.of_nat MAX_LOCKOUT_HISTORY.

Definition tower_ok (l : list Landed) : Prop :=
  (length l <= MAX_LOCKOUT_HISTORY)%nat /\ chain vote_step l /\ Forall count_ok l.

(** A root other than slot 0 lies below every vote, and a handler that has a
    root has a vote. *)
Definition handler_ok (h : VoteStateHandler) : Prop :=
  tower_ok (votes h) /\
  forall r, root_slot h = Some r ->
    votes h <> [] /\ (r <> 0 -> Forall (fun v => r < landed_slot v) (votes h)).

(** ** Setters and getters *)

Lemma votes_set_votes x h : votes (set_votes x h) = x.
Proof. by destruct h as [[[]]]. Qed.
Lemma root_set_votes x h : root_slot (set_votes x h) = root_slot h.
Proof. by destruct h as [[[]]]. Qed.
Lemma credits_set_votes x h : epoch_credits (set_votes x h) = epoch_credits h.
Proof. by destruct h as [[[]]]. Qed.
Lemma votes_set_root x h : votes (set_root_slot x h) = votes h.
Proof. by destruct h as [[[]]]. Qed.
Lemma root_set_root x h : root_slot (set_root_slot x h) = x.
Proof. by destruct h as [[[]]]. Qed.
Lemma credits_set_root x h : epoch_credits (set_root_slot x h) = epoch_credits h.
Proof. by destruct h as [[[]]]. Qed.
Lemma votes_set_credits x h : votes (set_epoch_credits x h) = votes h.
Proof. by destruct h as [[[]]]. Qed.
Lemma root_set_credits x h : root_slot (set_epoch_credits x h) = root_slot h.
Proof. by destruct h as [[[]]]. Qed.
Lemma credits_set_credits x h : epoch_credits (set_epoch_credits x h) = x.
Proof. by destruct h as [[[]]]. Qed.
Lemma votes_set_timestamp x h : votes (set_last_timestamp x h) = votes h.
Proof. by destruct h as [[[]]]. Qed.
Lemma root_set_timestamp x h : root_slot (set_last_timestamp x h) = root_slot h.
Proof. by destruct h as [[[]]]. Qed.
Lemma credits_set_timestamp x h : epoch_credits (set_last_timestamp x h) = epoch_credits h.
Proof. by destruct h as [[[]]]. Qed.

Hint Rewrite votes_set_votes root_set_votes credits_set_votes votes_set_root
  root_set_root credits_set_root votes_set_credits root_set_credits
  credits_set_credits votes_set_timestamp root_set_timestamp
  credits_set_timestamp : vote.

(** ** Facts on towers *)

#[local] Instance vote_slot_trans :
  Transitive (fun a b : Landed => landed_slot a < landed_slot b).
Proof. intros a b c. apply Z.lt_trans. Qed.

Lemma tower_slots_chain l :
  chain vote_step l -> chain (fun a b => landed_slot a < landed_slot b) l.
Proof. apply chain_mono. by intros ?? (? & ? & ?). Qed.

(** Strictly descending counts that end at 1 or more: the vote at depth [i] has
    at least [length l - i] confirmations. *)
Lemma tower_depth l i v :
  chain vote_step l -> Forall count_ok l -> l !! i = Some v ->
  Z.of_nat (length l) - Z.of_nat i <= landed_confirmation_count v.
Proof.
  revert i v. induction l as [|a l IH]; intros i v Hc Hf Hi; [done|].
  apply Forall_cons in Hf as [Ha Hf]. unfold count_ok in Ha.
  destruct i as [|i]; simplify_eq/=.
  - destruct l as [|b l]; simpl in *; [lia|].
    destruct Hc as [(? & ? & ?) Hc].
    specialize (IH 0%nat b Hc Hf eq_refl). simpl in IH. lia.
  - specialize (IH i v (chain_tail _ _ _ Hc) Hf Hi). lia.
Qed.

Lemma tower_ok_prefix l l' : tower_ok (l ++ l') -> tower_ok l.
Proof.
  intros (Hlen & Hc & Hf). rewrite length_app in Hlen.
  apply Forall_app in Hf as [? _]. split_and!; [lia| |done].
  apply chain_intro. intros i x y Hx Hy.
  eapply chain_lookup; [done|by apply lookup_app_l_Some..].
Qed.

Lemma tower_ok_tail v l : tower_ok (v :: l) -> tower_ok l.
Proof.
  intros (Hlen & Hc & Hf). apply Forall_cons in Hf as [_ ?].
  split_and!; [simpl in *; lia|by eapply chain_tail|done].
Qed.

Lemma pop_expired_rev_spec s rv :
  exists dropped, rv = dropped ++ pop_expired_rev s rv /\
    Forall (fun v => lockout_is_locked_out_at_slot (lockout v) s = false) dropped /\
    forall v, head (pop_expired_rev s rv) = Some v ->
      lockout_is_locked_out_at_slot (lockout v) s = true.
Proof.
  induction rv as [|v rv (d & Heq & Hd & Hh)]; simpl.
  { exists []. naive_solver. }
  destruct (lockout_is_locked_out_at_slot (lockout v) s) eqn:E; simpl.
  - exists []. simpl. naive_solver.
  - exists (v :: d). split_and!; [by rewrite Heq at 1| |done].
    constructor; done.
Qed.

Lemma pop_expired_votes_spec s h :
  exists dropped, votes h = votes (pop_expired_votes s h) ++ dropped /\
    Forall (fun v => lockout_last_locked_out_slot (lockout v) < s) dropped /\
    forall v, last (votes (pop_expired_votes s h)) = Some v ->
      s <= lockout_last_locked_out_slot (lockout v).
Proof.
  unfold pop_expired_votes. rewrite votes_set_votes.
  destruct (pop_expired_rev_spec s (reverse (votes h))) as (d & Heq & Hd & Hh).
  exists (reverse d). split_and!.
  - rewrite <-reverse_app, <-Heq. by rewrite reverse_involutive.
  - apply Forall_reverse. eapply Forall_impl; [done|].
    intros v. simpl. rewrite locked_out_spec. lia.
  - intros v. rewrite last_reverse. intros Hv%Hh.
    rewrite locked_out_spec in Hv. lia.
Qed.

Lemma double_lockout_at_spec d i v :
  landed_confirmation_count v <= Z.of_nat MAX_LOCKOUT_HISTORY ->
  let v' := double_lockout_at d i v in
  landed_slot v' = landed_slot v /\ latency v' = latency v /\
  lockout_last_locked_out_slot (lockout v) <= lockout_last_locked_out_slot (lockout v') /\
  landed_confirmation_count v' =
    landed_confirmation_count v +
    (if Z.of_nat i + landed_confirmation_count v <? Z.of_nat d then 1 else 0).
Proof.
  intros Hc. unfold double_lockout_at. cbn zeta.
  pose proof max_lockout_history_small.
  rewrite !landed_slot_spec, !landed_count_spec in *.
  assert (Hcount : lockout_confirmation_count
      (lockout_increase_confirmation_count 1 (lockout v)) =
      lockout_confirmation_count (lockout v) + 1) by (apply increase_count; lia).
  case_bool; cbn; [|split_and!; lia].
  rewrite increase_slot, Hcount. split_and!; try lia.
  apply last_locked_out_mono; [by rewrite increase_slot|lia].
Qed.

Lemma fresh_slot lat s : landed_slot (mk_landed lat (lockout_new s)) = s.
Proof. rewrite landed_slot_spec. apply new_slot. Qed.
Lemma fresh_count lat s : landed_confirmation_count (mk_landed lat (lockout_new s)) = 1.
Proof. rewrite landed_count_spec. apply new_count. Qed.

(** The tower with the new vote at its end, before the doubling. *)
Definition pushed (l : list Landed) (s lat : Z) : list Landed :=
  l ++ [mk_landed lat (lockout_new s)].

Lemma pushed_bounds l s lat i v :
  tower_ok l -> pushed l s lat !! i = Some v ->
  Z.of_nat (length l) - Z.of_nat i <= landed_confirmation_count v /\ count_ok v.
Proof.
  intros (_ & Hc & Hf) Hi. unfold pushed, count_ok in *.
  apply lookup_snoc_Some in Hi as [[? Hi]|[-> <-]].
  - pose proof (tower_depth l i v Hc Hf Hi).
    pose proof (Forall_lookup_1 _ _ _ _ Hf Hi). simpl in *. lia.
  - rewrite fresh_count.
    pose proof max_lockout_history_pos. lia.
Qed.

Lemma pushed_step l s lat i x y :
  tower_ok l ->
  (forall v, last l = Some v ->
    landed_slot v < s <= lockout_last_locked_out_slot (lockout v)) ->
  pushed l s lat !! i = Some x -> pushed l s lat !! S i = Some y ->
  landed_slot x < landed_slot y /\ landed_slot y <= lockout_last_locked_out_slot (lockout x) /\ (landed_confirmation_count y < landed_confirmation_count x \/
   i = pred (length l) /\ length l <> 0%nat /\ landed_confirmation_count y = 1).
Proof.
  intros (_ & Hc & Hf) Hlast Hx Hy. unfold pushed in *.
  apply lookup_snoc_Some in Hy as [[? Hy]|[Hi <-]].
  - rewrite lookup_app_l in Hx by lia.
    destruct (chain_lookup _ _ _ _ _ Hc Hx Hy) as (? & ? & ?). auto.
  - rewrite lookup_app_l in Hx by lia.
    rewrite fresh_slot, fresh_count.
    destruct (Hlast x) as [? ?]; [|split_and!; [done..|right; lia]].
    rewrite last_lookup. by replace (pred (length l)) with i by lia.
Qed.

(** Pushing a vote on a tower that is not full and whose last vote is locked
    out at the new slot, then doubling, keeps the tower invariant. *)
Lemma push_double_ok l s lat :
  tower_ok l -> (length l < MAX_LOCKOUT_HISTORY)%nat ->
  (forall v, last l = Some v ->
    landed_slot v < s <= lockout_last_locked_out_slot (lockout v)) ->
  tower_ok (imap (double_lockout_at (S (length l))) (pushed l s lat)).
Proof.
  intros Hok Hlt Hlast. split_and!.
  - unfold pushed. rewrite length_imap, length_app. simpl. lia.
  - apply chain_intro. intros i x y. rewrite !list_lookup_imap.
    intros (x0 & Ex & ->)%fmap_Some (y0 & Ey & ->)%fmap_Some.
    destruct (pushed_bounds _ _ _ _ _ Hok Ex) as [Hdx [? ?]].
    destruct (pushed_bounds _ _ _ _ _ Hok Ey) as [Hdy [? ?]].
    destruct (double_lockout_at_spec (S (length l)) i x0) as (Hs1 & _ & Hl1 & Hc1); [done|].
    destruct (double_lockout_at_spec (S (length l)) (S i) y0) as (Hs2 & _ & _ & Hc2); [done|].
    destruct (pushed_step _ _ _ _ _ _ Hok Hlast Ex Ey) as (? & ? & Hor).
    unfold vote_step. rewrite Hs1, Hs2, Hc1, Hc2.
    split_and!; [done| |lia]. repeat case_bool; lia.
  - apply Forall_lookup. intros i x. rewrite list_lookup_imap.
    intros (x0 & Ex & ->)%fmap_Some.
    destruct (pushed_bounds _ _ _ _ _ Hok Ex) as [? [? ?]].
    destruct (double_lockout_at_spec (S (length l)) i x0) as (_ & _ & _ & Hc1); [done|].
    apply lookup_lt_Some in Ex. unfold pushed in Ex. rewrite length_app in Ex. simpl in Ex.
    unfold count_ok. rewrite Hc1. case_bool; lia.
Qed.

Lemma push_double_slots l s lat :
  tower_ok l ->
  landed_slot <$> imap (double_lockout_at (S (length l))) (pushed l s lat) =
  (landed_slot <$> l) ++ [s].
Proof.
  intros Hok. transitivity (landed_slot <$> pushed l s lat).
  - apply list_eq. intros i. rewrite !list_lookup_fmap, list_lookup_imap.
    destruct (pushed l s lat !! i) as [x|] eqn:Ex; [|done]. simpl. f_equal.
    destruct (pushed_bounds _ _ _ _ _ Hok Ex) as [_ [? ?]].
    by destruct (double_lockout_at_spec (S (length l)) i x) as (? & _).
  - unfold pushed. rewrite fmap_app. simpl. by rewrite fresh_slot.
Qed.

(** ** Epoch credits *)

(** One entry: credits never below the credits before the epoch. *)
Definition credit_entry_ok (x : Epoch * Z * Z) : Prop :=
  let '(_, c, p) := x in 0 <= p <= c /\ c <= u64_max.

(** The history is bounded and every epoch starts from the credits of the one before. *)
Definition credits_ok (ec : list (Epoch * Z * Z)) : Prop :=
  (length ec <= MAX_EPOCH_CREDITS_HISTORY)%nat /\ Forall credit_entry_ok ec /\
  chain (fun '(_, c, _) '(_, _, p') => c = p') ec.

Definition total_credits (h : VoteStateHandler) : Z :=
  match last (epoch_credits h) with Some (_, c, _) => c | None => 0 end.

Lemma update_last_snoc {E A} (f : A -> A) (l : list A) x :
  @update_last E A f (l ++ [x]) = Ok (l ++ [f x]).
Proof.
  unfold update_last. rewrite last_snoc. f_equal.
  rewrite length_app. simpl.
  replace (length l + 1 - 1)%nat with (length l + 0)%nat by lia.
  by rewrite alter_app_r.
Qed.

Lemma credits_ok_replace_last (l : list (Epoch * Z * Z)) e c p e' c' :
  credits_ok (l ++ [(e, c, p)]) -> p <= c' <= u64_max -> credits_ok (l ++ [(e', c', p)]).
Proof.
  intros (Hlen & Hf & Hc) ?. rewrite length_app in Hlen.
  apply Forall_app in Hf as [? Hx]. rewrite Forall_singleton in Hx. simpl in Hx.
  apply chain_snoc in Hc as [? Hl].
  split_and!; [by rewrite length_app| |apply chain_snoc; split; [done|]].
  - apply Forall_app. split; [done|]. apply Forall_singleton. simpl. lia.
  - intros [[??]?] Hy. apply Hl in Hy. done.
Qed.

(** The list after the epoch bookkeeping and before the credits are added. *)
Lemma credits_ok_push (l : list (Epoch * Z * Z)) e c p e' :
  credits_ok (l ++ [(e, c, p)]) ->
  let l' := l ++ [(e, c, p); (e', c, c)] in
  exists l1 : list (Epoch * Z * Z), (if (MAX_EPOCH_CREDITS_HISTORY <? length l')%nat then tail l' else l') =
      l1 ++ [(e', c, c)] /\ credits_ok (l1 ++ [(e', c, c)]).
Proof.
  intros (Hlen & Hf & Hc). cbn zeta.
  assert (Hf' : Forall credit_entry_ok (l ++ [(e, c, p); (e', c, c)])).
  { apply Forall_app in Hf as [? Hx]. rewrite Forall_singleton in Hx. simpl in Hx.
    apply Forall_app. split; [done|]. repeat constructor; simpl; lia. }
  assert (Hc' : chain (fun '(_, c, _) '(_, _, p') => c = p')
                  ((l ++ [(e, c, p)]) ++ [(e', c, c)])).
  { apply chain_snoc. split; [done|]. rewrite last_snoc. by intros ? [= <-]. }
  rewrite <-app_assoc in Hc'. simpl in Hc'.
  rewrite !length_app in *. simpl in *. case_match eqn:Hm.
  - apply Nat.ltb_lt in Hm. destruct l as [|x l]; simpl in *.
    + exists []. split; [done|]. split_and!; [simpl; lia| |done].
      by inversion_clear Hf'.
    + exists (l ++ [(e, c, p)]). rewrite <-app_assoc. split; [done|].
      split_and!; [rewrite length_app; simpl; lia|by inversion_clear Hf'|].
      by apply (chain_tail _ x).
  - apply Nat.ltb_ge in Hm. exists (l ++ [(e, c, p)]). rewrite <-app_assoc.
    split; [done|]. split_and!; [rewrite length_app; simpl; lia|done..].
Qed.

Lemma increment_credits_last {E} e c h :
  credits_ok (epoch_credits h) -> is_u u64_max c ->
  exists (l1 : list (Epoch * Z * Z)) p, @increment_credits VI E e c h =
      Ok (set_epoch_credits (l1 ++ [(e, saturating_add u64_max (total_credits h) c, p)]) h) /\
    credits_ok (l1 ++ [(e, saturating_add u64_max (total_credits h) c, p)]).
Proof.
  intros Hok Hc. unfold increment_credits, total_credits, is_u, saturating_add in *.
  destruct (last (epoch_credits h)) as [[[e0 c0] p0]|] eqn:Hl.
  - apply last_Some_app in Hl as [l0 Hl]. rewrite Hl in Hok |- *.
    assert (Hx : 0 <= p0 <= c0 /\ c0 <= u64_max).
    { destruct Hok as (_ & Hf & _). apply Forall_app in Hf as [_ Hf]. by rewrite Forall_singleton in Hf. }
    case_decide as He.
    + assert (exists (l1 : list (Epoch * Z * Z)) p1, (ec ← (if decide (c0 <> p0)
            then Ok ((l0 ++ [(e0, c0, p0)]) ++ [(e, c0, c0)])
            else update_last (fun '(_, c, p) => (e, c, p)) (l0 ++ [(e0, c0, p0)]));
          Ok (if (MAX_EPOCH_CREDITS_HISTORY <? length ec)%nat then tail ec else ec)) =
            Ok (E:=E) (l1 ++ [(e, c0, p1)]) /\ credits_ok (l1 ++ [(e, c0, p1)]) /\
          p1 <= c0) as (l1 & p1 & -> & Hok1 & ?).
      { case_decide.
        - destruct (credits_ok_push l0 e0 c0 p0 e Hok) as (l1 & Hl1 & ?).
          exists l1, c0. rewrite <-app_assoc. simpl. rewrite Hl1. split_and!; [done..|lia].
        - rewrite update_last_snoc. exists l0, p0. simpl.
          assert (credits_ok (l0 ++ [(e, c0, p0)])) as Hok1
            by (eapply credits_ok_replace_last; [done|lia]).
          destruct Hok1 as [Hlen ?]. apply Nat.ltb_ge in Hlen as Hm. rewrite Hm.
          split_and!; [done..|lia]. }
      simpl. rewrite update_last_snoc. simpl. exists l1, p1. split; [done|].
      eapply credits_ok_replace_last; [done|lia].
    + assert (e = e0) as -> by (destruct (decide (e = e0)); naive_solver).
      simpl. rewrite update_last_snoc. simpl. exists l0, p0. split; [done|].
      eapply credits_ok_replace_last; [done|lia].
  - apply last_None in Hl. rewrite Hl. simpl. exists [], 0. split; [done|].
    pose proof max_epoch_credits_pos.
    split_and!; [simpl; lia| |done]. apply Forall_singleton. simpl. lia.
Qed.

(** Incrementing credits succeeds, keeps the history well formed and adds the
    credits to the running total of the given epoch. *)
Lemma increment_credits_spec {E} e c h :
  credits_ok (epoch_credits h) -> is_u u64_max c ->
  exists h', @increment_credits VI E e c h = Ok h' /\
    credits_ok (epoch_credits h') /\ current_epoch h' = e /\
    total_credits h' = saturating_add u64_max (total_credits h) c /\
    votes h' = votes h /\ root_slot h' = root_slot h.
Proof.
  intros Hok Hc. destruct (increment_credits_last (E:=E) e c h Hok Hc) as (l1 & p & -> & Hok').
  eexists. split; [done|]. unfold current_epoch, total_credits.
  autorewrite with vote. by rewrite last_snoc.
Qed.

(** A vote is worth at least one credit and at most the maximum per slot. *)
Lemma credits_for_vote_bounds h i :
  1 <= credits_for_vote_at_index h i <= VOTE_CREDITS_MAXIMUM_PER_SLOT.
Proof.
  pose proof max_credits_u8. unfold credits_for_vote_at_index, checked_sub.
  repeat case_bool; lia.
Qed.

Lemma credits_for_vote_u64 h i : is_u u64_max (credits_for_vote_at_index h i).
Proof.
  pose proof (credits_for_vote_bounds h i). pose proof max_credits_u8.
  unfold is_u, u8_max, u64_max in *. lia.
Qed.

(** ** Pushing one vote *)

Definition state_ok (h : VoteStateHandler) : Prop :=
  handler_ok h /\ credits_ok (epoch_credits h).

(** The tower after the expired votes are gone, and after the oldest vote is
    rooted when that leaves it full. *)
Definition kept_votes (s : Slot) (h : VoteStateHandler) : list Landed :=
  votes (pop_expired_votes s h).
Definition tower_full (s : Slot) (h : VoteStateHandler) : bool :=
  (length (kept_votes s h) =? MAX_LOCKOUT_HISTORY)%nat.

Lemma kept_votes_ok s h :
  tower_ok (votes h) ->
  (forall x, last_voted_slot h = Some x -> x < s) ->
  tower_ok (kept_votes s h) /\
  (forall v, last (kept_votes s h) = Some v ->
    landed_slot v < s <= lockout_last_locked_out_slot (lockout v)).
Proof.
  intros Hok Hnew. destruct (pop_expired_votes_spec s h) as (d & Heq & _ & Hlast).
  assert (Hpre : tower_ok (kept_votes s h)).
  { eapply tower_ok_prefix. unfold kept_votes. by rewrite <-Heq. }
  split; [done|]. intros v Hv. split; [|by apply Hlast].
  apply last_Some_app in Hv as Hv'. destruct Hv' as [l' Hl'].
  unfold kept_votes in Hl'. rewrite Hl', <-app_assoc in Heq. simpl in Heq.
  destruct (last_is_Some (votes h)) as [w Hw]; [by rewrite Heq; destruct l'|].
  assert (landed_slot w < s).
  { apply Hnew. unfold last_voted_slot, last_lockout. rewrite Hw. simpl.
    by rewrite landed_slot_spec. }
  enough (landed_slot v <= landed_slot w) by lia.
  destruct d as [|x d].
  - rewrite Heq, last_snoc in Hw. by simplify_eq.
  - destruct Hok as (_ & Hc%tower_slots_chain & _).
    apply Z.lt_le_incl.
    eapply (chain_lookup_lt (fun a b => landed_slot a < landed_slot b)
              (votes h) (length l') (pred (length (votes h)))); [done| | |].
    + rewrite Heq, length_app. simpl. lia.
    + rewrite Heq, lookup_app_r by lia. by rewrite Nat.sub_diag.
    + by rewrite <-last_lookup.
Qed.

(** Processing a vote for a slot not newer than the last one changes nothing. *)
Lemma process_next_vote_slot_old {E} s e cs h x :
  last_voted_slot h = Some x -> s <= x ->
  @process_next_vote_slot VI E s e cs h = Ok h.
Proof.
  intros Hx Hs. unfold process_next_vote_slot. rewrite Hx.
  by destruct (Z.leb_spec s x); [|lia].
Qed.

Lemma process_next_vote_slot_new {E} s e cs h :
  state_ok h -> (forall x, last_voted_slot h = Some x -> x < s) ->
  let base := if tower_full s h then tail (kept_votes s h) else kept_votes s h in
  exists h', @process_next_vote_slot VI E s e cs h = Ok h' /\
    votes h' = imap (double_lockout_at (S (length base)))
                 (pushed base s (compute_vote_latency s cs)) /\
    root_slot h' = (if tower_full s h then landed_slot <$> head (kept_votes s h)
                    else root_slot h) /\
    total_credits h' =
      (if tower_full s h
       then saturating_add u64_max (total_credits h)
              (credits_for_vote_at_index (pop_expired_votes s h) 0)
       else total_credits h) /\
    credits_ok (epoch_credits h').
Proof.
  intros [Hok Hcr] Hnew. cbn zeta. unfold process_next_vote_slot.
  destruct (match last_voted_slot h with Some s0 => s <=? s0 | None => false end) eqn:Hold.
  { destruct (last_voted_slot h) as [x|]; [|done]. specialize (Hnew x eq_refl). lia. }
  unfold tower_full, kept_votes. fold (kept_votes s h).
  destruct (length (kept_votes s h) =? MAX_LOCKOUT_HISTORY)%nat eqn:Hfull.
  - apply Nat.eqb_eq in Hfull. pose proof max_lockout_history_pos.
    destruct (kept_votes s h) as [|oldest rest] eqn:Hk; [simpl in *; lia|].
    set (h1 := set_root_slot (Some (landed_slot oldest))
                 (set_votes rest (pop_expired_votes s h))).
    assert (Hc1 : credits_ok (epoch_credits h1)).
    { unfold h1, pop_expired_votes. by autorewrite with vote. }
    destruct (increment_credits_spec (E:=E) e
      (credits_for_vote_at_index (pop_expired_votes s h) 0) h1 Hc1
      (credits_for_vote_u64 _ _)) as (h2 & Heq & Hc2 & _ & Ht & Hv & Hr).
    rewrite Heq. simpl. eexists. split; [done|]. unfold double_lockouts.
    unfold total_credits in *. autorewrite with vote. rewrite Hv, Hr, Ht.
    unfold h1, pop_expired_votes. autorewrite with vote.
    rewrite length_app. simpl. rewrite Nat.add_1_r. done.
  - simpl. eexists. split; [done|]. unfold double_lockouts, total_credits.
    autorewrite with vote. fold (kept_votes s h).
    rewrite length_app. simpl. rewrite Nat.add_1_r.
    unfold pop_expired_votes. autorewrite with vote. done.
Qed.

Lemma Forall_landed_slot (P : Z -> Prop) l :
  Forall (fun v => P (landed_slot v)) l <-> Forall P (landed_slot <$> l).
Proof. by rewrite Forall_fmap. Qed.

Lemma base_ok s h :
  tower_ok (votes h) -> (forall x, last_voted_slot h = Some x -> x < s) ->
  let base := if tower_full s h then tail (kept_votes s h) else kept_votes s h in
  tower_ok base /\ (length base < MAX_LOCKOUT_HISTORY)%nat /\
  (forall v, last base = Some v ->
    landed_slot v < s <= lockout_last_locked_out_slot (lockout v)).
Proof.
  intros Hok Hnew. cbn zeta. destruct (kept_votes_ok s h Hok Hnew) as [Hk Hl].
  unfold tower_full. pose proof max_lockout_history_pos.
  destruct (length (kept_votes s h) =? MAX_LOCKOUT_HISTORY)%nat eqn:Hfull.
  - apply Nat.eqb_eq in Hfull.
    destruct (kept_votes s h) as [|o rest]; [simpl in *; lia|].
    split_and!; [by eapply tower_ok_tail|simpl in *; lia|].
    intros v Hv. apply Hl. destruct rest; [done|]. done.
  - apply Nat.eqb_neq in Hfull. split_and!; [done| |done].
    destruct Hk as [? _]. lia.
Qed.

Lemma last_voted_slot_votes h : last_voted_slot h = last (landed_slot <$> votes h).
Proof.
  unfold last_voted_slot, last_lockout. rewrite fmap_last.
  destruct (last (votes h)) as [v|]; simpl; [|done]. by rewrite landed_slot_spec.
Qed.

Lemma kept_prefix s h : exists d, votes h = kept_votes s h ++ d.
Proof. destruct (pop_expired_votes_spec s h) as (d & Heq & _). by exists d. Qed.

Lemma root_below_new s h r :
  handler_ok h -> (forall x, last_voted_slot h = Some x -> x < s) ->
  root_slot h = Some r -> r <> 0 ->
  Forall (fun v => r < landed_slot v) (kept_votes s h) /\ r < s.
Proof.
  intros [_ Hroot] Hnew Hr H0. destruct (Hroot r Hr) as [Hne Hall].
  specialize (Hall H0). split.
  - destruct (kept_prefix s h) as [d Hd]. rewrite Hd in Hall.
    by apply Forall_app in Hall as [? _].
  - destruct (last_is_Some (votes h) Hne) as [w Hw].
    assert (Hwin : w ∈ votes h) by (rewrite last_lookup in Hw; by eapply list_elem_of_lookup_2).
    rewrite Forall_forall in Hall. specialize (Hall w Hwin).
    specialize (Hnew (landed_slot w)). rewrite last_voted_slot_votes, fmap_last, Hw in Hnew.
    specialize (Hnew eq_refl). lia.
Qed.

Lemma oldest_below o rest :
  tower_ok (o :: rest) -> Forall (fun v => landed_slot o < landed_slot v) rest.
Proof.
  intros (_ & Hc%tower_slots_chain & _).
  by apply (chain_trans_all (fun a b => landed_slot a < landed_slot b)).
Qed.

Lemma process_next_vote_slot_new_ok {E} s e cs h :
  state_ok h -> (forall x, last_voted_slot h = Some x -> x < s) ->
  exists h', @process_next_vote_slot VI E s e cs h = Ok h' /\ state_ok h' /\
    landed_slot <$> votes h' =
      (landed_slot <$> (if tower_full s h then tail (kept_votes s h) else kept_votes s h))
      ++ [s].
Proof.
  intros Hst Hnew. pose proof Hst as [Hok _].
  destruct (process_next_vote_slot_new (E:=E) s e cs h Hst Hnew)
    as (h' & Heq & Hv & Hr & _ & Hc).
  destruct (base_ok s h (proj1 Hok) Hnew) as (Hb & Hlen & Hl).
  destruct (kept_votes_ok s h (proj1 Hok) Hnew) as [Hk _].
  pose proof (push_double_slots _ s (compute_vote_latency s cs) Hb) as Hs.
  rewrite <-Hv in Hs.
  exists h'. split; [done|]. split; [|done]. split; [|done]. split.
  { rewrite Hv. by apply push_double_ok. }
  intros r Hr'. rewrite Hr in Hr'. split.
  { intros Hnil. rewrite Hnil in Hs. by apply app_cons_not_nil in Hs. }
  intros H0. rewrite (Forall_landed_slot (fun x => r < x)), Hs, Forall_app, Forall_singleton.
  rewrite <-(Forall_landed_slot (fun x => r < x)).
  unfold tower_full in *. destruct (_ =? _)%nat eqn:Hfull.
  - destruct (kept_votes s h) as [|o rest] eqn:Hkv; [done|]. simplify_eq/=.
    pose proof (oldest_below o rest Hk) as Hrest. split; [done|].
    destruct (last_is_Some (o :: rest)) as [w Hw]; [done|].
    destruct (kept_votes_ok s h (proj1 Hok) Hnew) as [_ Hlast].
    rewrite Hkv in Hlast. specialize (Hlast w Hw).
    destruct rest as [|x rest]; simplify_eq/=; [lia|].
    rewrite Forall_forall in Hrest. enough (landed_slot o < landed_slot w) by lia.
    apply Hrest. change (last (x :: rest) = Some w) in Hw. rewrite last_lookup in Hw.
    by eapply list_elem_of_lookup_2.
  - by apply root_below_new.
Qed.

(** Processing one vote: no panic, invariants kept, the last voted slot becomes
    the greater of the old one and the new vote. *)
Lemma process_next_vote_slot_ok s e cs h :
  state_ok h ->
  exists h', @process_next_vote_slot VI VoteError s e cs h = Ok h' /\ state_ok h' /\
    last_voted_slot h' =
      Some (match last_voted_slot h with Some x => Z.max x s | None => s end).
Proof.
  intros Hst. destruct (last_voted_slot h) as [x|] eqn:Hx; [destruct (Z.le_gt_cases s x)|].
  - exists h. rewrite (process_next_vote_slot_old _ _ _ _ x) by done.
    split_and!; [done..|]. rewrite Hx. f_equal. lia.
  - destruct (process_next_vote_slot_new_ok (E:=VoteError) s e cs h Hst) as (h' & ? & ? & Hs).
    { rewrite Hx. intros ? [= <-]. lia. }
    exists h'. split_and!; [done..|]. rewrite last_voted_slot_votes, Hs, last_snoc.
    f_equal. lia.
  - destruct (process_next_vote_slot_new_ok (E:=VoteError) s e cs h Hst) as (h' & ? & ? & Hs).
    { by rewrite Hx. }
    exists h'. split_and!; [done..|]. by rewrite last_voted_slot_votes, Hs, last_snoc.
Qed.

(** The last voted slot after a sequence of votes. *)
Definition max_slot (o : option Slot) (slots : list Slot) : option Slot :=
  foldl (fun o s => Some (match o with Some x => Z.max x s | None => s end)) o slots.

Lemma process_vote_slots_ok slots e cs h :
  state_ok h ->
  exists h', process_vote_slots slots e cs h = Ok h' /\ state_ok h' /\
    last_voted_slot h' = max_slot (last_voted_slot h) slots.
Proof.
  revert h. induction slots as [|s slots IH]; intros h Hok; simpl; [eauto|].
  destruct (process_next_vote_slot_ok s e cs h Hok) as (h1 & Heq & Hok1 & Hl1).
  rewrite Heq. simpl. destruct (IH h1 Hok1) as (h' & ? & ? & Hl').
  exists h'. split_and!; [done..|]. by rewrite Hl', Hl1.
Qed.

(** ** The slot-hash check of a vote *)

(** The slots of a vote newer than the last voted slot. *)
Definition newer (h : VoteStateHandler) (s : Slot) : Prop :=
  match last_voted_slot h with Some x => x < s | None => True end.

#[local] Instance newer_dec h s : Decision (newer h s).
Proof. unfold newer. destruct (last_voted_slot h); apply _. Defined.

Lemma valid_loop_no_panic fuel h slots shs i j :
  (length slots - i + j <= fuel)%nat -> (j <= length shs)%nat ->
  exists i' j', valid_loop fuel h slots shs i j = Ok (i', j').
Proof.
  revert i j. induction fuel as [|fuel IH]; intros i j Hf Hj; simpl.
  - destruct ((i <? length slots) && (0 <? j))%nat eqn:E; [|eauto].
    apply andb_true_iff in E as [?%Nat.ltb_lt ?%Nat.ltb_lt]. lia.
  - destruct ((i <? length slots) && (0 <? j))%nat eqn:E; [|eauto].
    apply andb_true_iff in E as [?%Nat.ltb_lt ?%Nat.ltb_lt].
    destruct (lookup_lt_is_Some_2 slots i) as [s Hs]; [done|]. rewrite Hs. simpl.
    destruct (lookup_lt_is_Some_2 shs (j - 1)) as [sh Hsh]; [lia|]. rewrite Hsh. simpl.
    repeat case_bool; apply IH; lia.
Qed.

Lemma valid_loop_sound fuel h slots shs i j j' :
  valid_loop fuel h slots shs i j = Ok (length slots, j') ->
  (i <= length slots)%nat -> (j <= length shs)%nat ->
  let new := filter (newer h) (drop i slots) in
  sublist (reverse new) (take j shs).*1 /\ (new = [] -> j' = j) /\
  (forall s, last new = Some s -> exists hash, shs !! j' = Some (s, hash) /\ (j' < j)%nat).
Proof.
  revert i j. induction fuel as [|fuel IH]; intros i j Heq Hi Hj; simpl in Heq;
    destruct ((i <? length slots) && (0 <? j))%nat eqn:E; simplify_eq/=;
    try (rewrite drop_all; simpl; split_and!; [apply sublist_nil_l|done..]).
  apply andb_true_iff in E as [Hil%Nat.ltb_lt Hj0%Nat.ltb_lt].
  destruct (lookup_lt_is_Some_2 slots i) as [s Hs]; [done|]. rewrite Hs in Heq. simpl in Heq.
  rewrite (drop_S _ _ _ Hs), filter_cons.
  destruct (match last_voted_slot h with Some last => s <=? last | None => false end) eqn:Hold.
  - rewrite decide_False.
    + by apply IH.
    + unfold newer. destruct (last_voted_slot h); [lia|done].
  - rewrite decide_True by (unfold newer; destruct (last_voted_slot h); [lia|done]).
    destruct (lookup_lt_is_Some_2 shs (j - 1)) as [sh Hsh]; [lia|].
    rewrite Hsh in Heq. simpl in Heq.
    assert (Htake : take j shs = take (j - 1) shs ++ [sh]).
    { by rewrite <-(take_S_r _ _ _ Hsh), <-Nat.sub_succ_l, Nat.sub_1_r by lia. }
    destruct (s =? fst sh) eqn:Hm; simpl in Heq.
    + apply Z.eqb_eq in Hm. destruct (IH (S i) (j - 1)%nat Heq) as (Hsub & Hnil & Hlast); [lia..|].
      rewrite reverse_cons, Htake, fmap_app. split_and!; [|done|].
      * apply sublist_app; [done|]. simpl. by rewrite Hm.
      * intros s' Hs'. destruct (filter (newer h) (drop (S i) slots)) as [|a f] eqn:Hf.
        -- simplify_eq/=. exists (snd sh). rewrite Hnil by done. split; [|lia].
           by destruct sh.
        -- destruct (Hlast s') as (hash & ? & ?); [done|]. exists hash. split; [done|lia].
    + destruct (IH i (j - 1)%nat Heq) as (Hsub & Hnil & Hlast); [lia..|].
      rewrite (drop_S _ _ _ Hs), filter_cons, decide_True in Hsub, Hnil, Hlast
        by (unfold newer; destruct (last_voted_slot h); [lia|done]).
      split_and!; [|done|].
      * rewrite Htake, fmap_app. by apply sublist_inserts_r.
      * intros s' Hs'. destruct (Hlast s' Hs') as (hash & ? & ?). exists hash. split; [done|lia].
Qed.

Lemma max_slot_is o slots m :
  (forall x, o = Some x -> x <= m) -> Forall (fun s => s <= m) slots ->
  (o = Some m \/ m ∈ slots) -> max_slot o slots = Some m.
Proof.
  unfold max_slot. revert o. induction slots as [|s slots IH]; intros o Ho Hf Hor; simpl.
  - destruct Hor as [?|Hin]; [done|by apply not_elem_of_nil in Hin].
  - apply Forall_cons in Hf as [Hs Hf]. apply IH; [|done|].
    + intros x [= <-]. destruct o as [y|]; [|lia]. specialize (Ho y eq_refl). lia.
    + destruct Hor as [->|Hin]; [left; f_equal; lia|].
      apply elem_of_cons in Hin as [->|?]; [|by right]. left. f_equal.
      destruct o as [y|]; [|done]. specialize (Ho y eq_refl). lia.
Qed.

(** A vote accepted by [check_slots_are_valid]: its newer slots, from last to
    first, are a subsequence of the slot hashes; there is at least one, and the
    hash of the last one is the hash of the vote. *)
Lemma check_slots_are_valid_sound h slots hash shs :
  check_slots_are_valid h slots hash shs = Ok tt ->
  sublist (reverse (filter (newer h) slots)) shs.*1 /\
  exists s, last (filter (newer h) slots) = Some s /\ (s, hash) ∈ shs.
Proof.
  unfold check_slots_are_valid. intros H. inv_ok. destruct x as [i j].
  destruct (j =? length shs)%nat eqn:Hj; [done|]. apply Nat.eqb_neq in Hj.
  destruct (i =? length slots)%nat eqn:Hi; [|done]. apply Nat.eqb_eq in Hi as ->. simpl in H.
  inv_ok. destruct (snd x =? hash) eqn:Hh; [|done]. apply Z.eqb_eq in Hh as <-.
  apply valid_loop_sound in H0 as (Hsub & Hnil & Hlast); [|lia..].
  rewrite drop_0 in *. rewrite take_ge in Hsub by done. split; [done|].
  destruct (last_is_Some (filter (newer h) slots)) as [s Hs].
  { intros Hn. by apply Hj, Hnil. }
  exists s. split; [done|]. destruct (Hlast s Hs) as (hash & Hl & _).
  rewrite Hl in H1. simplify_eq/=. by eapply list_elem_of_lookup_2.
Qed.

Lemma check_slots_are_valid_no_panic h slots hash shs :
  check_slots_are_valid h slots hash shs <> Panic.
Proof.
  unfold check_slots_are_valid.
  destruct (valid_loop_no_panic (length slots + length shs) h slots shs 0 (length shs))
    as (i & j & Heq); [lia..|].
  rewrite Heq. simpl. destruct (j =? length shs)%nat eqn:Hj; [done|].
  destruct (i =? length slots)%nat eqn:Hi; simpl; [|done].
  apply Nat.eqb_neq in Hj. apply Nat.eqb_eq in Hi as ->.
  apply valid_loop_sound in Heq as (_ & Hnil & Hlast); [|lia..].
  destruct (last_is_Some (filter (newer h) (drop 0 slots))) as [s Hs].
  { intros Hn. by apply Hj, Hnil. }
  destruct (Hlast s Hs) as (hash' & -> & _). simpl. by case_bool.
Qed.

(** C1: processing a vote on a well-formed vote state never panics; if it is
    accepted, the new state is well formed (slots strictly ascending,
    confirmation counts strictly descending between 1 and the maximum, each
    vote inside the lockout of the one before, at most the maximum number of
    votes, the root below every vote, the credit history bounded and
    telescoping), and its last voted slot is new, on the fork described by the
    slot hashes, and has the hash the vote names. *)
Theorem process_vote_correct (vote : Vote) (shs : list (Slot * Hash)) (e cs : Z)
    (h : VoteStateHandler) :
  state_ok h -> chain Z.gt shs.*1 ->
  process_vote vote shs e cs h <> Panic /\
  forall h', process_vote vote shs e cs h = Ok h' ->
    state_ok h' /\
    exists s, last_voted_slot h' = Some s /\ s ∈ vote_slots vote /\
      (s, vote_hash vote) ∈ shs /\
      forall x, last_voted_slot h = Some x -> x < s.
Proof.
  intros Hok Hdesc. unfold process_vote. case_bool; [done|]. clear E. cbn zeta.
  set (slots := filter _ (vote_slots vote)).
  case_bool; [done|]. clear E. unfold process_vote_unfiltered.
  destruct (process_vote_slots_ok slots e cs h Hok) as (h1 & Heq & Hok1 & Hl1).
  pose proof (check_slots_are_valid_no_panic h slots (vote_hash vote) shs) as Hnp.
  destruct (check_slots_are_valid h slots (vote_hash vote) shs) as [[]| |] eqn:Hchk;
    simpl; [|done..].
  rewrite Heq. split; [done|]. intros h' [= <-]. split; [done|].
  apply check_slots_are_valid_sound in Hchk as (Hsub & s & Hs & Hin).
  assert (Hasc : chain Z.lt (filter (newer h) slots)).
  { rewrite <-(reverse_involutive (filter (newer h) slots)).
    eapply chain_mono; [|apply (chain_reverse Z.gt), (chain_sublist Z.gt _ _ Hsub Hdesc)].
    intros ??. unfold flip. lia. }
  assert (Hnew : newer h s /\ s ∈ slots).
  { apply (list_elem_of_filter (newer h)). rewrite last_lookup in Hs. by eapply list_elem_of_lookup_2. }
  destruct Hnew as [Hnew Hslot]. unfold newer in Hnew.
  exists s. split_and!; [|by apply list_elem_of_filter in Hslot as [_ ?]|done|].
  - rewrite Hl1. apply max_slot_is; [|apply Forall_forall|by right].
    + intros x Hx. rewrite Hx in Hnew. lia.
    + intros x Hx. destruct (decide (newer h x)) as [Hn|Hn].
      * destruct (chain_last_max Z.lt _ s x Hasc Hs) as [?|?]; [|lia..].
        by apply (list_elem_of_filter (newer h)).
      * unfold newer in Hn. destruct (last_voted_slot h); [lia|done].
  - intros x Hx. by rewrite Hx in Hnew.
Qed.

(** ** Replacing the tower *)

(** The tower invariant looks at the lockouts only, not at the latencies. *)
Lemma tower_ok_lockouts l l' :
  lockout <$> l = lockout <$> l' -> tower_ok l -> tower_ok l'.
Proof.
  intros Heq (Hlen & Hc & Hf).
  set (step := fun a b : Lockout => lockout_slot a < lockout_slot b /\
    lockout_confirmation_count b < lockout_confirmation_count a /\
    lockout_slot b <= lockout_last_locked_out_slot a).
  set (ok := fun a : Lockout => 1 <= lockout_confirmation_count a <= Z.of_nat MAX_LOCKOUT_HISTORY).
  assert (Hstep : forall k, chain vote_step k <-> chain step (lockout <$> k)).
  { intros k. rewrite chain_map. split; apply chain_mono; intros a b;
      unfold vote_step, step; by rewrite !landed_slot_spec, !landed_count_spec. }
  assert (Hcnt : forall k, Forall count_ok k <-> Forall ok (lockout <$> k)).
  { intros k. rewrite Forall_fmap. apply Forall_iff. intros a.
    unfold count_ok, ok; simpl; by rewrite !landed_count_spec. }
  split_and!.
  - by rewrite <-(length_fmap lockout l'), <-Heq, length_fmap.
  - by rewrite Hstep, <-Heq, <-Hstep.
  - by rewrite Hcnt, <-Heq, <-Hcnt.
Qed.

Lemma slots_of_lockouts l l' :
  lockout <$> l = lockout <$> l' -> landed_slot <$> l = landed_slot <$> l'.
Proof.
  intros Heq. transitivity (lockout_slot <$> (lockout <$> l)).
  - rewrite <-list_fmap_compose. apply list_fmap_ext. intros ???. apply landed_slot_spec.
  - rewrite Heq, <-list_fmap_compose. apply list_fmap_ext. intros ???. symmetry.
    apply landed_slot_spec.
Qed.

Definition above_root (root : option Slot) (v : Landed) : Prop :=
  forall r, root = Some r -> r <> 0 -> r < landed_slot v.

Lemma check_new_votes_sound root prev l :
  check_new_votes root prev l = Ok tt ->
  chain vote_step (option_list prev ++ l) /\ Forall count_ok l /\
  Forall (above_root root) l.
Proof.
  revert prev. induction l as [|v l IH]; intros prev H; simpl in H.
  { split_and!; [by destruct prev|done..]. }
  do 3 (head_if H; [done|]).
  inv_ok. destruct (IH _ H) as (Hc & Hf & Hr).
  assert (Hstep : forall p, prev = Some p -> vote_step p v).
  { intros p ->. repeat case_bool_in H0; done. }
  split_and!.
  - destruct prev as [p|]; [|done]. split; [by apply Hstep|done].
  - constructor; [|done]. unfold count_ok. pose proof (count_nonneg (lockout v)).
    rewrite landed_count_spec in *. lia.
  - constructor; [|done]. intros r -> Hr0. lia.
Qed.

(** What merging guarantees for a vote of the current tower. *)
Definition vote_kept (c : Landed) (res : list Landed) : Prop :=
  exists r, r ∈ res /\ landed_slot r = landed_slot c /\
    landed_confirmation_count c <= landed_confirmation_count r /\
    (latency c <> 0 -> latency r = latency c).
Definition vote_expired (c : Landed) (res : list Landed) : Prop :=
  exists t, t ∈ res /\ landed_slot c < landed_slot t /\
    lockout_last_locked_out_slot (lockout c) < landed_slot t /\
    forall t', t' ∈ res -> landed_slot c < landed_slot t' -> landed_slot t <= landed_slot t'.

Lemma merge_votes_lockouts cur new res :
  merge_votes cur new = Ok res -> lockout <$> res = lockout <$> new.
Proof.
  revert new res. induction cur as [|c cur IHc]; intros new res.
  { destruct new; simpl; by intros [= <-]. }
  revert res. induction new as [|n new IHn]; intros res H; simpl in H; [by simplify_eq|].
  destruct (landed_slot c ?= landed_slot n).
  - case_bool_in H; [done|]. inv_ok. simpl. f_equal. by apply IHc.
  - case_bool_in H; [done|]. by apply IHc.
  - inv_ok. simpl. f_equal. by apply IHn.
Qed.

Lemma merge_votes_no_panic cur new : merge_votes cur new <> Panic.
Proof.
  revert new. induction cur as [|c cur IHc]; intros new; [by destruct new|].
  induction new as [|n new IHn]; simpl; [done|].
  destruct (landed_slot c ?= landed_slot n); [| |].
  - case_bool; [done|]. apply bind_not_Panic; [apply IHc|done].
  - case_bool; [done|]. apply IHc.
  - apply bind_not_Panic; [apply IHn|done].
Qed.

Abbreviation slots_asc := (chain (fun a b : Landed => landed_slot a < landed_slot b)).

Lemma slots_asc_head a l v : slots_asc (a :: l) -> v ∈ a :: l -> landed_slot a <= landed_slot v.
Proof.
  intros Hc Hv. apply elem_of_cons in Hv as [->|Hv]; [lia|].
  apply (chain_trans_all (fun a b => landed_slot a < landed_slot b)) in Hc.
  rewrite Forall_forall in Hc. specialize (Hc v Hv). simpl in Hc. lia.
Qed.

Lemma same_slots_elem l l' v :
  landed_slot <$> l = landed_slot <$> l' -> v ∈ l ->
  exists v', v' ∈ l' /\ landed_slot v' = landed_slot v.
Proof.
  intros Heq Hv. apply (list_elem_of_fmap_2 landed_slot) in Hv as Hs. rewrite Heq in Hs.
  apply list_elem_of_fmap in Hs as (v' & ? & ?). eauto.
Qed.

Lemma relabel_slot a v : landed_slot (mk_landed a (lockout v)) = landed_slot v.
Proof. by rewrite !landed_slot_spec. Qed.
Lemma relabel_count a v :
  landed_confirmation_count (mk_landed a (lockout v)) = landed_confirmation_count v.
Proof. by rewrite !landed_count_spec. Qed.

(** A current vote below the first proposed one, whose lockout ends before it. *)
Lemma expired_by_first c n new res :
  slots_asc (n :: new) -> landed_slot <$> res = landed_slot <$> (n :: new) ->
  landed_slot c < landed_slot n -> lockout_last_locked_out_slot (lockout c) < landed_slot n ->
  vote_expired c res.
Proof.
  intros Hasc Hs Hlt Hlock. destruct res as [|r res]; [done|]. simpl in Hs.
  injection Hs as Hr Hs. exists r. rewrite Hr. split_and!; [by left|done..|].
  intros t' Ht' _. destruct (same_slots_elem (r :: res) (n :: new) t') as (v' & Hv' & <-).
  { simpl. by f_equal. }
  { done. }
  by apply (slots_asc_head n new).
Qed.

Lemma vote_kept_or_expired_cons c n res :
  vote_kept c res \/ vote_expired c res -> landed_slot n <= landed_slot c ->
  vote_kept c (n :: res) \/ vote_expired c (n :: res).
Proof.
  intros [(r & ? & ?)|(t & ? & ? & ? & Hmin)] Hn; [left|right].
  - exists r. split; [by right|done].
  - exists t. split_and!; [by right|done..|]. intros t' Ht' ?.
    apply elem_of_cons in Ht' as [->|?]; [lia|auto].
Qed.

Lemma merge_votes_no_rollback cur new res c x :
  merge_votes cur new = Ok res -> slots_asc cur -> slots_asc new -> c ∈ cur ->
  last new = Some x -> landed_slot c < landed_slot x ->
  vote_kept c res \/ vote_expired c res.
Proof.
  revert new res. induction cur as [|c0 cur IHc]; intros new res.
  { intros _ _ _ Hin. by apply not_elem_of_nil in Hin. }
  revert res. induction new as [|n new IHn]; intros res H Hcur Hnew Hin Hx Hlt; [done|].
  pose proof (slots_asc_head _ _ _ Hcur Hin) as Hhd. simpl in H.
  assert (Htl : landed_slot n <= landed_slot c -> last new = Some x).
  { intros ?. destruct new; [|done]. simplify_eq/=. lia. }
  destruct (landed_slot c0 ?= landed_slot n) eqn:Hcmp.
  - apply Z.compare_eq in Hcmp. head_if H; [done|]. inv_ok.
    apply elem_of_cons in Hin as [->|Hin].
    + left. eexists. split; [by left|]. rewrite relabel_slot, relabel_count.
      split_and!; [lia..|done].
    + apply vote_kept_or_expired_cons.
      * eapply (IHc new); [done|by eapply chain_tail|by eapply chain_tail|done| |done].
        apply Htl. lia.
      * rewrite relabel_slot. lia.
  - apply Z.compare_lt_iff in Hcmp. head_if H; [done|]. apply Z.leb_gt in E.
    apply elem_of_cons in Hin as [->|Hin].
    + right. eapply (expired_by_first c0 n new); [done| |done..].
      by apply slots_of_lockouts, (merge_votes_lockouts cur).
    + by eapply (IHc (n :: new)); [|eapply chain_tail|..].
  - apply Z.compare_gt_iff in Hcmp. inv_ok.
    apply vote_kept_or_expired_cons; [|lia].
    eapply IHn; [done..|by eapply chain_tail|done| |done]. apply Htl. lia.
Qed.

Lemma rooted_credits_spec {E} h r cur earned i earned' k :
  @rooted_credits VI E h r cur earned i = Ok (earned', k) -> is_u u64_max earned ->
  (i <= k)%nat /\ is_u u64_max earned' /\
  (forall c, c ∈ cur -> r < landed_slot c -> c ∈ drop (k - i) cur).
Proof.
  revert earned i. induction cur as [|v cur IH]; intros earned i H Hu; simpl in H.
  { inv_ok. simplify_eq. by rewrite Nat.sub_diag. }
  case_bool_in H; inv_ok.
  - unfold checked_add in H1. case_bool_in H1; simplify_eq.
    pose proof (credits_for_vote_u64 h i) as Hc. unfold is_u in *.
    destruct (IH _ _ H) as (? & ? & Hd); [lia|]. split_and!; [lia..|].
    replace (k - i)%nat with (S (k - S i)) by lia. simpl.
    intros c [->|Hc']%elem_of_cons ?; [lia|auto].
  - simplify_eq. by rewrite Nat.sub_diag.
Qed.

(** The credits of one tower never overflow a [u64]. *)
Lemma rooted_credits_no_panic {E} h r cur earned i :
  0 <= earned ->
  earned + Z.of_nat (length cur) * u8_max <= u64_max ->
  exists earned' k, @rooted_credits VI E h r cur earned i = Ok (earned', k).
Proof.
  revert earned i. induction cur as [|v cur IH]; intros earned i H0 Hb; simpl; [eauto|].
  case_bool; [|eauto]. pose proof (credits_for_vote_bounds h i).
  pose proof max_credits_u8. simpl in Hb. unfold checked_add.
  case_bool; [|unfold u64_max, u8_max in *; lia]. simpl. apply IH; lia.
Qed.

Lemma set_latency_lockout cs v : lockout (set_latency cs v) = lockout v.
Proof. unfold set_latency. by case_bool. Qed.
Lemma set_latency_keeps cs v : latency v <> 0 -> latency (set_latency cs v) = latency v.
Proof. unfold set_latency. by case_bool. Qed.
Lemma set_latency_slot cs v : landed_slot (set_latency cs v) = landed_slot v.
Proof. by rewrite !landed_slot_spec, set_latency_lockout. Qed.
Lemma set_latency_count cs v :
  landed_confirmation_count (set_latency cs v) = landed_confirmation_count v.
Proof. by rewrite !landed_count_spec, set_latency_lockout. Qed.

Lemma lockouts_set_latency cs l : lockout <$> (set_latency cs <$> l) = lockout <$> l.
Proof.
  rewrite <-list_fmap_compose. apply list_fmap_ext. intros ???. apply set_latency_lockout.
Qed.

Lemma kept_or_expired_latency cs c l :
  vote_kept c l \/ vote_expired c l ->
  vote_kept c (set_latency cs <$> l) \/ vote_expired c (set_latency cs <$> l).
Proof.
  intros [(r & Hr & Hs & Hc & Hl)|(t & Ht & Hs & Hc & Hmin)]; [left|right].
  - exists (set_latency cs r). rewrite set_latency_slot, set_latency_count.
    split_and!; [by apply list_elem_of_fmap_2|done..|]. intros Hz. rewrite <-(Hl Hz).
    apply set_latency_keeps. by rewrite Hl.
  - exists (set_latency cs t). rewrite set_latency_slot.
    split_and!; [by apply list_elem_of_fmap_2|done..|].
    intros t' (t0 & -> & ?)%list_elem_of_fmap. rewrite set_latency_slot. auto.
Qed.

Lemma process_timestamp_votes s t h h' :
  process_timestamp s t h = (Ok tt, h') ->
  votes h' = votes h /\ root_slot h' = root_slot h /\ epoch_credits h' = epoch_credits h.
Proof.
  unfold process_timestamp. intros H. inv_ok. head_if H; inv_ok.
  by autorewrite with vote.
Qed.

(** The steps of a successful [process_new_vote_state]. *)
Lemma process_new_vote_state_inv new root ts e cs h h' :
  process_new_vote_state new root ts e cs h = (Ok tt, h') -> state_ok h ->
  exists index merged,
    new <> [] /\ (length new <= MAX_LOCKOUT_HISTORY)%nat /\
    check_root_rollback root (root_slot h) = Ok tt /\
    check_new_votes root None new = Ok tt /\
    (forall c, c ∈ votes h -> (forall r, root = Some r -> r < landed_slot c) ->
       c ∈ drop index (votes h)) /\
    merge_votes (drop index (votes h)) new = Ok merged /\
    votes h' = set_latency cs <$> merged /\ root_slot h' = root /\
    credits_ok (epoch_credits h').
Proof.
  unfold process_new_vote_state. intros H [_ Hcr]. inv_ok. subst.
  head_if H; inv_ok. head_if H; inv_ok.
  destruct x4 as [earned index]. inv_ok. subst.
  exists index, x1. destruct x, x2, x4, x6.
  assert (Hinc : is_u u64_max earned /\ forall c, c ∈ votes x0 ->
      (forall r, root = Some r -> r < landed_slot c) -> c ∈ drop index (votes x0)).
  { destruct root as [r|].
    - apply rooted_credits_spec in H2 as (_ & ? & Hd); [|done].
      split; [done|]. rewrite Nat.sub_0_r in Hd. naive_solver.
    - inv_ok. simplify_eq. split; [done|]. by rewrite drop_0. }
  destruct Hinc as [Hearned Hdrop].
  assert (Hc1 : credits_ok (epoch_credits x5)).
  { case_decide; inv_ok; [|done].
    destruct (increment_credits_spec (E:=VoteError) e earned x0) as (h1 & Heq & ? & _);
      [done..|]. rewrite H6 in Heq. by injection Heq as ->. }
  assert (Hc2 : credits_ok (epoch_credits x7)).
  { destruct ts as [t|]; inv_ok; [|done].
    by apply process_timestamp_votes in H5 as (_ & _ & ->). }
  autorewrite with vote. split_and!; try done.
  - intros ->. by rewrite Nat.eqb_refl in E.
  - by apply Nat.ltb_ge.
Qed.

(** [new] may replace the tower of [h]: it is a well-formed tower above its root. *)
Lemma process_new_vote_state_ok new root ts e cs h h' :
  state_ok h -> process_new_vote_state new root ts e cs h = (Ok tt, h') ->
  state_ok h' /\ root_slot h' = root /\ lockout <$> votes h' = lockout <$> new /\
  (forall r, root_slot h = Some r -> exists r', root = Some r' /\ r <= r') /\
  (forall c x, c ∈ votes h -> (forall r, root = Some r -> r < landed_slot c) ->
     last new = Some x -> landed_slot c < landed_slot x ->
     vote_kept c (votes h') \/ vote_expired c (votes h')).
Proof.
  intros Hok Heq.
  destruct (process_new_vote_state_inv _ _ _ _ _ _ _ Heq Hok)
    as (index & merged & Hne & Hlen & Hroot & Hnew & Hdrop & Hm & Hv & Hr & Hcr).
  apply check_new_votes_sound in Hnew as (Hc & Hcnt & Habove). simpl in Hc.
  assert (Hlk : lockout <$> votes h' = lockout <$> new).
  { rewrite Hv, lockouts_set_latency. by eapply merge_votes_lockouts. }
  assert (Hsl : landed_slot <$> votes h' = landed_slot <$> new)
    by by apply slots_of_lockouts.
  split_and!; [|done..| |].
  - split; [split|done].
    + by eapply tower_ok_lockouts.
    + rewrite Hr. intros r ->. split.
      * intros Hn. rewrite Hn in Hlk. by destruct new.
      * intros Hr0. rewrite (Forall_landed_slot (fun x => r < x)), Hsl, <-Forall_landed_slot.
        eapply Forall_impl; [done|]. intros v Hab. by apply Hab.
  - intros r Hr'. rewrite Hr' in Hroot. unfold check_root_rollback in Hroot.
    destruct root as [n|]; [|done]. case_bool_in Hroot; [done|]. eauto.
  - intros c x Hc' Hr' Hx Hlt. rewrite Hv. apply kept_or_expired_latency.
    eapply merge_votes_no_rollback; [done| | |by apply Hdrop|done..].
    + destruct Hok as [[(_ & Hch%tower_slots_chain & _) _] _].
      eapply (chain_sublist _ _ (votes h)); [|done]. apply sublist_drop.
    + by apply tower_slots_chain.
Qed.

Lemma check_new_votes_no_panic root prev l : check_new_votes root prev l <> Panic.
Proof.
  revert prev. induction l as [|v l IH]; intros prev; simpl; [done|].
  repeat case_bool; try done; (apply bind_not_Panic; [|auto]);
    (destruct prev; [by repeat case_bool|done]).
Qed.

Lemma process_timestamp_no_panic s t h : fst (process_timestamp s t h) <> Panic.
Proof. unfold process_timestamp, mbind, stm_bind, st_get. by case_bool. Qed.

Lemma rooted_credits_tower h root :
  state_ok h ->
  exists earned index,
    match root with Some r => rooted_credits h r (votes h) 0 0 | None => Ok (0, 0%nat) end =
      Ok (E:=VoteError) (earned, index) /\ is_u u64_max earned.
Proof.
  intros [[[Hlen _] _] _]. destruct root as [r|]; [|by eexists _, _].
  destruct (rooted_credits_no_panic (E:=VoteError) h r (votes h) 0 0) as (ea & ix & Heq); [done| |].
  - pose proof max_lockout_history_small. unfold u64_max, u8_max, u32_max in *. lia.
  - eexists _, _. split; [done|]. by eapply rooted_credits_spec.
Qed.

(** The only way [process_new_vote_state] can panic is an empty proposed tower. *)
Lemma process_new_vote_state_no_panic new root ts e cs h :
  state_ok h -> new <> [] -> fst (process_new_vote_state new root ts e cs h) <> Panic.
Proof.
  intros Hok Hne. unfold process_new_vote_state.
  apply st_bind_not_Panic; [done|]. intros ? ? [= <- <-].
  destruct (length new =? 0)%nat eqn:E0.
  { apply Nat.eqb_eq, nil_length_inv in E0. done. }
  case_bool; [done|].
  apply st_bind_not_Panic; [|intros [] ? [_ ->]%st_lift_Ok].
  { simpl. unfold check_root_rollback. by repeat case_match. }
  apply st_bind_not_Panic; [apply check_new_votes_no_panic|intros [] ? [_ ->]%st_lift_Ok].
  destruct (rooted_credits_tower h root Hok) as (earned & index & -> & Hu).
  apply st_bind_not_Panic; [done|intros [earned' index'] ? [[= <- <-] ->]%st_lift_Ok].
  apply st_bind_not_Panic; [apply merge_votes_no_panic|intros merged ? [Hm ->]%st_lift_Ok].
  assert (Hml : exists v, last (set_latency cs <$> merged) = Some v).
  { apply last_is_Some. intros Hn. apply merge_votes_lockouts in Hm.
    by destruct merged, new. }
  apply st_bind_not_Panic; [|intros [] h1 _].
  { destruct Hok as [_ Hcr]. case_decide; [|done].
    destruct (increment_credits_spec (E:=VoteError) e earned h Hcr Hu) as (h1 & -> & _). done. }
  destruct Hml as [v ->]. apply st_bind_not_Panic; [|done].
  destruct ts; [|done]. apply process_timestamp_no_panic.
Qed.

(** ** Checking a proposed tower against the slot hashes *)

(** What the [while] loop establishes from cursor [i] on, when it ends with
    every proposed lockout consumed and the hash cursor at [j']: [extra] are the
    indices it decided to filter. *)
Record loop_post (h : VoteStateHandler) (lockouts : list Lockout)
    (shs : list (Slot * Hash)) (earliest : Slot) (root : option Slot) (i j' : nat)
    (extra : list nat) : Prop := {
  lp_asc : chain lt extra;
  lp_ge : Forall (fun k => (i <= k)%nat) extra;
  lp_filtered : forall k, k ∈ extra -> exists l : Lockout, lockouts !! k = Some l /\
    lockout_slot l < earliest /\ contains_slot h (lockout_slot l) = false;
  lp_retained : forall k (l : Lockout), (i <= k)%nat -> lockouts !! k = Some l -> k ∉ extra ->
    lockout_slot l ∈ shs.*1 \/
    lockout_slot l < earliest /\ contains_slot h (lockout_slot l) = true;
  lp_order : forall k a b, (i <= S k)%nat -> lockouts !! k = Some a ->
    lockouts !! S k = Some b -> lockout_slot a < lockout_slot b;
  lp_root : forall r, root = Some r -> r ∈ shs.*1 \/ r < earliest;
  lp_last : forall l : Lockout, (i < length lockouts)%nat -> last lockouts = Some l ->
    earliest <= lockout_slot l -> exists hash, shs !! j' = Some (lockout_slot l, hash);
}.

Lemma filter_loop_done fuel h lockouts shs earliest root j tf :
  filter_loop fuel h lockouts shs earliest root (length lockouts) j tf =
  Ok (length lockouts, j, tf).
Proof. destruct fuel; simpl; by rewrite Nat.ltb_irrefl. Qed.

(** Moving the lockout cursor past index [i], whose lockout is [l]. *)
Lemma loop_post_step h lockouts shs earliest i j' (l : Lockout) extra (filtered : bool) :
  lockouts !! i = Some l ->
  (forall prev, (0 < i)%nat -> lockouts !! (i - 1)%nat = Some prev ->
     lockout_slot prev < lockout_slot l) ->
  (if filtered
   then lockout_slot l < earliest /\ contains_slot h (lockout_slot l) = false
   else lockout_slot l ∈ shs.*1 \/
        lockout_slot l < earliest /\ contains_slot h (lockout_slot l) = true) ->
  (S i = length lockouts -> earliest <= lockout_slot l ->
     exists hash, shs !! j' = Some (lockout_slot l, hash)) ->
  loop_post h lockouts shs earliest None (S i) j' extra ->
  loop_post h lockouts shs earliest None i j' ((if filtered then [i] else []) ++ extra).
Proof.
  intros Hl Hprev Hcase Hend [Hasc Hge Hfil Hret Hord Hroot Hlast].
  assert (Hhd : forall k, k ∈ extra -> (i < k)%nat).
  { intros k Hk. rewrite Forall_forall in Hge. specialize (Hge k Hk). lia. }
  split.
  - destruct filtered; [|done]. simpl. apply chain_cons. split; [|done].
    intros y Hy. apply Hhd. destruct extra; simplify_eq/=. by left.
  - apply Forall_app. split; [by destruct filtered; repeat constructor|].
    eapply Forall_impl; [done|]. simpl. lia.
  - intros k [Hk|Hk]%elem_of_app; [|auto]. destruct filtered;
      [|by apply not_elem_of_nil in Hk]. apply list_elem_of_singleton in Hk as ->. eauto.
  - intros k l' Hk Hl' Hnin. rewrite elem_of_app in Hnin.
    destruct (decide (k = i)) as [->|]; [|apply (Hret k); naive_solver lia].
    rewrite Hl in Hl'. simplify_eq. destruct filtered; [|done].
    exfalso. apply Hnin. left. by left.
  - intros k a b Hk Ha Hb. destruct (decide (S k = i)) as [<-|]; [|apply (Hord k); [lia|done..]].
    rewrite Hl in Hb. simplify_eq. apply Hprev; [lia|]. by rewrite Nat.sub_1_r.
  - done.
  - intros l' Hi Hl' He. destruct (decide (S i = length lockouts)) as [Hs|];
      [|apply Hlast; [lia|done..]].
    rewrite last_lookup, <-Hs in Hl'. simpl in Hl'. rewrite Hl in Hl'. simplify_eq. auto.
Qed.

Lemma loop_post_root h lockouts shs earliest r i j' extra :
  (r ∈ shs.*1 \/ r < earliest) ->
  loop_post h lockouts shs earliest None i j' extra ->
  loop_post h lockouts shs earliest (Some r) i j' extra.
Proof. intros Hr []. split; try done. by intros ? [= <-]. Qed.

Lemma loop_post_end h lockouts shs earliest j' :
  loop_post h lockouts shs earliest None (length lockouts) j' [].
Proof.
  split; try done.
  - intros k Hk. by apply not_elem_of_nil in Hk.
  - intros k l Hk Hl. apply lookup_lt_Some in Hl. lia.
  - intros k a b Hk _ Hb. apply lookup_lt_Some in Hb. lia.
  - intros l Hi. lia.
Qed.

(** One iteration of the loop, with its reads resolved. *)
Lemma filter_loop_S fuel h lockouts shs earliest root i j tf :
  (i < length lockouts)%nat -> (0 < j <= length shs)%nat ->
  exists (l : Lockout) sh,
    lockouts !! i = Some l /\ shs !! (j - 1)%nat = Some sh /\
    let slot := match root with Some r => r | None => lockout_slot l end in
    let ordered := root = None -> forall prev, (0 < i)%nat ->
      lockouts !! (i - 1)%nat = Some prev -> lockout_slot prev < slot in
    (~ ordered /\ filter_loop (S fuel) h lockouts shs earliest root i j tf =
       Err SlotsNotOrdered \/
     ordered /\ filter_loop (S fuel) h lockouts shs earliest root i j tf =
       match Z.compare slot (fst sh) with
       | Lt =>
         if (j =? length shs)%nat then
           if earliest <=? slot then Err AssertionFailed
           else
             match root with
             | Some _ => filter_loop fuel h lockouts shs earliest None i j tf
             | None =>
               filter_loop fuel h lockouts shs earliest None (S i) j
                 (if negb (contains_slot h slot) then tf ++ [i] else tf)
             end
         else Err (if root then RootOnDifferentFork else SlotsMismatch)
       | Gt => filter_loop fuel h lockouts shs earliest root i (j - 1) tf
       | Eq =>
         match root with
         | Some _ => filter_loop fuel h lockouts shs earliest None i j tf
         | None => filter_loop fuel h lockouts shs earliest None (S i) (j - 1) tf
         end
       end).
Proof.
  intros Hi Hj. destruct (lookup_lt_is_Some_2 lockouts i Hi) as [l Hl].
  destruct (lookup_lt_is_Some_2 shs (j - 1)) as [sh Hsh]; [lia|].
  exists l, sh. split_and!; [done..|]. cbn zeta. cbn [filter_loop].
  assert (((i <? length lockouts) && (0 <? j))%nat = true) as ->.
  { apply andb_true_iff. split; apply Nat.ltb_lt; lia. }
  rewrite Hl, Hsh. destruct root as [r|].
  - right. split; [done|]. cbn [mbind outcome_bind].
    rewrite decide_False by (by intros [? _]). simpl.
    rewrite Z.eqb_refl. simpl. rewrite andb_false_r.
    destruct (r ?= fst sh); [done| |done]. destruct (j =? length shs)%nat; [|done].
    by destruct (earliest <=? r).
  - cbn [mbind outcome_bind fmap outcome_fmap expect]. case_decide as Hd.
    + destruct Hd as [_ Hi0]. destruct (lookup_lt_is_Some_2 lockouts (i - 1)) as [p Hp]; [lia|].
      rewrite Hp. simpl. destruct (Z.leb_spec (lockout_slot l) (lockout_slot p)).
      * left. split; [|done]. intros Ho. specialize (Ho eq_refl p Hi0 eq_refl). lia.
      * right. rewrite andb_true_r. split; [|done]. intros _ ? _ [= <-]. done.
    + right. simpl. rewrite andb_true_r. split; [|done].
      intros _ ? Hi0. exfalso. apply Hd. auto.
Qed.

Lemma filter_loop_sound fuel h lockouts shs earliest root i j tf j' tf' :
  filter_loop fuel h lockouts shs earliest root i j tf = Ok (length lockouts, j', tf') ->
  (i <= length lockouts)%nat -> (root <> None -> (i < length lockouts)%nat) ->
  (j <= length shs)%nat ->
  exists extra, tf' = tf ++ extra /\ loop_post h lockouts shs earliest root i j' extra.
Proof.
  revert root i j tf. induction fuel as [|fuel IH]; intros root i j tf Heq Hi Hr Hj.
  all: destruct (decide (i = length lockouts)) as [->|Hne];
    [rewrite filter_loop_done in Heq; simplify_eq; exists []; rewrite app_nil_r; split; [done|];
     destruct root; [exfalso; apply Nat.lt_irrefl with (length lockouts); by apply Hr|];
     apply loop_post_end|].
  all: destruct (decide (j = 0)%nat) as [->|Hj0];
    [simpl in Heq; rewrite andb_false_r in Heq; by simplify_eq|].
  { simpl in Heq. destruct (_ && _)%nat eqn:E in Heq; [done|].
    apply andb_false_iff in E as [?%Nat.ltb_ge|?%Nat.ltb_ge]; lia. }
  destruct (filter_loop_S fuel h lockouts shs earliest root i j tf)
    as (l & sh & Hl & Hsh & Hcase); [lia..|].
  cbn zeta in Hcase. destruct Hcase as [[_ Hbad]|[Hord Hstep]]; rewrite Heq in *; [done|].
  assert (Hin : fst sh ∈ shs.*1) by (by eapply list_elem_of_fmap_2, list_elem_of_lookup_2).
  set (slot := match root with Some r => r | None => lockout_slot l end) in *.
  destruct (slot ?= fst sh) eqn:Hcmp.
  - apply Z.compare_eq in Hcmp. destruct root as [r|]; subst slot; symmetry in Hstep.
    + apply IH in Hstep as (extra & -> & Hp); [|lia|done|lia].
      exists extra. split; [done|]. apply loop_post_root; [left; by rewrite Hcmp|done].
    + pose proof Hstep as Hstep'. apply IH in Hstep as (extra & -> & Hp); [|lia|done|lia].
      exists ((if false then [i] else []) ++ extra). split; [done|].
      apply (loop_post_step _ _ _ _ _ _ l _ false); [done|by apply Hord|left; by rewrite Hcmp| |done].
      intros Hs _. rewrite Hs, filter_loop_done in Hstep'. simplify_eq.
      exists (snd sh). rewrite Hsh, Hcmp. by destruct sh.
  - destruct (j =? length shs)%nat eqn:Hjl; [|by destruct root].
    destruct (Z.leb_spec earliest slot); [done|]. destruct root as [r|]; subst slot; symmetry in Hstep.
    + apply IH in Hstep as (extra & -> & Hp); [|lia|done|lia].
      exists extra. split; [done|]. apply loop_post_root; [by right|done].
    + apply IH in Hstep as (extra & -> & Hp); [|lia|done|lia].
      exists ((if negb (contains_slot h (lockout_slot l)) then [i] else []) ++ extra).
      split; [destruct (contains_slot h (lockout_slot l)); simpl; by rewrite <-?app_assoc|].
      apply (loop_post_step _ _ _ _ _ _ l); [done|by apply Hord| |lia|done].
      destruct (contains_slot h (lockout_slot l)) eqn:Hc; simpl; auto.
  - symmetry in Hstep. apply IH in Hstep as (extra & -> & Hp); [eauto|lia|done|lia].
Qed.

Lemma filter_loop_no_panic fuel h lockouts shs earliest (root : option Slot) i j tf :
  (length lockouts - i + j + (if root then 1 else 0) <= fuel)%nat ->
  (j <= length shs)%nat ->
  filter_loop fuel h lockouts shs earliest root i j tf <> Panic.
Proof.
  revert root i j tf. induction fuel as [|fuel IH]; intros root i j tf Hf Hj.
  all: destruct (decide (i < length lockouts)%nat) as [Hi|Hi];
    [|simpl; destruct (Nat.ltb_spec i (length lockouts)); [lia|done]].
  all: destruct (decide (0 < j)%nat) as [Hj0|Hj0];
    [|simpl; destruct (Nat.ltb_spec 0 j); [lia|by rewrite andb_false_r]].
  { lia. }
  destruct (filter_loop_S fuel h lockouts shs earliest root i j tf)
    as (l & sh & _ & _ & Hcase); [lia..|].
  cbn zeta in Hcase. destruct Hcase as [[_ ->]|[_ ->]]; [done|].
  set (slot := match root with Some r => r | None => lockout_slot l end).
  destruct (slot ?= fst sh).
  - destruct root; apply IH; lia.
  - destruct (j =? length shs)%nat; [|done]. case_bool; [done|].
    destruct root; apply IH; lia.
  - apply IH; lia.
Qed.

Section retain.
Implicit Types (k : list Lockout) (tf : list nat).

Lemma retain_sublist tf index f k : sublist (retain_unfiltered tf index f k) k.
Proof.
  revert index f. induction k as [|x k IH]; intros index f; simpl; [done|].
  destruct (tf !! f); [case_bool|]; by constructor.
Qed.

(** The cursor into the filter indices never passes an index still to come. *)
Lemma retain_spec tf index f k :
  chain lt (drop f tf) -> Forall (fun n => (index <= n)%nat) (drop f tf) ->
  (forall n x, k !! n = Some x -> (index + n)%nat ∉ drop f tf ->
     x ∈ retain_unfiltered tf index f k) /\
  (forall x, x ∈ retain_unfiltered tf index f k -> exists n,
     k !! n = Some x /\ (index + n)%nat ∉ drop f tf).
Proof.
  revert index f. induction k as [|x k IH]; intros index f Hc Hge; simpl.
  { split; [done|]. intros x Hx. by apply not_elem_of_nil in Hx. }
  destruct (tf !! f) as [m|] eqn:Hm.
  - rewrite (drop_S _ _ _ Hm) in Hc, Hge |- *.
    apply Forall_cons in Hge as [Hm' Hge].
    pose proof (chain_trans_all lt _ _ Hc) as Hgt.
    destruct (index =? m)%nat eqn:Him.
    + apply Nat.eqb_eq in Him as ->. destruct (IH (S m) (S f)) as [IH1 IH2].
      { by eapply chain_tail. } { done. }
      split.
      * intros [|n] y Hy Hn; simplify_eq/=.
        -- exfalso. apply Hn. rewrite Nat.add_0_r. by left.
        -- apply (IH1 n); [done|]. intros Hin. apply Hn. right. by rewrite Nat.add_succ_r.
      * intros y Hy. destruct (IH2 y Hy) as (n & Hn & Hnin). exists (S n). split; [done|].
        rewrite Nat.add_succ_r. intros [Heq|Hin]%elem_of_cons; [lia|by apply Hnin].
    + apply Nat.eqb_neq in Him. destruct (IH (S index) f) as [IH1 IH2].
      { by rewrite (drop_S _ _ _ Hm). }
      { rewrite (drop_S _ _ _ Hm). constructor; [lia|].
        eapply Forall_impl; [exact Hgt|]. simpl. intros; lia. }
      rewrite (drop_S _ _ _ Hm) in IH1, IH2. split.
      * intros [|n] y Hy Hn; simplify_eq/=; [by left|]. right.
        apply (IH1 n); [done|]. by rewrite Nat.add_succ_r in Hn.
      * intros y [->|Hy]%elem_of_cons.
        -- exists 0%nat. rewrite Nat.add_0_r. split; [done|].
           intros [?|Hin]%elem_of_cons; [lia|].
           rewrite Forall_forall in Hgt. specialize (Hgt _ Hin). simpl in Hgt. lia.
        -- destruct (IH2 y Hy) as (n & Hn & Hnin). exists (S n). split; [done|].
           by rewrite Nat.add_succ_r.
  - apply lookup_ge_None in Hm. destruct (IH (S index) f) as [IH1 IH2].
    { by rewrite drop_ge. } { by rewrite drop_ge. }
    rewrite drop_ge in IH1, IH2 |- * by done. split.
    + intros [|n] y Hy Hn; simplify_eq/=; [by left|]. right.
      apply (IH1 n); [done|]. apply not_elem_of_nil.
    + intros y [->|Hy]%elem_of_cons; [exists 0%nat; split; [done|apply not_elem_of_nil]|].
      destruct (IH2 y Hy) as (n & Hn & _). exists (S n). split; [done|apply not_elem_of_nil].
Qed.
End retain.

(** ** Binary search *)

Lemma binary_search_spec fuel (l : list Z) key lo size :
  chain Z.lt l -> (lo + size <= length l)%nat -> (size < fuel)%nat ->
  binary_search fuel l key lo size = true <->
  exists k, (lo <= k < lo + size)%nat /\ l !! k = Some key.
Proof.
  intros Hc. revert lo size. induction fuel as [|fuel IH]; intros lo size Hb Hf; [lia|].
  cbn [binary_search]. destruct (Nat.eqb_spec size 0) as [->|Hs].
  { split; [done|]. intros (k & ? & _). lia. }
  assert (Hhalf : (size / 2 < size)%nat) by (apply Nat.div_lt; lia).
  set (mid := (lo + size / 2)%nat). destruct (lookup_lt_is_Some_2 l mid) as [x Hx]; [lia|].
  rewrite Hx.
  assert (Hlt : forall k, (k < mid)%nat -> l !! k = Some key -> key < x).
  { intros k Hk Hkey. by apply (chain_lookup_lt Z.lt l k mid). }
  assert (Hgt : forall k, (mid < k)%nat -> l !! k = Some key -> x < key).
  { intros k Hk Hkey. by apply (chain_lookup_lt Z.lt l mid k). }
  destruct (Z.compare_spec x key) as [->|Hxk|Hxk].
  - split; [|done]. intros _. exists mid. split; [lia|done].
  - rewrite IH by lia. split; intros (k & Hk & Hkey); exists k; (split; [|done]); [lia|].
    destruct (Nat.lt_trichotomy k mid) as [Hkm|[->|Hkm]]; [| |lia].
    + specialize (Hlt k Hkm Hkey). lia.
    + rewrite Hx in Hkey. simplify_eq. lia.
  - rewrite IH by lia. split; intros (k & Hk & Hkey); exists k; (split; [|done]); [lia|].
    destruct (Nat.lt_trichotomy k mid) as [Hkm|[->|Hkm]]; [lia| |].
    + rewrite Hx in Hkey. simplify_eq. lia.
    + specialize (Hgt k Hkm Hkey). lia.
Qed.

(** On a well-formed tower [contains_slot] is membership. *)
Lemma contains_slot_spec h s :
  tower_ok (votes h) -> contains_slot h s = true <-> s ∈ landed_slot <$> votes h.
Proof.
  intros (_ & Hc%tower_slots_chain & _). unfold contains_slot.
  rewrite binary_search_spec; [|by apply chain_map|lia..].
  rewrite list_elem_of_lookup. split; intros [k Hk]; exists k; [by destruct Hk|].
  split; [|done]. apply lookup_lt_Some in Hk. lia.
Qed.

(** ** The accepted proposals *)

Abbreviation lockouts_asc := (chain (fun a b : Lockout => lockout_slot a < lockout_slot b)).

#[local] Instance lockout_slot_trans :
  Transitive (fun a b : Lockout => lockout_slot a < lockout_slot b).
Proof. intros a b c. apply Z.lt_trans. Qed.

(** What an accepted proposal satisfies, with [earliest] the oldest slot hash. *)
Record proposal_ok (h : VoteStateHandler) (lockouts : list Lockout) (root : option Slot)
    (hash : Hash) (shs : list (Slot * Hash)) (lockouts' : list Lockout)
    (root' : option Slot) (earliest : Slot) (newest : Lockout) : Prop := {
  po_newest : last lockouts = Some newest /\ last lockouts' = Some newest;
  po_hash : (lockout_slot newest, hash) ∈ shs;
  po_new : forall x, last_voted_slot h = Some x -> x < lockout_slot newest;
  po_asc : lockouts_asc lockouts;
  po_sublist : sublist lockouts' lockouts;
  po_retained : forall l : Lockout, l ∈ lockouts' -> lockout_slot l ∈ shs.*1 \/
    lockout_slot l < earliest /\ contains_slot h (lockout_slot l) = true;
  po_filtered : forall l : Lockout, l ∈ lockouts -> l ∉ lockouts' ->
    lockout_slot l < earliest /\ contains_slot h (lockout_slot l) = false;
  po_root : root' = overwrite_old_root h earliest root /\
    forall r, root' = Some r -> r ∈ shs.*1 \/ r < earliest;
}.

Lemma last_of_sublist (k k' : list Lockout) x :
  lockouts_asc k -> sublist k' k -> last k = Some x -> x ∈ k' -> last k' = Some x.
Proof.
  intros Hc Hsub Hl Hin. destruct (last_is_Some k') as [y Hy].
  { intros ->. by apply not_elem_of_nil in Hin. }
  assert (Hy' : y ∈ k).
  { eapply elem_of_sublist; [|done]. rewrite last_lookup in Hy. by eapply list_elem_of_lookup_2. }
  rewrite Hy. f_equal.
  destruct (chain_last_max (fun a b => lockout_slot a < lockout_slot b) k x y) as [H1|]; [done..| |done].
  destruct (chain_last_max (fun a b => lockout_slot a < lockout_slot b) k' y x) as [H2|];
    [by apply (chain_sublist _ k' k)|done..| |done].
  simpl in *. lia.
Qed.

Lemma proposal_ok_intro h lockouts root hash shs earliest newest j' extra :
  last lockouts = Some newest -> earliest <= lockout_slot newest ->
  (forall x, last_voted_slot h = Some x -> x < lockout_slot newest) ->
  (lockout_slot newest, hash) ∈ shs ->
  loop_post h lockouts shs earliest (overwrite_old_root h earliest root) 0 j' extra ->
  proposal_ok h lockouts root hash shs (retain_unfiltered extra 0 0 lockouts)
    (overwrite_old_root h earliest root) earliest newest.
Proof.
  intros Hlast He Hnew Hhash [Hasc Hge Hfil Hret Hord Hroot _].
  destruct (retain_spec extra 0 0 lockouts) as [Hin Hout]; [done..|]. rewrite drop_0 in *.
  assert (Hc : lockouts_asc lockouts) by (apply chain_intro; intros i x y; apply Hord; lia).
  split; try done.
  - split; [done|]. apply (last_of_sublist lockouts); [done|apply retain_sublist|done|].
    rewrite last_lookup in Hlast. apply (Hin _ _ Hlast). intros Hex.
    destruct (Hfil _ Hex) as (l & Hl & ? & _). simpl in *. rewrite Hlast in Hl.
    simplify_eq. lia.
  - apply retain_sublist.
  - intros l (n & Hn & Hnin)%Hout. apply (Hret n); [lia|done..].
  - intros l (n & Hn)%list_elem_of_lookup Hnin.
    destruct (decide (n ∈ extra)) as [Hex|Hex].
    + destruct (Hfil _ Hex) as (l' & Hl' & ?). by simplify_eq.
    + exfalso. by apply Hnin, (Hin n).
Qed.

Lemma last_voted_slot_lt h s :
  match last (votes h) with Some v => s <=? landed_slot v | None => false end = false ->
  forall x, last_voted_slot h = Some x -> x < s.
Proof.
  rewrite last_voted_slot_votes, fmap_last. destruct (last (votes h)); simpl; [|done].
  intros Hs x [= <-]. lia.
Qed.

Lemma check_and_filter_ok h lockouts root hash shs lockouts' root' :
  check_and_filter_proposed_vote_state h lockouts root hash shs = Ok (lockouts', root') ->
  exists earliest newest, fst <$> last shs = Some earliest /\
    proposal_ok h lockouts root hash shs lockouts' root' earliest newest.
Proof.
  unfold check_and_filter_proposed_vote_state. intros H.
  destruct (last lockouts) as [newest|] eqn:Hlast; [|done].
  head_if H; [done|]. destruct (last shs) as [[earliest h0]|] eqn:Hsh; [|done].
  head_if H; [done|]. apply Z.ltb_ge in E0.
  inv_ok. destruct x as [[i j] tf]. head_if H; [done|].
  apply negb_false_iff, Nat.eqb_eq in E1 as ->.
  inv_ok. head_if H; [done|]. head_if H; [done|]. inv_ok. simplify_eq.
  apply negb_false_iff, Z.eqb_eq in E1, E2. subst hash.
  exists earliest, newest. split; [done|].
  assert (Hne : (0 < length lockouts)%nat) by (destruct lockouts; [done|simpl; lia]).
  apply filter_loop_sound in H0 as (extra & -> & Hp); [|lia|lia|lia].
  apply (proposal_ok_intro _ _ _ _ _ _ _ j); [done|lia| |rewrite E1|done].
  - by apply last_voted_slot_lt.
  - destruct x. by eapply list_elem_of_lookup_2.
Qed.

Lemma check_and_filter_no_panic h lockouts root hash shs :
  check_and_filter_proposed_vote_state h lockouts root hash shs <> Panic.
Proof.
  unfold check_and_filter_proposed_vote_state.
  destruct (last lockouts) as [newest|] eqn:Hlast; [|done].
  case_bool; [done|]. destruct (last shs) as [[earliest h0]|] eqn:Hsh; [|done].
  destruct (Z.ltb_spec (lockout_slot newest) earliest); [done|].
  apply bind_not_Panic.
  { apply filter_loop_no_panic; [destruct (overwrite_old_root h earliest root); lia|done]. }
  intros [[i j] tf] Hloop. destruct (i =? length lockouts)%nat eqn:Hi; simpl; [|done].
  apply Nat.eqb_eq in Hi as ->.
  assert (Hne : (0 < length lockouts)%nat) by (destruct lockouts; [done|simpl; lia]).
  apply filter_loop_sound in Hloop as (extra & -> & Hp); [|lia|lia|lia].
  destruct (lp_last _ _ _ _ _ _ _ _ Hp newest) as [hash' Hj]; [done..|].
  rewrite Hj. simpl. rewrite Z.eqb_refl. simpl. by case_bool.
Qed.

Lemma tower_below_last h c x :
  tower_ok (votes h) -> c ∈ votes h -> (forall y, last_voted_slot h = Some y -> y < x) ->
  landed_slot c < x.
Proof.
  intros (_ & Hc%tower_slots_chain & _) Hin Hx.
  destruct (last_is_Some (votes h)) as [v Hv].
  { intros Hn. rewrite Hn in Hin. by apply not_elem_of_nil in Hin. }
  specialize (Hx (landed_slot v)). rewrite last_voted_slot_votes, fmap_last, Hv in Hx.
  specialize (Hx eq_refl).
  destruct (chain_last_max (fun a b => landed_slot a < landed_slot b) (votes h) v c)
    as [?| ->]; [done..|simpl in *; lia|done].
Qed.

Lemma from_slots (k : list Lockout) :
  landed_slot <$> (landed_from <$> k) = lockout_slot <$> k.
Proof.
  rewrite <-list_fmap_compose. apply list_fmap_ext. intros ???. simpl.
  by rewrite landed_slot_spec, landed_from_spec.
Qed.

(** C25: for every input, [check_and_filter_proposed_vote_state] ends without a
    panic (its two assertions hold and its indices are in range); when it
    accepts, the newest proposed slot is newer than the last vote and carries
    the proposed hash in the slot hashes, the proposed slots strictly ascend,
    what it keeps is on the fork described by the slot hashes or is an old slot
    the vote state already holds, what it drops is exactly the old slots the vote
    state does not hold, and the root is on that fork or older than it. *)
Theorem check_and_filter_proposed_vote_state_correct (h : VoteStateHandler)
    (lockouts : list Lockout) (root : option Slot) (hash : Hash) (shs : list (Slot * Hash)) :
  check_and_filter_proposed_vote_state h lockouts root hash shs <> Panic /\
  forall lockouts' root',
    check_and_filter_proposed_vote_state h lockouts root hash shs = Ok (lockouts', root') ->
    exists earliest newest, fst <$> last shs = Some earliest /\
      proposal_ok h lockouts root hash shs lockouts' root' earliest newest.
Proof. split; [apply check_and_filter_no_panic|apply check_and_filter_ok]. Qed.

(** C6: processing a tower sync on a well-formed vote state never panics; when
    it succeeds the new state is well formed, the last voted slot is newer than
    before and carries the hash of the sync in the slot hashes, the root does
    not roll back, and no vote above the new root is rolled back: either the
    new tower holds it with at least as many confirmations and the same landed
    latency, or the first new vote after it lies beyond its lockout. *)
Theorem do_process_tower_sync_correct (shs : list (Slot * Hash)) (e slot : Z)
    (sync : TowerSync) (h : VoteStateHandler) :
  state_ok h ->
  fst (do_process_tower_sync shs e slot sync h) <> Panic /\
  forall h', do_process_tower_sync shs e slot sync h = (Ok tt, h') ->
    state_ok h' /\
    (exists s, last_voted_slot h' = Some s /\ (s, ts_hash sync) ∈ shs /\
       forall x, last_voted_slot h = Some x -> x < s) /\
    (forall r, root_slot h = Some r -> exists r', root_slot h' = Some r' /\ r <= r') /\
    (forall c, c ∈ votes h -> (forall r, root_slot h' = Some r -> r < landed_slot c) ->
       vote_kept c (votes h') \/ vote_expired c (votes h')).
Proof.
  intros Hok. unfold do_process_tower_sync. split.
  - apply st_bind_not_Panic; [done|]. intros ? ? [= <- <-].
    apply st_bind_not_Panic; [apply check_and_filter_no_panic|].
    intros [k r] ? [Hk ->]%st_lift_Ok. apply process_new_vote_state_no_panic; [done|].
    apply check_and_filter_ok in Hk as (ea & nw & _ & [[_ Hn] _ _ _ _ _ _ _]).
    intros Hnil. apply fmap_nil_inv in Hnil. by rewrite Hnil in Hn.
  - intros h' H. inv_ok. destruct x1 as [k r]. rename x0 into h.
    apply check_and_filter_ok in H1 as (ea & nw & _ & [[_ Hn] Hh Hnew _ _ _ _ _]).
    assert (Hlast : last (landed_slot <$> (landed_from <$> k)) = Some (lockout_slot nw))
      by (by rewrite from_slots, fmap_last, Hn).
    destruct (process_new_vote_state_ok _ _ _ _ _ _ _ Hok H) as (Hok' & Hr & Hlk & Hroot & Hv).
    split_and!; [done| | |].
    + exists (lockout_slot nw). split_and!; [|done..].
      by rewrite last_voted_slot_votes, (slots_of_lockouts _ _ Hlk).
    + by rewrite Hr.
    + intros c Hc Hcr. rewrite Hr in Hcr.
      rewrite fmap_last in Hlast. apply fmap_Some in Hlast as (x & Hx & Hxs).
      apply (Hv c x); [done..|]. rewrite <-Hxs.
      apply (tower_below_last h); [apply Hok|done..].
Qed.

Lemma process_timestamp_Err s t h er h' :
  process_timestamp s t h = (Err er, h') -> er = TimestampTooOld /\ h' = h.
Proof.
  unfold process_timestamp, mbind, stm_bind, st_get. case_bool; [|done].
  unfold st_err. by intros [= <- <-].
Qed.

Lemma process_new_vote_state_Err new root ts e cs h er h' :
  process_new_vote_state new root ts e cs h = (Err er, h') ->
  votes h' = votes h /\ root_slot h' = root_slot h /\ (er <> TimestampTooOld -> h' = h).
Proof.
  unfold process_new_vote_state. intros H.
  apply st_bind_Err in H as [[=]|(? & ? & [= <- <-] & H)].
  do 2 (head_if H; [unfold st_lift, st_err in H; by simplify_eq|]).
  apply st_bind_Err in H as [[= _ <-]|([] & ? & [_ ->]%st_lift_Ok & H)]; [done|].
  apply st_bind_Err in H as [[= _ <-]|([] & ? & [_ ->]%st_lift_Ok & H)]; [done|].
  apply st_bind_Err in H as [[= _ <-]|([ea ix] & ? & [_ ->]%st_lift_Ok & H)]; [done|].
  apply st_bind_Err in H as [[= _ <-]|(merged & ? & [_ ->]%st_lift_Ok & H)]; [done|].
  assert (Hinc : forall o h1, (if decide (root_slot h <> root) then
      h2 ← st_lift (increment_credits e ea h); st_put h2 else mret tt) h = (o, h1) ->
      votes h1 = votes h /\ root_slot h1 = root_slot h /\
      (forall er', o <> Err (E:=VoteError) er')).
  { intros o h1 Hi. case_decide; [|unfold mret, stm_ret in Hi; by simplify_eq].
    unfold mbind, stm_bind, st_lift in Hi. destruct (increment_credits e ea h) as [h2|er'|] eqn:Heq.
    - unfold increment_credits in Heq. inv_ok. unfold st_put in Hi. simplify_eq.
      by autorewrite with vote.
    - exfalso. unfold increment_credits, update_last in Heq.
      repeat (case_match || simplify_eq/= || case_decide).
    - by simplify_eq. }
  apply st_bind_Err in H as [Hi|([] & h1 & Hi & H)].
  { destruct (Hinc _ _ Hi) as (_ & _ & Hne). by destruct (Hne er). }
  destruct (Hinc _ _ Hi) as (Hv & Hr & _).
  apply st_bind_Err in H as [Hts|([] & h2 & _ & [[=]|(? & ? & _ & [=])]%st_bind_Err)].
  destruct ts as [t|]; [|done].
  apply st_bind_Err in Hts as [Hl|(v & ? & [_ ->]%st_lift_Ok & Ht)].
  - unfold st_lift, expect in Hl. destruct (last (set_latency cs <$> merged)); discriminate Hl.
  - apply process_timestamp_Err in Ht as [-> ->]. done.
Qed.

(** C37: a rejected tower sync leaves the tower and the root of the vote state
    untouched, and every rejection other than a stale timestamp leaves the whole
    vote state untouched. *)
Theorem do_process_tower_sync_error (shs : list (Slot * Hash)) (e slot : Z)
    (sync : TowerSync) (h h' : VoteStateHandler) (er : VoteError) :
  do_process_tower_sync shs e slot sync h = (Err er, h') ->
  votes h' = votes h /\ root_slot h' = root_slot h /\ (er <> TimestampTooOld -> h' = h).
Proof.
  unfold do_process_tower_sync. intros H.
  apply st_bind_Err in H as [[=]|(? & ? & [= <- <-] & H)].
  apply st_bind_Err in H as [[= _ <-]|([k r] & ? & [_ ->]%st_lift_Ok & H)]; [done|].
  by eapply process_new_vote_state_Err.
Qed.
End Proofs.

(** ** Witnesses, on the concrete instance [vote_model] *)

Definition wv (s c lat : Z) : LandedVote (@Lockout vote_model) :=
  mk_landed lat (mk_model_lockout s c).

(** A vote state with root 0 and votes for slots 1 and 2. *)
Definition wh : @VoteStateHandler vote_model :=
  @new_v4 vote_model (@mk_v4 vote_model 1 2 3 4 500 10000 0 None
    [wv 1 2 1; wv 2 1 1] (Some 0) ∅ [(0, 5, 0)] (mk_ts 2 100)).

Definition wshs : list (Z * Z) := [(5, 50); (4, 40); (3, 30); (2, 20); (1, 10)].

Definition wsync : @TowerSync vote_model :=
  @mk_tower_sync vote_model
    [mk_model_lockout 1 3; mk_model_lockout 2 2; mk_model_lockout 4 1] (Some 0) 40 (Some 120).

Lemma wh_ok : @state_ok vote_model wh.
Proof.
  split; [split; [split_and!|]|split_and!]; cbn; try lia.
  - split; [|done]. unfold vote_step. split_and!; vm_compute; (reflexivity || discriminate).
  - repeat constructor; cbn; lia.
  - intros r [= <-]. done.
  - repeat constructor; cbn; unfold u64_max; lia.
Qed.

Lemma process_vote_correct_witness :
  let run := @process_vote vote_model (mk_vote [3; 5] 50 None) wshs 0 6 wh in
  is_ok run = true /\
  run <> Panic /\ forall h', run = Ok h' -> @state_ok vote_model h' /\
    exists s, @last_voted_slot vote_model h' = Some s /\ s ∈ [3; 5] /\ (s, 50) ∈ wshs /\
      forall x, @last_voted_slot vote_model wh = Some x -> x < s.
Proof.
  split; [vm_compute; reflexivity|].
  apply (@process_vote_correct vote_model vote_model_laws (mk_vote [3; 5] 50 None) wshs 0 6 wh).
  - exact wh_ok.
  - cbn. lia.
Defined.

Lemma do_process_tower_sync_correct_witness :
  let run := @do_process_tower_sync vote_model wshs 0 6 wsync wh in
  is_ok (fst run) = true /\ fst run <> Panic.
Proof.
  split; [vm_compute; reflexivity|].
  apply (@do_process_tower_sync_correct vote_model vote_model_laws wshs 0 6 wsync wh).
  exact wh_ok.
Defined.

(** A stale timestamp: the tower stays. *)
Definition wstale : @TowerSync vote_model :=
  @mk_tower_sync vote_model (@ts_lockouts vote_model wsync) (Some 0) 40 (Some 99).

Lemma do_process_tower_sync_error_witness :
  exists h', @do_process_tower_sync vote_model wshs 0 6 wstale wh = (Err TimestampTooOld, h') /\
    @votes vote_model h' = @votes vote_model wh.
Proof.
  exists (snd (@do_process_tower_sync vote_model wshs 0 6 wstale wh)).
  assert (H : @do_process_tower_sync vote_model wshs 0 6 wstale wh =
    (Err TimestampTooOld, snd (@do_process_tower_sync vote_model wshs 0 6 wstale wh)))
    by (vm_compute; reflexivity).
  split; [exact H|].
  exact (proj1 (@do_process_tower_sync_error vote_model wshs 0 6 wstale wh _ _ H)).
Defined.

Lemma check_and_filter_proposed_vote_state_correct_witness :
  let run := @check_and_filter_proposed_vote_state vote_model wh
    (@ts_lockouts vote_model wsync) (Some 0) 40 wshs in
  is_ok run = true /\ run <> Panic.
Proof.
  split; [vm_compute; reflexivity|].
  apply (@check_and_filter_proposed_vote_state_correct vote_model vote_model_laws wh
    (@ts_lockouts vote_model wsync) (Some 0) 40 wshs).
Defined.
