(* ===== verification/TowerVoteState.v ===== *)
(** * The validator's own tower

    Models [core/src/consensus/tower_vote_state.rs], the copy of the vote state a
    validator keeps for itself (no latencies, no credits), and proves that it
    follows the on-chain vote state of [VoteState] step by step. *)

From S2P Require Import Prelude VoteInterface VoteState VoteStateProofs.
Local Open Scope Z_scope.

Section Tower.
Context {VI : VoteInterface}.

Record TowerVoteState := mk_tower {
  tower_votes : list Lockout;
  tower_root_slot : option Slot;
}.

Definition tower (t : TowerVoteState) : list Slot := lockout_slot <$> tower_votes t.

Definition tower_last_lockout (t : TowerVoteState) : option Lockout := last (tower_votes t).

Definition tower_last_voted_slot (t : TowerVoteState) : option Slot :=
  lockout_slot <$> tower_last_lockout t.

(** [votes.len().checked_sub(position + 1)], then the vote at that index. *)
Definition nth_recent_lockout (t : TowerVoteState) (position : nat) : option Lockout :=
  if (position + 1 <=? length (tower_votes t))%nat
  then tower_votes t !! (length (tower_votes t) - (position + 1))%nat
  else None.

Fixpoint tower_pop_expired_rev (next_vote_slot : Slot) (rev_votes : list Lockout) :
    list Lockout :=
  match rev_votes with
  | [] => []
  | v :: rest =>
    if negb (lockout_is_locked_out_at_slot v next_vote_slot)
    then tower_pop_expired_rev next_vote_slot rest
    else rev_votes
  end.

Definition tower_pop_expired_votes (next_vote_slot : Slot) (t : TowerVoteState) :
    TowerVoteState :=
  mk_tower (reverse (tower_pop_expired_rev next_vote_slot (reverse (tower_votes t))))
    (tower_root_slot t).

Definition tower_double_lockout_at (stack_depth i : nat) (v : Lockout) : Lockout :=
  if Z.of_nat i + lockout_confirmation_count v <? Z.of_nat stack_depth
  then lockout_increase_confirmation_count 1 v
  else v.

Definition tower_double_lockouts (t : TowerVoteState) : TowerVoteState :=
  mk_tower (imap (tower_double_lockout_at (length (tower_votes t))) (tower_votes t))
    (tower_root_slot t).

Definition tower_process_next_vote_slot {E} (next_vote_slot : Slot) (t : TowerVoteState) :
    outcome E TowerVoteState :=
  if match tower_last_voted_slot t with Some s => next_vote_slot <=? s | None => false end
  then Ok t
  else
    let t := tower_pop_expired_votes next_vote_slot t in
    t ← (if (length (tower_votes t) =? MAX_LOCKOUT_HISTORY)%nat then
           match tower_votes t with
           | [] => Panic
           | rooted_vote :: rest => Ok (mk_tower rest (Some (lockout_slot rooted_vote)))
           end
         else Ok t);
    Ok (tower_double_lockouts
          (mk_tower (tower_votes t ++ [lockout_new next_vote_slot]) (tower_root_slot t))).

(** [impl From<VoteStateV4> for TowerVoteState]. *)
Definition tower_from_v4 (v4 : VoteStateV4) : TowerVoteState :=
  mk_tower (landed_into <$> votes_ v4) (root_slot_ v4).

(** ** Refinement: the tower is the on-chain state without latencies and credits *)

Context {VL : VoteInterfaceLaws VI}.
Implicit Types (h : VoteStateHandler).

Definition tower_of (h : VoteStateHandler) : TowerVoteState := tower_from_v4 (v4_of h).

Lemma tower_of_spec h : tower_of h = mk_tower (lockout <$> votes h) (root_slot h).
Proof.
  unfold tower_of, tower_from_v4, votes, root_slot. f_equal.
  apply list_fmap_ext. intros ???. apply landed_into_spec.
Qed.

Lemma tower_pop_expired_rev_map s (l : list (LandedVote Lockout)) :
  tower_pop_expired_rev s (lockout <$> l) = lockout <$> pop_expired_rev s l.
Proof. induction l as [|v l IH]; simpl; [done|]. by case_bool. Qed.

Lemma tower_double_map d (l : list (LandedVote Lockout)) :
  imap (tower_double_lockout_at d) (lockout <$> l) = lockout <$> imap (double_lockout_at d) l.
Proof.
  apply list_eq. intros i. rewrite list_lookup_imap, !list_lookup_fmap, list_lookup_imap.
  destruct (l !! i) as [v|]; simpl; [|done]. f_equal.
  unfold tower_double_lockout_at, double_lockout_at. rewrite landed_count_spec. by case_bool.
Qed.

Lemma tower_last_voted h : tower_last_voted_slot (tower_of h) = last_voted_slot h.
Proof.
  rewrite tower_of_spec. unfold tower_last_voted_slot, tower_last_lockout, last_voted_slot,
    last_lockout. simpl. by rewrite fmap_last.
Qed.

Lemma tower_kept s h :
  tower_votes (tower_pop_expired_votes s (tower_of h)) = lockout <$> kept_votes s h.
Proof.
  rewrite tower_of_spec. unfold kept_votes, pop_expired_votes, tower_pop_expired_votes. simpl.
  rewrite votes_set_votes, <-fmap_reverse, tower_pop_expired_rev_map. by rewrite fmap_reverse.
Qed.

Lemma tower_step_refines {E} s e cs h :
  state_ok h ->
  exists h', process_next_vote_slot (E:=VoteError) s e cs h = Ok h' /\ state_ok h' /\
    tower_process_next_vote_slot (E:=E) s (tower_of h) = Ok (tower_of h').
Proof.
  intros Hok. destruct (process_next_vote_slot_ok s e cs h Hok) as (h' & Heq & Hok' & _).
  exists h'. split_and!; [done..|]. unfold tower_process_next_vote_slot.
  rewrite tower_last_voted.
  destruct (match last_voted_slot h with Some x => s <=? x | None => false end) eqn:Hold.
  { destruct (last_voted_slot h) as [x|] eqn:Hx; [|done].
    rewrite (process_next_vote_slot_old _ _ _ _ x) in Heq by (done || lia). by simplify_eq. }
  destruct (process_next_vote_slot_new (E:=VoteError) s e cs h Hok)
    as (h1 & Heq1 & Hv & Hr & _).
  { intros x Hx. rewrite Hx in Hold. lia. }
  rewrite Heq in Heq1. injection Heq1 as <-.
  rewrite (tower_of_spec h'), Hv, Hr, tower_kept, length_fmap. unfold tower_full.
  destruct (length (kept_votes s h) =? MAX_LOCKOUT_HISTORY)%nat eqn:Hfull.
  - destruct (kept_votes s h) as [|o rest] eqn:Hk.
    { apply Nat.eqb_eq in Hfull. pose proof max_lockout_history_pos. simpl in *. lia. }
    simpl. unfold tower_double_lockouts. simpl. f_equal. f_equal.
    + rewrite <-tower_double_map. unfold pushed. rewrite fmap_app, length_app, length_fmap.
      simpl. by rewrite Nat.add_1_r.
    + by rewrite landed_slot_spec.
  - unfold mbind, outcome_bind, tower_double_lockouts. rewrite tower_kept.
    simpl. rewrite <-tower_double_map. unfold pushed.
    rewrite fmap_app, length_app, length_fmap. simpl. rewrite Nat.add_1_r.
    done.
Qed.

(** Votes applied one after the other. *)
Fixpoint tower_process_slots {E} (slots : list Slot) (t : TowerVoteState) :
    outcome E TowerVoteState :=
  match slots with
  | [] => Ok t
  | s :: rest => t ← tower_process_next_vote_slot s t; tower_process_slots rest t
  end.

(** C16: the validator's tower refines the on-chain vote state: started from the
    same tower and fed the same votes, neither panics, and the tower ends as the
    projection of the vote state (same lockouts, same root). *)
Theorem tower_refines_vote_state (slots : list Slot) (e cs : Z) (h : VoteStateHandler) :
  state_ok h ->
  exists h', process_vote_slots slots e cs h = Ok h' /\
    tower_process_slots (E:=VoteError) slots (tower_of h) = Ok (tower_of h').
Proof.
  revert h. induction slots as [|s slots IH]; intros h Hok; simpl; [eauto|].
  destruct (tower_step_refines (E:=VoteError) s e cs h Hok) as (h1 & -> & Hok1 & ->).
  simpl. by apply IH.
Qed.
End Tower.

Lemma tower_refines_vote_state_witness :
  exists h', @process_vote_slots vote_model [3; 4; 9] 0 9 wh = Ok h' /\
    @tower_process_slots vote_model VoteError [3; 4; 9] (@tower_of vote_model wh) =
      Ok (@tower_of vote_model h').
Proof.
  exact (@tower_refines_vote_state vote_model vote_model_laws [3; 4; 9] 0 9 wh wh_ok).
Defined.
