(* ===== verification/ThreadSet.v ===== *)
(** * Thread sets

    Models the [ThreadSet] bit set of
    [scheduling-utils/src/thread_aware_account_locks.rs] as a 64-bit integer,
    with the bit-level facts its users rely on. *)

From S2P Require Import Prelude.
Local Open Scope Z_scope.

Definition MAX_THREADS : nat := 64.

(** A thread id is an index in [0 .. MAX_THREADS - 1]. *)
Abbreviation ThreadId := nat (only parsing).

(** The wrapped [u64]. *)
Abbreviation ThreadSet := Z (only parsing).

(** [0b1 << thread_id]; a release build masks the shift amount to 6 bits. *)
Definition as_flag (thread_id : ThreadId) : Z := Z.shiftl 1 (Z.of_nat thread_id mod 64).

Definition ts_none : ThreadSet := 0.
Definition ts_any (num_threads : nat) : ThreadSet :=
  if (num_threads =? MAX_THREADS)%nat then u64_max
  else wrapping_sub u64_max (as_flag num_threads) 1.
Definition ts_only (thread_id : ThreadId) : ThreadSet := as_flag thread_id.
Definition ts_and (a b : ThreadSet) : ThreadSet := Z.land a b.
(** [a & !b] on 64 bits. *)
Definition ts_sub (a b : ThreadSet) : ThreadSet := Z.land a (Z.lxor b u64_max).
(** [u64::count_ones] and [u64::trailing_zeros]. *)
Definition count_ones (s : Z) : nat :=
  length (filter (fun i => Z.testbit s (Z.of_nat i) = true) (seq 0 64)).
Definition trailing_zeros (s : Z) : nat :=
  match list_find (fun i => Z.testbit s (Z.of_nat i) = true) (seq 0 64) with
  | Some (_, i) => i
  | None => 64%nat
  end.
Definition ts_num_threads (s : ThreadSet) : nat := count_ones s.
Definition ts_only_one_contained (s : ThreadSet) : option ThreadId :=
  if (ts_num_threads s =? 1)%nat then Some (trailing_zeros s) else None.
Definition ts_is_empty (s : ThreadSet) : bool := s =? ts_none.
Definition ts_contains (s : ThreadSet) (thread_id : ThreadId) : bool :=
  negb (Z.land s (as_flag thread_id) =? 0).
Definition ts_insert (s : ThreadSet) (thread_id : ThreadId) : ThreadSet :=
  Z.lor s (as_flag thread_id).
Definition ts_remove (s : ThreadSet) (thread_id : ThreadId) : ThreadSet :=
  Z.land s (Z.lxor (as_flag thread_id) u64_max).

(** [ThreadSetIterator::next]: the lowest thread and the set without it. *)
Definition iter_next (s : Z) : option (ThreadId * Z) :=
  if s =? 0 then None
  else Some (trailing_zeros s, Z.land s (wrapping_sub u64_max s 1)).

(** The iterator run to its end; 64 steps suffice, each clears a bit. *)
Fixpoint iter_run (fuel : nat) (s : Z) : list ThreadId :=
  match fuel with
  | O => []
  | S fuel =>
    match iter_next s with
    | None => []
    | Some (t, s') => t :: iter_run fuel s'
    end
  end.
Definition contained_threads_iter (s : ThreadSet) : list ThreadId := iter_run 64 s.

(** ** Membership *)

Definition ts_ok (s : ThreadSet) : Prop := 0 <= s <= u64_max.
Abbreviation bit s t := (Z.testbit s (Z.of_nat t)).

Lemma u64_max_ones : u64_max = Z.ones 64.
Proof. reflexivity. Qed.

Lemma u64_max_bit i : 0 <= i -> Z.testbit u64_max i = (i <? 64).
Proof.
  intros Hi. rewrite u64_max_ones. destruct (Z.ltb_spec i 64).
  - by apply Z.ones_spec_low.
  - by apply Z.ones_spec_high.
Qed.

Lemma ts_ok_high s i : ts_ok s -> 64 <= i -> Z.testbit s i = false.
Proof.
  intros [H0 H1] Hi. destruct (decide (s = 0)) as [->|]; [apply Z.bits_0|].
  apply Z.bits_above_log2; [done|]. apply Z.lt_le_trans with 64; [|done].
  apply Z.log2_lt_pow2; [lia|]. unfold u64_max in *. lia.
Qed.

Lemma ts_ext s s' :
  ts_ok s -> ts_ok s' -> (forall t, (t < 64)%nat -> bit s t = bit s' t) -> s = s'.
Proof.
  intros Hs Hs' Heq. apply Z.bits_inj'. intros i Hi.
  destruct (Z.lt_ge_cases i 64).
  - rewrite <-(Z2Nat.id i) by done. apply Heq. lia.
  - by rewrite !ts_ok_high.
Qed.

Lemma bits_ok s :
  0 <= s -> (forall i, 64 <= i -> Z.testbit s i = false) -> ts_ok s.
Proof.
  intros H0 Hh. split; [done|]. destruct (Z.le_gt_cases s u64_max) as [|Hgt]; [done|].
  exfalso. assert (64 <= Z.log2 s).
  { apply Z.log2_le_pow2; unfold u64_max in *; lia. }
  specialize (Hh (Z.log2 s) ltac:(done)). rewrite Z.bit_log2 in Hh; [done|].
  unfold u64_max in *. lia.
Qed.

Lemma as_flag_pow t : (t < 64)%nat -> as_flag t = 2 ^ Z.of_nat t.
Proof.
  intros Ht. unfold as_flag. rewrite Z.mod_small by lia. rewrite Z.shiftl_1_l. done.
Qed.

Lemma as_flag_bit t i :
  (t < 64)%nat -> 0 <= i -> Z.testbit (as_flag t) i = bool_decide (i = Z.of_nat t).
Proof.
  intros Ht Hi. rewrite as_flag_pow by done. case_bool_decide as H.
  - subst. apply Z.pow2_bits_true. lia.
  - apply Z.pow2_bits_false. done.
Qed.

Lemma ts_only_ok t : (t < 64)%nat -> ts_ok (ts_only t).
Proof.
  intros Ht. unfold ts_only. apply bits_ok.
  - rewrite as_flag_pow by done. lia.
  - intros i Hi. rewrite as_flag_bit by lia. by apply bool_decide_eq_false_2; lia.
Qed.

Lemma ts_only_bit t t' :
  (t < 64)%nat -> bit (ts_only t) t' = bool_decide (t' = t).
Proof.
  intros Ht. unfold ts_only. rewrite as_flag_bit by lia. apply bool_decide_ext. lia.
Qed.

Lemma ts_any_spec n : (n <= 64)%nat -> ts_any n = Z.ones (Z.of_nat n).
Proof.
  intros Hn. unfold ts_any, MAX_THREADS. destruct (Nat.eqb_spec n 64) as [->|]; [done|].
  unfold wrapping_sub. rewrite as_flag_pow by lia. rewrite Z.ones_equiv, <-Z.sub_1_r.
  apply Z.mod_small. assert (2 ^ Z.of_nat n <= 2 ^ 64) by (apply Z.pow_le_mono_r; lia).
  assert (0 < 2 ^ Z.of_nat n) by (apply Z.pow_pos_nonneg; lia). unfold u64_max. lia.
Qed.

Lemma ts_any_ok n : (n <= 64)%nat -> ts_ok (ts_any n).
Proof.
  intros Hn. rewrite ts_any_spec by done. apply bits_ok.
  - rewrite Z.ones_equiv. assert (0 < 2 ^ Z.of_nat n) by (apply Z.pow_pos_nonneg; lia). lia.
  - intros i Hi. apply Z.ones_spec_high. lia.
Qed.

Lemma ts_any_bit n t : (n <= 64)%nat -> bit (ts_any n) t = bool_decide (t < n)%nat.
Proof.
  intros Hn. rewrite ts_any_spec by done. case_bool_decide.
  - apply Z.ones_spec_low. lia.
  - apply Z.ones_spec_high. lia.
Qed.

Lemma ts_and_ok s s' : ts_ok s -> ts_ok (ts_and s s').
Proof.
  intros Hs. unfold ts_and. apply bits_ok.
  - apply Z.land_nonneg. left. apply Hs.
  - intros i Hi. rewrite Z.land_spec, (ts_ok_high s) by done. done.
Qed.

Lemma ts_and_bit s s' t : bit (ts_and s s') t = bit s t && bit s' t.
Proof. apply Z.land_spec. Qed.

Lemma ts_insert_ok s t : ts_ok s -> (t < 64)%nat -> ts_ok (ts_insert s t).
Proof.
  intros Hs Ht. unfold ts_insert. apply bits_ok.
  - apply Z.lor_nonneg. split; [apply Hs|]. rewrite as_flag_pow by done.
    apply Z.pow_nonneg. lia.
  - intros i Hi. rewrite Z.lor_spec, (ts_ok_high s i Hs Hi), as_flag_bit by lia. simpl.
    by apply bool_decide_eq_false_2; lia.
Qed.

Lemma ts_insert_bit s t t' :
  (t < 64)%nat -> bit (ts_insert s t) t' = bit s t' || bool_decide (t' = t).
Proof.
  intros Ht. unfold ts_insert. rewrite Z.lor_spec. f_equal. by apply ts_only_bit.
Qed.

Lemma ts_remove_ok s t : ts_ok s -> ts_ok (ts_remove s t).
Proof. apply ts_and_ok. Qed.

Lemma ts_remove_bit s t t' :
  (t < 64)%nat -> (t' < 64)%nat ->
  bit (ts_remove s t) t' = bit s t' && negb (bool_decide (t' = t)).
Proof.
  intros Ht Ht'. unfold ts_remove. rewrite Z.land_spec, Z.lxor_spec. f_equal.
  rewrite u64_max_bit by lia. destruct (Z.ltb_spec (Z.of_nat t') 64); [|lia].
  rewrite xorb_true_r. f_equal. by apply ts_only_bit.
Qed.

Lemma ts_contains_bit s t : (t < 64)%nat -> ts_contains s t = bit s t.
Proof.
  intros Ht. unfold ts_contains. destruct (bit s t) eqn:Hb.
  - apply negb_true_iff, Z.eqb_neq. intros Hz.
    assert (Z.testbit (Z.land s (as_flag t)) (Z.of_nat t) = false) as H
      by (by rewrite Hz, Z.bits_0).
    rewrite Z.land_spec, Hb, as_flag_bit in H by lia. by rewrite bool_decide_eq_true_2 in H.
  - apply negb_false_iff, Z.eqb_eq. apply Z.bits_inj'. intros i Hi.
    rewrite Z.land_spec, Z.bits_0, as_flag_bit by done.
    case_bool_decide; [subst; by rewrite Hb|by rewrite andb_false_r].
Qed.

Lemma ts_is_empty_spec s :
  ts_ok s -> ts_is_empty s = true <-> forall t, (t < 64)%nat -> bit s t = false.
Proof.
  intros Hs. unfold ts_is_empty, ts_none. rewrite Z.eqb_eq. split.
  - intros -> t _. apply Z.bits_0.
  - intros Hall. apply ts_ext; [done|done|]. intros t Ht. rewrite Z.bits_0. auto.
Qed.

(** ** Population count, lowest bit and iteration *)

Lemma trailing_zeros_spec s :
  ts_ok s -> s <> 0 ->
  (trailing_zeros s < 64)%nat /\ bit s (trailing_zeros s) = true /\
  forall i, (i < trailing_zeros s)%nat -> bit s i = false.
Proof.
  intros Hs Hnz. unfold trailing_zeros. destruct (list_find _ _) as [[j i]|] eqn:Hf.
  - apply list_find_Some in Hf as (Hj & Hi & Hlt). apply lookup_seq in Hj as [-> Hj].
    rewrite Nat.add_0_l in *. split_and!; [done|done|]. intros i Hij.
    apply not_true_iff_false. apply (Hlt i i); [|done]. apply lookup_seq. lia.
  - apply list_find_None in Hf. exfalso. apply Hnz, ts_ext; [done|done|].
    intros t Ht. rewrite Z.bits_0. apply not_true_iff_false.
    rewrite Forall_forall in Hf. apply Hf, elem_of_seq. lia.
Qed.

Lemma trailing_zeros_unique s t :
  (t < 64)%nat -> bit s t = true -> (forall i, (i < t)%nat -> bit s i = false) ->
  trailing_zeros s = t.
Proof.
  intros Ht Hb Hlo. unfold trailing_zeros.
  assert (list_find (fun i => bit s i = true) (seq 0 64) = Some (t, t)) as ->; [|done].
  apply list_find_Some. split_and!; [apply lookup_seq; lia|done|].
  intros j y [-> Hj]%lookup_seq Hlt. rewrite (Hlo (0 + j)%nat) by done. done.
Qed.

Lemma ts_only_one_contained_Some s t :
  ts_ok s -> ts_only_one_contained s = Some t -> (t < 64)%nat /\ s = ts_only t.
Proof.
  intros Hs. unfold ts_only_one_contained, ts_num_threads, count_ones.
  destruct (Nat.eqb_spec (length (filter (fun i => bit s i = true) (seq 0 64))) 1)
    as [Hlen|]; [|done].
  destruct (filter _ _) as [|u [|]] eqn:Hf in Hlen; [done| |done]. intros [= <-].
  assert (forall i, (i < 64)%nat -> bit s i = true <-> i = u) as Hiff.
  { intros i Hi. rewrite <-(list_elem_of_singleton i u), <-Hf, list_elem_of_filter, elem_of_seq.
    split; [intros; split; [done|lia]|tauto]. }
  assert (u ∈ filter (fun i => bit s i = true) (seq 0 64)) as [Hu Hu']%list_elem_of_filter
    by (rewrite Hf; by apply list_elem_of_singleton).
  apply elem_of_seq in Hu'. rewrite (trailing_zeros_unique s u); [|lia|done|].
  - split; [lia|]. apply ts_ext; [done|apply ts_only_ok; lia|]. intros t Ht.
    rewrite ts_only_bit by lia. case_bool_decide; [by apply Hiff|].
    apply not_true_iff_false. by rewrite Hiff.
  - intros i Hi. apply not_true_iff_false. rewrite Hiff; lia.
Qed.

Lemma ts_only_one_contained_only t :
  (t < 64)%nat -> ts_only_one_contained (ts_only t) = Some t.
Proof.
  intros Ht. do 64 (destruct t as [|t]; [vm_compute; reflexivity|]). lia.
Qed.

(** [s & (s - 1)] clears the lowest set bit. *)
Lemma clear_lowest s :
  ts_ok s -> s <> 0 ->
  Z.land s (wrapping_sub u64_max s 1) = ts_remove s (trailing_zeros s).
Proof.
  intros Hs Hnz. destruct (trailing_zeros_spec s Hs Hnz) as (Hk & Hb & Hlo).
  set (k := trailing_zeros s) in *.
  assert (wrapping_sub u64_max s 1 = s - 1) as ->.
  { unfold wrapping_sub. apply Z.mod_small. unfold ts_ok in Hs. lia. }
  set (p := 2 ^ Z.of_nat k). assert (0 < p) by (apply Z.pow_pos_nonneg; lia).
  assert (s mod p = 0) as Hmod.
  { apply Z.bits_inj'. intros i Hi. rewrite Z.bits_0. unfold p.
    destruct (Z.lt_ge_cases i (Z.of_nat k)).
    - rewrite Z.mod_pow2_bits_low by done. rewrite <-(Z2Nat.id i) by done. apply Hlo. lia.
    - apply Z.mod_pow2_bits_high. lia. }
  assert (Z.odd (s / p) = true) as Hodd.
  { rewrite <-Z.bit0_odd. unfold p. rewrite Z.div_pow2_bits by lia. done. }
  apply Z.odd_spec in Hodd as [m Hm].
  assert (s = p * (2 * m + 1)) as Hsm by (rewrite <-Hm; by apply Z_div_exact_2; [lia|]).
  assert ((s - 1) / p = 2 * m) as Hd.
  { symmetry. apply Z.div_unique with (p - 1); lia. }
  apply ts_ext; [by apply ts_and_ok|by apply ts_remove_ok|]. intros t Ht.
  rewrite ts_remove_bit, Z.land_spec by done. destruct (lt_eq_lt_dec t k) as [[Hlt| ->]|Hgt].
  - by rewrite (Hlo t Hlt).
  - rewrite Hb, bool_decide_eq_true_2 by done. simpl.
    rewrite <-(Z.add_0_l (Z.of_nat k)), <-Z.div_pow2_bits by lia.
    fold p. rewrite Hd. apply Z.testbit_even_0.
  - rewrite bool_decide_eq_false_2 by lia. rewrite andb_true_r.
    assert (bit s t = bit (s - 1) t) as ->; [|by rewrite andb_diag].
    replace (Z.of_nat t) with (Z.succ (Z.of_nat (t - k - 1)) + Z.of_nat k) by lia.
    rewrite <-!Z.div_pow2_bits by lia. fold p. rewrite Hm, Hd.
    by rewrite Z.testbit_odd_succ, Z.testbit_even_succ by lia.
Qed.

Lemma filter_seq_head s n m :
  ts_ok s -> s <> 0 -> (n + m = 64)%nat -> (forall i, (i < n)%nat -> bit s i = false) ->
  filter (fun i => bit s i = true) (seq n m) =
  trailing_zeros s :: filter (fun i => bit (ts_remove s (trailing_zeros s)) i = true) (seq n m).
Proof.
  intros Hs Hnz. revert n. induction m as [|m IH]; intros n Hn Hlo.
  - exfalso. destruct (trailing_zeros_spec s Hs Hnz) as (Hk & Hb & _).
    rewrite Hlo in Hb by lia. done.
  - destruct (trailing_zeros_spec s Hs Hnz) as (Hk & Hb & Hlo').
    cbn [seq]. rewrite !filter_cons. rewrite ts_remove_bit by lia.
    destruct (bit s n) eqn:Hbn.
    + assert (trailing_zeros s = n) as Heq by (apply trailing_zeros_unique; [lia|done|done]).
      rewrite Heq, (decide_True (P := true = true)) by done.
      rewrite (bool_decide_eq_true_2 (n = n)) by done. simpl. f_equal.
      apply filter_ext_in. intros i Hi%elem_of_seq. rewrite ts_remove_bit by lia.
      rewrite bool_decide_eq_false_2 by lia. by rewrite andb_true_r.
    + simpl. apply IH; [lia|]. intros i Hi. destruct (decide (i = n)) as [->|]; [done|].
      apply Hlo. lia.
Qed.

Lemma iter_run_spec fuel s :
  ts_ok s -> (length (filter (fun i => bit s i = true) (seq 0 64)) <= fuel)%nat ->
  iter_run fuel s = filter (fun i => bit s i = true) (seq 0 64).
Proof.
  revert s. induction fuel as [|fuel IH]; intros s Hs Hlen.
  - symmetry. apply length_zero_iff_nil. by apply Nat.le_0_r.
  - cbn [iter_run]. unfold iter_next. destruct (Z.eqb_spec s 0) as [->|Hnz].
    + reflexivity.
    + rewrite clear_lowest by done.
      assert (forall i, (i < 0)%nat -> bit s i = false) as H0 by (intros i Hi; by apply Nat.nlt_0_r in Hi).
      pose proof (filter_seq_head s 0 64 Hs Hnz eq_refl H0) as Hhd.
      rewrite Hhd in Hlen |- *. cbn [length] in Hlen.
      rewrite IH; [done|by apply ts_remove_ok|by apply le_S_n].
Qed.

(** The iterator yields exactly the members of the set, in increasing order. *)
Lemma contained_threads_iter_spec s :
  ts_ok s -> contained_threads_iter s = filter (fun i => bit s i = true) (seq 0 64).
Proof.
  intros Hs. apply iter_run_spec; [done|]. etrans; [apply length_filter|].
  by rewrite length_seq.
Qed.
