(* ===== verification/ThreadLocks.v ===== *)
(** * Thread-aware account locks

    Models [scheduling-utils/src/thread_aware_account_locks.rs], the lock table
    with which the banking-stage schedulers decide on which worker thread a
    transaction may run: several transactions of one thread may hold conflicting
    locks at once, transactions of different threads may not.

    The specification is a pair of lock counters per account and thread; the
    table refines it. *)

From S2P Require Import Prelude ThreadSet.
Local Open Scope Z_scope.

Record AccountWriteLocks := {
  thread_id : ThreadId;
  lock_count : Z (* u32 *)
}.

Record AccountReadLocks := {
  thread_set : ThreadSet;
  lock_counts : list Z (* [u32; MAX_THREADS] *)
}.

Record AccountLocks := {
  write_locks : option AccountWriteLocks;
  read_locks : option AccountReadLocks
}.

Inductive TryLockError := MultipleConflicts | ThreadNotAllowed.

Record ThreadAwareAccountLocks := {
  num_threads : nat;
  locks : gmap Pubkey AccountLocks
}.

Definition default_account_locks : AccountLocks :=
  {| write_locks := None; read_locks := None |}.

(** Every operation either panics or returns; [try_lock_accounts] can fail too. *)
Abbreviation res A := (outcome TryLockError A).

(** [assert!] and [panic!]. *)
Definition assert (b : bool) : res () := if b then Ok () else Panic.

Definition new (num_threads : nat) : res ThreadAwareAccountLocks :=
  _ ← assert (0 <? num_threads)%nat;
  _ ← assert (num_threads <=? MAX_THREADS)%nat;
  Ok {| num_threads := num_threads; locks := ∅ |}.

Definition schedulable_threads (WRITE : bool) (self : ThreadAwareAccountLocks)
    (account : Pubkey) : res ThreadSet :=
  match locks self !! account with
  | None => Ok (ts_any (num_threads self))
  | Some {| write_locks := None; read_locks := Some rl |} =>
    Ok (if WRITE then
          default ts_none (ts_only <$> ts_only_one_contained (thread_set rl))
        else ts_any (num_threads self))
  | Some {| write_locks := Some wl; read_locks := None |} => Ok (ts_only (thread_id wl))
  | Some {| write_locks := Some wl; read_locks := Some rl |} =>
    _ ← assert (bool_decide
                  (ts_only_one_contained (thread_set rl) = Some (thread_id wl)));
    Ok (thread_set rl)
  | Some {| write_locks := None; read_locks := None |} => Panic
  end.

Definition read_schedulable_threads := schedulable_threads false.
Definition write_schedulable_threads := schedulable_threads true.

(** One of the two loops of [accounts_schedulable_threads]; [None] is its early
    return. *)
Fixpoint schedulable_loop (threads : Pubkey -> res ThreadSet) (accounts : list Pubkey)
    (acc : ThreadSet) : res (option ThreadSet) :=
  match accounts with
  | [] => Ok (Some acc)
  | account :: accounts =>
    s ← threads account;
    let acc := ts_and acc s in
    if ts_is_empty acc then Ok None else schedulable_loop threads accounts acc
  end.

Definition accounts_schedulable_threads (self : ThreadAwareAccountLocks)
    (write_account_locks read_account_locks : list Pubkey) : res (option ThreadSet) :=
  w ← schedulable_loop (write_schedulable_threads self) write_account_locks
        (ts_any (num_threads self));
  match w with
  | None => Ok None
  | Some acc => schedulable_loop (read_schedulable_threads self) read_account_locks acc
  end.

Definition set_entry (self : ThreadAwareAccountLocks) (account : Pubkey)
    (entry : option AccountLocks) : ThreadAwareAccountLocks :=
  {| num_threads := num_threads self;
     locks := partial_alter (fun _ => entry) account (locks self) |}.

Definition write_lock_account (self : ThreadAwareAccountLocks) (account : Pubkey)
    (tid : ThreadId) : res ThreadAwareAccountLocks :=
  let entry := default default_account_locks (locks self !! account) in
  _ ← match read_locks entry with
      | Some rl => assert (bool_decide (ts_only_one_contained (thread_set rl) = Some tid))
      | None => Ok ()
      end;
  wl ← match write_locks entry with
       | Some wl =>
         _ ← assert (thread_id wl =? tid)%nat;
         Ok {| thread_id := thread_id wl;
               lock_count := wrapping_add u32_max (lock_count wl) 1 |}
       | None => Ok {| thread_id := tid; lock_count := 1 |}
       end;
  Ok (set_entry self account
        (Some {| write_locks := Some wl; read_locks := read_locks entry |})).

Definition write_unlock_account (self : ThreadAwareAccountLocks) (account : Pubkey)
    (tid : ThreadId) : res ThreadAwareAccountLocks :=
  match locks self !! account with
  | None => Panic
  | Some entry =>
    match write_locks entry with
    | None => Panic
    | Some wl =>
      _ ← assert (thread_id wl =? tid)%nat;
      let count := wrapping_sub u32_max (lock_count wl) 1 in
      Ok (set_entry self account
            (if count =? 0 then
               match read_locks entry with
               | None => None
               | Some rl => Some {| write_locks := None; read_locks := Some rl |}
               end
             else Some {| write_locks := Some {| thread_id := thread_id wl;
                                                 lock_count := count |};
                          read_locks := read_locks entry |}))
    end
  end.

(** [lock_counts[thread_id] = f(lock_counts[thread_id])], bounds-checked. *)
Definition update_count (counts : list Z) (tid : ThreadId) (f : Z -> Z) : res (list Z) :=
  c ← expect (counts !! tid);
  Ok (<[tid := f c]> counts).

Definition read_lock_account (self : ThreadAwareAccountLocks) (account : Pubkey)
    (tid : ThreadId) : res ThreadAwareAccountLocks :=
  let entry := default default_account_locks (locks self !! account) in
  _ ← match write_locks entry with
      | Some wl => assert (thread_id wl =? tid)%nat
      | None => Ok ()
      end;
  rl ← match read_locks entry with
       | Some rl =>
         counts ← update_count (lock_counts rl) tid (fun c => wrapping_add u32_max c 1);
         Ok {| thread_set := ts_insert (thread_set rl) tid; lock_counts := counts |}
       | None =>
         counts ← update_count (replicate MAX_THREADS 0) tid (fun _ => 1);
         Ok {| thread_set := ts_only tid; lock_counts := counts |}
       end;
  Ok (set_entry self account
        (Some {| write_locks := write_locks entry; read_locks := Some rl |})).

Definition read_unlock_account (self : ThreadAwareAccountLocks) (account : Pubkey)
    (tid : ThreadId) : res ThreadAwareAccountLocks :=
  match locks self !! account with
  | None => Panic
  | Some entry =>
    match read_locks entry with
    | None => Panic
    | Some rl =>
      _ ← assert (ts_contains (thread_set rl) tid);
      counts ← update_count (lock_counts rl) tid (fun c => wrapping_sub u32_max c 1);
      let set := if bool_decide (counts !! tid = Some 0)
                 then ts_remove (thread_set rl) tid else thread_set rl in
      let rl' := {| thread_set := set; lock_counts := counts |} in
      Ok (set_entry self account
            (if bool_decide (counts !! tid = Some 0) && ts_is_empty set then
               match write_locks entry with
               | None => None
               | Some wl => Some {| write_locks := Some wl; read_locks := None |}
               end
             else Some {| write_locks := write_locks entry; read_locks := Some rl' |}))
    end
  end.

(** [for account in accounts { self.op(account, thread_id) }]. *)
Fixpoint for_accounts
    (op : ThreadAwareAccountLocks -> Pubkey -> ThreadId -> res ThreadAwareAccountLocks)
    (self : ThreadAwareAccountLocks) (accounts : list Pubkey) (tid : ThreadId)
    : res ThreadAwareAccountLocks :=
  match accounts with
  | [] => Ok self
  | account :: accounts =>
    self ← op self account tid;
    for_accounts op self accounts tid
  end.

Definition lock_accounts (self : ThreadAwareAccountLocks)
    (write_account_locks read_account_locks : list Pubkey) (tid : ThreadId)
    : res ThreadAwareAccountLocks :=
  _ ← assert (tid <? num_threads self)%nat;
  self ← for_accounts write_lock_account self write_account_locks tid;
  for_accounts read_lock_account self read_account_locks tid.

Definition unlock_accounts (self : ThreadAwareAccountLocks)
    (write_account_locks read_account_locks : list Pubkey) (tid : ThreadId)
    : res ThreadAwareAccountLocks :=
  self ← for_accounts write_unlock_account self write_account_locks tid;
  for_accounts read_unlock_account self read_account_locks tid.

Definition try_lock_accounts (self : ThreadAwareAccountLocks)
    (write_account_locks read_account_locks : list Pubkey) (allowed_threads : ThreadSet)
    (thread_selector : ThreadSet -> ThreadId) : res (ThreadId * ThreadAwareAccountLocks) :=
  o ← accounts_schedulable_threads self write_account_locks read_account_locks;
  schedulable ← ok_or MultipleConflicts o;
  let schedulable := ts_and schedulable allowed_threads in
  if ts_is_empty schedulable then Err ThreadNotAllowed
  else
    let tid := thread_selector schedulable in
    self ← lock_accounts self write_account_locks read_account_locks tid;
    Ok (tid, self).

(** ** Specification: lock counters

    [cnt k L a t] is the number of locks of kind [k] that thread [t] holds on
    account [a]. *)

Inductive kind := Write | Read.
#[export] Instance kind_eq_dec : EqDecision kind.
Proof. solve_decision. Defined.

Definition ecnt (k : kind) (o : option AccountLocks) (t : ThreadId) : Z :=
  match k with
  | Write =>
    match o ≫= write_locks with
    | Some wl => if bool_decide (thread_id wl = t) then lock_count wl else 0
    | None => 0
    end
  | Read =>
    match o ≫= read_locks with
    | Some rl => default 0 (lock_counts rl !! t)
    | None => 0
    end
  end.

Definition cnt (k : kind) (L : ThreadAwareAccountLocks) (a : Pubkey) (t : ThreadId) : Z :=
  ecnt k (locks L !! a) t.

(** Thread [t] may take a lock of kind [k] on [a]: no other thread holds a
    conflicting one. *)
Definition ecan (k : kind) (o : option AccountLocks) (t : ThreadId) : Prop :=
  forall t', t' <> t -> ecnt Write o t' = 0 /\ (k = Write -> ecnt Read o t' = 0).
Definition can (k : kind) (L : ThreadAwareAccountLocks) (a : Pubkey) (t : ThreadId) : Prop :=
  ecan k (locks L !! a) t.

(** ** Invariant of the table *)

Record reads_wf (n : nat) (rl : AccountReadLocks) : Prop := {
  reads_set : ts_ok (thread_set rl);
  reads_length : length (lock_counts rl) = MAX_THREADS;
  reads_range : forall t, bit (thread_set rl) t = true -> (t < n)%nat;
  reads_count t c : lock_counts rl !! t = Some c ->
    0 <= c <= u32_max /\ (bit (thread_set rl) t = true <-> 0 < c)
}.

Record reads_ok (n : nat) (rl : AccountReadLocks) : Prop := {
  reads_ok_wf :> reads_wf n rl;
  reads_nonempty : thread_set rl <> 0
}.

Record writes_ok (n : nat) (wl : AccountWriteLocks) : Prop := {
  writes_range : (thread_id wl < n)%nat;
  writes_count : 0 < lock_count wl <= u32_max
}.

Definition entry_ok (n : nat) (o : option AccountLocks) : Prop :=
  match o with
  | None => True
  | Some {| write_locks := None; read_locks := None |} => False
  | Some {| write_locks := Some wl; read_locks := None |} => writes_ok n wl
  | Some {| write_locks := None; read_locks := Some rl |} => reads_ok n rl
  | Some {| write_locks := Some wl; read_locks := Some rl |} =>
    writes_ok n wl /\ reads_ok n rl /\ thread_set rl = ts_only (thread_id wl)
  end.

Definition locks_ok (L : ThreadAwareAccountLocks) : Prop :=
  (0 < num_threads L <= 64)%nat /\ forall a, entry_ok (num_threads L) (locks L !! a).
