(* ===== verification/ThreadLocksProofs.v ===== *)
(** * Correctness of the thread-aware account locks

    The lock table of [ThreadLocks] refines counters per account, thread and kind;
    no two threads ever hold conflicting locks; unlocking undoes locking. *)

From S2P Require Import Prelude ThreadSet ThreadLocks.
Local Open Scope Z_scope.

(** ** Entries *)

Lemma reads_zero n rl t :
  reads_wf n rl -> bit (thread_set rl) t = false -> default 0 (lock_counts rl !! t) = 0.
Proof.
  intros H Hb. destruct (lock_counts rl !! t) as [c|] eqn:Hc; [|done]. simpl.
  destruct (reads_count _ _ H _ _ Hc) as [Hr Hiff]. rewrite Hb in Hiff.
  destruct (decide (0 < c)); [|lia]. exfalso. by apply Hiff in l.
Qed.

Lemma reads_pos n rl t :
  (n <= 64)%nat -> reads_wf n rl -> bit (thread_set rl) t = true ->
  0 < default 0 (lock_counts rl !! t).
Proof.
  intros Hn H Hb. pose proof (reads_range _ _ H _ Hb) as Ht.
  destruct (lookup_lt_is_Some_2 (lock_counts rl) t) as [c Hc].
  { rewrite (reads_length _ _ H). unfold MAX_THREADS. lia. }
  rewrite Hc. simpl. by apply (reads_count _ _ H _ _ Hc).
Qed.

Lemma reads_only n rl t :
  (n <= 64)%nat -> (t < 64)%nat -> reads_ok n rl ->
  thread_set rl = ts_only t <-> forall t', t' <> t -> default 0 (lock_counts rl !! t') = 0.
Proof.
  intros Hn Ht H. split.
  - intros Heq t' Hne. apply (reads_zero n); [apply H|].
    rewrite Heq, ts_only_bit by done. by apply bool_decide_eq_false_2.
  - intros Hz.
    assert (forall t', t' <> t -> bit (thread_set rl) t' = false) as Hf.
    { intros t' Hne. apply not_true_iff_false. intros Hb.
      pose proof (reads_pos n rl t' Hn H Hb) as Hp. rewrite (Hz _ Hne) in Hp. lia. }
    apply ts_ext; [apply H|by apply ts_only_ok|]. intros t' Ht'.
    rewrite ts_only_bit by done. case_bool_decide as Hc; [subst t'|by apply Hf].
    apply not_false_iff_true. intros Hb. apply (reads_nonempty _ _ H).
    apply ts_ext; [apply H|done|]. intros u Hu. rewrite Z.bits_0.
    destruct (decide (u = t)) as [->|]; [done|by apply Hf].
Qed.

Lemma ecnt_write_only n wl (o : option AccountReadLocks) t :
  writes_ok n wl ->
  (forall t', t' <> t ->
     ecnt Write (Some {| write_locks := Some wl; read_locks := o |}) t' = 0) <->
  t = thread_id wl.
Proof.
  intros Hw. simpl. split.
  - intros Hz. destruct (decide (t = thread_id wl)) as [|Hne]; [done|].
    specialize (Hz (thread_id wl) ltac:(congruence)). rewrite bool_decide_eq_true_2 in Hz by done.
    destruct (writes_count _ _ Hw). lia.
  - intros -> t' Hne. by rewrite bool_decide_eq_false_2 by congruence.
Qed.

Lemma ts_only_inj t t' : (t < 64)%nat -> (t' < 64)%nat -> ts_only t = ts_only t' -> t = t'.
Proof.
  intros Ht Ht' Heq. pose proof (ts_only_one_contained_only t Ht) as H1.
  rewrite Heq, ts_only_one_contained_only in H1 by done. congruence.
Qed.

Lemma ecan_spec n k o t :
  (n <= 64)%nat -> (t < n)%nat -> entry_ok n o ->
  ecan k o t <->
  match o with
  | None => True
  | Some {| write_locks := Some wl |} => t = thread_id wl
  | Some {| read_locks := Some rl |} => k = Write -> thread_set rl = ts_only t
  | _ => True
  end.
Proof.
  intros Hn Ht Hok. unfold ecan.
  destruct o as [[[wl|] [rl|]]|]; [| |  |done|done]; simpl in Hok.
  - destruct Hok as (Hw & Hr & Hs). rewrite <-(ecnt_write_only n wl (Some rl) t) by done.
    split; [intros H t' Hne; by apply H|]. intros H t' Hne. split; [by apply H|]. intros _.
    apply (ecnt_write_only n) in H; [|done]. subst t.
    by apply (reads_only n rl (thread_id wl)); [|lia| | |].
  - rewrite <-(ecnt_write_only n wl None t) by done.
    split; [intros H t' Hne; by apply H|]. intros H t' Hne. split; [by apply H|done].
  - split.
    + intros H Hk. apply (reads_only n rl t); [done|lia|done|]. intros t' Hne. by apply H.
    + intros H t' Hne. split; [done|]. intros Hk.
      apply (reads_only n rl t); [done|lia|done|by apply H|done].
Qed.

(** ** Which threads can take a lock *)

Definition is_write (k : kind) : bool := bool_decide (k = Write).

Lemma schedulable_threads_spec k L a :
  locks_ok L ->
  exists s, schedulable_threads (is_write k) L a = Ok s /\ ts_ok s /\
    forall t, bit s t = true <-> (t < num_threads L)%nat /\ can k L a t.
Proof.
  intros [Hn Hok]. specialize (Hok a). unfold can, schedulable_threads.
  assert (forall t, bit (ts_any (num_threads L)) t = true <-> (t < num_threads L)%nat) as Hany.
  { intros t. rewrite ts_any_bit by lia. by rewrite bool_decide_eq_true. }
  assert (forall t, (t < num_threads L)%nat ->
            ecan k (locks L !! a) t <-> _) as Hcan
    by (intros t Ht; apply (ecan_spec (num_threads L)); [lia|done|done]).
  destruct (locks L !! a) as [[[wl|] [rl|]]|] eqn:He; simpl in Hok.
  - destruct Hok as (Hw & Hr & Hs). pose proof (writes_range _ _ Hw) as Hwt. rewrite Hs.
    rewrite ts_only_one_contained_only by lia.
    rewrite bool_decide_eq_true_2 by done. eexists; split; [done|split; [apply ts_only_ok; lia|]].
    intros t. rewrite ts_only_bit, bool_decide_eq_true by lia.
    split; [intros ->; split; [done|by apply Hcan]|]. intros [Ht Hc]. by apply Hcan.
  - pose proof (writes_range _ _ Hok) as Hwt.
    eexists; split; [done|split; [apply ts_only_ok; lia|]].
    intros t. rewrite ts_only_bit, bool_decide_eq_true by lia.
    split; [intros ->; split; [done|by apply Hcan]|]. intros [Ht Hc]. by apply Hcan.
  - destruct k; simpl.
    + destruct (ts_only_one_contained (thread_set rl)) as [t0|] eqn:Ho; simpl.
      * apply ts_only_one_contained_Some in Ho as [Ht0 Hs]; [|apply Hok].
        eexists; split; [done|split; [by apply ts_only_ok|]]. intros t.
        rewrite ts_only_bit, bool_decide_eq_true by done. split.
        -- intros ->. assert (t0 < num_threads L)%nat.
           { apply (reads_range _ _ Hok). rewrite Hs, ts_only_bit by done.
             by apply bool_decide_eq_true_2. }
           split; [done|]. by apply Hcan.
        -- intros [Ht Hc]. pose proof (proj1 (Hcan t Ht) Hc eq_refl).
           apply ts_only_inj; [lia|done|congruence].
      * exists ts_none. split; [done|split; [done|]]. intros t. unfold ts_none. rewrite Z.bits_0.
        split; [done|]. intros [Ht Hc].
        rewrite (proj1 (Hcan t Ht) Hc eq_refl), ts_only_one_contained_only in Ho by lia. done.
    + eexists; split; [done|split; [apply ts_any_ok; lia|]]. intros t. rewrite Hany.
      split; [intros Ht; split; [done|by apply Hcan]|by intros [? _]].
  - done.
  - eexists; split; [done|split; [apply ts_any_ok; lia|]]. intros t. rewrite Hany.
    split; [intros Ht; split; [done|by apply Hcan]|by intros [? _]].
Qed.

Definition can_all (L : ThreadAwareAccountLocks) (W R : list Pubkey) (t : ThreadId) : Prop :=
  (forall a, a ∈ W -> can Write L a t) /\ (forall a, a ∈ R -> can Read L a t).

Lemma schedulable_loop_spec k L accts acc :
  locks_ok L -> ts_ok acc -> acc <> 0 ->
  exists r, schedulable_loop (schedulable_threads (is_write k) L) accts acc = Ok r /\
    match r with
    | Some s => ts_ok s /\ s <> 0 /\
        forall t, bit s t = true <->
          bit acc t = true /\
          forall a, a ∈ accts -> (t < num_threads L)%nat /\ can k L a t
    | None => forall t, bit acc t = true -> (t < num_threads L)%nat ->
        ~ forall a, a ∈ accts -> can k L a t
    end.
Proof.
  intros HL. revert acc. induction accts as [|a accts IH]; intros acc Hacc Hnz.
  - exists (Some acc). split; [done|]. split; [done|]. split; [done|]. intros t.
    split; [intros H; split; [done|by intros a Ha%not_elem_of_nil]|by intros [? _]].
  - destruct (schedulable_threads_spec k L a HL) as (s & Hs & Hsok & Hbit).
    cbn [schedulable_loop]. rewrite Hs. cbn.
    pose proof (ts_and_ok acc s Hacc) as Hand.
    destruct (ts_is_empty (ts_and acc s)) eqn:He.
    + exists None. split; [done|]. intros t Ht Htn Hall.
      pose proof (proj1 (ts_is_empty_spec _ Hand) He t) as Hf.
      rewrite ts_and_bit, Ht in Hf. destruct HL as [Hn _].
      assert (bit s t = true) as Hst by (apply Hbit; split; [done|apply Hall; by left]).
      rewrite Hst in Hf. discriminate Hf. lia.
    + destruct (IH (ts_and acc s) Hand) as (r & Hr & Hspec).
      { intros Hz. unfold ts_is_empty in He. by rewrite Hz in He. }
      exists r. split; [done|]. destruct r as [s'|].
      * destruct Hspec as (Hok' & Hnz' & Hb'). split; [done|]. split; [done|]. intros t.
        rewrite Hb', ts_and_bit, andb_true_iff, Hbit. setoid_rewrite elem_of_cons.
        split; [intros [[? ?] ?]|intros [? Hall]].
        -- split; [done|]. intros ? [->|?]; auto.
        -- split; [split; [done|]|]; auto.
      * intros t Ht Htn Hall. apply (Hspec t); [|done|].
        -- rewrite ts_and_bit, Ht. apply Hbit. split; [done|]. apply Hall. by left.
        -- intros b Hb. apply Hall. by right.
Qed.

Lemma ts_any_nonzero n : (0 < n <= 64)%nat -> ts_any n <> 0.
Proof.
  intros Hn Hz. pose proof (ts_any_bit n 0 ltac:(lia)) as H.
  rewrite Hz, Z.bits_0, bool_decide_eq_true_2 in H by lia. done.
Qed.

Lemma accounts_schedulable_threads_spec L W R :
  locks_ok L ->
  exists r, accounts_schedulable_threads L W R = Ok r /\
    match r with
    | Some s => ts_ok s /\ s <> 0 /\
        forall t, bit s t = true <-> (t < num_threads L)%nat /\ can_all L W R t
    | None => forall t, (t < num_threads L)%nat -> ~ can_all L W R t
    end.
Proof.
  intros HL. pose proof HL as [Hn _]. unfold accounts_schedulable_threads, can_all.
  assert (forall t, bit (ts_any (num_threads L)) t = true <-> (t < num_threads L)%nat) as Hany.
  { intros t. rewrite ts_any_bit by lia. by rewrite bool_decide_eq_true. }
  destruct (schedulable_loop_spec Write L W (ts_any (num_threads L)) HL) as (r & Hr & Hs);
    [apply ts_any_ok; lia|by apply ts_any_nonzero|].
  unfold write_schedulable_threads, read_schedulable_threads.
  change true with (is_write Write). rewrite Hr. cbn. destruct r as [s|].
  - destruct Hs as (Hok & Hnz & Hb).
    destruct (schedulable_loop_spec Read L R s HL Hok Hnz) as (r' & Hr' & Hs').
    change false with (is_write Read). exists r'. split; [done|]. destruct r' as [s'|].
    + destruct Hs' as (Hok' & Hnz' & Hb'). split; [done|split; [done|]]. intros t. rewrite Hb', Hb, Hany. naive_solver.
    + intros t Ht [HW HR]. apply (Hs' t); [|done|done]. apply Hb, conj; [by apply Hany|].
      intros a Ha. split; [done|]. by apply HW.
  - exists None. split; [done|]. intros t Ht [HW _]. apply (Hs t); [by apply Hany|done|done].
Qed.

(** ** One lock or unlock changes one counter *)

Definition delta (k : kind) (a : Pubkey) (t : ThreadId) (d : Z) k' a' t' : Z :=
  if bool_decide (k' = k /\ a' = a /\ t' = t) then d else 0.

Record bump (k : kind) (a : Pubkey) (t : ThreadId) (d : Z)
    (L L' : ThreadAwareAccountLocks) : Prop := {
  bump_ok : locks_ok L';
  bump_threads : num_threads L' = num_threads L;
  bump_cnt k' a' t' : cnt k' L' a' t' = cnt k' L a' t' + delta k a t d k' a' t'
}.

Lemma set_entry_bump k a t d L o :
  locks_ok L -> entry_ok (num_threads L) o ->
  (forall t', ecnt k o t' = ecnt k (locks L !! a) t' + (if bool_decide (t' = t) then d else 0)) ->
  (forall k' t', k' <> k -> ecnt k' o t' = ecnt k' (locks L !! a) t') ->
  bump k a t d L (set_entry L a o).
Proof.
  intros [Hn HL] Ho Hk Hk'. split; [|done|].
  - split; [done|]. intros a'. simpl. destruct (decide (a' = a)) as [->|].
    + by rewrite lookup_partial_alter_eq.
    + by rewrite lookup_partial_alter_ne.
  - intros k' a' t'. unfold cnt, delta, set_entry. simpl.
    destruct (decide (a' = a)) as [->|].
    + rewrite lookup_partial_alter_eq. destruct (decide (k' = k)) as [->|].
      * rewrite Hk. f_equal. repeat case_bool_decide; naive_solver.
      * rewrite Hk', bool_decide_eq_false_2 by naive_solver. lia.
    + rewrite lookup_partial_alter_ne, bool_decide_eq_false_2 by naive_solver. lia.
Qed.

Lemma reads_wf_update n s counts s' t c :
  reads_wf n {| thread_set := s; lock_counts := counts |} -> (t < n <= 64)%nat ->
  0 <= c <= u32_max -> ts_ok s' ->
  (forall t', (t' < 64)%nat -> bit s' t' = if bool_decide (t' = t) then 0 <? c else bit s t') ->
  reads_wf n {| thread_set := s'; lock_counts := <[t := c]> counts |}.
Proof.
  intros H Ht Hc Hs' Hb. pose proof (reads_length _ _ H) as Hlen. simpl in Hlen. split; simpl.
  - done.
  - by rewrite length_insert.
  - intros u Hu. destruct (decide (u < 64)%nat).
    + rewrite Hb in Hu by done. case_bool_decide; [subst; lia|]. by apply (reads_range _ _ H).
    + rewrite ts_ok_high in Hu; [done|done|lia].
  - intros u cu Hu.
    assert (u < 64)%nat as Hu64.
    { apply lookup_lt_Some in Hu. rewrite length_insert, Hlen in Hu. done. }
    rewrite Hb by done. destruct (decide (u = t)) as [->|Hne].
    + rewrite list_lookup_insert_eq in Hu
        by (rewrite Hlen; unfold MAX_THREADS; lia).
      simplify_eq. rewrite bool_decide_eq_true_2 by done. by rewrite Z.ltb_lt.
    + rewrite list_lookup_insert_ne in Hu by done. rewrite bool_decide_eq_false_2 by done.
      by apply (reads_count _ _ H).
Qed.

Lemma reads_wf_empty n : reads_wf n {| thread_set := 0; lock_counts := replicate MAX_THREADS 0 |}.
Proof.
  split; cbn [thread_set lock_counts]; [done|apply length_replicate|..].
  - intros t. by rewrite Z.bits_0.
  - intros t c Hc. apply lookup_replicate in Hc as [-> _]. rewrite Z.bits_0.
    split; [unfold u32_max; lia|]. split; [done|lia].
Qed.

Lemma reads_lookup n rl t :
  (t < 64)%nat -> reads_wf n rl ->
  lock_counts rl !! t = Some (default 0 (lock_counts rl !! t)).
Proof.
  intros Ht H. destruct (lookup_lt_is_Some_2 (lock_counts rl) t) as [c ->]; [|done].
  by rewrite (reads_length _ _ H).
Qed.

Lemma default_insert (counts : list Z) t c t' :
  (t < length counts)%nat ->
  default 0 (<[t := c]> counts !! t') =
  if bool_decide (t' = t) then c else default 0 (counts !! t').
Proof.
  intros Ht. case_bool_decide as H.
  - subst. by rewrite list_lookup_insert_eq.
  - by rewrite list_lookup_insert_ne.
Qed.

Lemma lookup_replicate_default n t : default 0 (replicate n 0 !! t) = 0.
Proof.
  destruct (replicate n 0 !! t) as [c|] eqn:H; [|done].
  by apply lookup_replicate in H as [-> _].
Qed.

Lemma wrapping_add_one m c : 0 <= c < m -> wrapping_add m c 1 = c + 1.
Proof. intros. unfold wrapping_add. apply Z.mod_small. lia. Qed.
Lemma wrapping_sub_one m c : 0 < c <= m -> wrapping_sub m c 1 = c - 1.
Proof. intros. unfold wrapping_sub. apply Z.mod_small. lia. Qed.

Lemma write_lock_account_bump L a t :
  locks_ok L -> (t < num_threads L)%nat -> can Write L a t -> cnt Write L a t < u32_max ->
  exists L', write_lock_account L a t = Ok L' /\ bump Write a t 1 L L'.
Proof.
  intros HL Ht Hcan Hc. pose proof HL as [Hn Hok]. specialize (Hok a).
  apply (ecan_spec (num_threads L)) in Hcan; [|lia|done|done].
  unfold cnt in Hc. unfold write_lock_account.
  destruct (locks L !! a) as [[[wl|] [rl|]]|] eqn:He; simpl in Hok, Hcan, Hc |- *.
  - destruct Hok as (Hw & Hr & Hs). rewrite bool_decide_eq_true_2 in Hc by done.
    pose proof (writes_count _ _ Hw).
    rewrite Hs, <-Hcan, ts_only_one_contained_only by lia.
    rewrite bool_decide_eq_true_2, Nat.eqb_refl by done. simpl.
    eexists; split; [done|]. apply set_entry_bump; rewrite ?He; [done|..].
    + simpl. rewrite wrapping_add_one by lia. split; [|by rewrite Hcan in *].
      split; simpl; [done|lia].
    + intros t'. simpl. rewrite wrapping_add_one by lia. rewrite <-Hcan.
      repeat case_bool_decide; naive_solver lia.
    + by intros [] t' Hk.
  - rewrite bool_decide_eq_true_2 in Hc by done. pose proof (writes_count _ _ Hok).
    rewrite <-Hcan, Nat.eqb_refl. simpl.
    eexists; split; [done|]. apply set_entry_bump; rewrite ?He; [done|..].
    + simpl. rewrite wrapping_add_one by lia. split; simpl; [done|lia].
    + intros t'. simpl. rewrite wrapping_add_one by lia. rewrite <-Hcan.
      repeat case_bool_decide; naive_solver lia.
    + by intros [] t' Hk.
  - rewrite (Hcan eq_refl), ts_only_one_contained_only, bool_decide_eq_true_2 by (done || lia).
    simpl. eexists; split; [done|]. apply set_entry_bump; rewrite ?He; [done|..].
    + simpl. split; [split; simpl; [done|unfold u32_max; lia]|]. by split; [|apply Hcan].
    + intros t'. simpl. repeat case_bool_decide; naive_solver lia.
    + by intros [] t' Hk.
  - done.
  - eexists; split; [done|]. apply set_entry_bump; rewrite ?He; [done|..].
    + simpl. split; simpl; [done|unfold u32_max; lia].
    + intros t'. simpl. repeat case_bool_decide; naive_solver lia.
    + by intros [] t' Hk.
Qed.

Lemma write_unlock_account_bump L a t :
  locks_ok L -> 0 < cnt Write L a t ->
  exists L', write_unlock_account L a t = Ok L' /\ bump Write a t (-1) L L'.
Proof.
  intros HL Hc. pose proof HL as [Hn Hok]. specialize (Hok a). unfold cnt in Hc.
  unfold write_unlock_account.
  destruct (locks L !! a) as [[[wl|] rl]|] eqn:He; simpl in Hc |- *; [|lia..].
  case_bool_decide as Hwt; [|lia]. rewrite Hwt, Nat.eqb_refl. simpl.
  assert (writes_ok (num_threads L) wl) as Hw by (destruct rl; apply Hok).
  pose proof (writes_count _ _ Hw). pose proof (writes_range _ _ Hw).
  rewrite wrapping_sub_one by lia.
  eexists; split; [done|]. apply set_entry_bump; rewrite ?He; [done|..].
  - destruct (Z.eqb_spec (lock_count wl - 1) 0); destruct rl as [rl|]; simpl in Hok |- *.
    + apply Hok.
    + done.
    + split; [split; simpl; [lia|lia]|]. rewrite <-Hwt. apply Hok.
    + split; simpl; lia.
  - intros t'. destruct (Z.eqb_spec (lock_count wl - 1) 0); destruct rl as [rl|]; simpl;
      repeat case_bool_decide; naive_solver lia.
  - intros [] t' Hk; [done|]. by destruct (Z.eqb_spec (lock_count wl - 1) 0), rl.
Qed.

#[local] Arguments replicate : simpl never.

(** The read entry after a count becomes [c]: both read operations write one. *)
Lemma read_entry_ok n (wl : option AccountWriteLocks) (rl : AccountReadLocks) s' t c :
  (t < n <= 64)%nat -> 0 < c <= u32_max ->
  reads_wf n rl -> (forall w, wl = Some w -> writes_ok n w /\ thread_id w = t /\
     (thread_set rl = ts_only t \/ thread_set rl = 0)) ->
  s' = ts_insert (thread_set rl) t ->
  entry_ok n (Some {| write_locks := wl;
                      read_locks := Some {| thread_set := s';
                                            lock_counts := <[t := c]> (lock_counts rl) |} |}).
Proof.
  intros Ht Hc Hwf Hwl ->.
  assert (ts_ok (ts_insert (thread_set rl) t)) as Hs by (apply ts_insert_ok; [apply Hwf|lia]).
  assert (reads_ok n {| thread_set := ts_insert (thread_set rl) t;
                        lock_counts := <[t := c]> (lock_counts rl) |}) as Hr.
  { split.
    - destruct rl as [s counts]. apply (reads_wf_update n s counts); [done|done|lia|done|].
      intros t' Ht'. rewrite ts_insert_bit by lia. case_bool_decide; [|by rewrite orb_false_r].
      rewrite orb_true_r. symmetry. apply Z.ltb_lt. lia.
    - simpl. intros Hz. pose proof (ts_insert_bit (thread_set rl) t t ltac:(lia)) as Hb.
      rewrite Hz, Z.bits_0, bool_decide_eq_true_2, orb_true_r in Hb by done. done. }
  destruct wl as [w|]; simpl; [|done]. destruct (Hwl w eq_refl) as (Hw & Hwt & Hset).
  split; [done|split; [done|]]. rewrite Hwt.
  apply ts_ext; [done|apply ts_only_ok; lia|]. intros t' Ht'.
  rewrite ts_insert_bit, ts_only_bit by lia. destruct Hset as [-> | ->].
  - rewrite ts_only_bit by lia. apply orb_diag.
  - by rewrite Z.bits_0.
Qed.

Lemma ts_insert_empty t : ts_insert 0 t = ts_only t.
Proof. reflexivity. Qed.

(** The read locks of an entry, an absent record standing for no lock. *)
Definition reads_of (e : AccountLocks) : AccountReadLocks :=
  default {| thread_set := 0; lock_counts := replicate MAX_THREADS 0 |} (read_locks e).

Lemma reads_of_spec n (o : option AccountLocks) t :
  (n <= 64)%nat -> (t < n)%nat -> entry_ok n o -> ecan Read o t ->
  let e := default default_account_locks o in
  reads_wf n (reads_of e) /\
  (forall w, write_locks e = Some w -> writes_ok n w /\ thread_id w = t /\
     (thread_set (reads_of e) = ts_only t \/ thread_set (reads_of e) = 0)) /\
  forall u, ecnt Read o u = default 0 (lock_counts (reads_of e) !! u).
Proof.
  intros Hn Ht Hok Hcan. apply (ecan_spec n) in Hcan; [|done|done|done].
  unfold reads_of. destruct o as [[[w|] [rl|]]|]; simpl in Hok, Hcan |- *.
  - destruct Hok as (? & Hr & ?). split_and!; [apply Hr| |done].
    intros ? [= <-]. subst t. auto.
  - split_and!; [apply reads_wf_empty|intros ? [= <-]; auto|].
    intros u. by rewrite lookup_replicate_default.
  - split_and!; [apply Hok|done|done].
  - done.
  - split_and!; [apply reads_wf_empty|done|]. intros u. by rewrite lookup_replicate_default.
Qed.

Lemma read_lock_account_bump L a t :
  locks_ok L -> (t < num_threads L)%nat -> can Read L a t -> cnt Read L a t < u32_max ->
  exists L', read_lock_account L a t = Ok L' /\ bump Read a t 1 L L'.
Proof.
  intros HL Ht Hcan Hc. pose proof HL as [Hn Hok].
  destruct (reads_of_spec (num_threads L) (locks L !! a) t) as (Hwf & Hw & Hcnt);
    [lia|done|done|done|].
  unfold cnt in Hc. unfold read_lock_account, update_count.
  set (e := default default_account_locks (locks L !! a)) in *. rewrite Hcnt in Hc.
  assert (match write_locks e with
          | Some wl => assert (thread_id wl =? t)%nat | None => Ok () end = Ok ()) as ->.
  { destruct (write_locks e) as [w|]; [|done]. destruct (Hw w eq_refl) as (_ & -> & _).
    by rewrite Nat.eqb_refl. }
  set (c := default 0 (lock_counts (reads_of e) !! t)) in *.
  pose proof (reads_lookup _ (reads_of e) t ltac:(lia) Hwf) as Hl.
  destruct (reads_count _ _ Hwf _ _ Hl) as [Hrange _]. fold c in Hl, Hrange.
  exists (set_entry L a (Some {| write_locks := write_locks e;
    read_locks := Some {| thread_set := ts_insert (thread_set (reads_of e)) t;
                          lock_counts := <[t := c + 1]> (lock_counts (reads_of e)) |} |})).
  split.
  - unfold reads_of in *. destruct (read_locks e) as [rl|]; cbn -[replicate] in Hl |- *.
    + rewrite Hl. cbn -[replicate]. by rewrite wrapping_add_one by lia.
    + assert (c = 0) as Hc0 by apply lookup_replicate_default. rewrite Hl, Hc0. done.
  - apply set_entry_bump; [done|by apply (read_entry_ok _ _ (reads_of e)); [lia|lia|..]|..].
    + intros t'. rewrite Hcnt. simpl. rewrite default_insert.
      * fold c. case_bool_decide; [subst; done|lia].
      * rewrite (reads_length _ _ Hwf). unfold MAX_THREADS. lia.
    + intros [] t' Hk; [|done]. simpl. subst e. by destruct (locks L !! a) as [[]|].
Qed.

Lemma ts_insert_present s t : ts_ok s -> bit s t = true -> (t < 64)%nat -> ts_insert s t = s.
Proof.
  intros Hs Hb Ht. apply ts_ext; [by apply ts_insert_ok|done|]. intros t' Ht'.
  rewrite ts_insert_bit by done. case_bool_decide; [subst; by rewrite Hb|by rewrite orb_false_r].
Qed.

(** The read entry after the last read lock of [t] is dropped. *)
Lemma read_entry_removed n wl rl t :
  (t < n <= 64)%nat -> reads_ok n rl ->
  entry_ok n (Some {| write_locks := wl; read_locks := Some rl |}) ->
  bit (thread_set rl) t = true ->
  let s := ts_remove (thread_set rl) t in
  let rl' := {| thread_set := s; lock_counts := <[t := 0]> (lock_counts rl) |} in
  reads_wf n rl' /\
  (ts_is_empty s = false ->
     entry_ok n (Some {| write_locks := wl; read_locks := Some rl' |})).
Proof.
  intros Ht Hr Hok Hb s rl'.
  assert (reads_wf n rl') as Hwf.
  { destruct rl as [s0 counts]. apply (reads_wf_update n s0 counts);
      [apply Hr|done|unfold u32_max; lia|apply ts_remove_ok, Hr|].
    intros t' Ht'. unfold s. rewrite ts_remove_bit by lia.
    case_bool_decide; [by rewrite andb_false_r|by rewrite andb_true_r]. }
  split; [done|]. intros He.
  assert (reads_ok n rl') as Hr'.
  { split; [done|]. simpl. intros Hz. unfold ts_is_empty in He. by rewrite Hz in He. }
  destruct wl as [w|]; [|done]. exfalso. destruct Hok as (Hw & _ & Hs).
  apply not_true_iff_false in He. apply He, ts_is_empty_spec; [apply Hwf|].
  pose proof (writes_range _ _ Hw) as Hwt. rewrite Hs, ts_only_bit in Hb by lia.
  apply bool_decide_eq_true in Hb. subst t. intros t' Ht'. unfold s.
  rewrite ts_remove_bit, Hs, ts_only_bit by lia. by case_bool_decide.
Qed.

Lemma entry_reads_ok n wl rl :
  entry_ok n (Some {| write_locks := wl; read_locks := Some rl |}) -> reads_ok n rl.
Proof. destruct wl; simpl; [by intros (_ & ? & _)|done]. Qed.

Lemma read_unlock_account_bump L a t :
  locks_ok L -> 0 < cnt Read L a t ->
  exists L', read_unlock_account L a t = Ok L' /\ bump Read a t (-1) L L'.
Proof.
  intros HL Hc. pose proof HL as [Hn Hok]. specialize (Hok a). unfold cnt in Hc.
  unfold read_unlock_account, update_count.
  destruct (locks L !! a) as [[wl [rl|]]|] eqn:He; simpl in Hc |- *; [|lia..].
  pose proof (entry_reads_ok _ _ _ Hok) as Hr.
  destruct (lock_counts rl !! t) as [c|] eqn:Hl; [|by simpl in Hc; lia].
  simpl in Hc. destruct (reads_count _ _ Hr _ _ Hl) as [Hrange Hbit].
  assert (bit (thread_set rl) t = true) as Hb by (apply Hbit; lia).
  pose proof (reads_range _ _ Hr _ Hb) as Ht.
  assert (t < length (lock_counts rl))%nat as Hlen by (by apply lookup_lt_Some in Hl).
  rewrite ts_contains_bit, Hb by lia. simpl.
  rewrite wrapping_sub_one by lia. rewrite list_lookup_insert_eq by done.
  eexists; split; [done|].
  destruct (read_entry_removed (num_threads L) wl rl t) as [Hwf Hne]; [lia|done|done|done|].
  destruct (decide (c = 1)) as [->|Hc1].
  - rewrite bool_decide_eq_true_2 by done.
    change (1 - 1) with 0. simpl.
    destruct (ts_is_empty _) eqn:Hemp; apply set_entry_bump; rewrite ?He; simpl; try done.
    + by destruct wl; [apply Hok|].
    + intros t'. rewrite ts_is_empty_spec in Hemp by apply Hwf.
      assert (default 0 (lock_counts rl !! t') + (if bool_decide (t' = t) then -1 else 0) = 0) as ->.
      { case_bool_decide as Heq; [subst; by rewrite Hl|].
        rewrite (reads_zero _ _ t' (reads_ok_wf _ _ Hr)); [done|].
        destruct (decide (t' < 64)%nat); [|apply ts_ok_high; [apply Hr|lia]].
        specialize (Hemp t' ltac:(done)). simpl in Hemp.
        rewrite ts_remove_bit, bool_decide_eq_false_2, andb_true_r in Hemp by lia. done. }
      by destruct wl.
    + intros [] t' Hk; [|done]. by destruct wl.
    + by apply Hne.
    + intros t'. rewrite default_insert by done. case_bool_decide; [subst; by rewrite Hl|lia].
    + by intros [] t' Hk.
  - rewrite bool_decide_eq_false_2 by (intros [= ?]; lia). simpl.
    apply set_entry_bump; rewrite ?He; [done|..].
    + rewrite <-(ts_insert_present (thread_set rl) t) by (apply Hr || done || lia).
      apply (read_entry_ok _ _ rl); [lia|lia|apply Hr| |done].
      intros w ->. destruct Hok as (Hw & _ & Hs). split; [done|]. pose proof (writes_range _ _ Hw).
      rewrite Hs, ts_only_bit in Hb by lia. apply bool_decide_eq_true in Hb. subst t. auto.
    + intros t'. simpl. rewrite default_insert by done.
      case_bool_decide; [subst; by rewrite Hl|lia].
    + by intros [] t' Hk.
Qed.

(** ** The table is determined by its counters *)

Lemma write_locks_inj n (w1 w2 : option AccountWriteLocks) r1 r2 :
  (forall w, w1 = Some w -> writes_ok n w) -> (forall w, w2 = Some w -> writes_ok n w) ->
  (forall t, ecnt Write (Some {| write_locks := w1; read_locks := r1 |}) t =
             ecnt Write (Some {| write_locks := w2; read_locks := r2 |}) t) ->
  w1 = w2.
Proof.
  intros H1 H2 Heq. simpl in Heq. destruct w1 as [[t1 c1]|], w2 as [[t2 c2]|]; [..|done].
  - specialize (Heq t1). simpl in Heq. destruct (H1 _ eq_refl) as [_ Hc1]. simpl in Hc1.
    rewrite (bool_decide_eq_true_2 (t1 = t1)) in Heq by done.
    case_bool_decide; [by subst|lia].
  - specialize (Heq t1). simpl in Heq. destruct (H1 _ eq_refl) as [_ Hc1]. simpl in Hc1.
    rewrite bool_decide_eq_true_2 in Heq by done. lia.
  - specialize (Heq t2). simpl in Heq. destruct (H2 _ eq_refl) as [_ Hc1]. simpl in Hc1.
    rewrite bool_decide_eq_true_2 in Heq by done. lia.
Qed.

Lemma reads_some_pos n rl :
  (n <= 64)%nat -> reads_ok n rl -> exists t, 0 < default 0 (lock_counts rl !! t).
Proof.
  intros Hn H. destruct (trailing_zeros_spec (thread_set rl)) as (_ & Hb & _); [apply H..|].
  eexists. by apply (reads_pos n); [|apply H|].
Qed.

Lemma reads_inj n rl1 rl2 :
  (n <= 64)%nat -> reads_ok n rl1 -> reads_ok n rl2 ->
  (forall t, default 0 (lock_counts rl1 !! t) = default 0 (lock_counts rl2 !! t)) -> rl1 = rl2.
Proof.
  intros Hn H1 H2 Heq.
  assert (lock_counts rl1 = lock_counts rl2) as Hc.
  { apply list_eq_same_length with MAX_THREADS; [apply H2|apply H1|].
    intros t x y Ht Hx Hy. specialize (Heq t). by rewrite Hx, Hy in Heq. }
  assert (thread_set rl1 = thread_set rl2) as Hs.
  { apply ts_ext; [apply H1|apply H2|]. intros t Ht.
    pose proof (reads_lookup n rl1 t Ht H1) as L1. pose proof (reads_lookup n rl2 t Ht H2) as L2.
    apply (reads_count n) in L1 as [_ L1]; [|apply H1]. apply (reads_count n) in L2 as [_ L2]; [|apply H2].
    rewrite Heq, <-L2 in L1. destruct (bit (thread_set rl1) t), (bit (thread_set rl2) t); naive_solver. }
  destruct rl1, rl2; simpl in *; congruence.
Qed.

Lemma entry_inj n o1 o2 :
  (n <= 64)%nat -> entry_ok n o1 -> entry_ok n o2 ->
  (forall k t, ecnt k o1 t = ecnt k o2 t) -> o1 = o2.
Proof.
  intros Hn.
  set (e o := default default_account_locks o).
  assert (forall o, entry_ok n o ->
    (forall w, write_locks (e o) = Some w -> writes_ok n w) /\
    (forall r, read_locks (e o) = Some r -> reads_ok n r) /\
    (o = match write_locks (e o), read_locks (e o) with
         | None, None => None
         | w, r => Some {| write_locks := w; read_locks := r |} end) /\
    forall k t, ecnt k o t = ecnt k (Some (e o)) t) as Hv.
  { intros [[[w|] [r|]]|] Ho; simpl in Ho; naive_solver. }
  intros H1 H2 Heq.
  destruct (Hv o1 H1) as (W1 & R1 & E1 & C1), (Hv o2 H2) as (W2 & R2 & E2 & C2).
  destruct (e o1) as [w1 r1], (e o2) as [w2 r2]. simpl in *.
  assert (w1 = w2) as ->.
  { apply (write_locks_inj n w1 w2 r1 r2); [done|done|]. intros t. by rewrite <-C1, <-C2. }
  assert (r1 = r2) as ->; [|congruence].
  assert (forall t, ecnt Read o1 t = ecnt Read o2 t) as Hr by auto.
  setoid_rewrite C1 in Hr. setoid_rewrite C2 in Hr. simpl in Hr.
  destruct r1 as [r1|], r2 as [r2|]; [..|done].
  - f_equal. apply (reads_inj n); auto.
  - destruct (reads_some_pos n r1) as [t Ht]; [done|auto|]. rewrite Hr in Ht. lia.
  - destruct (reads_some_pos n r2) as [t Ht]; [done|auto|]. rewrite <-Hr in Ht. lia.
Qed.

Lemma cnt_inj L L' :
  locks_ok L -> locks_ok L' -> num_threads L = num_threads L' ->
  (forall k a t, cnt k L a t = cnt k L' a t) -> L = L'.
Proof.
  intros [Hn H] [_ H'] Hnum Hc. destruct L as [n m], L' as [n' m']. simpl in *. subst n'.
  f_equal. apply map_eq. intros a. apply (entry_inj n); [lia|done|done|].
  intros k t. apply Hc.
Qed.

(** ** Loops over the accounts of a transaction *)

Definition lock_op (k : kind) := match k with Write => write_lock_account | Read => read_lock_account end.
Definition unlock_op (k : kind) :=
  match k with Write => write_unlock_account | Read => read_unlock_account end.

Lemma lock_op_bump k L a t :
  locks_ok L -> (t < num_threads L)%nat -> can k L a t -> cnt k L a t < u32_max ->
  exists L', lock_op k L a t = Ok L' /\ bump k a t 1 L L'.
Proof. destruct k; [apply write_lock_account_bump|apply read_lock_account_bump]. Qed.

Lemma unlock_op_bump k L a t :
  locks_ok L -> 0 < cnt k L a t ->
  exists L', unlock_op k L a t = Ok L' /\ bump k a t (-1) L L'.
Proof. destruct k; [apply write_unlock_account_bump|apply read_unlock_account_bump]. Qed.

(** The effect of a loop: every counter of [k] and [t] moves by [d] per occurrence. *)
Record bumps (k : kind) (l : list Pubkey) (t : ThreadId) (d : Z)
    (L L' : ThreadAwareAccountLocks) : Prop := {
  bumps_ok : locks_ok L';
  bumps_threads : num_threads L' = num_threads L;
  bumps_cnt k' a' t' : cnt k' L' a' t' =
    cnt k' L a' t' + (if bool_decide (k' = k /\ t' = t) then d * occ a' l else 0)
}.

Lemma bumps_nil k t d L : locks_ok L -> bumps k [] t d L L.
Proof. intros. split; [done|done|]. intros. simpl. case_bool_decide; lia. Qed.

Lemma bumps_cons k a l t d L L1 L2 :
  bump k a t d L L1 -> bumps k l t d L1 L2 -> bumps k (a :: l) t d L L2.
Proof.
  intros [_ Hn1 Hc1] [Hok Hn2 Hc2]. split; [done|congruence|]. intros k' a' t'.
  rewrite Hc2, Hc1. unfold delta. simpl. repeat case_bool_decide; naive_solver lia.
Qed.

Lemma bump_can k a t d L L1 k' a' :
  bump k a t d L L1 -> can k' L a' t -> can k' L1 a' t.
Proof.
  intros [_ _ Hc] H t' Hne. destruct (H t' Hne) as [H1 H2].
  split; [|intros Hk; specialize (H2 Hk)]; [pose proof (Hc Write a' t') as E|pose proof (Hc Read a' t') as E];
    unfold cnt, delta in E; rewrite E, bool_decide_eq_false_2 by naive_solver; lia.
Qed.

Lemma lock_loop k L l t :
  locks_ok L -> (t < num_threads L)%nat -> (forall a, a ∈ l -> can k L a t) ->
  (forall a, a ∈ l -> cnt k L a t + occ a l <= u32_max) ->
  exists L', for_accounts (lock_op k) L l t = Ok L' /\ bumps k l t 1 L L'.
Proof.
  revert L. induction l as [|a l IH]; intros L HL Ht Hcan Hmax.
  { exists L. split; [done|by apply bumps_nil]. }
  assert (a ∈ a :: l) as Ha by left. pose proof (Hmax a Ha) as Hm. simpl in Hm.
  rewrite bool_decide_eq_true_2 in Hm by done. pose proof (occ_nonneg a l).
  destruct (lock_op_bump k L a t) as (L1 & H1 & B1); [done|done|auto|lia|].
  destruct (IH L1) as (L2 & H2 & B2).
  - apply B1.
  - rewrite (bump_threads _ _ _ _ _ _ B1). done.
  - intros b Hb. apply (bump_can _ _ _ _ _ _ _ _ B1), Hcan. by right.
  - intros b Hb. rewrite (bump_cnt _ _ _ _ _ _ B1). unfold delta.
    specialize (Hmax b (list_elem_of_further _ _ _ Hb)). simpl in Hmax.
    repeat case_bool_decide; naive_solver lia.
  - exists L2. cbn [for_accounts]. rewrite H1. split; [done|]. by eapply bumps_cons.
Qed.

Lemma unlock_loop k L l t :
  locks_ok L -> (forall a, a ∈ l -> occ a l <= cnt k L a t) ->
  exists L', for_accounts (unlock_op k) L l t = Ok L' /\ bumps k l t (-1) L L'.
Proof.
  revert L. induction l as [|a l IH]; intros L HL Hmin.
  { exists L. split; [done|by apply bumps_nil]. }
  assert (a ∈ a :: l) as Ha by left. pose proof (Hmin a Ha) as Hm. simpl in Hm.
  rewrite bool_decide_eq_true_2 in Hm by done. pose proof (occ_nonneg a l).
  destruct (unlock_op_bump k L a t) as (L1 & H1 & B1); [done|lia|].
  destruct (IH L1) as (L2 & H2 & B2).
  - apply B1.
  - intros b Hb. rewrite (bump_cnt _ _ _ _ _ _ B1). unfold delta.
    specialize (Hmin b (list_elem_of_further _ _ _ Hb)). simpl in Hmin.
    repeat case_bool_decide; naive_solver lia.
  - exists L2. cbn [for_accounts]. rewrite H1. split; [done|]. by eapply bumps_cons.
Qed.

(** ** Locking and unlocking a transaction *)

Definition accts (k : kind) (W R : list Pubkey) : list Pubkey :=
  match k with Write => W | Read => R end.

Record moves (W R : list Pubkey) (t : ThreadId) (d : Z)
    (L L' : ThreadAwareAccountLocks) : Prop := {
  moves_ok : locks_ok L';
  moves_threads : num_threads L' = num_threads L;
  moves_cnt k a t' : cnt k L' a t' =
    cnt k L a t' + (if bool_decide (t' = t) then d * occ a (accts k W R) else 0)
}.

Lemma bumps_moves W R t d L L1 L2 :
  bumps Write W t d L L1 -> bumps Read R t d L1 L2 -> moves W R t d L L2.
Proof.
  intros [_ N1 C1] [Hok N2 C2]. split; [done|congruence|]. intros k a t'.
  rewrite C2, C1. destruct k; simpl; repeat case_bool_decide; naive_solver lia.
Qed.

(** No counter of the transaction's accounts overflows its [u32]. *)
Definition headroom (L : ThreadAwareAccountLocks) (W R : list Pubkey) : Prop :=
  forall k a t, cnt k L a t + occ a (accts k W R) <= u32_max.

Lemma lock_accounts_moves L W R t :
  locks_ok L -> (t < num_threads L)%nat -> can_all L W R t -> headroom L W R ->
  exists L', lock_accounts L W R t = Ok L' /\ moves W R t 1 L L'.
Proof.
  intros HL Ht [HW HR] Hmax. unfold lock_accounts.
  rewrite (proj2 (Nat.ltb_lt _ _) Ht). cbn.
  destruct (lock_loop Write L W t) as (L1 & H1 & B1); [done|done|done|intros; apply (Hmax Write)|].
  simpl in H1. rewrite H1. cbn.
  destruct (lock_loop Read L1 R t) as (L2 & H2 & B2).
  - apply B1.
  - by rewrite (bumps_threads _ _ _ _ _ _ B1).
  - intros a Ha t' Hne. split; [|done].
    pose proof (bumps_cnt _ _ _ _ _ _ B1 Write a t') as E. unfold cnt in E.
    rewrite E, bool_decide_eq_false_2 by naive_solver.
    rewrite (proj1 (HR a Ha t' Hne)). done.
  - intros a Ha. rewrite (bumps_cnt _ _ _ _ _ _ B1), bool_decide_eq_false_2 by naive_solver.
    rewrite Z.add_0_r. apply (Hmax Read).
  - exists L2. split; [done|]. by eapply bumps_moves.
Qed.

Lemma unlock_accounts_moves L W R t :
  locks_ok L -> (forall k a, occ a (accts k W R) <= cnt k L a t) ->
  exists L', unlock_accounts L W R t = Ok L' /\ moves W R t (-1) L L'.
Proof.
  intros HL Hmin. unfold unlock_accounts.
  destruct (unlock_loop Write L W t) as (L1 & H1 & B1); [done|intros; apply (Hmin Write)|].
  simpl in H1. rewrite H1. cbn.
  destruct (unlock_loop Read L1 R t) as (L2 & H2 & B2).
  - apply B1.
  - intros a Ha. rewrite (bumps_cnt _ _ _ _ _ _ B1), bool_decide_eq_false_2 by naive_solver.
    rewrite Z.add_0_r. apply (Hmin Read).
  - exists L2. split; [done|]. by eapply bumps_moves.
Qed.

Lemma cnt_nonneg k L a t : locks_ok L -> 0 <= cnt k L a t.
Proof.
  intros [_ Hok]. specialize (Hok a). unfold cnt.
  destruct (locks L !! a) as [[w r]|]; [|by destruct k]. destruct k; simpl.
  - destruct w as [w|]; [|done]. case_bool_decide; [|done].
    assert (writes_ok (num_threads L) w) as Hw by (destruct r; apply Hok).
    pose proof (writes_count _ _ Hw). lia.
  - destruct r as [r|]; [|done]. apply entry_reads_ok in Hok.
    destruct (lock_counts r !! t) as [c|] eqn:Hl; [|done]. simpl.
    destruct (reads_count _ _ Hok _ _ Hl). lia.
Qed.

Lemma write_excludes L a t : locks_ok L -> 0 < cnt Write L a t -> can Write L a t.
Proof.
  intros [Hn Hok] Hc. specialize (Hok a). unfold cnt, can in *.
  destruct (locks L !! a) as [[[w|] r]|] eqn:He; simpl in Hc; [|done..].
  case_bool_decide as Hwt; [|done]. apply (ecan_spec (num_threads L)); [lia| |done|done].
  assert (writes_ok (num_threads L) w) as Hw by (destruct r; apply Hok).
  rewrite <-Hwt. apply Hw.
Qed.

Section Selector.
(** The caller's [thread_selector]: it picks a member of the set it is given. *)
Context (thread_selector : ThreadSet -> ThreadId).
Hypothesis selector_member :
  forall s, ts_ok s -> s <> 0 -> bit s (thread_selector s) = true.

Lemma try_lock_accounts_spec L W R allowed :
  locks_ok L -> headroom L W R ->
  match try_lock_accounts L W R allowed thread_selector with
  | Ok (t, L') =>
    (t < num_threads L)%nat /\ can_all L W R t /\ bit allowed t = true /\ moves W R t 1 L L'
  | Err MultipleConflicts => forall t, (t < num_threads L)%nat -> ~ can_all L W R t
  | Err ThreadNotAllowed =>
    (exists t, (t < num_threads L)%nat /\ can_all L W R t) /\
    forall t, (t < num_threads L)%nat -> can_all L W R t -> bit allowed t = false
  | Panic => False
  end.
Proof.
  intros HL Hmax. unfold try_lock_accounts.
  destruct (accounts_schedulable_threads_spec L W R HL) as (r & -> & Hr). cbn.
  destruct r as [s|]; [|done]. destruct Hr as (Hs & Hnz & Hbit). cbn.
  pose proof (ts_and_ok s allowed Hs) as Hand.
  destruct (ts_is_empty (ts_and s allowed)) eqn:He.
  - rewrite ts_is_empty_spec in He by done. destruct HL as [Hn _].
    split; [exists (trailing_zeros s); by apply Hbit, trailing_zeros_spec|]. intros t Ht Hc.
    specialize (He t ltac:(lia)). rewrite ts_and_bit in He.
    by rewrite (proj2 (Hbit t) (conj Ht Hc)) in He.
  - assert (bit (ts_and s allowed) (thread_selector (ts_and s allowed)) = true) as Hsel.
    { apply selector_member; [done|]. intros Hz. unfold ts_is_empty in He. by rewrite Hz in He. }
    set (t := thread_selector _) in *. rewrite ts_and_bit in Hsel.
    apply andb_true_iff in Hsel as [Hst Hall]. apply Hbit in Hst as [Ht Hc].
    destruct (lock_accounts_moves L W R t HL Ht Hc Hmax) as (L' & -> & Hm). done.
Qed.

(** for a well-formed table whose counters do not overflow, and a selector that
    picks a member of its argument, [try_lock_accounts] never panics. It succeeds
    exactly when some allowed worker thread can take all locks, i.e. no other thread
    holds a conflicting lock; the locks are then taken for such a thread, each counter
    growing by the number of times the account is listed and all others unchanged.
    [MultipleConflicts] means no thread can take the locks, and [ThreadNotAllowed]
    that some thread can but none that is allowed. *)
Theorem try_lock_accounts_correct L W R allowed :
  locks_ok L -> headroom L W R ->
  let able t := (t < num_threads L)%nat /\ can_all L W R t in
  match try_lock_accounts L W R allowed thread_selector with
  | Ok (t, L') =>
    able t /\ ts_contains allowed t = true /\ locks_ok L' /\
    num_threads L' = num_threads L /\
    forall k a t', cnt k L' a t' =
      cnt k L a t' + (if bool_decide (t' = t) then occ a (accts k W R) else 0)
  | Err MultipleConflicts => forall t, ~ able t
  | Err ThreadNotAllowed =>
    (exists t, able t) /\ forall t, able t -> ts_contains allowed t = false
  | Panic => False
  end.
Proof.
  intros HL Hmax able. pose proof (try_lock_accounts_spec L W R allowed HL Hmax) as H.
  pose proof HL as [Hn _]. unfold able.
  destruct (try_lock_accounts _ _ _ _ _) as [[t L']|[]|]; [|naive_solver| |done].
  - destruct H as (Ht & Hc & Ha & [Hok Hnum Hcnt]). rewrite ts_contains_bit by lia.
    split_and!; try done. intros k a t'. rewrite Hcnt. case_bool_decide; lia.
  - destruct H as [Hex Hall]. split; [done|]. intros t [Ht Hc].
    rewrite ts_contains_bit by lia. by apply Hall.
Qed.

Lemma unlock_undoes_lock L L' W R t :
  locks_ok L -> moves W R t 1 L L' -> unlock_accounts L' W R t = Ok L.
Proof.
  intros HL [Hok Hn Hc].
  assert (forall k a, 0 <= cnt k L a t) as Hnn by (intros; by apply cnt_nonneg).
  destruct (unlock_accounts_moves L' W R t Hok) as (L2 & -> & [Hok2 Hn2 Hc2]).
  { intros k a. rewrite Hc, bool_decide_eq_true_2 by done. specialize (Hnn k a). lia. }
  f_equal. apply cnt_inj; [done|done|congruence|]. intros k a t'. rewrite Hc2, Hc.
  case_bool_decide; lia.
Qed.

(** unlocking the accounts of a transaction on the thread it was locked for
    restores the lock table exactly, emptied entries included, also when an account
    is listed several times or both as written and as read. *)
Theorem unlock_restores_table L L' W R allowed t :
  locks_ok L -> headroom L W R ->
  try_lock_accounts L W R allowed thread_selector = Ok (t, L') ->
  unlock_accounts L' W R t = Ok L.
Proof.
  intros HL Hmax H. pose proof (try_lock_accounts_spec L W R allowed HL Hmax) as Hs.
  rewrite H in Hs. destruct Hs as (_ & _ & _ & Hm). by apply unlock_undoes_lock.
Qed.

(** *** A scheduler run: batches are locked and unlocked in any order *)

Record batch := { b_write : list Pubkey; b_read : list Pubkey; b_thread : ThreadId }.

Inductive sched_step :
    ThreadAwareAccountLocks * list batch -> ThreadAwareAccountLocks * list batch -> Prop :=
| step_lock L held W R allowed t L' :
    headroom L W R ->
    try_lock_accounts L W R allowed thread_selector = Ok (t, L') ->
    sched_step (L, held) (L', {| b_write := W; b_read := R; b_thread := t |} :: held)
| step_unlock L h1 b h2 L' :
    unlock_accounts L (b_write b) (b_read b) (b_thread b) = Ok L' ->
    sched_step (L, h1 ++ b :: h2) (L', h1 ++ h2).

Fixpoint total (k : kind) (a : Pubkey) (t : ThreadId) (held : list batch) : Z :=
  match held with
  | [] => 0
  | b :: held =>
    (if bool_decide (t = b_thread b) then occ a (accts k (b_write b) (b_read b)) else 0)
    + total k a t held
  end.

Lemma total_nonneg k a t held : 0 <= total k a t held.
Proof.
  induction held as [|b held IH]; simpl; [lia|].
  pose proof (occ_nonneg a (accts k (b_write b) (b_read b))). case_bool_decide; lia.
Qed.

Lemma total_app k a t h1 h2 : total k a t (h1 ++ h2) = total k a t h1 + total k a t h2.
Proof. induction h1; simpl; lia. Qed.

Lemma total_held k a b held :
  b ∈ held -> occ a (accts k (b_write b) (b_read b)) <= total k a (b_thread b) held.
Proof.
  induction held as [|b' held IH]; [by intros ?%not_elem_of_nil|].
  intros [->|Hin]%elem_of_cons; simpl.
  - rewrite bool_decide_eq_true_2 by done. pose proof (total_nonneg k a (b_thread b') held). lia.
  - specialize (IH Hin). pose proof (occ_nonneg a (accts k (b_write b') (b_read b'))).
    case_bool_decide; lia.
Qed.

(** The counters are the sums over the held batches. *)
Record sched_inv (n : nat) (s : ThreadAwareAccountLocks * list batch) : Prop := {
  sched_ok : locks_ok s.1;
  sched_threads : num_threads s.1 = n;
  sched_cnt k a t : cnt k s.1 a t = total k a t s.2
}.

Lemma sched_inv_unlock n L held b :
  sched_inv n (L, held) -> b ∈ held ->
  exists L', unlock_accounts L (b_write b) (b_read b) (b_thread b) = Ok L' /\
             moves (b_write b) (b_read b) (b_thread b) (-1) L L'.
Proof.
  intros [Hok Hn Hc] Hin. apply unlock_accounts_moves; [done|]. intros k a.
  specialize (Hc k a (b_thread b)). simpl in Hc. rewrite Hc. by apply total_held.
Qed.

Lemma sched_inv_step n s s' : sched_inv n s -> sched_step s s' -> sched_inv n s'.
Proof.
  intros Hinv Hstep. destruct Hstep as [L held W R allowed t L' Hmax H|L h1 b h2 L' H].
  - pose proof Hinv as [Hok Hn Hc]. simpl in *.
    pose proof (try_lock_accounts_spec L W R allowed Hok Hmax) as Hs. rewrite H in Hs.
    destruct Hs as (_ & _ & _ & [Hok' Hn' Hc']). split; simpl; [done|congruence|].
    intros k a t'. rewrite Hc', Hc. case_bool_decide; lia.
  - destruct (sched_inv_unlock n L (h1 ++ b :: h2) b Hinv) as (L2 & H2 & [Hok' Hn' Hc']).
    { apply elem_of_app. right. by left. }
    rewrite H in H2. injection H2 as <-. destruct Hinv as [Hok Hn Hc]. simpl in *.
    split; simpl; [done|congruence|]. intros k a t'. rewrite Hc', Hc, !total_app. simpl.
    case_bool_decide; lia.
Qed.

Lemma sched_inv_reach n s s' : rtc sched_step s s' -> sched_inv n s -> sched_inv n s'.
Proof. induction 1; [done|]. intros Hi. apply IHrtc. by eapply sched_inv_step. Qed.

Lemma new_inv n L : new n = Ok L -> sched_inv n (L, []).
Proof.
  unfold new. intros H. destruct (Nat.ltb_spec 0 n); [|done].
  destruct (Nat.leb_spec n MAX_THREADS) as [Hle|]; [|done]. injection H as <-.
  split; simpl; [split; simpl; [unfold MAX_THREADS in Hle; lia|by intros a; rewrite lookup_empty]|done|].
  intros k a t. unfold cnt. simpl. rewrite lookup_empty. by destruct k.
Qed.

(** C12: safety of scheduling. Start from a fresh table and lock and unlock batches
    in any order. Then two batches held by different threads never conflict: an
    account written by one is neither written nor read by the other. Unlocking any
    held batch succeeds, without panic. Once every batch is unlocked the table is
    the initial one, so no lock is leaked. *)
Theorem schedule_safety n L0 L held :
  new n = Ok L0 -> rtc sched_step (L0, []) (L, held) ->
  (forall b1 b2 a, b1 ∈ held -> b2 ∈ held -> b_thread b1 <> b_thread b2 ->
     a ∈ b_write b1 -> a ∉ b_write b2 /\ a ∉ b_read b2) /\
  (forall b, b ∈ held ->
     exists L', unlock_accounts L (b_write b) (b_read b) (b_thread b) = Ok L') /\
  (held = [] -> L = L0).
Proof.
  intros Hnew Hreach. pose proof (new_inv n L0 Hnew) as H0.
  pose proof (sched_inv_reach n _ _ Hreach H0) as Hinv. split_and!.
  - intros b1 b2 a H1 H2 Hne Ha. destruct Hinv as [Hok Hn Hc]. simpl in *.
    assert (can Write L a (b_thread b1)) as Hcan.
    { apply write_excludes; [done|]. rewrite Hc.
      eapply Z.lt_le_trans; [|by apply (total_held Write)]. by apply occ_pos. }
    destruct (Hcan (b_thread b2)) as [Hw Hr]; [done|]. specialize (Hr eq_refl).
    split; intros Hin; apply occ_pos in Hin.
    + pose proof (total_held Write a b2 held H2) as Ht. rewrite <-Hc in Ht.
      unfold cnt in Ht. rewrite Hw in Ht. simpl in Ht. lia.
    + pose proof (total_held Read a b2 held H2) as Ht. rewrite <-Hc in Ht.
      unfold cnt in Ht. rewrite Hr in Ht. simpl in Ht. lia.
  - intros b Hb. destruct (sched_inv_unlock n L held b Hinv Hb) as (L' & H & _). by exists L'.
  - intros ->. destruct Hinv as [Hok Hn Hc], H0 as [Hok0 Hn0 Hc0]. simpl in *.
    apply cnt_inj; [done|done|congruence|]. intros k a t. by rewrite Hc, Hc0.
Qed.
End Selector.

(** ** Witnesses *)

Definition lowest (s : ThreadSet) : ThreadId := trailing_zeros s.
Lemma lowest_member s : ts_ok s -> s <> 0 -> bit s (lowest s) = true.
Proof. intros Hs Hnz. by apply trailing_zeros_spec. Qed.

Definition table4 : ThreadAwareAccountLocks := {| num_threads := 4; locks := ∅ |}.
Lemma table4_ok : locks_ok table4.
Proof. split; [simpl; lia|]. intros a. simpl. by rewrite lookup_empty. Qed.

Lemma table4_headroom W R :
  (forall a, occ a W <= u32_max) -> (forall a, occ a R <= u32_max) -> headroom table4 W R.
Proof.
  intros HW HR k a t. unfold cnt. simpl locks. rewrite lookup_empty.
  destruct k; [apply HW|apply HR].
Qed.

Lemma table4_headroom_ex : headroom table4 [1; 2] [2; 3].
Proof.
  apply table4_headroom; intros a; (etrans; [apply occ_length|]); unfold u32_max; simpl; lia.
Qed.

Definition run4 := try_lock_accounts table4 [1; 2] [2; 3] (ts_any 4) lowest.
Definition table4' : ThreadAwareAccountLocks :=
  match run4 with Ok (_, L) => L | _ => table4 end.

Lemma run4_Ok : run4 = Ok (0%nat, table4').
Proof. vm_compute. reflexivity. Qed.

Lemma try_lock_accounts_correct_witness :
  is_ok run4 = true /\
  match run4 with
  | Ok (t, L') => ts_contains (ts_any 4) t = true /\ locks_ok L'
  | _ => False
  end.
Proof.
  split; [vm_compute; reflexivity|].
  pose proof (try_lock_accounts_correct lowest lowest_member table4 [1; 2] [2; 3] (ts_any 4)
                table4_ok table4_headroom_ex) as H.
  fold run4 in H. rewrite run4_Ok in *. destruct H as (_ & Ha & Hok & _). by split.
Defined.

Lemma unlock_restores_table_witness :
  unlock_accounts table4' [1; 2] [2; 3] 0 = Ok table4.
Proof.
  apply (unlock_restores_table lowest lowest_member table4 table4' [1; 2] [2; 3] (ts_any 4) 0
           table4_ok table4_headroom_ex run4_Ok).
Defined.

Lemma schedule_safety_witness :
  exists L', unlock_accounts table4' [1; 2] [2; 3] 0 = Ok L'.
Proof.
  destruct (schedule_safety lowest lowest_member 4 table4 table4'
    [{| b_write := [1; 2]; b_read := [2; 3]; b_thread := 0 |}]) as (_ & H & _).
  - reflexivity.
  - eapply rtc_once, (step_lock lowest); [apply table4_headroom_ex|apply run4_Ok].
  - apply (H {| b_write := [1; 2]; b_read := [2; 3]; b_thread := 0 |}). by left.
Defined.
