(* ===== verification/AccountLocks.v ===== *)
(** * Account locks of the bank

    Models [accounts-db/src/account_locks.rs], the locking entry points of
    [accounts-db/src/accounts.rs] and [runtime/src/bank.rs], and
    [runtime/src/transaction_batch.rs]: the locks that keep batches executing in
    parallel from touching each other's accounts.  The counter maps they
    are kept in come first; the locks of bundles share them. *)

From S2P Require Import Prelude.
Local Open Scope Z_scope.

(** ** Counter maps

    A [HashMap<Pubkey, u64>] used as a multiset of locks: [or_default() += 1] to
    add and an entry removed when its count drops to zero. *)

Abbreviation counters := (gmap Pubkey Z).

(** [*map.entry(k).or_default() += 1] on [u64]. *)
Definition counter_inc (m : counters) (k : Pubkey) : counters :=
  <[k := wrapping_add u64_max (default 0 (m !! k)) 1]> m.

(** The count of an entry is replaced; a zero count removes the entry. *)
Definition counter_store (m : counters) (k : Pubkey) (c : Z) : counters :=
  if c =? 0 then delete k m else <[k := c]> m.

Definition count (m : counters) (k : Pubkey) : Z := default 0 (m !! k).

(** Every entry counts at least one lock. *)
Definition counters_ok (m : counters) : Prop :=
  map_Forall (fun _ c => 0 < c <= u64_max) m.

Lemma counters_ok_empty : counters_ok ∅.
Proof. apply map_Forall_empty. Qed.

Lemma count_empty k : count ∅ k = 0.
Proof. unfold count. by rewrite lookup_empty. Qed.

Lemma count_range m k : counters_ok m -> 0 <= count m k <= u64_max.
Proof.
  intros H. unfold count. destruct (m !! k) as [c|] eqn:Hk; simpl.
  - specialize (H k c Hk). simpl in H. lia.
  - unfold u64_max. lia.
Qed.

Lemma counters_ext m m' :
  counters_ok m -> counters_ok m' -> (forall k, count m k = count m' k) -> m = m'.
Proof.
  intros H H' Heq. apply map_eq. intros k. specialize (Heq k). unfold count in Heq.
  destruct (m !! k) as [c|] eqn:Hk, (m' !! k) as [c'|] eqn:Hk'; simpl in Heq; [by subst|..|done].
  - specialize (H k c Hk). simpl in H. lia.
  - specialize (H' k c' Hk'). simpl in H'. lia.
Qed.

Definition one (k k' : Pubkey) : Z := if bool_decide (k' = k) then 1 else 0.

Lemma counter_inc_spec m k :
  counters_ok m -> count m k < u64_max ->
  counters_ok (counter_inc m k) /\ forall k', count (counter_inc m k) k' = count m k' + one k k'.
Proof.
  intros H Hc. unfold counter_inc. fold (count m k). pose proof (count_range m k H).
  assert (wrapping_add u64_max (count m k) 1 = count m k + 1) as ->
    by (unfold wrapping_add; apply Z.mod_small; lia).
  split.
  - apply map_Forall_insert_2; [lia|done].
  - intros k'. unfold count, one. case_bool_decide as Hk.
    + subst. by rewrite lookup_insert_eq.
    + rewrite lookup_insert_ne by done. lia.
Qed.

Lemma counter_store_spec m k :
  counters_ok m -> 0 < count m k ->
  counters_ok (counter_store m k (count m k - 1)) /\
  forall k', count (counter_store m k (count m k - 1)) k' = count m k' - one k k'.
Proof.
  intros H Hc. pose proof (count_range m k H). unfold counter_store, one.
  destruct (Z.eqb_spec (count m k - 1) 0) as [Hz|Hz]; split.
  - by apply map_Forall_delete.
  - intros k'. unfold count in *. case_bool_decide as Hk.
    + subst. rewrite lookup_delete_eq. simpl. lia.
    + rewrite lookup_delete_ne by done. lia.
  - apply map_Forall_insert_2; [lia|done].
  - intros k'. case_bool_decide as Hk.
    + subst. unfold count at 1. by rewrite lookup_insert_eq.
    + unfold count. rewrite lookup_insert_ne by done. lia.
Qed.

Lemma count_lookup m k : 0 < count m k -> m !! k = Some (count m k).
Proof. unfold count. destruct (m !! k); simpl; [done|lia]. Qed.

(** ** Results of locking *)

(** The errors of the external [TransactionError] that the modelled code produces; a
    result coming from elsewhere carries [OtherError]. *)
Inductive TransactionError :=
| AccountInUse | TooManyAccountLocks | AccountLoadedTwice | AlreadyProcessed
| WouldExceedMaxBlockCostLimit | WouldExceedMaxAccountCostLimit
| WouldExceedAccountDataBlockLimit | WouldExceedAccountDataTotalLimit | CommitCancelled
| OtherError (code : Z).

(** [TransactionResult<T>]. *)
Inductive TransactionResult (A : Type) := TOk (a : A) | TErr (e : TransactionError).
Arguments TOk {A} a.
Arguments TErr {A} e.

Definition tis_ok {A} (r : TransactionResult A) : bool :=
  match r with TOk _ => true | TErr _ => false end.
Definition tmap {A B} (f : A -> B) (r : TransactionResult A) : TransactionResult B :=
  match r with TOk a => TOk (f a) | TErr e => TErr e end.
Definition tand_then {A B} (r : TransactionResult A) (f : A -> TransactionResult B)
    : TransactionResult B :=
  match r with TOk a => f a | TErr e => TErr e end.

(** What locking uses of a transaction. *)
Record Tx := {
  account_keys : list Pubkey;
  is_writable : nat -> bool;
  message_hash : Hash
}.

(** ** The lock table *)
Record AccountLocks := {
  write_locks : counters;
  readonly_locks : counters
}.

Definition is_locked_readonly (self : AccountLocks) (key : Pubkey) : bool :=
  match readonly_locks self !! key with Some count => 0 <? count | None => false end.
Definition is_locked_write (self : AccountLocks) (key : Pubkey) : bool :=
  match write_locks self !! key with Some count => 0 <? count | None => false end.
Definition can_read_lock (self : AccountLocks) (key : Pubkey) : bool :=
  negb (is_locked_write self key).
Definition can_write_lock (self : AccountLocks) (key : Pubkey) : bool :=
  negb (is_locked_readonly self key) && negb (is_locked_write self key).

Definition lock_readonly (self : AccountLocks) (key : Pubkey) : AccountLocks :=
  {| write_locks := write_locks self;
     readonly_locks := counter_inc (readonly_locks self) key |}.
Definition lock_write (self : AccountLocks) (key : Pubkey) : AccountLocks :=
  {| write_locks := counter_inc (write_locks self) key;
     readonly_locks := readonly_locks self |}.

(** An absent key only trips a [debug_assert!], compiled out in a release build. *)
Definition unlock_readonly (self : AccountLocks) (key : Pubkey) : AccountLocks :=
  match readonly_locks self !! key with
  | Some count =>
    {| write_locks := write_locks self;
       readonly_locks :=
         counter_store (readonly_locks self) key (wrapping_sub u64_max count 1) |}
  | None => self
  end.
Definition unlock_write (self : AccountLocks) (key : Pubkey) : AccountLocks :=
  match write_locks self !! key with
  | Some count =>
    {| write_locks := counter_store (write_locks self) key (wrapping_sub u64_max count 1);
       readonly_locks := readonly_locks self |}
  | None => self
  end.

Abbreviation keys_w := (list (Pubkey * bool)).

Fixpoint unlock_accounts (self : AccountLocks) (keys : keys_w) : AccountLocks :=
  match keys with
  | [] => self
  | (k, writable) :: keys =>
    unlock_accounts (if writable : bool then unlock_write self k else unlock_readonly self k) keys
  end.

Fixpoint can_lock_accounts (self : AccountLocks) (keys : keys_w) : TransactionResult () :=
  match keys with
  | [] => TOk ()
  | (key, writable) :: keys =>
    if writable : bool then
      if negb (can_write_lock self key) then TErr AccountInUse else can_lock_accounts self keys
    else if negb (can_read_lock self key) then TErr AccountInUse
    else can_lock_accounts self keys
  end.

Fixpoint lock_accounts (self : AccountLocks) (keys : keys_w) : AccountLocks :=
  match keys with
  | [] => self
  | (key, writable) :: keys =>
    lock_accounts (if writable : bool then lock_write self key else lock_readonly self key) keys
  end.

(** The second pass of [try_lock_transaction_batch]: lock what is available. *)
Fixpoint lock_available (self : AccountLocks) (batch : list (TransactionResult keys_w))
    : list (TransactionResult ()) * AccountLocks :=
  match batch with
  | [] => ([], self)
  | TErr e :: batch =>
    let '(rs, self) := lock_available self batch in (TErr e :: rs, self)
  | TOk keys :: batch =>
    let self := lock_accounts self keys in
    let '(rs, self) := lock_available self batch in (TOk () :: rs, self)
  end.

Definition try_lock_transaction_batch (self : AccountLocks)
    (validated_batch_keys : list (TransactionResult keys_w))
    : list (TransactionResult ()) * AccountLocks :=
  let checked :=
    (fun validated_keys =>
       match validated_keys with
       | TOk keys =>
         match can_lock_accounts self keys with
         | TErr e => TErr e
         | TOk _ => TOk keys
         end
       | TErr e => TErr e
       end) <$> validated_batch_keys in
  lock_available self checked.

(** ** Validation *)

(** [account_keys.iter().any(|key| !set.insert(key))]. *)
Fixpoint any_reinserted (set : gset Pubkey) (keys : list Pubkey) : bool :=
  match keys with
  | [] => false
  | key :: keys =>
    if bool_decide (key ∈ set) then true else any_reinserted ({[key]} ∪ set) keys
  end.

(** The brute-force loops: [key] against the keys after it. *)
Fixpoint any_equal_later (keys : list Pubkey) : bool :=
  match keys with
  | [] => false
  | key :: keys => existsb (fun k => key =? k) keys || any_equal_later keys
  end.

Definition USE_ACCOUNT_LOCK_SET_SIZE : nat := 32.

Definition has_duplicates (account_keys : list Pubkey) : bool :=
  if (USE_ACCOUNT_LOCK_SET_SIZE <=? length account_keys)%nat
  then any_reinserted ∅ account_keys
  else any_equal_later account_keys.

Definition validate_account_locks (account_keys : list Pubkey) (tx_account_lock_limit : nat)
    : TransactionResult () :=
  if (tx_account_lock_limit <? length account_keys)%nat then TErr TooManyAccountLocks
  else if has_duplicates account_keys then TErr AccountLoadedTwice
  else TOk ().

(** ** Locking a batch of transactions *)

Definition accounts_with_is_writable (tx : Tx) : keys_w :=
  imap (fun index key => (key, is_writable tx index)) (account_keys tx).

(** [Accounts::lock_accounts]. *)
Definition accounts_lock_accounts (self : AccountLocks) (txs : list Tx)
    (results : list (TransactionResult ())) (tx_account_lock_limit : nat)
    : list (TransactionResult ()) * AccountLocks :=
  let validated_batch_keys :=
    zip_with (fun tx result =>
      tmap (fun _ => accounts_with_is_writable tx)
        (tand_then result (fun _ =>
           validate_account_locks (account_keys tx) tx_account_lock_limit))) txs results in
  try_lock_transaction_batch self validated_batch_keys.

(** [Accounts::unlock_accounts]. *)
Fixpoint unlock_ok (self : AccountLocks) (txs_and_results : list (Tx * TransactionResult ()))
    : AccountLocks :=
  match txs_and_results with
  | [] => self
  | (tx, res) :: rest =>
    unlock_ok (if tis_ok res then unlock_accounts self (accounts_with_is_writable tx) else self)
      rest
  end.
Definition accounts_unlock_accounts (self : AccountLocks)
    (txs_and_results : list (Tx * TransactionResult ())) : AccountLocks :=
  if negb (existsb (fun '(_, res) => tis_ok res) txs_and_results) then self
  else unlock_ok self txs_and_results.

(** [Bank::try_lock_accounts_with_results]: a message hash repeated within the batch
    fails. The results are consumed zipped after the transactions, so results past the
    last transaction are never looked at. *)
Fixpoint fail_duplicate_hashes (batch_message_hashes : gset Hash) (txs : list Tx)
    (tx_results : list (TransactionResult ())) : list (TransactionResult ()) :=
  match txs, tx_results with
  | tx :: txs, TOk _ :: tx_results =>
    (if bool_decide (message_hash tx ∈ batch_message_hashes) then TErr AlreadyProcessed
     else TOk ())
    :: fail_duplicate_hashes ({[message_hash tx]} ∪ batch_message_hashes) txs tx_results
  | _ :: txs, TErr e :: tx_results =>
    TErr e :: fail_duplicate_hashes batch_message_hashes txs tx_results
  | _, _ => []
  end.

Definition try_lock_accounts_with_results (self : AccountLocks) (limit : nat)
    (txs : list Tx) (tx_results : list (TransactionResult ()))
    : list (TransactionResult ()) * AccountLocks :=
  accounts_lock_accounts self txs (fail_duplicate_hashes ∅ txs tx_results) limit.

(** ** Transaction batches *)
Record TransactionBatch := {
  lock_results : list (TransactionResult ());
  sanitized_txs : list Tx;
  needs_unlock : bool
}.

Definition batch_new (results : list (TransactionResult ())) (txs : list Tx)
    : outcome () TransactionBatch :=
  if (length results =? length txs)%nat
  then Ok {| lock_results := results; sanitized_txs := txs; needs_unlock := true |}
  else Panic.

Definition set_needs_unlock (self : TransactionBatch) (b : bool) : TransactionBatch :=
  {| lock_results := lock_results self; sanitized_txs := sanitized_txs self;
     needs_unlock := b |}.

Definition prepare_sanitized_batch_with_results (locks : AccountLocks) (limit : nat)
    (txs : list Tx) (results : list (TransactionResult ()))
    : outcome () (TransactionBatch * AccountLocks) :=
  let '(rs, locks) := try_lock_accounts_with_results locks limit txs results in
  batch ← batch_new rs txs;
  Ok (batch, locks).

Definition prepare_unlocked_batch_from_single_tx (limit : nat) (tx : Tx)
    : outcome () TransactionBatch :=
  batch ← batch_new [validate_account_locks (account_keys tx) limit] [tx];
  Ok (set_needs_unlock batch false).

(** The transactions of [unlock_failures] to unlock: newly failed ones. Turning a
    recorded error into a success trips the assertion. *)
Fixpoint newly_failed (txs : list Tx) (recorded results : list (TransactionResult ()))
    : outcome () (list (Tx * TransactionResult ())) :=
  match txs, recorded, results with
  | tx :: txs, old :: recorded, new :: results =>
    if tis_ok new && negb (tis_ok old) then Panic
    else
      rest ← newly_failed txs recorded results;
      Ok (if negb (tis_ok new) && tis_ok old then (tx, old) :: rest else rest)
  | _, _, _ => Ok []
  end.

Definition unlock_failures (self : TransactionBatch) (locks : AccountLocks)
    (transaction_results : list (TransactionResult ()))
    : outcome () (TransactionBatch * AccountLocks) :=
  if negb (length (lock_results self) =? length transaction_results)%nat then Panic
  else if negb (needs_unlock self) then Ok (self, locks)
  else
    txs_and_results ← newly_failed (sanitized_txs self) (lock_results self) transaction_results;
    Ok ({| lock_results := transaction_results; sanitized_txs := sanitized_txs self;
           needs_unlock := needs_unlock self |},
        accounts_unlock_accounts locks txs_and_results).

Definition batch_drop (self : TransactionBatch) (locks : AccountLocks)
    : TransactionBatch * AccountLocks :=
  if needs_unlock self then
    let self := set_needs_unlock self false in
    (self, accounts_unlock_accounts locks (zip (sanitized_txs self) (lock_results self)))
  else (self, locks).
