(* ===== verification/AccountLocksProofs.v ===== *)
(** * Correctness of the bank's account locks

    Duplicate detection, the locking of a batch of transactions, and the safety of
    any interleaving of batches being locked, partly unlocked and dropped. *)

From S2P Require Import Prelude AccountLocks.
Local Open Scope Z_scope.

(** ** Duplicate keys *)

Lemma any_reinserted_spec seen keys :
  any_reinserted seen keys = false <-> NoDup keys /\ forall k, k ∈ keys -> k ∉ seen.
Proof.
  revert seen. induction keys as [|key keys IH]; intros seen; simpl.
  - split; [intros _; split; [constructor|by intros k ?%not_elem_of_nil]|done].
  - rewrite NoDup_cons. case_bool_decide as Hin.
    + split; [done|]. intros [_ H]. by destruct (H key); [left|].
    + rewrite IH. split.
      * intros [Hnd Hk]. split_and!; [|done|].
        -- intros Hk'. specialize (Hk key Hk'). set_solver.
        -- intros k [->|Hk']%elem_of_cons; [done|]. specialize (Hk k Hk'). set_solver.
      * intros [[Hk Hnd] Hs]. split; [done|]. intros k Hk' [->%elem_of_singleton|]%elem_of_union.
        -- done.
        -- destruct (Hs k); [by right|done].
Qed.

Lemma any_equal_later_spec keys : any_equal_later keys = false <-> NoDup keys.
Proof.
  induction keys as [|key keys IH]; simpl.
  - split; [constructor|done].
  - rewrite orb_false_iff, NoDup_cons, IH. apply and_iff_compat_r.
    rewrite <-not_true_iff_false, existsb_exists. split; intros H Hin; apply H.
    + exists key. split; [by apply list_elem_of_In|apply Z.eqb_refl].
    + destruct Hin as (k & Hk & <-%Z.eqb_eq). by apply list_elem_of_In.
Qed.

Lemma has_duplicates_spec keys : has_duplicates keys = false <-> NoDup keys.
Proof.
  unfold has_duplicates. destruct (_ <=? _)%nat; [|apply any_equal_later_spec].
  rewrite any_reinserted_spec. split; [by intros [? _]|]. intros H. split; [done|set_solver].
Qed.

(** both ways [has_duplicates] looks for a repeated key, the hash set for 32 or
    more keys and the brute-force comparison below, decide whether the keys are
    pairwise distinct; so the validation of a transaction's keys succeeds exactly when
    they are within the limit and distinct, and names the right error otherwise. *)
Theorem validate_account_locks_correct keys limit :
  validate_account_locks keys limit =
  if decide (limit < length keys)%nat then TErr TooManyAccountLocks
  else if decide (NoDup keys) then TOk () else TErr AccountLoadedTwice.
Proof.
  unfold validate_account_locks. destruct (Nat.ltb_spec limit (length keys)).
  - by rewrite decide_True.
  - rewrite (decide_False (P := (limit < length keys)%nat)) by lia. case_decide as Hnd.
    + by rewrite (proj2 (has_duplicates_spec keys) Hnd).
    + destruct (has_duplicates keys) eqn:Hd; [done|]. by apply has_duplicates_spec in Hd.
Qed.

(** ** Counters of the lock table *)

Definition table (w : bool) (L : AccountLocks) : counters :=
  if w then write_locks L else readonly_locks L.
Definition lcount (w : bool) (L : AccountLocks) (k : Pubkey) : Z := count (table w L) k.
Definition locks_ok (L : AccountLocks) : Prop :=
  counters_ok (write_locks L) /\ counters_ok (readonly_locks L).

Lemma locks_ok_table L : locks_ok L <-> forall w, counters_ok (table w L).
Proof. split; [intros [? ?] []; done|]. intros H. split; [apply (H true)|apply (H false)]. Qed.

Lemma lcount_range w L k : locks_ok L -> 0 <= lcount w L k <= u64_max.
Proof. intros H. apply count_range. by apply locks_ok_table. Qed.

Lemma locks_ext L L' :
  locks_ok L -> locks_ok L' -> (forall w k, lcount w L k = lcount w L' k) -> L = L'.
Proof.
  rewrite !locks_ok_table. intros H H' Heq. destruct L, L'.
  f_equal; [apply (counters_ext _ _ (H true) (H' true) (Heq true))
           |apply (counters_ext _ _ (H false) (H' false) (Heq false))].
Qed.

(** How often [keys] locks [k] in mode [w]. *)
Fixpoint kocc (w : bool) (k : Pubkey) (keys : keys_w) : Z :=
  match keys with
  | [] => 0
  | (k', w') :: keys => (if bool_decide (w' = w) then one k' k else 0) + kocc w k keys
  end.

Lemma one_range k k' : 0 <= one k k' <= 1.
Proof. unfold one. case_bool_decide; lia. Qed.

Lemma kocc_nonneg w k keys : 0 <= kocc w k keys.
Proof.
  induction keys as [|[k' w'] keys IH]; simpl; [lia|]. pose proof (one_range k' k).
  case_bool_decide; lia.
Qed.

Lemma kocc_pos w k keys : 0 < kocc w k keys <-> (k, w) ∈ keys.
Proof.
  induction keys as [|[k' w'] keys IH]; simpl; [rewrite elem_of_nil; lia|].
  rewrite elem_of_cons, <-IH. pose proof (kocc_nonneg w k keys). unfold one.
  repeat case_bool_decide; naive_solver lia.
Qed.

Definition lock1 (L : AccountLocks) (k : Pubkey) (w : bool) : AccountLocks :=
  if w then lock_write L k else lock_readonly L k.
Definition unlock1 (L : AccountLocks) (k : Pubkey) (w : bool) : AccountLocks :=
  if w then unlock_write L k else unlock_readonly L k.

Lemma lock1_spec L k w :
  locks_ok L -> lcount w L k < u64_max ->
  locks_ok (lock1 L k w) /\ forall w' k',
    lcount w' (lock1 L k w) k' = lcount w' L k' + (if bool_decide (w = w') then one k k' else 0).
Proof.
  intros HL Hc. pose proof HL as [Hw Hr].
  destruct (counter_inc_spec _ k (proj1 (locks_ok_table L) HL w) Hc) as [Hok Hcnt].
  destruct w; simpl in Hok, Hcnt; (split; [by split|]); intros [] k'; unfold lcount; simpl; rewrite ?Hcnt;
    lia.
Qed.

Lemma unlock1_spec L k w :
  locks_ok L -> 0 < lcount w L k ->
  locks_ok (unlock1 L k w) /\ forall w' k',
    lcount w' (unlock1 L k w) k' = lcount w' L k' - (if bool_decide (w = w') then one k k' else 0).
Proof.
  intros HL Hc. pose proof (lcount_range w L k HL) as Hr. pose proof HL as [Hw Hro].
  destruct (counter_store_spec _ k (proj1 (locks_ok_table L) HL w) Hc) as [Hok Hcnt].
  assert (wrapping_sub u64_max (lcount w L k) 1 = lcount w L k - 1) as Hsub
    by (unfold wrapping_sub; apply Z.mod_small; lia).
  unfold unlock1, unlock_write, unlock_readonly.
  destruct w; unfold lcount in Hc, Hr, Hsub; simpl in Hc, Hr, Hsub, Hok, Hcnt;
    rewrite (count_lookup _ _ Hc), Hsub; (split; [by split|]); intros [] k'; unfold lcount; simpl; rewrite ?Hcnt;
    lia.
Qed.

Lemma lock_accounts_spec keys L :
  locks_ok L -> (forall w k, lcount w L k + kocc w k keys <= u64_max) ->
  locks_ok (lock_accounts L keys) /\
  forall w k, lcount w (lock_accounts L keys) k = lcount w L k + kocc w k keys.
Proof.
  revert L. induction keys as [|[k w] keys IH]; intros L HL Hmax.
  { split; [done|]. intros. simpl. lia. }
  cbn [lock_accounts]. fold (lock1 L k w). destruct (lock1_spec L k w HL) as [HL' Hc].
  { specialize (Hmax w k). simpl in Hmax. rewrite bool_decide_eq_true_2 in Hmax by done.
    unfold one in Hmax. rewrite bool_decide_eq_true_2 in Hmax by done.
    pose proof (kocc_nonneg w k keys). lia. }
  destruct (IH (lock1 L k w) HL') as [Hok Hcnt].
  - intros w' k'. rewrite Hc. specialize (Hmax w' k'). simpl in Hmax. lia.
  - split; [done|]. intros w' k'. rewrite Hcnt, Hc. simpl. lia.
Qed.

Lemma unlock_accounts_spec keys L :
  locks_ok L -> (forall w k, kocc w k keys <= lcount w L k) ->
  locks_ok (unlock_accounts L keys) /\
  forall w k, lcount w (unlock_accounts L keys) k = lcount w L k - kocc w k keys.
Proof.
  revert L. induction keys as [|[k w] keys IH]; intros L HL Hmin.
  { split; [done|]. intros. simpl. lia. }
  cbn [unlock_accounts]. fold (unlock1 L k w). destruct (unlock1_spec L k w HL) as [HL' Hc].
  { specialize (Hmin w k). simpl in Hmin. rewrite bool_decide_eq_true_2 in Hmin by done.
    unfold one in Hmin. rewrite bool_decide_eq_true_2 in Hmin by done.
    pose proof (kocc_nonneg w k keys). lia. }
  destruct (IH (unlock1 L k w) HL') as [Hok Hcnt].
  - intros w' k'. rewrite Hc. specialize (Hmin w' k'). simpl in Hmin. lia.
  - split; [done|]. intros w' k'. rewrite Hcnt, Hc. simpl. lia.
Qed.

(** ** Admission *)

Lemma locked_spec L k :
  locks_ok L ->
  is_locked_write L k = bool_decide (0 < lcount true L k) /\
  is_locked_readonly L k = bool_decide (0 < lcount false L k).
Proof.
  intros _. unfold is_locked_write, is_locked_readonly, lcount, count. simpl. split.
  - destruct (write_locks L !! k); simpl; [|done]. case_bool_decide; [by apply Z.ltb_lt|].
    by apply Z.ltb_ge; lia.
  - destruct (readonly_locks L !! k); simpl; [|done]. case_bool_decide; [by apply Z.ltb_lt|].
    by apply Z.ltb_ge; lia.
Qed.

(** No lock of [L] conflicts with one of [keys]. *)
Definition no_conflict (L : AccountLocks) (keys : keys_w) : Prop :=
  forall k w, (k, w) ∈ keys ->
    lcount true L k = 0 /\ (w = true -> lcount false L k = 0).

Lemma can_lock_accounts_spec L keys :
  locks_ok L ->
  can_lock_accounts L keys = TOk () /\ no_conflict L keys \/
  can_lock_accounts L keys = TErr AccountInUse /\ ~ no_conflict L keys.
Proof.
  intros HL. unfold no_conflict. induction keys as [|[k w] keys IH]; simpl.
  { left. split; [done|]. by intros k w ?%not_elem_of_nil. }
  destruct (locked_spec L k HL) as [Hw Hr].
  pose proof (lcount_range true L k HL). pose proof (lcount_range false L k HL).
  unfold can_write_lock, can_read_lock. rewrite Hw, Hr.
  destruct w; repeat case_bool_decide; simpl;
    try (right; split; [done|]; intros Hall; destruct (Hall _ _ (list_elem_of_here _ _)); naive_solver lia);
    (destruct IH as [[-> Hok]|[-> Hbad]];
      [left; split; [done|]; intros k' w' [[= -> ->]|Hin]%elem_of_cons; [split; lia|by apply Hok]
      |right; split; [done|]; intros Hall; apply Hbad; intros k' w' Hin; apply Hall; by right]).
Qed.

(** ** Batches *)

(** Locks held by the successful ones of a list of transactions. *)
Fixpoint rocc (w : bool) (k : Pubkey) (l : list (Tx * TransactionResult ())) : Z :=
  match l with
  | [] => 0
  | (tx, r) :: l =>
    (if tis_ok r then kocc w k (accounts_with_is_writable tx) else 0) + rocc w k l
  end.

Lemma rocc_nonneg w k l : 0 <= rocc w k l.
Proof.
  induction l as [|[tx r] l IH]; simpl; [lia|].
  pose proof (kocc_nonneg w k (accounts_with_is_writable tx)). destruct (tis_ok r); lia.
Qed.

Lemma rocc_elem w k tx u l :
  (tx, TOk u) ∈ l -> kocc w k (accounts_with_is_writable tx) <= rocc w k l.
Proof.
  induction l as [|[tx' r'] l IH]; [by intros ?%not_elem_of_nil|].
  intros [[= -> <-]|Hin]%elem_of_cons; simpl.
  - pose proof (rocc_nonneg w k l). lia.
  - specialize (IH Hin). pose proof (kocc_nonneg w k (accounts_with_is_writable tx')).
    destruct (tis_ok r'); lia.
Qed.

Lemma rocc_pos w k l :
  0 < rocc w k l -> exists tx u, (tx, TOk u) ∈ l /\ (k, w) ∈ accounts_with_is_writable tx.
Proof.
  induction l as [|[tx [u|e]] l IH]; simpl; intros H; [lia|..].
  - destruct (decide (0 < kocc w k (accounts_with_is_writable tx))) as [Hk|Hk].
    + exists tx, u. split; [by left|by apply kocc_pos].
    + destruct IH as (tx' & u' & Hin & Hk'); [lia|]. exists tx', u'. split; [by right|done].
  - destruct IH as (tx' & u' & Hin & Hk'); [lia|]. exists tx', u'. split; [by right|done].
Qed.

(** Locks the whole batch would take. *)
Definition all_occ (w : bool) (k : Pubkey) (txs : list Tx) : Z :=
  rocc w k ((fun tx => (tx, TOk ())) <$> txs).

Lemma lock_available_spec batch L :
  let vocc w k :=
    foldr (fun r acc => match r with TOk keys => kocc w k keys | TErr _ => 0 end + acc) 0 batch in
  locks_ok L -> (forall w k, lcount w L k + vocc w k <= u64_max) ->
  let '(rs, L') := lock_available L batch in
  rs = tmap (fun _ => ()) <$> batch /\ locks_ok L' /\
  forall w k, lcount w L' k = lcount w L k + vocc w k.
Proof.
  revert L. induction batch as [|[keys|e] batch IH]; intros L vocc HL Hmax.
  - simpl. split_and!; [done|done|]. intros. unfold vocc. simpl. lia.
  - set (vocc' w k := foldr (fun r acc =>
      match r with TOk keys => kocc w k keys | TErr _ => 0 end + acc) 0 batch) in *.
    assert (forall w k, vocc w k = kocc w k keys + vocc' w k) as Hv by done.
    assert (forall w k, 0 <= vocc' w k) as Hnn.
    { intros w k. unfold vocc'. clear. induction batch as [|[] batch]; simpl; [lia| |lia].
      pose proof (kocc_nonneg w k a). lia. }
    destruct (lock_accounts_spec keys L HL) as [HL1 Hc1].
    { intros w k. specialize (Hmax w k). specialize (Hnn w k). rewrite Hv in Hmax. lia. }
    specialize (IH (lock_accounts L keys)). cbv zeta in IH. cbn [lock_available].
    destruct (lock_available (lock_accounts L keys) batch) as [rs L'].
    destruct IH as (-> & Hok & Hc); [done| |].
    { intros w k. rewrite Hc1. specialize (Hmax w k). rewrite Hv in Hmax. fold (vocc' w k). lia. }
    split_and!; [done|done|]. intros w k. rewrite Hc, Hc1, Hv. fold (vocc' w k). lia.
  - specialize (IH L). cbv zeta in IH. cbn [lock_available]. destruct (lock_available L batch) as [rs L'].
    destruct IH as (-> & Hok & Hc); [done|done|]. done.
Qed.

(** What decides a single transaction of a batch. *)
Definition admission (L : AccountLocks) (limit : nat) (tx : Tx) (r : TransactionResult ())
    : TransactionResult () :=
  tand_then r (fun _ =>
    tand_then (validate_account_locks (account_keys tx) limit) (fun _ =>
      can_lock_accounts L (accounts_with_is_writable tx))).

Lemma accounts_lock_accounts_spec L txs results limit :
  locks_ok L -> (forall w k, lcount w L k + all_occ w k txs <= u64_max) ->
  let '(rs, L') := accounts_lock_accounts L txs results limit in
  rs = zip_with (admission L limit) txs results /\ locks_ok L' /\
  forall w k, lcount w L' k = lcount w L k + rocc w k (zip txs rs).
Proof.
  intros HL Hmax. unfold accounts_lock_accounts, try_lock_transaction_batch.
  set (checked := _ <$> _).
  assert (tmap (fun _ => ()) <$> checked = zip_with (admission L limit) txs results) as Hrs.
  { unfold checked. clear checked Hmax. revert results.
    induction txs as [|tx txs IH]; intros [|r results]; [done..|].
    cbn [zip_with fmap list_fmap]. f_equal; [|apply IH]. unfold admission.
    destruct r as [[]|]; simpl; [|done].
    destruct (validate_account_locks _ _) as [[]|]; simpl; [|done].
    by destruct (can_lock_accounts _ _) as [[]|]. }
  assert (forall w k,
    foldr (fun r acc => match r with TOk keys => kocc w k keys | TErr _ => 0 end + acc) 0 checked
    = rocc w k (zip txs (zip_with (admission L limit) txs results)) /\
    rocc w k (zip txs (zip_with (admission L limit) txs results)) <= all_occ w k txs) as Hocc.
  { intros w k. unfold checked, all_occ. clear checked Hmax Hrs. revert results.
    induction txs as [|tx txs IH]; intros results; [by destruct results|].
    pose proof (kocc_nonneg w k (accounts_with_is_writable tx)).
    destruct results as [|r results]; [specialize (IH []); destruct txs; simpl in *; lia|].
    specialize (IH results) as [IH1 IH2].
    cbn [zip_with]. rewrite !fmap_cons. cbn [foldr rocc]. rewrite IH1. unfold admission in IH2 |- *.
    destruct r as [[]|]; cbn [tand_then tmap tis_ok]; [|lia].
    destruct (validate_account_locks _ _) as [[]|]; cbn [tand_then tmap tis_ok]; [|lia].
    destruct (can_lock_accounts _ _) as [[]|]; cbn [tis_ok]; lia. }
  pose proof (lock_available_spec checked L HL) as H.
  destruct (lock_available L checked) as [rs L']. destruct H as (-> & Hok & Hc).
  { intros w k. destruct (Hocc w k) as [-> Hle]. specialize (Hmax w k). lia. }
  split_and!; [done|done|]. intros w k. rewrite Hc, Hrs. by destruct (Hocc w k) as [-> _].
Qed.

Lemma unlock_ok_spec l L :
  locks_ok L -> (forall w k, rocc w k l <= lcount w L k) ->
  locks_ok (unlock_ok L l) /\ forall w k, lcount w (unlock_ok L l) k = lcount w L k - rocc w k l.
Proof.
  revert L. induction l as [|[tx r] l IH]; intros L HL Hmin.
  { split; [done|]. intros. simpl. lia. }
  cbn [unlock_ok]. destruct r as [u|e]; simpl in Hmin |- *; [|by apply IH].
  destruct (unlock_accounts_spec (accounts_with_is_writable tx) L HL) as [HL' Hc].
  { intros w k. specialize (Hmin w k). pose proof (rocc_nonneg w k l). lia. }
  destruct (IH _ HL') as [Hok Hc'].
  - intros w k. rewrite Hc. specialize (Hmin w k). lia.
  - split; [done|]. intros w k. rewrite Hc', Hc. lia.
Qed.

Lemma accounts_unlock_accounts_eq L l : accounts_unlock_accounts L l = unlock_ok L l.
Proof.
  unfold accounts_unlock_accounts. destruct (existsb _ l) eqn:He; [done|]. simpl.
  induction l as [|[tx [u|e]] l IH]; [done|done|]. simpl in *. by apply IH.
Qed.

Lemma newly_failed_spec txs old new l :
  newly_failed txs old new = Ok l -> length txs = length old -> length old = length new ->
  forall w k, rocc w k (zip txs old) = rocc w k (zip txs new) + rocc w k l.
Proof.
  revert old new l. induction txs as [|tx txs IH]; intros [|o old] [|n new] l; try done.
  { simpl. intros [= <-] _ _ w k. done. }
  simpl. intros H Hl1 Hl2 w k.
  destruct o as [u|e], n as [u'|e']; simpl in H; try done;
    destruct (newly_failed txs old new) as [l'| |] eqn:Hn; try done; injection H as <-;
    rewrite (IH old new l') by (done || lia); simpl; lia.
Qed.

(** ** Any interleaving of batches *)

Definition bocc (w : bool) (k : Pubkey) (b : TransactionBatch) : Z :=
  if needs_unlock b then rocc w k (zip (sanitized_txs b) (lock_results b)) else 0.

Fixpoint held_occ (w : bool) (k : Pubkey) (held : list TransactionBatch) : Z :=
  match held with
  | [] => 0
  | b :: held => bocc w k b + held_occ w k held
  end.

Lemma bocc_nonneg w k b : 0 <= bocc w k b.
Proof. unfold bocc. destruct (needs_unlock b); [apply rocc_nonneg|done]. Qed.

Lemma held_occ_lookup w k held i b :
  held !! i = Some b -> bocc w k b <= held_occ w k held.
Proof.
  revert i. induction held as [|b' held IH]; intros [|i] H; simplify_eq/=.
  - assert (0 <= held_occ w k held); [|lia].
    clear. induction held as [|b held IH]; simpl; [done|]. pose proof (bocc_nonneg w k b). lia.
  - specialize (IH i H). pose proof (bocc_nonneg w k b'). lia.
Qed.

Lemma held_occ_insert w k held i b b' :
  held !! i = Some b ->
  held_occ w k (<[i := b']> held) = held_occ w k held - bocc w k b + bocc w k b'.
Proof.
  revert i. induction held as [|b0 held IH]; intros [|i] H; simplify_eq/=; [lia|].
  rewrite (IH i H). lia.
Qed.

Lemma held_occ_delete w k held i b :
  held !! i = Some b -> held_occ w k (delete i held) = held_occ w k held - bocc w k b.
Proof.
  revert i. induction held as [|b0 held IH]; intros [|i] H; simplify_eq/=; [lia|].
  rewrite (IH i H). lia.
Qed.

(** One bank's locks and the live batches: a batch is prepared with or without locks,
    failed transactions of a batch are unlocked, a batch is dropped. *)
Inductive bank_step :
    AccountLocks * list TransactionBatch -> AccountLocks * list TransactionBatch -> Prop :=
| bank_prepare L held limit txs results b L' :
    (forall w k, lcount w L k + all_occ w k txs <= u64_max) ->
    prepare_sanitized_batch_with_results L limit txs results = Ok (b, L') ->
    bank_step (L, held) (L', b :: held)
| bank_prepare_unlocked L held limit tx b :
    prepare_unlocked_batch_from_single_tx limit tx = Ok b ->
    bank_step (L, held) (L, b :: held)
| bank_unlock_failures L held i b results b' L' :
    held !! i = Some b ->
    unlock_failures b L results = Ok (b', L') ->
    bank_step (L, held) (L', <[i := b']> held)
| bank_drop L held i b b' L' :
    held !! i = Some b ->
    batch_drop b L = (b', L') ->
    bank_step (L, held) (L', delete i held).

Definition separate (b1 b2 : TransactionBatch) : Prop :=
  forall k, 0 < bocc true k b1 -> bocc true k b2 = 0 /\ bocc false k b2 = 0.

Record bank_inv (s : AccountLocks * list TransactionBatch) : Prop := {
  bank_ok : locks_ok s.1;
  bank_count w k : lcount w s.1 k = held_occ w k s.2;
  bank_lengths i b : s.2 !! i = Some b -> length (sanitized_txs b) = length (lock_results b);
  bank_separate i j b1 b2 :
    s.2 !! i = Some b1 -> s.2 !! j = Some b2 -> i <> j -> separate b1 b2
}.

Lemma separate_mono b1 b2 b1' b2' :
  (forall w k, bocc w k b1' <= bocc w k b1) -> (forall w k, bocc w k b2' <= bocc w k b2) ->
  separate b1 b2 -> separate b1' b2'.
Proof.
  intros H1 H2 Hs k Hk. destruct (Hs k) as [Ht Hf]; [specialize (H1 true k); lia|].
  pose proof (bocc_nonneg true k b2'). pose proof (bocc_nonneg false k b2').
  pose proof (H2 true k). pose proof (H2 false k). lia.
Qed.

Lemma admission_ok L limit tx r u :
  locks_ok L -> admission L limit tx r = TOk u -> no_conflict L (accounts_with_is_writable tx).
Proof.
  intros HL. unfold admission. destruct r; [|done]. simpl.
  destruct (validate_account_locks _ _); [|done]. simpl.
  destruct (can_lock_accounts_spec L (accounts_with_is_writable tx) HL) as [[-> ?]|[-> _]]; done.
Qed.

Lemma prepare_spec L limit txs results b L' :
  locks_ok L -> (forall w k, lcount w L k + all_occ w k txs <= u64_max) ->
  prepare_sanitized_batch_with_results L limit txs results = Ok (b, L') ->
  locks_ok L' /\ (forall w k, lcount w L' k = lcount w L k + bocc w k b) /\
  length (sanitized_txs b) = length (lock_results b) /\
  forall tx u, (tx, TOk u) ∈ zip (sanitized_txs b) (lock_results b) ->
    no_conflict L (accounts_with_is_writable tx).
Proof.
  intros HL Hmax. unfold prepare_sanitized_batch_with_results, try_lock_accounts_with_results.
  pose proof (accounts_lock_accounts_spec L txs (fail_duplicate_hashes ∅ txs results) limit HL Hmax)
    as H. destruct (accounts_lock_accounts _ _ _ _) as [rs L1]. destruct H as (Hrs & Hok & Hc).
  unfold batch_new. destruct (Nat.eqb_spec (length rs) (length txs)); [|done]. intros [= <- <-].
  split_and!; [done|done|done|]. simpl. intros tx u Hin.
  apply list_elem_of_lookup in Hin as [i Hi]. apply lookup_zip_Some in Hi as [Htx Hr].
  rewrite Hrs in Hr. apply lookup_zip_with_Some in Hr as (tx' & r & Ha & Htx' & _).
  rewrite Htx in Htx'. injection Htx' as <-. by eapply admission_ok.
Qed.

Lemma no_conflict_separate L b held i b' :
  (forall w k, lcount w L k = held_occ w k held) -> held !! i = Some b' ->
  (forall tx u, (tx, TOk u) ∈ zip (sanitized_txs b) (lock_results b) ->
     no_conflict L (accounts_with_is_writable tx)) ->
  separate b b' /\ separate b' b.
Proof.
  intros Hc Hi Hnc.
  assert (forall w k, 0 < bocc w k b ->
    lcount true L k = 0 /\ (w = true -> lcount false L k = 0)) as Hb.
  { intros w k Hk. unfold bocc in Hk. destruct (needs_unlock b); [|lia].
    apply rocc_pos in Hk as (tx & u & Hin & Hk). by apply (Hnc tx u Hin). }
  assert (forall w k, bocc w k b' <= lcount w L k) as Hle.
  { intros w k. rewrite Hc. by eapply held_occ_lookup. }
  split; intros k Hk.
  - destruct (Hb true k Hk) as [H1 H2]. specialize (H2 eq_refl).
    pose proof (Hle true k). pose proof (Hle false k).
    pose proof (bocc_nonneg true k b'). pose proof (bocc_nonneg false k b'). lia.
  - assert (forall w, bocc w k b = 0) as Hz; [|by rewrite !Hz].
    intros w. destruct (decide (0 < bocc w k b)) as [Hw|]; [|pose proof (bocc_nonneg w k b); lia].
    destruct (Hb w k Hw) as [H1 _]. pose proof (Hle true k). lia.
Qed.

Lemma unlock_failures_spec L b results b' L' :
  locks_ok L -> (forall w k, bocc w k b <= lcount w L k) ->
  length (sanitized_txs b) = length (lock_results b) ->
  unlock_failures b L results = Ok (b', L') ->
  locks_ok L' /\ length (sanitized_txs b') = length (lock_results b') /\
  forall w k, lcount w L' k = lcount w L k - bocc w k b + bocc w k b' /\
              bocc w k b' <= bocc w k b.
Proof.
  intros HL Hle Hlen. unfold unlock_failures, bocc in *.
  destruct (Nat.eqb_spec (length (lock_results b)) (length results)) as [Hr|]; [|done]. simpl.
  destruct (needs_unlock b) eqn:Hn; simpl.
  - destruct (newly_failed _ _ _) as [l| |] eqn:Hnf; [|done..]. intros [= <- <-]. simpl.
    pose proof (newly_failed_spec _ _ _ _ Hnf Hlen Hr) as Hsum.
    rewrite accounts_unlock_accounts_eq. destruct (unlock_ok_spec l L HL) as [Hok Hc].
    { intros w k. specialize (Hle w k). rewrite Hsum in Hle.
      pose proof (rocc_nonneg w k (zip (sanitized_txs b) results)). lia. }
    split_and!; [done|congruence|]. intros w k. rewrite Hc, Hsum, ?Hn.
    pose proof (rocc_nonneg w k l). lia.
  - intros [= <- <-]. rewrite ?Hn. split_and!; [done|done|]. intros. lia.
Qed.

Lemma batch_drop_spec L b b' L' :
  locks_ok L -> (forall w k, bocc w k b <= lcount w L k) -> batch_drop b L = (b', L') ->
  locks_ok L' /\ forall w k, lcount w L' k = lcount w L k - bocc w k b.
Proof.
  intros HL Hle. unfold batch_drop, bocc in *. destruct (needs_unlock b); intros [= <- <-].
  - rewrite accounts_unlock_accounts_eq. by apply unlock_ok_spec.
  - split; [done|]. intros. lia.
Qed.

Lemma bank_inv_bound L held i b :
  bank_inv (L, held) -> held !! i = Some b -> forall w k, bocc w k b <= lcount w L k.
Proof.
  intros [_ Hc _ _] Hi w k. simpl in Hc. rewrite Hc. by eapply held_occ_lookup.
Qed.

Lemma bank_inv_cons L L' held b :
  bank_inv (L, held) -> locks_ok L' ->
  (forall w k, lcount w L' k = lcount w L k + bocc w k b) ->
  length (sanitized_txs b) = length (lock_results b) ->
  (forall i b', held !! i = Some b' -> separate b b' /\ separate b' b) ->
  bank_inv (L', b :: held).
Proof.
  intros [Hok Hc Hl Hs] Hok' Hc' Hl' Hs'. split; simpl in *; [done|..].
  - intros w k. rewrite Hc', Hc. lia.
  - intros [|i] b0; [by intros [= <-]|]. apply Hl.
  - intros [|i] [|j] b1 b2; simpl; [done|..].
    + intros [= <-] H _. by eapply Hs'.
    + intros H [= <-] _. by eapply Hs'.
    + intros H1 H2 Hne. eapply (Hs i j); [done..|congruence].
Qed.

Lemma bank_inv_step s s' : bank_inv s -> bank_step s s' -> bank_inv s'.
Proof.
  intros Hinv Hstep. destruct Hstep as
    [L held limit txs results b L' Hmax H|L held limit tx b H|L held i b results b' L' Hi H|
     L held i b b' L' Hi H].
  - pose proof Hinv as [Hok Hc _ _].
    destruct (prepare_spec L limit txs results b L' Hok Hmax H) as (Hok' & Hc' & Hl & Hnc).
    apply (bank_inv_cons L); [done..|]. intros i b' Hi. by eapply no_conflict_separate.
  - unfold prepare_unlocked_batch_from_single_tx, batch_new in H. simpl in H.
    injection H as <-. apply (bank_inv_cons L); [done|apply Hinv|intros; unfold bocc; simpl; lia|done|].
    intros i b' Hi. split; intros k; unfold bocc at 1; simpl; [lia|]. done.
  - pose proof (bank_inv_bound L held i b Hinv Hi) as Hle. destruct Hinv as [Hok Hc Hl Hs].
    simpl in *. destruct (unlock_failures_spec L b results b' L' Hok Hle (Hl i b Hi) H)
      as (Hok' & Hl' & Hc').
    assert (forall j b2, <[i := b']> held !! j = Some b2 -> exists b1, held !! j = Some b1 /\
       length (sanitized_txs b2) = length (lock_results b2) /\
       forall w k, bocc w k b2 <= bocc w k b1) as Hback.
    { intros j b2 [(-> & -> & _)|[Hne Hj]]%list_lookup_insert_Some.
      - exists b. split_and!; [done|done|]. intros. apply Hc'.
      - exists b2. split_and!; [done|by eapply Hl|done]. }
    split; simpl; [done|..].
    + intros w k. rewrite (held_occ_insert w k held i b b' Hi).
      destruct (Hc' w k) as [-> _]. rewrite Hc. lia.
    + intros j b2 Hj. by destruct (Hback j b2 Hj) as (? & _ & ? & _).
    + intros j1 j2 b1 b2 H1 H2 Hne.
      destruct (Hback _ _ H1) as (c1 & D1 & _ & E1), (Hback _ _ H2) as (c2 & D2 & _ & E2).
      apply (separate_mono c1 c2); [done|done|]. by eapply (Hs j1 j2).
  - pose proof (bank_inv_bound L held i b Hinv Hi) as Hle. destruct Hinv as [Hok Hc Hl Hs].
    simpl in *. destruct (batch_drop_spec L b b' L' Hok Hle H) as [Hok' Hc'].
    assert (forall j b2, delete i held !! j = Some b2 ->
              held !! (if decide (j < i) then j else S j)%nat = Some b2) as Hback.
    { intros j b2 Hj. case_decide.
      - by rewrite list_lookup_delete_lt in Hj.
      - by rewrite list_lookup_delete_ge in Hj by lia. }
    split; simpl; [done|..].
    + intros w k. by rewrite (held_occ_delete w k held i b Hi), Hc', Hc.
    + intros j b2 Hj%Hback. by eapply Hl.
    + intros j1 j2 b1 b2 H1%Hback H2%Hback Hne. eapply Hs; [done..|].
      repeat case_decide; lia.
Qed.

Definition no_locks : AccountLocks := {| write_locks := ∅; readonly_locks := ∅ |}.

Lemma bank_inv_init : bank_inv (no_locks, []).
Proof.
  split; simpl; [split; apply counters_ok_empty| |done|done].
  intros [] k; apply count_empty.
Qed.

Lemma bank_inv_reach s : rtc bank_step (no_locks, []) s -> bank_inv s.
Proof.
  intros H. remember (no_locks, []) as s0. assert (bank_inv s0) by (subst; apply bank_inv_init).
  clear Heqs0. induction H; [done|]. apply IHrtc. by eapply bank_inv_step.
Qed.

Lemma accounts_with_is_writable_elem tx k :
  k ∈ account_keys tx <-> exists w, (k, w) ∈ accounts_with_is_writable tx.
Proof.
  unfold accounts_with_is_writable. split.
  - intros [i Hi]%list_elem_of_lookup. exists (is_writable tx i).
    apply list_elem_of_lookup. exists i. by rewrite list_lookup_imap, Hi.
  - intros [w [i Hi]%list_elem_of_lookup]. rewrite list_lookup_imap in Hi.
    destruct (account_keys tx !! i) as [k'|] eqn:Hk; [|done]. simpl in Hi. injection Hi as -> _.
    by eapply list_elem_of_lookup_2.
Qed.

(** The transactions of a batch that hold locks. *)
Definition holds (b : TransactionBatch) (tx : Tx) : Prop :=
  needs_unlock b = true /\ (tx, TOk ()) ∈ zip (sanitized_txs b) (lock_results b).

Lemma holds_bocc b tx k w :
  holds b tx -> (k, w) ∈ accounts_with_is_writable tx -> 0 < bocc w k b.
Proof.
  intros [Hn Hin] Hk. unfold bocc. rewrite Hn. eapply Z.lt_le_trans; [|by eapply rocc_elem].
  by apply kocc_pos.
Qed.

Lemma bocc_holds b k w :
  0 < bocc w k b -> exists tx, holds b tx /\ (k, w) ∈ accounts_with_is_writable tx.
Proof.
  unfold bocc, holds. destruct (needs_unlock b); [|lia].
  intros (tx & [] & Hin & Hk)%rocc_pos. by exists tx.
Qed.

(** C14: safety of the bank's account locks. Prepare, partly unlock and drop batches in
    any order, starting without locks. Then transactions holding locks in two different
    batches never conflict: an account one of them writes is not among the accounts of
    the other. An account is write (read) locked exactly when some such transaction
    writes (reads) it, and when no batch is left the lock table is empty. *)
Theorem bank_account_locks_safety L held :
  rtc bank_step (no_locks, []) (L, held) ->
  (forall i j b1 b2 tx1 tx2 k,
     held !! i = Some b1 -> held !! j = Some b2 -> i <> j -> holds b1 tx1 -> holds b2 tx2 ->
     (k, true) ∈ accounts_with_is_writable tx1 -> k ∉ account_keys tx2) /\
  (forall k, is_locked_write L k = true <->
     exists b tx, b ∈ held /\ holds b tx /\ (k, true) ∈ accounts_with_is_writable tx) /\
  (forall k, is_locked_readonly L k = true <->
     exists b tx, b ∈ held /\ holds b tx /\ (k, false) ∈ accounts_with_is_writable tx) /\
  (held = [] -> L = no_locks).
Proof.
  intros H%bank_inv_reach. pose proof H as [Hok Hc Hl Hs]. simpl in *.
  assert (forall w k, 0 < lcount w L k <->
    exists b tx, b ∈ held /\ holds b tx /\ (k, w) ∈ accounts_with_is_writable tx) as Hex.
  { intros w k. split.
    - rewrite Hc. intros Hp. assert (exists b, b ∈ held /\ 0 < bocc w k b) as (b & Hb & Hbp).
      { clear -Hp. induction held as [|b held IH]; simpl in Hp; [lia|].
        destruct (decide (0 < bocc w k b)); [by exists b; split; [left|]|].
        destruct IH as (b' & ? & ?); [lia|]. exists b'. by split; [right|]. }
      apply bocc_holds in Hbp as (tx & ? & ?). by exists b, tx.
    - intros (b & tx & [i Hi]%list_elem_of_lookup & Hh & Hk).
      eapply Z.lt_le_trans; [by eapply holds_bocc|]. by eapply (bank_inv_bound L held). }
  split_and!.
  - intros i j b1 b2 tx1 tx2 k Hi Hj Hne H1 H2 Hk [w Hk2]%accounts_with_is_writable_elem.
    destruct (Hs i j b1 b2 Hi Hj Hne k) as [Ht Hf]; [by eapply holds_bocc|].
    pose proof (holds_bocc b2 tx2 k w H2 Hk2). destruct w; lia.
  - intros k. rewrite (proj1 (locked_spec L k Hok)), bool_decide_eq_true. apply Hex.
  - intros k. rewrite (proj2 (locked_spec L k Hok)), bool_decide_eq_true. apply Hex.
  - intros ->. destruct bank_inv_init as [Hok0 Hc0 _ _].
    apply locks_ext; [done|done|]. intros w k. by rewrite Hc, Hc0.
Qed.

(** ** Which transactions of a batch are locked *)

(** No earlier transaction of the batch that is still [Ok] has the same message hash. *)
Definition first_with_hash (txs : list Tx) (results : list (TransactionResult ())) (i : nat)
    (tx : Tx) : Prop :=
  forall j tx', (j < i)%nat -> txs !! j = Some tx' -> results !! j = Some (TOk ()) ->
    message_hash tx' <> message_hash tx.

Lemma fail_duplicate_hashes_length seen txs results :
  length txs = length results -> length (fail_duplicate_hashes seen txs results) = length txs.
Proof.
  revert seen results. induction txs as [|tx txs IH]; intros seen [|[u|e] results] Hl;
    simpl in *; try done; by rewrite IH by lia.
Qed.

Lemma fail_duplicate_hashes_ok seen txs results i tx :
  txs !! i = Some tx ->
  fail_duplicate_hashes seen txs results !! i = Some (TOk ()) <->
  results !! i = Some (TOk ()) /\ message_hash tx ∉ seen /\ first_with_hash txs results i tx.
Proof.
  unfold first_with_hash. revert seen results i.
  induction txs as [|tx0 txs IH]; intros seen results i; [done|].
  destruct results as [|[[]|e] results]; [by naive_solver| |].
  - destruct i as [|i]; simpl.
    + intros [= ->]. case_bool_decide; [naive_solver|]. split; [|done].
      intros _. split_and!; [done|done|]. intros; lia.
    + intros Hi. rewrite (IH _ _ _ Hi), not_elem_of_union, not_elem_of_singleton. split.
      * intros (Hr & [Hne Hs] & Hall). split_and!; [done|done|].
        intros [|j] tx' Hj; simpl; [intros [= ->] _; congruence|]. apply Hall. lia.
      * intros (Hr & Hs & Hall). split_and!; [done| |done|].
        -- intros Heq. by eapply (Hall 0%nat tx0); [lia| | |].
        -- intros j tx' Hj. apply (Hall (S j)). lia.
  - destruct i as [|i]; simpl; [naive_solver|]. intros Hi. rewrite (IH _ _ _ Hi). split.
    + intros (Hr & Hs & Hall). split_and!; [done|done|].
      intros [|j] tx' Hj; simpl; [done|]. apply Hall. lia.
    + intros (Hr & Hs & Hall). split_and!; [done|done|].
      intros j tx' Hj. apply (Hall (S j)). lia.
Qed.

Lemma admission_spec L limit tx r :
  locks_ok L ->
  admission L limit tx r = TOk () <->
  r = TOk () /\ (length (account_keys tx) <= limit)%nat /\ NoDup (account_keys tx) /\
  no_conflict L (accounts_with_is_writable tx).
Proof.
  intros HL. unfold admission, validate_account_locks. destruct r as [[]|]; simpl; [|naive_solver].
  destruct (Nat.ltb_spec limit (length (account_keys tx))); simpl; [split; [done|lia]|].
  destruct (has_duplicates (account_keys tx)) eqn:Hd; simpl.
  - split; [done|]. intros (_ & _ & Hnd & _). apply has_duplicates_spec in Hnd. congruence.
  - apply has_duplicates_spec in Hd.
    destruct (can_lock_accounts_spec L (accounts_with_is_writable tx) HL) as [[-> ?]|[-> ?]];
      naive_solver lia.
Qed.

(** preparing a batch never panics when there is one incoming result per transaction.
    A transaction gets its locks exactly when its incoming result is [Ok], no earlier
    such transaction of the batch has the same message hash, its keys are distinct and
    within the limit, and none of its accounts conflicts with a lock taken before the
    batch; conflicts inside the batch are allowed. Each lock counter grows by exactly
    the locks of those transactions. *)
Theorem prepare_sanitized_batch_correct L limit txs results :
  locks_ok L -> (forall w k, lcount w L k + all_occ w k txs <= u64_max) ->
  length txs = length results ->
  exists b L', prepare_sanitized_batch_with_results L limit txs results = Ok (b, L') /\
    sanitized_txs b = txs /\ needs_unlock b = true /\ locks_ok L' /\
    (forall w k, lcount w L' k = lcount w L k + bocc w k b) /\
    forall i tx, txs !! i = Some tx ->
      lock_results b !! i = Some (TOk ()) <->
      results !! i = Some (TOk ()) /\ first_with_hash txs results i tx /\
      (length (account_keys tx) <= limit)%nat /\ NoDup (account_keys tx) /\
      no_conflict L (accounts_with_is_writable tx).
Proof.
  intros HL Hmax Hlen. unfold prepare_sanitized_batch_with_results, try_lock_accounts_with_results.
  set (rs0 := fail_duplicate_hashes ∅ txs results).
  assert (length rs0 = length txs) as Hl0 by (by apply fail_duplicate_hashes_length).
  pose proof (accounts_lock_accounts_spec L txs rs0 limit HL Hmax) as H.
  destruct (accounts_lock_accounts _ _ _ _) as [rs L']. destruct H as (Hrs & Hok & Hc).
  assert (length rs = length txs) as Hl by (rewrite Hrs, length_zip_with, Hl0; lia).
  unfold batch_new. rewrite Hl, Nat.eqb_refl.
  do 2 eexists. split; [done|]. simpl. split_and!; [done|done|done|done|].
  intros i tx Hi.
  assert (rs !! i = Some (TOk ()) <->
          exists r, rs0 !! i = Some r /\ admission L limit tx r = TOk ()) as ->.
  { rewrite Hrs, lookup_zip_with_Some. split; [|naive_solver].
    intros (tx' & r & Ha & Htx & Hr). rewrite Hi in Htx. injection Htx as <-. eauto. }
  pose proof (fail_duplicate_hashes_ok ∅ txs results i tx Hi) as Hd. fold rs0 in Hd.
  setoid_rewrite (admission_spec L limit tx _ HL). split.
  - intros (r & Hr & -> & ?). destruct (proj1 Hd Hr) as (? & _ & ?). tauto.
  - intros (Hr & Hf & ?). exists (TOk ()). split; [|tauto]. apply Hd. split_and!; [done|set_solver|done].
Qed.

(** ** Witnesses *)

Definition tx_a : Tx := {| account_keys := [1; 2]; is_writable := (fun i => i =? 0)%nat; message_hash := 7 |}.
Definition tx_b : Tx := {| account_keys := [3; 2]; is_writable := (fun i => i =? 0)%nat; message_hash := 8 |}.
Definition batch_ab := prepare_sanitized_batch_with_results no_locks 64 [tx_a; tx_b] [TOk (); TOk ()].

Lemma kocc_length w k keys : kocc w k keys <= Z.of_nat (length keys).
Proof.
  induction keys as [|[k' w'] keys IH]; simpl length; cbn [kocc]; [done|].
  pose proof (one_range k' k). case_bool_decide; lia.
Qed.

Lemma no_locks_headroom w k : lcount w no_locks k + all_occ w k [tx_a; tx_b] <= u64_max.
Proof.
  unfold lcount. destruct w; simpl; rewrite count_empty; unfold all_occ; cbn [fmap list_fmap rocc tis_ok];
    pose proof (kocc_length true k (accounts_with_is_writable tx_a)) as H1;
    pose proof (kocc_length true k (accounts_with_is_writable tx_b)) as H2;
    pose proof (kocc_length false k (accounts_with_is_writable tx_a)) as H3;
    pose proof (kocc_length false k (accounts_with_is_writable tx_b)) as H4;
    simpl length in *; unfold u64_max; lia.
Qed.

Lemma no_locks_ok : locks_ok no_locks.
Proof. split; apply counters_ok_empty. Qed.

Lemma prepare_sanitized_batch_correct_witness :
  exists b L', batch_ab = Ok (b, L') /\ needs_unlock b = true /\ locks_ok L'.
Proof.
  destruct (prepare_sanitized_batch_correct no_locks 64 [tx_a; tx_b] [TOk (); TOk ()]
              no_locks_ok no_locks_headroom eq_refl) as (b & L' & H & _ & Hn & Hok & _).
  by exists b, L'.
Defined.

Definition batch_ab_state : AccountLocks * list TransactionBatch :=
  match batch_ab with Ok (b, L) => (L, [b]) | _ => (no_locks, []) end.

Lemma bank_account_locks_safety_witness :
  is_locked_write batch_ab_state.1 1 = true /\
  exists b tx, b ∈ batch_ab_state.2 /\ holds b tx /\ (1, true) ∈ accounts_with_is_writable tx.
Proof.
  assert (is_locked_write batch_ab_state.1 1 = true) as Hw by (vm_compute; reflexivity).
  split; [exact Hw|].
  apply (bank_account_locks_safety batch_ab_state.1 batch_ab_state.2); [|exact Hw].
  apply rtc_once. eapply (bank_prepare _ _ 64 [tx_a; tx_b] [TOk (); TOk ()]).
  - apply no_locks_headroom.
  - vm_compute. reflexivity.
Defined.
