(* ===== verification/BundleLocks.v ===== *)
(** * Bundle account locks and in-flight accounting

    Models [core/src/bundle_stage/bundle_account_locker.rs], which reserves every
    account of a bundle before it executes, and
    [core/src/banking_stage/transaction_scheduler/in_flight_tracker.rs] with its
    [batch_id_generator.rs]: the work handed out to the worker threads. *)

From S2P Require Import Prelude AccountLocks AccountLocksProofs.
Local Open Scope Z_scope.

(** ** Bundle account locks *)
Record BundleAccountLocks := {
  bundle_read_locks : counters;
  bundle_write_locks : counters
}.

Inductive BundleAccountLockerError := LockingError.

Definition bundle_lock1 (self : BundleAccountLocks) (acc : Pubkey) (writable : bool)
    : BundleAccountLocks :=
  if writable then
    {| bundle_read_locks := bundle_read_locks self;
       bundle_write_locks := counter_inc (bundle_write_locks self) acc |}
  else
    {| bundle_read_locks := counter_inc (bundle_read_locks self) acc;
       bundle_write_locks := bundle_write_locks self |}.

(** [lock_accounts_sch]: the locks of one transaction, already collected. *)
Fixpoint lock_accounts_sch (self : BundleAccountLocks) (transaction_locks : keys_w)
    : BundleAccountLocks :=
  match transaction_locks with
  | [] => self
  | (acc, writable) :: rest => lock_accounts_sch (bundle_lock1 self acc writable) rest
  end.

Fixpoint bundle_lock_accounts (self : BundleAccountLocks) (transaction_locks : list keys_w)
    : BundleAccountLocks :=
  match transaction_locks with
  | [] => self
  | transaction_lock :: rest =>
    bundle_lock_accounts
      (fold_left (fun self '(acc, writable) => bundle_lock1 self acc writable)
         transaction_lock self) rest
  end.

(** An occupied entry is decremented, saturating, and removed at zero. *)
Definition bundle_dec (m : counters) (acc : Pubkey) : counters :=
  match m !! acc with
  | Some c => counter_store m acc (saturating_sub c 1)
  | None => m
  end.

Definition bundle_unlock1 (self : BundleAccountLocks) (acc : Pubkey) (writable : bool)
    : BundleAccountLocks :=
  if writable then
    {| bundle_read_locks := bundle_read_locks self;
       bundle_write_locks := bundle_dec (bundle_write_locks self) acc |}
  else
    {| bundle_read_locks := bundle_dec (bundle_read_locks self) acc;
       bundle_write_locks := bundle_write_locks self |}.

Fixpoint bundle_unlock_accounts (self : BundleAccountLocks) (transaction_locks : list keys_w)
    : BundleAccountLocks :=
  match transaction_locks with
  | [] => self
  | transaction_lock :: rest =>
    bundle_unlock_accounts
      (fold_left (fun self '(acc, writable) => bundle_unlock1 self acc writable)
         transaction_lock self) rest
  end.

(** The limit is the bank's [get_transaction_account_lock_limit]. *)
Definition get_transaction_locks (transactions : list Tx) (limit : nat)
    : outcome BundleAccountLockerError (list keys_w) :=
  if existsb (fun tx => negb (tis_ok (validate_account_locks (account_keys tx) limit)))
       transactions
  then Err LockingError
  else Ok (accounts_with_is_writable <$> transactions).

Definition lock_bundle (self : BundleAccountLocks) (transactions : list Tx) (limit : nat)
    : outcome BundleAccountLockerError BundleAccountLocks :=
  locks ← get_transaction_locks transactions limit;
  Ok (bundle_lock_accounts self locks).

Definition unlock_bundle (self : BundleAccountLocks) (transactions : list Tx) (limit : nat)
    : outcome BundleAccountLockerError BundleAccountLocks :=
  locks ← get_transaction_locks transactions limit;
  Ok (bundle_unlock_accounts self locks).

(** ** In-flight tracking *)
Record BatchEntry := {
  entry_thread_id : nat;
  num_transactions : Z;
  total_cus : Z
}.

Record InFlightTracker := {
  num_in_flight_per_thread : list Z;
  cus_in_flight_per_thread : list Z;
  batches : gmap Z BatchEntry;
  next_id : Z (* BatchIdGenerator *)
}.

Definition tracker_new (num_threads : nat) : InFlightTracker :=
  {| num_in_flight_per_thread := replicate num_threads 0;
     cus_in_flight_per_thread := replicate num_threads 0;
     batches := ∅; next_id := 0 |}.

(** [BatchIdGenerator::next] *)
Definition next_batch_id (next_id : Z) : Z * Z := (next_id, wrapping_sub u64_max next_id 1).

(** [v[i] = f(v[i])], bounds-checked. *)
Definition index_update (v : list Z) (i : nat) (f : Z -> Z) : outcome () (list Z) :=
  x ← expect (v !! i);
  Ok (<[i := f x]> v).

Definition track_batch (self : InFlightTracker) (num cus : Z) (thread_id : nat)
    : outcome () (Z * InFlightTracker) :=
  let '(batch_id, next) := next_batch_id (next_id self) in
  nums ← index_update (num_in_flight_per_thread self) thread_id
           (fun n => wrapping_add u64_max n num);
  cs ← index_update (cus_in_flight_per_thread self) thread_id
         (fun c => wrapping_add u64_max c cus);
  Ok (batch_id,
      {| num_in_flight_per_thread := nums; cus_in_flight_per_thread := cs;
         batches := <[batch_id := {| entry_thread_id := thread_id; num_transactions := num;
                                     total_cus := cus |}]> (batches self);
         next_id := next |}).

Definition complete_batch (self : InFlightTracker) (batch_id : Z)
    : outcome () (nat * InFlightTracker) :=
  match batches self !! batch_id with
  | None => Panic
  | Some e =>
    nums ← index_update (num_in_flight_per_thread self) (entry_thread_id e)
             (fun n => wrapping_sub u64_max n (num_transactions e));
    cs ← index_update (cus_in_flight_per_thread self) (entry_thread_id e)
           (fun c => wrapping_sub u64_max c (total_cus e));
    Ok (entry_thread_id e,
        {| num_in_flight_per_thread := nums; cus_in_flight_per_thread := cs;
           batches := delete batch_id (batches self); next_id := next_id self |})
  end.

(** ** Bundle locks: counters *)

Definition btable (w : bool) (L : BundleAccountLocks) : counters :=
  if w then bundle_write_locks L else bundle_read_locks L.
Definition bcount (w : bool) (L : BundleAccountLocks) (k : Pubkey) : Z := count (btable w L) k.
Definition bundle_ok (L : BundleAccountLocks) : Prop := forall w, counters_ok (btable w L).

Lemma bundle_ext L L' :
  bundle_ok L -> bundle_ok L' -> (forall w k, bcount w L k = bcount w L' k) -> L = L'.
Proof.
  intros H H' Heq. destruct L, L'.
  f_equal; [apply (counters_ext _ _ (H false) (H' false) (Heq false))
           |apply (counters_ext _ _ (H true) (H' true) (Heq true))].
Qed.

Lemma bundle_lock1_spec L k w :
  bundle_ok L -> bcount w L k < u64_max ->
  bundle_ok (bundle_lock1 L k w) /\ forall w' k',
    bcount w' (bundle_lock1 L k w) k' = bcount w' L k' + (if bool_decide (w = w') then one k k' else 0).
Proof.
  intros HL Hc. destruct (counter_inc_spec _ k (HL w) Hc) as [Hok Hcnt].
  split.
  - intros w'. destruct w, w'; first [exact Hok|apply (HL true)|apply (HL false)].
  - intros w' k'. unfold bcount. destruct w, w'; simpl in *; rewrite ?Hcnt; lia.
Qed.

Lemma bundle_unlock1_spec L k w :
  bundle_ok L -> 0 < bcount w L k ->
  bundle_ok (bundle_unlock1 L k w) /\ forall w' k',
    bcount w' (bundle_unlock1 L k w) k' = bcount w' L k' - (if bool_decide (w = w') then one k k' else 0).
Proof.
  intros HL Hc. destruct (counter_store_spec _ k (HL w) Hc) as [Hok Hcnt].
  assert (bundle_dec (btable w L) k = counter_store (btable w L) k (bcount w L k - 1)) as Hdec.
  { unfold bundle_dec, bcount in *. rewrite (count_lookup _ _ Hc). unfold saturating_sub.
    f_equal. lia. }
  fold (bcount w L k) in Hok, Hcnt. rewrite <-Hdec in Hok, Hcnt.
  split.
  - intros w'. destruct w, w'; first [exact Hok|apply (HL true)|apply (HL false)].
  - intros w' k'. unfold bcount. destruct w, w'; simpl in *; rewrite ?Hcnt; lia.
Qed.

Lemma lock_accounts_sch_spec keys L :
  bundle_ok L -> (forall w k, bcount w L k + kocc w k keys <= u64_max) ->
  bundle_ok (lock_accounts_sch L keys) /\
  forall w k, bcount w (lock_accounts_sch L keys) k = bcount w L k + kocc w k keys.
Proof.
  revert L. induction keys as [|[k w] keys IH]; intros L HL Hmax.
  { split; [done|]. intros. simpl. lia. }
  cbn [lock_accounts_sch]. destruct (bundle_lock1_spec L k w HL) as [HL' Hc].
  { specialize (Hmax w k). simpl in Hmax. rewrite bool_decide_eq_true_2 in Hmax by done.
    unfold one in Hmax. rewrite bool_decide_eq_true_2 in Hmax by done.
    pose proof (kocc_nonneg w k keys). lia. }
  destruct (IH (bundle_lock1 L k w) HL') as [Hok Hcnt].
  - intros w' k'. rewrite Hc. specialize (Hmax w' k'). simpl in Hmax. lia.
  - split; [done|]. intros w' k'. rewrite Hcnt, Hc. simpl. lia.
Qed.

Definition bundle_unlock_list (L : BundleAccountLocks) (keys : keys_w) : BundleAccountLocks :=
  fold_left (fun self '(acc, writable) => bundle_unlock1 self acc writable) keys L.

Lemma bundle_unlock_list_spec keys L :
  bundle_ok L -> (forall w k, kocc w k keys <= bcount w L k) ->
  bundle_ok (bundle_unlock_list L keys) /\
  forall w k, bcount w (bundle_unlock_list L keys) k = bcount w L k - kocc w k keys.
Proof.
  revert L. induction keys as [|[k w] keys IH]; intros L HL Hmin.
  { split; [done|]. intros. simpl. lia. }
  unfold bundle_unlock_list. cbn [fold_left]. fold (bundle_unlock_list (bundle_unlock1 L k w) keys).
  destruct (bundle_unlock1_spec L k w HL) as [HL' Hc].
  { specialize (Hmin w k). simpl in Hmin. rewrite bool_decide_eq_true_2 in Hmin by done.
    unfold one in Hmin. rewrite bool_decide_eq_true_2 in Hmin by done.
    pose proof (kocc_nonneg w k keys). lia. }
  destruct (IH (bundle_unlock1 L k w) HL') as [Hok Hcnt].
  - intros w' k'. rewrite Hc. specialize (Hmin w' k'). simpl in Hmin. lia.
  - split; [done|]. intros w' k'. rewrite Hcnt, Hc. simpl. lia.
Qed.

(** Both bundle loops walk the concatenated locks of the transactions. *)
Lemma bundle_lock_accounts_concat L tls :
  bundle_lock_accounts L tls = lock_accounts_sch L (concat tls).
Proof.
  revert L. induction tls as [|keys tls IH]; intros L; [done|]. cbn [bundle_lock_accounts concat].
  rewrite IH. clear IH. revert L. induction keys as [|[k w] keys IH]; intros L; [done|].
  simpl. apply IH.
Qed.

Lemma bundle_unlock_accounts_concat L tls :
  bundle_unlock_accounts L tls = bundle_unlock_list L (concat tls).
Proof.
  revert L. induction tls as [|keys tls IH]; intros L; [done|].
  cbn [bundle_unlock_accounts concat]. rewrite IH. unfold bundle_unlock_list.
  by rewrite fold_left_app.
Qed.

(** The locks of a bundle. *)
Definition bundle_keys (transactions : list Tx) : keys_w :=
  concat (accounts_with_is_writable <$> transactions).

Fixpoint bundles_occ (w : bool) (k : Pubkey) (held : list (list Tx)) : Z :=
  match held with
  | [] => 0
  | b :: held => kocc w k (bundle_keys b) + bundles_occ w k held
  end.

Lemma bundles_occ_nonneg w k held : 0 <= bundles_occ w k held.
Proof.
  induction held as [|b held IH]; simpl; [done|]. pose proof (kocc_nonneg w k (bundle_keys b)). lia.
Qed.

Lemma bundles_occ_app w k h1 h2 :
  bundles_occ w k (h1 ++ h2) = bundles_occ w k h1 + bundles_occ w k h2.
Proof. induction h1; simpl; lia. Qed.

Section Bundles.
Context (limit : nat).

(** Bundles are locked, executed and unlocked in any order. *)
Inductive bundle_step :
    BundleAccountLocks * list (list Tx) -> BundleAccountLocks * list (list Tx) -> Prop :=
| step_lock_bundle L held b L' :
    (forall w k, bcount w L k + kocc w k (bundle_keys b) <= u64_max) ->
    lock_bundle L b limit = Ok L' ->
    bundle_step (L, held) (L', b :: held)
| step_unlock_bundle L h1 b h2 L' :
    unlock_bundle L b limit = Ok L' ->
    bundle_step (L, h1 ++ b :: h2) (L', h1 ++ h2).

Definition lockable (b : list Tx) : Prop :=
  forall tx, tx ∈ b -> validate_account_locks (account_keys tx) limit = TOk ().

Lemma get_transaction_locks_spec b :
  (get_transaction_locks b limit = Ok (accounts_with_is_writable <$> b) /\ lockable b) \/
  (get_transaction_locks b limit = Err LockingError /\ ~ lockable b).
Proof.
  unfold get_transaction_locks, lockable. destruct (existsb _ b) eqn:He; [right|left].
  - split; [done|]. apply existsb_exists in He as (tx & Hin & Hv). intros H.
    rewrite H in Hv by (by apply list_elem_of_In). done.
  - split; [done|]. intros tx Hin. destruct (validate_account_locks _ _) as [[]|] eqn:Hv; [done|].
    apply not_true_iff_false in He. destruct He. apply existsb_exists. exists tx.
    split; [by apply list_elem_of_In|by rewrite Hv].
Qed.

Record bundle_inv (s : BundleAccountLocks * list (list Tx)) : Prop := {
  bundle_inv_ok : bundle_ok s.1;
  bundle_inv_count w k : bcount w s.1 k = bundles_occ w k s.2;
  bundle_inv_lockable b : b ∈ s.2 -> lockable b
}.

Lemma bundle_inv_unlock L h1 b h2 :
  bundle_inv (L, h1 ++ b :: h2) ->
  exists L', unlock_bundle L b limit = Ok L' /\ bundle_inv (L', h1 ++ h2).
Proof.
  intros [Hok Hc Hl]. simpl in *. unfold unlock_bundle.
  destruct (get_transaction_locks_spec b) as [[-> _]|[_ Hn]];
    [|destruct Hn; apply Hl, elem_of_app; right; by left].
  eexists. split; [done|]. rewrite bundle_unlock_accounts_concat. fold (bundle_keys b).
  destruct (bundle_unlock_list_spec (bundle_keys b) L Hok) as [Hok' Hc'].
  { intros w k. rewrite Hc, bundles_occ_app. simpl.
    pose proof (bundles_occ_nonneg w k h1). pose proof (bundles_occ_nonneg w k h2). lia. }
  split; simpl; [done|..].
  - intros w k. rewrite Hc', Hc, !bundles_occ_app. simpl. lia.
  - intros b' Hb. apply Hl. rewrite elem_of_app, elem_of_cons in *. tauto.
Qed.

Lemma bundle_inv_step s s' : bundle_inv s -> bundle_step s s' -> bundle_inv s'.
Proof.
  intros Hinv Hstep. destruct Hstep as [L held b L' Hmax H|L h1 b h2 L' H].
  - destruct Hinv as [Hok Hc Hl]. simpl in *. unfold lock_bundle in H.
    destruct (get_transaction_locks_spec b) as [[Hg Hb]|[Hg _]]; rewrite Hg in H; [|done].
    cbn in H. injection H as <-. rewrite bundle_lock_accounts_concat. fold (bundle_keys b).
    destruct (lock_accounts_sch_spec (bundle_keys b) L Hok Hmax) as [Hok' Hc'].
    split; simpl; [done|intros w k; rewrite Hc', Hc; lia|].
    intros b' [->|Hin]%elem_of_cons; [done|by apply Hl].
  - destruct (bundle_inv_unlock L h1 b h2 Hinv) as (L2 & H2 & Hinv').
    rewrite H in H2. by injection H2 as <-.
Qed.

Definition no_bundle_locks : BundleAccountLocks :=
  {| bundle_read_locks := ∅; bundle_write_locks := ∅ |}.

Lemma bundle_inv_init : bundle_inv (no_bundle_locks, []).
Proof.
  split; simpl; [intros []; apply counters_ok_empty|intros [] k; apply count_empty|].
  by intros b ?%not_elem_of_nil.
Qed.

Lemma bundle_inv_reach s : rtc bundle_step (no_bundle_locks, []) s -> bundle_inv s.
Proof.
  intros H. remember (no_bundle_locks, []) as s0.
  assert (bundle_inv s0) by (subst; apply bundle_inv_init).
  clear Heqs0. induction H; [done|]. apply IHrtc. by eapply bundle_inv_step.
Qed.

(** bundle account locks. However bundles are locked and unlocked, the table counts
    for every account exactly the write and the read locks of the bundles still held:
    all accounts of a bundle stay reserved until it is unlocked, unlocking a held bundle
    never fails, and once every bundle is unlocked the table is empty. Locking a bundle
    fails exactly when one of its transactions has too many or duplicate keys. *)
Theorem bundle_account_locks_exact L held :
  rtc bundle_step (no_bundle_locks, []) (L, held) ->
  (forall k w, 0 < bcount w L k <-> exists b, b ∈ held /\ (k, w) ∈ bundle_keys b) /\
  (forall b, b ∈ held -> is_ok (unlock_bundle L b limit) = true) /\
  (held = [] -> L = no_bundle_locks) /\
  (forall b, is_ok (lock_bundle L b limit) = true <-> lockable b).
Proof.
  intros H%bundle_inv_reach. pose proof H as [Hok Hc Hl]. simpl in *. split_and!.
  - intros k w. rewrite Hc. clear. induction held as [|b held IH]; simpl.
    + split; [lia|]. by intros (b & ?%not_elem_of_nil & _).
    + pose proof (bundles_occ_nonneg w k held). pose proof (kocc_nonneg w k (bundle_keys b)).
      split.
      * intros Hp. destruct (decide (0 < kocc w k (bundle_keys b))) as [Hk|].
        -- exists b. split; [by left|by apply kocc_pos].
        -- destruct IH as [IH _]. destruct IH as (b' & ? & ?); [lia|].
           exists b'. by split; [right|].
      * intros (b' & [->|Hb]%elem_of_cons & Hp).
        -- apply kocc_pos in Hp. lia.
        -- assert (0 < bundles_occ w k held); [|lia]. apply IH. by exists b'.
  - intros b (h1 & h2 & ->)%list_elem_of_split.
    destruct (bundle_inv_unlock L h1 b h2 H) as (L' & -> & _). done.
  - intros ->. destruct bundle_inv_init as [Hok0 Hc0 _].
    apply bundle_ext; [done|done|]. intros w k. by rewrite Hc, Hc0.
  - intros b. unfold lock_bundle.
    destruct (get_transaction_locks_spec b) as [[-> Hb]|[-> Hb]]; simpl; [done|].
    split; [done|]. intros Hb'. by destruct Hb.
Qed.
End Bundles.

Definition bundle_ab : list Tx := [tx_a; tx_b].
Definition bundle_ab_locked : BundleAccountLocks :=
  match lock_bundle no_bundle_locks bundle_ab 64 with Ok L => L | _ => no_bundle_locks end.

Lemma bundle_account_locks_exact_witness :
  is_ok (unlock_bundle bundle_ab_locked bundle_ab 64) = true.
Proof.
  destruct (bundle_account_locks_exact 64 bundle_ab_locked [bundle_ab]) as (_ & H & _).
  - apply rtc_once. constructor; [|vm_compute; reflexivity]. intros w k.
    pose proof (kocc_length w k (bundle_keys bundle_ab)) as Hl. unfold bcount.
    assert (count (btable w no_bundle_locks) k = 0) as -> by (destruct w; apply count_empty).
    simpl length in Hl. unfold u64_max. lia.
  - apply H. by left.
Defined.

(** ** In-flight tracking: the per-thread counters are the sums over the live batches *)

Definition entry_sum (f : BatchEntry -> Z) (t : nat) (l : list (Z * BatchEntry)) : Z :=
  foldr (fun p acc => (if bool_decide (entry_thread_id p.2 = t) then f p.2 else 0) + acc) 0 l.
Definition in_flight (f : BatchEntry -> Z) (t : nat) (m : gmap Z BatchEntry) : Z :=
  entry_sum f t (map_to_list m).

#[export] Instance entry_sum_proper f t : Proper ((≡ₚ) ==> eq) (entry_sum f t).
Proof. induction 1; simpl; lia. Qed.

Lemma in_flight_insert f t m id e :
  m !! id = None ->
  in_flight f t (<[id := e]> m) =
  (if bool_decide (entry_thread_id e = t) then f e else 0) + in_flight f t m.
Proof. intros H. unfold in_flight. by rewrite map_to_list_insert. Qed.

Lemma in_flight_delete f t m id e :
  m !! id = Some e ->
  in_flight f t m =
  (if bool_decide (entry_thread_id e = t) then f e else 0) + in_flight f t (delete id m).
Proof.
  intros H. unfold in_flight. by rewrite <-(map_to_list_delete m id e H).
Qed.

Definition u64_mod : Z := u64_max + 1.

(** A counter vector agrees with the live batches, modulo [2^64]. *)
Definition counts_agree (n : nat) (f : BatchEntry -> Z) (v : list Z) (m : gmap Z BatchEntry) : Prop :=
  length v = n /\ forall t x, v !! t = Some x -> x = in_flight f t m mod u64_mod.

Record tracker_inv (n : nat) (issued : Z) (s : InFlightTracker) : Prop := {
  inv_num : counts_agree n num_transactions (num_in_flight_per_thread s) (batches s);
  inv_cus : counts_agree n total_cus (cus_in_flight_per_thread s) (batches s);
  inv_thread id e : batches s !! id = Some e -> (entry_thread_id e < n)%nat;
  inv_next : next_id s = (- issued) mod u64_mod;
  inv_ids id e : batches s !! id = Some e -> exists j, 0 <= j < issued /\ id = (- j) mod u64_mod
}.

Lemma counts_agree_insert n f v m id e :
  counts_agree n f v m -> m !! id = None -> (entry_thread_id e < n)%nat ->
  exists v', index_update v (entry_thread_id e) (fun x => wrapping_add u64_max x (f e)) = Ok v' /\
    counts_agree n f v' (<[id := e]> m).
Proof.
  intros [Hl Hv] Hid He. unfold index_update.
  destruct (lookup_lt_is_Some_2 v (entry_thread_id e)) as [x Hx]; [lia|]. rewrite Hx.
  eexists. split; [done|]. split; [by rewrite length_insert|]. intros t y.
  rewrite in_flight_insert by done. intros [(<- & <- & _)|[Hne Hy]]%list_lookup_insert_Some.
  - rewrite bool_decide_eq_true_2 by done. rewrite (Hv _ _ Hx). unfold wrapping_add.
    fold u64_mod. by rewrite Z.add_mod_idemp_l, Z.add_comm by done.
  - rewrite bool_decide_eq_false_2 by done. by rewrite (Hv _ _ Hy).
Qed.

Lemma counts_agree_delete n f v m id e :
  counts_agree n f v m -> m !! id = Some e -> (entry_thread_id e < n)%nat ->
  exists v', index_update v (entry_thread_id e) (fun x => wrapping_sub u64_max x (f e)) = Ok v' /\
    counts_agree n f v' (delete id m).
Proof.
  intros [Hl Hv] Hid He. unfold index_update.
  destruct (lookup_lt_is_Some_2 v (entry_thread_id e)) as [x Hx]; [lia|]. rewrite Hx.
  eexists. split; [done|]. split; [by rewrite length_insert|]. intros t y.
  intros [(<- & <- & _)|[Hne Hy]]%list_lookup_insert_Some.
  - rewrite (Hv _ _ Hx). rewrite (in_flight_delete f _ m id e Hid).
    rewrite bool_decide_eq_true_2 by done. unfold wrapping_sub. fold u64_mod.
    rewrite Zminus_mod_idemp_l. f_equal. lia.
  - rewrite (Hv _ _ Hy), (in_flight_delete f _ m id e Hid).
    by rewrite bool_decide_eq_false_2 by done.
Qed.

Lemma track_batch_inv n issued s num cus t :
  tracker_inv n issued s -> 0 <= issued <= u64_max -> (t < n)%nat ->
  exists id s', track_batch s num cus t = Ok (id, s') /\ tracker_inv n (issued + 1) s' /\
    batches s !! id = None /\
    batches s' = <[id := {| entry_thread_id := t; num_transactions := num;
                            total_cus := cus |}]> (batches s).
Proof.
  intros [Hn Hc Ht Hnext Hids] Hi Htn. unfold track_batch, next_batch_id.
  set (e := {| entry_thread_id := t; num_transactions := num; total_cus := cus |}).
  assert (batches s !! next_id s = None) as Hfresh.
  { destruct (batches s !! next_id s) as [e'|] eqn:He; [|done].
    destruct (Hids _ _ He) as (j & Hj & Heq). exfalso. rewrite Hnext in Heq.
    assert ((issued - j) mod u64_mod = 0) as Hz.
    { replace (issued - j) with (- j - - issued) by lia. rewrite Zminus_mod, <-Heq.
      by rewrite Z.sub_diag. }
    unfold u64_mod in Hz. rewrite Z.mod_small in Hz by lia. lia. }
  destruct (counts_agree_insert n num_transactions _ _ _ e Hn Hfresh Htn) as (v1 & H1 & A1).
  destruct (counts_agree_insert n total_cus _ _ _ e Hc Hfresh Htn) as (v2 & H2 & A2).
  simpl in H1, H2. rewrite H1. cbn. rewrite H2. cbn. do 2 eexists. split; [done|].
  split; [|done]. split; simpl; [done|done|..].
  - intros id e' [[<- <-]|[_ He]]%lookup_insert_Some; [done|by eapply Ht].
  - rewrite Hnext. unfold wrapping_sub. fold u64_mod. rewrite Zminus_mod_idemp_l. f_equal. lia.
  - intros id e' [[<- <-]|[_ He]]%lookup_insert_Some; [exists issued; split; [lia|done]|].
    destruct (Hids _ _ He) as (j & ? & ?). exists j. split; [lia|done].
Qed.

Lemma complete_batch_inv n issued s id e :
  tracker_inv n issued s -> batches s !! id = Some e ->
  exists s', complete_batch s id = Ok (entry_thread_id e, s') /\ tracker_inv n issued s' /\
    batches s' = delete id (batches s).
Proof.
  intros [Hn Hc Ht Hnext Hids] He. unfold complete_batch. rewrite He.
  pose proof (Ht _ _ He) as Htn.
  destruct (counts_agree_delete n num_transactions _ _ _ e Hn He Htn) as (v1 & H1 & A1).
  destruct (counts_agree_delete n total_cus _ _ _ e Hc He Htn) as (v2 & H2 & A2).
  rewrite H1. cbn. rewrite H2. cbn. eexists. split; [done|]. split; [|done].
  split; simpl; [done|done| |done|].
  - intros id' e' [_ He']%lookup_delete_Some. by eapply Ht.
  - intros id' e' [_ He']%lookup_delete_Some. by eapply Hids.
Qed.

Inductive tracker_step : InFlightTracker -> InFlightTracker -> Prop :=
| step_track s num cus t id s' : track_batch s num cus t = Ok (id, s') -> tracker_step s s'
| step_complete s id t s' : complete_batch s id = Ok (t, s') -> tracker_step s s'.

Lemma tracker_reach_inv n k s s' issued :
  nsteps tracker_step k s s' -> tracker_inv n issued s -> 0 <= issued ->
  issued + Z.of_nat k <= u64_max ->
  exists issued', tracker_inv n issued' s' /\ 0 <= issued' <= issued + Z.of_nat k.
Proof.
  intros H. revert issued. induction H as [s|k s1 s2 s3 H12 H23 IH]; intros issued Hinv H0 Hk.
  { exists issued. split; [done|lia]. }
  destruct H12 as [s num cus t id s' H|s id t s' H].
  - destruct (decide (t < n)%nat) as [Ht|Ht].
    + destruct (track_batch_inv n issued s num cus t Hinv) as (id' & s2 & H2 & Hinv' & _); [lia|done|].
      rewrite H in H2. injection H2 as <- <-.
      destruct (IH (issued + 1) Hinv') as (i & ? & ?); [lia|lia|]. exists i. split; [done|lia].
    + unfold track_batch, index_update, next_batch_id in H.
      destruct (inv_num _ _ _ Hinv) as [Hl _].
      by rewrite (lookup_ge_None_2 (num_in_flight_per_thread s) t) in H by lia.
  - destruct (batches s !! id) as [e|] eqn:He; [|by unfold complete_batch in H; rewrite He in H].
    destruct (complete_batch_inv n issued s id e Hinv He) as (s2 & H2 & Hinv' & _).
    rewrite H in H2. injection H2 as -> <-.
    destruct (IH issued Hinv') as (i & ? & ?); [lia|lia|]. exists i. split; [done|lia].
Qed.

Lemma tracker_new_inv n : tracker_inv n 0 (tracker_new n).
Proof.
  assert (forall f, counts_agree n f (replicate n 0) ∅) as Hc.
  { intros f. split; [apply length_replicate|]. intros t x [-> _]%lookup_replicate.
    unfold in_flight. by rewrite map_to_list_empty. }
  by split; simpl; [apply Hc|apply Hc| | |].
Qed.

(** in-flight accounting. After fewer than [2^64] operations on a fresh tracker the
    counters of each thread are, as [u64] sums, the transactions and compute units of
    the batches tracked but not completed on it; batch ids are never reused while live;
    completing a live batch never panics, names its thread and removes exactly it. *)
Theorem in_flight_tracker_exact n k s :
  nsteps tracker_step k (tracker_new n) s -> Z.of_nat k < u64_max ->
  (forall t x, num_in_flight_per_thread s !! t = Some x ->
     x = in_flight num_transactions t (batches s) mod u64_mod) /\
  (forall t x, cus_in_flight_per_thread s !! t = Some x ->
     x = in_flight total_cus t (batches s) mod u64_mod) /\
  (forall id e, batches s !! id = Some e ->
     exists s', complete_batch s id = Ok (entry_thread_id e, s') /\
                batches s' = delete id (batches s)) /\
  (forall num cus t, (t < n)%nat ->
     exists id s', track_batch s num cus t = Ok (id, s') /\ batches s !! id = None).
Proof.
  intros H Hk. destruct (tracker_reach_inv n k _ s 0 H (tracker_new_inv n)) as (i & Hinv & Hi);
    [lia|lia|]. split_and!.
  - apply (inv_num _ _ _ Hinv).
  - apply (inv_cus _ _ _ Hinv).
  - intros id e He. destruct (complete_batch_inv n i s id e Hinv He) as (s' & ? & _ & ?). eauto.
  - intros num cus t Ht. destruct (track_batch_inv n i s num cus t Hinv) as (id & s' & ? & _ & ? & _);
      [lia|done|]. eauto.
Qed.

Definition tracked : InFlightTracker :=
  match track_batch (tracker_new 2) 5 1000 1 with Ok (_, s) => s | _ => tracker_new 2 end.

Lemma in_flight_tracker_exact_witness :
  exists s', complete_batch tracked 0 = Ok (1%nat, s') /\ batches s' = delete 0 (batches tracked).
Proof.
  destruct (in_flight_tracker_exact 2 1 tracked) as (_ & _ & H & _).
  - apply nsteps_once. apply (step_track _ 5 1000 1 0). vm_compute. reflexivity.
  - unfold u64_max. lia.
  - apply (H 0 {| entry_thread_id := 1; num_transactions := 5; total_cus := 1000 |}).
    vm_compute. reflexivity.
Defined.
