(* ===== verification/CostModel.v ===== *)
(** * Cost model

    Models [cost-model/src/cost_model.rs], [transaction_cost.rs] and
    [block_cost_limits.rs]: the compute-unit cost of a transaction, from its
    signatures, write locks, instruction data, execution and loaded data, and the
    account data it may allocate. *)

From S2P Require Import Prelude.
Local Open Scope Z_scope.

(** ** [block_cost_limits.rs] *)
Definition COMPUTE_UNIT_TO_US_RATIO : Z := 30.
Definition SIGNATURE_COST : Z := COMPUTE_UNIT_TO_US_RATIO * 24.
Definition SECP256K1_VERIFY_COST : Z := COMPUTE_UNIT_TO_US_RATIO * 223.
Definition ED25519_VERIFY_STRICT_COST : Z := COMPUTE_UNIT_TO_US_RATIO * 80.
Definition SECP256R1_VERIFY_COST : Z := COMPUTE_UNIT_TO_US_RATIO * 160.
Definition WRITE_LOCK_UNITS : Z := COMPUTE_UNIT_TO_US_RATIO * 10.
Definition INSTRUCTION_DATA_BYTES_COST : Z := 140 / COMPUTE_UNIT_TO_US_RATIO.
Definition MAX_BLOCK_UNITS_SIMD_0256 : Z := 60000000.
Definition MAX_BLOCK_UNITS : Z := MAX_BLOCK_UNITS_SIMD_0256.
Definition MAX_BLOCK_UNITS_SIMD_0286 : Z := 100000000.
Definition MAX_WRITABLE_ACCOUNT_UNITS : Z := 24000000.
Definition MAX_BLOCK_ACCOUNTS_DATA_SIZE_DELTA : Z := 100000000.
Definition simd_0286_block_limit : Z := MAX_BLOCK_UNITS_SIMD_0286.

(** [program-runtime/src/execution_budget.rs] *)
Definition DEFAULT_HEAP_COST : Z := 8.
Definition ACCOUNT_DATA_COST_PAGE_SIZE : Z := saturating_mul u64_max 32 1024.

(** ** Transactions, through the traits the cost model uses *)
Record TransactionSignatureDetails := {
  num_transaction_signatures : Z;
  num_secp256k1_instruction_signatures : Z;
  num_ed25519_instruction_signatures : Z;
  num_secp256r1_instruction_signatures : Z
}.

Record TransactionConfiguration := {
  compute_unit_limit : Z (* u32 *);
  loaded_accounts_data_size_limit : Z (* u32 *)
}.

Record CostedTx := {
  tx_account_keys : list Pubkey;
  tx_is_writable : nat -> bool;
  signature_details : TransactionSignatureDetails;
  transaction_configuration : option TransactionConfiguration; (* [None]: an error *)
  instruction_data_len : Z; (* u16 *)
  num_write_locks : Z;
  program_instructions : list (Pubkey * list Z) (* program id, instruction data *)
}.

(** ** [TransactionCost] *)
Record TransactionCost := {
  transaction : CostedTx;
  signature_cost : Z;
  write_lock_cost : Z;
  data_bytes_cost : Z; (* u16 *)
  programs_execution_cost : Z;
  loaded_accounts_data_size_cost : Z;
  allocated_accounts_data_size : Z
}.

Abbreviation sat_add := (saturating_add u64_max).
Abbreviation sat_mul := (saturating_mul u64_max).

Definition sum (self : TransactionCost) : Z :=
  sat_add (sat_add (sat_add (sat_add (signature_cost self) (write_lock_cost self))
    (data_bytes_cost self)) (programs_execution_cost self))
    (loaded_accounts_data_size_cost self).

(** [enumerate().filter_map(..)] *)
Definition writable_keys (keys : list Pubkey) (is_writable : nat -> bool) : list Pubkey :=
  omap id (imap (fun index key => if is_writable index then Some key else None) keys).
Definition writable_accounts (self : TransactionCost) : list Pubkey :=
  writable_keys (tx_account_keys (transaction self)) (tx_is_writable (transaction self)).

(** ** Costs *)
Definition get_signature_cost (tx : CostedTx) : Z :=
  let d := signature_details tx in
  sat_add (sat_add (sat_add
    (sat_mul (num_transaction_signatures d) SIGNATURE_COST)
    (sat_mul (num_secp256k1_instruction_signatures d) SECP256K1_VERIFY_COST))
    (sat_mul (num_ed25519_instruction_signatures d) ED25519_VERIFY_STRICT_COST))
    (sat_mul (num_secp256r1_instruction_signatures d) SECP256R1_VERIFY_COST).

Definition get_write_lock_cost (num_write_locks : Z) : Z := sat_mul WRITE_LOCK_UNITS num_write_locks.

Definition calculate_pages_for_bytes (bytes : Z) : Z :=
  sat_add bytes (saturating_sub ACCOUNT_DATA_COST_PAGE_SIZE 1) / ACCOUNT_DATA_COST_PAGE_SIZE.
Definition calculate_pages_cost (num_pages : Z) : Z := sat_mul num_pages DEFAULT_HEAP_COST.
Definition calculate_loaded_accounts_data_size_cost (loaded_accounts_data_size : Z) : Z :=
  calculate_pages_cost (calculate_pages_for_bytes loaded_accounts_data_size).

Definition get_estimated_execution_cost (tx : CostedTx) : Z * Z :=
  match transaction_configuration tx with
  | Some config =>
    (compute_unit_limit config,
     calculate_loaded_accounts_data_size_cost (loaded_accounts_data_size_limit config))
  | None => (0, 0)
  end.

(** [INSTRUCTION_DATA_BYTES_COST as u16] is 4, so the division never traps. *)
Definition get_instructions_data_cost (tx : CostedTx) : Z :=
  instruction_data_len tx / (INSTRUCTION_DATA_BYTES_COST mod 2 ^ 16).

(** ** Account data allocation *)

(** The system program's instructions, with the field the cost model reads. *)
Inductive SystemInstruction :=
| CreateAccount (space : Z)
| Assign
| Transfer
| CreateAccountWithSeed (space : Z)
| AdvanceNonceAccount
| WithdrawNonceAccount
| InitializeNonceAccount
| AuthorizeNonceAccount
| Allocate (space : Z)
| AllocateWithSeed (space : Z)
| AssignWithSeed
| TransferWithSeed
| UpgradeNonceAccount
| CreateAccountAllowPrefund (space : Z).

Inductive SystemProgramAccountAllocation :=
| AllocNone
| AllocSome (size : Z)
| AllocFailed.

(** What the model takes from crates outside the repository: the system program's id
    and instruction decoder, and its allocation limits. *)
Class SystemInterface := {
  system_program_id : Pubkey;
  limited_deserialize : list Z -> option SystemInstruction;
  MAX_PERMITTED_DATA_LENGTH : Z;
  MAX_PERMITTED_ACCOUNTS_DATA_ALLOCATIONS_PER_TRANSACTION : Z
}.

(** The one feature gate consulted. *)
Record FeatureSet := { create_account_allow_prefund : bool }.

Section Allocation.
Context `{SystemInterface}.

Definition calculate_account_data_size_on_deserialized_system_instruction
    (instruction : SystemInstruction) (feature_set : FeatureSet)
    : SystemProgramAccountAllocation :=
  let validate_space space :=
    if MAX_PERMITTED_DATA_LENGTH <? space then AllocFailed else AllocSome space in
  match instruction with
  | CreateAccount space | CreateAccountWithSeed space | Allocate space
  | AllocateWithSeed space => validate_space space
  | CreateAccountAllowPrefund space =>
    if negb (create_account_allow_prefund feature_set) then AllocFailed
    else validate_space space
  | Assign | Transfer | AdvanceNonceAccount | WithdrawNonceAccount
  | InitializeNonceAccount | AuthorizeNonceAccount | UpgradeNonceAccount
  | AssignWithSeed | TransferWithSeed => AllocNone
  end.

Definition calculate_account_data_size_on_instruction (program_id : Pubkey) (data : list Z)
    (feature_set : FeatureSet) : SystemProgramAccountAllocation :=
  if program_id =? system_program_id then
    match limited_deserialize data with
    | Some instruction =>
      calculate_account_data_size_on_deserialized_system_instruction instruction feature_set
    | None => AllocFailed
    end
  else AllocNone.

Fixpoint allocated_loop (instructions : list (Pubkey * list Z)) (feature_set : FeatureSet)
    (tx_attempted_allocation_size : Z) : Z :=
  match instructions with
  | [] =>
    Z.min MAX_PERMITTED_ACCOUNTS_DATA_ALLOCATIONS_PER_TRANSACTION tx_attempted_allocation_size
  | (program_id, instruction) :: rest =>
    match calculate_account_data_size_on_instruction program_id instruction feature_set with
    | AllocFailed => 0
    | AllocNone => allocated_loop rest feature_set tx_attempted_allocation_size
    | AllocSome size =>
      allocated_loop rest feature_set (sat_add tx_attempted_allocation_size size)
    end
  end.

Definition calculate_allocated_accounts_data_size (instructions : list (Pubkey * list Z))
    (feature_set : FeatureSet) : Z :=
  allocated_loop instructions feature_set 0.

Definition calculate_transaction_cost (tx : CostedTx) (instructions : list (Pubkey * list Z))
    (num_write_locks programs_execution_cost loaded_accounts_data_size_cost data_bytes_cost : Z)
    (feature_set : FeatureSet) : TransactionCost :=
  {| transaction := tx;
     signature_cost := get_signature_cost tx;
     write_lock_cost := get_write_lock_cost num_write_locks;
     data_bytes_cost := data_bytes_cost;
     programs_execution_cost := programs_execution_cost;
     loaded_accounts_data_size_cost := loaded_accounts_data_size_cost;
     allocated_accounts_data_size :=
       calculate_allocated_accounts_data_size instructions feature_set |}.

Definition estimate_cost (tx : CostedTx) (instructions : list (Pubkey * list Z))
    (num_write_locks : Z) (feature_set : FeatureSet) : TransactionCost :=
  let '(programs_execution_cost, loaded_accounts_data_size_cost) :=
    get_estimated_execution_cost tx in
  let data_bytes_cost := get_instructions_data_cost tx in
  calculate_transaction_cost tx instructions num_write_locks programs_execution_cost
    loaded_accounts_data_size_cost data_bytes_cost feature_set.

Definition calculate_cost (tx : CostedTx) (feature_set : FeatureSet) : TransactionCost :=
  let '(programs_execution_cost, loaded_accounts_data_size_cost) :=
    get_estimated_execution_cost tx in
  let data_bytes_cost := get_instructions_data_cost tx in
  calculate_transaction_cost tx (program_instructions tx) (num_write_locks tx)
    programs_execution_cost loaded_accounts_data_size_cost data_bytes_cost feature_set.

Definition calculate_cost_for_executed_transaction (tx : CostedTx)
    (actual_programs_execution_cost actual_loaded_accounts_data_size_bytes : Z)
    (feature_set : FeatureSet) : TransactionCost :=
  calculate_transaction_cost tx (program_instructions tx) (num_write_locks tx)
    actual_programs_execution_cost
    (calculate_loaded_accounts_data_size_cost actual_loaded_accounts_data_size_bytes)
    (get_instructions_data_cost tx) feature_set.
End Allocation.

(** ** The cost of a transaction in closed form *)

(** Number of pages that hold a number of bytes, rounded up. *)
Lemma calculate_pages_for_bytes_ceil bytes :
  is_u u32_max bytes ->
  let pages := calculate_pages_for_bytes bytes in
  bytes <= pages * 32768 < bytes + 32768.
Proof.
  unfold is_u, u32_max. intros Hb. unfold calculate_pages_for_bytes.
  change (saturating_sub ACCOUNT_DATA_COST_PAGE_SIZE 1) with 32767.
  change ACCOUNT_DATA_COST_PAGE_SIZE with 32768.
  unfold saturating_add, u64_max. rewrite Z.min_r by lia.
  pose proof (Z.div_mod (bytes + 32767) 32768). pose proof (Z.mod_pos_bound (bytes + 32767) 32768). lia.
Qed.

(** The ranges of what a transaction reports: the counts fit in 32 bits. *)
Record tx_in_range (tx : CostedTx) : Prop := {
  range_sigs : is_u u32_max (num_transaction_signatures (signature_details tx));
  range_k1 : is_u u32_max (num_secp256k1_instruction_signatures (signature_details tx));
  range_ed : is_u u32_max (num_ed25519_instruction_signatures (signature_details tx));
  range_r1 : is_u u32_max (num_secp256r1_instruction_signatures (signature_details tx));
  range_locks : is_u u32_max (num_write_locks tx);
  range_data : is_u u16_max (instruction_data_len tx);
  range_config c : transaction_configuration tx = Some c ->
    is_u u32_max (compute_unit_limit c) /\ is_u u32_max (loaded_accounts_data_size_limit c)
}.

Definition signature_units (tx : CostedTx) : Z :=
  let d := signature_details tx in
  720 * num_transaction_signatures d + 6690 * num_secp256k1_instruction_signatures d
  + 2400 * num_ed25519_instruction_signatures d + 4800 * num_secp256r1_instruction_signatures d.

(** The part of the cost that does not depend on the execution. *)
Definition static_units (tx : CostedTx) : Z :=
  signature_units tx + 300 * num_write_locks tx + instruction_data_len tx / 4.

Definition page_units (bytes : Z) : Z := 8 * ((bytes + 32767) / 32768).

Lemma get_signature_cost_exact tx :
  tx_in_range tx -> get_signature_cost tx = signature_units tx /\ 0 <= signature_units tx <= 2 ^ 46.
Proof.
  intros [H1 H2 H3 H4 _ _ _]. unfold is_u, u32_max in *.
  unfold get_signature_cost, signature_units. cbv zeta.
  change SIGNATURE_COST with 720. change SECP256K1_VERIFY_COST with 6690.
  change ED25519_VERIFY_STRICT_COST with 2400. change SECP256R1_VERIFY_COST with 4800.
  unfold saturating_add, saturating_mul, u64_max. lia.
Qed.

Lemma loaded_cost_exact bytes :
  is_u u32_max bytes ->
  calculate_loaded_accounts_data_size_cost bytes = page_units bytes /\
  0 <= page_units bytes <= 2 ^ 21.
Proof.
  unfold is_u, u32_max. intros Hb.
  unfold calculate_loaded_accounts_data_size_cost, calculate_pages_cost, calculate_pages_for_bytes,
    page_units, DEFAULT_HEAP_COST.
  change (saturating_sub ACCOUNT_DATA_COST_PAGE_SIZE 1) with 32767.
  change ACCOUNT_DATA_COST_PAGE_SIZE with 32768.
  unfold saturating_add, saturating_mul, u64_max. rewrite (Z.min_r _ (bytes + 32767)) by lia.
  assert (0 <= (bytes + 32767) / 32768 <= 131072).
  { split; [apply Z.div_pos; lia|]. apply Z.lt_succ_r, Z.div_lt_upper_bound; lia. }
  lia.
Qed.

Lemma data_cost_exact tx :
  tx_in_range tx ->
  get_instructions_data_cost tx = instruction_data_len tx / 4 /\
  0 <= instruction_data_len tx / 4 <= u16_max.
Proof.
  intros H. pose proof (range_data tx H) as Hd. unfold is_u, u16_max in *.
  split; [done|]. split; [apply Z.div_pos; lia|]. apply Z.div_le_upper_bound; lia.
Qed.

Section Costs.
Context `{SystemInterface}.

(** the cost of an executed transaction is exact, no step saturates for counts that
    fit in 32 bits: 720 units per signature, 6690, 2400 and 4800 per secp256k1, ed25519
    and secp256r1 precompile signature, 300 per write lock, one per four bytes of
    instruction data, the executed units, and 8 per started 32 KiB page of loaded
    account data. The estimate before execution is the same sum at the requested limits,
    and only the static part when the compute-budget instructions are invalid. *)
Theorem calculate_cost_exact tx fs :
  tx_in_range tx ->
  (forall units bytes, is_u u64_max units -> is_u u32_max bytes ->
     sum (calculate_cost_for_executed_transaction tx units bytes fs) =
     Z.min u64_max (static_units tx + units + page_units bytes)) /\
  sum (calculate_cost tx fs) =
    static_units tx +
    match transaction_configuration tx with
    | Some c => compute_unit_limit c + page_units (loaded_accounts_data_size_limit c)
    | None => 0
    end /\
  sum (calculate_cost tx fs) <= 2 ^ 47.
Proof.
  intros Hr. destruct (get_signature_cost_exact tx Hr) as [Hs Hsb].
  destruct (data_cost_exact tx Hr) as [Hd Hdb].
  pose proof (range_locks tx Hr) as Hl. unfold is_u, u16_max, u32_max in Hl, Hdb.
  assert (get_write_lock_cost (num_write_locks tx) = 300 * num_write_locks tx) as Hw.
  { unfold get_write_lock_cost, saturating_mul. change WRITE_LOCK_UNITS with 300.
    unfold u64_max. lia. }
  split.
  - intros units bytes Hu Hb. destruct (loaded_cost_exact bytes Hb) as [Hp Hpb].
    unfold calculate_cost_for_executed_transaction, calculate_transaction_cost, sum, static_units.
    simpl. rewrite Hs, Hd, Hw, Hp. unfold is_u, saturating_add in *. unfold u64_max in *. lia.
  - unfold calculate_cost, calculate_transaction_cost, get_estimated_execution_cost, sum, static_units.
    pose proof (range_config tx Hr) as Hc.
    destruct (transaction_configuration tx) as [c|]; simpl; rewrite Hs, Hd, Hw;
      unfold saturating_add, u64_max.
    + destruct (Hc c eq_refl) as [Hcu Hcb]. destruct (loaded_cost_exact _ Hcb) as [-> Hpb].
      unfold is_u, u32_max in Hcu. lia.
    + lia.
Qed.

(** Reference: what each instruction allocates, [None] when it must fail. *)
Definition instruction_allocation (fs : FeatureSet) (p : Pubkey * list Z) : option Z :=
  match calculate_account_data_size_on_instruction p.1 p.2 fs with
  | AllocNone => Some 0
  | AllocSome size => Some size
  | AllocFailed => None
  end.

Lemma allocated_loop_spec instrs fs acc :
  is_u u64_max acc -> 0 <= MAX_PERMITTED_ACCOUNTS_DATA_ALLOCATIONS_PER_TRANSACTION <= u64_max ->
  (forall p s, p ∈ instrs -> instruction_allocation fs p = Some s -> 0 <= s) ->
  allocated_loop instrs fs acc =
  match mapM (instruction_allocation fs) instrs with
  | Some sizes =>
    Z.min MAX_PERMITTED_ACCOUNTS_DATA_ALLOCATIONS_PER_TRANSACTION (acc + foldr Z.add 0 sizes)
  | None => 0
  end.
Proof.
  intros Hacc Hmax. revert acc Hacc. induction instrs as [|[id data] instrs IH]; intros acc Hacc Hnn.
  - simpl. f_equal. lia.
  - pose proof (Hnn (id, data)) as Hhd. cbn [allocated_loop].
    change (mapM (instruction_allocation fs) ((id, data) :: instrs)) with
      (y ← instruction_allocation fs (id, data); k ← mapM (instruction_allocation fs) instrs;
       mret (M := option) (y :: k)).
    assert (instruction_allocation fs (id, data) =
      match calculate_account_data_size_on_instruction id data fs with
      | AllocNone => Some 0 | AllocSome size => Some size | AllocFailed => None end) as Hia by done.
    rewrite Hia in Hhd |- *.
    assert (forall p s, p ∈ instrs -> instruction_allocation fs p = Some s -> 0 <= s) as Htl
      by (intros p s Hp; apply Hnn; by right).
    destruct (calculate_account_data_size_on_instruction id data fs) as [|size|]; simpl; [| |done].
    + rewrite (IH acc Hacc Htl). destruct (mapM _ instrs); simpl; [f_equal; lia|done].
    + specialize (Hhd size (list_elem_of_here _ _) eq_refl).
      assert (is_u u64_max (sat_add acc size)) as Hacc' by (unfold is_u, saturating_add in *; lia).
      rewrite (IH _ Hacc' Htl).
      destruct (mapM (instruction_allocation fs) instrs) as [sizes|] eqn:Hm; simpl; [|done].
      assert (0 <= foldr Z.add 0 sizes).
      { apply mapM_Some in Hm. clear -Hm Htl. induction Hm as [|p s l k Hps Hlk IH]; simpl; [done|].
        assert (0 <= s) by (eapply Htl; [left|done]).
        assert (0 <= foldr Z.add 0 k); [|lia]. apply IH. intros q r Hq. apply Htl. by right. }
      unfold saturating_add, is_u in *. lia.
Qed.

(** the data a transaction is charged for allocating: nothing if any system
    instruction can be seen to fail (undecodable, a gated instruction, or more space than
    an account may have), otherwise the sum of the requested spaces, capped at the limit
    per transaction. *)
Theorem allocated_size_correct instrs fs :
  0 <= MAX_PERMITTED_ACCOUNTS_DATA_ALLOCATIONS_PER_TRANSACTION <= u64_max ->
  (forall data i, limited_deserialize data = Some i ->
     forall s, calculate_account_data_size_on_deserialized_system_instruction i fs = AllocSome s ->
       0 <= s) ->
  calculate_allocated_accounts_data_size instrs fs =
  match mapM (instruction_allocation fs) instrs with
  | Some sizes =>
    Z.min MAX_PERMITTED_ACCOUNTS_DATA_ALLOCATIONS_PER_TRANSACTION (foldr Z.add 0 sizes)
  | None => 0
  end.
Proof.
  intros Hmax Hdec. unfold calculate_allocated_accounts_data_size.
  rewrite (allocated_loop_spec instrs fs 0); [done|unfold is_u, u64_max; lia|done|].
  intros [id data] s _. unfold instruction_allocation, calculate_account_data_size_on_instruction. simpl.
  destruct (id =? system_program_id); [|intros [= <-]; done].
  destruct (limited_deserialize data) as [i|] eqn:Hd; [|done].
  destruct (calculate_account_data_size_on_deserialized_system_instruction i fs) eqn:He; [| |done].
  - by intros [= <-].
  - intros [= <-]. by eapply Hdec.
Qed.
End Costs.

(** ** Witnesses *)

(** A toy decoder: the first byte selects, the second is the space. *)
#[export] Instance toy_system : SystemInterface := {
  system_program_id := 0;
  limited_deserialize data :=
    match data with
    | [] => None
    | [x] => if x =? 2 then Some Transfer else None
    | x :: s :: _ =>
      if x =? 0 then Some (CreateAccount (Z.abs s))
      else if x =? 8 then Some (Allocate (Z.abs s)) else None
    end;
  MAX_PERMITTED_DATA_LENGTH := 10 * 1024 * 1024;
  MAX_PERMITTED_ACCOUNTS_DATA_ALLOCATIONS_PER_TRANSACTION := 20 * 1024 * 1024
}.

Definition features : FeatureSet := {| create_account_allow_prefund := true |}.

Definition transfer_tx : CostedTx := {|
  tx_account_keys := [5; 6; 0];
  tx_is_writable := (fun i => i <? 2)%nat;
  signature_details := {| num_transaction_signatures := 1;
    num_secp256k1_instruction_signatures := 0; num_ed25519_instruction_signatures := 0;
    num_secp256r1_instruction_signatures := 0 |};
  transaction_configuration :=
    Some {| compute_unit_limit := 3000; loaded_accounts_data_size_limit := 65536 |};
  instruction_data_len := 12;
  num_write_locks := 2;
  program_instructions := [(0, [2]); (0, [8; 100])]
|}.

Lemma transfer_tx_in_range : tx_in_range transfer_tx.
Proof.
  split; [..|intros c [= <-]]; unfold is_u, u16_max, u32_max; simpl; lia.
Qed.

Lemma calculate_cost_exact_witness :
  sum (calculate_cost transfer_tx features) = 720 + 600 + 3 + 3000 + 16.
Proof.
  destruct (calculate_cost_exact transfer_tx features transfer_tx_in_range) as (_ & -> & _).
  vm_compute. reflexivity.
Defined.

Lemma toy_nonneg data i s :
  limited_deserialize data = Some i ->
  calculate_account_data_size_on_deserialized_system_instruction i features = AllocSome s -> 0 <= s.
Proof.
  cbn [limited_deserialize toy_system]. intros Hd.
  destruct data as [|x [|y data]]; [done|..].
  - destruct (x =? 2); [|done]. by injection Hd as <-.
  - assert (i = CreateAccount (Z.abs y) \/ i = Allocate (Z.abs y)) as Hi.
    { destruct (x =? 0); [injection Hd; auto|]. destruct (x =? 8); [injection Hd; auto|done]. }
    unfold calculate_account_data_size_on_deserialized_system_instruction.
    destruct Hi as [-> | ->]; destruct (_ <? _); intros [= <-]; lia.
Qed.

Lemma allocated_size_correct_witness :
  calculate_allocated_accounts_data_size (program_instructions transfer_tx) features = 100.
Proof.
  etransitivity.
  - apply (allocated_size_correct (program_instructions transfer_tx) features).
    + unfold MAX_PERMITTED_ACCOUNTS_DATA_ALLOCATIONS_PER_TRANSACTION, u64_max. simpl. lia.
    + intros data i Hd s. apply (toy_nonneg data i s Hd).
  - vm_compute. reflexivity.
Defined.
