(* ===== verification/CostTracker.v ===== *)
(** * Cost tracker

    Models [cost-model/src/cost_tracker.rs]: the running cost of a block and of every
    account written in it, checked against the block's limits when a transaction is
    added, corrected after its execution and given back when it does not commit. *)

From S2P Require Import Prelude CostModel.
Local Open Scope Z_scope.

Inductive CostTrackerError :=
| WouldExceedBlockMaxLimit
| WouldExceedAccountMaxLimit
| WouldExceedAccountDataBlockLimit
| WouldExceedAccountDataTotalLimit.

Record UpdatedCosts := {
  updated_block_cost : Z;
  updated_costliest_account_cost : Z
}.

Record CostTrackerLimits := {
  account_cost : Z;
  block_cost_limit : Z; (* field [block_cost] *)
  allocated_data_size : Z
}.

Definition limits_max : CostTrackerLimits :=
  {| account_cost := u64_max; block_cost_limit := u64_max; allocated_data_size := u64_max |}.
Definition limits_default : CostTrackerLimits :=
  {| account_cost := MAX_WRITABLE_ACCOUNT_UNITS; block_cost_limit := MAX_BLOCK_UNITS;
     allocated_data_size := MAX_BLOCK_ACCOUNTS_DATA_SIZE_DELTA |}.

Record CostTracker := {
  limits : CostTrackerLimits;
  cost_by_writable_accounts : gmap Pubkey Z;
  block_cost : Z; (* SharedBlockCost, an atomic u64 *)
  transaction_count : Z;
  allocated_size : Z; (* allocated_accounts_data_size *)
  transaction_signature_count : Z;
  secp256k1_instruction_signature_count : Z;
  ed25519_instruction_signature_count : Z;
  in_flight_transaction_count : Z;
  secp256r1_instruction_signature_count : Z
}.

Definition tracker_default : CostTracker := {|
  limits := limits_default; cost_by_writable_accounts := ∅; block_cost := 0;
  transaction_count := 0; allocated_size := 0; transaction_signature_count := 0;
  secp256k1_instruction_signature_count := 0; ed25519_instruction_signature_count := 0;
  in_flight_transaction_count := 0; secp256r1_instruction_signature_count := 0 |}.

(** Field updates. *)
Definition set_limits (self : CostTracker) (l : CostTrackerLimits) : CostTracker := {|
  limits := l; cost_by_writable_accounts := cost_by_writable_accounts self;
  block_cost := block_cost self; transaction_count := transaction_count self;
  allocated_size := allocated_size self;
  transaction_signature_count := transaction_signature_count self;
  secp256k1_instruction_signature_count := secp256k1_instruction_signature_count self;
  ed25519_instruction_signature_count := ed25519_instruction_signature_count self;
  in_flight_transaction_count := in_flight_transaction_count self;
  secp256r1_instruction_signature_count := secp256r1_instruction_signature_count self |}.
Definition set_limits_max (self : CostTracker) : CostTracker := set_limits self limits_max.
Definition new_from_parent_limits (self : CostTracker) : CostTracker :=
  set_limits tracker_default (limits self).

Definition with_costs (self : CostTracker) (m : gmap Pubkey Z) (b : Z) : CostTracker := {|
  limits := limits self; cost_by_writable_accounts := m;
  block_cost := b; transaction_count := transaction_count self;
  allocated_size := allocated_size self;
  transaction_signature_count := transaction_signature_count self;
  secp256k1_instruction_signature_count := secp256k1_instruction_signature_count self;
  ed25519_instruction_signature_count := ed25519_instruction_signature_count self;
  in_flight_transaction_count := in_flight_transaction_count self;
  secp256r1_instruction_signature_count := secp256r1_instruction_signature_count self |}.

Definition set_in_flight (self : CostTracker) (n : Z) : CostTracker := {|
  limits := limits self; cost_by_writable_accounts := cost_by_writable_accounts self;
  block_cost := block_cost self; transaction_count := transaction_count self;
  allocated_size := allocated_size self;
  transaction_signature_count := transaction_signature_count self;
  secp256k1_instruction_signature_count := secp256k1_instruction_signature_count self;
  ed25519_instruction_signature_count := ed25519_instruction_signature_count self;
  in_flight_transaction_count := n;
  secp256r1_instruction_signature_count := secp256r1_instruction_signature_count self |}.

(** [Saturating<usize>] *)
Definition add_transactions_in_flight (self : CostTracker) (n : Z) : CostTracker :=
  set_in_flight self (sat_add (in_flight_transaction_count self) n).
Definition sub_transactions_in_flight (self : CostTracker) (n : Z) : CostTracker :=
  set_in_flight self (saturating_sub (in_flight_transaction_count self) n).

(** [SharedBlockCost]: the atomic operations wrap around. *)
Definition fetch_add (c value : Z) : Z := wrapping_add u64_max c value.
Definition fetch_sub (c value : Z) : Z := wrapping_sub u64_max c value.

(** [roll_back_applied_costs] on the account map. *)
Fixpoint roll_back_keys (m : gmap Pubkey Z) (cost : Z) (keys : list Pubkey) : gmap Pubkey Z :=
  match keys with
  | [] => m
  | key :: keys =>
    let m := match m !! key with
             | Some c =>
               let new_account_cost := saturating_sub c cost in
               if new_account_cost =? 0 then delete key m else <[key := new_account_cost]> m
             | None => m
             end in
    roll_back_keys m cost keys
  end.
Definition roll_back_applied_costs (m : gmap Pubkey Z) (tx_cost : TransactionCost) (cost : Z)
    (num_applied : nat) : gmap Pubkey Z :=
  roll_back_keys m cost (take num_applied (writable_accounts tx_cost)).

(** The account loop of [try_add]: the costliest account, or the index that fails. *)
Fixpoint apply_costs (limit cost : Z) (keys : list Pubkey) (index : nat)
    (m : gmap Pubkey Z) (costliest : Z) : gmap Pubkey Z * (Z + nat) :=
  match keys with
  | [] => (m, inl costliest)
  | key :: keys =>
    match m !! key with
    | Some c =>
      let new_account_cost := sat_add c cost in
      if limit <? new_account_cost then (m, inr index)
      else apply_costs limit cost keys (S index) (<[key := new_account_cost]> m)
             (Z.max costliest new_account_cost)
    | None =>
      apply_costs limit cost keys (S index) (<[key := cost]> m) (Z.max costliest cost)
    end
  end.

(** [Result] as a sum: [inl] is [Ok], [inr] is [Err]. *)
Definition try_add (self : CostTracker) (tx_cost : TransactionCost)
    : (UpdatedCosts + CostTrackerError) * CostTracker :=
  let cost := sum tx_cost in
  if block_cost_limit (limits self) <? sat_add (block_cost self) cost
  then (inr WouldExceedBlockMaxLimit, self)
  else if account_cost (limits self) <? cost then (inr WouldExceedAccountMaxLimit, self)
  else
    let allocated := sat_add (allocated_size self) (allocated_accounts_data_size tx_cost) in
    if allocated_data_size (limits self) <? allocated
    then (inr WouldExceedAccountDataBlockLimit, self)
    else
      match apply_costs (account_cost (limits self)) cost (writable_accounts tx_cost) 0
              (cost_by_writable_accounts self) 0 with
      | (m, inr index) =>
        (inr WouldExceedAccountMaxLimit,
         with_costs self (roll_back_applied_costs m tx_cost cost index) (block_cost self))
      | (m, inl costliest) =>
        let d := signature_details (transaction tx_cost) in
        let self := {|
          limits := limits self; cost_by_writable_accounts := m;
          block_cost := fetch_add (block_cost self) cost;
          transaction_count := sat_add (transaction_count self) 1;
          allocated_size := allocated;
          transaction_signature_count :=
            sat_add (transaction_signature_count self) (num_transaction_signatures d);
          secp256k1_instruction_signature_count :=
            sat_add (secp256k1_instruction_signature_count self)
              (num_secp256k1_instruction_signatures d);
          ed25519_instruction_signature_count :=
            sat_add (ed25519_instruction_signature_count self)
              (num_ed25519_instruction_signatures d);
          in_flight_transaction_count := in_flight_transaction_count self;
          secp256r1_instruction_signature_count :=
            sat_add (secp256r1_instruction_signature_count self)
              (num_secp256r1_instruction_signatures d) |} in
        (inl {| updated_block_cost := block_cost self;
               updated_costliest_account_cost := costliest |}, self)
      end.

(** [*entry(key).or_insert(0) = f(..)] for every key. *)
Fixpoint adjust_keys (f : Z -> Z) (keys : list Pubkey) (m : gmap Pubkey Z) : gmap Pubkey Z :=
  match keys with
  | [] => m
  | key :: keys => adjust_keys f keys (<[key := f (default 0 (m !! key))]> m)
  end.

Definition add_transaction_execution_cost (self : CostTracker) (tx_cost : TransactionCost)
    (adjustment : Z) : CostTracker :=
  with_costs self
    (adjust_keys (fun c => sat_add c adjustment) (writable_accounts tx_cost)
       (cost_by_writable_accounts self))
    (fetch_add (block_cost self) adjustment).

Definition sub_transaction_execution_cost (self : CostTracker) (tx_cost : TransactionCost)
    (adjustment : Z) : CostTracker :=
  with_costs self
    (adjust_keys (fun c => saturating_sub c adjustment) (writable_accounts tx_cost)
       (cost_by_writable_accounts self))
    (fetch_sub (block_cost self) adjustment).

Definition update_execution_cost (self : CostTracker) (estimated_tx_cost : TransactionCost)
    (actual_execution_units actual_loaded_accounts_data_size_cost : Z) : CostTracker :=
  let actual := sat_add actual_execution_units actual_loaded_accounts_data_size_cost in
  let estimated := sat_add (programs_execution_cost estimated_tx_cost)
                     (loaded_accounts_data_size_cost estimated_tx_cost) in
  match actual ?= estimated with
  | Eq => self
  | Gt => add_transaction_execution_cost self estimated_tx_cost (actual - estimated)
  | Lt => sub_transaction_execution_cost self estimated_tx_cost (estimated - actual)
  end.

Definition remove_transaction_cost (self : CostTracker) (tx_cost : TransactionCost) : CostTracker :=
  let cost := sum tx_cost in
  let self := sub_transaction_execution_cost self tx_cost cost in
  let d := signature_details (transaction tx_cost) in
  {| limits := limits self; cost_by_writable_accounts := cost_by_writable_accounts self;
     block_cost := block_cost self;
     transaction_count := saturating_sub (transaction_count self) 1;
     allocated_size :=
       saturating_sub (allocated_size self) (allocated_accounts_data_size tx_cost);
     transaction_signature_count :=
       saturating_sub (transaction_signature_count self) (num_transaction_signatures d);
     secp256k1_instruction_signature_count :=
       saturating_sub (secp256k1_instruction_signature_count self)
         (num_secp256k1_instruction_signatures d);
     ed25519_instruction_signature_count :=
       saturating_sub (ed25519_instruction_signature_count self)
         (num_ed25519_instruction_signatures d);
     in_flight_transaction_count := in_flight_transaction_count self;
     secp256r1_instruction_signature_count :=
       saturating_sub (secp256r1_instruction_signature_count self)
         (num_secp256r1_instruction_signatures d) |}.
Definition remove (self : CostTracker) (tx_cost : TransactionCost) : CostTracker :=
  remove_transaction_cost self tx_cost.

Definition find_number_of_contended_accounts (self : CostTracker) : nat :=
  let contended_cost_mark := sat_mul (account_cost (limits self)) 95 / 100 in
  size (filter (fun p => contended_cost_mark <= p.2) (cost_by_writable_accounts self)).
Definition number_of_accounts (self : CostTracker) : nat :=
  size (filter (fun p => 0 < p.2) (cost_by_writable_accounts self)).
