(* ===== verification/CostTrackerProofs.v ===== *)
(** * Correctness of the cost tracker

    The tracker is the ledger of the transactions added to the block: its costs and
    counters are sums over them, a failed addition changes nothing observable, and
    successful ones keep within the limits. *)

From S2P Require Import Prelude CostModel CostTracker.
Local Open Scope Z_scope.

(** ** Equivalence of trackers: an account at cost zero is as good as absent *)

Definition acct (m : gmap Pubkey Z) (k : Pubkey) : Z := default 0 (m !! k).

Record tracker_equiv (T T' : CostTracker) : Prop := {
  eq_limits : limits T = limits T';
  eq_acct k : acct (cost_by_writable_accounts T) k = acct (cost_by_writable_accounts T') k;
  eq_block : block_cost T = block_cost T';
  eq_count : transaction_count T = transaction_count T';
  eq_alloc : allocated_size T = allocated_size T';
  eq_sigs : transaction_signature_count T = transaction_signature_count T';
  eq_k1 : secp256k1_instruction_signature_count T = secp256k1_instruction_signature_count T';
  eq_ed : ed25519_instruction_signature_count T = ed25519_instruction_signature_count T';
  eq_flight : in_flight_transaction_count T = in_flight_transaction_count T';
  eq_r1 : secp256r1_instruction_signature_count T = secp256r1_instruction_signature_count T'
}.
#[export] Instance tracker_Equiv : Equiv CostTracker := tracker_equiv.
#[export] Instance tracker_Equivalence : Equivalence (≡@{CostTracker}).
Proof.
  split.
  - intros T. by split.
  - intros T T' []. by split.
  - intros T1 T2 T3 [] []. split; etrans; eauto.
Qed.

(** Every account cost is a [u64]. *)
Definition map_ok (m : gmap Pubkey Z) : Prop := map_Forall (fun _ c => 0 <= c <= u64_max) m.

Lemma acct_range m k : map_ok m -> 0 <= acct m k <= u64_max.
Proof.
  intros H. unfold acct. destruct (m !! k) as [c|] eqn:Hk; simpl.
  - exact (H k c Hk).
  - unfold u64_max. lia.
Qed.

Lemma acct_insert m k c k' : acct (<[k := c]> m) k' = if bool_decide (k = k') then c else acct m k'.
Proof.
  unfold acct. case_bool_decide; [subst; by rewrite lookup_insert_eq|by rewrite lookup_insert_ne].
Qed.

Lemma acct_delete m k k' : acct (delete k m) k' = if bool_decide (k = k') then 0 else acct m k'.
Proof.
  unfold acct. case_bool_decide; [subst; by rewrite lookup_delete_eq|by rewrite lookup_delete_ne].
Qed.

(** ** The account loop of [try_add] and its rollback *)

(** Both branches of the loop add [cost] to the account. *)
Lemma apply_costs_cons limit cost key keys index m best :
  0 <= cost <= limit -> limit <= u64_max -> map_ok m ->
  apply_costs limit cost (key :: keys) index m best =
  if limit <? sat_add (acct m key) cost then (m, inr index)
  else apply_costs limit cost keys (S index) (<[key := sat_add (acct m key) cost]> m)
         (Z.max best (sat_add (acct m key) cost)).
Proof.
  intros Hc Hl Hm. unfold acct. simpl. destruct (m !! key) as [c|] eqn:Hk; [done|]. simpl.
  assert (sat_add 0 cost = cost) as -> by (unfold saturating_add; lia).
  by destruct (Z.ltb_spec limit cost); [lia|].
Qed.

Lemma map_ok_insert m k c : map_ok m -> 0 <= c <= u64_max -> map_ok (<[k := c]> m).
Proof. intros. by apply map_Forall_insert_2. Qed.

Record applied (cost : Z) (keys : list Pubkey) (m m' : gmap Pubkey Z) : Prop := {
  applied_ok : map_ok m';
  applied_acct k : acct m' k = acct m k + cost * occ k keys
}.

Lemma apply_costs_spec limit cost keys index m best :
  0 <= cost <= limit -> limit <= u64_max -> map_ok m ->
  limit < u64_max \/ (forall k, acct m k + cost * occ k keys <= u64_max) ->
  match apply_costs limit cost keys index m best with
  | (m', inl best') => applied cost keys m m' /\ forall k, k ∈ keys -> acct m' k <= limit
  | (m', inr j) => exists p key rest, keys = p ++ key :: rest /\ j = (index + length p)%nat /\
      applied cost p m m' /\ limit < acct m' key + cost
  end.
Proof.
  intros Hc Hl. revert index m best.
  induction keys as [|key keys IH]; intros index m best Hm Hsat.
  - simpl. split; [|by intros k ?%not_elem_of_nil]. split; [done|]. intros. simpl. lia.
  - rewrite apply_costs_cons by done. pose proof (acct_range m key Hm) as Hr.
    destruct (Z.ltb_spec limit (sat_add (acct m key) cost)) as [Hgt|Hle].
    + exists [], key, keys. simpl. split_and!; [done|lia| |unfold saturating_add in Hgt; lia].
      split; [done|]. intros. simpl. lia.
    + assert (sat_add (acct m key) cost = acct m key + cost) as Heq.
      { unfold saturating_add in *. destruct Hsat as [Hlt|Hs]; [lia|]. specialize (Hs key).
        simpl in Hs. rewrite bool_decide_eq_true_2 in Hs by done.
        pose proof (occ_nonneg key keys). nia. }
      rewrite Heq in *. set (m1 := <[key := acct m key + cost]> m).
      assert (forall k, acct m1 k = acct m k + (if bool_decide (key = k) then cost else 0)) as Hm1.
      { intros k. unfold m1. rewrite acct_insert. case_bool_decide; subst; lia. }
      assert (map_ok m1) as Hok1 by (apply map_ok_insert; [done|lia]).
      specialize (IH (S index) m1 (Z.max best (acct m key + cost)) Hok1).
      destruct (apply_costs _ _ _ _ _ _) as [m' [best'|j]].
      * destruct IH as [[Hok' Ha] Hb].
        { destruct Hsat as [|Hs]; [by left|right]. intros k. rewrite Hm1. specialize (Hs k).
          simpl in Hs. case_bool_decide; lia. }
        assert (forall k, acct m' k = acct m k + cost * occ k (key :: keys)) as Ha'.
        { intros k. rewrite Ha, Hm1. simpl. case_bool_decide; lia. }
        split; [by split|]. intros k [->|Hk]%elem_of_cons; [|by apply Hb].
        destruct (decide (key ∈ keys)) as [Hin|Hni]; [by apply Hb|].
        rewrite Ha, Hm1, bool_decide_eq_true_2 by done.
        assert (occ key keys = 0) as ->; [|lia]. pose proof (occ_nonneg key keys).
        destruct (decide (0 < occ key keys)) as [Hp%occ_pos|]; [done|lia].
      * destruct IH as (p & key' & rest & -> & -> & [Hok' Ha] & Hgt).
        { destruct Hsat as [|Hs]; [by left|right]. intros k. rewrite Hm1. specialize (Hs k).
          simpl in Hs. case_bool_decide; lia. }
        exists (key :: p), key', rest. split_and!; [done|simpl; lia| |done].
        split; [done|]. intros k. rewrite Ha, Hm1. simpl. case_bool_decide; lia.
Qed.

(** An unlimited account cost saturates instead of failing. *)
Lemma apply_costs_max cost keys index m best :
  exists m' best', apply_costs u64_max cost keys index m best = (m', inl best').
Proof.
  revert index m best. induction keys as [|key keys IH]; intros index m best; simpl; [eauto|].
  destruct (m !! key) as [c|]; [|apply IH].
  destruct (Z.ltb_spec u64_max (sat_add c cost)); [|apply IH]. unfold saturating_add in *. lia.
Qed.

Lemma roll_back_keys_spec cost keys m :
  0 <= cost -> map_ok m -> (forall k, cost * occ k keys <= acct m k) ->
  map_ok (roll_back_keys m cost keys) /\
  forall k, acct (roll_back_keys m cost keys) k = acct m k - cost * occ k keys.
Proof.
  intros Hc. revert m. induction keys as [|key keys IH]; intros m Hm Hle.
  { split; [done|]. intros. simpl. lia. }
  cbn [roll_back_keys]. set (m1 := match m !! key with Some _ => _ | None => _ end).
  pose proof (acct_range m key Hm) as Hr.
  assert (cost <= acct m key) as Hk.
  { specialize (Hle key). simpl in Hle. rewrite bool_decide_eq_true_2 in Hle by done.
    pose proof (occ_nonneg key keys). nia. }
  assert (map_ok m1 /\ forall k, acct m1 k = acct m k - (if bool_decide (key = k) then cost else 0))
    as [Hok1 Hm1].
  { unfold m1, acct in *. destruct (m !! key) as [c|] eqn:Hkey; simpl in *.
    - assert (saturating_sub c cost = c - cost) as -> by (unfold saturating_sub; lia).
      destruct (Z.eqb_spec (c - cost) 0).
      + split; [by apply map_Forall_delete|]. intros k. fold (acct (delete key m) k).
        rewrite acct_delete. case_bool_decide; [subst; rewrite Hkey; simpl; lia|unfold acct; lia].
      + split; [apply map_ok_insert; [done|lia]|]. intros k. fold (acct (<[key := c - cost]> m) k).
        rewrite acct_insert. case_bool_decide; [subst; rewrite Hkey; done|unfold acct; lia].
    - split; [done|]. intros k. case_bool_decide; [subst; rewrite Hkey; simpl; lia|lia]. }
  destruct (IH m1 Hok1) as [Hok Ha].
  - intros k. rewrite Hm1. specialize (Hle k). simpl in Hle. case_bool_decide; lia.
  - split; [done|]. intros k. rewrite Ha, Hm1. simpl. case_bool_decide; lia.
Qed.

Lemma adjust_keys_spec (d : Z) (f : Z -> Z) keys m :
  map_ok m ->
  (forall k, k ∈ keys -> 0 <= acct m k + d * occ k keys <= u64_max) ->
  (forall c, 0 <= c + d <= u64_max -> 0 <= c <= u64_max -> f c = c + d) ->
  map_ok (adjust_keys f keys m) /\
  forall k, acct (adjust_keys f keys m) k = acct m k + d * occ k keys.
Proof.
  intros Hm Hr Hf. revert m Hm Hr. induction keys as [|key keys IH]; intros m Hm Hr.
  { split; [done|]. intros. simpl. lia. }
  cbn [adjust_keys]. fold (acct m key). pose proof (acct_range m key Hm) as Hk.
  assert (0 <= acct m key + d <= u64_max) as Hk'.
  { specialize (Hr key (list_elem_of_here _ _)). simpl in Hr.
    rewrite bool_decide_eq_true_2 in Hr by done. pose proof (occ_nonneg key keys). nia. }
  rewrite Hf by done. set (m1 := <[key := acct m key + d]> m).
  assert (forall k, acct m1 k = acct m k + (if bool_decide (key = k) then d else 0)) as Hm1.
  { intros k. unfold m1. rewrite acct_insert. case_bool_decide; subst; lia. }
  destruct (IH m1) as [Hok Ha].
  - by apply map_ok_insert.
  - intros k Hin. rewrite Hm1. specialize (Hr k (list_elem_of_further _ _ _ Hin)). simpl in Hr.
    case_bool_decide; lia.
  - split; [done|]. intros k. rewrite Ha, Hm1. simpl. case_bool_decide; lia.
Qed.

(** ** The ledger: the transactions in the block, each with its current cost *)

(** The saturating counters, uniformly. *)
Inductive counter := Count | Alloc | Sigs | K1 | Ed | R1.
#[export] Instance counter_eq_dec : EqDecision counter.
Proof. solve_decision. Defined.

Definition tctr (c : counter) (T : CostTracker) : Z :=
  match c with
  | Count => transaction_count T
  | Alloc => allocated_size T
  | Sigs => transaction_signature_count T
  | K1 => secp256k1_instruction_signature_count T
  | Ed => ed25519_instruction_signature_count T
  | R1 => secp256r1_instruction_signature_count T
  end.

Definition xctr (c : counter) (x : TransactionCost) : Z :=
  let d := signature_details (transaction x) in
  match c with
  | Count => 1
  | Alloc => allocated_accounts_data_size x
  | Sigs => num_transaction_signatures d
  | K1 => num_secp256k1_instruction_signatures d
  | Ed => num_ed25519_instruction_signatures d
  | R1 => num_secp256r1_instruction_signatures d
  end.

(** A cost whose components are unsigned and whose sum does not saturate, of a
    transaction with distinct account keys. *)
Record cost_ok (x : TransactionCost) : Prop := {
  cost_sig : 0 <= signature_cost x;
  cost_lock : 0 <= write_lock_cost x;
  cost_data : 0 <= data_bytes_cost x;
  cost_exec : 0 <= programs_execution_cost x;
  cost_loaded : 0 <= loaded_accounts_data_size_cost x;
  cost_total : signature_cost x + write_lock_cost x + data_bytes_cost x
    + programs_execution_cost x + loaded_accounts_data_size_cost x <= u64_max;
  cost_keys : NoDup (writable_accounts x);
  cost_ctr c : 0 <= xctr c x
}.

Lemma cost_ok_sum x :
  cost_ok x ->
  sum x = signature_cost x + write_lock_cost x + data_bytes_cost x
          + programs_execution_cost x + loaded_accounts_data_size_cost x /\
  0 <= sum x <= u64_max.
Proof. intros [? ? ? ? ? ? _ _]. unfold sum, saturating_add. lia. Qed.

Abbreviation entry := (TransactionCost * Z)%type.

Definition block_sum (l : list entry) : Z := foldr (fun e acc => e.2 + acc) 0 l.
Definition acct_sum (k : Pubkey) (l : list entry) : Z :=
  foldr (fun e acc => e.2 * occ k (writable_accounts e.1) + acc) 0 l.
Definition ctr_sum (c : counter) (l : list entry) : Z :=
  foldr (fun e acc => xctr c e.1 + acc) 0 l.

#[export] Instance block_sum_proper : Proper ((≡ₚ) ==> eq) block_sum.
Proof. induction 1; simpl; lia. Qed.
#[export] Instance acct_sum_proper k : Proper ((≡ₚ) ==> eq) (acct_sum k).
Proof. induction 1; simpl; lia. Qed.
#[export] Instance ctr_sum_proper c : Proper ((≡ₚ) ==> eq) (ctr_sum c).
Proof. induction 1; simpl; lia. Qed.

Lemma block_sum_app l1 l2 : block_sum (l1 ++ l2) = block_sum l1 + block_sum l2.
Proof. induction l1; simpl; lia. Qed.
Lemma acct_sum_app k l1 l2 : acct_sum k (l1 ++ l2) = acct_sum k l1 + acct_sum k l2.
Proof. induction l1; simpl; lia. Qed.
Lemma ctr_sum_app c l1 l2 : ctr_sum c (l1 ++ l2) = ctr_sum c l1 + ctr_sum c l2.
Proof. induction l1; simpl; lia. Qed.

(** The entries are well formed and their sums fit in 64 bits. *)
Record fits (l : list entry) : Prop := {
  fits_entries e : e ∈ l -> cost_ok e.1 /\ 0 <= e.2;
  fits_block : block_sum l <= u64_max;
  fits_ctr c : ctr_sum c l <= u64_max
}.

Record ledger (T : CostTracker) (l : list entry) : Prop := {
  ledger_fits : fits l;
  ledger_map : map_ok (cost_by_writable_accounts T);
  ledger_block : block_cost T = block_sum l;
  ledger_acct k : acct (cost_by_writable_accounts T) k = acct_sum k l;
  ledger_ctr c : tctr c T = ctr_sum c l
}.

Lemma sums_nonneg l :
  (forall e, e ∈ l -> cost_ok e.1 /\ 0 <= e.2) ->
  0 <= block_sum l /\ (forall c, 0 <= ctr_sum c l) /\
  forall k, 0 <= acct_sum k l <= block_sum l.
Proof.
  induction l as [|[x v] l IH]; intros Hok; [simpl; split_and!; [lia|done|intros; lia]|].
  destruct (Hok (x, v) (list_elem_of_here _ _)) as [Hx Hv]. simpl in Hx, Hv.
  destruct IH as (IHb & IHc & IHa); [intros e He; apply Hok; by right|].
  simpl. split_and!; [lia| |].
  - intros c. pose proof (cost_ctr x Hx c). specialize (IHc c). lia.
  - intros k. specialize (IHa k). pose proof (occ_NoDup k _ (cost_keys x Hx)).
    pose proof (occ_nonneg k (writable_accounts x)). nia.
Qed.

Lemma fits_nonneg l : fits l ->
  0 <= block_sum l /\ (forall c, 0 <= ctr_sum c l) /\ forall k, 0 <= acct_sum k l <= block_sum l.
Proof. intros [H _ _]. by apply sums_nonneg. Qed.

Lemma fits_sublist l1 l2 l3 : fits (l1 ++ l2 ++ l3) -> fits (l1 ++ l3).
Proof.
  intros [He Hb Hc].
  assert (forall e, e ∈ l2 -> cost_ok e.1 /\ 0 <= e.2) as H2.
  { intros e Hin. apply He. rewrite !elem_of_app. auto. }
  destruct (sums_nonneg l2 H2) as (Hb2 & Hc2 & _). split.
  - intros e Hin. apply He. rewrite elem_of_app in Hin. rewrite !elem_of_app. tauto.
  - rewrite !block_sum_app in Hb. rewrite block_sum_app. lia.
  - intros c. specialize (Hc c). specialize (Hc2 c). rewrite !ctr_sum_app in Hc.
    rewrite ctr_sum_app. lia.
Qed.

(** Two trackers with the same ledger, limits and in-flight count are equivalent. *)
Lemma ledger_equiv T T' l :
  ledger T l -> ledger T' l -> limits T = limits T' ->
  in_flight_transaction_count T = in_flight_transaction_count T' -> T ≡ T'.
Proof.
  intros [_ _ Hb Ha Hc] [_ _ Hb' Ha' Hc'] Hl Hf. split; try done.
  - intros k. by rewrite Ha, Ha'.
  - by rewrite Hb, Hb'.
  - exact (eq_trans (Hc Count) (eq_sym (Hc' Count))).
  - exact (eq_trans (Hc Alloc) (eq_sym (Hc' Alloc))).
  - exact (eq_trans (Hc Sigs) (eq_sym (Hc' Sigs))).
  - exact (eq_trans (Hc K1) (eq_sym (Hc' K1))).
  - exact (eq_trans (Hc Ed) (eq_sym (Hc' Ed))).
  - exact (eq_trans (Hc R1) (eq_sym (Hc' R1))).
Qed.

Lemma ledger_perm T l l' : l ≡ₚ l' -> ledger T l -> ledger T l'.
Proof.
  intros Hp [[He Hb Hc] Hm Hbl Ha Hct].
  split; [split|..]; [| | |done|by rewrite <-Hp| |].
  - intros e Hin. apply He. by rewrite Hp.
  - by rewrite <-Hp.
  - intros c. by rewrite <-Hp.
  - intros k. by rewrite <-Hp.
  - intros c. by rewrite <-Hp.
Qed.

(** ** Adding a transaction *)

(** A failed addition changes nothing observable. *)
Lemma try_add_Err T x e T' :
  map_ok (cost_by_writable_accounts T) -> 0 <= sum x -> account_cost (limits T) <= u64_max ->
  try_add T x = (inr e, T') -> T' ≡ T /\ map_ok (cost_by_writable_accounts T').
Proof.
  intros Hm Hs Hl. unfold try_add.
  destruct (_ <? _); [by intros [= _ <-]|].
  destruct (Z.ltb_spec (account_cost (limits T)) (sum x)) as [|Hle]; [by intros [= _ <-]|].
  destruct (_ <? _); [by intros [= _ <-]|].
  destruct (decide (account_cost (limits T) < u64_max)) as [Hlt|Hmax].
  - pose proof (apply_costs_spec (account_cost (limits T)) (sum x) (writable_accounts x) 0
      (cost_by_writable_accounts T) 0 ltac:(lia) Hl Hm (or_introl Hlt)) as H.
    destruct (apply_costs _ _ _ _ _ _) as [m [best|j]]; [done|].
    destruct H as (p & key & rest & Heq & -> & [Hok Ha] & _). intros [= _ <-].
    unfold roll_back_applied_costs. rewrite Heq. simpl. rewrite take_app_length.
    destruct (roll_back_keys_spec (sum x) p m Hs Hok) as [Hok' Ha'].
    { intros k. rewrite Ha. pose proof (acct_range _ k Hm). lia. }
    split; [|done]. split; try done. intros k. simpl. rewrite Ha', Ha. lia.
  - assert (account_cost (limits T) = u64_max) as -> by lia.
    destruct (apply_costs_max (sum x) (writable_accounts x) 0 (cost_by_writable_accounts T) 0)
      as (m & best & ->). done.
Qed.

(** The limits hold after adding [x] to a block with ledger [l]. *)
Record within_limits (lim : CostTrackerLimits) (x : TransactionCost) (l : list entry) : Prop := {
  within_block : block_sum l + sum x <= block_cost_limit lim;
  within_tx : sum x <= account_cost lim;
  within_alloc : ctr_sum Alloc l + allocated_accounts_data_size x <= allocated_data_size lim;
  within_acct k : k ∈ writable_accounts x -> acct_sum k l + sum x <= account_cost lim
}.

(** Why an addition is refused. *)
Definition exceeds (lim : CostTrackerLimits) (x : TransactionCost) (l : list entry)
    (e : CostTrackerError) : Prop :=
  match e with
  | WouldExceedBlockMaxLimit => block_cost_limit lim < block_sum l + sum x
  | WouldExceedAccountMaxLimit =>
    account_cost lim < sum x \/
    exists k, k ∈ writable_accounts x /\ account_cost lim < acct_sum k l + sum x
  | WouldExceedAccountDataBlockLimit =>
    allocated_data_size lim < ctr_sum Alloc l + allocated_accounts_data_size x
  | WouldExceedAccountDataTotalLimit => False
  end.

(** Limits are [u64]s. *)
Definition limits_ok (lim : CostTrackerLimits) : Prop :=
  is_u u64_max (account_cost lim) /\ is_u u64_max (block_cost_limit lim) /\
  is_u u64_max (allocated_data_size lim).

Lemma occ_elem_one k x : cost_ok x -> k ∈ writable_accounts x -> occ k (writable_accounts x) = 1.
Proof.
  intros Hx Hk%occ_pos. pose proof (occ_NoDup k _ (cost_keys x Hx)). lia.
Qed.

(** Adding a transaction that fits: exactly when the limits allow it. *)
Lemma try_add_spec T l x :
  ledger T l -> cost_ok x -> fits ((x, sum x) :: l) -> limits_ok (limits T) ->
  match try_add T x with
  | (inl u, T') => ledger T' ((x, sum x) :: l) /\ within_limits (limits T) x l /\
      limits T' = limits T /\ in_flight_transaction_count T' = in_flight_transaction_count T /\
      updated_block_cost u = block_cost T'
  | (inr e, T') => exceeds (limits T) x l e
  end.
Proof.
  intros [Hfl Hm Hb Ha Hc] Hx Hf (Hla & Hlb & Hld). pose proof (cost_ok_sum x Hx) as [_ Hs].
  pose proof (fits_block _ Hf) as Fb. pose proof (fits_ctr _ Hf) as Fc. simpl in Fb, Fc.
  destruct (fits_nonneg _ Hfl) as (Nb & Nc & Na).
  unfold try_add, is_u in *.
  assert (sat_add (block_cost T) (sum x) = block_sum l + sum x) as ->
    by (rewrite Hb; unfold saturating_add; lia).
  destruct (Z.ltb_spec (block_cost_limit (limits T)) (block_sum l + sum x)) as [|Hbl];
    [done|].
  destruct (Z.ltb_spec (account_cost (limits T)) (sum x)) as [|Htx]; [by left|].
  pose proof (Hc Alloc) as Hca. simpl in Hca. pose proof (Fc Alloc) as Fca. simpl in Fca.
  assert (sat_add (allocated_size T) (allocated_accounts_data_size x) =
          ctr_sum Alloc l + allocated_accounts_data_size x) as Hal.
  { rewrite Hca. unfold saturating_add. lia. }
  rewrite Hal.
  destruct (Z.ltb_spec (allocated_data_size (limits T))
              (ctr_sum Alloc l + allocated_accounts_data_size x)) as [|Hd]; [done|].
  assert (forall k, acct (cost_by_writable_accounts T) k + sum x * occ k (writable_accounts x)
                    <= u64_max) as Hov.
  { intros k. rewrite Ha. specialize (Na k). pose proof (occ_NoDup k _ (cost_keys x Hx)).
    pose proof (occ_nonneg k (writable_accounts x)). nia. }
  pose proof (apply_costs_spec (account_cost (limits T)) (sum x) (writable_accounts x) 0
    (cost_by_writable_accounts T) 0 ltac:(lia) ltac:(lia) Hm (or_intror Hov)) as H.
  destruct (apply_costs _ _ _ _ _ _) as [m [best|j]].
  - destruct H as [[Hok Hm'] Hlim].
    assert (forall k, acct m k = acct_sum k l + sum x * occ k (writable_accounts x)) as Hacct
      by (intros k; by rewrite Hm', Ha).
    split_and!; try done.
    + split; simpl; [done|done|..].
      * unfold fetch_add, wrapping_add. rewrite Hb, Z.mod_small by lia. lia.
      * intros k. rewrite Hacct. lia.
      * intros c. specialize (Hc c). specialize (Fc c). specialize (Nc c).
        pose proof (cost_ctr x Hx c).
        destruct c; simpl in *; rewrite ?Hal, ?Hc; unfold saturating_add; lia.
    + split; [done|done|done|]. intros k Hk. specialize (Hlim k Hk).
      rewrite Hacct, occ_elem_one in Hlim by done. lia.
  - destruct H as (p & key & rest & Hkeys & -> & [_ Hm'] & Hgt). right. exists key.
    assert (key ∈ writable_accounts x) as Hin by (rewrite Hkeys, elem_of_app; right; by left).
    split; [done|]. pose proof (cost_keys x Hx) as Hnd. rewrite Hkeys in Hnd.
    apply NoDup_app in Hnd as (_ & Hnp & _).
    assert (occ key p = 0) as Hz.
    { pose proof (occ_nonneg key p). destruct (decide (0 < occ key p)) as [Hp%occ_pos|]; [|lia].
      destruct (Hnp key Hp). by left. }
    rewrite Hm', Hz, Ha in Hgt. lia.
Qed.

(** ** Giving a cost back, and correcting it *)

Lemma sub_ledger_map T x v d l :
  ledger T ((x, v) :: l) -> 0 <= d <= v ->
  let T' := sub_transaction_execution_cost T x d in
  map_ok (cost_by_writable_accounts T') /\
  block_cost T' = block_sum ((x, v - d) :: l) /\
  forall k, acct (cost_by_writable_accounts T') k = acct_sum k ((x, v - d) :: l).
Proof.
  intros [Hf Hm Hb Ha _] Hd. destruct (fits_nonneg _ Hf) as (_ & _ & Na).
  pose proof (fits_entries _ Hf (x, v) (list_elem_of_here _ _)) as [Hx _]. simpl in Hx.
  pose proof (fits_block _ Hf) as Fb.
  assert (forall e, e ∈ l -> cost_ok e.1 /\ 0 <= e.2) as Hl
    by (intros e He; apply (fits_entries _ Hf); by right).
  destruct (sums_nonneg l Hl) as (Nb & _ & Nal). simpl in *.
  destruct (adjust_keys_spec (- d) (fun c => saturating_sub c d) (writable_accounts x)
    (cost_by_writable_accounts T) Hm) as [Hok Ha'].
  - intros k _. rewrite Ha. specialize (Na k). specialize (Nal k).
    pose proof (occ_NoDup k _ (cost_keys x Hx)). pose proof (occ_nonneg k (writable_accounts x)).
    nia.
  - intros c Hc1 Hc2. unfold saturating_sub. lia.
  - split_and!; [done| |].
    + unfold fetch_sub, wrapping_sub. rewrite Hb, Z.mod_small by lia. lia.
    + intros k. rewrite Ha', Ha. lia.
Qed.

Lemma add_ledger_map T x v d l :
  ledger T ((x, v) :: l) -> 0 <= d -> fits ((x, v + d) :: l) ->
  let T' := add_transaction_execution_cost T x d in
  map_ok (cost_by_writable_accounts T') /\
  block_cost T' = block_sum ((x, v + d) :: l) /\
  forall k, acct (cost_by_writable_accounts T') k = acct_sum k ((x, v + d) :: l).
Proof.
  intros [Hf Hm Hb Ha _] Hd Hf'. destruct (fits_nonneg _ Hf) as (Nb & _ & Na).
  destruct (fits_nonneg _ Hf') as (_ & _ & Na'). pose proof (fits_block _ Hf') as Fb.
  simpl in *.
  destruct (adjust_keys_spec d (fun c => sat_add c d) (writable_accounts x)
    (cost_by_writable_accounts T) Hm) as [Hok Ha'].
  - intros k _. rewrite Ha. specialize (Na k). specialize (Na' k). lia.
  - intros c Hc1 Hc2. unfold saturating_add. lia.
  - split_and!; [done| |].
    + unfold fetch_add, wrapping_add. rewrite Hb, Z.mod_small by lia. lia.
    + intros k. rewrite Ha', Ha. lia.
Qed.

Lemma fits_tail e l : fits (e :: l) -> fits l.
Proof. intros H. apply (fits_sublist [] [e] l H). Qed.

Lemma remove_ledger T x l : ledger T ((x, sum x) :: l) -> ledger (remove T x) l.
Proof.
  intros HT. pose proof HT as [Hf _ _ _ Hc].
  pose proof (fits_entries _ Hf (x, sum x) (list_elem_of_here _ _)) as [Hx Hs]. simpl in Hx, Hs.
  destruct (sub_ledger_map T x (sum x) (sum x) l HT ltac:(lia)) as (Hm & Hb & Ha).
  pose proof (fits_tail _ _ Hf) as Hf'. destruct (fits_nonneg _ Hf') as (_ & Nc & _).
  unfold remove, remove_transaction_cost. split; [done|done|..].
  - etrans; [exact Hb|]. simpl. lia.
  - intros k. etrans; [exact (Ha k)|]. simpl. lia.
  - intros c. specialize (Hc c). specialize (Nc c). pose proof (cost_ctr x Hx c).
    destruct c; simpl in *; rewrite Hc; unfold saturating_sub; lia.
Qed.

(** The load and execution units of an estimate. *)
Definition estimated_units (x : TransactionCost) : Z :=
  sat_add (programs_execution_cost x) (loaded_accounts_data_size_cost x).

Lemma update_ledger T x l units loaded :
  ledger T ((x, sum x) :: l) ->
  let v := sum x - estimated_units x + sat_add units loaded in
  fits ((x, v) :: l) ->
  ledger (update_execution_cost T x units loaded) ((x, v) :: l) /\
  limits (update_execution_cost T x units loaded) = limits T.
Proof.
  intros HT v Hf. pose proof HT as [Hf0 _ _ _ Hc].
  pose proof (fits_entries _ Hf0 (x, sum x) (list_elem_of_here _ _)) as [Hx _]. simpl in Hx.
  pose proof (fits_entries _ Hf (x, v) (list_elem_of_here _ _)) as [_ Hv]. simpl in Hv.
  unfold update_execution_cost. fold (estimated_units x).
  destruct (Z.compare_spec (sat_add units loaded) (estimated_units x)) as [Heq|Hlt|Hgt].
  - unfold v. rewrite Heq, Z.sub_add. done.
  - destruct (sub_ledger_map T x (sum x) (estimated_units x - sat_add units loaded) l HT)
      as (Hm & Hb & Ha); [lia|]. split; [|done].
    replace (sum x - (estimated_units x - sat_add units loaded)) with v in Hb, Ha by lia.
    split; [done|done|done|done|]. intros c. specialize (Hc c). destruct c; exact Hc.
  - replace v with (sum x + (sat_add units loaded - estimated_units x)) in * by lia.
    destruct (add_ledger_map T x (sum x) (sat_add units loaded - estimated_units x) l HT)
      as (Hm & Hb & Ha); [lia|done|]. split; [|done].
    split; [done|done|done|done|]. intros c. specialize (Hc c). destruct c; exact Hc.
Qed.

(** ** Properties *)

Lemma try_add_refused T l x e T' :
  ledger T l -> cost_ok x -> limits_ok (limits T) -> try_add T x = (inr e, T') ->
  T' ≡ T /\ ledger T' l.
Proof.
  intros [Hfl Hm Hb Ha Hc] Hx (Hla & _ & _) He. unfold is_u in Hla.
  destruct (try_add_Err T x e T' Hm) as [Heq Hm']; [by apply cost_ok_sum|lia|done|].
  split; [done|]. destruct Heq. split; [done|done|congruence|congruence|].
  intros c. specialize (Hc c). destruct c; simpl in *; congruence.
Qed.

(** adding a transaction. On a tracker that is the ledger of the transactions [l],
    [try_add] succeeds exactly when the block, the transaction itself, the allocated data
    and every written account stay within the limits; the tracker is then the ledger of
    [l] with the transaction at its full cost. Otherwise it returns an error whose stated
    limit would indeed be exceeded, and leaves the tracker equivalent to what it was,
    the accounts charged before the failing one having been rolled back. *)
Theorem try_add_correct T l x :
  ledger T l -> cost_ok x -> fits ((x, sum x) :: l) -> limits_ok (limits T) ->
  match try_add T x with
  | (inl u, T') => ledger T' ((x, sum x) :: l) /\ within_limits (limits T) x l /\
      limits T' = limits T /\ updated_block_cost u = block_sum l + sum x
  | (inr e, T') => exceeds (limits T) x l e /\ T' ≡ T /\ ledger T' l
  end.
Proof.
  intros HT Hx Hf Hl. pose proof (try_add_spec T l x HT Hx Hf Hl) as H.
  destruct (try_add T x) as [[u|e] T'] eqn:He.
  - destruct H as (HT' & Hw & Hlim & _ & Hu). split_and!; [done|done|done|].
    rewrite Hu, (ledger_block _ _ HT'). simpl. lia.
  - split; [done|]. by eapply try_add_refused.
Qed.

(** ** No overflow

    The checks of [try_add] keep the sums in range, unless a limit is itself the
    greatest [u64]: a saturated sum then passes the check. *)

(** The part of a cost that its execution does not correct. *)
Definition fixed_cost (x : TransactionCost) : Z := sum x - estimated_units x.

(** A transaction and each of its signatures costs at least one unit. *)
Definition counted (x : TransactionCost) : Prop :=
  forall c, c <> Alloc -> xctr c x <= fixed_cost x.

(** What the check of a limit leaves open when the limit is the greatest [u64]. *)
Definition room (lim : CostTrackerLimits) (x : TransactionCost) (l : list entry) : Prop :=
  (block_cost_limit lim < u64_max \/ block_sum l + sum x <= u64_max) /\
  (allocated_data_size lim < u64_max \/
   ctr_sum Alloc l + allocated_accounts_data_size x <= u64_max).

Definition paid (l : list entry) : Prop :=
  forall e, e ∈ l -> counted e.1 /\ fixed_cost e.1 <= e.2.

Lemma paid_cons x v l : counted x -> fixed_cost x <= v -> paid l -> paid ((x, v) :: l).
Proof. by intros Hx Hv Hl e [->|He]%elem_of_cons; [|apply Hl]. Qed.

Lemma paid_ctr c l : paid l -> c <> Alloc -> ctr_sum c l <= block_sum l.
Proof.
  intros Hp Hc. induction l as [|[x v] l IH]; [done|]. simpl.
  destruct (Hp (x, v) (list_elem_of_here _ _)) as [Hx Hv]. specialize (Hx c Hc). simpl in *.
  assert (paid l) as Hl by (intros e He; apply Hp; by right). specialize (IH Hl). lia.
Qed.

Lemma estimated_le_sum x : cost_ok x -> 0 <= estimated_units x <= sum x.
Proof.
  intros Hx. destruct (cost_ok_sum x Hx) as [-> _]. destruct Hx.
  unfold estimated_units, saturating_add. lia.
Qed.

(** The counters other than the allocated data are covered by the block cost. *)
Lemma fits_paid x v l :
  fits l -> paid ((x, v) :: l) -> cost_ok x -> 0 <= v -> block_sum l + v <= u64_max ->
  ctr_sum Alloc l + allocated_accounts_data_size x <= u64_max -> fits ((x, v) :: l).
Proof.
  intros Hf Hp Hx Hv Hb Ha. split.
  - intros e [->|He]%elem_of_cons; [done|by apply (fits_entries _ Hf)].
  - simpl. lia.
  - intros c. destruct (decide (c = Alloc)) as [->|Hc]; [simpl; lia|].
    pose proof (paid_ctr c _ Hp Hc). simpl in *. lia.
Qed.

(** A sum that leaves 64 bits exceeds a limit below the greatest [u64]. *)
Lemma overflow_refused T l x :
  ledger T l -> cost_ok x -> room (limits T) x l ->
  u64_max < block_sum l + sum x \/
  u64_max < ctr_sum Alloc l + allocated_accounts_data_size x ->
  exists e, (try_add T x).1 = inr e /\ exceeds (limits T) x l e.
Proof.
  intros [_ _ Hb _ Hc] Hx [Hrb Hra] Ho. specialize (Hc Alloc). simpl in Hc.
  unfold try_add. rewrite Hb, Hc.
  destruct (Z.ltb_spec (block_cost_limit (limits T)) (sat_add (block_sum l) (sum x))) as [H|H];
    unfold saturating_add in H.
  { eexists. split; [done|]. simpl. lia. }
  destruct (Z.ltb_spec (account_cost (limits T)) (sum x)).
  { eexists. split; [done|]. by left. }
  destruct (Z.ltb_spec (allocated_data_size (limits T))
    (sat_add (ctr_sum Alloc l) (allocated_accounts_data_size x))) as [Hd|Hd];
    unfold saturating_add in Hd; [|lia].
  eexists. split; [done|]. simpl. lia.
Qed.

(** [try_add] decides the limits exactly. *)
Lemma try_add_exact T l x :
  ledger T l -> paid l -> cost_ok x -> counted x -> limits_ok (limits T) -> room (limits T) x l ->
  match try_add T x with
  | (inl u, T') => ledger T' ((x, sum x) :: l) /\ within_limits (limits T) x l /\
      limits T' = limits T
  | (inr e, T') => exceeds (limits T) x l e /\ T' ≡ T /\ ledger T' l
  end.
Proof.
  intros HT Hp Hx Hn Hl Hr. destruct (cost_ok_sum x Hx) as [_ Hs].
  pose proof (estimated_le_sum x Hx) as Hest.
  destruct (try_add T x) as [res T'] eqn:He.
  destruct (decide (block_sum l + sum x <= u64_max /\
    ctr_sum Alloc l + allocated_accounts_data_size x <= u64_max)) as [[Hb Ha]|Ho].
  - assert (fits ((x, sum x) :: l)) as Hf.
    { apply fits_paid; try done; [apply HT| |lia].
      apply paid_cons; [done|unfold fixed_cost; lia|done]. }
    pose proof (try_add_spec T l x HT Hx Hf Hl) as H. rewrite He in H.
    destruct res as [u|e]; [by destruct H as (H1 & H2 & H3 & _)|].
    split; [done|]. by apply (try_add_refused T l x e T').
  - destruct (overflow_refused T l x HT Hx Hr) as (e & He' & Hex); [lia|].
    rewrite He in He'. simpl in He'. subst res. split; [done|].
    by apply (try_add_refused T l x e T').
Qed.

Lemma within_not_exceeds lim x l e : within_limits lim x l -> ~ exceeds lim x l e.
Proof.
  intros [Wb Wt Wd Wa]. destruct e; simpl; [lia| |lia|by intros []].
  intros [H|(k & Hk & H)]; [lia|]. specialize (Wa k Hk). lia.
Qed.

(** ** The block as a state machine *)

(** What happens to the tracker of a block, with the transactions kept in it and their
    current costs. [over] allows executions that used more than was estimated for them;
    what they add to the block cost must not wrap around. *)
Inductive block_step (over : bool) : CostTracker * list entry -> CostTracker * list entry -> Prop :=
| block_add T l x u T' :
    cost_ok x -> counted x -> room (limits T) x l -> try_add T x = (inl u, T') ->
    block_step over (T, l) (T', (x, sum x) :: l)
| block_refuse T l x e T' :
    cost_ok x -> try_add T x = (inr e, T') -> block_step over (T, l) (T', l)
| block_update T l1 x l2 units loaded :
    is_u u64_max units -> is_u u64_max loaded ->
    let v := fixed_cost x + sat_add units loaded in
    v <= sum x \/ over = true /\ block_sum (l1 ++ l2) + v <= u64_max ->
    block_step over (T, l1 ++ (x, sum x) :: l2)
      (update_execution_cost T x units loaded, (x, v) :: l1 ++ l2)
| block_remove T l1 x l2 :
    block_step over (T, l1 ++ (x, sum x) :: l2) (remove T x, l1 ++ l2)
| block_flight T l n :
    block_step over (T, l) (add_transactions_in_flight T n, l)
| block_landed T l n :
    block_step over (T, l) (sub_transactions_in_flight T n, l).

(** The invariant of a block with limits [lim]. *)
Record block_inv (over : bool) (lim : CostTrackerLimits) (s : CostTracker * list entry) : Prop := {
  inv_ledger : ledger s.1 s.2;
  inv_limits : limits s.1 = lim;
  inv_paid : paid s.2;
  inv_alloc : ctr_sum Alloc s.2 <= allocated_data_size lim;
  inv_costs : over = false ->
    block_sum s.2 <= block_cost_limit lim /\ forall k, acct_sum k s.2 <= account_cost lim
}.

Lemma ledger_in_flight T n l : ledger T l -> ledger (set_in_flight T n) l.
Proof.
  intros [Hf Hm Hb Ha Hc]. by split.
Qed.

Lemma ledger_middle T l1 e l2 : ledger T (l1 ++ e :: l2) -> ledger T (e :: l1 ++ l2).
Proof. apply ledger_perm. symmetry. apply Permutation_middle. Qed.

(** The order of the transactions does not matter. *)
Lemma block_inv_middle over lim T l1 e l2 :
  block_inv over lim (T, l1 ++ e :: l2) -> block_inv over lim (T, e :: l1 ++ l2).
Proof.
  intros [HT Hl Hp Ha Hc]. cbn [fst snd] in *. pose proof (Permutation_middle l1 l2 e) as Hperm.
  split; cbn [fst snd]; [by apply ledger_middle|done| | |].
  - intros e' He. apply Hp. revert He. by rewrite Hperm.
  - by rewrite Hperm.
  - intros Ho. destruct (Hc Ho) as [Hb Hk]. split; [by rewrite Hperm|]. intros k. by rewrite Hperm.
Qed.

Lemma block_inv_add over lim T l x u T' :
  limits_ok lim -> block_inv over lim (T, l) -> cost_ok x -> counted x -> room (limits T) x l ->
  try_add T x = (inl u, T') -> block_inv over lim (T', (x, sum x) :: l).
Proof.
  intros Hok [HT <- Hp Ha Hc] Hx Hn Hr He. simpl in *.
  pose proof (try_add_exact T l x HT Hp Hx Hn Hok Hr) as H. rewrite He in H.
  destruct H as (HT' & [Wb _ Wd Wa] & Hlim). pose proof (estimated_le_sum x Hx).
  split; simpl; [done|done| |lia|].
  - apply paid_cons; [done|unfold fixed_cost; lia|done].
  - intros Ho. destruct (Hc Ho) as [Hb Hk]. split; [lia|]. intros k. specialize (Hk k).
    destruct (decide (k ∈ writable_accounts x)) as [Hin|Hin].
    + rewrite occ_elem_one by done. specialize (Wa k Hin). lia.
    + assert (occ k (writable_accounts x) = 0) as ->; [|lia].
      pose proof (occ_nonneg k (writable_accounts x)).
      destruct (decide (0 < occ k (writable_accounts x))) as [Hpos%occ_pos|]; [done|lia].
Qed.

Lemma block_inv_update over lim T x l units loaded :
  let v := fixed_cost x + sat_add units loaded in
  block_inv over lim (T, (x, sum x) :: l) -> is_u u64_max units -> is_u u64_max loaded ->
  v <= sum x \/ over = true /\ block_sum l + v <= u64_max ->
  block_inv over lim (update_execution_cost T x units loaded, (x, v) :: l).
Proof.
  intros v [HT <- Hp Ha Hc] Hu Hld Hv. simpl in *. pose proof (ledger_fits _ _ HT) as Hf.
  destruct (fits_entries _ Hf (x, sum x) (list_elem_of_here _ _)) as [Hx _].
  destruct (Hp (x, sum x) (list_elem_of_here _ _)) as [Hn _]. simpl in Hx, Hn.
  pose proof (estimated_le_sum x Hx) as Hest. pose proof (fits_block _ Hf) as Fb.
  pose proof (fits_ctr _ Hf Alloc) as Fa. simpl in Fb, Fa.
  assert (fixed_cost x <= v /\ 0 <= fixed_cost x) as [Hv1 Hv2].
  { unfold v, fixed_cost, is_u, saturating_add in *. lia. }
  assert (paid ((x, v) :: l)) as Hp'.
  { apply paid_cons; [done|done|]. intros e He. apply Hp. by right. }
  assert (fits ((x, v) :: l)) as Hf'.
  { apply fits_paid; [by eapply fits_tail|done|done|lia|lia|lia]. }
  destruct (update_ledger T x l units loaded HT Hf') as [HT' Hlim].
  split; simpl; [done|done|done|done|]. intros Ho. destruct Hv as [Hv|[Ho' _]]; [|congruence].
  destruct (Hc Ho) as [Hb Hk]. split; [lia|]. intros k. specialize (Hk k).
  pose proof (occ_nonneg k (writable_accounts x)). nia.
Qed.

Lemma block_inv_remove over lim T x l :
  block_inv over lim (T, (x, sum x) :: l) -> block_inv over lim (remove T x, l).
Proof.
  intros [HT <- Hp Ha Hc]. simpl in *. pose proof (ledger_fits _ _ HT) as Hf.
  destruct (fits_entries _ Hf (x, sum x) (list_elem_of_here _ _)) as [Hx Hs]. simpl in Hx, Hs.
  pose proof (cost_ctr x Hx Alloc) as Hal. simpl in Hal.
  split; simpl; [by apply remove_ledger|done| |lia|].
  - intros e He. apply Hp. by right.
  - intros Ho. destruct (Hc Ho) as [Hb Hk]. split; [lia|]. intros k. specialize (Hk k).
    pose proof (occ_nonneg k (writable_accounts x)). nia.
Qed.

Lemma block_step_inv over lim s s' :
  limits_ok lim -> block_step over s s' -> block_inv over lim s -> block_inv over lim s'.
Proof.
  intros Hok Hstep HI.
  destruct Hstep as [T l x u T' Hx Hn Hr He|T l x e T' Hx He|T l1 x l2 units loaded Hu Hld v Hv|
    T l1 x l2|T l n|T l n].
  - by apply (block_inv_add over lim T l x u).
  - destruct HI as [HT <- Hp Ha Hc]. simpl in *.
    destruct (try_add_refused T l x e T' HT Hx Hok He) as [Heq HT'].
    pose proof (eq_limits _ _ Heq) as Hlim. by split.
  - by apply block_inv_update; [apply block_inv_middle| | |].
  - by apply block_inv_remove, block_inv_middle.
  - destruct HI. split; simpl; [by apply ledger_in_flight|done..].
  - destruct HI. split; simpl; [by apply ledger_in_flight|done..].
Qed.

Lemma ledger_empty lim : ledger (set_limits tracker_default lim) [].
Proof.
  split; simpl; [split; simpl; [by intros e ?%not_elem_of_nil|done|by intros []]|..].
  - apply map_Forall_empty.
  - done.
  - intros k. unfold acct. by rewrite lookup_empty.
  - by intros [].
Qed.

Lemma block_inv_reachable over lim s :
  limits_ok lim -> rtc (block_step over) (set_limits tracker_default lim, []) s ->
  block_inv over lim s.
Proof.
  intros Hok Hr. revert s Hr. apply rtc_ind_r.
  - destruct Hok as (Ha & Hb & Hd). unfold is_u in *.
    split; simpl; [apply ledger_empty|done|by intros e ?%not_elem_of_nil|lia|].
    intros _. split; [lia|intros; simpl; lia].
  - intros s s' _ Hstep HI. by apply (block_step_inv over lim s).
Qed.

Lemma ctr_sum_Count (l : list entry) : ctr_sum Count l = Z.of_nat (length l).
Proof.
  induction l as [|e l IH]; [done|]. cbn [length].
  change (ctr_sum Count (e :: l)) with (1 + ctr_sum Count l). lia.
Qed.

(** C15: the tracker of a block is the exact ledger of its transactions.  After any
    sequence of additions, refusals, corrections to the actual usage and removals from an
    empty block, the block cost is the sum of the current costs of the transactions kept,
    the cost of an account the sum over those that write it, the allocated data and the
    counters of transactions and of the four kinds of signatures are their sums, and the
    allocated data is within its limit.  A further transaction is accepted exactly when
    the block, the transaction itself, the allocated data and every account it writes
    stay within the limits.  If no execution uses more than was estimated, the block cost
    and every account cost are within the limits as well.  Overflow is excluded where the
    code does not exclude it: an addition under a limit equal to the greatest [u64]
    ([room]), and an execution over its estimate whose excess would wrap the block cost. *)
Theorem cost_tracker_ledger over lim T l :
  limits_ok lim ->
  rtc (block_step over) (set_limits tracker_default lim, []) (T, l) ->
  limits T = lim /\
  block_cost T = block_sum l /\
  (forall k, acct (cost_by_writable_accounts T) k = acct_sum k l) /\
  transaction_count T = Z.of_nat (length l) /\
  allocated_size T = ctr_sum Alloc l /\
  transaction_signature_count T = ctr_sum Sigs l /\
  secp256k1_instruction_signature_count T = ctr_sum K1 l /\
  ed25519_instruction_signature_count T = ctr_sum Ed l /\
  secp256r1_instruction_signature_count T = ctr_sum R1 l /\
  allocated_size T <= allocated_data_size lim /\
  (forall x, cost_ok x -> counted x -> room lim x l ->
     ((exists u, (try_add T x).1 = inl u) <-> within_limits lim x l)) /\
  (over = false -> block_cost T <= block_cost_limit lim /\
     forall k, acct (cost_by_writable_accounts T) k <= account_cost lim).
Proof.
  intros Hok Hr. destruct (block_inv_reachable over lim _ Hok Hr) as [HT Hl Hp Hal Hcost].
  simpl in *. pose proof HT as [_ _ Hb Ha Hc]. split_and!; [done|done|done| |apply (Hc Alloc)|
    apply (Hc Sigs)|apply (Hc K1)|apply (Hc Ed)|apply (Hc R1)| | |].
  - rewrite <-ctr_sum_Count. apply (Hc Count).
  - specialize (Hc Alloc). simpl in Hc. lia.
  - intros x Hx Hn Hroom. pose proof (try_add_exact T l x HT Hp Hx Hn) as H. rewrite Hl in H.
    specialize (H Hok Hroom). destruct (try_add T x) as [[u|e] T']; simpl.
    + split; [intros _; apply H|by exists u].
    + split; [by intros [u Hu]|]. intros Hw. by destruct (within_not_exceeds _ _ _ _ Hw (proj1 H)).
  - intros Ho. destruct (Hcost Ho) as [Rb Ra]. rewrite Hb. split; [done|]. intros k. by rewrite Ha.
Qed.

(** adding a transaction and removing it again restores the tracker, up to accounts
    left behind with cost zero; and correcting it to its actual usage leaves exactly the
    cost it would have had at that usage. *)
Theorem add_then_remove_or_update T l x u T' :
  ledger T l -> cost_ok x -> fits ((x, sum x) :: l) -> limits_ok (limits T) ->
  try_add T x = (inl u, T') ->
  remove T' x ≡ T /\
  forall units loaded, let v := sum x - estimated_units x + sat_add units loaded in
    fits ((x, v) :: l) ->
    block_cost (update_execution_cost T' x units loaded) = block_cost T + v /\
    forall k, acct (cost_by_writable_accounts (update_execution_cost T' x units loaded)) k =
      acct (cost_by_writable_accounts T) k + v * occ k (writable_accounts x).
Proof.
  intros HT Hx Hf Hl He. pose proof (try_add_spec T l x HT Hx Hf Hl) as H. rewrite He in H.
  destruct H as (HT' & _ & Hlim & Hfl & _). split.
  - apply (ledger_equiv _ _ l); [by apply remove_ledger|done|done|done].
  - intros units loaded v Hfv. destruct (update_ledger T' x l units loaded HT' Hfv) as [[_ _ Hb Ha _] _].
    fold v in Hb, Ha. destruct HT as [_ _ Hb0 Ha0 _].
    rewrite Hb, Hb0. simpl. split; [lia|]. intros k. rewrite Ha, Ha0. simpl. lia.
Qed.

(** The reported number of accounts does not see accounts at cost zero. *)
#[export] Instance number_of_accounts_proper : Proper ((≡) ==> eq) number_of_accounts.
Proof.
  intros T T' [_ Ha _ _ _ _ _ _ _ _]. unfold number_of_accounts. f_equal.
  apply map_eq. intros k. specialize (Ha k). unfold acct in Ha.
  apply option_eq. intros c. rewrite !map_lookup_filter_Some. simpl.
  destruct (cost_by_writable_accounts T !! k), (cost_by_writable_accounts T' !! k);
    simpl in Ha; naive_solver lia.
Qed.

(** ** What the cost model charges is counted *)

Lemma writable_keys_NoDup keys w : NoDup keys -> NoDup (writable_keys keys w).
Proof.
  intros Hnd. apply (sublist_NoDup _ keys); [done|]. clear Hnd.
  revert w. induction keys as [|k keys IH]; intros w; [done|]. specialize (IH (w ∘ S)).
  unfold writable_keys in *. rewrite imap_cons. simpl. destruct (w 0%nat); by constructor.
Qed.

Section priced.
Context `{SystemInterface}.

(** The cost of a transaction with distinct keys and a signature, in the ranges of the
    cost model, is one the tracker counts exactly. *)
Lemma calculate_cost_counted tx fs :
  tx_in_range tx -> NoDup (tx_account_keys tx) ->
  1 <= num_transaction_signatures (signature_details tx) ->
  0 <= calculate_allocated_accounts_data_size (program_instructions tx) fs ->
  cost_ok (calculate_cost tx fs) /\ counted (calculate_cost tx fs).
Proof.
  intros Hr Hnd Hsig Hal. destruct (get_signature_cost_exact tx Hr) as [Hs Hsb].
  destruct (data_cost_exact tx Hr) as [Hd Hdb]. pose proof Hr as [H1 H2 H3 H4 H5 _ Hcfg].
  assert (get_write_lock_cost (num_write_locks tx) = 300 * num_write_locks tx) as Hw.
  { unfold get_write_lock_cost, saturating_mul. change WRITE_LOCK_UNITS with 300.
    unfold is_u, u32_max, u64_max in *. lia. }
  destruct (get_estimated_execution_cost tx) as [p q] eqn:Hpq.
  assert (0 <= p <= u32_max /\ 0 <= q <= 2 ^ 21) as [Hp Hq].
  { unfold get_estimated_execution_cost in Hpq. destruct (transaction_configuration tx) as [c|].
    - destruct (Hcfg c eq_refl) as [Hc1 Hc2]. destruct (loaded_cost_exact _ Hc2) as [Hc3 Hc4].
      injection Hpq as <- <-. rewrite Hc3. done.
    - injection Hpq as <- <-. unfold u32_max. lia. }
  unfold calculate_cost. rewrite Hpq. unfold calculate_transaction_cost. set (x := Build_TransactionCost _ _ _ _ _ _ _).
  assert (cost_ok x) as Hx.
  { split; simpl; rewrite ?Hs, ?Hd, ?Hw; unfold is_u, u16_max, u32_max, u64_max in *; try lia.
    - by apply writable_keys_NoDup.
    - intros []; simpl; lia. }
  split; [done|]. intros c Hc. unfold fixed_cost, estimated_units.
  destruct (cost_ok_sum x Hx) as [-> _]. subst x. simpl. rewrite Hs, Hd, Hw.
  unfold saturating_add, signature_units, is_u, u32_max, u64_max in *.
  destruct c; [..]; simpl in *; try done; lia.
Qed.
End priced.

(** ** Witnesses *)

Definition transfer_cost : TransactionCost := calculate_cost transfer_tx features.

Lemma transfer_cost_counted : cost_ok transfer_cost /\ counted transfer_cost.
Proof.
  apply calculate_cost_counted; [apply transfer_tx_in_range| |done|by vm_compute].
  change (tx_account_keys transfer_tx) with [5; 6; 0]. repeat constructor; set_solver.
Qed.

Lemma transfer_cost_ok : cost_ok transfer_cost.
Proof. apply transfer_cost_counted. Qed.

Lemma transfer_fits : fits [(transfer_cost, sum transfer_cost)].
Proof.
  split.
  - intros e ->%list_elem_of_singleton. split; [apply transfer_cost_ok|]. vm_compute. discriminate.
  - vm_compute. discriminate.
  - intros []; vm_compute; discriminate.
Qed.

Lemma default_limits_ok : limits_ok limits_default.
Proof. unfold limits_ok, is_u. vm_compute. repeat split; discriminate. Qed.

Lemma tracker_default_ledger : ledger tracker_default [].
Proof. apply (ledger_empty limits_default). Qed.

Lemma try_add_correct_witness :
  (exists u, (try_add tracker_default transfer_cost).1 = inl u) /\
  ledger (try_add tracker_default transfer_cost).2 [(transfer_cost, sum transfer_cost)].
Proof.
  pose proof (try_add_correct tracker_default [] transfer_cost tracker_default_ledger
    transfer_cost_ok transfer_fits default_limits_ok) as H.
  assert ((try_add tracker_default transfer_cost).1 =
    inl {| updated_block_cost := 4339; updated_costliest_account_cost := 4339 |}) as Hok
    by (vm_compute; reflexivity).
  split; [eexists; exact Hok|].
  destruct (try_add tracker_default transfer_cost) as [[u|e] T']; simpl in Hok |- *;
    [apply H|discriminate Hok].
Defined.

Definition transfer_added : UpdatedCosts * CostTracker :=
  match try_add tracker_default transfer_cost with
  | (inl u, T) => (u, T)
  | (_, T) => ({| updated_block_cost := 0; updated_costliest_account_cost := 0 |}, T)
  end.

Lemma add_then_remove_or_update_witness :
  remove transfer_added.2 transfer_cost ≡ tracker_default.
Proof.
  apply (add_then_remove_or_update tracker_default [] transfer_cost transfer_added.1
    transfer_added.2 tracker_default_ledger transfer_cost_ok transfer_fits default_limits_ok).
  vm_compute. reflexivity.
Defined.

(** A transaction with precompile signatures. *)
Definition verify_tx : CostedTx := {|
  tx_account_keys := [7; 6];
  tx_is_writable := (fun i => i <? 2)%nat;
  signature_details := {| num_transaction_signatures := 1;
    num_secp256k1_instruction_signatures := 2; num_ed25519_instruction_signatures := 3;
    num_secp256r1_instruction_signatures := 4 |};
  transaction_configuration :=
    Some {| compute_unit_limit := 500; loaded_accounts_data_size_limit := 32768 |};
  instruction_data_len := 40;
  num_write_locks := 2;
  program_instructions := []
|}.
Definition verify_cost : TransactionCost := calculate_cost verify_tx features.

Lemma verify_cost_counted : cost_ok verify_cost /\ counted verify_cost.
Proof.
  apply calculate_cost_counted; [| |done|by vm_compute].
  - split; [..|intros c [= <-]]; unfold is_u, u16_max, u32_max; simpl; lia.
  - change (tx_account_keys verify_tx) with [7; 6]. repeat constructor; set_solver.
Qed.

(** Both are added, the transfer executes below its estimate, a second transfer is
    added and removed. *)
Definition two_added : CostTracker := (try_add transfer_added.2 verify_cost).2.
Definition one_corrected : CostTracker := update_execution_cost two_added transfer_cost 450 8.
Definition block_after : CostTracker := remove (try_add one_corrected transfer_cost).2 transfer_cost.

Lemma block_after_reachable :
  rtc (block_step false) (set_limits tracker_default limits_default, [])
    (block_after, [(transfer_cost, 1781); (verify_cost, sum verify_cost)]).
Proof.
  destruct transfer_cost_counted as [Hx Hn]. destruct verify_cost_counted as [Hx' Hn'].
  assert (forall x l, room limits_default x l) as Hroom.
  { intros x l. split; left; by vm_compute. }
  eapply rtc_l.
  { eapply (block_add _ _ _ transfer_cost transfer_added.1 transfer_added.2); [done|done|apply Hroom|].
    by vm_compute. }
  eapply rtc_l.
  { eapply (block_add _ _ _ verify_cost _ two_added); [done|done|apply Hroom|by vm_compute]. }
  eapply rtc_l.
  { eapply (block_update _ two_added [(verify_cost, sum verify_cost)] transfer_cost [] 450 8);
      [done|done|left; by vm_compute]. }
  eapply rtc_l.
  { eapply (block_add _ _ _ transfer_cost _ (try_add one_corrected transfer_cost).2);
      [done|done|apply Hroom|by vm_compute]. }
  apply rtc_once. apply (block_remove _ _ [] transfer_cost).
Qed.

Lemma cost_tracker_ledger_witness :
  block_cost block_after = 1781 + sum verify_cost /\
  secp256k1_instruction_signature_count block_after = 2 /\
  secp256r1_instruction_signature_count block_after = 4 /\
  allocated_size block_after <= 100000000.
Proof.
  destruct (cost_tracker_ledger false limits_default block_after
    [(transfer_cost, 1781); (verify_cost, sum verify_cost)] default_limits_ok
    block_after_reachable) as (_ & Hb & _ & _ & _ & _ & Hk & _ & Hr & Ha & _).
  split_and!; [by rewrite Hb|by rewrite Hk|by rewrite Hr|exact Ha].
Defined.
