(* ===== verification/QosService.v ===== *)
(** * Quality of service: reserving block space for transactions

    Models [core/src/banking_stage/qos_service.rs]: which transactions of a batch get
    block space reserved in the cost tracker, and how the reservation is settled once the
    batch has been committed or dropped. *)

From S2P Require Import Prelude CostModel CostTracker CostTrackerProofs AccountLocks.
Local Open Scope Z_scope.

(** [impl From<CostTrackerError> for TransactionError] *)
Definition from_tracker_error (err : CostTrackerError) : TransactionError :=
  match err with
  | WouldExceedBlockMaxLimit => WouldExceedMaxBlockCostLimit
  | WouldExceedAccountMaxLimit => WouldExceedMaxAccountCostLimit
  | CostTracker.WouldExceedAccountDataBlockLimit => AccountLocks.WouldExceedAccountDataBlockLimit
  | CostTracker.WouldExceedAccountDataTotalLimit => AccountLocks.WouldExceedAccountDataTotalLimit
  end.

Abbreviation cost_results := (list (TransactionResult TransactionCost)).

(** [CommitTransactionDetails], with what settling reads. *)
Inductive CommitTransactionDetails :=
| Committed (compute_units loaded_accounts_data_size : Z)
| NotCommitted (err : TransactionError).

Section Qos.
Context `{SystemInterface}.

Definition with_loaded_cost (c : TransactionCost) (v : Z) : TransactionCost :=
  {| transaction := transaction c; signature_cost := signature_cost c;
     write_lock_cost := write_lock_cost c; data_bytes_cost := data_bytes_cost c;
     programs_execution_cost := programs_execution_cost c;
     loaded_accounts_data_size_cost := v;
     allocated_accounts_data_size := allocated_accounts_data_size c |}.

Definition compute_transaction_costs (feature_set : FeatureSet) (transactions : list CostedTx)
    (pre_results : list (TransactionResult ())) : cost_results :=
  zip_with (fun tx pre_result =>
    tmap (fun _ =>
      let reserving_cost := calculate_cost tx feature_set in
      with_loaded_cost reserving_cost
        (Z.max (loaded_accounts_data_size_cost reserving_cost) (calculate_pages_cost 1)))
      pre_result) transactions pre_results.

(** The loop of [select_transactions_per_cost]. *)
Fixpoint select_loop (cost_tracker : CostTracker) (costs : cost_results) (num_included : Z)
    : cost_results * Z * CostTracker :=
  match costs with
  | [] => ([], num_included, cost_tracker)
  | TErr e :: costs =>
    let '(rs, n, t) := select_loop cost_tracker costs num_included in (TErr e :: rs, n, t)
  | TOk cost :: costs =>
    match try_add cost_tracker cost with
    | (inl _, cost_tracker) =>
      let '(rs, n, t) := select_loop cost_tracker costs (num_included + 1) in
      (TOk cost :: rs, n, t)
    | (inr e, cost_tracker) =>
      let '(rs, n, t) := select_loop cost_tracker costs num_included in
      (TErr (from_tracker_error e) :: rs, n, t)
    end
  end.

Definition select_transactions_per_cost (cost_tracker : CostTracker) (transactions : list CostedTx)
    (transactions_costs : cost_results) : cost_results * Z * CostTracker :=
  let '(rs, num_included, cost_tracker) :=
    select_loop cost_tracker (take (length transactions) transactions_costs) 0 in
  (rs ++ drop (length transactions) transactions_costs, num_included,
   add_transactions_in_flight cost_tracker num_included).

Definition select_and_accumulate_transaction_costs (cost_tracker : CostTracker)
    (feature_set : FeatureSet) (transactions : list CostedTx)
    (pre_results : list (TransactionResult ())) : cost_results * Z * CostTracker :=
  let transaction_costs := compute_transaction_costs feature_set transactions pre_results in
  let '(rs, num_included, cost_tracker) :=
    select_transactions_per_cost cost_tracker transactions transaction_costs in
  (rs, saturating_sub (Z.of_nat (length transactions)) num_included, cost_tracker).

(** [cost_tracker.remove(cost)] for the accepted ones of [results.iter().zip(costs)]. *)
Fixpoint release (cost_tracker : CostTracker) (results : list (TransactionResult ()))
    (costs : cost_results) : CostTracker :=
  match results, costs with
  | TOk _ :: results, TOk cost :: costs => release (remove cost_tracker cost) results costs
  | _ :: results, _ :: costs => release cost_tracker results costs
  | _, _ => cost_tracker
  end.

(** The guard under which a block-limit shortfall defers the batch. *)
Definition covered_by_inflight (cost_tracker : CostTracker) (costs : cost_results)
    (cost : TransactionCost) (reserved_cost inflight_reserved_cost : Z) (revert_on_error : bool)
    : bool :=
  (sat_add (block_cost cost_tracker) (sum cost) - block_cost_limit (limits cost_tracker)
     <=? inflight_reserved_cost)
  && (negb revert_on_error
      || (fold_left (fun total r => match r with
                                    | TOk cost => sat_add total (sum cost)
                                    | TErr _ => total
                                    end) costs
            (saturating_sub (saturating_sub (block_cost cost_tracker) reserved_cost)
               inflight_reserved_cost)
          <=? block_cost_limit (limits cost_tracker))).

(** The loop of [try_admit_transactions]: [None] after a rolled back deferral. *)
Fixpoint admit_loop (cost_tracker : CostTracker) (all rest : cost_results)
    (results : list (TransactionResult ())) (reserved_cost inflight_reserved_cost : Z)
    (revert_on_error : bool)
    : option (list (TransactionResult ()) * Z) * CostTracker :=
  match rest with
  | [] => (Some (results, reserved_cost), cost_tracker)
  | TErr err :: rest =>
    admit_loop cost_tracker all rest (results ++ [TErr err]) reserved_cost
      inflight_reserved_cost revert_on_error
  | TOk cost :: rest =>
    match try_add cost_tracker cost with
    | (inl _, cost_tracker) =>
      admit_loop cost_tracker all rest (results ++ [TOk ()])
        (wrapping_add u64_max reserved_cost (sum cost)) inflight_reserved_cost revert_on_error
    | (inr err, cost_tracker) =>
      if (match err with WouldExceedBlockMaxLimit => true | _ => false end)
         && covered_by_inflight cost_tracker all cost reserved_cost inflight_reserved_cost
              revert_on_error
      then (None, release cost_tracker results all)
      else admit_loop cost_tracker all rest (results ++ [TErr (from_tracker_error err)])
             reserved_cost inflight_reserved_cost revert_on_error
    end
  end.

(** Accepted transactions of a cancelled atomic batch. *)
Definition cancel1 (r : TransactionResult ()) (c : option (TransactionResult TransactionCost))
    : TransactionResult () :=
  match r, c with
  | TOk _, Some (TOk _) => TErr CommitCancelled
  | _, _ => r
  end.
Definition cancel (results : list (TransactionResult ())) (costs : cost_results)
    : list (TransactionResult ()) :=
  imap (fun i r => cancel1 r (costs !! i)) results.

Definition count_ok (results : list (TransactionResult ())) : Z :=
  Z.of_nat (length (filter (fun r => tis_ok r = true) results)).

Definition try_admit_transactions (cost_tracker : CostTracker) (feature_set : FeatureSet)
    (transactions : list CostedTx) (pre_results : list (TransactionResult ()))
    (inflight_reserved_cost : Z) (revert_on_error : bool)
    : option (list (TransactionResult ()) * Z) * CostTracker :=
  let transaction_costs := compute_transaction_costs feature_set transactions pre_results in
  match admit_loop cost_tracker transaction_costs transaction_costs [] 0
          inflight_reserved_cost revert_on_error with
  | (None, cost_tracker) => (None, cost_tracker)
  | (Some (results, reserved_cost), cost_tracker) =>
    let '(results, reserved_cost, cost_tracker) :=
      if revert_on_error && existsb (fun r => negb (tis_ok r)) results
      then (cancel results transaction_costs, 0, release cost_tracker results transaction_costs)
      else (results, reserved_cost, cost_tracker) in
    (Some (results, reserved_cost),
     add_transactions_in_flight cost_tracker (count_ok results))
  end.

(** ** Settling *)
Fixpoint settle_recorded (cost_tracker : CostTracker) (costs : cost_results)
    (statuses : list CommitTransactionDetails) (num_included : Z) : CostTracker * Z :=
  match costs, statuses with
  | TOk tx_cost :: costs, status :: statuses =>
    let cost_tracker :=
      match status with
      | Committed compute_units loaded_accounts_data_size =>
        update_execution_cost cost_tracker tx_cost compute_units
          (calculate_loaded_accounts_data_size_cost loaded_accounts_data_size)
      | NotCommitted _ => remove cost_tracker tx_cost
      end in
    settle_recorded cost_tracker costs statuses (num_included + 1)
  | TErr _ :: costs, _ :: statuses => settle_recorded cost_tracker costs statuses num_included
  | _, _ => (cost_tracker, num_included)
  end.

Definition remove_or_update_recorded_transaction_costs (cost_tracker : CostTracker)
    (costs : cost_results) (statuses : list CommitTransactionDetails) : CostTracker :=
  let '(cost_tracker, num_included) := settle_recorded cost_tracker costs statuses 0 in
  sub_transactions_in_flight cost_tracker num_included.

Fixpoint settle_unrecorded (cost_tracker : CostTracker) (costs : cost_results) (num_included : Z)
    : CostTracker * Z :=
  match costs with
  | [] => (cost_tracker, num_included)
  | TOk tx_cost :: costs => settle_unrecorded (remove cost_tracker tx_cost) costs (num_included + 1)
  | TErr _ :: costs => settle_unrecorded cost_tracker costs num_included
  end.

Definition remove_unrecorded_transaction_costs (cost_tracker : CostTracker)
    (costs : cost_results) : CostTracker :=
  let '(cost_tracker, num_included) := settle_unrecorded cost_tracker costs 0 in
  sub_transactions_in_flight cost_tracker num_included.

Definition remove_or_update_costs (cost_tracker : CostTracker) (costs : cost_results)
    (transaction_committed_status : option (list CommitTransactionDetails)) : CostTracker :=
  match transaction_committed_status with
  | Some statuses => remove_or_update_recorded_transaction_costs cost_tracker costs statuses
  | None => remove_unrecorded_transaction_costs cost_tracker costs
  end.
End Qos.
