(* ===== verification/QosServiceProofs.v ===== *)
(** * Correctness of the block-space reservation

    Reservations are exact: what is selected is what the tracker gained, deferred and
    cancelled batches leave no trace, and settling replaces estimates by actual costs. *)

From S2P Require Import Prelude CostModel CostTracker CostTrackerProofs AccountLocks QosService.
Local Open Scope Z_scope.

(** The transactions that carry a cost, at that cost. *)
Fixpoint cands (costs : cost_results) : list entry :=
  match costs with
  | [] => []
  | TOk c :: costs => (c, sum c) :: cands costs
  | TErr _ :: costs => cands costs
  end.

(** The accepted ones of them. *)
Fixpoint accepted (results : list (TransactionResult ())) (costs : cost_results) : list entry :=
  match results, costs with
  | TOk _ :: results, TOk c :: costs => (c, sum c) :: accepted results costs
  | _ :: results, _ :: costs => accepted results costs
  | _, _ => []
  end.

Lemma fits_perm l l' : l ≡ₚ l' -> fits l -> fits l'.
Proof.
  intros Hp [He Hb Hc]. split.
  - intros e Hin. apply He. by rewrite Hp.
  - by rewrite <-Hp.
  - intros c. by rewrite <-Hp.
Qed.

Lemma fits_lower x v v' l : fits ((x, v) :: l) -> 0 <= v' <= v -> fits ((x, v') :: l).
Proof.
  intros [He Hb Hc] Hv. split.
  - intros e [->|Hin]%elem_of_cons; [|apply He; by right].
    destruct (He (x, v) (list_elem_of_here _ _)) as [Hx _]. simpl in *. by split; [|lia].
  - simpl in *. lia.
  - intros c. exact (Hc c).
Qed.

Lemma entry_cost_ok x l : fits ((x, sum x) :: l) -> cost_ok x.
Proof. intros Hf. by destruct (fits_entries _ Hf (x, sum x) (list_elem_of_here _ _)). Qed.

(** A tracker with a ledger; limits and in-flight count are those of [T0]. *)
Record tracks (T0 T : CostTracker) (l : list entry) : Prop := {
  tracks_ledger : ledger T l;
  tracks_limits : limits T = limits T0;
  tracks_flight : in_flight_transaction_count T = in_flight_transaction_count T0
}.

Lemma tracks_perm T0 T l l' : l ≡ₚ l' -> tracks T0 T l -> tracks T0 T l'.
Proof. intros Hp [HT Hl Hf]. split; [by eapply ledger_perm|done|done]. Qed.

Lemma tracks_equiv T0 T l : ledger T0 l -> tracks T0 T l -> T ≡ T0.
Proof. intros H0 [HT Hl Hf]. by apply (ledger_equiv _ _ l). Qed.

Lemma tracks_add T0 T l x :
  tracks T0 T l -> fits ((x, sum x) :: l) -> limits_ok (limits T0) ->
  match try_add T x with
  | (inl _, T') => tracks T0 T' ((x, sum x) :: l)
  | (inr e, T') => tracks T0 T' l /\ exceeds (limits T0) x l e
  end.
Proof.
  intros [HT Hl Hf] Hfx Hlim. rewrite <-Hl in Hlim |- *.
  pose proof (entry_cost_ok x l Hfx) as Hx.
  pose proof (try_add_spec T l x HT Hx Hfx Hlim) as H.
  destruct (try_add T x) as [[u|e] T'] eqn:He.
  - destruct H as (HT' & _ & Hl' & Hf' & _). split; [done|congruence|congruence].
  - destruct (try_add_refused T l x e T' HT Hx Hlim He) as [Heq HT'].
    split; [|done]. split; [done|rewrite (eq_limits _ _ Heq); done|rewrite (eq_flight _ _ Heq); done].
Qed.

Lemma tracks_remove T0 T x l : tracks T0 T ((x, sum x) :: l) -> tracks T0 (remove T x) l.
Proof. intros [HT Hl Hf]. split; [by apply remove_ledger|done|done]. Qed.

Lemma tracks_update T0 T x l units loaded :
  tracks T0 T ((x, sum x) :: l) ->
  let v := sum x - estimated_units x + sat_add units loaded in
  fits ((x, v) :: l) -> tracks T0 (update_execution_cost T x units loaded) ((x, v) :: l).
Proof.
  intros [HT Hl Hf] v Hfv. destruct (update_ledger T x l units loaded HT Hfv) as [HT' Hl'].
  split; [done|congruence|]. rewrite <-Hf. unfold update_execution_cost.
  by destruct (_ ?= _).
Qed.

(** ** Selection *)

Lemma select_loop_spec T0 costs T l n :
  tracks T0 T l -> fits (cands costs ++ l) -> limits_ok (limits T0) ->
  let '(rs, n', T') := select_loop T costs n in
  tracks T0 T' (cands rs ++ l) /\ n' = n + Z.of_nat (length (cands rs)) /\
  Forall2 (fun c r => r = c \/ exists x e, c = TOk x /\ r = TErr (from_tracker_error e)) costs rs.
Proof.
  revert T l n. induction costs as [|[x|e] costs IH]; intros T l n HT Hf Hlim; simpl.
  - split_and!; [done|simpl; lia|constructor].
  - simpl in Hf. assert (fits ((x, sum x) :: l)) as Hfx by apply (fits_sublist [_] (cands costs) l Hf).
    pose proof (tracks_add T0 T l x HT Hfx Hlim) as Ha.
    destruct (try_add T x) as [[u|e] T1].
    + specialize (IH T1 ((x, sum x) :: l) (n + 1) Ha).
      destruct (select_loop T1 costs (n + 1)) as [[rs n'] T'].
      destruct IH as (HT' & -> & HF); [|done|].
      { eapply fits_perm, Hf. apply (Permutation_middle (cands costs) l (x, sum x)). }
      split_and!; [|simpl; lia|constructor; [by left|done]].
      eapply tracks_perm, HT'. symmetry. apply (Permutation_middle (cands rs) l (x, sum x)).
    + destruct Ha as [Ha _]. specialize (IH T1 l n Ha (fits_tail _ _ Hf) Hlim).
      destruct (select_loop T1 costs n) as [[rs n'] T']. destruct IH as (HT' & -> & HF).
      split_and!; [done|done|]. constructor; [right; eauto|done].
  - specialize (IH T l n HT Hf Hlim). destruct (select_loop T costs n) as [[rs n'] T'].
    destruct IH as (HT' & -> & HF). split_and!; [done|done|]. constructor; [by left|done].
Qed.

(** ** Settling *)

Definition actual_cost (x : TransactionCost) (units bytes : Z) : Z :=
  sum x - estimated_units x + sat_add units (calculate_loaded_accounts_data_size_cost bytes).

(** The transactions left in the block after settling, at their final cost. *)
Fixpoint settled (costs : cost_results) (statuses : list CommitTransactionDetails) : list entry :=
  match costs, statuses with
  | TOk x :: costs, Committed units bytes :: statuses =>
    (x, actual_cost x units bytes) :: settled costs statuses
  | _ :: costs, _ :: statuses => settled costs statuses
  | _, _ => []
  end.

(** Committed transactions used at most what was estimated. *)
Definition within_estimates (costs : cost_results) (statuses : list CommitTransactionDetails) : Prop :=
  Forall2 (fun c s => match c, s with
    | TOk x, Committed units bytes =>
      0 <= sat_add units (calculate_loaded_accounts_data_size_cost bytes) <= estimated_units x
    | _, _ => True
    end) costs statuses.

Lemma actual_cost_range x units bytes :
  cost_ok x ->
  0 <= sat_add units (calculate_loaded_accounts_data_size_cost bytes) <= estimated_units x ->
  0 <= actual_cost x units bytes <= sum x.
Proof.
  intros Hx Hu. destruct (cost_ok_sum x Hx) as [Hs _]. destruct Hx. unfold actual_cost, estimated_units in *.
  rewrite Hs. unfold saturating_add in Hu |- *. lia.
Qed.

Lemma settle_recorded_spec T0 costs statuses T l n :
  tracks T0 T (cands costs ++ l) -> within_estimates costs statuses ->
  let '(T', n') := settle_recorded T costs statuses n in
  tracks T0 T' (settled costs statuses ++ l) /\ n' = n + Z.of_nat (length (cands costs)).
Proof.
  intros HT Hw. revert T l n HT.
  induction Hw as [|c s costs statuses Hcs Hw IH]; intros T l n HT; simpl.
  { split; [done|lia]. }
  destruct c as [x|e]; [|by apply IH]. destruct s as [units bytes|e].
  - simpl in HT. pose proof (ledger_fits _ _ (tracks_ledger _ _ _ HT)) as Hf.
    pose proof (actual_cost_range x units bytes (entry_cost_ok _ _ Hf) Hcs) as Hr.
    pose proof (tracks_update T0 T x _ units (calculate_loaded_accounts_data_size_cost bytes) HT
                  (fits_lower _ _ _ _ Hf Hr)) as HT1.
    fold (actual_cost x units bytes) in HT1.
    specialize (IH (update_execution_cost T x units (calculate_loaded_accounts_data_size_cost bytes))
                   ((x, actual_cost x units bytes) :: l) (n + 1)).
    destruct (settle_recorded _ costs statuses (n + 1)) as [T' n'].
    destruct IH as [HT' ->].
    { eapply tracks_perm, HT1. apply (Permutation_middle (cands costs) l). }
    split; [|simpl; lia]. eapply tracks_perm, HT'. symmetry.
    apply (Permutation_middle (settled costs statuses) l).
  - simpl in HT. specialize (IH (remove T x) l (n + 1) (tracks_remove _ _ _ _ HT)).
    destruct (settle_recorded _ costs statuses (n + 1)) as [T' n'].
    destruct IH as [HT' ->]. split; [done|simpl; lia].
Qed.

Lemma settle_unrecorded_spec T0 costs T l n :
  tracks T0 T (cands costs ++ l) ->
  let '(T', n') := settle_unrecorded T costs n in
  tracks T0 T' l /\ n' = n + Z.of_nat (length (cands costs)).
Proof.
  revert T n. induction costs as [|[x|e] costs IH]; intros T n HT; simpl.
  - split; [done|lia].
  - specialize (IH (remove T x) (n + 1) (tracks_remove _ _ _ _ HT)).
    destruct (settle_unrecorded _ costs (n + 1)) as [T' n']. destruct IH as [HT' ->].
    split; [done|simpl; lia].
  - by apply IH.
Qed.

(** ** Admission of a batch *)

Lemma accepted_app r1 r2 c1 c2 :
  length r1 = length c1 -> accepted (r1 ++ r2) (c1 ++ c2) = accepted r1 c1 ++ accepted r2 c2.
Proof.
  revert c1. induction r1 as [|r r1 IH]; intros [|c c1] Hl; try done.
  injection Hl as Hl. simpl. destruct r, c; simpl; rewrite (IH c1 Hl); done.
Qed.

Lemma accepted_prefix r c1 c2 :
  length r = length c1 -> accepted r (c1 ++ c2) = accepted r c1.
Proof.
  intros Hl. pose proof (accepted_app r [] c1 c2 Hl) as H. rewrite app_nil_r in H.
  rewrite H. by destruct c2; rewrite app_nil_r.
Qed.

Lemma release_spec T0 T results costs l :
  tracks T0 T (accepted results costs ++ l) -> tracks T0 (release T results costs) l.
Proof.
  revert T costs. induction results as [|r results IH]; intros T costs HT; [done|].
  destruct costs as [|c costs]; [by destruct r|].
  destruct r, c; simpl in *; [|by apply IH..]. apply IH. by apply tracks_remove.
Qed.

(** Only transactions with a cost are accepted. *)
Abbreviation costed :=
  (Forall2 (fun (r : TransactionResult ()) (c : TransactionResult TransactionCost) =>
              tis_ok r = true -> tis_ok c = true)).

Lemma admit_loop_spec T0 l inflight revert done_costs rest results reserved T :
  limits_ok (limits T0) -> costed results done_costs ->
  tracks T0 T (accepted results done_costs ++ l) ->
  reserved = block_sum (accepted results done_costs) ->
  fits (cands rest ++ accepted results done_costs ++ l) ->
  let all := done_costs ++ rest in
  match admit_loop T all rest results reserved inflight revert with
  | (None, T') => tracks T0 T' l
  | (Some (rs, r), T') => costed rs all /\ tracks T0 T' (accepted rs all ++ l) /\
      r = block_sum (accepted rs all)
  end.
Proof.
  intros Hlim. revert done_costs results reserved T.
  induction rest as [|[x|e] rest IH]; intros dc results reserved T Hok HT Hres Hf all;
    assert (length results = length dc) as Hlen by (by eapply Forall2_length); simpl.
  - unfold all. rewrite app_nil_r. done.
  - assert (forall r, accepted (results ++ [r]) (dc ++ [TOk x]) =
              accepted results dc ++ accepted [r] [TOk x]) as Hacc by (intros; by apply accepted_app).
    simpl in Hf.
    assert (fits ((x, sum x) :: accepted results dc ++ l)) as Hfx
      by apply (fits_sublist [_] (cands rest) _ Hf).
    pose proof (tracks_add T0 T _ x HT Hfx Hlim) as Ha.
    replace all with ((dc ++ [TOk x]) ++ rest) by (unfold all; by rewrite <-app_assoc).
    destruct (try_add T x) as [[u|err] T1].
    + apply IH; [by apply Forall2_app; [|constructor]|..]; rewrite Hacc; simpl.
      * eapply tracks_perm, Ha. rewrite <-app_assoc. apply Permutation_middle.
      * rewrite block_sum_app, Hres. simpl.
        pose proof (fits_block _ Hfx) as Fb. simpl in Fb. rewrite block_sum_app in Fb.
        pose proof (ledger_fits _ _ (tracks_ledger _ _ _ HT)) as Hf0.
        pose proof (fits_sublist _ l [] ltac:(rewrite app_nil_r; exact Hf0)) as Hacf.
        rewrite app_nil_r in Hacf. destruct (fits_nonneg _ Hacf) as (N1 & _ & _).
        assert (fits l) as Hfl by apply (fits_sublist [] (accepted results dc) l Hf0).
        destruct (fits_nonneg _ Hfl) as (N2 & _ & _).
        destruct (cost_ok_sum x (entry_cost_ok _ _ Hfx)) as [_ Hs].
        unfold wrapping_add. rewrite Z.mod_small by lia. lia.
      * eapply fits_perm, Hf. rewrite <-app_assoc. simpl. solve_Permutation.
    + destruct Ha as [Ha _]. destruct (_ && _).
      * apply release_spec. rewrite <-app_assoc, accepted_prefix by done. done.
      * apply IH; [by apply Forall2_app; [|constructor]|..]; rewrite Hacc, app_nil_r; [done|done|].
        apply (fits_tail _ _ Hf).
  - replace all with ((dc ++ [TErr e]) ++ rest) by (unfold all; by rewrite <-app_assoc).
    assert (accepted (results ++ [TErr e]) (dc ++ [TErr e]) = accepted results dc) as Hacc.
    { rewrite accepted_app by done. simpl. by rewrite app_nil_r. }
    apply IH; rewrite ?Hacc; [by apply Forall2_app; [|constructor]|done|done|done].
Qed.

(** ** Properties *)

Lemma cands_length costs : (length (cands costs) <= length costs)%nat.
Proof. induction costs as [|[x|e] costs IH]; simpl; lia. Qed.

Lemma accepted_count rs costs :
  costed rs costs -> count_ok rs = Z.of_nat (length (accepted rs costs)).
Proof.
  unfold count_ok. intros H. f_equal. induction H as [|r c rs costs Hrc H IH]; [done|].
  rewrite filter_cons. destruct r as [[]|e], c as [x|e']; simpl in *; lia.
Qed.

Lemma cancel_none rs costs :
  costed rs costs -> accepted (cancel rs costs) costs = [] /\ count_ok (cancel rs costs) = 0.
Proof.
  assert (forall r c, (tis_ok r = true -> tis_ok c = true) -> tis_ok (cancel1 r (Some c)) = false)
    as Hone.
  { intros [] []; simpl; try done. intros H. by discriminate (H eq_refl). }
  intros H. unfold cancel.
  assert (Forall (fun r => tis_ok r = false) (imap (fun i r => cancel1 r (costs !! i)) rs)) as Hall.
  { apply Forall_lookup. intros i r. rewrite list_lookup_imap.
    destruct (rs !! i) as [r0|] eqn:Hr; [|done]. simpl. intros [= <-].
    destruct (Forall2_lookup_l _ _ _ _ _ H Hr) as (c & Hc & Hrc). rewrite Hc. by apply Hone. }
  set (rs' := imap _ rs) in *. clearbody rs'. clear -Hall. split.
  - revert costs. induction Hall as [|r rs' Hr Hall IH]; intros costs; [done|].
    destruct r; [done|]. destruct costs; [done|]. apply IH.
  - unfold count_ok. induction Hall as [|r rs' Hr Hall IH]; [done|].
    rewrite filter_cons, Hr. simpl. done.
Qed.

Lemma ledger_flight T l n : ledger T l -> ledger (add_transactions_in_flight T n) l.
Proof. apply ledger_in_flight. Qed.

Section Properties.
Context `{SystemInterface}.

(** C38: admitting a batch. If [try_admit_transactions] defers the batch the tracker is
    equivalent to what it was: every reservation of the attempt was rolled back. Otherwise
    the tracker gained exactly the accepted transactions, the returned reservation is the
    sum of their costs, and the in-flight count grew by their number. With
    [revert_on_error] either all transactions are accepted or none is, and then nothing is
    reserved. *)
Theorem try_admit_transactions_correct T l fs txs pre inflight revert :
  let costs := compute_transaction_costs fs txs pre in
  ledger T l -> limits_ok (limits T) -> fits (cands costs ++ l) ->
  0 <= in_flight_transaction_count T ->
  in_flight_transaction_count T + Z.of_nat (length txs) <= u64_max ->
  match try_admit_transactions T fs txs pre inflight revert with
  | (None, T') => T' ≡ T
  | (Some (rs, reserved), T') =>
    ledger T' (accepted rs costs ++ l) /\
    reserved = block_sum (accepted rs costs) /\
    block_cost T' = block_cost T + reserved /\
    in_flight_transaction_count T' = in_flight_transaction_count T + count_ok rs /\
    (revert = true -> count_ok rs = 0 /\ T' ≡ T \/ Forall (fun r => tis_ok r = true) rs)
  end.
Proof.
  intros costs HT Hlim Hf Hfl Hfl'. unfold try_admit_transactions. fold costs.
  assert (length costs <= length txs)%nat as Hlen.
  { unfold costs, compute_transaction_costs. rewrite length_zip_with. lia. }
  pose proof (admit_loop_spec T l inflight revert [] costs [] 0 T Hlim ltac:(constructor)
    ltac:(by split) eq_refl Hf) as Ha. simpl in Ha.
  destruct (admit_loop _ _ _ _ _ _ _) as [[[rs reserved]|] T1].
  - destruct Ha as (Hok & HT1 & Hres). pose proof HT1 as [HL1 Hl1 Hf1].
    destruct (revert && existsb _ rs) eqn:Hrev.
    + destruct (cancel_none rs costs Hok) as [Hnil Hcnt]. pose proof (release_spec T T1 rs costs l HT1)
        as [HL2 Hl2 Hf2]. rewrite Hnil, Hcnt. simpl.
      assert (sat_add (in_flight_transaction_count (release T1 rs costs)) 0 =
              in_flight_transaction_count T) as Hzero.
      { rewrite Hf2. unfold saturating_add. lia. }
      split_and!; [by apply ledger_flight|done| |lia|].
      * rewrite (ledger_block _ _ HL2), (ledger_block _ _ HT). lia.
      * intros _. left. split; [done|]. apply (ledger_equiv _ _ l); [by apply ledger_flight|done|done|].
        exact Hzero.
    + split_and!; [by apply ledger_flight|done| | |].
      * simpl. rewrite (ledger_block _ _ HL1), (ledger_block _ _ HT), block_sum_app. lia.
      * simpl. rewrite Hf1, (accepted_count rs costs Hok). unfold saturating_add.
        assert (length (accepted rs costs) <= length costs)%nat; [|lia].
        clear -Hok. induction Hok as [|r c rs costs _ _ IH]; [done|]. destruct r, c; simpl; lia.
      * intros ->. right. simpl in Hrev. apply Forall_forall. intros r Hr.
        apply not_false_iff_true. intros Hr'. apply not_true_iff_false in Hrev. apply Hrev.
        apply existsb_exists. exists r. split; [by apply list_elem_of_In|by rewrite Hr'].
  - by apply (tracks_equiv T T1 l).
Qed.

(** reserving and settling a batch. Selection reserves space for the transactions it
    reports and for no other, and counts them in flight and the rest as throttled. If the
    batch is not recorded, removing its costs restores the tracker; if it is, each
    committed transaction stays in the block at its actual cost, each uncommitted one is
    gone, and the in-flight count is back to what it was. *)
Theorem select_and_settle_correct T l fs txs pre :
  let costs := compute_transaction_costs fs txs pre in
  ledger T l -> limits_ok (limits T) -> fits (cands costs ++ l) ->
  0 <= in_flight_transaction_count T ->
  in_flight_transaction_count T + Z.of_nat (length txs) <= u64_max ->
  let '(rs, throttled, T') := select_and_accumulate_transaction_costs T fs txs pre in
  ledger T' (cands rs ++ l) /\
  in_flight_transaction_count T' = in_flight_transaction_count T + Z.of_nat (length (cands rs)) /\
  throttled = Z.of_nat (length txs) - Z.of_nat (length (cands rs)) /\
  remove_or_update_costs T' rs None ≡ T /\
  forall statuses, within_estimates rs statuses ->
    let T'' := remove_or_update_costs T' rs (Some statuses) in
    ledger T'' (settled rs statuses ++ l) /\
    in_flight_transaction_count T'' = in_flight_transaction_count T.
Proof.
  intros costs HT Hlim Hf Hfl Hfl'.
  unfold select_and_accumulate_transaction_costs, select_transactions_per_cost. fold costs.
  assert (length costs <= length txs)%nat as Hlen.
  { unfold costs, compute_transaction_costs. rewrite length_zip_with. lia. }
  rewrite take_ge, drop_ge by done.
  pose proof (select_loop_spec T costs T l 0 ltac:(by split) Hf Hlim) as Hs.
  destruct (select_loop T costs 0) as [[rs n] T1]. destruct Hs as (HT1 & -> & HF).
  pose proof (cands_length rs) as Hc. apply Forall2_length in HF. rewrite app_nil_r, Z.add_0_l.
  set (T' := add_transactions_in_flight T1 (Z.of_nat (length (cands rs)))).
  assert (in_flight_transaction_count T' =
          in_flight_transaction_count T + Z.of_nat (length (cands rs))) as Hfl1.
  { simpl. rewrite (tracks_flight _ _ _ HT1). unfold saturating_add. lia. }
  assert (tracks T' T' (cands rs ++ l)) as HT'.
  { split; [|done|done]. apply ledger_flight, HT1. }
  split_and!; [apply HT'|done|unfold saturating_sub; lia|..].
  - unfold remove_or_update_costs, remove_unrecorded_transaction_costs.
    pose proof (settle_unrecorded_spec T' rs T' l 0 HT') as Hu.
    destruct (settle_unrecorded T' rs 0) as [T2 n2]. destruct Hu as [[HL2 Hl2 Hf2] ->].
    apply (ledger_equiv _ _ l); [by apply ledger_in_flight|done| |].
    + simpl. rewrite Hl2. apply (tracks_limits _ _ _ HT1).
    + simpl. rewrite Hf2, Hfl1. unfold saturating_sub. lia.
  - intros statuses Hw. unfold remove_or_update_costs, remove_or_update_recorded_transaction_costs.
    pose proof (settle_recorded_spec T' rs statuses T' l 0 HT' Hw) as Hu.
    destruct (settle_recorded T' rs statuses 0) as [T2 n2]. destruct Hu as [[HL2 Hl2 Hf2] ->].
    split; [by apply ledger_in_flight|]. simpl. rewrite Hf2, Hfl1. unfold saturating_sub. lia.
Qed.
End Properties.

(** ** Witnesses *)

Lemma one_transfer_fits :
  fits (cands (compute_transaction_costs features [transfer_tx] [TOk ()]) ++ []).
Proof.
  split.
  - intros e Hin. change (cands _ ++ []) with [(transfer_cost, sum transfer_cost)] in Hin.
    apply list_elem_of_singleton in Hin as ->. split; [apply transfer_cost_ok|].
    vm_compute. discriminate.
  - vm_compute. discriminate.
  - intros []; vm_compute; discriminate.
Qed.

Lemma try_admit_transactions_correct_witness :
  block_cost (try_admit_transactions tracker_default features [transfer_tx] [TOk ()] 0 false).2
  = 4339.
Proof.
  pose proof (try_admit_transactions_correct tracker_default [] features [transfer_tx] [TOk ()] 0
    false tracker_default_ledger default_limits_ok one_transfer_fits) as H.
  assert (try_admit_transactions tracker_default features [transfer_tx] [TOk ()] 0 false =
    (Some ([TOk ()], 4339),
     (try_admit_transactions tracker_default features [transfer_tx] [TOk ()] 0 false).2)) as He
    by (vm_compute; reflexivity).
  rewrite He in H. destruct H as (_ & _ & H & _); [vm_compute; discriminate..|]. exact H.
Defined.

Lemma select_and_settle_correct_witness :
  remove_or_update_costs
    (select_and_accumulate_transaction_costs tracker_default features [transfer_tx] [TOk ()]).2
    [TOk transfer_cost] None ≡ tracker_default.
Proof.
  pose proof (select_and_settle_correct tracker_default [] features [transfer_tx] [TOk ()]
    tracker_default_ledger default_limits_ok one_transfer_fits) as H.
  assert (select_and_accumulate_transaction_costs tracker_default features [transfer_tx] [TOk ()] =
    ([TOk transfer_cost], 0,
     (select_and_accumulate_transaction_costs tracker_default features [transfer_tx] [TOk ()]).2))
    as He by (vm_compute; reflexivity).
  rewrite He in H. destruct H as (_ & _ & _ & H & _); [vm_compute; discriminate..|]. exact H.
Defined.
