(* ===== verification/UnifiedScheduler.v ===== *)
(** * The unified scheduler's state machine

    Models [unified-scheduler-logic/src/lib.rs]: tasks (transactions) are scheduled
    against per-address usage queues, first in first out for block verification or by
    task id for block production, and handed out when no conflicting task is ahead.

    The shared cells of the code are a store: the usage queue of an address (the caller
    of [create_task] associates one queue with each address) in [queues], and the blocked
    usage count of a task in [counts], under the task's id. *)

From S2P Require Import Prelude.
Local Open Scope Z_scope.

(** Operations return or panic. *)
Abbreviation res A := (outcome () A).
Definition assert (b : bool) : res () := if b then Ok () else Panic.

(** ** [ShortCounter], a checked [u32] *)
Definition increment (c : Z) : res Z := expect (checked_add u32_max c 1).
Definition decrement (c : Z) : res Z := expect (checked_sub c 1).
Arguments increment : simpl never.
Arguments decrement : simpl never.

Inductive Capability := FifoQueueing | PriorityQueueing.

Inductive RequestedUsage := Readonly | Writable.
#[export] Instance RequestedUsage_eq_dec : EqDecision RequestedUsage.
Proof. solve_decision. Defined.

Record LockContext := {
  usage_queue : Pubkey; (* the address whose queue this is *)
  requested_usage : RequestedUsage
}.
#[export] Instance LockContext_eq_dec : EqDecision LockContext.
Proof. solve_decision. Defined.

(** [TaskInner]; the transaction is represented by its message hash. *)
Record Task := {
  task_hash : Hash;
  task_id : Z; (* u128 *)
  lock_contexts : list LockContext;
  consumed_block_size : Z;
  sanitized_epoch : Epoch;
  alt_invalidation_slot : Slot
}.
#[export] Instance Task_eq_dec : EqDecision Task.
Proof. solve_decision. Defined.

Definition is_higher_priority (self other : Task) : res bool :=
  match task_id self ?= task_id other with
  | Lt => Ok true
  | Gt => Ok false
  | Eq => Panic
  end.

(** ** The blocked usage counts of tasks *)
Abbreviation Counts := (gmap Z Z).
Definition blocked_count (counts : Counts) (t : Task) : Z := default 0 (counts !! task_id t).
Definition set_blocked_usage_count (counts : Counts) (self : Task) (count : Z) : Counts :=
  <[task_id self := count]> counts.

(** [Some] of the task in the code: whether the task became unblocked. *)
Definition try_unblock (counts : Counts) (self : Task) : res (bool * Counts) :=
  c ← decrement (blocked_count counts self);
  Ok (c =? 0, set_blocked_usage_count counts self c).

Definition try_reblock (counts : Counts) (self : Task) : res (bool * Counts) :=
  if blocked_count counts self =? 0 then Ok (false, counts)
  else
    c ← increment (blocked_count counts self);
    Ok (true, set_blocked_usage_count counts self c).

(** ** [BTreeMap] keyed by task id, as the list of its entries in key order *)
Abbreviation btree A := (list (Z * A)).

(** [BTreeMap::insert]: whether the key was vacant, and the new map. *)
Fixpoint bt_insert {A} (k : Z) (v : A) (l : btree A) : bool * btree A :=
  match l with
  | [] => (true, [(k, v)])
  | (k', v') :: l' =>
    if k <? k' then (true, (k, v) :: l)
    else if k =? k' then (false, (k, v) :: l')
    else let '(b, l'') := bt_insert k v l' in (b, (k', v') :: l'')
  end.

(** [BTreeMap::remove]: [None] when the key is absent. *)
Fixpoint bt_remove {A} (k : Z) (l : btree A) : option (btree A) :=
  match l with
  | [] => None
  | (k', v') :: l' =>
    if k =? k' then Some l' else l'' ← bt_remove k l'; Some ((k', v') :: l'')
  end.

(** ** Usage queues *)
Abbreviation UsageFromTask := (RequestedUsage * Task)%type.

Inductive Usage (R W : Type) := UReadonly (r : R) | UWritable (w : W).
Arguments UReadonly {R W} r.
Arguments UWritable {R W} w.
Definition usage_kind {R W} (u : Usage R W) : RequestedUsage :=
  match u with UReadonly _ => Readonly | UWritable _ => Writable end.

Abbreviation FifoUsage := (Usage Z ()).
Abbreviation PriorityUsage := (Usage (btree Task) Task).

Definition fifo_from (r : RequestedUsage) : FifoUsage :=
  match r with Readonly => UReadonly 1 | Writable => UWritable () end.
Definition priority_from (task : Task) (r : RequestedUsage) : PriorityUsage :=
  match r with Readonly => UReadonly [(task_id task, task)] | Writable => UWritable task end.

Inductive UsageQueueInner :=
| Fifo (current_usage : option FifoUsage) (blocked_usages_from_tasks : list UsageFromTask)
| Priority (current_usage : option PriorityUsage) (blocked_usages_from_tasks : btree UsageFromTask).

Definition new_queue (capability : Capability) : UsageQueueInner :=
  match capability with
  | FifoQueueing => Fifo None []
  | PriorityQueueing => Priority None []
  end.

(** [insert_usage_from_task]: asserts that the task is not queued yet. *)
Definition insert_usage_from_task (q : btree UsageFromTask) (u : UsageFromTask)
    : res (btree UsageFromTask) :=
  let '(vacant, q) := bt_insert (task_id u.2) u q in
  _ ← assert vacant;
  Ok q.

Definition current_usage (self : UsageQueueInner) : option RequestedUsage :=
  match self with
  | Fifo current _ => usage_kind <$> current
  | Priority current _ => usage_kind <$> current
  end.

Definition pop (self : UsageQueueInner) : option UsageFromTask * UsageQueueInner :=
  match self with
  | Fifo current (u :: blocked) => (Some u, Fifo current blocked)
  | Priority current ((_, u) :: blocked) => (Some u, Priority current blocked)
  | _ => (None, self)
  end.

Definition push (self : UsageQueueInner) (u : UsageFromTask) : res UsageQueueInner :=
  match self with
  | Fifo current blocked => Ok (Fifo current (blocked ++ [u]))
  | Priority current blocked =>
    blocked ← insert_usage_from_task blocked u;
    Ok (Priority current blocked)
  end.

Definition peek_blocked (self : UsageQueueInner) : option UsageFromTask :=
  match self with
  | Fifo _ blocked => head blocked
  | Priority _ blocked => snd <$> head blocked
  end.

(** [LockResult] is a boolean: [true] is [Ok(())]. *)
Definition try_lock (self : UsageQueueInner) (new_task : Task) (requested : RequestedUsage)
    : res (bool * UsageQueueInner) :=
  match self with
  | Fifo current blocked =>
    match current with
    | None => Ok (true, Fifo (Some (fifo_from requested)) blocked)
    | Some (UReadonly count) =>
      match requested with
      | Readonly =>
        count ← increment count;
        Ok (true, Fifo (Some (UReadonly count)) blocked)
      | Writable => Ok (false, self)
      end
    | Some (UWritable _) => Ok (false, self)
    end
  | Priority current blocked =>
    match current with
    | Some (UReadonly tasks) =>
      match requested with
      | Readonly =>
        let '(vacant, tasks) := bt_insert (task_id new_task) new_task tasks in
        _ ← assert vacant;
        Ok (true, Priority (Some (UReadonly tasks)) blocked)
      | Writable => Ok (false, self)
      end
    | Some (UWritable _) => Ok (false, self)
    | None => Ok (true, Priority (Some (priority_from new_task requested)) blocked)
    end
  end.

Definition unlock (self : UsageQueueInner) (task : Task) (requested : RequestedUsage)
    : res (option UsageFromTask * UsageQueueInner) :=
  '(is_newly_lockable, self) ←
    match self with
    | Fifo current blocked =>
      match current, requested with
      | Some (UReadonly count), Readonly =>
        if count =? 1 then Ok (true, Fifo None blocked)
        else
          count ← decrement count;
          Ok (false, Fifo (Some (UReadonly count)) blocked)
      | Some (UWritable _), Writable => Ok (true, Fifo None blocked)
      | _, _ => Panic
      end
    | Priority current blocked =>
      match current, requested with
      | Some (UReadonly tasks), Readonly =>
        tasks ← expect (bt_remove (task_id task) tasks);
        match tasks with
        | [] => Ok (true, Priority None blocked)
        | _ => Ok (false, Priority (Some (UReadonly tasks)) blocked)
        end
      | Some (UWritable _), Writable => Ok (true, Priority None blocked)
      | _, _ => Panic
      end
    end : res (bool * UsageQueueInner);
  if is_newly_lockable : bool then Ok (pop self) else Ok (None, self).

Definition push_blocked (self : UsageQueueInner) (u : UsageFromTask) : res UsageQueueInner :=
  match current_usage self with
  | Some _ => push self u
  | None => Panic
  end.

Definition pop_lockable_readonly (self : UsageQueueInner)
    : res (option UsageFromTask * UsageQueueInner) :=
  match peek_blocked self with
  | Some (Readonly, _) =>
    match current_usage self with
    | Some Readonly => Ok (pop self)
    | _ => Panic
    end
  | _ => Ok (None, self)
  end.

(** [current_tasks.extract_if(new_task.task_id().., try_reblock)], each extracted task
    being inserted into the blocked queue. *)
Fixpoint reblock_readers (from : Z) (counts : Counts) (tasks : btree Task)
    (blocked : btree UsageFromTask) : res (Counts * btree Task * btree UsageFromTask) :=
  match tasks with
  | [] => Ok (counts, [], blocked)
  | (id, task) :: tasks =>
    if id <? from then
      '(counts, tasks, blocked) ← reblock_readers from counts tasks blocked;
      Ok (counts, (id, task) :: tasks, blocked)
    else
      '(reblocked, counts) ← try_reblock counts task;
      if reblocked : bool then
        blocked ← insert_usage_from_task blocked (Readonly, task);
        reblock_readers from counts tasks blocked
      else
        '(counts, tasks, blocked) ← reblock_readers from counts tasks blocked;
        Ok (counts, (id, task) :: tasks, blocked)
  end.

Definition prepare_lock (self : UsageQueueInner) (counts : Counts) (new_task : Task)
    (requested : RequestedUsage) : res (bool * Counts * UsageQueueInner) :=
  match self with
  | Fifo _ blocked =>
    Ok (match blocked with [] => true | _ => false end, counts, self)
  | Priority current blocked =>
    match current, requested with
    | None, _ =>
      _ ← assert (match blocked with [] => true | _ => false end);
      Ok (true, counts, self)
    | Some (UWritable current_task), _ =>
      higher ← is_higher_priority new_task current_task;
      if negb higher then Ok (false, counts, self)
      else
        '(reblocked, counts) ← try_reblock counts current_task;
        if negb reblocked then Ok (false, counts, self)
        else
          blocked ← insert_usage_from_task blocked (Writable, current_task);
          Ok (true, counts, Priority None blocked)
    | Some (UReadonly _), Readonly =>
      match peek_blocked self with
      | None => Ok (true, counts, self)
      | Some (peeked_usage, peeked_task) =>
        _ ← assert (bool_decide (peeked_usage = Writable));
        higher ← is_higher_priority new_task peeked_task;
        Ok (higher, counts, self)
      end
    | Some (UReadonly current_tasks), Writable =>
      '(counts, current_tasks, blocked) ←
        reblock_readers (task_id new_task) counts current_tasks blocked;
      match current_tasks with
      | [] => Ok (true, counts, Priority None blocked)
      | _ => Ok (false, counts, Priority (Some (UReadonly current_tasks)) blocked)
      end
    end
  end.

(** ** The state machine *)
Record SchedulingStateMachine := {
  unblocked_task_queue : list Task;
  active_task_count : Z;
  peak_active_task_count : Z;
  dropped_task_count : Z;
  max_unique_active_task_count : option nat;
  unique_active_task_hashes : gset Hash;
  running_task_count : Z;
  max_running_task_count : Z;
  handled_task_count : Z;
  unblocked_task_count : Z;
  total_task_count : Z;
  (* the cells reached through the tokens *)
  queues : gmap Pubkey UsageQueueInner;
  counts : Counts;
  capability : Capability
}.

Definition queue_of (self : SchedulingStateMachine) (a : Pubkey) : UsageQueueInner :=
  default (new_queue (capability self)) (queues self !! a).

Definition exclusively_initialize_current_thread_for_scheduling
    (max_running max_unique : option nat) (cap : Capability) : res SchedulingStateMachine :=
  let m := match max_running with Some n => Z.of_nat n | None => u32_max end in
  _ ← assert (m <=? u32_max);
  Ok {| unblocked_task_queue := []; active_task_count := 0; peak_active_task_count := 0;
        dropped_task_count := 0; max_unique_active_task_count := max_unique;
        unique_active_task_hashes := ∅; running_task_count := 0; max_running_task_count := m;
        handled_task_count := 0; unblocked_task_count := 0; total_task_count := 0;
        queues := ∅; counts := ∅; capability := cap |}.

(** Field updates. *)
Definition set_store (self : SchedulingStateMachine) (q : gmap Pubkey UsageQueueInner)
    (c : Counts) (u : list Task) : SchedulingStateMachine :=
  {| unblocked_task_queue := u; active_task_count := active_task_count self;
     peak_active_task_count := peak_active_task_count self;
     dropped_task_count := dropped_task_count self;
     max_unique_active_task_count := max_unique_active_task_count self;
     unique_active_task_hashes := unique_active_task_hashes self;
     running_task_count := running_task_count self;
     max_running_task_count := max_running_task_count self;
     handled_task_count := handled_task_count self;
     unblocked_task_count := unblocked_task_count self;
     total_task_count := total_task_count self; queues := q; counts := c;
     capability := capability self |}.
Definition set_queue_counts (self : SchedulingStateMachine) (a : Pubkey) (q : UsageQueueInner)
    (c : Counts) : SchedulingStateMachine :=
  set_store self (<[a := q]> (queues self)) c (unblocked_task_queue self).
Definition push_unblocked (self : SchedulingStateMachine) (t : Task) : SchedulingStateMachine :=
  set_store self (queues self) (counts self) (unblocked_task_queue self ++ [t]).

(** The counters, in the order active, peak, dropped, running, handled, unblocked, total. *)
Definition set_counters (self : SchedulingStateMachine) (h : gset Hash)
    (active peak dropped running handled unblocked total : Z) : SchedulingStateMachine :=
  {| unblocked_task_queue := unblocked_task_queue self; active_task_count := active;
     peak_active_task_count := peak; dropped_task_count := dropped;
     max_unique_active_task_count := max_unique_active_task_count self;
     unique_active_task_hashes := h; running_task_count := running;
     max_running_task_count := max_running_task_count self; handled_task_count := handled;
     unblocked_task_count := unblocked; total_task_count := total;
     queues := queues self; counts := counts self; capability := capability self |}.

Definition has_no_running_task (self : SchedulingStateMachine) : bool :=
  running_task_count self =? 0.
Definition has_no_active_task (self : SchedulingStateMachine) : bool :=
  active_task_count self =? 0.
Definition has_unblocked_task (self : SchedulingStateMachine) : bool :=
  match unblocked_task_queue self with [] => false | _ => true end.
Definition is_task_runnable (self : SchedulingStateMachine) : bool :=
  running_task_count self <? max_running_task_count self.
Definition has_runnable_task (self : SchedulingStateMachine) : bool :=
  has_unblocked_task self && is_task_runnable self.

(** *** Locking *)

(** The loop body of [try_lock_usage_queues]. *)
Definition lock_context (self : SchedulingStateMachine) (task : Task) (context : LockContext)
    (blocked_usage_count : Z) : res (Z * SchedulingStateMachine) :=
  let a := usage_queue context in
  '(prepared, cs, q) ← prepare_lock (queue_of self a) (counts self) task (requested_usage context);
  '(locked, q) ← (if prepared : bool then try_lock q task (requested_usage context)
                  else Ok (false, q));
  if locked : bool then Ok (blocked_usage_count, set_queue_counts self a q cs)
  else
    n ← increment blocked_usage_count;
    q ← push_blocked q (requested_usage context, task);
    Ok (n, set_queue_counts self a q cs).

Fixpoint lock_contexts_loop (self : SchedulingStateMachine) (task : Task)
    (contexts : list LockContext) (blocked_usage_count : Z)
    : res (Z * SchedulingStateMachine) :=
  match contexts with
  | [] => Ok (blocked_usage_count, self)
  | context :: contexts =>
    '(n, self) ← lock_context self task context blocked_usage_count;
    lock_contexts_loop self task contexts n
  end.

(** Whether the task was locked, i.e. is returned. *)
Definition try_lock_usage_queues (self : SchedulingStateMachine) (task : Task)
    : res (bool * SchedulingStateMachine) :=
  '(n, self) ← lock_contexts_loop self task (lock_contexts task) 0;
  if n =? 0 then Ok (true, self)
  else Ok (false, set_store self (queues self) (set_blocked_usage_count (counts self) task n)
                    (unblocked_task_queue self)).

(** *** Unlocking *)

(** The [while let] of [unlock_usage_queues]. Every round takes a task from the blocked
    queue, so its length bounds the rounds. *)
Fixpoint relock_loop (fuel : nat) (q : UsageQueueInner) (cs : Counts) (unblocked : list Task)
    (newly_lockable : option UsageFromTask) : res (UsageQueueInner * Counts * list Task) :=
  match newly_lockable with
  | None => Ok (q, cs, unblocked)
  | Some (lockable_usage, lockable_task) =>
    match fuel with
    | O => Panic
    | S fuel =>
      '(locked, q) ← try_lock q lockable_task lockable_usage;
      _ ← assert locked;
      '(did_unblock, cs) ← try_unblock cs lockable_task;
      let unblocked := if did_unblock : bool then unblocked ++ [lockable_task] else unblocked in
      '(next, q) ← (match lockable_usage with
                    | Readonly => pop_lockable_readonly q
                    | Writable => Ok (None, q)
                    end);
      relock_loop fuel q cs unblocked next
    end
  end.

Definition blocked_length (q : UsageQueueInner) : nat :=
  match q with Fifo _ b => length b | Priority _ b => length b end.

Definition unlock_context (self : SchedulingStateMachine) (task : Task) (context : LockContext)
    : res SchedulingStateMachine :=
  let a := usage_queue context in
  '(newly_lockable, q) ← unlock (queue_of self a) task (requested_usage context);
  '(q, cs, unblocked) ←
    relock_loop (S (blocked_length q)) q (counts self) (unblocked_task_queue self) newly_lockable;
  Ok (set_store self (<[a := q]> (queues self)) cs unblocked).

Fixpoint unlock_contexts (self : SchedulingStateMachine) (task : Task)
    (contexts : list LockContext) : res SchedulingStateMachine :=
  match contexts with
  | [] => Ok self
  | context :: contexts =>
    self ← unlock_context self task context;
    unlock_contexts self task contexts
  end.
Definition unlock_usage_queues (self : SchedulingStateMachine) (task : Task)
    : res SchedulingStateMachine :=
  unlock_contexts self task (lock_contexts task).

(** *** Operations *)
Definition bump_total (self : SchedulingStateMachine) : res SchedulingStateMachine :=
  total ← increment (total_task_count self);
  Ok (set_counters self (unique_active_task_hashes self) (active_task_count self)
        (peak_active_task_count self) (dropped_task_count self) (running_task_count self)
        (handled_task_count self) (unblocked_task_count self) total).

Definition drop_task (self : SchedulingStateMachine) (h : gset Hash)
    : res (option Task * SchedulingStateMachine) :=
  dropped ← increment (dropped_task_count self);
  Ok (None, set_counters self h (active_task_count self)
        (peak_active_task_count self) dropped (running_task_count self)
        (handled_task_count self) (unblocked_task_count self) (total_task_count self)).

(** After the admission checks of [schedule_or_buffer_task]. *)
Definition schedule_admitted (self : SchedulingStateMachine) (h : gset Hash) (task : Task)
    (force_buffering : bool) : res (option Task * SchedulingStateMachine) :=
  active ← increment (active_task_count self);
  let self := set_counters self h active
        (Z.max (peak_active_task_count self) active) (dropped_task_count self)
        (running_task_count self) (handled_task_count self) (unblocked_task_count self)
        (total_task_count self) in
  '(locked, self) ← try_lock_usage_queues self task;
  if negb locked then Ok (None, self)
  else if negb (is_task_runnable self) || force_buffering then
    unblocked ← increment (unblocked_task_count self);
    Ok (None, push_unblocked (set_counters self (unique_active_task_hashes self)
        (active_task_count self) (peak_active_task_count self) (dropped_task_count self)
        (running_task_count self) (handled_task_count self) unblocked (total_task_count self))
        task)
  else
    running ← increment (running_task_count self);
    Ok (Some task, set_counters self (unique_active_task_hashes self)
        (active_task_count self) (peak_active_task_count self) (dropped_task_count self)
        running (handled_task_count self) (unblocked_task_count self) (total_task_count self)).

Definition schedule_or_buffer_task (self : SchedulingStateMachine) (task : Task)
    (force_buffering : bool) : res (option Task * SchedulingStateMachine) :=
  self ← bump_total self;
  let h := unique_active_task_hashes self in
  match max_unique_active_task_count self with
  | Some m =>
    if (m <=? size h)%nat then drop_task self h
    else if bool_decide (task_hash task ∈ h) then drop_task self h
    else schedule_admitted self ({[task_hash task]} ∪ h) task force_buffering
  | None => schedule_admitted self h task force_buffering
  end.

Definition buffer_task (self : SchedulingStateMachine) (task : Task)
    : res SchedulingStateMachine :=
  '(r, self) ← schedule_or_buffer_task self task true;
  _ ← assert (match r with None => true | Some _ => false end);
  Ok self.

Definition schedule_next_unblocked_task (self : SchedulingStateMachine)
    : res (option Task * SchedulingStateMachine) :=
  if negb (is_task_runnable self) then Ok (None, self)
  else
    match unblocked_task_queue self with
    | [] => Ok (None, self)
    | task :: rest =>
      running ← increment (running_task_count self);
      unblocked ← increment (unblocked_task_count self);
      Ok (Some task,
          set_counters (set_store self (queues self) (counts self) rest)
            (unique_active_task_hashes self)
            (active_task_count self) (peak_active_task_count self) (dropped_task_count self)
            running (handled_task_count self) unblocked (total_task_count self))
    end.

Definition deschedule_task (self : SchedulingStateMachine) (task : Task)
    : res SchedulingStateMachine :=
  running ← decrement (running_task_count self);
  h ← (match max_unique_active_task_count self with
       | Some _ =>
         _ ← assert (bool_decide (task_hash task ∈ unique_active_task_hashes self));
         Ok (unique_active_task_hashes self ∖ {[task_hash task]})
       | None => Ok (unique_active_task_hashes self)
       end);
  active ← decrement (active_task_count self);
  handled ← increment (handled_task_count self);
  unlock_usage_queues
    (set_counters self h active (peak_active_task_count self) (dropped_task_count self)
       running handled (unblocked_task_count self) (total_task_count self)) task.

Definition reinitialize (self : SchedulingStateMachine) : res SchedulingStateMachine :=
  _ ← assert (has_no_active_task self);
  _ ← assert (size (unique_active_task_hashes self) =? 0)%nat;
  _ ← assert (running_task_count self =? 0);
  _ ← assert (length (unblocked_task_queue self) =? 0)%nat;
  Ok (set_counters self (unique_active_task_hashes self) 0 0 0 (running_task_count self) 0 0 0).

(** The loop of [clear_and_reinitialize]: every round retires an active task. *)
Fixpoint clear_loop (fuel : nat) (self : SchedulingStateMachine) (count : Z)
    : res (Z * SchedulingStateMachine) :=
  '(next, self) ← schedule_next_unblocked_task self;
  match next with
  | None => Ok (count, self)
  | Some task =>
    match fuel with
    | O => Panic
    | S fuel =>
      self ← deschedule_task self task;
      count ← increment count;
      clear_loop fuel self count
    end
  end.
Definition clear_and_reinitialize (self : SchedulingStateMachine)
    : res (Z * SchedulingStateMachine) :=
  '(count, self) ← clear_loop (Z.to_nat (active_task_count self)) self 0;
  self ← reinitialize self;
  Ok (count, self).

(** *** Task creation *)
Definition NO_CONSUMED_BLOCK_SIZE : Z := 0.
Definition MAX_SANITIZED_EPOCH : Epoch := u64_max.
Definition MAX_ALT_INVALIDATION_SLOT : Slot := u64_max.

(** From the transaction's message hash, account keys and writability. *)
Definition do_create_task (hash : Hash) (account_keys : list Pubkey) (is_writable : nat -> bool)
    (id consumed : Z) (epoch : Epoch) (slot : Slot) : Task :=
  {| task_hash := hash; task_id := id;
     lock_contexts :=
       imap (fun i address =>
         {| usage_queue := address;
            requested_usage := if is_writable i then Writable else Readonly |}) account_keys;
     consumed_block_size := consumed; sanitized_epoch := epoch; alt_invalidation_slot := slot |}.
Definition create_task (hash : Hash) (account_keys : list Pubkey) (is_writable : nat -> bool)
    (id : Z) : Task :=
  do_create_task hash account_keys is_writable id NO_CONSUMED_BLOCK_SIZE MAX_SANITIZED_EPOCH
    MAX_ALT_INVALIDATION_SLOT.
Definition create_block_production_task (hash : Hash) (account_keys : list Pubkey)
    (is_writable : nat -> bool) (id consumed : Z) (epoch : Epoch) (slot : Slot) : Task :=
  do_create_task hash account_keys is_writable id consumed epoch slot.
