(* ===== verification/UnifiedMachine.v ===== *)
(** * The unified scheduler's state machine over a queue discipline

    What the operations of the state machine need from the usage queues is a contract, the
    class [Discipline]; the FIFO and the priority queues implement it. Against it the
    operations are total, keep the counters and hashes exact, and the machine drains. *)

From S2P Require Import Prelude UnifiedScheduler.
Local Open Scope Z_scope.

(** ** Counters and counts *)
Lemma increment_Ok c : 0 <= c < u32_max -> increment c = Ok (c + 1).
Proof.
  intros H. unfold increment, checked_add. destruct (Z.leb_spec (c + 1) u32_max); [done|lia].
Qed.
Lemma decrement_Ok c : 0 < c -> decrement c = Ok (c - 1).
Proof.
  intros H. unfold decrement, checked_sub. by destruct (Z.leb_spec 1 c); [|lia].
Qed.
#[local] Opaque increment decrement.

(** The effect of [try_unblock] on the counts and on the queue of unblocked tasks. *)
Definition unblock_one (s : Counts * list Task) (t : Task) : Counts * list Task :=
  let c := blocked_count s.1 t - 1 in
  (set_blocked_usage_count s.1 t c, if c =? 0 then s.2 ++ [t] else s.2).
Abbreviation unblock_all := (foldl unblock_one).

Lemma blocked_count_set cs t c x :
  blocked_count (set_blocked_usage_count cs t c) x =
  if decide (task_id t = task_id x) then c else blocked_count cs x.
Proof.
  unfold blocked_count, set_blocked_usage_count. case_decide as H.
  - by rewrite H, lookup_insert_eq.
  - by rewrite lookup_insert_ne.
Qed.

Lemma unblocked_nodup l (cs : Counts) (N : list Task) :
  NoDup l -> (forall x, x ∈ l -> blocked_count cs x = 0) -> NoDup N ->
  NoDup (l ++ filter (fun x => blocked_count cs x = 1) N).
Proof.
  intros Hl H0 HN. apply NoDup_app. split; [done|]. split; [|by apply NoDup_filter].
  intros x Hx%H0 [Hx1 _]%list_elem_of_filter. lia.
Qed.

(** The ready tasks, after the tasks [N] were given the address just released. *)
Lemma unblocked_ready (cs : Counts) (f f' : Task -> Z) (act : list Task) t (N : list Task) x :
  (forall y, y ∈ N -> y ∈ act /\ y <> t /\ 0 < f y /\ blocked_count cs y = f y) ->
  (forall y, y ∈ act -> y <> t -> f' y = f y - if decide (y ∈ N) then 1 else 0) ->
  (x ∈ act /\ x <> t /\ f x = 0) \/ x ∈ filter (fun x => blocked_count cs x = 1) N <->
  x ∈ act /\ x <> t /\ f' x = 0.
Proof.
  intros HN Hf. rewrite list_elem_of_filter. split.
  - intros [(Hx & Hxt & Hx0)|[Hx1 Hx]].
    + split; [done|]. split; [done|].
      rewrite Hf, decide_False by (done || by intros (_ & _ & ? & _)%HN; lia). lia.
    + destruct (HN x Hx) as (Hxa & Hxt & _ & He). split; [done|]. split; [done|].
      rewrite Hf, decide_True by done. lia.
  - intros (Hx & Hxt & Hx0). rewrite Hf in Hx0 by done. case_decide as Hd.
    + right. destruct (HN x Hd) as (_ & _ & _ & He). split; [lia|done].
    + left. split; [done|]. split; [done|lia].
Qed.

Lemma unblock_all_spec cs ub ts :
  NoDup (task_id <$> ts) ->
  (unblock_all (cs, ub) ts).2 = ub ++ filter (fun x => blocked_count cs x = 1) ts /\
  forall x, blocked_count (unblock_all (cs, ub) ts).1 x =
    blocked_count cs x - if decide (task_id x ∈ task_id <$> ts) then 1 else 0.
Proof.
  revert cs ub. induction ts as [|t ts IH]; intros cs ub Hnd.
  - simpl. rewrite app_nil_r. split; [done|]. intros x. lia.
  - apply NoDup_cons in Hnd as [Ht Hnd]. cbn [foldl].
    destruct (unblock_one (cs, ub) t) as [cs1 ub1] eqn:H1. unfold unblock_one in H1.
    cbn [fst snd] in H1. injection H1 as <- <-.
    destruct (IH (set_blocked_usage_count cs t (blocked_count cs t - 1))
      (if blocked_count cs t - 1 =? 0 then ub ++ [t] else ub) Hnd) as [IH1 IH2].
    rewrite IH1. split.
    + rewrite filter_cons, (filter_ext_in _ (fun x => blocked_count cs x = 1)).
      * destruct (Z.eqb_spec (blocked_count cs t - 1) 0); case_decide; try lia;
          [by rewrite <-app_assoc|done].
      * intros x Hx. rewrite blocked_count_set, decide_False; [done|].
        intros He. apply Ht. rewrite He. by apply list_elem_of_fmap_2.
    + intros x. rewrite IH2, blocked_count_set, fmap_cons.
      destruct (decide (task_id t = task_id x)) as [He|He].
      * rewrite <-He, decide_False, decide_True by (done || left). unfold blocked_count.
        rewrite He. lia.
      * destruct (decide (task_id x ∈ task_id <$> ts)) as [Hx|Hx].
        -- rewrite decide_True by (by right). lia.
        -- rewrite decide_False by (rewrite elem_of_cons; naive_solver). lia.
Qed.

(** ** Tasks *)
Definition addresses (t : Task) : list Pubkey := usage_queue <$> lock_contexts t.

(** Account keys of a transaction are distinct; their number fits the counters. *)
Record wf_task (t : Task) : Prop := {
  wf_addresses : NoDup (addresses t);
  wf_few : Z.of_nat (length (lock_contexts t)) < u32_max
}.

Definition conflict (t x : Task) : Prop :=
  exists a u w, {| usage_queue := a; requested_usage := u |} ∈ lock_contexts t /\
    {| usage_queue := a; requested_usage := w |} ∈ lock_contexts x /\
    (u = Writable \/ w = Writable).

#[export] Instance conflict_sym : Symmetric conflict.
Proof. intros t x (a & u & w & ? & ? & ?). exists a, w, u. tauto. Qed.

(** ** The state machine's invariant

    [act] are the active tasks in the order they were scheduled, [run] the tasks handed out
    and not yet descheduled, [n] bounds the number of operations so far. *)
Definition hashes_ok (S : SchedulingStateMachine) (act : list Task) : Prop :=
  match max_unique_active_task_count S with
  | Some m => NoDup (task_hash <$> act) /\ (length act <= m)%nat /\
      unique_active_task_hashes S = list_to_set (task_hash <$> act)
  | None => unique_active_task_hashes S = ∅
  end.

Record counters_ok (n : Z) (S : SchedulingStateMachine) (act run : list Task) : Prop := {
  co_active : active_task_count S = Z.of_nat (length act);
  co_running : running_task_count S = Z.of_nat (length run);
  co_max : Z.of_nat (length run) <= max_running_task_count S <= u32_max;
  co_total : total_task_count S =
    handled_task_count S + active_task_count S + dropped_task_count S;
  co_handled : 0 <= handled_task_count S <= n;
  co_dropped : 0 <= dropped_task_count S;
  co_unblocked : 0 <= unblocked_task_count S <= n;
  co_bound : total_task_count S <= n;
  co_peak : active_task_count S <= peak_active_task_count S <= n
}.

(** ** What the operations need from the usage queues

    [sok S act run] is the discipline's invariant on the cells of [S]: the usage queues, the
    blocked usage counts and the queue of unblocked tasks, for the active tasks [act] of
    which [run] were handed out. *)
Class Discipline (cap : Capability)
    (sok : SchedulingStateMachine -> list Task -> list Task -> Prop) : Prop := {
  d_init S : capability S = cap -> queues S = ∅ -> counts S = ∅ ->
    unblocked_task_queue S = [] -> sok S [] [];
  d_same S S' act run run' : sok S act run -> capability S' = capability S ->
    queues S' = queues S -> counts S' = counts S ->
    run' ++ unblocked_task_queue S' ≡ₚ run ++ unblocked_task_queue S -> sok S' act run';
  d_ids S act run : sok S act run -> NoDup (task_id <$> act);
  d_nodup S act run : sok S act run -> NoDup (run ++ unblocked_task_queue S);
  d_active S act run x : sok S act run -> x ∈ run ++ unblocked_task_queue S -> x ∈ act;
  d_progress S act run : sok S act run -> act <> [] -> run ++ unblocked_task_queue S <> [];
  d_conflict S act run t x : sok S act run -> t ∈ run ++ unblocked_task_queue S ->
    x ∈ run ++ unblocked_task_queue S -> t <> x -> ~ conflict t x;
  d_released S a : sok S [] [] -> queue_of S a = new_queue cap;
  d_unblocked S t : sok S [] [] -> blocked_count (counts S) t = 0;
  (* locking enters the task, and reports whether it waits for nothing *)
  d_lock S act run t : sok S act run -> Z.of_nat (length act) < u32_max -> wf_task t ->
    task_id t ∉ task_id <$> act ->
    exists b q cs,
      try_lock_usage_queues S t = Ok (b, set_store S q cs (unblocked_task_queue S)) /\
      forall S' run', capability S' = cap -> queues S' = q -> counts S' = cs ->
        run' ++ unblocked_task_queue S' ≡ₚ
          (if b : bool then [t] else []) ++ run ++ unblocked_task_queue S ->
        sok S' (act ++ [t]) run';
  (* unlocking removes a task that was handed out *)
  d_unlock S act run t : sok S act run -> Z.of_nat (length act) < u32_max -> t ∈ run ->
    exists q cs ub, unlock_usage_queues S t = Ok (set_store S q cs ub) /\
      sok (set_store S q cs ub) (filter (fun x => x <> t) act) (filter (fun x => x <> t) run);
  d_cap S act run : sok S act run -> capability S = cap
}.

(** ** The operations *)

(** The admission checks of [schedule_or_buffer_task]. *)
Definition admits (S : SchedulingStateMachine) (t : Task) : bool :=
  match max_unique_active_task_count S with
  | Some m => negb (m <=? size (unique_active_task_hashes S))%nat &&
      negb (bool_decide (task_hash t ∈ unique_active_task_hashes S))
  | None => true
  end.

Lemma hashes_snoc S act t :
  hashes_ok S act -> admits S t = true ->
  match max_unique_active_task_count S with
  | Some m => NoDup (task_hash <$> act ++ [t]) /\ (length (act ++ [t]) <= m)%nat /\
      {[task_hash t]} ∪ unique_active_task_hashes S =
        (list_to_set (task_hash <$> act ++ [t]) : gset Hash)
  | None => unique_active_task_hashes S = ∅
  end.
Proof.
  unfold hashes_ok, admits. destruct (max_unique_active_task_count S) as [m|]; [|done].
  intros (Hnd & Hm & ->) [H1 H2]%andb_prop. apply negb_true_iff in H1, H2.
  apply bool_decide_eq_false in H2. rewrite elem_of_list_to_set in H2.
  rewrite size_list_to_set, length_fmap in H1 by done. apply Nat.leb_gt in H1.
  rewrite fmap_app, length_app. split; [|split; [simpl; lia|]].
  - apply NoDup_app. split; [done|]. split; [|apply NoDup_singleton].
    intros x Hx ->%list_elem_of_singleton. done.
  - rewrite list_to_set_app_L. simpl. set_solver.
Qed.

Ltac solve_counters :=
  constructor;
  cbn [active_task_count peak_active_task_count dropped_task_count running_task_count
    max_running_task_count handled_task_count unblocked_task_count total_task_count
    set_counters set_store push_unblocked];
  rewrite ?length_app; simpl length; lia.

Lemma bump_total_Ok n S act run :
  counters_ok n S act run -> n < u32_max ->
  bump_total S = Ok (set_counters S (unique_active_task_hashes S) (active_task_count S)
    (peak_active_task_count S) (dropped_task_count S) (running_task_count S)
    (handled_task_count S) (unblocked_task_count S) (total_task_count S + 1)).
Proof. intros [] Hn. unfold bump_total. by rewrite increment_Ok by lia. Qed.

(** The hash bookkeeping of [deschedule_task]. *)
Lemma hashes_release S act t :
  hashes_ok S act -> NoDup act -> t ∈ act ->
  exists h, (match max_unique_active_task_count S with
       | Some _ =>
         _ ← assert (bool_decide (task_hash t ∈ unique_active_task_hashes S));
         Ok (unique_active_task_hashes S ∖ {[task_hash t]})
       | None => Ok (unique_active_task_hashes S)
       end : res (gset Hash)) = Ok h /\
    hashes_ok (set_counters S h 0 0 0 0 0 0 0) (filter (fun x => x <> t) act).
Proof.
  unfold hashes_ok. cbn [max_unique_active_task_count unique_active_task_hashes set_counters].
  intros Hh Hnd Ht. destruct (max_unique_active_task_count S) as [m|]; [|by eauto].
  destruct Hh as (Hh & Hm & ->). eexists. split.
  { rewrite bool_decide_eq_true_2; [reflexivity|].
    by apply elem_of_list_to_set, list_elem_of_fmap_2. }
  pose proof (length_filter_ne act t Hnd Ht). split; [|split; [lia|]].
  - eapply sublist_NoDup; [exact Hh|]. apply fmap_sublist, sublist_filter.
  - apply set_eq. intros x. rewrite elem_of_difference, !elem_of_list_to_set, elem_of_singleton.
    rewrite !list_elem_of_fmap. setoid_rewrite list_elem_of_filter. split.
    + intros [(y & -> & Hy) Hne]. exists y. split; [done|]. split; [congruence|done].
    + intros (y & -> & Hyt & Hy). split; [by exists y|]. contradict Hyt.
      by apply (NoDup_fmap_inj task_hash act).
Qed.

Lemma active_bound n S act run : counters_ok n S act run -> Z.of_nat (length act) <= n.
Proof. intros []. lia. Qed.

Section machine.
Context {cap : Capability} {sok : SchedulingStateMachine -> list Task -> list Task -> Prop}.
Context `{!Discipline cap sok}.

Record inv (n : Z) (S : SchedulingStateMachine) (act run : list Task) : Prop := {
  i_store : sok S act run;
  i_hashes : hashes_ok S act;
  i_counters : counters_ok n S act run
}.

Lemma d_counters S act run h a p d r k u t :
  sok S act run -> sok (set_counters S h a p d r k u t) act run.
Proof. intros H. by apply (d_same S _ act run). Qed.

Lemma schedule_admitted_ok n S S0 act run t force h :
  inv n S0 act run -> bump_total S0 = Ok S ->
  hashes_ok (set_counters S h 0 0 0 0 0 0 0) (act ++ [t]) ->
  n < u32_max -> wf_task t -> task_id t ∉ task_id <$> act ->
  exists (b : bool) S',
    let r := if b && is_task_runnable S0 && negb force then Some t else None in
    schedule_admitted S h t force = Ok (r, S') /\
    inv (n + 1) S' (act ++ [t]) (run ++ option_list r) /\
    (t ∈ (run ++ option_list r) ++ unblocked_task_queue S' <-> b = true).
Proof.
  intros [Hst _ Hco] Hb Hh Hn Hwf Hid. pose proof (bump_total_Ok _ _ _ _ Hco Hn) as Hb'.
  rewrite Hb in Hb'. injection Hb' as ->. clear Hb.
  pose proof Hco as [Ca Cr Cm Ct Ch Cd Cu Cb Cp].
  unfold schedule_admitted. cbn [active_task_count set_counters].
  rewrite increment_Ok by lia. cbn [mbind outcome_bind].
  match goal with |- context [try_lock_usage_queues ?s t] => set (S1 := s) end.
  assert (sok S1 act run) as Hst1 by (by repeat apply d_counters).
  destruct (d_lock S1 act run t Hst1) as (b & q & cs & Hl & Hsok); [lia|done|done|].
  rewrite Hl. clear Hl. cbn [mbind outcome_bind]. exists b.
  set (S2 := set_store _ _ _ _). change (is_task_runnable S2) with (is_task_runnable S0).
  assert (t ∉ run ++ unblocked_task_queue S0) as Hnew.
  { intros Ht%(d_active _ _ _ _ Hst). by apply Hid, list_elem_of_fmap_2. }
  assert (forall S' run', capability S' = cap -> queues S' = q -> counts S' = cs ->
    run' ++ unblocked_task_queue S' ≡ₚ
      (if b : bool then [t] else []) ++ run ++ unblocked_task_queue S0 ->
    sok S' (act ++ [t]) run' /\ (t ∈ run' ++ unblocked_task_queue S' <-> b = true)) as Hfin.
  { intros S' run' H1 H2 H3 Hp. split; [by apply Hsok|]. rewrite Hp. destruct b; set_solver. }
  pose proof (d_cap _ _ _ Hst) as Hcap. unfold is_task_runnable. rewrite Cr.
  destruct b; cbn [negb andb]; [|].
  - destruct (Z.ltb_spec (Z.of_nat (length run)) (max_running_task_count S0)) as [Hm|Hm];
      [destruct force|]; cbn [negb andb orb]; rewrite increment_Ok by (cbn; lia);
      (eexists; split; [reflexivity|]; rewrite ?app_nil_r).
    1, 3: edestruct Hfin as [Hs Hin]; [..|split; [split; [exact Hs|exact Hh|]|exact Hin]];
      try done; [|subst S2 S1; solve_counters];
      cbn [unblocked_task_queue push_unblocked set_store set_counters]; rewrite app_assoc;
      symmetry; apply Permutation_cons_append.
    edestruct Hfin as [Hs Hin]; [..|split; [split; [exact Hs|exact Hh|]|exact Hin]];
      try done; [|subst S2 S1; solve_counters].
    cbn [unblocked_task_queue set_counters set_store]. symmetry. rewrite <-app_assoc.
    apply (Permutation_middle run _ t).
  - eexists. split; [reflexivity|]. rewrite app_nil_r.
    edestruct Hfin as [Hs Hin]; [..|split; [split; [exact Hs|exact Hh|]|exact Hin]];
      try done. subst S2 S1. solve_counters.
Qed.

Lemma drop_task_ok n S act run :
  inv n S act run -> n < u32_max ->
  exists S', drop_task (set_counters S (unique_active_task_hashes S) (active_task_count S)
    (peak_active_task_count S) (dropped_task_count S) (running_task_count S)
    (handled_task_count S) (unblocked_task_count S) (total_task_count S + 1))
    (unique_active_task_hashes S) = Ok (None, S') /\ inv (n + 1) S' act run /\
    unblocked_task_queue S' = unblocked_task_queue S.
Proof.
  intros [Hst Hh Hco] Hn. destruct Hco. unfold drop_task. cbn [dropped_task_count set_counters].
  rewrite increment_Ok by lia. eexists. split; [reflexivity|]. split; [|done]. split.
  - by repeat apply d_counters.
  - exact Hh.
  - solve_counters.
Qed.

(** Scheduling: [b] is whether the task waits for nothing. *)
Lemma schedule_ok n S act run t force :
  inv n S act run -> n < u32_max -> wf_task t -> task_id t ∉ task_id <$> act ->
  exists (b : bool) S',
    let r := if admits S t && b && is_task_runnable S && negb force then Some t else None in
    schedule_or_buffer_task S t force = Ok (r, S') /\
    inv (n + 1) S' (if admits S t then act ++ [t] else act) (run ++ option_list r) /\
    (admits S t = true -> t ∈ (run ++ option_list r) ++ unblocked_task_queue S' <-> b = true).
Proof.
  intros Hinv Hn Hwf Hid. pose proof Hinv as [Hst Hh Hco].
  pose proof (bump_total_Ok _ _ _ _ Hco Hn) as Hb. unfold schedule_or_buffer_task. rewrite Hb.
  cbn [mbind outcome_bind]. pose proof (drop_task_ok n S act run Hinv Hn) as (Sd & Hd & Hdi & _).
  set (S1 := set_counters _ _ _ _ _ _ _ _ _) in *.
  pose proof (fun h => schedule_admitted_ok n S1 S act run t force h Hinv Hb) as Hs.
  pose proof (hashes_snoc S act t Hh) as Hsn. unfold admits in *. unfold hashes_ok in Hs.
  cbn [max_unique_active_task_count unique_active_task_hashes set_counters S1] in *.
  destruct (max_unique_active_task_count S) as [m|].
  - destruct (m <=? _)%nat; cbn [negb andb] in *;
      [exists true, Sd; rewrite app_nil_r; done|].
    case_bool_decide; cbn [negb andb] in *; [exists true, Sd; rewrite app_nil_r; done|].
    destruct (Hs ({[task_hash t]} ∪ unique_active_task_hashes S)) as (b & S' & H1 & H2 & H3);
      [auto..|]. exists b, S'. done.
  - destruct (Hs (unique_active_task_hashes S)) as (b & S' & H1 & H2 & H3); [auto..|].
    exists b, S'. done.
Qed.

Lemma buffer_ok n S act run t :
  inv n S act run -> n < u32_max -> wf_task t -> task_id t ∉ task_id <$> act ->
  exists S', buffer_task S t = Ok S' /\
    inv (n + 1) S' (if admits S t then act ++ [t] else act) run.
Proof.
  intros Hinv Hn Hwf Hid. destruct (schedule_ok n S act run t true) as (b & S' & Hs & Hi & _);
    try done. rewrite andb_false_r in *. rewrite app_nil_r in Hi. exists S'. split; [|done].
  unfold buffer_task. by rewrite Hs.
Qed.

Lemma next_ok n S act run :
  inv n S act run -> n < u32_max ->
  let r := if is_task_runnable S then head (unblocked_task_queue S) else None in
  exists S', schedule_next_unblocked_task S = Ok (r, S') /\
    max_running_task_count S' = max_running_task_count S /\
    inv (n + 1) S' act (run ++ option_list r).
Proof.
  intros [Hst Hh Hco] Hn r. subst r. unfold schedule_next_unblocked_task.
  pose proof Hco as [Ca Cr Cm Ct Ch Cd Cu Cb Cp].
  assert (inv (n + 1) S act run) as Hsame by (split; [done|done|solve_counters]).
  destruct (is_task_runnable S) eqn:Hrun; cbn [negb];
    [|exists S; rewrite app_nil_r; done].
  unfold is_task_runnable in Hrun. apply Z.ltb_lt in Hrun.
  destruct (unblocked_task_queue S) as [|t ub] eqn:Hub; cbn [head];
    [exists S; rewrite app_nil_r; done|].
  rewrite !increment_Ok by lia. eexists. split; [reflexivity|]. split; [reflexivity|].
  split; [|exact Hh|solve_counters]. apply (d_same S _ act run); try done.
  cbn [unblocked_task_queue set_counters set_store option_list]. by rewrite <-app_assoc, Hub.
Qed.

Lemma deschedule_ok n S act run t :
  inv n S act run -> n < u32_max -> t ∈ run ->
  exists S', deschedule_task S t = Ok S' /\
    max_running_task_count S' = max_running_task_count S /\
    inv (n + 1) S' (filter (fun x => x <> t) act) (filter (fun x => x <> t) run).
Proof.
  intros [Hst Hh Hco] Hn Ht. pose proof Hco as [Ca Cr Cm Ct Ch Cd Cu Cb Cp].
  pose proof (NoDup_fmap_1 _ _ (d_ids _ _ _ Hst)) as Hids.
  pose proof (d_nodup _ _ _ Hst) as Hnd. apply NoDup_app in Hnd as (Hrun & _ & _).
  assert (t ∈ act) as Hta by (apply (d_active _ _ _ _ Hst), elem_of_app; by left).
  pose proof (length_filter_ne run t Hrun Ht) as Lr.
  pose proof (length_filter_ne act t Hids Hta) as La.
  unfold deschedule_task. rewrite (decrement_Ok (running_task_count S)) by lia.
  cbn [mbind outcome_bind].
  destruct (hashes_release S act t Hh Hids Hta) as (h & -> & Hh').
  cbn [mbind outcome_bind]. rewrite decrement_Ok, increment_Ok by lia. cbn [mbind outcome_bind].
  match goal with |- context [unlock_usage_queues ?s t] => set (S1 := s) end.
  destruct (d_unlock S1 act run t) as (q & cs & ub & Hs & Hst');
    [by repeat apply d_counters|lia|done|].
  eexists. split; [exact Hs|]. split; [done|]. split; [done|exact Hh'|]. subst S1. solve_counters.
Qed.

Lemma idle_queue n S : inv n S [] [] -> unblocked_task_queue S = [].
Proof.
  intros [Hst _ _]. destruct (unblocked_task_queue S) as [|t ub] eqn:Hu; [done|].
  assert (t ∈ @nil Task) as Ht; [|by apply elem_of_nil in Ht].
  apply (d_active _ _ _ _ Hst). rewrite Hu. left.
Qed.

Lemma reinitialize_ok n S :
  inv n S [] [] -> exists S', reinitialize S = Ok S' /\ inv 0 S' [] [].
Proof.
  intros Hinv. pose proof (idle_queue _ _ Hinv) as Hub. destruct Hinv as [Hst Hh Hco].
  pose proof Hco as [Ca Cr Cm Ct Ch Cd Cu Cb Cp].
  assert (unique_active_task_hashes S = ∅) as Hhs.
  { unfold hashes_ok in Hh. destruct (max_unique_active_task_count S); [|done].
    by destruct Hh as (_ & _ & ->). }
  simpl in Ca, Cr. unfold reinitialize, has_no_active_task. rewrite Ca, Cr, Hub, Hhs.
  eexists. split; [reflexivity|]. split.
  - by apply d_counters.
  - unfold hashes_ok in *. cbn [max_unique_active_task_count unique_active_task_hashes set_counters].
    destruct (max_unique_active_task_count S); [|done]. split; [constructor|]. split; [lia|done].
  - simpl in Cm. solve_counters.
Qed.

(** When nothing runs and a slot exists, an active task can be handed out. *)
Lemma next_some n S act :
  inv n S act [] -> act <> [] -> 0 < max_running_task_count S ->
  exists t ub, unblocked_task_queue S = t :: ub /\ is_task_runnable S = true.
Proof.
  intros [Hst _ Hco] Hact Hm. pose proof (d_progress _ _ _ Hst Hact) as Hp.
  destruct (unblocked_task_queue S) as [|t ub]; [done|]. exists t, ub. split; [done|].
  unfold is_task_runnable. destruct Hco as [_ -> _ _ _ _ _ _ _]. by apply Z.ltb_lt.
Qed.

(** Retiring every active task: each round hands out and deschedules one. *)
Lemma clear_loop_ok n S act count :
  inv n S act [] -> n + 2 * Z.of_nat (length act) < u32_max ->
  0 < max_running_task_count S -> 0 <= count -> count + Z.of_nat (length act) <= u32_max ->
  exists n' S', clear_loop (length act) S count = Ok (count + Z.of_nat (length act), S') /\
    inv n' S' [] [].
Proof.
  remember (length act) as k eqn:Hk. revert n S act count Hk.
  induction k as [|k IH]; intros n S act count Hk Hinv Hn Hm Hc Hck;
    destruct (next_ok n S act [] Hinv) as (S' & Hs & Hm' & Hinv'); try lia.
  - symmetry in Hk. apply nil_length_inv in Hk as ->.
    rewrite (idle_queue _ _ Hinv) in *. cbn [head] in *. exists (n + 1), S'. cbn [clear_loop].
    rewrite Hs. destruct (is_task_runnable S); cbn [mbind outcome_bind]; by rewrite Z.add_0_r.
  - destruct (next_some n S act Hinv) as (t & ub & Hu & Hrun); [by intros ->|done|].
    rewrite Hu, Hrun in *. cbn [head] in *.
    destruct (deschedule_ok (n + 1) S' act [t] t) as (S2 & Hs2 & Hm2 & Hinv2); [done|lia|left|].
    rewrite (filter_cons_False _ t []) in Hinv2 by auto.
    assert (t ∈ act) as Hta by (apply (d_active _ _ _ _ (i_store _ _ _ _ Hinv)); rewrite Hu; left).
    pose proof (NoDup_fmap_1 _ _ (d_ids _ _ _ (i_store _ _ _ _ Hinv))) as Hnd.
    rewrite (length_filter_ne act t Hnd Hta) in Hk. injection Hk as Hk.
    destruct (IH (n + 1 + 1) S2 (filter (fun x => x <> t) act) (count + 1))
      as (n' & S3 & Hs3 & Hinv3); [done|done|lia|congruence|lia|lia|].
    exists n', S3. split; [|done]. cbn [clear_loop]. rewrite Hs. cbn [mbind outcome_bind].
    rewrite Hs2. cbn [mbind outcome_bind]. rewrite increment_Ok by lia.
    cbn [mbind outcome_bind]. rewrite Hs3. do 2 f_equal. lia.
Qed.
End machine.
Arguments inv sok n S act run : clear implicits.

(** ** Reachable states

    [act] lists the active tasks in the order they were scheduled and [run] those handed
    out to the caller. The caller schedules tasks with distinct addresses and fresh ids,
    and deschedules tasks it was handed. [n] counts the operations since the counters were
    last reset: the machine's counters are 32 bits wide. *)
Inductive reach (cap : Capability) :
    Z -> SchedulingStateMachine -> list Task -> list Task -> Prop :=
| fr_init max_running max_unique S :
    exclusively_initialize_current_thread_for_scheduling max_running max_unique cap
      = Ok S ->
    reach cap 0 S [] []
| fr_schedule n S act run t force r S' :
    reach cap n S act run -> n < u32_max -> wf_task t ->
    task_id t ∉ task_id <$> act ->
    schedule_or_buffer_task S t force = Ok (r, S') ->
    reach cap (n + 1) S' (if admits S t then act ++ [t] else act) (run ++ option_list r)
| fr_buffer n S act run t S' :
    reach cap n S act run -> n < u32_max -> wf_task t ->
    task_id t ∉ task_id <$> act ->
    buffer_task S t = Ok S' ->
    reach cap (n + 1) S' (if admits S t then act ++ [t] else act) run
| fr_next n S act run r S' :
    reach cap n S act run -> n < u32_max ->
    schedule_next_unblocked_task S = Ok (r, S') ->
    reach cap (n + 1) S' act (run ++ option_list r)
| fr_deschedule n S act run t S' :
    reach cap n S act run -> n < u32_max -> t ∈ run ->
    deschedule_task S t = Ok S' ->
    reach cap (n + 1) S' (filter (fun x => x <> t) act) (filter (fun x => x <> t) run)
| fr_reinitialize n S S' :
    reach cap n S [] [] -> reinitialize S = Ok S' -> reach cap 0 S' [] [].

(** ** Progress *)

(** Handing out an unblocked task, or descheduling one that was handed out. *)
Inductive retire :
    SchedulingStateMachine * list Task * list Task ->
    SchedulingStateMachine * list Task * list Task -> Prop :=
| retire_next S act run t S' :
    schedule_next_unblocked_task S = Ok (Some t, S') -> retire (S, act, run) (S', act, run ++ [t])
| retire_done S act run t S' :
    t ∈ run -> deschedule_task S t = Ok S' ->
    retire (S, act, run) (S', filter (fun x => x <> t) act, filter (fun x => x <> t) run).

(** The number of [retire] steps left. *)
Definition work (act run : list Task) : Z :=
  2 * Z.of_nat (length act) - Z.of_nat (length run).

Section reachable.
Context {cap : Capability} {sok : SchedulingStateMachine -> list Task -> list Task -> Prop}.
Context `{!Discipline cap sok}.

Lemma init_inv max_running max_unique S :
  exclusively_initialize_current_thread_for_scheduling max_running max_unique cap = Ok S ->
  inv sok 0 S [] [].
Proof.
  unfold exclusively_initialize_current_thread_for_scheduling, assert.
  set (m := match max_running with Some n => Z.of_nat n | None => u32_max end).
  assert (0 <= m) as Hm by (subst m; destruct max_running; unfold u32_max; lia).
  clearbody m. destruct (Z.leb_spec m u32_max); cbn [mbind outcome_bind]; [|done].
  intros [= <-]. split.
  - by apply d_init.
  - unfold hashes_ok. cbn. destruct max_unique; [|done].
    split; [constructor|]. split; [lia|done].
  - constructor; cbn -[u32_max]; lia.
Qed.

Lemma reach_inv n S act run : reach cap n S act run -> inv sok n S act run.
Proof.
  induction 1 as [|n S act run t force r S' _ IH Hn Hwf Hid Hs|n S act run t S' _ IH Hn Hwf Hid Hs
    |n S act run r S' _ IH Hn Hs|n S act run t S' _ IH Hn Ht Hs|n S S' _ IH Hs].
  - by eapply init_inv.
  - destruct (schedule_ok n S act run t force) as (b & S1 & Hs1 & Hi & _); [done..|].
    rewrite Hs in Hs1. injection Hs1 as -> ->. done.
  - destruct (buffer_ok n S act run t) as (S1 & Hs1 & Hi); [done..|].
    rewrite Hs in Hs1. injection Hs1 as ->. done.
  - destruct (next_ok n S act run) as (S1 & Hs1 & _ & Hi); [done..|].
    rewrite Hs in Hs1. injection Hs1 as -> ->. done.
  - destruct (deschedule_ok n S act run t) as (S1 & Hs1 & _ & Hi); [done..|].
    rewrite Hs in Hs1. injection Hs1 as ->. done.
  - destruct (reinitialize_ok n S) as (S1 & Hs1 & Hi); [done|].
    rewrite Hs in Hs1. injection Hs1 as ->. done.
Qed.

Lemma work_nonneg n S act run : inv sok n S act run -> Z.of_nat (length act) <= work act run.
Proof.
  intros [Hst _ _]. unfold work. pose proof (d_nodup _ _ _ Hst) as Hnd.
  apply NoDup_app in Hnd as (Hnd & _ & _).
  enough (length run <= length act)%nat by lia.
  apply submseteq_length, NoDup_submseteq; [done|]. intros x Hx.
  apply (d_active _ _ _ _ Hst), elem_of_app. by left.
Qed.

Lemma retire_inv n S act run S' act' run' :
  inv sok n S act run -> n < u32_max -> retire (S, act, run) (S', act', run') ->
  inv sok (n + 1) S' act' run' /\ work act' run' = work act run - 1 /\
  max_running_task_count S' = max_running_task_count S.
Proof.
  intros Hi Hn Hr. inversion Hr as [? ? ? t ? Hs|? ? ? t ? Ht Hs]; subst.
  - destruct (next_ok n S act' run Hi Hn) as (S1 & Hs1 & Hm & Hi1).
    rewrite Hs in Hs1. injection Hs1 as Ht ->. rewrite <-Ht in Hi1. split; [done|]. split; [|done].
    unfold work. rewrite length_app. cbn [length]. lia.
  - destruct (deschedule_ok n S act run t Hi Hn Ht) as (S1 & Hs1 & Hm & Hi1).
    rewrite Hs in Hs1. injection Hs1 as ->. split; [done|]. split; [|done].
    destruct Hi as [Hst _ _]. pose proof (d_nodup _ _ _ Hst) as Hnd. unfold work.
    rewrite (length_filter_ne run t), (length_filter_ne act t); [lia| | | |done].
    + by eapply NoDup_fmap_1, d_ids.
    + apply (d_active _ _ _ _ Hst), elem_of_app. by left.
    + by apply NoDup_app in Hnd as (? & _ & _).
Qed.

Lemma retire_enabled n S act run :
  inv sok n S act run -> n < u32_max -> 0 < max_running_task_count S -> act <> [] ->
  exists c, retire (S, act, run) c.
Proof.
  intros Hi Hn Hm Hact. destruct run as [|t run].
  - destruct (next_some n S act Hi Hact Hm) as (t & ub & Hu & Hrun).
    destruct (next_ok n S act [] Hi Hn) as (S1 & Hs1 & _ & _).
    rewrite Hrun, Hu in Hs1. eexists. by constructor.
  - destruct (deschedule_ok n S act (t :: run) t Hi Hn) as (S1 & Hs1 & _ & _); [left|].
    eexists. apply (retire_done _ _ _ t); [left|done].
Qed.

Lemma drains n S act run k S' act' run' :
  inv sok n S act run -> n + work act run < u32_max -> 0 < max_running_task_count S ->
  nsteps retire k (S, act, run) (S', act', run') ->
  Z.of_nat k + work act' run' = work act run /\ 0 <= work act' run' /\
  (act' = [] \/ exists c, retire (S', act', run') c).
Proof.
  revert n S act run. induction k as [|k IH]; intros n S act run Hi Hn Hm Hk.
  - inversion Hk; subst. pose proof (work_nonneg _ _ _ _ Hi). split; [lia|]. split; [lia|].
    destruct (decide (act' = [])) as [->|Ha]; [by left|]. right.
    eapply retire_enabled; [done|lia|done|done].
  - inversion Hk as [|? ? [[S1 act1] run1] ? H1 H2]; subst.
    pose proof (work_nonneg _ _ _ _ Hi).
    destruct (retire_inv n S act run S1 act1 run1) as (Hi1 & Hw & Hm1); [done|lia|done|].
    destruct (IH (n + 1) S1 act1 run1) as (IH1 & IH2 & IH3); [done|lia|congruence|done|].
    split; [lia|done].
Qed.

Lemma clear_ok n S act :
  inv sok n S act [] -> n + 2 * Z.of_nat (length act) < u32_max ->
  0 < max_running_task_count S ->
  exists S', clear_and_reinitialize S = Ok (Z.of_nat (length act), S') /\ inv sok 0 S' [] [].
Proof.
  intros Hi Hn Hm.
  destruct (clear_loop_ok n S act 0) as (n' & S1 & H1 & Hi1); [done|done|done|lia| |].
  { destruct Hi as [_ _ []]. lia. }
  destruct (reinitialize_ok n' S1 Hi1) as (S2 & H2 & Hi2).
  exists S2. unfold clear_and_reinitialize. destruct Hi as [_ _ [-> _ _ _ _ _ _ _ _]].
  rewrite Nat2Z.id, H1. cbn [mbind outcome_bind]. by rewrite H2.
Qed.
End reachable.
