(* ===== verification/UnifiedFifo.v ===== *)
(** * First-in-first-out usage queues

    What a FIFO usage queue of the unified scheduler holds, as a function of the list of
    tasks that use its address in the order they were scheduled; and what locking and
    releasing an address do to that list. *)

From S2P Require Import Prelude UnifiedScheduler UnifiedMachine.
Local Open Scope Z_scope.

(** ** What a usage queue holds, from the tasks that use its address *)

(** The leading readers. *)
Fixpoint lead (l : list UsageFromTask) : nat :=
  match l with
  | (Readonly, _) :: l => S (lead l)
  | _ => 0
  end.

(** How many of the users currently hold the address: one writer, or all leading readers. *)
Definition nhold (l : list UsageFromTask) : nat :=
  match l with
  | (Writable, _) :: _ => 1
  | _ => lead l
  end.
Definition holders (l : list UsageFromTask) : list UsageFromTask := take (nhold l) l.

Definition fifo_current (l : list UsageFromTask) : option FifoUsage :=
  match l with
  | [] => None
  | (Writable, _) :: _ => Some (UWritable ())
  | (Readonly, _) :: _ => Some (UReadonly (Z.of_nat (lead l)))
  end.
Definition fifo_spec (l : list UsageFromTask) : UsageQueueInner :=
  Fifo (fifo_current l) (drop (nhold l) l).

Lemma lead_le l : (lead l <= length l)%nat.
Proof. induction l as [|[[] t] l IH]; simpl; lia. Qed.
Lemma nhold_le l : (nhold l <= length l)%nat.
Proof. destruct l as [|[[] t] l]; simpl; [lia|pose proof (lead_le l); lia|lia]. Qed.

Lemma lead_snoc l u t :
  lead (l ++ [(u, t)]) =
  if decide (lead l = length l /\ u = Readonly) then S (lead l) else lead l.
Proof.
  induction l as [|[[] t'] l IH]; cbn [lead app length].
  - destruct u; [by rewrite decide_True|by rewrite decide_False by naive_solver].
  - rewrite IH. repeat case_decide; naive_solver lia.
  - by rewrite decide_False by lia.
Qed.

(** Whether a newcomer joins the holders. *)
Definition joins (l : list UsageFromTask) (u : RequestedUsage) : bool :=
  match l with
  | [] => true
  | (Writable, _) :: _ => false
  | (Readonly, _) :: _ => bool_decide (lead l = length l /\ u = Readonly)
  end.

Lemma joins_full l u : joins l u = true -> nhold l = length l.
Proof. destruct l as [|[[] t'] l]; [done| |done]. intros []%bool_decide_eq_true. done. Qed.

Lemma nhold_snoc l u t :
  nhold (l ++ [(u, t)]) = if joins l u then S (nhold l) else nhold l.
Proof.
  destruct l as [|[[] t'] l]; [by destruct u| |done].
  change (nhold (((Readonly, t') :: l) ++ [(u, t)])) with (S (lead (l ++ [(u, t)]))).
  rewrite lead_snoc. cbn [nhold lead length joins].
  repeat case_decide; case_bool_decide; naive_solver lia.
Qed.

Lemma holders_snoc l u t :
  holders (l ++ [(u, t)]) = if joins l u then holders l ++ [(u, t)] else holders l.
Proof.
  unfold holders. pose proof (nhold_le l). rewrite nhold_snoc. destruct (joins l u) eqn:Hj.
  - pose proof (joins_full l u Hj) as Hl. rewrite Hl, (take_ge l) by lia.
    rewrite take_ge by (rewrite length_app; simpl; lia). done.
  - by rewrite take_app_le.
Qed.

(** ** Locking one address *)

#[local] Opaque increment decrement.

Lemma fifo_current_app l l' : l <> [] -> is_Some (fifo_current (l ++ l')).
Proof. destruct l as [|[[] t] l]; [done|by eexists..]. Qed.

Lemma try_lock_joins l u t :
  joins l u = true -> Z.of_nat (length l) < u32_max ->
  try_lock (fifo_spec l) t u = Ok (true, fifo_spec (l ++ [(u, t)])).
Proof.
  intros Hj Hl. pose proof (joins_full l u Hj) as Hf.
  pose proof (nhold_snoc l u t) as Hs. rewrite Hj in Hs.
  unfold fifo_spec. rewrite Hs, Hf, !drop_ge by (rewrite ?length_app; simpl; lia).
  destruct l as [|[[] t'] l]; [by destruct u| |done].
  apply bool_decide_eq_true in Hj as [Hr ->]. cbn [fifo_current app try_lock].
  change ((Readonly, t') :: l ++ [(Readonly, t)]) with (((Readonly, t') :: l) ++ [(Readonly, t)]).
  rewrite lead_snoc, decide_True by done. rewrite increment_Ok by (rewrite Hr; lia).
  rewrite Nat2Z.inj_succ, <-Z.add_1_r. reflexivity.
Qed.

Lemma try_lock_waits l u t :
  joins l u = false -> drop (nhold l) l = [] ->
  try_lock (fifo_spec l) t u = Ok (false, fifo_spec l).
Proof.
  intros Hj Hd. destruct l as [|[[] t'] l]; [done| |done].
  destruct u; [|done]. apply bool_decide_eq_false in Hj. contradict Hj. split; [|done].
  apply (f_equal length) in Hd. rewrite length_drop in Hd.
  pose proof (lead_le ((Readonly, t') :: l)). cbn [nhold length] in *. lia.
Qed.

Lemma push_blocked_fifo l u t :
  joins l u = false ->
  push_blocked (fifo_spec l) (u, t) = Ok (fifo_spec (l ++ [(u, t)])).
Proof.
  intros Hj. unfold fifo_spec. rewrite nhold_snoc, Hj, drop_app_le by apply nhold_le.
  destruct l as [|[[] t'] l]; [done| |done].
  cbn [fifo_current push_blocked current_usage usage_kind fmap option_fmap option_map push app].
  change ((Readonly, t') :: l ++ [(u, t)]) with (((Readonly, t') :: l) ++ [(u, t)]).
  rewrite lead_snoc, decide_False; [done|].
  intros [Hf ->]. apply bool_decide_eq_false in Hj. by apply Hj.
Qed.

(** Locking an address in the loop of [try_lock_usage_queues]: the newcomer either joins
    the holders or is appended to the blocked queue and counted. *)
Lemma lock_context_fifo S l t c n :
  queue_of S (usage_queue c) = fifo_spec l ->
  Z.of_nat (length l) < u32_max -> 0 <= n < u32_max ->
  lock_context S t c n =
  Ok (if joins l (requested_usage c) then n else n + 1,
      set_queue_counts S (usage_queue c) (fifo_spec (l ++ [(requested_usage c, t)])) (counts S)).
Proof.
  intros Hq Hl Hn. unfold lock_context. rewrite Hq. clear Hq.
  destruct c as [a u]. cbn [usage_queue requested_usage].
  change (prepare_lock (fifo_spec l) (counts S) t u) with
    (Ok (match drop (nhold l) l with [] => true | _ => false end, counts S, fifo_spec l)
      : res _).
  cbn [mbind outcome_bind]. destruct (joins l u) eqn:Hj.
  - rewrite drop_ge by (by rewrite (joins_full l u Hj)). by rewrite try_lock_joins.
  - destruct (drop (nhold l) l) eqn:Hd; [rewrite try_lock_waits by done|];
      cbn [mbind outcome_bind]; rewrite increment_Ok by lia; cbn [mbind outcome_bind];
      by rewrite push_blocked_fifo.
Qed.

(** ** Who holds an address *)
Definition held (l : list UsageFromTask) (t : Task) : Prop := t ∈ snd <$> holders l.
#[export] Instance held_dec l t : Decision (held l t).
Proof. unfold held. apply _. Defined.

Definition compatible (u : RequestedUsage) (x : UsageFromTask) : Prop :=
  u = Readonly /\ x.1 = Readonly.

Lemma lead_full l : lead l = length l <-> Forall (fun x => x.1 = Readonly) l.
Proof.
  induction l as [|[[] t] l IH]; cbn [lead length]; [done| |].
  - rewrite Forall_cons, <-IH. simpl. naive_solver lia.
  - rewrite Forall_cons. simpl. split; [lia|naive_solver].
Qed.

Lemma joins_compatible l u : joins l u = true <-> Forall (compatible u) l.
Proof.
  unfold compatible. destruct l as [|[[] t'] l].
  - done.
  - cbn [joins]. rewrite bool_decide_eq_true, lead_full, !Forall_forall. split; [naive_solver|].
    intros H. split; [naive_solver|]. destruct (H (Readonly, t')); [left|done].
  - simpl. rewrite Forall_cons. naive_solver.
Qed.

(** Later users never take an address away from its holders. *)
Lemma holders_app l l' : holders l `prefix_of` holders (l ++ l').
Proof.
  induction l' as [|[u t] l' IH] using rev_ind; [by rewrite app_nil_r|].
  rewrite app_assoc, holders_snoc. destruct (joins _ _); [by apply prefix_app_r|done].
Qed.
Lemma held_app l l' t : held l t -> held (l ++ l') t.
Proof.
  unfold held. intros H. destruct (holders_app l l') as [k ->].
  rewrite fmap_app. set_solver.
Qed.

Lemma holders_app_inv l l' x : x ∈ holders (l ++ l') -> x ∈ holders l \/ x ∈ l'.
Proof.
  induction l' as [|[u t] l' IH] using rev_ind; [rewrite app_nil_r; auto|].
  rewrite app_assoc, holders_snoc. destruct (joins _ _); set_solver.
Qed.
Lemma held_app_inv l l' t : held (l ++ l') t -> t ∉ snd <$> l' -> held l t.
Proof.
  unfold held. rewrite !list_elem_of_fmap. intros (x & -> & Hx) Hn.
  apply holders_app_inv in Hx as [?|?]; [by eauto|]. contradict Hn. eauto.
Qed.

Lemma holders_sub l x : x ∈ holders l -> x ∈ l.
Proof. intros H. rewrite <-(take_drop (nhold l) l). apply elem_of_app. by left. Qed.

(** A user holds its address exactly when it is compatible with everyone ahead of it. *)
Lemma held_iff l1 u t l2 :
  NoDup (snd <$> l1 ++ (u, t) :: l2) ->
  held (l1 ++ (u, t) :: l2) t <-> Forall (compatible u) l1.
Proof.
  intros Hnd. rewrite fmap_app in Hnd. apply NoDup_app in Hnd as (_ & H1 & H2).
  apply NoDup_cons in H2 as [H2 _].
  assert (t ∉ snd <$> l1) as H1' by (intros H%H1; apply H; left).
  rewrite <-joins_compatible. change (l1 ++ (u, t) :: l2) with (l1 ++ [(u, t)] ++ l2).
  rewrite app_assoc. split.
  - intros H%held_app_inv; [|done]. unfold held in H. rewrite holders_snoc in H.
    destruct (joins l1 u); [done|]. contradict H1'.
    apply list_elem_of_fmap in H as (x & -> & ?%holders_sub). apply list_elem_of_fmap; eauto.
  - intros Hj. apply held_app. unfold held. rewrite holders_snoc, Hj, fmap_app. set_solver.
Qed.

(** ** Handing an address over *)

Definition readers (k : nat) : option FifoUsage :=
  match k with O => None | _ => Some (UReadonly (Z.of_nat k)) end.

Lemma try_lock_readers k l x :
  Z.of_nat k < u32_max ->
  try_lock (Fifo (readers k) l) x Readonly = Ok (true, Fifo (readers (S k)) l).
Proof.
  intros H. destruct k as [|k]; [done|]. cbn [readers try_lock].
  rewrite increment_Ok by lia. rewrite (Nat2Z.inj_succ (S k)), <-Z.add_1_r. reflexivity.
Qed.

Lemma relock_readers fuel k l cs ub x :
  let ts := x :: (take (lead l) l).*2 in
  (lead l < fuel)%nat -> Z.of_nat (k + lead l) < u32_max ->
  NoDup (task_id <$> ts) -> (forall y, y ∈ ts -> 0 < blocked_count cs y) ->
  relock_loop fuel (Fifo (readers k) l) cs ub (Some (Readonly, x)) =
  Ok (Fifo (readers (k + S (lead l))) (drop (lead l) l),
      (unblock_all (cs, ub) ts).1, (unblock_all (cs, ub) ts).2).
Proof.
  revert fuel k cs ub x.
  induction l as [|[u y] l IH]; intros [|fuel] k cs ub x ts Hf Hk Hnd Hpos; try lia;
    (cbn [relock_loop]; rewrite try_lock_readers by lia; cbn [mbind outcome_bind assert];
     unfold try_unblock; rewrite decrement_Ok by (apply Hpos; left);
     cbn [mbind outcome_bind]; unfold pop_lockable_readonly; cbn [peek_blocked head]).
  - rewrite Nat.add_1_r. destruct fuel; reflexivity.
  - destruct u; [|rewrite Nat.add_1_r; destruct fuel; reflexivity].
    cbn [current_usage readers fmap option_fmap option_map usage_kind pop mbind outcome_bind].
    cbn [lead] in *. apply NoDup_cons in Hnd as [Hx Hnd].
    rewrite (IH fuel (S k)); [by rewrite (Nat.add_succ_r k)|lia|lia|done|].
    intros z Hz. cbn [unblock_one fst]. rewrite blocked_count_set, decide_False.
    + apply Hpos. by right.
    + intros Hxz. apply Hx. rewrite Hxz. by apply list_elem_of_fmap_2.
Qed.

(** The first waiting writer, or all leading waiting readers, take over a free address. *)
Lemma relock_handover l cs ub :
  let '(next, q) := pop (Fifo None l) in
  Z.of_nat (length l) < u32_max -> NoDup (task_id <$> l.*2) ->
  (forall y, y ∈ (holders l).*2 -> 0 < blocked_count cs y) ->
  relock_loop (S (blocked_length q)) q cs ub next = 
  Ok (fifo_spec l, (unblock_all (cs, ub) (holders l).*2).1,
      (unblock_all (cs, ub) (holders l).*2).2).
Proof.
  destruct l as [|[[] x] l]; cbn [pop]; [done| |].
  - intros Hl Hnd Hpos. pose proof (lead_le l). cbn [length] in Hl.
    rewrite (relock_readers _ 0); [done|cbn [blocked_length]; lia|lia| |done].
    eapply sublist_NoDup; [apply Hnd|].
    apply fmap_sublist, (sublist_skip x), fmap_sublist, sublist_take.
  - intros Hl Hnd Hpos. cbn [relock_loop try_lock mbind outcome_bind assert].
    unfold try_unblock. rewrite decrement_Ok by (apply Hpos; left).
    cbn [mbind outcome_bind]. by destruct (blocked_length _).
Qed.

(** The users of an address after a task released it, and the tasks it was handed to. *)
Definition rm (t : Task) (l : list UsageFromTask) : list UsageFromTask :=
  filter (fun x => x.2 <> t) l.
Definition handed (l : list UsageFromTask) : list Task :=
  if (nhold l =? 1)%nat then (holders (tail l)).*2 else [].

Lemma rm_id t l : t ∉ l.*2 -> rm t l = l.
Proof.
  intros H. apply filter_all. intros x Hx <-. by apply H, list_elem_of_fmap_2.
Qed.

Lemma lead_rm t l :
  NoDup (l.*2) -> t ∈ (take (lead l) l).*2 ->
  lead l = S (lead (rm t l)) /\ drop (lead (rm t l)) (rm t l) = drop (lead l) l /\
  take (lead (rm t l)) (rm t l) = rm t (take (lead l) l).
Proof.
  induction l as [|[[] x] l IH]; cbn [lead take drop]; intros Hnd Ht; [set_solver| |set_solver].
  apply NoDup_cons in Hnd as [Hx Hnd]. unfold rm. rewrite filter_cons. simpl.
  case_decide as Hxt.
  - destruct IH as (IH1 & IH2 & IH3); [done|set_solver|]. cbn [lead drop take]. fold (rm t l).
    rewrite <-IH1. split; [done|]. split; [done|]. by rewrite IH3, filter_cons_True.
  - subst x. fold (rm t l). rewrite (rm_id t l) by done. split; [done|]. split; [done|].
    rewrite filter_cons_False by (simpl; auto). symmetry. apply rm_id. contradict Hx.
    apply list_elem_of_fmap in Hx as (y & -> & Hy). apply (list_elem_of_fmap_2 snd l y).
    rewrite <-(take_drop (lead l) l). apply elem_of_app. by left.
Qed.

Lemma lead_readers l u t : (u, t) ∈ take (lead l) l -> u = Readonly.
Proof. induction l as [|[[] x] l IH]; cbn [lead take]; set_solver. Qed.

Lemma fifo_spec_readers l :
  (0 < lead l)%nat -> fifo_spec l = Fifo (Some (UReadonly (Z.of_nat (lead l)))) (drop (lead l) l).
Proof. destruct l as [|[[] x] l]; cbn [lead]; [lia|done|lia]. Qed.

(** Releasing an address in the loop of [unlock_usage_queues]. *)
Lemma unlock_context_fifo S l t c :
  let s := unblock_all (counts S, unblocked_task_queue S) (handed l) in
  queue_of S (usage_queue c) = fifo_spec l -> (requested_usage c, t) ∈ holders l ->
  Z.of_nat (length l) < u32_max -> NoDup (task_id <$> l.*2) ->
  (forall y, y ∈ handed l -> 0 < blocked_count (counts S) y) ->
  unlock_context S t c =
  Ok (set_store S (<[usage_queue c := fifo_spec (rm t l)]> (queues S)) s.1 s.2).
Proof.
  intros s Hq Ht Hl Hnd Hpos. unfold unlock_context. rewrite Hq. clear Hq.
  destruct c as [a u]. cbn [usage_queue requested_usage] in *.
  pose proof (NoDup_fmap_1 _ _ Hnd) as Hnd2.
  destruct l as [|[w x] l]; [by apply elem_of_nil in Ht|].
  destruct (decide (nhold ((w, x) :: l) = 1%nat)) as [H1|H1].
  - unfold s, handed in *. rewrite H1 in *. cbn [Nat.eqb tail] in *.
    unfold holders in Ht. rewrite H1 in Ht. apply list_elem_of_singleton in Ht as [= <- <-].
    assert (rm t ((u, t) :: l) = l) as Hrm.
    { unfold rm. rewrite filter_cons_False by (simpl; auto). apply rm_id.
      by apply NoDup_cons in Hnd2 as [? _]. }
    pose proof (relock_handover l (counts S) (unblocked_task_queue S)) as Hr.
    destruct (pop (Fifo None l)) as [next q] eqn:Hp.
    assert (unlock (fifo_spec ((u, t) :: l)) t u = Ok (next, q)) as ->.
    { rewrite <-Hp. destruct u; [|done].
      assert (lead l = 0)%nat as H0 by (cbn [nhold lead] in H1; lia).
      unfold fifo_spec. cbn [fifo_current nhold lead]. rewrite H0. reflexivity. }
    cbn [mbind outcome_bind]. rewrite Hr; [by rewrite Hrm| | |done].
    + cbn [length] in Hl. lia.
    + by apply NoDup_cons in Hnd as [_ ?].
  - destruct w; [|done]. change (nhold _) with (lead ((Readonly, x) :: l)) in H1.
    unfold holders in Ht. change (nhold _) with (lead ((Readonly, x) :: l)) in Ht.
    assert (u = Readonly) as -> by (eapply lead_readers, Ht).
    destruct (lead_rm t ((Readonly, x) :: l)) as (H2 & H3 & _);
      [done|by apply (list_elem_of_fmap_2 snd) in Ht|].
    unfold s, handed. change (nhold _) with (lead ((Readonly, x) :: l)).
    rewrite (proj2 (Nat.eqb_neq _ _) H1). rewrite !fifo_spec_readers by lia.
    rewrite <-H3. unfold unlock.
    destruct (Z.eqb_spec (Z.of_nat (lead ((Readonly, x) :: l))) 1); [lia|].
    rewrite decrement_Ok by lia. cbn [mbind outcome_bind].
    rewrite H2. by rewrite Nat2Z.inj_succ, Z.sub_1_r, Z.pred_succ.
Qed.

(** The holders after a release: those that remain and those the address was handed to. *)
Lemma held_rm l t x :
  NoDup (l.*2) -> held l t -> x <> t -> held (rm t l) x <-> held l x \/ x ∈ handed l.
Proof.
  intros Hnd Ht Hx. destruct l as [|[u y] l]; [by apply elem_of_nil in Ht|].
  unfold handed. destruct (Nat.eqb_spec (nhold ((u, y) :: l)) 1) as [H1|H1].
  - unfold held in *. unfold holders in Ht. unfold holders at 2. rewrite H1 in *.
    apply list_elem_of_singleton in Ht. simpl in Ht. subst y. cbn [tail take].
    unfold rm. rewrite filter_cons_False by (simpl; auto). fold (rm t l).
    rewrite rm_id by (by apply NoDup_cons in Hnd as [? _]).
    simpl. rewrite list_elem_of_singleton. naive_solver.
  - rewrite elem_of_nil. unfold held, holders in *. destruct u; [|done].
    change (nhold ((Readonly, y) :: l)) with (lead ((Readonly, y) :: l)) in *.
    set (l0 := (Readonly, y) :: l) in *. clearbody l0.
    destruct (lead_rm t l0 Hnd Ht) as (H2 & H3 & H4).
    assert (nhold (rm t l0) = lead (rm t l0)) as ->.
    { destruct (rm t l0) as [|[[] ?] ?]; [done|done|]. cbn [lead] in H2. lia. }
    rewrite H4, !list_elem_of_fmap. unfold rm. setoid_rewrite list_elem_of_filter. naive_solver.
Qed.

Lemma handed_sub l x : x ∈ handed l -> x ∈ l.*2.
Proof.
  unfold handed. destruct (_ =? _)%nat; [|set_solver]. destruct l as [|y l]; [set_solver|].
  intros H. right. apply list_elem_of_fmap in H as (z & -> & ?%holders_sub).
  by apply list_elem_of_fmap_2.
Qed.

Lemma handed_new l x : NoDup (l.*2) -> x ∈ handed l -> ~ held l x.
Proof.
  intros Hnd. unfold handed. destruct (Nat.eqb_spec (nhold l) 1) as [H1|H1]; [|set_solver].
  destruct l as [|y l]; [set_solver|]. cbn [tail]. unfold held. unfold holders at 2. rewrite H1.
  intros Hx. apply NoDup_cons in Hnd as [Hy _]. intros ->%list_elem_of_singleton. apply Hy. apply list_elem_of_fmap in Hx as (z & Hz & ?%holders_sub).
  rewrite Hz. by apply list_elem_of_fmap_2.
Qed.
Lemma handed_nodup l : NoDup (task_id <$> l.*2) -> NoDup (task_id <$> handed l).
Proof.
  intros H. unfold handed. destruct (_ =? _)%nat; [|constructor].
  eapply sublist_NoDup; [apply H|]. apply fmap_sublist, fmap_sublist.
  destruct l as [|y l]; [done|]. apply sublist_cons, sublist_take.
Qed.
