(* ===== verification/UnifiedFifoProofs.v ===== *)
(** * First-in-first-out scheduling

    Correctness of the unified scheduler's state machine with FIFO usage queues, the mode
    of block verification: the usage queues and the blocked usage counts are functions of
    the list of active tasks in the order they were scheduled, a task is handed out only
    when no active task scheduled before it conflicts with it, and no operation panics. *)

From S2P Require Import Prelude UnifiedScheduler UnifiedMachine UnifiedFifo.
Local Open Scope Z_scope.
#[local] Opaque increment decrement.

(** ** The users of each address *)
Definition task_uses (t : Task) (cs : list LockContext) (a : Pubkey) : list UsageFromTask :=
  (fun c => (requested_usage c, t)) <$> filter (fun c => usage_queue c = a) cs.
Definition uses (act : list Task) (a : Pubkey) : list UsageFromTask :=
  act ≫= fun t => task_uses t (lock_contexts t) a.

Lemma elem_uses act a u x :
  (u, x) ∈ uses act a <->
  x ∈ act /\ {| usage_queue := a; requested_usage := u |} ∈ lock_contexts x.
Proof.
  unfold uses, task_uses. rewrite list_elem_of_bind. setoid_rewrite list_elem_of_fmap.
  setoid_rewrite list_elem_of_filter. split.
  - intros (y & ([b w] & [= -> ->] & [<- Hc]) & Hy). done.
  - intros [Hx Hc]. exists x. split; [|done]. eexists. split; [|split; [|exact Hc]]; done.
Qed.

Lemma task_uses_tasks t a :
  wf_task t -> (task_uses t (lock_contexts t) a).*2 = if decide (a ∈ addresses t) then [t] else [].
Proof.
  intros [Hnd _]. unfold task_uses, addresses in *. rewrite <-list_fmap_compose. simpl.
  induction (lock_contexts t) as [|[b w] cs IH]; [done|]. apply NoDup_cons in Hnd as [Hb Hnd].
  specialize (IH Hnd). simpl in *. rewrite filter_cons. simpl.
  destruct (decide (b = a)) as [Hab|Hab].
  - subst b. rewrite decide_True by (left; done). rewrite decide_False in IH by done.
    rewrite fmap_cons, IH. done.
  - rewrite IH. repeat case_decide; set_solver.
Qed.

Lemma uses_tasks act a :
  Forall wf_task act -> (uses act a).*2 = filter (fun t => a ∈ addresses t) act.
Proof.
  induction 1 as [|t act Ht Hact IH]; [done|]. unfold uses. rewrite bind_cons, fmap_app.
  rewrite task_uses_tasks, filter_cons by done. fold (uses act a). rewrite IH.
  by case_decide.
Qed.

Lemma uses_nodup act a :
  Forall wf_task act -> NoDup (task_id <$> act) -> NoDup (task_id <$> (uses act a).*2).
Proof.
  intros Hwf Hnd. rewrite uses_tasks by done.
  eapply sublist_NoDup; [exact Hnd|]. apply fmap_sublist, sublist_filter.
Qed.
Lemma uses_length act a : Forall wf_task act -> (length (uses act a) <= length act)%nat.
Proof.
  intros Hwf. rewrite <-(length_fmap snd), uses_tasks by done. apply length_filter.
Qed.

Lemma rm_uses t act a : rm t (uses act a) = uses (filter (fun x => x <> t) act) a.
Proof.
  induction act as [|x act IH]; [done|]. unfold uses, rm in *. rewrite bind_cons, filter_app, IH.
  rewrite filter_cons. case_decide as Hx.
  - rewrite bind_cons. f_equal. apply filter_all. intros y Hy.
    unfold task_uses in Hy. by apply list_elem_of_fmap in Hy as (c & -> & _).
  - simpl. subst x. replace (filter _ (task_uses t _ a)) with (@nil UsageFromTask); [done|].
    symmetry. unfold task_uses. induction (filter _ (lock_contexts t)) as [|c cs IHc]; [done|].
    rewrite fmap_cons, filter_cons_False by (simpl; auto). done.
Qed.

(** ** Blocked usages *)
Definition waits (Q : Pubkey -> list UsageFromTask) (t : Task) (c : LockContext) : Prop :=
  ~ held (Q (usage_queue c)) t.
#[export] Instance waits_dec Q t c : Decision (waits Q t c).
Proof. unfold waits. apply _. Defined.
Definition nwait (Q : Pubkey -> list UsageFromTask) (t : Task) (cs : list LockContext) : Z :=
  Z.of_nat (length (filter (waits Q t) cs)).
Abbreviation nblk Q t := (nwait Q t (lock_contexts t)).

Lemma nwait_cons Q t c cs :
  nwait Q t (c :: cs) = (if decide (held (Q (usage_queue c)) t) then 0 else 1) + nwait Q t cs.
Proof.
  unfold nwait. rewrite filter_cons. unfold waits at 1.
  destruct (decide (held _ t)); destruct (decide (~ _)); try tauto; simpl length; lia.
Qed.
Lemma nwait_nonneg Q t cs : 0 <= nwait Q t cs.
Proof. unfold nwait. lia. Qed.
Lemma nwait_le Q t cs : nwait Q t cs <= Z.of_nat (length cs).
Proof. unfold nwait. pose proof (length_filter (waits Q t) cs). lia. Qed.
Lemma nwait_zero Q t cs :
  nwait Q t cs = 0 <-> forall c, c ∈ cs -> held (Q (usage_queue c)) t.
Proof.
  induction cs as [|c cs IH]; [set_solver|]. rewrite nwait_cons.
  pose proof (nwait_nonneg Q t cs). case_decide as Hh.
  - rewrite Z.add_0_l, IH. set_solver.
  - split; [lia|]. intros Hc. by destruct Hh; apply Hc; left.
Qed.
Lemma nwait_same Q Q' t cs :
  (forall c, c ∈ cs -> held (Q (usage_queue c)) t <-> held (Q' (usage_queue c)) t) ->
  nwait Q t cs = nwait Q' t cs.
Proof.
  induction cs as [|c cs IH]; intros H; [done|]. rewrite !nwait_cons, IH by (intros; apply H; by right).
  assert (held (Q (usage_queue c)) t <-> held (Q' (usage_queue c)) t) by (apply H; left).
  repeat case_decide; tauto || lia.
Qed.

(** Handing one more address to a task. *)
Lemma nwait_handed Q Q' t cs c :
  NoDup (usage_queue <$> cs) -> c ∈ cs ->
  ~ held (Q (usage_queue c)) t -> held (Q' (usage_queue c)) t ->
  (forall a, a <> usage_queue c -> held (Q a) t <-> held (Q' a) t) ->
  nwait Q t cs = nwait Q' t cs + 1.
Proof.
  induction cs as [|d cs IH]; [set_solver|]. intros [Hd Hnd]%NoDup_cons Hc H1 H2 Hr.
  rewrite !nwait_cons. apply elem_of_cons in Hc as [->|Hc].
  - rewrite (nwait_same Q Q'); [repeat case_decide; tauto || lia|].
    intros c Hc. apply Hr. intros He. apply Hd. rewrite <-He. by apply list_elem_of_fmap_2.
  - rewrite IH by done. assert (usage_queue d <> usage_queue c) as Hne.
    { intros He. apply Hd. rewrite He. by apply list_elem_of_fmap_2. }
    apply Hr in Hne. repeat case_decide; tauto || lia.
Qed.

(** ** Conflicts *)
Lemma task_uses_one t c :
  wf_task t -> c ∈ lock_contexts t ->
  task_uses t (lock_contexts t) (usage_queue c) = [(requested_usage c, t)].
Proof.
  intros Hwf Hc. pose proof (task_uses_tasks t (usage_queue c) Hwf) as Ht.
  rewrite decide_True in Ht by (by apply list_elem_of_fmap_2).
  assert ((requested_usage c, t) ∈ task_uses t (lock_contexts t) (usage_queue c)) as Hin.
  { unfold task_uses. apply list_elem_of_fmap. exists c. by rewrite list_elem_of_filter. }
  destruct (task_uses t _ _) as [|x [|y l]]; [done| |done].
  by apply list_elem_of_singleton in Hin as <-.
Qed.

(** A task waits for nothing exactly when no active task scheduled before it conflicts. *)
Lemma nblk_zero l1 t l2 :
  Forall wf_task (l1 ++ t :: l2) -> NoDup (task_id <$> l1 ++ t :: l2) ->
  nblk (uses (l1 ++ t :: l2)) t = 0 <-> forall x, x ∈ l1 -> ~ conflict x t.
Proof.
  intros Hwf Hnd. rewrite nwait_zero.
  assert (forall c, c ∈ lock_contexts t ->
    held (uses (l1 ++ t :: l2) (usage_queue c)) t <->
    Forall (compatible (requested_usage c)) (uses l1 (usage_queue c))) as Hh.
  { intros c Hc. pose proof (uses_nodup _ (usage_queue c) Hwf Hnd) as Hu.
    apply NoDup_fmap_1 in Hu. unfold uses in *. rewrite bind_app, bind_cons in *.
    rewrite task_uses_one in * by (rewrite ?Forall_app, ?Forall_cons in Hwf; tauto).
    by apply held_iff. }
  split.
  - intros H x Hx (a & u & w & Hu & Hw & Hc). specialize (H _ Hw). apply Hh in H; [|done].
    rewrite Forall_forall in H. destruct (H (u, x)) as [H1 H2]; [by apply elem_uses|].
    simpl in *. naive_solver.
  - intros H [a w] Hc. apply Hh; [done|]. apply Forall_forall. intros [u x] Hx. simpl in *.
    apply elem_uses in Hx as [Hx Hu]. specialize (H x Hx). split; simpl.
    + destruct w; [done|]. destruct H. exists a, u, Writable. auto.
    + destruct u; [done|]. destruct H. exists a, Writable, w. auto.
Qed.

(** ** The lock loop *)
Definition qstate (q : gmap Pubkey UsageQueueInner) (Q : Pubkey -> list UsageFromTask) : Prop :=
  forall a, default (Fifo None []) (q !! a) = fifo_spec (Q a).

Lemma qstate_queue_of S Q a :
  capability S = FifoQueueing -> qstate (queues S) Q -> queue_of S a = fifo_spec (Q a).
Proof. intros Hc Hq. unfold queue_of. rewrite Hc. apply Hq. Qed.

Lemma qstate_insert q Q Q' a l :
  qstate q Q -> Q' a = l -> (forall b, b <> a -> Q' b = Q b) ->
  qstate (<[a := fifo_spec l]> q) Q'.
Proof.
  intros Hq Ha Hb b. destruct (decide (b = a)) as [->|Hne].
  - by rewrite lookup_insert_eq, Ha.
  - rewrite lookup_insert_ne, Hb by done. apply Hq.
Qed.

Lemma held_snoc l u t : t ∉ l.*2 -> held (l ++ [(u, t)]) t <-> joins l u = true.
Proof.
  intros Ht. unfold held. rewrite holders_snoc. destruct (joins l u).
  - rewrite fmap_app, elem_of_app. split; [done|]. intros _. right. left.
  - split; [|done]. intros (x & -> & Hx%holders_sub)%list_elem_of_fmap.
    destruct Ht. by apply list_elem_of_fmap_2.
Qed.

Lemma task_uses_cons t c cs a :
  task_uses t (c :: cs) a =
  if decide (usage_queue c = a) then (requested_usage c, t) :: task_uses t cs a
  else task_uses t cs a.
Proof. unfold task_uses. rewrite filter_cons. by case_decide. Qed.
Lemma task_uses_nil t cs a : a ∉ usage_queue <$> cs -> task_uses t cs a = [].
Proof.
  intros H. induction cs as [|c cs IH]; [done|]. rewrite task_uses_cons.
  rewrite fmap_cons in H. rewrite decide_False, IH; set_solver.
Qed.

Lemma lock_contexts_fifo S t cs n Q :
  capability S = FifoQueueing -> qstate (queues S) Q ->
  (forall a, a ∈ usage_queue <$> cs -> Z.of_nat (length (Q a)) < u32_max /\ t ∉ (Q a).*2) ->
  NoDup (usage_queue <$> cs) -> 0 <= n -> n + Z.of_nat (length cs) < u32_max ->
  let Q' := fun a => Q a ++ task_uses t cs a in
  exists q, qstate q Q' /\
    lock_contexts_loop S t cs n =
    Ok (n + nwait Q' t cs, set_store S q (counts S) (unblocked_task_queue S)).
Proof.
  revert S n Q. induction cs as [|c cs IH]; intros S n Q Hcap Hq Ht Hnd Hn Hlen Q'.
  - exists (queues S). split.
    + intros a. unfold Q'. rewrite app_nil_r. apply Hq.
    + unfold nwait. cbn [lock_contexts_loop filter]. rewrite Z.add_0_r. by destruct S.
  - apply NoDup_cons in Hnd as [Hc Hnd]. cbn [length] in Hlen. cbn [lock_contexts_loop].
    destruct (Ht (usage_queue c)) as [Hlc Htc]; [left|].
    rewrite (lock_context_fifo S (Q (usage_queue c))) by (by apply qstate_queue_of || lia).
    cbn [mbind outcome_bind]. set (n' := if joins _ _ then n else n + 1).
    set (Q1 := fun a => Q a ++ task_uses t [c] a).
    assert (n <= n' <= n + 1) as Hn' by (unfold n'; destruct (joins _ _); lia).
    assert (forall a, Q1 a ++ task_uses t cs a = Q' a) as HQ.
    { intros a. unfold Q1, Q'. rewrite <-app_assoc, !task_uses_cons. by case_decide. }
    assert (forall a, a <> usage_queue c -> Q1 a = Q a) as HQ1.
    { intros a Ha. unfold Q1. rewrite task_uses_nil by set_solver. apply app_nil_r. }
    assert (Q1 (usage_queue c) = Q (usage_queue c) ++ [(requested_usage c, t)]) as HQc.
    { unfold Q1. by rewrite task_uses_cons, decide_True. }
    destruct (IH (set_queue_counts S (usage_queue c) (fifo_spec (Q1 (usage_queue c))) (counts S))
      n' Q1) as (q & Hq' & Hr); try done || lia.
    { by eapply qstate_insert. }
    { intros a Ha. rewrite HQ1 by (intros ->; done). apply Ht. by right. }
    exists q. split; [intros a; by rewrite <-HQ|].
    rewrite <-HQc, Hr. unfold set_queue_counts. cbn [counts unblocked_task_queue set_store].
    rewrite nwait_cons, <-HQ, task_uses_nil, app_nil_r, HQc by done.
    rewrite (nwait_same _ Q' t cs) by (intros d Hd; by rewrite HQ). 
    assert (n' = n + if decide (held (Q (usage_queue c) ++ [(requested_usage c, t)]) t)
                     then 0 else 1) as ->.
    { pose proof (held_snoc _ (requested_usage c) t Htc). unfold n'.
      destruct (joins _ _); case_decide; naive_solver lia. }
    by rewrite Z.add_assoc.
Qed.

(** ** The unlock loop *)
Section unlocking.
Context (act run : list Task) (t : Task) (Q0 : Pubkey -> list UsageFromTask).
Hypothesis (Hwf : Forall wf_task act) (Hids : NoDup (task_id <$> act)).
Hypothesis (Hact : t ∈ act).
Hypothesis (HQ_nodup : forall a, NoDup (task_id <$> (Q0 a).*2)).
Hypothesis (HQ_length : forall a, Z.of_nat (length (Q0 a)) < u32_max).
Hypothesis (HQ_users : forall a u x, (u, x) ∈ Q0 a ->
  x ∈ act /\ {| usage_queue := a; requested_usage := u |} ∈ lock_contexts x).

(** Addresses in [rest] are still to be released. *)
Definition releasing (rest : list LockContext) (a : Pubkey) : list UsageFromTask :=
  if decide (a ∈ usage_queue <$> rest) then Q0 a else rm t (Q0 a).

Record unlocking (rest : list LockContext) (S : SchedulingStateMachine) : Prop := {
  ul_queues : qstate (queues S) (releasing rest);
  ul_counts x : x ∈ act -> x <> t -> blocked_count (counts S) x = nblk (releasing rest) x;
  ul_idle x : task_id x ∉ task_id <$> act \/ x = t -> blocked_count (counts S) x = 0;
  ul_nodup : NoDup (run ++ unblocked_task_queue S);
  ul_ready x : x ∈ run ++ unblocked_task_queue S <->
    x ∈ act /\ x <> t /\ nblk (releasing rest) x = 0
}.

Lemma act_id_inj x y : x ∈ act -> y ∈ act -> task_id x = task_id y -> x = y.
Proof using Hids. by apply NoDup_fmap_inj. Qed.

Lemma handed_act a x : x ∈ handed (Q0 a) -> x ∈ act.
Proof using HQ_users.
  intros H%handed_sub. apply list_elem_of_fmap in H as ([u y] & -> & H).
  by apply HQ_users in H as [H _].
Qed.

Lemma releasing_other c rest a :
  a <> usage_queue c -> releasing (c :: rest) a = releasing rest a.
Proof using.
  intros Ha. unfold releasing. destruct (decide (a ∈ usage_queue <$> rest)).
  - by rewrite decide_True by (by right).
  - by rewrite decide_False by (rewrite fmap_cons, elem_of_cons; tauto).
Qed.

(** Releasing one address unblocks one usage of each task it is handed to. *)
Lemma nblk_release c rest x :
  usage_queue c ∉ usage_queue <$> rest -> held (Q0 (usage_queue c)) t -> x ∈ act -> x <> t ->
  nblk (releasing (c :: rest)) x =
  nblk (releasing rest) x + if decide (x ∈ handed (Q0 (usage_queue c))) then 1 else 0.
Proof using Hwf HQ_nodup HQ_users.
  intros Hc Ht Hx Hxt. pose proof (NoDup_fmap_1 _ _ (HQ_nodup (usage_queue c))) as Hnd.
  assert (releasing (c :: rest) (usage_queue c) = Q0 (usage_queue c)) as H1
    by (unfold releasing; rewrite decide_True by left; done).
  assert (releasing rest (usage_queue c) = rm t (Q0 (usage_queue c))) as H2
    by (unfold releasing; by rewrite decide_False).
  pose proof (releasing_other c rest) as H3.
  pose proof (held_rm _ t x Hnd Ht Hxt) as Hh. case_decide as Hd.
  - pose proof (handed_sub _ _ Hd) as Hin.
    apply list_elem_of_fmap in Hin as ([u y] & Hy & Hin). simpl in Hy. subst y.
    apply HQ_users in Hin as [_ Hin].
    apply (nwait_handed _ _ x _ {| usage_queue := usage_queue c; requested_usage := u |}).
    + rewrite Forall_forall in Hwf. by apply Hwf.
    + done.
    + cbn [usage_queue]. rewrite H1. by apply handed_new.
    + cbn [usage_queue]. rewrite H2. tauto.
    + intros a Ha. by rewrite H3.
  - rewrite Z.add_0_r. apply nwait_same. intros d _.
    destruct (decide (usage_queue d = usage_queue c)) as [->|Hne].
    + rewrite H1, H2. tauto.
    + by rewrite H3.
Qed.

Lemma unlock_step c rest S :
  capability S = FifoQueueing -> NoDup (usage_queue <$> c :: rest) -> t ∉ run ->
  (requested_usage c, t) ∈ holders (Q0 (usage_queue c)) -> unlocking (c :: rest) S ->
  exists q cs ub, unlock_context S t c = Ok (set_store S q cs ub) /\
    unlocking rest (set_store S q cs ub).
Proof using Hwf Hids Hact HQ_nodup HQ_users HQ_length.
  intros Hcap [Hc Hnd]%NoDup_cons Htr Hh [Uq Uc Ui Un Ur].
  assert (held (Q0 (usage_queue c)) t) as Hht by (by apply (list_elem_of_fmap_2 snd) in Hh).
  pose proof (fun x => nblk_release c rest x Hc Hht) as Hrel.
  set (l := Q0 (usage_queue c)) in *.
  assert (forall y, y ∈ handed l -> y ∈ act /\ y <> t) as Hha.
  { intros y Hy. split; [by eapply handed_act|]. intros ->.
    by eapply handed_new; [eapply NoDup_fmap_1| |]. }
  assert (forall x, x ∈ act -> task_id x ∈ task_id <$> handed l <-> x ∈ handed l) as Hid.
  { intros x Hx. split; [|by apply list_elem_of_fmap_2].
    intros (y & He & Hy)%list_elem_of_fmap. 
    by rewrite (act_id_inj x y Hx (proj1 (Hha y Hy)) He). }
  destruct (unblock_all_spec (counts S) (unblocked_task_queue S) (handed l)) as [Hub Hcs];
    [apply handed_nodup, HQ_nodup|].
  eexists _, _, _. split.
  { apply (unlock_context_fifo S l); [|done|apply HQ_length|apply HQ_nodup|].
    - rewrite (qstate_queue_of S _ _ Hcap Uq). unfold releasing. by rewrite decide_True by left.
    - intros y Hy. destruct (Hha y Hy). rewrite Uc, Hrel, decide_True by done.
      pose proof (nwait_nonneg (releasing rest) y (lock_contexts y)). lia. }
  split; cbn [queues counts unblocked_task_queue set_store].
  - eapply qstate_insert; [exact Uq| |].
    + unfold releasing. by rewrite decide_False.
    + intros b Hb. by rewrite releasing_other.
  - intros x Hx Hxt. rewrite Hcs, Uc, Hrel by done. pose proof (Hid x Hx).
    repeat case_decide; tauto || lia.
  - intros x Hx. rewrite Hcs, Ui by done. rewrite decide_False; [done|].
    intros (y & He & Hy)%list_elem_of_fmap. destruct (Hha y Hy) as [Hya Hyt].
    destruct Hx as [Hx| ->].
    + apply Hx. rewrite He. by apply list_elem_of_fmap_2.
    + by apply Hyt, act_id_inj.
  - rewrite Hub, app_assoc. apply unblocked_nodup; [done| |].
    + intros x (Hx & Hxt & H0)%Ur. by rewrite Uc.
    + by eapply NoDup_fmap_1, handed_nodup, HQ_nodup.
  - intros x. rewrite Hub, app_assoc, elem_of_app, Ur.
    apply (unblocked_ready _ (fun y => nblk (releasing (c :: rest)) y) (fun y => nblk (releasing rest) y)).
    + intros y Hy. destruct (Hha y Hy). rewrite Uc, Hrel, decide_True by done.
      pose proof (nwait_nonneg (releasing rest) y (lock_contexts y)).
      split; [done|]. split; [done|]. split; [lia|done].
    + intros y Hy Hyt. rewrite Hrel by done. lia.
Qed.

Lemma unlock_contexts_fifo cs S :
  capability S = FifoQueueing -> NoDup (usage_queue <$> cs) -> t ∉ run ->
  (forall c, c ∈ cs -> (requested_usage c, t) ∈ holders (Q0 (usage_queue c))) ->
  unlocking cs S ->
  exists q n ub, unlock_contexts S t cs = Ok (set_store S q n ub) /\
    unlocking [] (set_store S q n ub).
Proof using Hwf Hids Hact HQ_nodup HQ_users HQ_length.
  revert S. induction cs as [|c cs IH]; intros S Hcap Hnd Htr Hh Hul.
  - exists (queues S), (counts S), (unblocked_task_queue S). by destruct S.
  - destruct (unlock_step c cs S) as (q & n & ub & Hs & Hul'); [done..|apply Hh; left|done|].
    destruct (IH (set_store S q n ub)) as (q' & n' & ub' & Hs' & Hul''); [done| |done| |done|].
    + by apply NoDup_cons in Hnd as [_ ?].
    + intros d Hd. apply Hh. by right.
    + exists q', n', ub'. cbn [unlock_contexts]. rewrite Hs. by split.
Qed.
End unlocking.

Record fifo_store (S : SchedulingStateMachine) (act run : list Task) : Prop := {
  st_cap : capability S = FifoQueueing;
  st_wf : Forall wf_task act;
  st_ids : NoDup (task_id <$> act);
  st_queues : qstate (queues S) (uses act);
  st_counts x : x ∈ act -> blocked_count (counts S) x = nblk (uses act) x;
  st_idle x : task_id x ∉ task_id <$> act -> blocked_count (counts S) x = 0;
  st_nodup : NoDup (run ++ unblocked_task_queue S);
  st_ready x : x ∈ run ++ unblocked_task_queue S <-> x ∈ act /\ nblk (uses act) x = 0
}.

Lemma nblk_ext Q Q' x : (forall a, Q a = Q' a) -> nblk Q x = nblk Q' x.
Proof. intros H. apply nwait_same. intros c _. by rewrite H. Qed.

Lemma uses_snoc act t a : uses (act ++ [t]) a = uses act a ++ task_uses t (lock_contexts t) a.
Proof. unfold uses. rewrite bind_app. simpl. by rewrite app_nil_r. Qed.

(** Scheduling a task blocks no active task. *)
Lemma nblk_snoc act t x : x <> t -> nblk (uses (act ++ [t])) x = nblk (uses act) x.
Proof.
  intros Hx. apply nwait_same. intros c _. rewrite uses_snoc. split; [|apply held_app].
  intros H%held_app_inv; [done|]. unfold task_uses. rewrite <-list_fmap_compose.
  by intros (d & -> & _)%list_elem_of_fmap.
Qed.

(** [try_lock_usage_queues] enters the task in the queues of its addresses, and it is locked
    when no active task conflicts with it. *)
Lemma try_lock_usage_queues_fifo S act run t :
  fifo_store S act run -> Z.of_nat (length act) < u32_max -> wf_task t -> task_id t ∉ task_id <$> act ->
  exists q cs, let w := nblk (uses (act ++ [t])) t in
    try_lock_usage_queues S t = Ok (w =? 0, set_store S q cs (unblocked_task_queue S)) /\
    qstate q (uses (act ++ [t])) /\
    forall x, blocked_count cs x =
      if decide (task_id t = task_id x) then w else blocked_count (counts S) x.
Proof.
  intros Hinv Hn Hwf Hid.
  destruct (lock_contexts_fifo S t (lock_contexts t) 0 (uses act)) as (q & Hq & Hr).
  - apply Hinv.
  - apply Hinv.
  - intros a _. pose proof (uses_length act a (st_wf _ _ _ Hinv)). split; [lia|].
    rewrite uses_tasks by apply Hinv. rewrite list_elem_of_filter. intros [_ Ht].
    by apply Hid, list_elem_of_fmap_2.
  - apply Hwf.
  - lia.
  - apply wf_few in Hwf. lia.
  - set (Q' := fun a => uses act a ++ task_uses t (lock_contexts t) a) in *.
    assert (nblk Q' t = nblk (uses (act ++ [t])) t) as Hw
      by (apply nblk_ext; intros; by rewrite uses_snoc).
    rewrite Hw, Z.add_0_l in Hr. unfold try_lock_usage_queues. rewrite Hr.
    set (w := nblk _ _) in *. cbn [mbind outcome_bind]. exists q.
    destruct (Z.eqb_spec w 0) as [H0|H0]; eexists; (split; [reflexivity|]);
      (split; [intros a; rewrite uses_snoc; apply Hq|]).
    + intros x. case_decide as He; [|done]. rewrite H0. apply (st_idle _ _ _ Hinv).
      by rewrite <-He.
    + intros x. apply blocked_count_set.
Qed.

(** The store after a task was entered and either handed out, buffered or left blocked. *)
Lemma store_snoc S S' act run t run' :
  fifo_store S act run -> wf_task t -> task_id t ∉ task_id <$> act ->
  capability S' = FifoQueueing -> qstate (queues S') (uses (act ++ [t])) ->
  (forall x, blocked_count (counts S') x =
    if decide (task_id t = task_id x) then nblk (uses (act ++ [t])) t
    else blocked_count (counts S) x) ->
  run' ++ unblocked_task_queue S' ≡ₚ
    (if nblk (uses (act ++ [t])) t =? 0 then [t] else []) ++ run ++ unblocked_task_queue S ->
  fifo_store S' (act ++ [t]) run'.
Proof.
  intros [Hcap Hwf Hids Hq Hc Hi Hnd Hr] Ht Hid Hcap' Hq' Hc' Hp.
  assert (t ∉ act) as Hta by (by intros ?%(list_elem_of_fmap_2 task_id)).
  split; [done| | |done| | | |].
  - apply Forall_app. by rewrite Forall_singleton.
  - rewrite fmap_app. apply NoDup_app. split; [done|]. split; [|apply NoDup_singleton].
    intros x Hx ->%list_elem_of_singleton. done.
  - intros x [Hx| ->%list_elem_of_singleton]%elem_of_app; rewrite Hc'.
    + rewrite (nblk_snoc _ _ x) by (intros ->; done). rewrite decide_False; [by apply Hc|].
      intros He. apply Hid. rewrite He. by apply list_elem_of_fmap_2.
    + by rewrite decide_True.
  - intros x. rewrite fmap_app, not_elem_of_app, Hc'. intros [Hx Hxt].
    rewrite decide_False; [by apply Hi|]. intros He. apply Hxt. rewrite <-He. left.
  - rewrite Hp. destruct (_ =? 0); [|done]. apply NoDup_cons. split; [|done].
    intros [Hx _]%Hr. done.
  - intros x. rewrite Hp, elem_of_app, Hr, elem_of_app, list_elem_of_singleton.
    destruct (decide (x = t)) as [->|Hxt].
    + destruct (Z.eqb_spec (nblk (uses (act ++ [t])) t) 0); set_solver.
    + rewrite (nblk_snoc _ _ x) by done. destruct (_ =? 0); set_solver.
Qed.

Lemma releasing_all act t a :
  Forall wf_task act -> releasing t (uses act) (lock_contexts t) a = uses act a.
Proof.
  intros Hwf. unfold releasing. case_decide as Ha; [done|]. apply rm_id.
  rewrite uses_tasks by done. rewrite list_elem_of_filter. tauto.
Qed.

Lemma releasing_none act t a :
  releasing t (uses act) [] a = uses (filter (fun x => x <> t) act) a.
Proof. unfold releasing. rewrite decide_False by apply not_elem_of_nil. apply rm_uses. Qed.

Lemma unlocking_start S act run t :
  fifo_store S act run -> t ∈ run ->
  unlocking act (filter (fun x => x <> t) run) t (uses act) (lock_contexts t) S.
Proof.
  intros [Hcap Hwf Hids Hq Hc Hi Hnd Hr] Ht.
  assert (forall x, nblk (releasing t (uses act) (lock_contexts t)) x = nblk (uses act) x) as Hn
    by (intros x; apply nblk_ext; intros; by apply releasing_all).
  destruct (proj1 (Hr t)) as [Hta Ht0]; [apply elem_of_app; by left|].
  split.
  - intros a. rewrite releasing_all by done. apply Hq.
  - intros x Hx _. rewrite Hn. by apply Hc.
  - intros x [Hx| ->]; [by apply Hi|]. by rewrite Hc.
  - eapply sublist_NoDup; [exact Hnd|]. apply sublist_app; [apply sublist_filter|done].
  - intros x. rewrite Hn, elem_of_app, list_elem_of_filter.
    specialize (Hr x). rewrite elem_of_app in Hr.
    apply NoDup_app in Hnd as (_ & Hnd & _). specialize (Hnd _ Ht).
    destruct (decide (x = t)) as [->|Hx]; tauto.
Qed.

Lemma holders_of_runnable S act run t c :
  fifo_store S act run -> t ∈ run -> c ∈ lock_contexts t ->
  (requested_usage c, t) ∈ holders (uses act (usage_queue c)).
Proof.
  intros [Hcap Hwf Hids Hq Hc Hi Hnd Hr] Ht Hct.
  destruct (proj1 (Hr t)) as [Hta Ht0]; [apply elem_of_app; by left|].
  rewrite nwait_zero in Ht0. specialize (Ht0 _ Hct).
  apply list_elem_of_fmap in Ht0 as ([u y] & He & Hh). simpl in He. subst y.
  pose proof (holders_sub _ _ Hh) as [_ Hu]%elem_uses.
  rewrite Forall_forall in Hwf. destruct (Hwf _ Hta) as [Ha _].
  by rewrite (NoDup_fmap_inj usage_queue _ _ _ Ha Hct Hu).
Qed.

Lemma unlock_usage_queues_fifo S act run t :
  fifo_store S act run -> Z.of_nat (length act) < u32_max -> t ∈ run ->
  exists q cs ub, unlock_usage_queues S t = Ok (set_store S q cs ub) /\
    fifo_store (set_store S q cs ub) (filter (fun x => x <> t) act)
      (filter (fun x => x <> t) run).
Proof.
  intros Hst Hlen Ht. pose proof (unlocking_start S act run t Hst Ht) as Hul.
  pose proof (fun c => holders_of_runnable S act run t c Hst Ht) as Hh.
  destruct Hst as [Hcap Hwf Hids Hq Hc Hi Hnd Hr].
  destruct (proj1 (Hr t)) as [Hta Ht0]; [apply elem_of_app; by left|].
  destruct (unlock_contexts_fifo act (filter (fun x => x <> t) run) t (uses act) Hwf Hids Hta)
    with (cs := lock_contexts t) (S := S) as (q & cs & ub & Hs & [Uq Uc Ui Un Ur]).
  - intros a. by apply uses_nodup.
  - intros a. pose proof (uses_length act a Hwf). lia.
  - intros a u x. apply elem_uses.
  - done.
  - rewrite Forall_forall in Hwf. by apply Hwf.
  - rewrite list_elem_of_filter. tauto.
  - done.
  - done.
  - exists q, cs, ub. split; [done|].
    assert (forall x, nblk (releasing t (uses act) []) x =
      nblk (uses (filter (fun x => x <> t) act)) x) as Hn
      by (intros x; apply nblk_ext; intros; apply releasing_none).
    split; [done| | | | | |done|].
    + rewrite Forall_forall in *. intros x [_ Hx]%list_elem_of_filter. by apply Hwf.
    + eapply sublist_NoDup; [exact Hids|]. apply fmap_sublist, sublist_filter.
    + intros a. rewrite <-releasing_none. apply Uq.
    + intros x [Hxt Hx]%list_elem_of_filter. rewrite <-Hn. by apply Uc.
    + intros x Hx. destruct (decide (task_id x = task_id t)) as [He|He].
      * rewrite <-(Ui t) by auto. unfold blocked_count. by rewrite He.
      * apply Ui. left. contradict Hx. apply list_elem_of_fmap in Hx as (y & Hy & Hya).
        rewrite Hy. apply list_elem_of_fmap_2, list_elem_of_filter. split; [congruence|done].
    + intros x. rewrite Ur, Hn, list_elem_of_filter. tauto.
Qed.


(** ** The discipline *)
Lemma fifo_ready S l1 t l2 run :
  fifo_store S (l1 ++ t :: l2) run ->
  t ∈ run ++ unblocked_task_queue S <-> forall x, x ∈ l1 -> ~ conflict x t.
Proof. intros [_ Hwf Hids _ _ _ _ Hr]. rewrite Hr, <-nblk_zero by done. set_solver. Qed.

Lemma fifo_conflict S act run t x :
  fifo_store S act run -> t ∈ run ++ unblocked_task_queue S ->
  x ∈ run ++ unblocked_task_queue S -> t <> x -> ~ conflict t x.
Proof.
  intros Hi Ht Hx Hne. pose proof (st_ready _ _ _ Hi) as Hr.
  destruct (proj1 (Hr t) Ht) as [Hta _]. destruct (proj1 (Hr x) Hx) as [Hxa _].
  apply list_elem_of_split in Hta as (l1 & l2 & ->).
  apply elem_of_app in Hxa as [Hx1|[->|Hx2]%elem_of_cons].
  - intros Hc%symmetry. by eapply (proj1 (fifo_ready _ _ _ _ _ Hi)) in Ht.
  - done.
  - apply list_elem_of_split in Hx2 as (l3 & l4 & ->).
    change (l1 ++ t :: l3 ++ x :: l4) with (l1 ++ (t :: l3) ++ x :: l4) in Hi.
    rewrite app_assoc in Hi. apply (proj1 (fifo_ready _ _ _ _ _ Hi) Hx).
    apply elem_of_app. right. left.
Qed.

#[export] Instance fifo_discipline : Discipline FifoQueueing fifo_store.
Proof.
  split.
  - intros S Hc Hq Hn Hu. split; rewrite ?Hu, ?Hq, ?Hn; try done.
    + constructor.
    + intros x Hx. by apply elem_of_nil in Hx.
    + constructor.
    + intros x. cbn [app]. rewrite elem_of_nil. tauto.
  - intros S S' act run run' [H1 H2 H3 H4 H5 H6 H7 H8] E1 E2 E3 Hp.
    split; rewrite ?E1, ?E2, ?E3, ?Hp; try done. intros x. by rewrite Hp.
  - by intros S act run [].
  - by intros S act run [].
  - intros S act run x [] Hx. naive_solver.
  - intros S [|t act] run Hst; [done|]. intros _ Hnil.
    pose proof (proj2 (fifo_ready S [] t act run Hst)) as Ht. rewrite Hnil in Ht.
    apply (not_elem_of_nil t), Ht. set_solver.
  - apply fifo_conflict.
  - intros S a Hst. by rewrite (qstate_queue_of S (uses [])) by apply Hst.
  - intros S t Hst. apply (st_idle _ _ _ Hst), not_elem_of_nil.
  - intros S act run t Hst Hl Hwf Hid.
    destruct (try_lock_usage_queues_fifo S act run t) as (q & cs & H1 & H2 & H3); [done..|].
    eexists _, q, cs. split; [exact H1|]. intros S' run' E1 E2 E3 Hp.
    apply (store_snoc S S' act run t run'); try done; [by rewrite E2|by rewrite E3].
  - apply unlock_usage_queues_fifo.
  - by intros S act run [].
Qed.
