(* ===== verification/UnifiedPriority.v ===== *)
(** * Priority usage queues

    What the priority usage queues of the unified scheduler guarantee for one address: the
    waiting tasks are kept in the order of their ids, a task that holds the address while it
    waits elsewhere precedes all of them, and the first task waiting behind readers is a
    writer. Locking takes the address away from such holders with larger ids; releasing hands
    it to the first waiting writer or to all leading readers. *)

From Stdlib Require Import Sorted.
From S2P Require Import Prelude UnifiedScheduler UnifiedMachine UnifiedFifo.
Local Open Scope Z_scope.
#[local] Opaque increment decrement.

(** ** Maps ordered by task id *)
Definition bt_wf {A} (task : A -> Task) (l : btree A) : Prop :=
  StronglySorted Z.lt l.*1 /\ Forall (fun p => p.1 = task_id (task p.2)) l.

Lemma bt_sorted_app {A} (l1 l2 : btree A) :
  StronglySorted Z.lt (l1 ++ l2).*1 <->
  StronglySorted Z.lt l1.*1 /\ StronglySorted Z.lt l2.*1 /\
  (forall k k', k ∈ l1.*1 -> k' ∈ l2.*1 -> k < k').
Proof.
  rewrite fmap_app. generalize l1.*1 l2.*1. intros k1 k2.
  induction k1 as [|k k1 IH]; simpl.
  - split; [|tauto]. intros H. split; [constructor|]. split; [done|]. set_solver.
  - split.
    + intros H. apply StronglySorted_inv in H as [H1 H2]. apply IH in H1 as (H1 & H3 & H4).
      rewrite List.Forall_app in H2. destruct H2 as [H2 H5]. split; [by constructor|].
      split; [done|]. intros x y [->|Hx]%elem_of_cons Hy; [|by apply H4].
      rewrite List.Forall_forall in H5. by apply H5, list_elem_of_In.
    + intros (H1 & H2 & H3). apply StronglySorted_inv in H1 as [H1 H4]. constructor.
      * apply IH. split; [done|]. split; [done|]. intros x y Hx. apply H3. by right.
      * apply List.Forall_app. split; [done|]. apply List.Forall_forall.
        intros y Hy%list_elem_of_In. apply H3; [left|done].
Qed.

Lemma bt_sorted_nodup {A} (l : btree A) : StronglySorted Z.lt l.*1 -> NoDup l.*1.
Proof.
  induction l.*1 as [|k ks IH]; [constructor|]. intros [H1 H2]%StronglySorted_inv.
  constructor; [|by apply IH]. intros Hk. rewrite List.Forall_forall in H2.
  apply list_elem_of_In, H2 in Hk. lia.
Qed.

(** Inserting a vacant key splits the map at the key. *)
Lemma bt_insert_spec {A} k (v : A) (l : btree A) :
  StronglySorted Z.lt l.*1 -> k ∉ l.*1 ->
  exists l1 l2, l = l1 ++ l2 /\ bt_insert k v l = (true, l1 ++ (k, v) :: l2) /\
    (forall k', k' ∈ l1.*1 -> k' < k) /\ (forall k', k' ∈ l2.*1 -> k < k').
Proof.
  induction l as [|[k' v'] l IH]; intros Hs Hk.
  - exists [], []. split; [done|]. split; [done|]. set_solver.
  - pose proof Hs as [Hs1 Hs2]%StronglySorted_inv. rewrite List.Forall_forall in Hs2.
    cbn [bt_insert]. destruct (Z.ltb_spec k k') as [Hlt|Hge].
    + exists [], ((k', v') :: l). split; [done|]. split; [done|]. split; [set_solver|].
      intros x [->|Hx]%elem_of_cons; [done|]. apply list_elem_of_In, Hs2 in Hx. simpl in Hx. lia.
    + assert (k <> k') as Hne by (intros ->; apply Hk; left).
      rewrite (proj2 (Z.eqb_neq k k')) by done.
      destruct IH as (l1 & l2 & -> & Hi & H1 & H2); [done|by intros ?; apply Hk; right|].
      exists ((k', v') :: l1), l2. rewrite Hi. split; [done|]. split; [done|]. split; [|done].
      intros x [->|Hx]%elem_of_cons; [simpl; lia|by apply H1].
Qed.

Lemma bt_insert_ok {A} (task : A -> Task) v (l : btree A) :
  bt_wf task l -> task_id (task v) ∉ l.*1 ->
  exists l', bt_insert (task_id (task v)) v l = (true, l') /\ bt_wf task l' /\
    l' ≡ₚ (task_id (task v), v) :: l.
Proof.
  intros [Hs Hf] Hk. destruct (bt_insert_spec _ v l Hs Hk) as (l1 & l2 & -> & Hi & H1 & H2).
  eexists. split; [exact Hi|]. split; [split|symmetry; apply Permutation_middle].
  - apply bt_sorted_app in Hs as (Hs1 & Hs2 & Hs3). apply bt_sorted_app.
    split; [done|]. split.
    + constructor; [done|]. apply List.Forall_forall. intros x Hx%list_elem_of_In. by apply H2.
    + intros x y Hx [->|Hy]%elem_of_cons; [by apply H1|by apply Hs3].
  - rewrite Forall_app in *. destruct Hf. split; [done|]. by constructor.
Qed.

Lemma bt_remove_ok {A} (l : btree A) k v :
  NoDup l.*1 -> (k, v) ∈ l ->
  exists l1 l2, l = l1 ++ (k, v) :: l2 /\ bt_remove k l = Some (l1 ++ l2).
Proof.
  induction l as [|[k' v'] l IH]; [set_solver|]. intros [Hk Hnd]%NoDup_cons Hin.
  cbn [bt_remove]. apply elem_of_cons in Hin as [[= <- <-]|Hin].
  - exists [], l. by rewrite Z.eqb_refl.
  - assert (k <> k') as Hne by (intros ->; by apply Hk, (list_elem_of_fmap_2 fst _ _ Hin)).
    rewrite (proj2 (Z.eqb_neq k k')) by done.
    destruct IH as (l1 & l2 & -> & Hr); [done|done|]. exists ((k', v') :: l1), l2.
    split; [done|]. simpl in Hr. by rewrite Hr.
Qed.

Lemma bt_keys {A} (task : A -> Task) (l : btree A) :
  bt_wf task l -> l.*1 = task_id <$> (task <$> l.*2).
Proof.
  intros [_ Hf]. induction l as [|[k v] l IH]; [done|]. apply Forall_cons in Hf as [Hk Hf].
  simpl in Hk. rewrite !fmap_cons. simpl. by rewrite Hk, IH.
Qed.

Lemma bt_wf_app {A} (task : A -> Task) (l1 l2 : btree A) :
  bt_wf task (l1 ++ l2) -> bt_wf task l1 /\ bt_wf task l2.
Proof.
  intros [(H1 & H2 & _)%bt_sorted_app [H3 H4]%Forall_app]. done.
Qed.
Lemma bt_wf_remove {A} (task : A -> Task) (l1 l2 : btree A) p :
  bt_wf task (l1 ++ p :: l2) -> bt_wf task (l1 ++ l2).
Proof.
  intros [(H1 & [H2 _]%StronglySorted_inv & H)%bt_sorted_app [H3 [_ H4]%Forall_cons]%Forall_app].
  split; [|by apply Forall_app]. apply bt_sorted_app. split; [done|]. split; [done|].
  intros k k' Hk Hk'. apply H; [done|]. by right.
Qed.
Lemma bt_wf_cons_lt {A} (task : A -> Task) p p' (l : btree A) :
  bt_wf task (p :: l) -> p' ∈ l -> p.1 < p'.1.
Proof.
  intros [[_ H]%StronglySorted_inv _] Hp. rewrite List.Forall_forall in H.
  by apply H, list_elem_of_In, list_elem_of_fmap_2.
Qed.

Lemma bt_wf_cons_id (p : Z * UsageFromTask) l z :
  bt_wf snd (p :: l) -> z ∈ l.*2.*2 -> p.1 < task_id z.
Proof.
  intros Hwf Hz. apply list_elem_of_fmap in Hz as (y & -> & Hy).
  apply list_elem_of_fmap in Hy as (p' & -> & Hp').
  pose proof (bt_wf_cons_lt _ _ _ _ Hwf Hp') as Hlt. destruct Hwf as [_ [_ Hf]%Forall_cons].
  rewrite Forall_forall in Hf. by rewrite <-(Hf _ Hp').
Qed.

(** ** One address *)
Definition hold_of (q : UsageQueueInner) : list UsageFromTask :=
  match q with
  | Priority (Some (UReadonly tasks)) _ => pair Readonly <$> tasks.*2
  | Priority (Some (UWritable task)) _ => [(Writable, task)]
  | _ => []
  end.
Definition wait_of (q : UsageQueueInner) : list UsageFromTask :=
  match q with
  | Priority _ blocked => blocked.*2
  | Fifo _ _ => []
  end.
Definition ids (l : list UsageFromTask) : list Z := task_id <$> l.*2.

(** The first waiting task, if any, is a writer. *)
Definition writer_first (blocked : btree UsageFromTask) : Prop :=
  blocked = [] \/
  exists p, p ∈ blocked /\ p.2.1 = Writable /\ forall p', p' ∈ blocked -> p.1 <= p'.1.

(** [pend t]: the task still waits for some other address. *)
Definition prio_ok (pend : Task -> Prop) (q : UsageQueueInner) : Prop :=
  match q with
  | Priority current blocked =>
    bt_wf snd blocked /\
    (forall u t p, (u, t) ∈ hold_of q -> pend t -> p ∈ blocked -> task_id t < p.1) /\
    match current with
    | None => blocked = []
    | Some (UReadonly tasks) => tasks <> [] /\ bt_wf id tasks /\ writer_first blocked
    | Some (UWritable _) => True
    end
  | Fifo _ _ => False
  end.

Lemma prio_ok_mono (pend pend' : Task -> Prop) q :
  (forall u t, (u, t) ∈ hold_of q -> pend' t -> pend t) -> prio_ok pend q -> prio_ok pend' q.
Proof.
  intros Hp. destruct q as [|cur blk]; [done|]. intros (H1 & H2 & H3). split; [done|].
  split; [|done]. intros u t p Ht Ht'. eapply H2; eauto.
Qed.

Lemma writer_first_head k u x l :
  bt_wf snd ((k, (u, x)) :: l) -> writer_first ((k, (u, x)) :: l) -> u = Writable.
Proof.
  intros Hwf [?|([k' [u' x']] & Hin & Hw & Hle)]; [done|].
  apply elem_of_cons in Hin as [[= -> -> ->]|Hin]; [done|].
  pose proof (bt_wf_cons_lt _ _ _ _ Hwf Hin). specialize (Hle (k, (u, x))). simpl in *.
  assert (k' <= k) by (apply Hle; left). lia.
Qed.

Lemma insert_usage_ok (blk : btree UsageFromTask) u x :
  bt_wf snd blk -> task_id x ∉ ids blk.*2 ->
  exists blk', insert_usage_from_task blk (u, x) = Ok blk' /\ bt_wf snd blk' /\
    blk' ≡ₚ (task_id x, (u, x)) :: blk.
Proof.
  intros Hwf Hx. destruct (bt_insert_ok snd (u, x) blk Hwf) as (blk' & Hi & Hwf' & Hp).
  { by rewrite (bt_keys _ _ Hwf). }
  exists blk'. unfold insert_usage_from_task. cbn [snd] in *. by rewrite Hi.
Qed.

(** Locking one address: [R] are the holders it is taken from. *)
Record lock_effect (cs : Counts) (q q' : UsageQueueInner) (cs' : Counts) (u : RequestedUsage)
    (t : Task) (b : bool) (R : list UsageFromTask) : Prop := {
  le_hold : exists H, hold_of q ≡ₚ H ++ R /\ hold_of q' ≡ₚ H ++ (if b then [(u, t)] else []);
  le_wait : wait_of q' ≡ₚ R ++ wait_of q ++ (if b then [] else [(u, t)]);
  le_pending x : x ∈ R.*2 -> 0 < blocked_count cs x;
  le_counts x : blocked_count cs' x =
    blocked_count cs x + if decide (task_id x ∈ ids R) then 1 else 0;
  le_ok : prio_ok (fun x => x = t \/ 0 < blocked_count cs x) q'
}.

(** The loop body of [try_lock_usage_queues] on the queue and the counts. *)
Definition lock_queue (q : UsageQueueInner) (cs : Counts) (t : Task) (u : RequestedUsage) (n : Z)
    : res (Z * Counts * UsageQueueInner) :=
  '(prepared, cs, q) ← prepare_lock q cs t u;
  '(locked, q) ← (if prepared : bool then try_lock q t u else Ok (false, q));
  if locked : bool then Ok (n, cs, q)
  else
    n ← increment n;
    q ← push_blocked q (u, t);
    Ok (n, cs, q).

Lemma lock_context_queue S t c n :
  lock_context S t c n =
  '(n', cs, q) ← lock_queue (queue_of S (usage_queue c)) (counts S) t (requested_usage c) n;
  Ok (n', set_queue_counts S (usage_queue c) q cs).
Proof.
  unfold lock_context, lock_queue.
  destruct (prepare_lock _ _ _ _) as [[[prepared cs] q]|[]|]; cbn [mbind outcome_bind]; try done.
  destruct prepared; [destruct (try_lock _ _ _) as [[[] q']|[]|]; try done|];
    cbn [mbind outcome_bind]; destruct (increment n); try done; cbn [mbind outcome_bind];
    by destruct (push_blocked _ _).
Qed.

Lemma is_higher_ok t x :
  task_id t <> task_id x -> is_higher_priority t x = Ok (task_id t <? task_id x).
Proof.
  intros H. unfold is_higher_priority, Z.ltb. by destruct (Z.compare_spec (task_id t) (task_id x)).
Qed.

Lemma snd_pair (w : RequestedUsage) (l : list Task) : (pair w <$> l).*2 = l.
Proof. induction l as [|x l IH]; [done|]. rewrite !fmap_cons. by rewrite IH. Qed.
Lemma ids_elem w x l : (w, x) ∈ l -> task_id x ∈ ids l.
Proof. intros H. by apply (list_elem_of_fmap_2 task_id l.*2), (list_elem_of_fmap_2 snd _ _ H). Qed.

Lemma writer_first_insert (blk blk' : btree UsageFromTask) u t :
  writer_first blk -> blk' ≡ₚ (task_id t, (u, t)) :: blk -> task_id t ∉ blk.*1 ->
  u = Writable \/ (exists p, p ∈ blk /\ p.1 < task_id t) ->
  writer_first blk'.
Proof.
  intros Hw Hp Ht Hu. right. setoid_rewrite Hp. setoid_rewrite elem_of_cons.
  assert (u = Writable -> (forall p, p ∈ blk -> task_id t <= p.1) ->
    exists p, (p = (task_id t, (u, t)) \/ p ∈ blk) /\ p.2.1 = Writable /\
      forall p', p' = (task_id t, (u, t)) \/ p' ∈ blk -> p.1 <= p'.1) as Hnew.
  { intros -> Hle. eexists. split; [by left|]. split; [done|]. intros p' [->|Hin]; [done|].
    by apply Hle. }
  destruct Hw as [->|(p0 & Hp0 & Hw0 & Hmin)].
  - apply Hnew; [|by intros ? ?%elem_of_nil]. destruct Hu as [?|(p & ?%elem_of_nil & _)]; done.
  - destruct (decide (p0.1 < task_id t)) as [Hlt|Hge].
    + exists p0. split; [by right|]. split; [done|]. intros p' [->|Hin]; [simpl; lia|by apply Hmin].
    + assert (task_id t <> p0.1) by (intros He; apply Ht; rewrite He; by apply list_elem_of_fmap_2).
      apply Hnew; [|intros p' Hin%Hmin; lia].
      destruct Hu as [?|(p & Hin%Hmin & ?)]; [done|lia].
Qed.

Section lock_queue.
Context (cs : Counts) (t : Task) (u : RequestedUsage) (n : Z).
Hypothesis (Hn : 0 <= n < u32_max).

Lemma ids_cons w x l : ids ((w, x) :: l) = task_id x :: ids l.
Proof using. done. Qed.
Lemma ids_app l1 l2 : ids (l1 ++ l2) = ids l1 ++ ids l2.
Proof using. unfold ids. by rewrite !fmap_app. Qed.

(** The newcomer waits, nobody is reblocked. *)
Lemma lock_waits cur (blk : btree UsageFromTask) :
  let q := Priority (Some cur) blk in
  prio_ok (fun x => 0 < blocked_count cs x) q -> task_id t ∉ ids (hold_of q ++ wait_of q) ->
  (forall w x, (w, x) ∈ hold_of q -> 0 < blocked_count cs x -> task_id x < task_id t) ->
  (usage_kind cur = Readonly -> u = Writable \/ exists p, p ∈ blk /\ p.1 < task_id t) ->
  exists q', push_blocked q (u, t) = Ok q' /\ lock_effect cs q q' cs u t false [].
Proof using.
  intros q (Hwf & HJ & HK) Ht Hlt Hr. rewrite ids_app, not_elem_of_app in Ht.
  destruct Ht as [Hth Htb].
  destruct (insert_usage_ok blk u t Hwf Htb) as (blk' & Hi & Hwf' & Hp).
  exists (Priority (Some cur) blk'). split.
  { unfold q, push_blocked. cbn [current_usage fmap option_fmap option_map push].
    by rewrite Hi. }
  assert (hold_of (Priority (Some cur) blk') = hold_of q) as Hh by done.
  split.
  - exists (hold_of q). by rewrite Hh, !app_nil_r.
  - cbn [wait_of app]. rewrite Hp. simpl. apply Permutation_cons_append.
  - intros x Hx. by apply elem_of_nil in Hx.
  - intros x. rewrite decide_False by apply not_elem_of_nil. lia.
  - split; [done|]. rewrite Hh. split.
    + intros w x p Hx [->|Hpx] Hin.
      * by destruct Hth; eapply ids_elem.
      * rewrite Hp in Hin. apply elem_of_cons in Hin as [->|Hin]; [by eapply Hlt|by eapply HJ].
    + destruct cur as [ts|w]; [|done]. destruct HK as (H1 & H2 & H3). split; [done|]. split; [done|].
      specialize (Hr eq_refl).
      eapply writer_first_insert; [done|done|by rewrite (bt_keys _ _ Hwf)|done].
Qed.

(** The newcomer takes a free address. *)
Lemma lock_free :
  lock_effect cs (Priority None []) (Priority (Some (priority_from t u)) []) cs u t true [].
Proof using.
  split.
  - exists []. destruct u; done.
  - done.
  - intros x Hx. by apply elem_of_nil in Hx.
  - intros x. rewrite decide_False by apply not_elem_of_nil. lia.
  - split; [split; constructor|]. split; [by intros ? ? ? ? ? ?%elem_of_nil|].
    destruct u; [|done]. split; [done|]. split; [|by left].
    split; [repeat constructor|by repeat constructor].
Qed.

(** The newcomer joins the readers. *)
Lemma lock_reader tasks (blk : btree UsageFromTask) :
  let q := Priority (Some (UReadonly tasks)) blk in
  prio_ok (fun x => 0 < blocked_count cs x) q -> task_id t ∉ ids (hold_of q ++ wait_of q) ->
  u = Readonly -> (forall p, p ∈ blk -> task_id t < p.1) ->
  exists q', try_lock q t u = Ok (true, q') /\ lock_effect cs q q' cs u t true [].
Proof using.
  intros q (Hwf & HJ & H1 & H2 & H3) Ht -> Hlt.
  rewrite ids_app, not_elem_of_app in Ht. destruct Ht as [Hth Htb].
  destruct (bt_insert_ok id t tasks H2) as (tasks' & Hi & Hwf' & Hp).
  { rewrite (bt_keys _ _ H2), list_fmap_id. intros Hin. apply Hth. unfold ids, q. cbn [hold_of].
    by rewrite snd_pair. }
  exists (Priority (Some (UReadonly tasks')) blk). split.
  { unfold q. cbn [try_lock]. unfold id in Hi. by rewrite Hi. }
  assert (hold_of (Priority (Some (UReadonly tasks')) blk) ≡ₚ hold_of q ++ [(Readonly, t)]) as Hh.
  { cbn [hold_of q]. rewrite Hp. cbn. apply Permutation_cons_append. }
  split.
  - exists (hold_of q). by rewrite app_nil_r.
  - by rewrite app_nil_r.
  - intros x Hx. by apply elem_of_nil in Hx.
  - intros x. rewrite decide_False by apply not_elem_of_nil. lia.
  - split; [done|]. split.
    + intros w x p. rewrite Hh, elem_of_app, list_elem_of_singleton.
      intros [Hx|[= -> ->]] Hpx Hin; [|by apply Hlt].
      destruct Hpx as [->|Hpx]; [by apply Hlt|by eapply HJ].
    + split; [|done]. intros ->. by apply Permutation_nil_cons in Hp.
Qed.

(** The newcomer takes the address from all its holders. *)
Lemma lock_takes q (blk blk' : btree UsageFromTask) R cs' :
  hold_of q ≡ₚ R -> wait_of q = blk.*2 -> blk'.*2 ≡ₚ R ++ blk.*2 -> bt_wf snd blk' ->
  (forall p, p ∈ blk' -> task_id t < p.1) -> (u = Readonly -> writer_first blk') ->
  (forall x, x ∈ R.*2 -> 0 < blocked_count cs x) ->
  (forall x, blocked_count cs' x =
    blocked_count cs x + if decide (task_id x ∈ ids R) then 1 else 0) ->
  lock_effect cs q (Priority (Some (priority_from t u)) blk') cs' u t true R.
Proof using.
  intros Hh Hw Hb Hwf Hlt Hr Hpend Hcs. split; [|..|done|done|].
  - exists []. split; [done|]. by destruct u.
  - rewrite Hw, app_nil_r. done.
  - split; [done|]. split.
    + intros w x p Hin _. assert (x = t) as ->; [|by apply Hlt]. destruct u; cbn in Hin; apply list_elem_of_singleton in Hin;
        by injection Hin.
    + destruct u; [|done]. split; [done|]. split; [|by apply Hr].
      split; [repeat constructor|by repeat constructor].
Qed.

Lemma try_reblock_pos x :
  0 < blocked_count cs x < u32_max ->
  try_reblock cs x = Ok (true, set_blocked_usage_count cs x (blocked_count cs x + 1)).
Proof using.
  intros H. unfold try_reblock. destruct (Z.eqb_spec (blocked_count cs x) 0); [lia|].
  by rewrite increment_Ok by lia.
Qed.
Lemma try_reblock_zero x : blocked_count cs x = 0 -> try_reblock cs x = Ok (false, cs).
Proof using. intros H. unfold try_reblock. by rewrite H. Qed.
End lock_queue.

(** The readers that [prepare_lock] takes the address from. *)
Definition reblocked (from : Z) (cs : Counts) (p : Z * Task) : Prop :=
  from <= p.1 /\ blocked_count cs p.2 <> 0.
#[export] Instance reblocked_dec from cs p : Decision (reblocked from cs p).
Proof. unfold reblocked. apply _. Defined.

Definition as_reader (p : Z * Task) : Z * UsageFromTask := (p.1, (Readonly, p.2)).

Lemma reblock_count cs k x (F : btree Task) y :
  task_id x ∉ task_id <$> F.*2 ->
  blocked_count (set_blocked_usage_count cs x (blocked_count cs x + 1)) y +
    (if decide (task_id y ∈ task_id <$> F.*2) then 1 else 0) =
  blocked_count cs y + if decide (task_id y ∈ task_id <$> ((k, x) :: F).*2) then 1 else 0.
Proof.
  intros HxF. rewrite blocked_count_set, fmap_cons. simpl.
  destruct (decide (task_id x = task_id y)) as [He|He].
  - rewrite <-He, decide_False, decide_True by (done || left). unfold blocked_count. rewrite He. lia.
  - destruct (decide (task_id y ∈ task_id <$> F.*2)) as [Hy|Hy].
    + rewrite decide_True by (by right). lia.
    + rewrite decide_False by (rewrite elem_of_cons; naive_solver). lia.
Qed.

Lemma reblock_readers_ok from cs tasks (blk : btree UsageFromTask) :
  NoDup (task_id <$> tasks.*2) -> Forall (fun p => p.1 = task_id p.2) tasks ->
  bt_wf snd blk -> (forall p, p ∈ tasks -> p.1 ∉ blk.*1) ->
  (forall x, x ∈ tasks.*2 -> 0 <= blocked_count cs x < u32_max) ->
  exists cs' blk',
    reblock_readers from cs tasks blk =
      Ok (cs', filter (fun p => ~ reblocked from cs p) tasks, blk') /\
    bt_wf snd blk' /\ blk' ≡ₚ (as_reader <$> filter (reblocked from cs) tasks) ++ blk /\
    forall x, blocked_count cs' x = blocked_count cs x +
      if decide (task_id x ∈ task_id <$> (filter (reblocked from cs) tasks).*2) then 1 else 0.
Proof.
  revert cs blk. induction tasks as [|[k x] tasks IH]; intros cs blk Hnd Hk Hwf Hv Hc.
  - exists cs, blk. split; [done|]. split; [done|]. split; [done|]. intros y.
    rewrite decide_False by apply not_elem_of_nil. lia.
  - apply NoDup_cons in Hnd as [Hx Hnd]. change (task_id x ∉ task_id <$> tasks.*2) in Hx.
    change (NoDup (task_id <$> tasks.*2)) in Hnd.
    apply Forall_cons in Hk as [Hkx Hk]. simpl in Hkx.
    assert (forall y, y ∈ tasks.*2 -> 0 <= blocked_count cs y < u32_max) as Hc'
      by (intros; apply Hc; by right).
    assert (forall p, p ∈ tasks -> p.1 ∉ blk.*1) as Hv' by (intros; apply Hv; by right).
    assert (0 <= blocked_count cs x < u32_max) as Hcx by (apply Hc; left).
    cbn [reblock_readers]. rewrite !filter_cons.
    destruct (decide (reblocked from cs (k, x))) as [Hr|Hr].
    + rewrite decide_False by tauto. destruct Hr as [Hr1 Hr2]. simpl in Hr1, Hr2.
      destruct (Z.ltb_spec k from); [lia|]. rewrite try_reblock_pos by lia.
      cbn [mbind outcome_bind].
      destruct (insert_usage_ok blk Readonly x Hwf) as (blk1 & -> & Hwf1 & Hp1).
      { unfold ids. rewrite <-(bt_keys snd blk Hwf), <-Hkx. apply (Hv (k, x)). left. }
      cbn [mbind outcome_bind]. set (cs1 := set_blocked_usage_count _ _ _).
      assert (forall y, y ∈ tasks.*2 -> blocked_count cs1 y = blocked_count cs y) as Hsame.
      { intros y Hy. unfold cs1. rewrite blocked_count_set, decide_False; [done|].
        intros He. apply Hx. rewrite He. by apply list_elem_of_fmap_2. }
      assert (forall p, p ∈ tasks -> reblocked from cs1 p <-> reblocked from cs p) as Hrb.
      { intros p Hp. unfold reblocked. rewrite Hsame by (by apply list_elem_of_fmap_2). done. }
      destruct (IH cs1 blk1) as (cs' & blk' & Hr' & Hwf' & Hp' & Hc''); [done|done|done| | |].
      * intros p Hp. rewrite Hp1. cbn. rewrite elem_of_cons. intros [He|Hin]; [|by eapply Hv'].
        apply Hx. rewrite <-He. rewrite Forall_forall in Hk. rewrite (Hk p Hp).
        by apply list_elem_of_fmap_2, list_elem_of_fmap_2.
      * intros y Hy. rewrite Hsame by done. by apply Hc'.
      * exists cs', blk'. rewrite Hr'.
        rewrite (filter_ext_in (reblocked from cs1) (reblocked from cs)) in * by done.
        rewrite (filter_ext_in (fun p => ~ reblocked from cs1 p) (fun p => ~ reblocked from cs p))
          by (intros p Hp; by rewrite Hrb).
        split; [done|]. split; [done|]. split.
        -- rewrite Hp', Hp1. unfold as_reader at 2. simpl. rewrite Hkx. symmetry.
           apply Permutation_middle.
        -- intros y. rewrite Hc''. apply reblock_count. contradict Hx.
           eapply elem_of_submseteq; [exact Hx|].
           apply sublist_submseteq, fmap_sublist, fmap_sublist, sublist_filter.
    + rewrite decide_True by done.
      destruct (IH cs blk) as (cs' & blk' & Hr' & Hwf' & Hp' & Hc''); [done..|].
      exists cs', blk'. split; [|done]. rewrite Hr'.
      destruct (Z.ltb_spec k from); [done|].
      rewrite try_reblock_zero; [cbn [mbind outcome_bind]; by rewrite Hr'|]. unfold reblocked in Hr. simpl in Hr.
      destruct (decide (blocked_count cs x = 0)); [done|]. tauto.
Qed.

Lemma as_reader_snd (l : btree Task) : (as_reader <$> l).*2 = pair Readonly <$> l.*2.
Proof. by rewrite <-!list_fmap_compose. Qed.
Lemma hold_readers_ids (l : btree Task) : ids (pair Readonly <$> l.*2) = task_id <$> l.*2.
Proof. unfold ids. by rewrite snd_pair. Qed.

Lemma bt_wf_filter {A} (task : A -> Task) (P : Z * A -> Prop) `{!forall p, Decision (P p)}
    (l : btree A) : bt_wf task l -> bt_wf task (filter P l).
Proof.
  induction l as [|p l IH]; [done|]. intros Hwf. rewrite filter_cons.
  assert (bt_wf task l) as Hl by (by apply (bt_wf_app task [p]) in Hwf as [_ ?]).
  specialize (IH Hl). case_decide; [|done]. destruct IH as [IH1 IH2]. split.
  - constructor; [done|]. apply List.Forall_forall. intros k Hk%list_elem_of_In.
    apply list_elem_of_fmap in Hk as (p' & -> & [_ Hp']%list_elem_of_filter).
    by eapply bt_wf_cons_lt.
  - constructor; [|done]. by destruct Hwf as [_ [? _]%Forall_cons].
Qed.

(** A waiting newcomer that writes is first among the readers it reblocked. *)
Lemma writer_first_newcomer (R : btree Task) (blk blk' : btree UsageFromTask) t :
  writer_first blk ->
  (forall r, r ∈ R -> task_id t < r.1 /\ forall p, p ∈ blk -> r.1 < p.1) ->
  task_id t ∉ ids blk.*2 ->
  blk' ≡ₚ (task_id t, (Writable, t)) :: (as_reader <$> R) ++ blk -> bt_wf snd blk ->
  writer_first blk'.
Proof.
  intros HK HR Ht Hp Hwf. destruct R as [|r R'].
  - eapply writer_first_insert; [exact HK|exact Hp| |by left]. by rewrite (bt_keys _ _ Hwf).
  - right. exists (task_id t, (Writable, t)). rewrite Hp. split; [left|]. split; [done|].
    intros p'. rewrite Hp. intros [->|[(r' & -> & Hr')%list_elem_of_fmap|Hb]%elem_of_app]%elem_of_cons.
    + done.
    + apply HR in Hr' as [? _]. simpl. lia.
    + destruct (HR r) as [H1 H2]; [left|]. specialize (H2 _ Hb). simpl. lia.
Qed.

(** A writer takes the address from the readers behind it that wait elsewhere; if others
    remain it waits, ahead of those. *)
Section writer_over_readers.
Context (cs cs' : Counts) (t : Task) (tasks : btree Task) (blk blk' : btree UsageFromTask).
Let q := Priority (Some (UReadonly tasks)) blk.
Let keep := filter (fun p => ~ reblocked (task_id t) cs p) tasks.
Let R := filter (reblocked (task_id t) cs) tasks.
Hypothesis Hok : prio_ok (fun x => 0 < blocked_count cs x) q.
Hypothesis Ht : task_id t ∉ ids (hold_of q ++ wait_of q).
Hypothesis Hc : forall x, x ∈ tasks.*2 -> 0 <= blocked_count cs x < u32_max.
Hypothesis Hwf' : bt_wf snd blk'.
Hypothesis Hp : blk' ≡ₚ (as_reader <$> R) ++ blk.
Hypothesis Hcs : forall x, blocked_count cs' x =
  blocked_count cs x + if decide (task_id x ∈ task_id <$> R.*2) then 1 else 0.

Lemma wr_fresh : task_id t ∉ task_id <$> tasks.*2 /\ task_id t ∉ ids blk.*2.
Proof using Ht.
  revert Ht. rewrite ids_app, not_elem_of_app. cbn [hold_of wait_of q]. by rewrite hold_readers_ids.
Qed.

Lemma wr_id p : p ∈ tasks -> p.1 = task_id p.2.
Proof using Hok.
  intros Hin. destruct Hok as (_ & _ & _ & [_ Hk] & _). rewrite Forall_forall in Hk.
  by apply Hk in Hin.
Qed.

Lemma wr_split : tasks ≡ₚ keep ++ R.
Proof using.
  unfold keep, R. rewrite Permutation_app_comm. symmetry. apply filter_app_complement.
Qed.

Lemma wr_reblocked p :
  p ∈ R -> task_id t < p.1 /\ 0 < blocked_count cs p.2 /\ forall p', p' ∈ blk -> p.1 < p'.1.
Proof using Hok Ht Hc.
  intros [[H1 H2] Hin]%list_elem_of_filter. pose proof (wr_id p Hin) as Hid.
  assert (p.2 ∈ tasks.*2) as Hp2 by (by apply list_elem_of_fmap_2).
  assert (task_id t <> p.1) as Hne.
  { intros He. destruct wr_fresh as [Hth _]. apply Hth. rewrite He, Hid.
    by apply list_elem_of_fmap_2. }
  specialize (Hc _ Hp2). split; [lia|]. split; [lia|]. intros p' Hp'. rewrite Hid.
  destruct Hok as (_ & HJ & _).
  eapply (HJ Readonly); [by apply list_elem_of_fmap_2|lia|done].
Qed.

Lemma wr_pending x : x ∈ (pair Readonly <$> R.*2).*2 -> 0 < blocked_count cs x.
Proof using Hok Ht Hc.
  rewrite snd_pair. intros (p & -> & Hx)%list_elem_of_fmap. by apply wr_reblocked.
Qed.

Lemma wr_counts x : blocked_count cs' x = blocked_count cs x +
  if decide (task_id x ∈ ids (pair Readonly <$> R.*2)) then 1 else 0.
Proof using Hcs. by rewrite hold_readers_ids. Qed.

Lemma wr_wait : blk'.*2 ≡ₚ (pair Readonly <$> R.*2) ++ blk.*2.
Proof using Hp. by rewrite Hp, fmap_app, as_reader_snd. Qed.

Lemma wr_takes :
  keep = [] -> lock_effect cs q (Priority (Some (UWritable t)) blk') cs' Writable t true
    (pair Readonly <$> R.*2).
Proof using Hok Ht Hc Hwf' Hp Hcs.
  intros Hk. pose proof wr_split as Hsplit. rewrite Hk in Hsplit.
  apply (lock_takes cs t Writable q blk); [|done|apply wr_wait|done| |done|apply wr_pending|apply wr_counts].
  - cbn [hold_of q]. by rewrite Hsplit.
  - pose proof wr_reblocked as HR. destruct R as [|r R'].
    { apply Permutation_nil_r in Hsplit. by destruct Hok as (_ & _ & Hne & _). }
    intros p. rewrite Hp. intros [(r' & -> & Hr')%list_elem_of_fmap|Hpb]%elem_of_app; [by apply HR|].
    destruct (HR r) as (H1 & _ & H2); [left|]. specialize (H2 p Hpb). lia.
Qed.

Lemma wr_waits :
  keep <> [] -> exists q', push_blocked (Priority (Some (UReadonly keep)) blk') (Writable, t) = Ok q' /\
    lock_effect cs q q' cs' Writable t false (pair Readonly <$> R.*2).
Proof using Hok Ht Hc Hwf' Hp Hcs.
  intros Hkne. destruct wr_fresh as [Hth Htb].
  destruct (insert_usage_ok blk' Writable t Hwf') as (blk2 & Hi & Hwf2 & Hp2).
  { unfold ids in *. rewrite wr_wait, fmap_app, snd_pair, fmap_app. apply not_elem_of_app.
    split; [|done]. contradict Hth. rewrite wr_split, fmap_app, fmap_app. apply elem_of_app.
    by right. }
  exists (Priority (Some (UReadonly keep)) blk2). split.
  { cbn [push_blocked current_usage fmap option_fmap option_map usage_kind push]. by rewrite Hi. }
  destruct Hok as (Hwf & HJ & _ & Hwt & HK).
  split; [|..|apply wr_pending|apply wr_counts|].
  - exists (pair Readonly <$> keep.*2). cbn [hold_of q]. rewrite app_nil_r. split; [|done].
    by rewrite wr_split, !fmap_app.
  - cbn [wait_of q]. rewrite Hp2. cbn. rewrite wr_wait, app_assoc. apply Permutation_cons_append.
  - split; [done|]. split; [|split; [done|split; [by apply bt_wf_filter|]]].
    + intros w x p Hx Hpx. apply list_elem_of_fmap in Hx as (y & [= -> ->] & Hx).
      apply list_elem_of_fmap in Hx as (k & -> & [Hk Hkin]%list_elem_of_filter).
      pose proof (wr_id k Hkin) as Hid.
      destruct Hpx as [Hpx|Hpx].
      { destruct Hth. rewrite <-Hpx. by apply list_elem_of_fmap_2, list_elem_of_fmap_2. }
      assert (k.1 < task_id t) as Hlt by (unfold reblocked in Hk; lia).
      rewrite Hp2, elem_of_cons, Hp, elem_of_app.
      intros [->|[(r & -> & [? _]%wr_reblocked)%list_elem_of_fmap|Hpb]]; simpl; [lia|lia|].
      eapply (HJ Readonly); [by apply list_elem_of_fmap_2, list_elem_of_fmap_2|done|done].
    + apply (writer_first_newcomer R blk blk2 t); [done| |done|by rewrite Hp2, Hp|done].
      intros r (? & _ & ?)%wr_reblocked. done.
Qed.
End writer_over_readers.

Lemma lock_writer_over_readers cs t n tasks (blk : btree UsageFromTask) :
  let q := Priority (Some (UReadonly tasks)) blk in
  0 <= n < u32_max -> prio_ok (fun x => 0 < blocked_count cs x) q ->
  NoDup (ids (hold_of q ++ wait_of q)) -> task_id t ∉ ids (hold_of q ++ wait_of q) ->
  (forall x, x ∈ (hold_of q).*2 -> 0 <= blocked_count cs x < u32_max) ->
  exists (b : bool) q' cs' R, lock_queue q cs t Writable n = Ok (if b then n else n + 1, cs', q') /\
    lock_effect cs q q' cs' Writable t b R.
Proof.
  intros q Hn Hok Hnd Ht Hc. pose proof Hok as (Hwf & _ & _ & Hwt & _).
  cbn [hold_of q] in Hc. rewrite snd_pair in Hc.
  assert (NoDup (task_id <$> tasks.*2) /\ forall p, p ∈ tasks -> p.1 ∉ blk.*1) as [Hnd1 Hv].
  { rewrite ids_app in Hnd. cbn [hold_of wait_of q] in Hnd. rewrite hold_readers_ids in Hnd.
    apply NoDup_app in Hnd as (Hnd1 & Hdisj & _). split; [done|]. intros p Hp.
    rewrite (wr_id cs tasks blk Hok p Hp), (bt_keys _ _ Hwf). apply Hdisj.
    by apply list_elem_of_fmap_2, list_elem_of_fmap_2. }
  destruct (reblock_readers_ok (task_id t) cs tasks blk) as (cs' & blk' & Hr & Hwf' & Hp & Hcs);
    [done|apply Hwt|done|done|done|].
  unfold lock_queue. cbn [prepare_lock q]. rewrite Hr. cbn [mbind outcome_bind].
  destruct (filter (fun p => ~ reblocked (task_id t) cs p) tasks) as [|k0 keep] eqn:Hkeep.
  - exists true. eexists _, cs', _. split; [reflexivity|]. by eapply wr_takes.
  - exists false. destruct (wr_waits cs cs' t tasks blk blk') as (q' & Hq' & He); try done.
    { by rewrite Hkeep. }
    rewrite Hkeep in Hq'. eexists q', cs', _. split; [|exact He].
    cbn [mbind outcome_bind]. rewrite increment_Ok by done. cbn [mbind outcome_bind].
    by rewrite Hq'.
Qed.

(** Locking an address held by a writer. *)
Lemma lock_over_writer cs t u n w (blk : btree UsageFromTask) :
  let q := Priority (Some (UWritable w)) blk in
  0 <= n < u32_max -> prio_ok (fun x => 0 < blocked_count cs x) q ->
  NoDup (ids (hold_of q ++ wait_of q)) -> task_id t ∉ ids (hold_of q ++ wait_of q) ->
  0 <= blocked_count cs w < u32_max ->
  exists (b : bool) q' cs' R, lock_queue q cs t u n = Ok (if b then n else n + 1, cs', q') /\
    lock_effect cs q q' cs' u t b R.
Proof.
  intros q Hn Hok Hnd Ht Hc. pose proof Hok as (Hwf & HJ & _).
  assert (task_id t <> task_id w) as Hne by (intros He; apply Ht; rewrite He; left).
  assert (forall w' x, (w', x) ∈ hold_of q -> x = w) as Hw.
  { intros w' x Hx%list_elem_of_singleton. by injection Hx. }
  unfold lock_queue. cbn [prepare_lock q]. rewrite is_higher_ok by done. cbn [mbind outcome_bind].
  assert ((0 < blocked_count cs w -> task_id w < task_id t) ->
    exists (b : bool) q' cs' R,
      (n' ← increment n; q' ← push_blocked q (u, t); Ok (n', cs, q')) =
        Ok (if b then n else n + 1, cs', q') /\ lock_effect cs q q' cs' u t b R) as Hwait.
  { intros Hlt. destruct (lock_waits cs t u (UWritable w) blk) as (q' & Hpush & He); [done|done| |done|].
    { intros w' x Hx. by rewrite (Hw _ _ Hx). }
    exists false, q', cs, []. rewrite increment_Ok by done. cbn [mbind outcome_bind].
    fold q in Hpush. by rewrite Hpush. }
  destruct (Z.ltb_spec (task_id t) (task_id w)) as [Hlt|Hge]; cbn [negb];
    [|apply Hwait; lia].
  destruct (decide (blocked_count cs w = 0)) as [H0|H0].
  { rewrite try_reblock_zero by done. cbn [mbind outcome_bind negb]. apply Hwait. lia. }
  rewrite try_reblock_pos by lia. cbn [mbind outcome_bind negb].
  destruct (insert_usage_ok blk Writable w Hwf) as (blk' & -> & Hwf' & Hp).
  { rewrite ids_app in Hnd. apply NoDup_app in Hnd as (_ & Hd & _). apply Hd. left. }
  cbn [mbind outcome_bind try_lock]. exists true. eexists _, _, [(Writable, w)].
  split; [reflexivity|].
  assert (forall p, p ∈ blk' -> task_id w <= p.1) as Hmin.
  { intros p. rewrite Hp. intros [->|Hin]%elem_of_cons; [done|].
    apply Z.lt_le_incl. eapply (HJ Writable); [left|lia|done]. }
  apply (lock_takes cs t u q blk); [done|done| |done| | | |].
  - by rewrite Hp.
  - intros p Hin%Hmin. lia.
  - intros _. right. exists (task_id w, (Writable, w)). rewrite Hp. split; [left|]. split; [done|].
    apply Hmin.
  - intros x ->%list_elem_of_singleton. simpl. lia.
  - intros x. rewrite blocked_count_set. unfold ids. cbn.
    destruct (decide (task_id w = task_id x)) as [He|He].
    + rewrite decide_True by (rewrite He; left). unfold blocked_count. by rewrite He.
    + rewrite decide_False; [lia|]. intros Hx%list_elem_of_singleton. done.
Qed.

(** A reader locks an address held by readers. *)
Lemma lock_reader_over_readers cs t n tasks (blk : btree UsageFromTask) :
  let q := Priority (Some (UReadonly tasks)) blk in
  0 <= n < u32_max -> prio_ok (fun x => 0 < blocked_count cs x) q ->
  task_id t ∉ ids (hold_of q ++ wait_of q) ->
  exists (b : bool) q' cs' R, lock_queue q cs t Readonly n = Ok (if b then n else n + 1, cs', q') /\
    lock_effect cs q q' cs' Readonly t b R.
Proof.
  intros q Hn Hok Ht. pose proof Hok as (Hwf & HJ & _ & _ & HK).
  unfold lock_queue. cbn [prepare_lock q peek_blocked].
  assert ((forall p, p ∈ blk -> task_id t < p.1) -> exists q',
    try_lock q t Readonly = Ok (true, q') /\ lock_effect cs q q' cs Readonly t true []) as Hjoin
    by (intros Hlt; by apply lock_reader).
  destruct blk as [|[k [w x]] blk']; cbn [head fmap option_fmap option_map mbind outcome_bind snd].
  - destruct Hjoin as (q' & Hl & He); [by intros ? ?%elem_of_nil|].
    exists true, q', cs, []. fold q. by rewrite Hl.
  - assert (w = Writable) as -> by (by eapply writer_first_head).
    rewrite bool_decide_eq_true_2 by done. cbn [assert mbind outcome_bind].
    assert (k = task_id x) as Hk by (by destruct Hwf as [_ [? _]%Forall_cons]).
    assert (task_id t <> task_id x) as Hne.
    { intros He. apply Ht. rewrite He, ids_app. apply elem_of_app. right. left. }
    rewrite is_higher_ok by done. cbn [mbind outcome_bind].
    destruct (Z.ltb_spec (task_id t) (task_id x)) as [Hlt|Hge].
    + destruct Hjoin as (q' & Hl & He).
      { intros p [->|Hin]%elem_of_cons; [simpl; lia|].
        pose proof (bt_wf_cons_lt _ _ _ _ Hwf Hin). simpl in *. lia. }
      exists true, q', cs, []. fold q. by rewrite Hl.
    + destruct (lock_waits cs t Readonly (UReadonly tasks) ((k, (Writable, x)) :: blk'))
        as (q' & Hpush & He); [done|done| | |].
      * intros w' y Hy Hpend. pose proof (HJ w' y (k, (Writable, x)) Hy Hpend) as Hlt.
        assert (task_id y < k) by (apply Hlt; left). lia.
      * intros _. right. eexists. split; [left|]. simpl. lia.
      * exists false, q', cs, []. rewrite increment_Ok by done. cbn [mbind outcome_bind].
        fold q in Hpush. fold q. by rewrite Hpush.
Qed.

(** Locking one address. *)
Lemma lock_queue_ok q cs t u n :
  0 <= n < u32_max -> prio_ok (fun x => 0 < blocked_count cs x) q ->
  NoDup (ids (hold_of q ++ wait_of q)) -> task_id t ∉ ids (hold_of q ++ wait_of q) ->
  (forall x, x ∈ (hold_of q).*2 -> 0 <= blocked_count cs x < u32_max) ->
  exists (b : bool) q' cs' R, lock_queue q cs t u n = Ok (if b then n else n + 1, cs', q') /\
    lock_effect cs q q' cs' u t b R.
Proof.
  intros Hn Hok Hnd Ht Hc. destruct q as [|[[tasks|w]|] blk]; [done|..].
  - destruct u; [by apply lock_reader_over_readers|by apply lock_writer_over_readers].
  - apply lock_over_writer; try done. apply Hc. left.
  - destruct Hok as (_ & _ & ->). exists true. eexists _, cs, []. split; [reflexivity|].
    apply lock_free.
Qed.

(** ** Releasing an address *)
Lemma bt_insert_last {A} k (v : A) (l : btree A) :
  (forall k', k' ∈ l.*1 -> k' < k) -> bt_insert k v l = (true, l ++ [(k, v)]).
Proof.
  induction l as [|[k' v'] l IH]; intros Hk; [done|]. cbn [bt_insert].
  assert (k' < k) by (apply Hk; left). destruct (Z.ltb_spec k k'); [lia|].
  destruct (Z.eqb_spec k k'); [lia|]. rewrite IH; [done|]. intros x Hx. apply Hk. by right.
Qed.

Definition by_id (t : Task) : Z * Task := (task_id t, t).
Definition prio_readers (tasks : btree Task) : option PriorityUsage :=
  match tasks with [] => None | _ => Some (UReadonly tasks) end.

Lemma try_lock_prio_readers tasks l x :
  (forall k, k ∈ tasks.*1 -> k < task_id x) ->
  try_lock (Priority (prio_readers tasks) l) x Readonly =
  Ok (true, Priority (Some (UReadonly (tasks ++ [by_id x]))) l).
Proof.
  intros Hk. destruct tasks as [|p tasks]; [done|]. cbn [prio_readers try_lock].
  by rewrite bt_insert_last.
Qed.

Lemma relock_prio_readers fuel tasks l cs ub x :
  let ts := x :: (take (lead l.*2) l.*2).*2 in
  (lead l.*2 < fuel)%nat -> bt_wf snd ((task_id x, (Readonly, x)) :: l) ->
  (forall k, k ∈ tasks.*1 -> k < task_id x) -> (forall y, y ∈ ts -> 0 < blocked_count cs y) ->
  relock_loop fuel (Priority (prio_readers tasks) l) cs ub (Some (Readonly, x)) =
  Ok (Priority (Some (UReadonly (tasks ++ (by_id <$> ts)))) (drop (lead l.*2) l),
      (unblock_all (cs, ub) ts).1, (unblock_all (cs, ub) ts).2).
Proof.
  revert fuel tasks cs ub x.
  induction l as [|[k [u y]] l IH]; intros [|fuel] tasks cs ub x ts Hf Hwf Hk Hpos; try lia;
    (cbn [relock_loop]; rewrite try_lock_prio_readers by done; cbn [mbind outcome_bind assert];
     unfold try_unblock; rewrite decrement_Ok by (apply Hpos; left);
     cbn [mbind outcome_bind]; unfold pop_lockable_readonly;
     cbn [peek_blocked head fmap option_fmap option_map snd]).
  - destruct fuel; reflexivity.
  - destruct u; [|destruct fuel; reflexivity].
    cbn [current_usage fmap option_fmap option_map usage_kind pop mbind outcome_bind].
    change (lead ((k, (Readonly, y)) :: l).*2) with (S (lead l.*2)) in *.
    assert (task_id x < k) as Hxk by (by eapply (bt_wf_cons_lt _ _ (k, (Readonly, y)) _ Hwf); left).
    assert (bt_wf snd ((task_id y, (Readonly, y)) :: l)) as Hwf'.
    { apply (bt_wf_app snd [_]) in Hwf as [_ Hwf]. pose proof Hwf as [_ [Hky _]%Forall_cons].
      simpl in Hky. by rewrite <-Hky. }
    replace (Some (UReadonly (tasks ++ [by_id x]))) with (prio_readers (tasks ++ [by_id x]))
      by (by destruct tasks).
    rewrite (IH fuel (tasks ++ [by_id x])); [by rewrite <-app_assoc|lia|done| |].
    + intros k'. rewrite fmap_app, elem_of_app.
      intros [Hk'%Hk|Hk'%list_elem_of_singleton]; [|rewrite Hk'];
        apply (bt_wf_cons_id _ _ y) in Hwf; [simpl in *; lia|left|simpl in *; lia|left].
    + intros z Hz. cbn [unblock_one fst]. rewrite blocked_count_set, decide_False.
      * apply Hpos. by right.
      * apply Z.lt_neq. eapply (bt_wf_cons_id (task_id x, (Readonly, x))); [exact Hwf|].
        apply elem_of_cons in Hz as [->|Hz]; [left|right].
        eapply elem_of_submseteq; [exact Hz|].
        apply sublist_submseteq, fmap_sublist, sublist_take.
Qed.

Lemma bt_wf_by_id (ts : list Task) : StronglySorted Z.lt (task_id <$> ts) -> bt_wf id (by_id <$> ts).
Proof.
  intros H. split; [by rewrite <-list_fmap_compose|]. apply Forall_fmap, Forall_true. done.
Qed.

(** The waiting tasks a free address is handed to. *)
Definition prio_next (blk : btree UsageFromTask) : nat :=
  match blk with
  | [] => 0
  | (_, (Writable, _)) :: _ => 1
  | _ => lead blk.*2
  end.

Lemma lead_take (l : list UsageFromTask) : take (lead l) l = pair Readonly <$> (take (lead l) l).*2.
Proof. induction l as [|[[] t] l IH]; [done| |done]. cbn [lead take]. rewrite !fmap_cons. by rewrite <-IH. Qed.

Lemma lead_writer_first (blk : btree UsageFromTask) :
  bt_wf snd blk -> writer_first (drop (lead blk.*2) blk).
Proof.
  induction blk as [|[k [[] x]] blk IH]; intros Hwf.
  - by left.
  - apply (bt_wf_app snd [_]) in Hwf as [_ Hwf]. by apply IH.
  - right. eexists. split; [left|]. split; [done|]. intros p [->|Hp]%elem_of_cons; [done|].
    apply Z.lt_le_incl. by eapply bt_wf_cons_lt.
Qed.

Lemma by_id_snd ts : (by_id <$> ts).*2 = ts.
Proof. induction ts as [|t ts IH]; [done|]. rewrite !fmap_cons. by rewrite IH. Qed.

Lemma handed_readers_ok pend x (blk : btree UsageFromTask) :
  bt_wf snd ((task_id x, (Readonly, x)) :: blk) ->
  prio_ok pend (Priority (Some (UReadonly (by_id <$> x :: (take (lead blk.*2) blk.*2).*2)))
    (drop (lead blk.*2) blk)).
Proof.
  set (m := lead blk.*2). intros Hwf.
  assert (bt_wf snd ((task_id x, (Readonly, x)) :: take m blk) /\ bt_wf snd (drop m blk) /\
    forall k k', k ∈ ((task_id x, (Readonly, x)) :: take m blk).*1 -> k' ∈ (drop m blk).*1 ->
      k < k') as (H1 & H2 & H3).
  { rewrite <-(take_drop m blk) in Hwf. rewrite app_comm_cons in Hwf.
    pose proof (bt_wf_app _ _ _ Hwf) as [? ?]. destruct Hwf as [(_ & _ & ?)%bt_sorted_app _].
    done. }
  pose proof (bt_keys _ _ H1) as Hkeys.
  replace (x :: (take m blk.*2).*2) with (((task_id x, (Readonly, x)) :: take m blk).*2.*2)
    by (by rewrite <-fmap_take).
  split; [done|]. split.
  - intros w t p Ht _ Hp. cbn [hold_of] in Ht. rewrite by_id_snd in Ht.
    apply list_elem_of_fmap in Ht as (t' & [= -> ->] & Ht). apply H3.
    + rewrite Hkeys. by apply list_elem_of_fmap_2.
    + by apply list_elem_of_fmap_2.
  - split; [done|]. split; [|].
    + apply bt_wf_by_id. rewrite <-Hkeys. apply H1.
    + apply lead_writer_first. by apply (bt_wf_app snd [_]) in Hwf as [_ ?].
Qed.

Lemma handover_ok pend cs ub (blk : btree UsageFromTask) :
  bt_wf snd blk -> (forall x, x ∈ blk.*2.*2 -> 0 < blocked_count cs x) ->
  let '(next, q) := pop (Priority None blk) in
  exists q' N,
    relock_loop (S (blocked_length q)) q cs ub next =
      Ok (q', (unblock_all (cs, ub) N.*2).1, (unblock_all (cs, ub) N.*2).2) /\
    prio_ok pend q' /\ hold_of q' ≡ₚ N /\ blk.*2 ≡ₚ N ++ wait_of q'.
Proof.
  intros Hwf Hpos. destruct blk as [|[k [[] x]] blk]; cbn [pop].
  - exists (Priority None []), []. split; [done|]. split; [|done]. split; [split; constructor|].
    split; [|done]. by intros ? ? ? ? ? ?%elem_of_nil.
  - set (ts := x :: (take (lead blk.*2) blk.*2).*2).
    assert (k = task_id x) as -> by (by destruct Hwf as [_ [? _]%Forall_cons]).
    pose proof (lead_le blk.*2) as Hle. rewrite length_fmap in Hle.
    exists (Priority (Some (UReadonly (by_id <$> ts))) (drop (lead blk.*2) blk)),
      (pair Readonly <$> ts). rewrite snd_pair. split; [|split; [|split]].
    + apply (relock_prio_readers _ []); [cbn [blocked_length]; lia|done|by intros ? ?%elem_of_nil|].
      intros y Hy. apply Hpos. apply elem_of_cons in Hy as [->|Hy]; [left|right].
      eapply elem_of_submseteq; [exact Hy|]. apply sublist_submseteq, fmap_sublist, sublist_take.
    + apply handed_readers_ok. exact Hwf.
    + cbn [hold_of]. by rewrite by_id_snd.
    + cbn [wait_of]. rewrite fmap_drop. unfold ts. rewrite (fmap_cons (pair Readonly)), <-lead_take.
      change (((task_id x, (Readonly, x)) :: blk).*2) with ((Readonly, x) :: blk.*2).
      cbn [app]. by rewrite take_drop.
  - exists (Priority (Some (UWritable x)) blk), [(Writable, x)]. split; [|split; [|split]].
    + cbn [relock_loop try_lock mbind outcome_bind assert]. unfold try_unblock.
      rewrite decrement_Ok by (apply Hpos; left). cbn [mbind outcome_bind].
      by destruct (blocked_length _).
    + split; [by apply (bt_wf_app snd [_]) in Hwf as [_ ?]|]. split; [|done].
      intros w t p Ht _ Hp. apply list_elem_of_singleton in Ht. injection Ht as -> ->.
      assert (k = task_id x) as <- by (by destruct Hwf as [_ [? _]%Forall_cons]).
      by eapply (bt_wf_cons_lt _ _ _ _ Hwf).
    + done.
    + done.
Qed.

(** The loop body of [unlock_usage_queues] on the queue, the counts and the unblocked tasks. *)
Definition unlock_queue (q : UsageQueueInner) (cs : Counts) (ub : list Task) (t : Task)
    (u : RequestedUsage) : res (UsageQueueInner * Counts * list Task) :=
  '(newly_lockable, q) ← unlock q t u;
  relock_loop (S (blocked_length q)) q cs ub newly_lockable.

Lemma unlock_context_queue S t c :
  unlock_context S t c =
  '(q, cs, ub) ← unlock_queue (queue_of S (usage_queue c)) (counts S) (unblocked_task_queue S) t
    (requested_usage c);
  Ok (set_store S (<[usage_queue c := q]> (queues S)) cs ub).
Proof.
  unfold unlock_context, unlock_queue. by destruct (unlock _ _ _) as [[next q]|[]|].
Qed.

Lemma unlock_queue_ok pend q cs ub t u :
  prio_ok pend q -> NoDup (ids (hold_of q ++ wait_of q)) -> (u, t) ∈ hold_of q ->
  (forall x, x ∈ (wait_of q).*2 -> 0 < blocked_count cs x) ->
  exists q' N H,
    unlock_queue q cs ub t u =
      Ok (q', (unblock_all (cs, ub) N.*2).1, (unblock_all (cs, ub) N.*2).2) /\
    prio_ok pend q' /\ hold_of q ≡ₚ (u, t) :: H /\ hold_of q' ≡ₚ H ++ N /\
    wait_of q ≡ₚ N ++ wait_of q'.
Proof.
  intros Hok Hnd Ht Hpos. destruct q as [|[[tasks|w]|] blk]; [done|..].
  - destruct Hok as (Hwf & HJ & Hne & Hwt & HK). cbn [hold_of wait_of] in *.
    apply list_elem_of_fmap in Ht as (t' & [= -> ->] & Hin).
    apply list_elem_of_fmap in Hin as ([k y] & -> & Hin). simpl.
    destruct (bt_remove_ok tasks k y) as (l1 & l2 & -> & Hr); [by apply bt_sorted_nodup, Hwt|done|].
    assert (k = task_id y) as ->.
    { destruct Hwt as [_ Hf]. rewrite Forall_forall in Hf. by apply (Hf (k, y)). }
    unfold unlock_queue, unlock. rewrite Hr. cbn [expect mbind outcome_bind].
    destruct (l1 ++ l2) as [|p0 rest] eqn:Hl.
    + apply app_nil in Hl as [-> ->]. cbn [mbind outcome_bind].
      pose proof (handover_ok pend cs ub blk Hwf Hpos) as Hh.
      destruct (pop (Priority None blk)) as [next q]. destruct Hh as (q' & N & H1 & H2 & H3 & H4).
      exists q', N, []. done.
    + exists (Priority (Some (UReadonly (p0 :: rest))) blk), [], (pair Readonly <$> (p0 :: rest).*2).
      split; [done|]. rewrite <-Hl. split; [|split; [|split]].
      * split; [done|]. split; [|split; [by rewrite Hl|split; [by eapply bt_wf_remove|done]]].
        intros w x p Hx. apply (HJ w). cbn [hold_of] in Hx. rewrite !fmap_app in *.
        apply elem_of_app in Hx as [?|?]; apply elem_of_app; [by left|by right; right].
      * rewrite !fmap_app. cbn. symmetry. apply Permutation_middle.
      * cbn [hold_of]. by rewrite app_nil_r.
      * done.
  - cbn [hold_of wait_of] in *. apply list_elem_of_singleton in Ht as [= -> ->].
    destruct Hok as (Hwf & _ & _). unfold unlock_queue, unlock. cbn [mbind outcome_bind].
    pose proof (handover_ok pend cs ub blk Hwf Hpos) as Hh.
    destruct (pop (Priority None blk)) as [next q]. destruct Hh as (q' & N & H1 & H2 & H3 & H4).
    exists q', N, []. done.
  - by apply elem_of_nil in Ht.
Qed.
