(* ===== verification/UnifiedPriorityProofs.v ===== *)
(** * Priority scheduling

    The unified scheduler's state machine with priority usage queues, the mode of block
    production, meets the contract of [UnifiedMachine]: every usage of an active task either
    holds or waits in the queue of its address, the blocked usage counts count the waiting
    ones, and the order of the queues rules out deadlock. *)

From S2P Require Import Prelude UnifiedScheduler UnifiedMachine UnifiedFifo UnifiedPriority.
Local Open Scope Z_scope.
#[local] Opaque increment decrement.

(** ** Waiting usages *)
Definition pwaits (Q : Pubkey -> UsageQueueInner) (x : Task) (c : LockContext) : Prop :=
  (requested_usage c, x) ∈ wait_of (Q (usage_queue c)).
#[export] Instance pwaits_dec Q x c : Decision (pwaits Q x c).
Proof. unfold pwaits. apply _. Defined.
Definition pcount (Q : Pubkey -> UsageQueueInner) (x : Task) (cs : list LockContext) : Z :=
  Z.of_nat (length (filter (pwaits Q x) cs)).

Lemma pcount_cons Q x c cs :
  pcount Q x (c :: cs) = (if decide (pwaits Q x c) then 1 else 0) + pcount Q x cs.
Proof. unfold pcount. rewrite filter_cons. case_decide; simpl length; lia. Qed.
Lemma pcount_nonneg Q x cs : 0 <= pcount Q x cs.
Proof. unfold pcount. lia. Qed.
Lemma pcount_le Q x cs : pcount Q x cs <= Z.of_nat (length cs).
Proof. unfold pcount. pose proof (length_filter (pwaits Q x) cs). lia. Qed.
Lemma pcount_zero Q x cs : pcount Q x cs = 0 <-> forall c, c ∈ cs -> ~ pwaits Q x c.
Proof.
  induction cs as [|c cs IH]; [set_solver|]. rewrite pcount_cons.
  pose proof (pcount_nonneg Q x cs). case_decide as Hw.
  - split; [lia|]. intros Hc. by destruct (Hc c); [left|].
  - rewrite Z.add_0_l, IH. set_solver.
Qed.
Lemma pcount_same Q Q' x cs :
  (forall c, c ∈ cs -> pwaits Q x c <-> pwaits Q' x c) -> pcount Q x cs = pcount Q' x cs.
Proof.
  induction cs as [|c cs IH]; intros H; [done|].
  rewrite !pcount_cons, IH by (intros; apply H; by right).
  assert (pwaits Q x c <-> pwaits Q' x c) by (apply H; left). repeat case_decide; tauto || lia.
Qed.

(** One more usage waits. *)
Lemma pcount_more Q Q' x cs c :
  NoDup (usage_queue <$> cs) -> c ∈ cs -> ~ pwaits Q x c -> pwaits Q' x c ->
  (forall d, usage_queue d <> usage_queue c -> pwaits Q x d <-> pwaits Q' x d) ->
  pcount Q' x cs = pcount Q x cs + 1.
Proof.
  induction cs as [|d cs IH]; [set_solver|]. intros [Hd Hnd]%NoDup_cons Hc H1 H2 Hr.
  rewrite !pcount_cons. apply elem_of_cons in Hc as [->|Hc].
  - rewrite (pcount_same Q Q'); [repeat case_decide; tauto || lia|].
    intros c Hc. apply Hr. intros He. apply Hd. rewrite <-He. by apply list_elem_of_fmap_2.
  - rewrite IH by done. assert (usage_queue d <> usage_queue c) as Hne.
    { intros He. apply Hd. rewrite He. by apply list_elem_of_fmap_2. }
    apply Hr in Hne. repeat case_decide; tauto || lia.
Qed.

(** ** The queues and the counts

    [ctxs x] are the contexts of [x] that are entered; [new] holds the task being locked,
    whose count is not written yet. *)
Record pstate (act : list Task) (ctxs : Task -> list LockContext) (new : list Task)
    (Q : Pubkey -> UsageQueueInner) (cs : Counts) : Prop := {
  ps_ids : NoDup (task_id <$> act);
  ps_addr x : x ∈ act -> NoDup (usage_queue <$> ctxs x) /\ Z.of_nat (length (ctxs x)) < u32_max;
  ps_ok a : prio_ok (fun x => x ∈ new \/ 0 < blocked_count cs x) (Q a);
  ps_nodup a : NoDup (ids (hold_of (Q a) ++ wait_of (Q a)));
  ps_users a u x : (u, x) ∈ hold_of (Q a) ++ wait_of (Q a) <->
    x ∈ act /\ {| usage_queue := a; requested_usage := u |} ∈ ctxs x;
  ps_counts x : x ∈ act -> x ∉ new -> blocked_count cs x = pcount Q x (ctxs x);
  ps_idle x : task_id x ∉ task_id <$> act \/ x ∈ new -> blocked_count cs x = 0
}.

Definition with_ctxs (ctxs : Task -> list LockContext) (t : Task) (l : list LockContext)
    (x : Task) : list LockContext := if decide (x = t) then l else ctxs x.
Definition upd (Q : Pubkey -> UsageQueueInner) (a : Pubkey) (q : UsageQueueInner)
    (b : Pubkey) : UsageQueueInner := if decide (b = a) then q else Q b.

Lemma upd_eq Q a q : upd Q a q a = q.
Proof. unfold upd. by rewrite decide_True. Qed.
Lemma upd_ne Q a q b : b <> a -> upd Q a q b = Q b.
Proof. intros. unfold upd. by rewrite decide_False. Qed.
Lemma with_ctxs_eq ctxs t l : with_ctxs ctxs t l t = l.
Proof. unfold with_ctxs. by rewrite decide_True. Qed.
Lemma with_ctxs_ne ctxs t l x : x <> t -> with_ctxs ctxs t l x = ctxs x.
Proof. intros. unfold with_ctxs. by rewrite decide_False. Qed.

Lemma ids_inv k l : k ∈ ids l -> exists u x, (u, x) ∈ l /\ k = task_id x.
Proof.
  intros (x & -> & Hx)%list_elem_of_fmap. apply list_elem_of_fmap in Hx as ([u y] & -> & Hin).
  by exists u, y.
Qed.

(** A usage occurs once in the queue of its address. *)
Lemma nodup_split l1 l2 u w x :
  NoDup (ids (l1 ++ l2)) -> (u, x) ∈ l1 -> (w, x) ∉ l2.
Proof.
  rewrite ids_app. intros (_ & H & _)%NoDup_app H1 H2. by eapply H; eapply ids_elem.
Qed.

Lemma blocked_count_id cs x y : task_id x = task_id y -> blocked_count cs x = blocked_count cs y.
Proof. intros H. unfold blocked_count. by rewrite H. Qed.

Lemma ps_nonneg act ctxs new Q cs x : pstate act ctxs new Q cs -> 0 <= blocked_count cs x.
Proof.
  intros Hps. destruct (decide (task_id x ∈ task_id <$> act)) as [Hx|Hx].
  - apply list_elem_of_fmap in Hx as (y & He & Hy). rewrite (blocked_count_id _ _ _ He).
    destruct (decide (y ∈ new)) as [Hn|Hn].
    + rewrite (ps_idle _ _ _ _ _ Hps) by auto. lia.
    + rewrite (ps_counts _ _ _ _ _ Hps) by done. apply pcount_nonneg.
  - rewrite (ps_idle _ _ _ _ _ Hps) by auto. lia.
Qed.

Lemma ps_act act ctxs new Q cs a u x :
  pstate act ctxs new Q cs -> (u, x) ∈ hold_of (Q a) ++ wait_of (Q a) -> x ∈ act.
Proof. intros Hps Hx. by apply (ps_users _ _ _ _ _ Hps) in Hx as [? _]. Qed.

Lemma ps_waiting act ctxs Q cs a w x :
  pstate act ctxs [] Q cs -> (w, x) ∈ wait_of (Q a) -> 0 < blocked_count cs x.
Proof.
  intros Hps Hx. pose proof (ps_users _ _ _ _ _ Hps a w x) as Hu.
  destruct (proj1 Hu) as [Hxa Hc]; [apply elem_of_app; by right|].
  rewrite (ps_counts _ _ _ _ _ Hps) by (done || apply not_elem_of_nil).
  pose proof (pcount_nonneg Q x (ctxs x)).
  enough (pcount Q x (ctxs x) <> 0) by lia. rewrite pcount_zero. intros Hn. by apply (Hn _ Hc).
Qed.

Lemma ps_id_inj act ctxs new Q cs x y :
  pstate act ctxs new Q cs -> x ∈ act -> y ∈ act -> task_id x = task_id y -> x = y.
Proof. intros Hps. apply NoDup_fmap_inj, Hps. Qed.

Lemma effect_perm cs q q' cs' u t b R :
  lock_effect cs q q' cs' u t b R ->
  hold_of q' ++ wait_of q' ≡ₚ (u, t) :: hold_of q ++ wait_of q.
Proof.
  intros [(H & Hh & Hh') Hw _ _ _]. rewrite Hh', Hw, Hh.
  destruct b; rewrite ?app_nil_r, <-!app_assoc; cbn [app].
  - symmetry. apply Permutation_middle.
  - rewrite !app_assoc. symmetry. apply Permutation_cons_append.
Qed.

Section lock_step.
Context (act : list Task) (ctxs : Task -> list LockContext) (t : Task) (c : LockContext).
Context (Q : Pubkey -> UsageQueueInner) (cs : Counts).
Hypothesis Hps : pstate act ctxs [t] Q cs.
Hypothesis Ht : t ∈ act.
Hypothesis Hc : usage_queue c ∉ usage_queue <$> ctxs t.
Let a := usage_queue c.
Let u := requested_usage c.

Lemma lock_fresh : task_id t ∉ ids (hold_of (Q a) ++ wait_of (Q a)).
Proof using Hps Ht Hc.
  intros (w & x & Hx & He)%ids_inv. assert (x ∈ act) as Hxa by (by eapply ps_act).
  rewrite (ps_id_inj _ _ _ _ _ t x Hps Ht Hxa He) in *.
  apply (ps_users _ _ _ _ _ Hps) in Hx as [_ Hx]. apply Hc.
  by apply (list_elem_of_fmap_2 usage_queue) in Hx.
Qed.

Context (q' : UsageQueueInner) (cs' : Counts) (b : bool) (R : list UsageFromTask).
Hypothesis He : lock_effect cs (Q a) q' cs' u t b R.

Lemma lock_R w x : (w, x) ∈ R -> (w, x) ∈ hold_of (Q a) /\ x ∈ act /\ x <> t.
Proof using Hps Ht Hc He.
  intros HR. assert ((w, x) ∈ hold_of (Q a)) as Hh.
  { destruct He as [(H & Hh & _) _ _ _ _]. rewrite Hh. apply elem_of_app. by right. }
  split; [done|]. split; [eapply ps_act, elem_of_app; [exact Hps|by left]|].
  intros ->. apply lock_fresh. eapply ids_elem, elem_of_app. by left.
Qed.

Lemma lock_zero x : 0 < blocked_count cs' x <-> 0 < blocked_count cs x.
Proof using Hps He.
  rewrite (le_counts _ _ _ _ _ _ _ _ He). pose proof (ps_nonneg _ _ _ _ _ x Hps).
  case_decide as Hx; [|lia]. split; [|lia]. intros _.
  apply ids_inv in Hx as (w & y & Hy & Hid). rewrite (blocked_count_id _ _ _ Hid).
  by apply (le_pending _ _ _ _ _ _ _ _ He), (list_elem_of_fmap_2 snd _ (w, y)).
Qed.

Lemma lock_count x :
  x ∈ act -> x <> t -> blocked_count cs' x = pcount (upd Q a q') x (ctxs x).
Proof using Hps Ht Hc He.
  intros Hx Hxt. rewrite (le_counts _ _ _ _ _ _ _ _ He).
  rewrite (ps_counts _ _ _ _ _ Hps) by set_solver.
  assert (forall w, (w, x) ∈ wait_of q' <-> (w, x) ∈ R \/ (w, x) ∈ wait_of (Q a)) as Hw.
  { intros w. rewrite (le_wait _ _ _ _ _ _ _ _ He), !elem_of_app.
    assert ((w, x) ∉ (if b then [] else [(u, t)])); [|tauto].
    destruct b; [apply not_elem_of_nil|]. rewrite list_elem_of_singleton. naive_solver. }
  case_decide as Hid.
  - apply ids_inv in Hid as (w & y & Hy & Hid). destruct (lock_R _ _ Hy) as (Hh & Hya & _).
    rewrite (ps_id_inj _ _ _ _ _ x y Hps Hx Hya Hid) in *.
    assert ({| usage_queue := a; requested_usage := w |} ∈ ctxs y) as Hctx.
    { apply (ps_users _ _ _ _ _ Hps a w y). apply elem_of_app. by left. }
    symmetry. eapply pcount_more; [by eapply ps_addr|exact Hctx|..]; unfold pwaits;
      cbn [usage_queue requested_usage].
    + by eapply nodup_split; [apply Hps|].
    + rewrite upd_eq, Hw. by left.
    + intros d Hd. by rewrite upd_ne.
  - rewrite Z.add_0_r. apply pcount_same. intros d _. unfold pwaits.
    destruct (decide (usage_queue d = a)) as [->|Hd]; [|by rewrite upd_ne].
    rewrite upd_eq, Hw. assert ((requested_usage d, x) ∉ R); [|tauto].
    contradict Hid. by eapply ids_elem.
Qed.

Lemma lock_count_new :
  pcount (upd Q a q') t (c :: ctxs t) = pcount Q t (ctxs t) + (if b then 0 else 1).
Proof using Hps Ht Hc He.
  rewrite pcount_cons, (pcount_same _ Q).
  - assert (pwaits (upd Q a q') t c <-> b = false) as Hw.
    { unfold pwaits. rewrite upd_eq, (le_wait _ _ _ _ _ _ _ _ He), !elem_of_app.
      assert ((u, t) ∉ R) as H1 by (by intros (_ & _ & ?)%lock_R).
      assert ((u, t) ∉ wait_of (Q a)) as H2.
      { intros Hin. apply lock_fresh. eapply ids_elem, elem_of_app. by right. }
      unfold u in *. destruct b; [rewrite elem_of_nil|rewrite list_elem_of_singleton]; naive_solver. }
    destruct b; case_decide; naive_solver lia.
  - intros d Hd. unfold pwaits. rewrite upd_ne; [done|]. intros Hda. apply Hc. unfold a in Hda.
    rewrite <-Hda. by apply list_elem_of_fmap_2.
Qed.

Lemma lock_step_state :
  Z.of_nat (length (ctxs t)) + 1 < u32_max ->
  pstate act (with_ctxs ctxs t (c :: ctxs t)) [t] (upd Q a q') cs'.
Proof using Hps Ht Hc He.
  intros Hlen. pose proof (effect_perm _ _ _ _ _ _ _ _ He) as Hp. split.
  - apply Hps.
  - intros x Hx. unfold with_ctxs. case_decide as Hxt; [|by apply Hps]. subst x.
    destruct (ps_addr _ _ _ _ _ Hps t Ht) as [H1 H2]. cbn [length]. split; [|lia].
    rewrite fmap_cons. by constructor.
  - intros b'. destruct (decide (b' = a)) as [->|Hb].
    + rewrite upd_eq. eapply prio_ok_mono; [|exact (le_ok _ _ _ _ _ _ _ _ He)].
      intros w x _ [->%list_elem_of_singleton|Hx]; [by left|right]. by apply lock_zero.
    + rewrite upd_ne by done. eapply prio_ok_mono; [|apply Hps].
      intros w x _ [Hx|Hx]; [by left|right]. by apply lock_zero.
  - intros b'. destruct (decide (b' = a)) as [->|Hb]; [|rewrite upd_ne by done; apply Hps].
    rewrite upd_eq. unfold ids. rewrite Hp. cbn. constructor; [apply lock_fresh|apply Hps].
  - intros b' w x. destruct (decide (b' = a)) as [->|Hb].
    + rewrite upd_eq, Hp, elem_of_cons, (ps_users _ _ _ _ _ Hps).
      destruct (decide (x = t)) as [->|Hxt].
      * rewrite with_ctxs_eq, elem_of_cons. unfold a, u. destruct c as [a0 u0].
        cbn [usage_queue requested_usage]. naive_solver.
      * rewrite with_ctxs_ne by done. naive_solver.
    + rewrite upd_ne, (ps_users _ _ _ _ _ Hps) by done. unfold with_ctxs.
      case_decide as Hxt; [|done]. subst x. rewrite elem_of_cons. unfold a in Hb.
      destruct c as [a0 u0]. cbn [usage_queue] in Hb. naive_solver.
  - intros x Hx Hxn. assert (x <> t) as Hxt by set_solver. rewrite with_ctxs_ne by done.
    by apply lock_count.
  - intros x Hx. rewrite (le_counts _ _ _ _ _ _ _ _ He), (ps_idle _ _ _ _ _ Hps x Hx).
    rewrite decide_False; [done|]. intros (w & y & Hy & Hid)%ids_inv.
    destruct (lock_R _ _ Hy) as (_ & Hya & Hyt). destruct Hx as [Hx|Hx%list_elem_of_singleton].
    + apply Hx. rewrite Hid. by apply list_elem_of_fmap_2.
    + subst x. by apply Hyt, (ps_id_inj _ _ _ _ _ _ _ Hps).
Qed.
End lock_step.

Lemma lock_step_ok act ctxs t c Q cs :
  pstate act ctxs [t] Q cs -> t ∈ act -> usage_queue c ∉ usage_queue <$> ctxs t ->
  Z.of_nat (length (ctxs t)) + 1 < u32_max ->
  exists q' cs',
    lock_queue (Q (usage_queue c)) cs t (requested_usage c) (pcount Q t (ctxs t)) =
      Ok (pcount (upd Q (usage_queue c) q') t (c :: ctxs t), cs', q') /\
    pstate act (with_ctxs ctxs t (c :: ctxs t)) [t] (upd Q (usage_queue c) q') cs' /\
    forall x, 0 < blocked_count cs' x <-> 0 < blocked_count cs x.
Proof.
  intros Hps Ht Hc Hlen. pose proof (pcount_nonneg Q t (ctxs t)).
  pose proof (pcount_le Q t (ctxs t)).
  destruct (lock_queue_ok (Q (usage_queue c)) cs t (requested_usage c) (pcount Q t (ctxs t)))
    as (b & q' & cs' & R & Hl & He).
  - lia.
  - eapply prio_ok_mono; [|apply Hps]. intros w x _. by right.
  - apply Hps.
  - by eapply lock_fresh.
  - intros x Hx. apply list_elem_of_fmap in Hx as ([w y] & -> & Hx).
    assert (y ∈ act) as Hy by (eapply ps_act, elem_of_app; [exact Hps|by left]).
    split; [by eapply ps_nonneg|]. simpl. destruct (decide (y = t)) as [->|Hyt].
    + rewrite (ps_idle _ _ _ _ _ Hps) by (right; left). done.
    + rewrite (ps_counts _ _ _ _ _ Hps) by set_solver.
      destruct (ps_addr _ _ _ _ _ Hps y Hy). pose proof (pcount_le Q y (ctxs y)). lia.
  - exists q', cs'. split; [|split].
    + rewrite Hl, (lock_count_new act ctxs t c Q cs Hps Ht Hc q' cs' b R He).
      do 3 f_equal. destruct b; lia.
    + by eapply lock_step_state.
    + intros x. by eapply lock_zero.
Qed.

(** ** The lock loop *)
Lemma pcount_perm Q x cs cs' : cs ≡ₚ cs' -> pcount Q x cs = pcount Q x cs'.
Proof. intros H. unfold pcount. by rewrite H. Qed.

Lemma pstate_ext act ctxs ctxs' new Q Q' cs :
  (forall a, Q a = Q' a) -> (forall x, x ∈ act -> ctxs x ≡ₚ ctxs' x) ->
  pstate act ctxs new Q cs -> pstate act ctxs' new Q' cs.
Proof.
  intros HQ Hc [H1 H2 H3 H4 H5 H6 H7]. split; [done|..|done].
  - intros x Hx. destruct (H2 x Hx). by rewrite <-Hc.
  - intros a. by rewrite <-HQ.
  - intros a. by rewrite <-HQ.
  - intros a u x. rewrite <-HQ, H5. split; intros [Hx ?]; (split; [done|]);
      [by rewrite <-Hc|by rewrite Hc].
  - intros x Hx Hn. rewrite H6, (pcount_perm _ _ _ _ (Hc x Hx)) by done. apply pcount_same.
    intros c _. unfold pwaits. by rewrite HQ.
Qed.

Lemma queue_of_set S a q cs ub b :
  queue_of (set_store S (<[a := q]> (queues S)) cs ub) b = upd (queue_of S) a q b.
Proof.
  unfold queue_of. cbn [queues capability set_store].
  destruct (decide (b = a)) as [->|Hb].
  - by rewrite lookup_insert_eq, upd_eq.
  - by rewrite lookup_insert_ne, upd_ne.
Qed.

Lemma lock_loop_prio act ctxs t S cs :
  pstate act ctxs [t] (queue_of S) (counts S) -> t ∈ act ->
  NoDup (usage_queue <$> cs ++ ctxs t) -> Z.of_nat (length cs + length (ctxs t)) < u32_max ->
  exists q n, let S' := set_store S q n (unblocked_task_queue S) in
    lock_contexts_loop S t cs (pcount (queue_of S) t (ctxs t)) =
      Ok (pcount (queue_of S') t (reverse cs ++ ctxs t), S') /\
    pstate act (with_ctxs ctxs t (reverse cs ++ ctxs t)) [t] (queue_of S') n /\
    forall x, 0 < blocked_count n x <-> 0 < blocked_count (counts S) x.
Proof.
  revert S ctxs. induction cs as [|c cs IH]; intros S ctxs Hps Ht Hnd Hlen.
  - exists (queues S), (counts S). destruct S. cbn [lock_contexts_loop]. split; [done|].
    split; [|done]. eapply pstate_ext; [done| |exact Hps]. intros x _. unfold with_ctxs.
    by case_decide; subst.
  - cbn [app] in Hnd. rewrite fmap_cons in Hnd. apply NoDup_cons in Hnd as [Hc Hnd].
    rewrite fmap_app, not_elem_of_app in Hc. destruct Hc as [Hc1 Hc2]. cbn [length] in Hlen.
    destruct (lock_step_ok act ctxs t c (queue_of S) (counts S) Hps Ht Hc2)
      as (q' & cs' & Hl & Hps' & Hz); [lia|].
    cbn [lock_contexts_loop]. rewrite lock_context_queue, Hl. cbn [mbind outcome_bind].
    set (S1 := set_queue_counts _ _ _ _).
    assert (pcount (upd (queue_of S) (usage_queue c) q') t (c :: ctxs t) =
      pcount (queue_of S1) t (with_ctxs ctxs t (c :: ctxs t) t)) as ->.
    { rewrite with_ctxs_eq. apply pcount_same. intros d _. unfold pwaits, S1, set_queue_counts.
      by rewrite queue_of_set. }
    destruct (IH S1 (with_ctxs ctxs t (c :: ctxs t))) as (q & n & Hr & Hps'' & Hz').
    + eapply pstate_ext; [|done|exact Hps']. intros b. unfold S1, set_queue_counts. by rewrite queue_of_set.
    + done.
    + rewrite with_ctxs_eq. rewrite fmap_app, fmap_cons, <-Permutation_middle.
      constructor; [|by rewrite <-fmap_app]. by rewrite <-fmap_app, fmap_app, not_elem_of_app.
    + rewrite with_ctxs_eq. cbn [length]. lia.
    + exists q, n. rewrite with_ctxs_eq in Hr, Hps''.
      rewrite with_ctxs_eq, reverse_cons, <-app_assoc. split; [exact Hr|]. split.
      * eapply pstate_ext; [done| |exact Hps'']. intros x _. unfold with_ctxs. by case_decide.
      * intros x. rewrite Hz'. apply Hz.
Qed.

(** ** The invariant *)
Record prio_store (S : SchedulingStateMachine) (act run : list Task) : Prop := {
  pr_cap : capability S = PriorityQueueing;
  pr_wf : Forall wf_task act;
  pr_state : pstate act lock_contexts [] (queue_of S) (counts S);
  pr_nodup : NoDup (run ++ unblocked_task_queue S);
  pr_ready x : x ∈ run ++ unblocked_task_queue S <-> x ∈ act /\ blocked_count (counts S) x = 0
}.

Lemma pstate_enter act Q cs t :
  pstate act lock_contexts [] Q cs -> task_id t ∉ task_id <$> act ->
  pstate (act ++ [t]) (with_ctxs lock_contexts t []) [t] Q cs.
Proof.
  intros Hps Hid. pose proof Hps as [H1 H2 H3 H4 H5 H6 H7].
  assert (forall x, x ∈ act -> x <> t) as Hne by (intros x Hx ->; by apply Hid, list_elem_of_fmap_2).
  split.
  - rewrite fmap_app. apply NoDup_app. split; [done|]. split; [|apply NoDup_singleton].
    intros x Hx ->%list_elem_of_singleton. done.
  - intros x [Hx| ->%list_elem_of_singleton]%elem_of_app.
    + rewrite with_ctxs_ne by auto. by apply H2.
    + rewrite with_ctxs_eq. split; [constructor|done].
  - intros a. eapply prio_ok_mono; [|apply H3]. intros u x Hx [->%list_elem_of_singleton|Hp].
    + destruct (Hne t); [|done]. eapply ps_act, elem_of_app; [exact Hps|by left].
    + by right.
  - done.
  - intros a u x. rewrite H5, elem_of_app, list_elem_of_singleton. unfold with_ctxs.
    case_decide as Hx; [subst|naive_solver]. rewrite elem_of_nil. naive_solver.
  - intros x [Hx|Hx]%elem_of_app Hn; [|done]. rewrite with_ctxs_ne by auto. apply H6; [done|].
    apply not_elem_of_nil.
  - intros x [Hx| ->%list_elem_of_singleton]; apply H7; left; [|done].
    rewrite fmap_app, not_elem_of_app in Hx. by destruct Hx.
Qed.

(** Writing the count of the new task. *)
Lemma pstate_entered act ctxs t Q cs cs' :
  pstate act ctxs [t] Q cs -> t ∈ act -> ctxs t ≡ₚ lock_contexts t ->
  (forall x, x <> t -> ctxs x = lock_contexts x) ->
  (forall x, blocked_count cs' x =
    if decide (task_id t = task_id x) then pcount Q t (ctxs t) else blocked_count cs x) ->
  pstate act lock_contexts [] Q cs'.
Proof.
  intros Hps Ht Hct Hctxs Hcs. pose proof Hps as [H1 H2 H3 H4 H5 H6 H7].
  assert (pstate act lock_contexts [t] Q cs) as [_ H2' _ _ H5' _ _].
  { eapply pstate_ext; [done| |exact Hps]. intros x Hx.
    destruct (decide (x = t)) as [->|Hxt]; [done|]. by rewrite Hctxs. }
  split; try done.
  - intros a. eapply prio_ok_mono; [|apply H3]. intros u x Hx [Hn|Hp]; [by apply elem_of_nil in Hn|].
    rewrite Hcs in Hp. case_decide as He; [left|by right]. apply list_elem_of_singleton.
    symmetry. eapply (ps_id_inj _ _ _ _ _ _ _ Hps); [done| |done].
    eapply ps_act, elem_of_app; [exact Hps|by left].
  - intros x Hx _. rewrite Hcs. destruct (decide (task_id t = task_id x)) as [He|He].
    + rewrite <-(ps_id_inj _ _ _ _ _ _ _ Hps Ht Hx He). by apply pcount_perm.
    + assert (x <> t) as Hxt by (by intros ->). rewrite H6 by (rewrite ?list_elem_of_singleton; done).
      by rewrite Hctxs.
  - intros x [Hx|Hx]; [|by apply elem_of_nil in Hx]. rewrite Hcs, decide_False; [by apply H7; left|].
    intros He. apply Hx. rewrite <-He. by apply list_elem_of_fmap_2.
Qed.

Lemma prio_lock S act run t :
  prio_store S act run -> wf_task t -> task_id t ∉ task_id <$> act ->
  exists b q cs,
    try_lock_usage_queues S t = Ok (b, set_store S q cs (unblocked_task_queue S)) /\
    forall S' run', capability S' = PriorityQueueing -> queues S' = q -> counts S' = cs ->
      run' ++ unblocked_task_queue S' ≡ₚ
        (if b : bool then [t] else []) ++ run ++ unblocked_task_queue S ->
      prio_store S' (act ++ [t]) run'.
Proof.
  intros [Hcap Hwf Hps Hnd Hr] Ht Hid.
  assert (t ∈ act ++ [t]) as Hta by (apply elem_of_app; right; left).
  pose proof (pstate_enter _ _ _ _ Hps Hid) as Hps0.
  destruct (lock_loop_prio _ _ t S (lock_contexts t) Hps0 Hta) as (q & n & Hl & Hps' & Hz).
  { rewrite with_ctxs_eq, app_nil_r. apply Ht. }
  { rewrite with_ctxs_eq, Nat.add_0_r. apply Ht. }
  rewrite with_ctxs_eq, app_nil_r in Hl. rewrite with_ctxs_eq, app_nil_r in Hps'.
  change (pcount (queue_of S) t []) with 0 in Hl.
  unfold try_lock_usage_queues. rewrite Hl. cbn [mbind outcome_bind].
  set (S1 := set_store S q n (unblocked_task_queue S)) in *.
  set (w := pcount (queue_of S1) t (reverse (lock_contexts t))) in *.
  assert (exists cs, (if w =? 0 then Ok (true, S1) else
      Ok (false, set_store S1 (queues S1) (set_blocked_usage_count (counts S1) t w)
        (unblocked_task_queue S1)) : res _) =
      Ok (w =? 0, set_store S q cs (unblocked_task_queue S)) /\
    forall x, blocked_count cs x = if decide (task_id t = task_id x) then w else blocked_count n x)
    as (cs & Hcs1 & Hcs2).
  { destruct (Z.eqb_spec w 0) as [H0|H0]; eexists; (split; [reflexivity|]); intros x.
    - case_decide as He; [|done]. rewrite <-(blocked_count_id _ _ _ He), H0.
      apply (ps_idle _ _ _ _ _ Hps'). right. left.
    - apply blocked_count_set. }
  exists (w =? 0), q, cs. split; [exact Hcs1|]. intros S' run' Hc' Hq' Hn' Hp.
  assert (pstate (act ++ [t]) lock_contexts [] (queue_of S') (counts S')) as Hfin.
  { rewrite Hn'. eapply (pstate_ext _ lock_contexts); [|done|eapply pstate_entered; [exact Hps'|done| | |]].
    - intros a. unfold queue_of. by rewrite Hc', Hq', <-Hcap.
    - rewrite with_ctxs_eq. apply reverse_Permutation.
    - intros x Hx. by rewrite !with_ctxs_ne.
    - intros x. by rewrite with_ctxs_eq. }
  split; [done| |done|..].
  - apply Forall_app. by rewrite Forall_singleton.
  - rewrite Hp. destruct (_ =? 0); [|done]. apply NoDup_cons. split; [|done].
    intros [Hx _]%Hr. by apply Hid, list_elem_of_fmap_2.
  - intros x. rewrite Hp, elem_of_app, Hr, elem_of_app, list_elem_of_singleton, Hn', Hcs2.
    pose proof (ps_nonneg _ _ _ _ _ x Hps). pose proof (ps_nonneg _ _ _ _ _ x Hps').
    specialize (Hz x). destruct (decide (x = t)) as [->|Hxt].
    + rewrite decide_True by done. destruct (Z.eqb_spec w 0); set_solver.
    + assert (x ∉ (if w =? 0 then [t] else [])) by (destruct (_ =? 0); set_solver).
      assert (blocked_count n x = 0 <-> blocked_count (counts S) x = 0) by lia.
      case_decide as He; [|tauto]. assert (x ∉ act); [|tauto].
      intros Hx. destruct Hid. rewrite He. by apply list_elem_of_fmap_2.
Qed.

(** ** The unlock loop *)
Section unlock_step.
Context (act : list Task) (ctxs : Task -> list LockContext) (t : Task) (c : LockContext)
  (rest : list LockContext).
Context (Q : Pubkey -> UsageQueueInner) (cs cs' : Counts).
Hypothesis Hps : pstate act ctxs [] Q cs.
Hypothesis Ht : t ∈ act.
Hypothesis Hctxs : ctxs t = c :: rest.
Hypothesis Ht0 : blocked_count cs t = 0.
Let a := usage_queue c.
Let u := requested_usage c.
Context (q' : UsageQueueInner) (N H : list UsageFromTask).
Hypothesis Hok : prio_ok (fun x => x ∈ [] \/ 0 < blocked_count cs x) q'.
Hypothesis Hhold : hold_of (Q a) ≡ₚ (u, t) :: H.
Hypothesis Hhold' : hold_of q' ≡ₚ H ++ N.
Hypothesis Hwait : wait_of (Q a) ≡ₚ N ++ wait_of q'.
Hypothesis Hcs : forall x, blocked_count cs' x =
  blocked_count cs x - if decide (task_id x ∈ ids N) then 1 else 0.

Lemma unlock_perm : (u, t) :: hold_of q' ++ wait_of q' ≡ₚ hold_of (Q a) ++ wait_of (Q a).
Proof using Hhold Hhold' Hwait.
  rewrite Hhold, Hhold', Hwait. cbn [app]. by rewrite <-app_assoc.
Qed.

Lemma unlock_nodup : NoDup (task_id t :: ids (hold_of q' ++ wait_of q')).
Proof using Hps Hhold Hhold' Hwait.
  pose proof (ps_nodup _ _ _ _ _ Hps a) as Hnd. unfold ids in Hnd.
  by rewrite <-unlock_perm in Hnd.
Qed.

Lemma unlock_N w x : (w, x) ∈ N -> (w, x) ∈ wait_of (Q a) /\ x ∈ act /\ x <> t.
Proof using Hps Hhold Hhold' Hwait.
  intros Hx. assert ((w, x) ∈ wait_of (Q a)) as Hw by (rewrite Hwait; apply elem_of_app; by left).
  split; [done|]. split; [eapply ps_act, elem_of_app; [exact Hps|by right]|]. intros ->.
  pose proof unlock_nodup as [Hnd _]%NoDup_cons. apply Hnd.
  eapply ids_elem. rewrite Hhold'. apply elem_of_app. left. apply elem_of_app. by right.
Qed.

Lemma unlock_count x :
  x ∈ act -> x <> t -> blocked_count cs' x = pcount (upd Q a q') x (ctxs x).
Proof using Hps Hcs Hhold Hhold' Hwait.
  intros Hx Hxt. rewrite Hcs, (ps_counts _ _ _ _ _ Hps) by (done || apply not_elem_of_nil).
  assert (forall w, (w, x) ∈ wait_of (Q a) <-> (w, x) ∈ N \/ (w, x) ∈ wait_of q') as Hw
    by (intros w; by rewrite Hwait, elem_of_app).
  pose proof unlock_nodup as [_ Hnd]%NoDup_cons.
  case_decide as Hid.
  - apply ids_inv in Hid as (w & y & Hy & Hid). destruct (unlock_N _ _ Hy) as (Hh & Hya & _).
    rewrite (ps_id_inj _ _ _ _ _ x y Hps Hx Hya Hid) in *.
    assert ({| usage_queue := a; requested_usage := w |} ∈ ctxs y) as Hctx.
    { apply (ps_users _ _ _ _ _ Hps a w y). apply elem_of_app. by right. }
    rewrite (pcount_more (upd Q a q') Q y _ _ (proj1 (ps_addr _ _ _ _ _ Hps y Hya)) Hctx);
      unfold pwaits; cbn [usage_queue requested_usage].
    + lia.
    + rewrite upd_eq. eapply nodup_split; [exact Hnd|]. rewrite Hhold'. apply elem_of_app.
      right. exact Hy.
    + done.
    + intros d Hd. by rewrite upd_ne.
  - rewrite Z.sub_0_r. apply pcount_same. intros d _. unfold pwaits.
    destruct (decide (usage_queue d = a)) as [->|Hd]; [|by rewrite upd_ne].
    rewrite upd_eq, Hw. assert ((requested_usage d, x) ∉ N); [|tauto].
    contradict Hid. by eapply ids_elem.
Qed.

Lemma unlock_ctx : NoDup (usage_queue <$> c :: rest).
Proof using Hps Ht Hctxs. rewrite <-Hctxs. by eapply ps_addr. Qed.

Lemma unlock_count_zero : blocked_count cs' t = 0.
Proof using Hps Ht Ht0 Hcs Hhold Hhold' Hwait.
  rewrite Hcs, Ht0, decide_False; [done|]. intros (w & y & Hy & Hid)%ids_inv.
  destruct (unlock_N _ _ Hy) as (_ & Hya & Hyt). by apply Hyt, (ps_id_inj _ _ _ _ _ _ _ Hps).
Qed.

Lemma unlock_zero : blocked_count cs' t = pcount (upd Q a q') t rest.
Proof using Hps Ht Ht0 Hctxs Hcs Hhold Hhold' Hwait.
  rewrite unlock_count_zero. pose proof unlock_ctx as [Hca _]%NoDup_cons.
  assert (pcount Q t (c :: rest) = 0) as H0.
  { rewrite <-Hctxs, <-(ps_counts _ _ _ _ _ Hps) by (done || apply not_elem_of_nil). done. }
  symmetry. rewrite pcount_zero in H0. apply pcount_zero. intros d Hd. unfold pwaits.
  rewrite upd_ne; [apply H0; by right|]. intros He. apply Hca. unfold a in He. rewrite <-He.
  by apply list_elem_of_fmap_2.
Qed.

Lemma unlock_state : pstate act (with_ctxs ctxs t rest) [] (upd Q a q') cs'.
Proof using All.
  pose proof unlock_perm as Hp. pose proof unlock_nodup as [Hnt Hnd]%NoDup_cons.
  pose proof unlock_ctx as [Hca Hrest]%NoDup_cons.
  split.
  - apply Hps.
  - intros x Hx. destruct (ps_addr _ _ _ _ _ Hps x Hx) as [H1 H2]. unfold with_ctxs.
    case_decide as Hxt; [|done]. subst x. rewrite Hctxs in H2. cbn [length] in H2. split; [done|lia].
  - intros b. destruct (decide (b = a)) as [->|Hb]; [rewrite upd_eq|rewrite upd_ne by done];
      (eapply prio_ok_mono; [|exact Hok || apply Hps]); intros w x _ [Hx|Hx]; (by left) || right;
      rewrite Hcs in Hx; case_decide; lia.
  - intros b. destruct (decide (b = a)) as [->|Hb]; [by rewrite upd_eq|].
    rewrite upd_ne by done. apply Hps.
  - intros b w x. destruct (decide (b = a)) as [->|Hb].
    + rewrite upd_eq. destruct (decide (x = t)) as [->|Hxt].
      * rewrite with_ctxs_eq. split.
        -- intros Hin. destruct Hnt. by eapply ids_elem.
        -- intros [_ Hin]. destruct Hca. by apply (list_elem_of_fmap_2 usage_queue) in Hin.
      * rewrite with_ctxs_ne, <-(ps_users _ _ _ _ _ Hps), <-Hp, elem_of_cons by done. naive_solver.
    + rewrite upd_ne, (ps_users _ _ _ _ _ Hps) by done. unfold with_ctxs.
      case_decide as Hxt; [|done]. subst x. rewrite Hctxs, elem_of_cons. unfold a in Hb.
      destruct c as [a0 u0]. cbn [usage_queue] in Hb. naive_solver.
  - intros x Hx _. destruct (decide (x = t)) as [->|Hxt].
    + rewrite with_ctxs_eq. apply unlock_zero.
    + rewrite with_ctxs_ne by done. by apply unlock_count.
  - intros x [Hx|Hx]; [|by apply elem_of_nil in Hx]. rewrite Hcs, (ps_idle _ _ _ _ _ Hps) by auto.
    rewrite decide_False; [done|]. intros (w & y & Hy & Hid)%ids_inv.
    destruct (unlock_N _ _ Hy) as (_ & Hya & _). apply Hx. rewrite Hid. by apply list_elem_of_fmap_2.
Qed.
End unlock_step.

Record punlocking (act run : list Task) (t : Task) (rest : list LockContext)
    (S : SchedulingStateMachine) : Prop := {
  pu_state : pstate act (with_ctxs lock_contexts t rest) [] (queue_of S) (counts S);
  pu_hold c : c ∈ rest -> (requested_usage c, t) ∈ hold_of (queue_of S (usage_queue c));
  pu_zero : blocked_count (counts S) t = 0;
  pu_nodup : NoDup (run ++ unblocked_task_queue S);
  pu_ready x : x ∈ run ++ unblocked_task_queue S <->
    x ∈ act /\ x <> t /\ blocked_count (counts S) x = 0
}.

Lemma unlock_step_prio act run t c rest S :
  t ∈ act -> punlocking act run t (c :: rest) S ->
  exists q cs ub, unlock_context S t c = Ok (set_store S q cs ub) /\
    punlocking act run t rest (set_store S q cs ub).
Proof.
  intros Ht [Hps Hh H0 Hnd Hr]. set (a := usage_queue c).
  assert (forall w x, (w, x) ∈ wait_of (queue_of S a) -> 0 < blocked_count (counts S) x) as Hpos.
  { intros w x Hx. by eapply ps_waiting. }
  destruct (unlock_queue_ok (fun x => x ∈ [] \/ 0 < blocked_count (counts S) x) (queue_of S a)
    (counts S) (unblocked_task_queue S) t (requested_usage c))
    as (q' & N & H & Hu & Hok & E1 & E2 & E3).
  { apply Hps. }
  { apply Hps. }
  { apply Hh. left. }
  { intros x ([w y] & -> & Hy)%list_elem_of_fmap. by eapply Hpos. }
  assert (NoDup (ids N)) as HN.
  { pose proof (ps_nodup _ _ _ _ _ Hps a) as Hn. rewrite ids_app in Hn.
    apply NoDup_app in Hn as (_ & _ & Hn). unfold ids in *. rewrite E3, !fmap_app in Hn.
    by apply NoDup_app in Hn as (? & _ & _). }
  destruct (unblock_all_spec (counts S) (unblocked_task_queue S) N.*2 HN) as [Hub Hcs].
  eexists _, _, _. split; [rewrite unlock_context_queue; fold a; rewrite Hu; reflexivity|].
  assert (forall x, x ∈ act -> task_id x ∈ ids N <-> x ∈ N.*2) as HNx.
  { intros x Hx. split; [|by apply list_elem_of_fmap_2]. intros (w & y & Hy & Hid)%ids_inv.
    assert (y ∈ act) as Hya.
    { eapply ps_act, elem_of_app; [exact Hps|right]. rewrite E3. apply elem_of_app. by left. }
    rewrite (ps_id_inj _ _ _ _ _ x y Hps Hx Hya Hid). by apply (list_elem_of_fmap_2 snd _ (w, y)). }
  assert (forall x, x ∈ N.*2 -> x ∈ act /\ x <> t /\ 0 < blocked_count (counts S) x) as HN'.
  { intros x ([w y] & -> & Hy)%list_elem_of_fmap. simpl.
    destruct (unlock_N _ _ _ _ _ _ Hps q' N H E1 E2 E3 w y Hy) as (Hw & ? & ?).
    split; [done|]. split; [done|]. by eapply Hpos. }
  assert (forall x, x ∈ act -> blocked_count (unblock_all (counts S, unblocked_task_queue S) N.*2).1 x
    = blocked_count (counts S) x - if decide (x ∈ N.*2) then 1 else 0) as Hcsx.
  { intros x Hx. rewrite Hcs. fold (ids N). pose proof (HNx x Hx). repeat case_decide; tauto || lia. }
  pose proof (with_ctxs_eq lock_contexts t (c :: rest)) as Hctx.
  split; cbn [counts unblocked_task_queue set_store].
  - eapply pstate_ext; [| |eapply (unlock_state act _ t c rest (queue_of S)); try done].
    + intros b. by rewrite queue_of_set.
    + intros x _. unfold with_ctxs. by case_decide.
  - intros d Hd. rewrite queue_of_set, upd_ne; [apply Hh; by right|].
    pose proof (unlock_ctx _ _ _ _ _ _ _ Hps Ht Hctx) as [Hca _]%NoDup_cons.
    intros He. apply Hca. unfold a in He. rewrite <-He. by apply list_elem_of_fmap_2.
  - by eapply (unlock_count_zero act _ t c (queue_of S)).
  - rewrite Hub, app_assoc. eapply (unblocked_nodup (run ++ unblocked_task_queue S)); [done| |by eapply NoDup_fmap_1].
    intros x (_ & _ & Hx0)%Hr. done.
  - intros x. rewrite Hub, app_assoc, elem_of_app, Hr.
    apply (unblocked_ready _ (blocked_count (counts S)) (blocked_count _)); [|by intros; apply Hcsx].
    intros y (? & ? & ?)%HN'. done.
Qed.

Lemma unlock_loop_prio act run t cs S :
  t ∈ act -> punlocking act run t cs S ->
  exists q n ub, unlock_contexts S t cs = Ok (set_store S q n ub) /\
    punlocking act run t [] (set_store S q n ub).
Proof.
  intros Ht. revert S. induction cs as [|c cs IH]; intros S Hpu.
  - exists (queues S), (counts S), (unblocked_task_queue S). by destruct S.
  - destruct (unlock_step_prio _ _ _ _ _ _ Ht Hpu) as (q & n & ub & Hs & Hpu').
    destruct (IH _ Hpu') as (q' & n' & ub' & Hs' & Hpu'').
    exists q', n', ub'. cbn [unlock_contexts]. rewrite Hs. by split.
Qed.

(** A task with no blocked usage holds all its addresses. *)
Lemma ready_holds act Q cs x c :
  pstate act lock_contexts [] Q cs -> x ∈ act -> blocked_count cs x = 0 ->
  c ∈ lock_contexts x -> (requested_usage c, x) ∈ hold_of (Q (usage_queue c)).
Proof.
  intros Hps Hx H0 Hc. destruct c as [a u]. cbn [usage_queue requested_usage].
  pose proof (proj2 (ps_users _ _ _ _ _ Hps a u x) (conj Hx Hc)) as Hin.
  apply elem_of_app in Hin as [Hin|Hin]; [done|].
  pose proof (ps_waiting _ _ _ _ _ _ _ Hps Hin). lia.
Qed.

Lemma pstate_leave act Q cs t :
  pstate act (with_ctxs lock_contexts t []) [] Q cs -> t ∈ act -> blocked_count cs t = 0 ->
  pstate (filter (fun x => x <> t) act) lock_contexts [] Q cs.
Proof.
  intros Hps Ht H0. pose proof Hps as [H1 H2 H3 H4 H5 H6 H7]. split; [|..|done|done| | |].
  - eapply sublist_NoDup; [exact H1|]. apply fmap_sublist, sublist_filter.
  - intros x [Hxt Hx]%list_elem_of_filter. destruct (H2 x Hx) as [H8 H9].
    by rewrite with_ctxs_ne in H8, H9.
  - intros a u x. rewrite H5, list_elem_of_filter. unfold with_ctxs. case_decide as Hxt.
    + rewrite elem_of_nil. naive_solver.
    + naive_solver.
  - intros x [Hxt Hx]%list_elem_of_filter Hn. rewrite H6, with_ctxs_ne by done. done.
  - intros x [Hx|Hx]; [|by apply elem_of_nil in Hx].
    destruct (decide (task_id x = task_id t)) as [He|He]; [by rewrite (blocked_count_id _ _ _ He)|].
    apply H7. left. contradict Hx. apply list_elem_of_fmap in Hx as (y & Hy & Hya).
    rewrite Hy. apply list_elem_of_fmap_2, list_elem_of_filter. split; [congruence|done].
Qed.

Lemma prio_unlock S act run t :
  prio_store S act run -> t ∈ run ->
  exists q cs ub, unlock_usage_queues S t = Ok (set_store S q cs ub) /\
    prio_store (set_store S q cs ub) (filter (fun x => x <> t) act)
      (filter (fun x => x <> t) run).
Proof.
  intros [Hcap Hwf Hps Hnd Hr] Ht.
  destruct (proj1 (Hr t)) as [Hta H0]; [apply elem_of_app; by left|].
  destruct (unlock_loop_prio act (filter (fun x => x <> t) run) t (lock_contexts t) S Hta)
    as (q & n & ub & Hs & [Us _ Uz Un Ur]).
  { split; [..|done| |].
    - eapply pstate_ext; [done| |exact Hps]. intros x _. unfold with_ctxs. by case_decide; subst.
    - intros c Hc. by eapply ready_holds.
    - eapply sublist_NoDup; [exact Hnd|]. apply sublist_app; [apply sublist_filter|done].
    - intros x. rewrite elem_of_app, list_elem_of_filter. specialize (Hr x).
      rewrite elem_of_app in Hr. apply NoDup_app in Hnd as (_ & Hnd & _). specialize (Hnd _ Ht).
      destruct (decide (x = t)) as [->|Hx]; tauto. }
  exists q, n, ub. split; [done|]. split; [done| |by apply pstate_leave|done|].
  - rewrite Forall_forall in *. intros x [_ Hx]%list_elem_of_filter. by apply Hwf.
  - intros x. rewrite Ur, list_elem_of_filter. tauto.
Qed.

(** ** Safety and progress *)
Lemma prio_conflict S act run t x :
  prio_store S act run -> t ∈ run ++ unblocked_task_queue S ->
  x ∈ run ++ unblocked_task_queue S -> t <> x -> ~ conflict t x.
Proof.
  intros [_ _ Hps _ Hr] [Ht Ht0]%Hr [Hx Hx0]%Hr Hne (a & u & w & Hu & Hw & Huw).
  pose proof (ready_holds _ _ _ _ _ Hps Ht Ht0 Hu) as Hht.
  pose proof (ready_holds _ _ _ _ _ Hps Hx Hx0 Hw) as Hhx.
  cbn [usage_queue requested_usage] in *.
  destruct (queue_of S a) as [|[[ts|z]|] blk]; cbn [hold_of] in *.
  - by apply elem_of_nil in Hht.
  - apply list_elem_of_fmap in Hht as (? & [= -> ->] & _), Hhx as (? & [= -> ->] & _). naive_solver.
  - apply list_elem_of_singleton in Hht, Hhx. congruence.
  - by apply elem_of_nil in Hht.
Qed.

(** A task that waits at an address while another holds it: the holder is ready to run, or
    precedes it. *)
Lemma prio_order S act run a u w t x :
  prio_store S act run -> (u, t) ∈ hold_of (queue_of S a) -> (w, x) ∈ wait_of (queue_of S a) ->
  t ∈ run ++ unblocked_task_queue S \/ task_id t < task_id x.
Proof.
  intros [_ _ Hps _ Hr] Ht Hx.
  assert (t ∈ act) as Hta by (eapply ps_act, elem_of_app; [exact Hps|by left]).
  destruct (decide (blocked_count (counts S) t = 0)) as [H0|H0]; [left; by apply Hr|right].
  pose proof (ps_nonneg _ _ _ _ _ t Hps). pose proof (ps_ok _ _ _ _ _ Hps a) as Hok.
  destruct (queue_of S a) as [|cur blk]; [done|]. destruct Hok as ([_ Hid] & HJ & _).
  cbn [wait_of] in Hx. apply list_elem_of_fmap in Hx as ([k [w' x']] & [= <- <-] & Hx).
  rewrite Forall_forall in Hid. pose proof (Hid _ Hx) as Hk. simpl in Hk. rewrite <-Hk.
  eapply (HJ u t (k, (w, x))); [done|right; lia|done].
Qed.

Lemma prio_holder S act run a w x :
  prio_store S act run -> (w, x) ∈ wait_of (queue_of S a) ->
  exists u t, (u, t) ∈ hold_of (queue_of S a).
Proof.
  intros [_ _ Hps _ _] Hx. pose proof (ps_ok _ _ _ _ _ Hps a) as Hok.
  destruct (queue_of S a) as [|[[[|[k t] ts]|z]|] blk]; cbn [hold_of wait_of] in *.
  - by apply elem_of_nil in Hx.
  - by destruct Hok as (_ & _ & ? & _).
  - exists Readonly, t. left.
  - exists Writable, z. left.
  - destruct Hok as (_ & _ & ->). by apply elem_of_nil in Hx.
Qed.

Lemma first_task (act : list Task) :
  act <> [] -> exists t, t ∈ act /\ forall x, x ∈ act -> task_id t <= task_id x.
Proof.
  induction act as [|t act IH]; [done|]. intros _. destruct act as [|t' act].
  - exists t. split; [left|]. by intros x ->%list_elem_of_singleton.
  - destruct IH as (m & Hm & Hmin); [done|]. destruct (decide (task_id t <= task_id m)) as [Hle|Hgt].
    + exists t. split; [left|]. intros x [->|Hx]%elem_of_cons; [done|]. specialize (Hmin x Hx). lia.
    + exists m. split; [by right|]. intros x [->|Hx]%elem_of_cons; [lia|by apply Hmin].
Qed.

(** The first active task is ready, or waits only for tasks that are. *)
Lemma prio_progress S act run :
  prio_store S act run -> act <> [] -> run ++ unblocked_task_queue S <> [].
Proof.
  intros Hst Hact Hnil. destruct (first_task act Hact) as (t & Ht & Hmin).
  pose proof Hst as [_ _ Hps _ Hr]. rewrite Hnil in Hr.
  destruct (decide (blocked_count (counts S) t = 0)) as [H0|H0].
  { by apply (not_elem_of_nil t), Hr. }
  rewrite (ps_counts _ _ _ _ _ Hps), pcount_zero in H0 by (done || apply not_elem_of_nil).
  assert (exists c, c ∈ lock_contexts t /\ pwaits (queue_of S) t c) as (c & Hc & Hw).
  { destruct (list_find (pwaits (queue_of S) t) (lock_contexts t)) as [[i c]|] eqn:Hf.
    - apply list_find_Some in Hf as (Hi & Hw & _). exists c. split; [|done].
      by eapply list_elem_of_lookup_2.
    - apply list_find_None in Hf. destruct H0. rewrite Forall_forall in Hf. done. }
  destruct (prio_holder _ _ _ _ _ _ Hst Hw) as (u & h & Hh).
  destruct (prio_order _ _ _ _ _ _ _ _ Hst Hh Hw) as [Hin|Hlt].
  - rewrite Hnil in Hin. by apply elem_of_nil in Hin.
  - assert (h ∈ act) as Hha by (eapply ps_act, elem_of_app; [exact Hps|by left]).
    specialize (Hmin h Hha). lia.
Qed.

Lemma prio_released S a : prio_store S [] [] -> queue_of S a = new_queue PriorityQueueing.
Proof.
  intros [_ _ Hps _ _]. pose proof (ps_ok _ _ _ _ _ Hps a) as Hok.
  assert (forall u x, (u, x) ∉ hold_of (queue_of S a)) as Hn.
  { intros u x Hx. eapply (not_elem_of_nil x), ps_act, elem_of_app; [exact Hps|by left]. }
  destruct (queue_of S a) as [|[[[|[k t] ts]|z]|] blk]; cbn [hold_of] in *.
  - done.
  - by destruct Hok as (_ & _ & ? & _).
  - destruct (Hn Readonly t). left.
  - destruct (Hn Writable z). left.
  - by destruct Hok as (_ & _ & ->).
Qed.

#[export] Instance prio_discipline : Discipline PriorityQueueing prio_store.
Proof.
  split.
  - intros S Hc Hq Hn Hu. assert (forall a, queue_of S a = Priority None []) as HQ.
    { intros a. unfold queue_of. by rewrite Hq, Hc. }
    split; [done|constructor| |rewrite Hu; apply NoDup_nil_2|].
    + split.
      * apply NoDup_nil_2.
      * intros x Hx. by apply elem_of_nil in Hx.
      * intros a. rewrite HQ. split; [split; constructor|]. split; [|done].
        by intros ? ? ? ? ? ?%elem_of_nil.
      * intros a. rewrite HQ. apply NoDup_nil_2.
      * intros a u x. rewrite HQ. cbn [hold_of wait_of app fmap list_fmap]. rewrite !elem_of_nil. tauto.
      * intros x Hx. by apply elem_of_nil in Hx.
      * by rewrite Hn.
    + intros x. rewrite Hu. cbn [app]. rewrite !elem_of_nil. tauto.
  - intros S S' act run run' [H1 H2 H3 H4 H5] E1 E2 E3 Hp.
    split; rewrite ?E1, ?E3, ?Hp; try done; [|intros x; by rewrite Hp].
    eapply pstate_ext; [|done|exact H3]. intros a. unfold queue_of. by rewrite E1, E2.
  - intros S act run []. by eapply ps_ids.
  - by intros S act run [].
  - intros S act run x [] Hx. naive_solver.
  - apply prio_progress.
  - apply prio_conflict.
  - apply prio_released.
  - intros S t [_ _ Hps _ _]. apply (ps_idle _ _ _ _ _ Hps). left. apply not_elem_of_nil.
  - intros S act run t Hst _ Hwf Hid. by apply prio_lock.
  - intros S act run t Hst _ Ht. by apply prio_unlock.
  - by intros S act run [].
Qed.
