(* ===== verification/UnifiedSpec.v ===== *)
(** * The unified scheduler's guarantees

    What the callers of the unified scheduler's state machine rely on, for block verification
    (FIFO queues) and block production (priority queues): tasks handed out never conflict,
    the order of each discipline is kept, the machine makes progress, and no operation of a
    correct caller panics. *)

From Stdlib Require Import Sorted.
From S2P Require Import Prelude UnifiedScheduler UnifiedMachine UnifiedFifo UnifiedFifoProofs.
From S2P Require Import UnifiedPriority UnifiedPriorityProofs.
Local Open Scope Z_scope.

(** ** The two disciplines *)
Definition store_ok (cap : Capability) : SchedulingStateMachine -> list Task -> list Task -> Prop :=
  match cap with
  | FifoQueueing => fifo_store
  | PriorityQueueing => prio_store
  end.
#[export] Instance store_discipline cap : Discipline cap (store_ok cap).
Proof. destruct cap; apply _. Qed.

Lemma reachable_inv cap n S act run :
  reach cap n S act run -> inv (store_ok cap) n S act run.
Proof. apply reach_inv. Qed.

(** ** Safety and order *)

(** C5: In both modes, two different tasks that are handed out, or ready to be handed out,
    never conflict: no address written by one is used by the other. *)
Theorem scheduling_safe cap n S act run t x :
  reach cap n S act run ->
  t ∈ run ++ unblocked_task_queue S -> x ∈ run ++ unblocked_task_queue S -> t <> x ->
  ~ conflict t x.
Proof. intros [Hst _ _]%reachable_inv. by apply (d_conflict (cap:=cap) S act run). Qed.

(** C11: In every reachable state of the FIFO scheduler the usage queue of each address holds
    exactly the active tasks that use it, in the order they were scheduled; and a task is
    handed out or ready to be exactly when no active task scheduled before it conflicts with
    it, so conflicting tasks run in the order they were scheduled. *)
Theorem fifo_scheduling_order n S act run :
  reach FifoQueueing n S act run ->
  (forall a, queue_of S a = fifo_spec (uses act a)) /\
  (forall l1 t l2, act = l1 ++ t :: l2 ->
    t ∈ run ++ unblocked_task_queue S <-> forall x, x ∈ l1 -> ~ conflict x t).
Proof.
  intros [Hst _ _]%reachable_inv. split.
  - intros a. by apply qstate_queue_of; apply Hst.
  - intros l1 t l2 ->. by apply (fifo_ready S l1 t l2).
Qed.

(** C23: In every reachable state of the priority scheduler each usage of an active task
    either holds or waits in the queue of its address, and only those do; the ready tasks are
    those that hold every address they use; the waiting tasks of a queue are in the order of
    their ids; and a task waits behind a holder only if the holder is ready or precedes it,
    so the first active task waits for ready tasks only. *)
Theorem priority_scheduling_order n S act run :
  reach PriorityQueueing n S act run ->
  (forall a u t, (u, t) ∈ hold_of (queue_of S a) ++ wait_of (queue_of S a) <->
    t ∈ act /\ {| usage_queue := a; requested_usage := u |} ∈ lock_contexts t) /\
  (forall t, t ∈ run ++ unblocked_task_queue S <-> t ∈ act /\
    forall c, c ∈ lock_contexts t -> (requested_usage c, t) ∈ hold_of (queue_of S (usage_queue c))) /\
  (forall a, StronglySorted Z.lt (ids (wait_of (queue_of S a)))) /\
  (forall a u w t x, (u, t) ∈ hold_of (queue_of S a) -> (w, x) ∈ wait_of (queue_of S a) ->
    t ∈ run ++ unblocked_task_queue S \/ task_id t < task_id x).
Proof.
  intros [Hst _ _]%reachable_inv. pose proof Hst as [_ _ Hps _ Hr].
  split; [apply Hps|]. split; [|split; [|intros *; apply (prio_order _ _ _ _ _ _ _ _ Hst)]].
  - intros t. rewrite Hr. split; intros [Ht H]; (split; [done|]).
    + intros c Hc. by eapply ready_holds.
    + rewrite (ps_counts _ _ _ _ _ Hps) by (done || apply not_elem_of_nil).
      apply pcount_zero. intros c Hc%H. unfold pwaits. by eapply nodup_split; [apply Hps|].
  - intros a. pose proof (ps_ok _ _ _ _ _ Hps a) as Hok.
    destruct (queue_of S a) as [|cur blk]; [done|]. destruct Hok as (Hwf & _).
    unfold ids. cbn [wait_of]. rewrite <-(bt_keys _ _ Hwf). apply Hwf.
Qed.

(** ** Totality *)

(** C35: No operation panics on a reachable state, in either mode. Scheduling returns the task
    only if it is admitted, a running slot is free and buffering is not forced, and then it
    conflicts with no task already handed out. The next unblocked task is the front of the
    queue when a running slot is free. Every handed out task can be descheduled, and an idle
    machine can be reinitialised. *)
Theorem operations_total cap n S act run :
  reach cap n S act run -> n < u32_max ->
  (forall t force, wf_task t -> task_id t ∉ task_id <$> act ->
    exists r S', schedule_or_buffer_task S t force = Ok (r, S') /\
      (r = None \/ r = Some t /\ admits S t = true /\ is_task_runnable S = true /\
        force = false /\ forall x, x ∈ run -> ~ conflict t x)) /\
  (forall t, wf_task t -> task_id t ∉ task_id <$> act -> is_ok (buffer_task S t) = true) /\
  (exists S', schedule_next_unblocked_task S =
    Ok (if is_task_runnable S then head (unblocked_task_queue S) else None, S')) /\
  (forall t, t ∈ run -> is_ok (deschedule_task S t) = true) /\
  (act = [] -> run = [] -> is_ok (reinitialize S) = true).
Proof.
  intros H%reachable_inv Hn. split; [|split; [|split; [|split]]].
  - intros t force Ht Hid. destruct (schedule_ok (cap:=cap) n S act run t force) as (b & S' & Hs & Hi & _);
      [done..|]. eexists _, _. split; [exact Hs|].
    destruct (admits S t && b && is_task_runnable S && negb force) eqn:Hb; [right|by left].
    repeat apply andb_prop in Hb as [Hb ?]. destruct (admits S t); [|done].
    split; [done|]. split; [done|]. split; [done|]. split; [by destruct force|].
    intros x Hx. destruct Hi as [Hst' _ _]. apply (d_conflict (cap:=cap) _ _ _ t x Hst').
    + apply elem_of_app. left. apply elem_of_app. right. left.
    + apply elem_of_app. left. apply elem_of_app. by left.
    + intros ->. apply Hid, list_elem_of_fmap_2. destruct H as [Hst _ _].
      apply (d_active (cap:=cap) _ _ _ _ Hst), elem_of_app. by left.
  - intros t Ht Hid. by destruct (buffer_ok (cap:=cap) n S act run t) as (S' & -> & _).
  - destruct (next_ok (cap:=cap) n S act run) as (S' & Hs & _); [done..|]. eauto.
  - intros t Ht. by destruct (deschedule_ok (cap:=cap) n S act run t) as (S' & -> & _).
  - intros -> ->. by destruct (reinitialize_ok (cap:=cap) n S) as (S' & -> & _).
Qed.

(** With FIFO queues a task being scheduled is returned at once exactly when it is
    admitted, conflicts with no active task, a running slot is free and buffering is not
    forced. *)
Theorem fifo_schedule_immediate n S act run t force :
  reach FifoQueueing n S act run -> n < u32_max -> wf_task t -> task_id t ∉ task_id <$> act ->
  exists r S', schedule_or_buffer_task S t force = Ok (r, S') /\
    (r = Some t <-> admits S t = true /\ (forall x, x ∈ act -> ~ conflict x t) /\
      is_task_runnable S = true /\ force = false).
Proof.
  intros H%reachable_inv Hn Ht Hid.
  destruct (schedule_ok (cap:=FifoQueueing) n S act run t force) as (b & S' & Hs & Hi & Hb); [done..|].
  eexists _, _. split; [exact Hs|]. destruct (admits S t) eqn:Ha; [|naive_solver].
  specialize (Hb eq_refl). destruct Hi as [Hst _ _].
  rewrite (fifo_ready S' act t [] _ Hst) in Hb.
  destruct b, (is_task_runnable S), force; cbn [andb negb]; naive_solver.
Qed.

(** ** Types and counters *)
Definition is_u32 (n : Z) : Prop := 0 <= n <= u32_max.

(** Every counter of a reachable state fits its 32-bit type, in either mode, and the
    counters account for the tasks: the active ones are those scheduled and not yet
    descheduled, at most the maximum number run, and every scheduled task was handled, is
    active or was dropped. *)
Theorem counters_typed cap n S act run :
  reach cap n S act run -> n <= u32_max ->
  is_u32 (active_task_count S) /\ is_u32 (peak_active_task_count S) /\
  is_u32 (dropped_task_count S) /\ is_u32 (running_task_count S) /\
  is_u32 (max_running_task_count S) /\ is_u32 (handled_task_count S) /\
  is_u32 (unblocked_task_count S) /\ is_u32 (total_task_count S) /\
  active_task_count S = Z.of_nat (length act) /\ running_task_count S = Z.of_nat (length run) /\
  running_task_count S <= max_running_task_count S /\
  total_task_count S = handled_task_count S + active_task_count S + dropped_task_count S.
Proof.
  intros [_ _ []]%reachable_inv Hn. unfold is_u32.
  repeat match goal with |- _ /\ _ => split end; lia.
Qed.

(** ** Progress *)

(** The guarantee of [create_task]'s documentation: when no task is active, every usage
    queue is as just created. *)
Theorem queues_released cap n S act run a :
  reach cap n S act run -> has_no_active_task S = true -> queue_of S a = new_queue cap.
Proof.
  intros [Hst _ Hco]%reachable_inv Hno. unfold has_no_active_task in Hno. apply Z.eqb_eq in Hno.
  assert (act = []) as ->.
  { destruct Hco as [Ca _ _ _ _ _ _ _ _]. destruct act; [done|]. simpl in Ca. lia. }
  assert (run = []) as ->.
  { destruct run as [|t run]; [done|]. destruct (not_elem_of_nil t).
    apply (d_active (cap:=cap) _ _ _ _ Hst). left. }
  by apply (d_released (sok:=store_ok cap)).
Qed.

(** C24: Liveness. From a reachable state with room in the counters, in either mode, every
    sequence of steps that hand out unblocked tasks and deschedule them is finite, of at most
    twice the active tasks, and it can be continued as long as a task is active: there is no
    deadlock, and no active task is left blocked forever once its callers finish. *)
Theorem scheduling_drains cap n S act run k S' act' run' :
  reach cap n S act run -> n + work act run < u32_max -> 0 < max_running_task_count S ->
  nsteps retire k (S, act, run) (S', act', run') ->
  Z.of_nat k + work act' run' = work act run /\ 0 <= work act' run' /\
  (act' = [] \/ exists c, retire (S', act', run') c).
Proof. intros Hi%reachable_inv. by apply (drains (cap:=cap)). Qed.

(** C36: [clear_and_reinitialize] terminates in either mode: when nothing is running it retires
    every active task, returns their number, and leaves every usage queue as created, no
    blocked or unblocked task and the counters at zero. *)
Theorem clear_and_reinitialize_correct cap n S act :
  reach cap n S act [] -> n + 2 * Z.of_nat (length act) < u32_max ->
  0 < max_running_task_count S ->
  exists S', clear_and_reinitialize S = Ok (Z.of_nat (length act), S') /\
    (forall a, queue_of S' a = new_queue cap) /\
    (forall t, blocked_count (counts S') t = 0) /\
    unblocked_task_queue S' = [] /\ has_no_active_task S' = true /\
    has_no_running_task S' = true /\ total_task_count S' = 0.
Proof.
  intros Hi%reachable_inv Hn Hm. destruct (clear_ok (cap:=cap) n S act Hi Hn Hm) as (S' & Hs & Hi').
  exists S'. split; [done|]. pose proof (idle_queue (cap:=cap) _ _ Hi') as Hu. destruct Hi' as [Hst _ Hco].
  split; [intros a; by apply (d_released (sok:=store_ok cap))|]. split; [intros t; by apply (d_unblocked (cap:=cap) S')|].
  split; [done|]. destruct Hco as [Ca Cr Cm Ct Ch Cd Cu Cb Cp].
  unfold has_no_active_task, has_no_running_task. simpl in Ca, Cr. rewrite Ca, Cr.
  split; [done|]. split; [done|lia].
Qed.

(** C39: The boundary of [clear_and_reinitialize]: with a maximum of zero running tasks nothing
    can be retired, so it panics as soon as a task is active, even if none was handed out. *)
Theorem clear_panics_without_slots cap n S act :
  reach cap n S act [] -> n < u32_max -> max_running_task_count S = 0 -> act <> [] ->
  clear_and_reinitialize S = Panic.
Proof.
  intros [_ _ Hco]%reachable_inv Hn Hm Hact. destruct Hco as [Ca Cr _ _ _ _ _ _ _].
  assert (is_task_runnable S = false) as Hr.
  { unfold is_task_runnable. rewrite Hm, Cr. done. }
  unfold clear_and_reinitialize, reinitialize, has_no_active_task.
  assert (forall fuel, clear_loop fuel S 0 = Ok (0, S)) as ->.
  { intros fuel. unfold clear_loop. destruct fuel; unfold schedule_next_unblocked_task;
      by rewrite Hr. }
  cbn [mbind outcome_bind]. rewrite Ca. destruct act; [done|]. done.
Qed.

(** ** A run: [t2] waits for [t1]; [t3] conflicts with [t2] and precedes it by id *)
Module Demo.
Definition t1 : Task := create_task 101 [1; 2; 9] (fun i => (i <? 2)%nat) 5.
Definition t2 : Task := create_task 102 [2; 3; 9] (fun i => (i <? 2)%nat) 7.
Definition t3 : Task := create_task 103 [3; 4; 9] (fun i => (i <? 2)%nat) 6.

Definition init (slots : Z) (cap : Capability) : SchedulingStateMachine :=
  {| unblocked_task_queue := []; active_task_count := 0; peak_active_task_count := 0;
     dropped_task_count := 0; max_unique_active_task_count := Some 8%nat;
     unique_active_task_hashes := ∅; running_task_count := 0; max_running_task_count := slots;
     handled_task_count := 0; unblocked_task_count := 0; total_task_count := 0;
     queues := ∅; counts := ∅; capability := cap |}.
Definition after {A} (r : res (A * SchedulingStateMachine)) : SchedulingStateMachine :=
  match r with Ok (_, s) => s | _ => init 0 FifoQueueing end.
Definition s1 (cap : Capability) : SchedulingStateMachine :=
  after (schedule_or_buffer_task (init 4 cap) t1 false).
Definition s2 (cap : Capability) : SchedulingStateMachine :=
  after (schedule_or_buffer_task (s1 cap) t2 false).
Definition s3 (cap : Capability) : SchedulingStateMachine :=
  after (schedule_or_buffer_task (s2 cap) t3 false).
Definition b1 (slots : Z) (cap : Capability) : SchedulingStateMachine :=
  after (schedule_or_buffer_task (init slots cap) t1 true).
Definition b2 (cap : Capability) : SchedulingStateMachine :=
  after (schedule_or_buffer_task (b1 4 cap) t2 true).
Definition run3 (cap : Capability) : list Task :=
  match cap with FifoQueueing => [t1] | PriorityQueueing => [t1; t3] end.

Lemma demo_wf t : t ∈ [t1; t2; t3] -> wf_task t.
Proof.
  rewrite !elem_of_cons, elem_of_nil.
  intros [->|[->|[->|[]]]];
    (split; [apply (bool_decide_eq_true_1 _); vm_compute; reflexivity|done]).
Qed.

Lemma demo_init cap : reach cap 0 (init 4 cap) [] [].
Proof. by apply (fr_init _ (Some 4%nat) (Some 8%nat)). Qed.
Lemma demo_init_zero cap : reach cap 0 (init 0 cap) [] [].
Proof. by apply (fr_init _ (Some 0%nat) (Some 8%nat)). Qed.

Lemma demo_step cap n S act run t force r S' :
  reach cap n S act run -> n < u32_max -> t ∈ [t1; t2; t3] ->
  bool_decide (task_id t ∈ task_id <$> act) = false -> admits S t = true ->
  schedule_or_buffer_task S t force = Ok (r, S') ->
  reach cap (n + 1) S' (act ++ [t]) (run ++ option_list r).
Proof.
  intros H Hn Ht%demo_wf Hid%bool_decide_eq_false_1 Ha Hs.
  pose proof (fr_schedule _ _ _ _ _ _ _ _ _ H Hn Ht Hid Hs) as H'. by rewrite Ha in H'.
Qed.

Lemma demo_reach cap : reach cap 3 (s3 cap) [t1; t2; t3] (run3 cap).
Proof.
  assert (reach cap 1 (s1 cap) [t1] [t1]) as H1.
  { apply (demo_step cap 0 (init 4 cap) [] [] t1 false (Some t1));
      [apply demo_init|done|set_solver|..]; destruct cap; vm_compute; reflexivity. }
  assert (reach cap 2 (s2 cap) [t1; t2] [t1]) as H2.
  { apply (demo_step cap 1 (s1 cap) [t1] [t1] t2 false None);
      [done|done|set_solver|..]; destruct cap; vm_compute; reflexivity. }
  destruct cap.
  - apply (demo_step _ 2 (s2 FifoQueueing) [t1; t2] [t1] t3 false None); [done|done|set_solver|..];
      vm_compute; reflexivity.
  - apply (demo_step _ 2 (s2 PriorityQueueing) [t1; t2] [t1] t3 false (Some t3)); [done|done|set_solver|..];
      vm_compute; reflexivity.
Qed.

Lemma demo_buffered cap : reach cap 2 (b2 cap) [t1; t2] [].
Proof.
  assert (reach cap 1 (b1 4 cap) [t1] []) as H1.
  { apply (demo_step cap 0 (init 4 cap) [] [] t1 true None);
      [apply demo_init|done|set_solver|..]; destruct cap; vm_compute; reflexivity. }
  apply (demo_step cap 1 (b1 4 cap) [t1] [] t2 true None); [done|done|set_solver|..];
    destruct cap; vm_compute; reflexivity.
Qed.
Lemma demo_buffered_zero cap : reach cap 1 (b1 0 cap) [t1] [].
Proof.
  apply (demo_step cap 0 (init 0 cap) [] [] t1 true None);
    [apply demo_init_zero|done|set_solver|..]; destruct cap; vm_compute; reflexivity.
Qed.
End Demo.
Import Demo.

Lemma scheduling_safe_witness :
  t1 ∈ [t1; t3] ++ unblocked_task_queue (s3 PriorityQueueing) /\
  t3 ∈ [t1; t3] ++ unblocked_task_queue (s3 PriorityQueueing) /\ ~ conflict t1 t3.
Proof.
  assert (t1 ∈ [t1; t3] ++ unblocked_task_queue (s3 PriorityQueueing)) as H1
    by (apply elem_of_app; left; left).
  assert (t3 ∈ [t1; t3] ++ unblocked_task_queue (s3 PriorityQueueing)) as H3
    by (apply elem_of_app; left; right; left).
  split; [exact H1|]. split; [exact H3|].
  apply (scheduling_safe PriorityQueueing 3 (s3 PriorityQueueing) [t1; t2; t3] [t1; t3] t1 t3
    (demo_reach PriorityQueueing) H1 H3). discriminate.
Defined.

Lemma fifo_scheduling_order_witness :
  queue_of (s3 FifoQueueing) 3 = fifo_spec (uses [t1; t2; t3] 3) /\
  queue_of (s3 FifoQueueing) 3 = Fifo (Some (UWritable ())) [(Writable, t3)].
Proof.
  destruct (fifo_scheduling_order 3 (s3 FifoQueueing) [t1; t2; t3] [t1] (demo_reach FifoQueueing))
    as [Hq _].
  split; [apply Hq|vm_compute; reflexivity].
Defined.

Lemma priority_scheduling_order_witness :
  t3 ∈ [t1; t3] ++ unblocked_task_queue (s3 PriorityQueueing) /\
  (forall c, c ∈ lock_contexts t3 ->
    (requested_usage c, t3) ∈ hold_of (queue_of (s3 PriorityQueueing) (usage_queue c))) /\
  queue_of (s3 PriorityQueueing) 3 = Priority (Some (UWritable t3)) [(7, (Writable, t2))].
Proof.
  destruct (priority_scheduling_order 3 (s3 PriorityQueueing) [t1; t2; t3] [t1; t3]
    (demo_reach PriorityQueueing)) as (_ & Hr & _).
  assert (t3 ∈ [t1; t3] ++ unblocked_task_queue (s3 PriorityQueueing)) as H3
    by (apply elem_of_app; left; right; left).
  split; [exact H3|]. split; [apply Hr; exact H3|vm_compute; reflexivity].
Defined.

Lemma operations_total_witness :
  is_ok (deschedule_task (s3 PriorityQueueing) t1) = true /\
  exists S', schedule_next_unblocked_task (s3 PriorityQueueing) = Ok (None, S').
Proof.
  assert (3 < u32_max) as Hn by reflexivity.
  destruct (operations_total PriorityQueueing 3 (s3 PriorityQueueing) [t1; t2; t3] [t1; t3]
    (demo_reach PriorityQueueing) Hn) as (_ & _ & Hnext & Hd & _).
  split; [apply Hd; left|exact Hnext].
Defined.

Lemma fifo_schedule_immediate_witness :
  wf_task t3 /\
  exists S', schedule_or_buffer_task (init 4 FifoQueueing) t3 false = Ok (Some t3, S').
Proof.
  assert (wf_task t3) as Hwf by (apply demo_wf; set_solver).
  assert (0 < u32_max) as Hn by reflexivity. split; [exact Hwf|].
  destruct (fifo_schedule_immediate 0 (init 4 FifoQueueing) [] [] t3 false (demo_init FifoQueueing)
    Hn Hwf (not_elem_of_nil _)) as (r & S' & Hs & Hr).
  assert (r = Some t3) as E.
  { apply Hr. split; [reflexivity|]. split; [|split; reflexivity].
    intros x Hx. destruct (not_elem_of_nil x Hx). }
  rewrite E in Hs. exists S'. exact Hs.
Defined.

Lemma counters_typed_witness :
  is_u32 (active_task_count (s3 PriorityQueueing)) /\
  active_task_count (s3 PriorityQueueing) = 3.
Proof.
  assert (3 <= u32_max) as Hn by discriminate.
  destruct (counters_typed PriorityQueueing 3 (s3 PriorityQueueing) [t1; t2; t3] [t1; t3]
    (demo_reach PriorityQueueing) Hn) as (H1 & _ & _ & _ & _ & _ & _ & _ & H2 & _).
  split; [exact H1|exact H2].
Defined.

Lemma queues_released_witness :
  has_no_active_task (init 4 PriorityQueueing) = true /\
  queue_of (init 4 PriorityQueueing) 2 = new_queue PriorityQueueing.
Proof.
  assert (has_no_active_task (init 4 PriorityQueueing) = true) as H by reflexivity.
  split; [exact H|].
  exact (queues_released PriorityQueueing 0 (init 4 PriorityQueueing) [] [] 2
    (demo_init PriorityQueueing) H).
Defined.

Lemma scheduling_drains_witness :
  3 + work [t1; t2; t3] [t1; t3] < u32_max /\
  exists c, retire (s3 PriorityQueueing, [t1; t2; t3], [t1; t3]) c.
Proof.
  assert (3 + work [t1; t2; t3] [t1; t3] < u32_max) as Hn by reflexivity.
  assert (0 < max_running_task_count (s3 PriorityQueueing)) as Hm by (vm_compute; reflexivity).
  split; [exact Hn|].
  destruct (scheduling_drains PriorityQueueing 3 (s3 PriorityQueueing) [t1; t2; t3] [t1; t3] 0
    (s3 PriorityQueueing) [t1; t2; t3] [t1; t3] (demo_reach PriorityQueueing) Hn Hm (nsteps_O _ _))
    as (_ & _ & [H|H]); [discriminate H|exact H].
Defined.

Lemma clear_and_reinitialize_correct_witness :
  2 + 2 * 2 < u32_max /\ exists S', clear_and_reinitialize (b2 PriorityQueueing) = Ok (2, S').
Proof.
  assert (2 + 2 * 2 < u32_max) as Hn by reflexivity.
  assert (0 < max_running_task_count (b2 PriorityQueueing)) as Hm by (vm_compute; reflexivity).
  split; [exact Hn|].
  destruct (clear_and_reinitialize_correct PriorityQueueing 2 (b2 PriorityQueueing) [t1; t2]
    (demo_buffered PriorityQueueing) Hn Hm) as (S' & HS & _).
  exists S'. exact HS.
Defined.

Lemma clear_panics_without_slots_witness :
  max_running_task_count (b1 0 FifoQueueing) = 0 /\
  clear_and_reinitialize (b1 0 FifoQueueing) = Panic.
Proof.
  assert (1 < u32_max) as Hn by reflexivity.
  assert (max_running_task_count (b1 0 FifoQueueing) = 0) as Hm by (vm_compute; reflexivity).
  split; [exact Hm|].
  apply (clear_panics_without_slots FifoQueueing 1 (b1 0 FifoQueueing) [t1]
    (demo_buffered_zero FifoQueueing) Hn Hm). discriminate.
Defined.
