(* ===== verification/OrdMap.v ===== *)
(** * Ordered maps and sets

    [BTreeMap] and [BTreeSet] of the standard library, as the lists of their entries in the
    order of the keys. The order of a key type is its derived [Ord], an instance of
    [Ordered]; a pair is ordered by its first component, then its second. *)

From Stdlib Require Export Sorting.Sorted.
From S2P Require Import Prelude.
Local Open Scope Z_scope.

Class Ordered (K : Type) := {
  cmp : K -> K -> comparison;
  cmp_eq a b : cmp a b = Eq <-> a = b;
  cmp_opp a b : cmp b a = CompOpp (cmp a b);
  cmp_trans a b c : cmp a b = Lt -> cmp b c = Lt -> cmp a c = Lt
}.

(** [a < b]. *)
Definition olt {K} `{Ordered K} (a b : K) : Prop := cmp a b = Lt.
Definition oltb {K} `{Ordered K} (a b : K) : bool := match cmp a b with Lt => true | _ => false end.

#[export] Program Instance Z_ordered : Ordered Z := { cmp := Z.compare }.
Next Obligation. intros a b. apply Z.compare_eq_iff. Qed.
Next Obligation. intros a b. apply Z.compare_antisym. Qed.
Next Obligation. intros a b c. rewrite !Z.compare_lt_iff. lia. Qed.

Definition pair_cmp {A B} `{Ordered A, Ordered B} (x y : A * B) : comparison :=
  match cmp x.1 y.1 with Eq => cmp x.2 y.2 | o => o end.

#[export] Program Instance pair_ordered A B `{Ordered A, Ordered B} : Ordered (A * B) :=
  { cmp := pair_cmp }.
Next Obligation.
  intros A B ?? [a b] [a' b']. unfold pair_cmp. simpl.
  destruct (cmp a a') eqn:E; [|split; [done|intros [= -> ->]]..].
  - apply cmp_eq in E as ->. rewrite cmp_eq. naive_solver.
  - assert (cmp a' a' = Eq) by (by apply cmp_eq). congruence.
  - assert (cmp a' a' = Eq) by (by apply cmp_eq). congruence.
Qed.
Next Obligation.
  intros A B ?? [a b] [a' b']. unfold pair_cmp. simpl. rewrite (cmp_opp a a').
  destruct (cmp a a'); simpl; [apply cmp_opp|done..].
Qed.
Next Obligation.
  intros A B ?? [a b] [a' b'] [a'' b'']. unfold pair_cmp. simpl.
  destruct (cmp a a') eqn:E1; [| |done].
  - apply cmp_eq in E1 as ->. destruct (cmp a' a''); [apply cmp_trans|done..].
  - intros _. destruct (cmp a' a'') eqn:E2; [| |done].
    + apply cmp_eq in E2 as ->. by rewrite E1.
    + by rewrite (cmp_trans _ _ _ E1 E2).
Qed.

Section ordered.
Context {K : Type} `{!Ordered K}.
Implicit Types a b c k : K.

Lemma cmp_refl a : cmp a a = Eq.
Proof. by apply cmp_eq. Qed.

Lemma olt_irrefl a : ~ olt a a.
Proof. unfold olt. by rewrite cmp_refl. Qed.

#[export] Instance olt_trans : Transitive (@olt K _).
Proof. intros a b c. apply cmp_trans. Qed.

Lemma olt_not_sym a b : olt a b -> ~ olt b a.
Proof. intros H1 H2. by eapply olt_irrefl, olt_trans. Qed.

Lemma olt_ne a b : olt a b -> a <> b.
Proof. intros H ->. by eapply olt_irrefl. Qed.

Lemma cmp_gt a b : cmp a b = Gt <-> olt b a.
Proof. unfold olt. rewrite (cmp_opp a b). by destruct (cmp a b). Qed.

Lemma olt_total a b : olt a b \/ a = b \/ olt b a.
Proof.
  unfold olt. rewrite (cmp_opp a b). destruct (cmp a b) eqn:E; [|by left|by right; right].
  apply cmp_eq in E. by right; left.
Qed.

Lemma oltb_lt a b : oltb a b = true <-> olt a b.
Proof. unfold oltb, olt. by destruct (cmp a b). Qed.

#[export] Instance olt_dec a b : Decision (olt a b).
Proof. unfold olt. apply _. Defined.

(** ** Sets *)
Fixpoint os_insert (k : K) (l : list K) : list K :=
  match l with
  | [] => [k]
  | k' :: l' =>
    match cmp k k' with
    | Lt => k :: l
    | Eq => l
    | Gt => k' :: os_insert k l'
    end
  end.

(** [BTreeSet::remove]: whether the element was there, and the rest. *)
Fixpoint os_remove (k : K) (l : list K) : bool * list K :=
  match l with
  | [] => (false, [])
  | k' :: l' =>
    match cmp k k' with
    | Eq => (true, l')
    | _ => let '(b, l'') := os_remove k l' in (b, k' :: l'')
    end
  end.

Abbreviation sorted := (StronglySorted (@olt K _)).

Lemma elem_of_os_insert k l x : x ∈ os_insert k l <-> x = k \/ x ∈ l.
Proof.
  induction l as [|k' l IH]; simpl; [set_solver|].
  destruct (cmp k k') eqn:E; [apply cmp_eq in E as ->|..]; set_solver.
Qed.

Lemma os_insert_sorted k l : sorted l -> sorted (os_insert k l).
Proof.
  induction 1 as [|k' l Hl IH Hk']; simpl; [by repeat constructor|].
  destruct (cmp k k') eqn:E.
  - by constructor.
  - constructor; [by constructor|]. constructor; [done|].
    eapply Forall_impl; [exact Hk'|]. intros x Hx. by eapply olt_trans.
  - constructor; [done|]. apply Forall_forall. intros x [->|Hx]%elem_of_os_insert.
    + by apply cmp_gt.
    + rewrite Forall_forall in Hk'. by apply Hk'.
Qed.

Lemma os_insert_perm k l : k ∉ l -> os_insert k l ≡ₚ k :: l.
Proof.
  induction l as [|k' l IH]; simpl; [done|]. intros [Hne Hk]%not_elem_of_cons.
  destruct (cmp k k') eqn:E; [by apply cmp_eq in E|done|].
  rewrite IH by done. constructor.
Qed.

Lemma sorted_filter (P : K -> Prop) `{!forall x, Decision (P x)} l : sorted l -> sorted (filter P l).
Proof.
  induction 1 as [|k l Hl IH Hk]; [constructor|]. rewrite filter_cons. case_decide; [|done].
  constructor; [done|]. rewrite Forall_forall in *. intros x [_ Hx]%list_elem_of_filter. auto.
Qed.

Lemma sorted_NoDup l : sorted l -> NoDup l.
Proof.
  induction 1 as [|k l Hl IH Hk]; [constructor|]. constructor; [|done].
  intros Hin. rewrite Forall_forall in Hk. by eapply olt_irrefl, Hk.
Qed.

Lemma os_remove_perm k l : k ∈ l -> os_remove k l = (true, (os_remove k l).2) /\ l ≡ₚ k :: (os_remove k l).2.
Proof.
  induction l as [|k' l IH]; [set_solver|]. intros Hk. simpl.
  destruct (cmp k k') eqn:E; [apply cmp_eq in E as ->; done|..];
    (assert (k ∈ l) as Hin by (apply elem_of_cons in Hk as [->|]; [by rewrite cmp_refl in E|done]);
     destruct (IH Hin) as [H1 H2]; destruct (os_remove k l) as [b l'']; simpl in *;
     split; [by simplify_eq|rewrite H2; constructor]).
Qed.

Lemma os_remove_sub k l x : x ∈ (os_remove k l).2 -> x ∈ l.
Proof.
  induction l as [|k' l IH]; simpl; [done|]. destruct (os_remove k l) as [b l'']; simpl in *.
  destruct (cmp k k'); simpl; set_solver.
Qed.

Lemma os_remove_sorted k l : sorted l -> sorted (os_remove k l).2.
Proof.
  induction 1 as [|k' l Hl IH Hk]; simpl; [constructor|].
  pose proof (os_remove_sub k l) as Hsub. destruct (os_remove k l) as [b l'']; simpl in *.
  assert (sorted (k' :: l'')).
  { constructor; [done|]. apply Forall_forall. intros x Hx. rewrite Forall_forall in Hk. auto. }
  by destruct (cmp k k').
Qed.

(** ** Maps *)
Section maps.
Context {V : Type}.
Implicit Types (v : V) (l : list (K * V)).

Fixpoint om_get k l : option V :=
  match l with
  | [] => None
  | (k', v) :: l' => match cmp k k' with Eq => Some v | _ => om_get k l' end
  end.

Fixpoint om_insert k v l : list (K * V) :=
  match l with
  | [] => [(k, v)]
  | (k', v') :: l' =>
    match cmp k k' with
    | Lt => (k, v) :: l
    | Eq => (k, v) :: l'
    | Gt => (k', v') :: om_insert k v l'
    end
  end.

(** The keys are in strictly increasing order. *)
Definition om_wf l : Prop := sorted l.*1.

Lemma om_get_Some k v l : om_get k l = Some v -> (k, v) ∈ l.
Proof.
  induction l as [|[k' v'] l IH]; simpl; [done|].
  destruct (cmp k k') eqn:E; [apply cmp_eq in E as ->; intros [= ->]; left|right; auto..].
Qed.

Lemma om_get_in k v l : om_wf l -> (k, v) ∈ l -> om_get k l = Some v.
Proof.
  intros Hwf Hin. induction l as [|[k' v'] l IH]; [set_solver|].
  inversion_clear Hwf as [|?? Hl Hk]. simpl. apply elem_of_cons in Hin as [[= -> ->]|Hin].
  - by rewrite cmp_refl.
  - rewrite Forall_forall in Hk. assert (olt k' k) as Hlt by (apply Hk; by apply (list_elem_of_fmap_2 fst _ (k, v))).
    apply cmp_gt in Hlt. rewrite Hlt. by apply IH.
Qed.

Lemma om_get_insert k v k' l :
  om_wf l -> om_get k' (om_insert k v l) = if cmp k' k is Eq then Some v else om_get k' l.
Proof.
  intros Hwf. induction l as [|[k1 v1] l IH]; simpl; [done|].
  inversion_clear Hwf as [|?? Hl Hk].
  destruct (cmp k k1) eqn:E; simpl.
  - apply cmp_eq in E as ->. by destruct (cmp k' k1).
  - by destruct (cmp k' k) eqn:E2.
  - rewrite IH by done. destruct (cmp k' k1) eqn:E1; [|done..]. apply cmp_eq in E1 as ->.
    apply cmp_gt in E. unfold olt in E. by rewrite E.
Qed.

Lemma om_insert_keys k v l x : x ∈ (om_insert k v l).*1 <-> x = k \/ x ∈ l.*1.
Proof.
  induction l as [|[k1 v1] l IH]; simpl; [set_solver|].
  destruct (cmp k k1) eqn:E; [apply cmp_eq in E as ->|..]; set_solver.
Qed.

Lemma om_insert_wf k v l : om_wf l -> om_wf (om_insert k v l).
Proof.
  unfold om_wf. induction l as [|[k1 v1] l IH]; simpl; [by repeat constructor|].
  inversion_clear 1 as [|?? Hl Hk]. destruct (cmp k k1) eqn:E; simpl.
  - apply cmp_eq in E as ->. by constructor.
  - constructor; [by constructor|]. constructor; [done|].
    eapply Forall_impl; [exact Hk|]. intros x Hx. by eapply olt_trans.
  - constructor; [by apply IH|]. apply Forall_forall. intros x [->|Hx]%om_insert_keys.
    + by apply cmp_gt.
    + rewrite Forall_forall in Hk. by apply Hk.
Qed.

Lemma om_insert_fresh k v l : om_get k l = None -> om_insert k v l ≡ₚ (k, v) :: l.
Proof.
  induction l as [|[k1 v1] l IH]; simpl; [done|].
  destruct (cmp k k1) eqn:E; [done|done|]. intros H. rewrite (IH H). constructor.
Qed.

Lemma om_insert_replace k v v0 l :
  om_wf l -> om_get k l = Some v0 ->
  exists l', l ≡ₚ (k, v0) :: l' /\ om_insert k v l ≡ₚ (k, v) :: l'.
Proof.
  induction l as [|[k1 v1] l IH]; simpl; [done|]. intros Hwf.
  inversion_clear Hwf as [|?? Hl Hk]. destruct (cmp k k1) eqn:E.
  - apply cmp_eq in E as ->. intros [= ->]. by exists l.
  - intros H. apply om_get_Some in H. rewrite Forall_forall in Hk.
    assert (olt k1 k) as Hlt by (apply Hk; by apply (list_elem_of_fmap_2 fst _ (k, v0))).
    by apply olt_not_sym in Hlt.
  - intros H. destruct (IH Hl H) as (l' & H1 & H2). exists ((k1, v1) :: l').
    split; [rewrite H1; constructor|rewrite H2; constructor].
Qed.

Lemma om_get_None k l : om_get k l = None -> k ∉ l.*1.
Proof.
  induction l as [|[k1 v1] l IH]; simpl; [set_solver|].
  destruct (cmp k k1) eqn:E; [done|..]; intros H%IH; apply not_elem_of_cons; (split; [|done]);
    intros ->; by rewrite cmp_refl in E.
Qed.

Lemma om_get_is_Some k l : is_Some (om_get k l) <-> k ∈ l.*1.
Proof.
  split.
  - intros [v H%om_get_Some]. by apply (list_elem_of_fmap_2 fst _ (k, v)).
  - intros Hk. destruct (om_get k l) eqn:E; [eauto|]. by apply om_get_None in E.
Qed.
End maps.
End ordered.

Abbreviation sorted := (StronglySorted olt).
