(* ===== verification/ForkChoice.v ===== *)
(** * The heaviest subtree fork choice

    Models [core/src/consensus/heaviest_subtree_fork_choice.rs], the tree of replayed blocks
    from which the validator picks the fork to build and vote on, with the traversal
    [subtree_diff] of [tree_diff.rs]. Every block carries the stake of the validators whose
    latest vote it is, the stake of its subtree, the best (heaviest valid) and the deepest
    block of its subtree, and whether it may be chosen at all.

    [u64] additions and subtractions that leave the type are [Panic] here, as with overflow
    checks; the theorems show that none does. Loops carry fuel, and running out of it is
    [Panic] as well. The time of the last root is only printed and is left out. *)

From S2P Require Import Prelude OrdMap.
Local Open Scope Z_scope.

Abbreviation res A := (outcome () A).
Abbreviation ForkWeight := Z (only parsing).

(** A block: its slot and its hash, compared in this order. *)
Abbreviation SlotHashKey := (Slot * Hash)%type.
Definition default_key : SlotHashKey := (0, 0).

Definition u64_add (a b : Z) : res Z := expect (checked_add u64_max a b).
Definition u64_sub (a b : Z) : res Z := expect (checked_sub a b).
Arguments u64_add : simpl never.
Arguments u64_sub : simpl never.

(** ** Update operations *)
Inductive UpdateLabel :=
| LAggregate
| LAdd
| LMarkValid (s : Slot)
| LMarkInvalid (s : Slot)
| LSubtract.

#[export] Instance UpdateLabel_eq_dec : EqDecision UpdateLabel.
Proof. solve_decision. Defined.

(** The derived order of the labels: by constructor, then by slot. *)
Definition label_code (l : UpdateLabel) : Z * Z :=
  match l with
  | LAggregate => (0, 0)
  | LAdd => (1, 0)
  | LMarkValid s => (2, s)
  | LMarkInvalid s => (3, s)
  | LSubtract => (4, 0)
  end.

Lemma label_code_inj l l' : label_code l = label_code l' -> l = l'.
Proof. by destruct l, l'; intros [=]; subst. Qed.

#[export] Program Instance label_ordered : Ordered UpdateLabel :=
  { cmp a b := cmp (label_code a) (label_code b) }.
Next Obligation.
  intros a b. rewrite cmp_eq. split; [apply label_code_inj|by intros ->].
Qed.
Next Obligation. intros a b. apply cmp_opp. Qed.
Next Obligation. intros a b c. apply cmp_trans. Qed.

Inductive UpdateOperation :=
| OpAdd (stake : Z)
| OpMarkValid (s : Slot)
| OpMarkInvalid (s : Slot)
| OpSubtract (stake : Z)
| OpAggregate.

Abbreviation UpdateOperations := (list ((SlotHashKey * UpdateLabel) * UpdateOperation)).

Definition update_stake (self : UpdateOperation) (new_stake : Z) : res UpdateOperation :=
  match self with
  | OpAdd stake => s ← u64_add stake new_stake; Ok (OpAdd s)
  | OpSubtract stake => s ← u64_add stake new_stake; Ok (OpSubtract s)
  | OpAggregate | OpMarkValid _ | OpMarkInvalid _ => Panic
  end.

(** ** Blocks *)
Record ForkInfo := {
  fi_stake_voted_at : ForkWeight;
  fi_stake_voted_subtree : ForkWeight;
  fi_height : nat;
  fi_best_slot : SlotHashKey;
  fi_deepest_slot : SlotHashKey;
  fi_parent : option SlotHashKey;
  fi_children : list SlotHashKey; (* a BTreeSet *)
  fi_latest_invalid_ancestor : option Slot;
  fi_is_duplicate_confirmed : bool
}.

Definition set_parent (fi : ForkInfo) (p : option SlotHashKey) : ForkInfo :=
  {| fi_stake_voted_at := fi_stake_voted_at fi;
     fi_stake_voted_subtree := fi_stake_voted_subtree fi; fi_height := fi_height fi;
     fi_best_slot := fi_best_slot fi; fi_deepest_slot := fi_deepest_slot fi;
     fi_parent := p; fi_children := fi_children fi;
     fi_latest_invalid_ancestor := fi_latest_invalid_ancestor fi;
     fi_is_duplicate_confirmed := fi_is_duplicate_confirmed fi |}.

Definition set_children (fi : ForkInfo) (cs : list SlotHashKey) : ForkInfo :=
  {| fi_stake_voted_at := fi_stake_voted_at fi;
     fi_stake_voted_subtree := fi_stake_voted_subtree fi; fi_height := fi_height fi;
     fi_best_slot := fi_best_slot fi; fi_deepest_slot := fi_deepest_slot fi;
     fi_parent := fi_parent fi; fi_children := cs;
     fi_latest_invalid_ancestor := fi_latest_invalid_ancestor fi;
     fi_is_duplicate_confirmed := fi_is_duplicate_confirmed fi |}.

Definition set_stakes (fi : ForkInfo) (at_ subtree : ForkWeight) : ForkInfo :=
  {| fi_stake_voted_at := at_; fi_stake_voted_subtree := subtree; fi_height := fi_height fi;
     fi_best_slot := fi_best_slot fi; fi_deepest_slot := fi_deepest_slot fi;
     fi_parent := fi_parent fi; fi_children := fi_children fi;
     fi_latest_invalid_ancestor := fi_latest_invalid_ancestor fi;
     fi_is_duplicate_confirmed := fi_is_duplicate_confirmed fi |}.

Definition set_best_slot (fi : ForkInfo) (k : SlotHashKey) : ForkInfo :=
  {| fi_stake_voted_at := fi_stake_voted_at fi;
     fi_stake_voted_subtree := fi_stake_voted_subtree fi; fi_height := fi_height fi;
     fi_best_slot := k; fi_deepest_slot := fi_deepest_slot fi;
     fi_parent := fi_parent fi; fi_children := fi_children fi;
     fi_latest_invalid_ancestor := fi_latest_invalid_ancestor fi;
     fi_is_duplicate_confirmed := fi_is_duplicate_confirmed fi |}.

Definition set_deepest (fi : ForkInfo) (k : SlotHashKey) (h : nat) : ForkInfo :=
  {| fi_stake_voted_at := fi_stake_voted_at fi;
     fi_stake_voted_subtree := fi_stake_voted_subtree fi; fi_height := h;
     fi_best_slot := fi_best_slot fi; fi_deepest_slot := k;
     fi_parent := fi_parent fi; fi_children := fi_children fi;
     fi_latest_invalid_ancestor := fi_latest_invalid_ancestor fi;
     fi_is_duplicate_confirmed := fi_is_duplicate_confirmed fi |}.

Definition set_validity (fi : ForkInfo) (lia : option Slot) (dup : bool) : ForkInfo :=
  {| fi_stake_voted_at := fi_stake_voted_at fi;
     fi_stake_voted_subtree := fi_stake_voted_subtree fi; fi_height := fi_height fi;
     fi_best_slot := fi_best_slot fi; fi_deepest_slot := fi_deepest_slot fi;
     fi_parent := fi_parent fi; fi_children := fi_children fi;
     fi_latest_invalid_ancestor := lia; fi_is_duplicate_confirmed := dup |}.

Definition fi_is_unconfirmed_duplicate (self : ForkInfo) (my_slot : Slot) : bool :=
  match fi_latest_invalid_ancestor self with
  | Some ancestor => ancestor =? my_slot
  | None => false
  end.

Definition fi_is_candidate (self : ForkInfo) : bool :=
  match fi_latest_invalid_ancestor self with None => true | Some _ => false end.

Definition set_duplicate_confirmed (self : ForkInfo) : ForkInfo := set_validity self None true.

Definition update_with_newly_valid_ancestor (self : ForkInfo) (newly_valid_ancestor : Slot)
    : ForkInfo :=
  match fi_latest_invalid_ancestor self with
  | Some latest_invalid_ancestor =>
    if latest_invalid_ancestor <=? newly_valid_ancestor
    then set_validity self None (fi_is_duplicate_confirmed self) else self
  | None => self
  end.

Definition update_with_newly_invalid_ancestor (self : ForkInfo) (newly_invalid_ancestor : Slot)
    : res ForkInfo :=
  _ ← ensure (negb (fi_is_duplicate_confirmed self));
  Ok (if match fi_latest_invalid_ancestor self with
         | Some latest_invalid_ancestor => latest_invalid_ancestor <? newly_invalid_ancestor
         | None => true
         end
      then set_validity self (Some newly_invalid_ancestor) (fi_is_duplicate_confirmed self)
      else self).

(** ** The tree *)
Record HeaviestSubtreeForkChoice := {
  fork_infos : gmap SlotHashKey ForkInfo;
  latest_votes : gmap Pubkey SlotHashKey;
  tree_root : SlotHashKey
}.

Definition set_fork_infos (self : HeaviestSubtreeForkChoice) (m : gmap SlotHashKey ForkInfo)
    : HeaviestSubtreeForkChoice :=
  {| fork_infos := m; latest_votes := latest_votes self; tree_root := tree_root self |}.
Definition set_latest_votes (self : HeaviestSubtreeForkChoice) (v : gmap Pubkey SlotHashKey)
    : HeaviestSubtreeForkChoice :=
  {| fork_infos := fork_infos self; latest_votes := v; tree_root := tree_root self |}.
(** [get_mut(key)] followed by a write of the entry. *)
Definition update_info (self : HeaviestSubtreeForkChoice) (k : SlotHashKey)
    (f : ForkInfo -> ForkInfo) : HeaviestSubtreeForkChoice :=
  set_fork_infos self (alter f k (fork_infos self)).

Definition contains_block (self : HeaviestSubtreeForkChoice) (key : SlotHashKey) : bool :=
  bool_decide (is_Some (fork_infos self !! key)).
Definition best_slot (self : HeaviestSubtreeForkChoice) (key : SlotHashKey) : option SlotHashKey :=
  fi_best_slot <$> fork_infos self !! key.
Definition deepest_slot (self : HeaviestSubtreeForkChoice) (key : SlotHashKey)
    : option SlotHashKey :=
  fi_deepest_slot <$> fork_infos self !! key.
Definition best_overall_slot (self : HeaviestSubtreeForkChoice) : res SlotHashKey :=
  expect (best_slot self (tree_root self)).
Definition deepest_overall_slot (self : HeaviestSubtreeForkChoice) : res SlotHashKey :=
  expect (deepest_slot self (tree_root self)).
Definition stake_voted_subtree (self : HeaviestSubtreeForkChoice) (key : SlotHashKey) : option Z :=
  fi_stake_voted_subtree <$> fork_infos self !! key.
Definition stake_voted_at (self : HeaviestSubtreeForkChoice) (key : SlotHashKey) : option Z :=
  fi_stake_voted_at <$> fork_infos self !! key.
Definition height (self : HeaviestSubtreeForkChoice) (key : SlotHashKey) : option nat :=
  fi_height <$> fork_infos self !! key.
Definition parent (self : HeaviestSubtreeForkChoice) (key : SlotHashKey) : option SlotHashKey :=
  fork_infos self !! key ≫= fi_parent.
Definition children (self : HeaviestSubtreeForkChoice) (key : SlotHashKey)
    : option (list SlotHashKey) :=
  fi_children <$> fork_infos self !! key.
Definition latest_invalid_ancestor (self : HeaviestSubtreeForkChoice) (key : SlotHashKey)
    : option Slot :=
  fork_infos self !! key ≫= fi_latest_invalid_ancestor.
Definition is_duplicate_confirmed (self : HeaviestSubtreeForkChoice) (key : SlotHashKey)
    : option bool :=
  fi_is_duplicate_confirmed <$> fork_infos self !! key.
Definition is_unconfirmed_duplicate (self : HeaviestSubtreeForkChoice) (key : SlotHashKey)
    : option bool :=
  (fun fi => fi_is_unconfirmed_duplicate fi key.1) <$> fork_infos self !! key.
Definition is_candidate (self : HeaviestSubtreeForkChoice) (key : SlotHashKey) : option bool :=
  fi_is_candidate <$> fork_infos self !! key.
Definition is_empty (self : HeaviestSubtreeForkChoice) : bool :=
  bool_decide (fork_infos self = ∅).

Definition max_by_weight (self : HeaviestSubtreeForkChoice) (slot1 slot2 : SlotHashKey)
    : res comparison :=
  weight1 ← expect (stake_voted_subtree self slot1);
  weight2 ← expect (stake_voted_subtree self slot2);
  Ok (if weight1 =? weight2 then CompOpp (cmp slot1 slot2) else weight1 ?= weight2).

(** [AncestorIterator]: the strict ancestors, from the parent up. A path in the tree has
    fewer blocks than the map. *)
Fixpoint ancestors_from (fuel : nat) (m : gmap SlotHashKey ForkInfo) (k : SlotHashKey)
    : list SlotHashKey :=
  match fuel with
  | O => []
  | S fuel =>
    match m !! k ≫= fi_parent with
    | Some p => p :: ancestors_from fuel m p
    | None => []
    end
  end.
Definition ancestor_iterator (self : HeaviestSubtreeForkChoice) (k : SlotHashKey)
    : list SlotHashKey :=
  ancestors_from (size (fork_infos self)) (fork_infos self) k.

Definition is_strict_ancestor (self : HeaviestSubtreeForkChoice)
    (maybe_ancestor_key node_key : SlotHashKey) : bool :=
  if bool_decide (maybe_ancestor_key = node_key) then false
  else if node_key.1 <? maybe_ancestor_key.1 then false
  else bool_decide (maybe_ancestor_key ∈ ancestor_iterator self node_key).

(** [TreeDiff::subtree_diff]: the blocks reachable from [root1], not through [root2]. The
    stack is a list whose head is its top. *)
Fixpoint subtree_diff_loop (fuel : nat) (self : HeaviestSubtreeForkChoice) (root2 : SlotHashKey)
    (pending_keys : list SlotHashKey) (reachable_set : gset SlotHashKey)
    : res (gset SlotHashKey) :=
  match pending_keys, fuel with
  | [], _ => Ok reachable_set
  | _, O => Panic
  | current_key :: pending_keys, S fuel =>
    if bool_decide (current_key = root2)
    then subtree_diff_loop fuel self root2 pending_keys reachable_set
    else
      cs ← expect (children self current_key);
      subtree_diff_loop fuel self root2 (reverse cs ++ pending_keys)
        ({[current_key]} ∪ reachable_set)
  end.
Definition subtree_diff (self : HeaviestSubtreeForkChoice) (root1 root2 : SlotHashKey)
    : res (gset SlotHashKey) :=
  if negb (contains_block self root1) then Ok ∅
  else subtree_diff_loop (size (fork_infos self)) self root2 [root1] ∅.

(** ** Aggregation *)

(** The running values of [aggregate_slot]'s loop over the children. *)
Record Aggregate := {
  ag_stake_voted_subtree : Z;
  ag_deepest_child_height : nat;
  ag_best_slot : SlotHashKey;
  ag_deepest_slot : SlotHashKey;
  ag_is_duplicate_confirmed : bool;
  ag_best_child_stake : Z;
  ag_best_child : SlotHashKey;
  ag_deepest_child_stake : Z;
  ag_deepest_child : SlotHashKey
}.

Definition aggregate_start (k : SlotHashKey) (fi : ForkInfo) : Aggregate :=
  {| ag_stake_voted_subtree := fi_stake_voted_at fi; ag_deepest_child_height := 0;
     ag_best_slot := k; ag_deepest_slot := k; ag_is_duplicate_confirmed := false;
     ag_best_child_stake := 0; ag_best_child := k;
     ag_deepest_child_stake := 0; ag_deepest_child := k |}.

(** Whether a child replaces the best child found so far. *)
Definition takes_best (k : SlotHashKey) (acc : Aggregate) (c : SlotHashKey) (ci : ForkInfo) : bool :=
  fi_is_candidate ci &&
  (bool_decide (ag_best_child acc = k) ||
   (ag_best_child_stake acc <? fi_stake_voted_subtree ci) ||
   ((fi_stake_voted_subtree ci =? ag_best_child_stake acc) && oltb c (ag_best_child acc))).

Definition takes_deepest (k : SlotHashKey) (acc : Aggregate) (c : SlotHashKey) (ci : ForkInfo)
    : bool :=
  match bool_decide (ag_deepest_child acc = k),
        Nat.compare (fi_height ci) (ag_deepest_child_height acc),
        fi_stake_voted_subtree ci ?= ag_deepest_child_stake acc,
        cmp c (ag_deepest_child acc) with
  | true, _, _, _ => true
  | _, Gt, _, _ => true
  | _, Eq, Gt, _ => true
  | _, Eq, Eq, Lt => true
  | _, _, _, _ => false
  end.

Definition aggregate_child (m : gmap SlotHashKey ForkInfo) (k : SlotHashKey) (acc : Aggregate)
    (c : SlotHashKey) : res Aggregate :=
  ci ← expect (m !! c);
  stake ← u64_add (ag_stake_voted_subtree acc) (fi_stake_voted_subtree ci);
  let best := takes_best k acc c ci in
  let deepest := takes_deepest k acc c ci in
  Ok {| ag_stake_voted_subtree := stake;
        ag_deepest_child_height :=
          if deepest then fi_height ci else ag_deepest_child_height acc;
        ag_best_slot := if best then fi_best_slot ci else ag_best_slot acc;
        ag_deepest_slot := if deepest then fi_deepest_slot ci else ag_deepest_slot acc;
        ag_is_duplicate_confirmed :=
          ag_is_duplicate_confirmed acc || fi_is_duplicate_confirmed ci;
        ag_best_child_stake :=
          if best then fi_stake_voted_subtree ci else ag_best_child_stake acc;
        ag_best_child := if best then c else ag_best_child acc;
        ag_deepest_child_stake :=
          if deepest then fi_stake_voted_subtree ci else ag_deepest_child_stake acc;
        ag_deepest_child := if deepest then c else ag_deepest_child acc |}.

Fixpoint aggregate_children (m : gmap SlotHashKey ForkInfo) (k : SlotHashKey) (acc : Aggregate)
    (cs : list SlotHashKey) : res Aggregate :=
  match cs with
  | [] => Ok acc
  | c :: cs => acc ← aggregate_child m k acc c; aggregate_children m k acc cs
  end.

(** The entry [aggregate_slot] leaves. *)
Definition aggregated (fi : ForkInfo) (acc : Aggregate) : ForkInfo :=
  let fi := if ag_is_duplicate_confirmed acc then set_duplicate_confirmed fi else fi in
  set_deepest
    (set_best_slot (set_stakes fi (fi_stake_voted_at fi) (ag_stake_voted_subtree acc))
       (ag_best_slot acc))
    (ag_deepest_slot acc) (ag_deepest_child_height acc + 1).

Definition aggregate_slot (self : HeaviestSubtreeForkChoice) (k : SlotHashKey)
    : res HeaviestSubtreeForkChoice :=
  match fork_infos self !! k with
  | Some fi =>
    acc ← aggregate_children (fork_infos self) k (aggregate_start k fi) (fi_children fi);
    Ok (update_info self k (fun fi => aggregated fi acc))
  | None => Ok self
  end.

(** ** Updates *)
Definition mark_fork_valid (self : HeaviestSubtreeForkChoice) (fork_to_modify_key : SlotHashKey)
    (valid_slot : Slot) : HeaviestSubtreeForkChoice :=
  update_info self fork_to_modify_key (fun fi =>
    let fi := update_with_newly_valid_ancestor fi valid_slot in
    if fork_to_modify_key.1 =? valid_slot
    then set_validity fi (fi_latest_invalid_ancestor fi) true else fi).

Definition mark_fork_invalid (self : HeaviestSubtreeForkChoice) (fork_to_modify_key : SlotHashKey)
    (invalid_slot : Slot) : res HeaviestSubtreeForkChoice :=
  match fork_infos self !! fork_to_modify_key with
  | Some fi =>
    fi' ← update_with_newly_invalid_ancestor fi invalid_slot;
    Ok (update_info self fork_to_modify_key (fun _ => fi'))
  | None => Ok self
  end.

Definition add_slot_stake (self : HeaviestSubtreeForkChoice) (k : SlotHashKey) (stake : Z)
    : res HeaviestSubtreeForkChoice :=
  match fork_infos self !! k with
  | Some fi =>
    at_ ← u64_add (fi_stake_voted_at fi) stake;
    subtree ← u64_add (fi_stake_voted_subtree fi) stake;
    Ok (update_info self k (fun fi => set_stakes fi at_ subtree))
  | None => Ok self
  end.

Definition subtract_slot_stake (self : HeaviestSubtreeForkChoice) (k : SlotHashKey) (stake : Z)
    : res HeaviestSubtreeForkChoice :=
  match fork_infos self !! k with
  | Some fi =>
    at_ ← u64_sub (fi_stake_voted_at fi) stake;
    subtree ← u64_sub (fi_stake_voted_subtree fi) stake;
    Ok (update_info self k (fun fi => set_stakes fi at_ subtree))
  | None => Ok self
  end.

Definition process_operation (self : HeaviestSubtreeForkChoice) (k : SlotHashKey)
    (operation : UpdateOperation) : res HeaviestSubtreeForkChoice :=
  match operation with
  | OpMarkValid valid_slot => Ok (mark_fork_valid self k valid_slot)
  | OpMarkInvalid invalid_slot => mark_fork_invalid self k invalid_slot
  | OpAggregate => aggregate_slot self k
  | OpAdd stake => add_slot_stake self k stake
  | OpSubtract stake => subtract_slot_stake self k stake
  end.

Fixpoint process_list (self : HeaviestSubtreeForkChoice) (ops : UpdateOperations)
    : res HeaviestSubtreeForkChoice :=
  match ops with
  | [] => Ok self
  | (k, _, operation) :: ops => self ← process_operation self k operation; process_list self ops
  end.
(** From the greatest to the smallest key. *)
Definition process_update_operations (self : HeaviestSubtreeForkChoice)
    (update_operations : UpdateOperations) : res HeaviestSubtreeForkChoice :=
  process_list self (reverse update_operations).

(** Whether the block had no aggregation yet, and the operations. *)
Definition do_insert_aggregate_operation (update_operations : UpdateOperations)
    (modify_fork_validity : option UpdateOperation) (k : SlotHashKey) : bool * UpdateOperations :=
  match om_get (k, LAggregate) update_operations with
  | Some _ => (false, update_operations)
  | None =>
    let update_operations :=
      match modify_fork_validity with
      | Some (OpMarkValid slot) => om_insert (k, LMarkValid slot) (OpMarkValid slot) update_operations
      | Some (OpMarkInvalid slot) =>
        om_insert (k, LMarkInvalid slot) (OpMarkInvalid slot) update_operations
      | _ => update_operations
      end in
    (true, om_insert (k, LAggregate) OpAggregate update_operations)
  end.

Fixpoint insert_across (update_operations : UpdateOperations)
    (modify_fork_validity : option UpdateOperation) (ancestors : list SlotHashKey)
    : UpdateOperations :=
  match ancestors with
  | [] => update_operations
  | a :: ancestors =>
    let '(inserted, update_operations) :=
      do_insert_aggregate_operation update_operations modify_fork_validity a in
    if inserted then insert_across update_operations modify_fork_validity ancestors
    else update_operations
  end.

Definition do_insert_aggregate_operations_across_ancestors (self : HeaviestSubtreeForkChoice)
    (update_operations : UpdateOperations) (modify_fork_validity : option UpdateOperation)
    (k : SlotHashKey) : UpdateOperations :=
  insert_across update_operations modify_fork_validity (ancestor_iterator self k).

Definition insert_aggregate_operations (self : HeaviestSubtreeForkChoice)
    (update_operations : UpdateOperations) (k : SlotHashKey) : UpdateOperations :=
  do_insert_aggregate_operations_across_ancestors self update_operations None k.

(** ** Votes *)
Section stakes.
(** [EpochSchedule::get_epoch], of the [solana-epoch-schedule] crate. *)
Context (get_epoch : Slot -> Epoch).
(** The stake of the vote accounts in each epoch. *)
Context (epoch_stakes : gmap Epoch (gmap Pubkey Z)).

Definition vote_account_stake (stakes : gmap Pubkey Z) (pubkey : Pubkey) : Z :=
  default 0 (stakes !! pubkey).

(** The stake a vote of [pubkey] for a block at [slot] weighs. *)
Definition stake_update (pubkey : Pubkey) (slot : Slot) : Z :=
  match epoch_stakes !! get_epoch slot with
  | Some stakes => vote_account_stake stakes pubkey
  | None => 0
  end.

(** [entry(key).and_modify(update_stake).or_insert(op)]. *)
Definition add_operation (update_operations : UpdateOperations) (key : SlotHashKey * UpdateLabel)
    (stake : Z) (op : UpdateOperation) : res UpdateOperations :=
  match om_get key update_operations with
  | Some op' => op' ← update_stake op' stake; Ok (om_insert key op' update_operations)
  | None => Ok (om_insert key op update_operations)
  end.

(** The vote is not newer than the one recorded. *)
Definition outdated (new_vote old : SlotHashKey) : bool :=
  (new_vote.1 <? old.1) || ((new_vote.1 =? old.1) && (old.2 <=? new_vote.2)).

(** Takes the stake off the block voted for before. *)
Definition move_from (self : HeaviestSubtreeForkChoice) (update_operations : UpdateOperations)
    (pubkey : Pubkey) (old_vote new_vote : SlotHashKey) : res UpdateOperations :=
  _ ← ensure (if new_vote.1 =? old_vote.1 then new_vote.2 <? old_vote.2
              else old_vote.1 <? new_vote.1);
  let stake := stake_update pubkey old_vote.1 in
  if 0 <? stake then
    update_operations ←
      add_operation update_operations (old_vote, LSubtract) stake (OpSubtract stake);
    Ok (insert_aggregate_operations self update_operations old_vote)
  else Ok update_operations.

Definition generate_vote (self : HeaviestSubtreeForkChoice) (update_operations : UpdateOperations)
    (observed_pubkeys : gmap Pubkey Slot) (pubkey : Pubkey) (new_vote : SlotHashKey)
    : res (HeaviestSubtreeForkChoice * UpdateOperations * gmap Pubkey Slot) :=
  if new_vote.1 <? (tree_root self).1 then Ok (self, update_operations, observed_pubkeys)
  else if bool_decide (is_Some (observed_pubkeys !! pubkey)) then Panic
  else
    let observed_pubkeys := <[pubkey := new_vote.1]> observed_pubkeys in
    let latest := latest_votes self !! pubkey in
    if match latest with Some old => outdated new_vote old | None => false end
    then Ok (self, update_operations, observed_pubkeys)
    else
      let self := set_latest_votes self (<[pubkey := new_vote]> (latest_votes self)) in
      update_operations ←
        match latest with
        | Some old => move_from self update_operations pubkey old new_vote
        | None => Ok update_operations
        end;
      let stake := stake_update pubkey new_vote.1 in
      update_operations ← add_operation update_operations (new_vote, LAdd) stake (OpAdd stake);
      Ok (self, insert_aggregate_operations self update_operations new_vote, observed_pubkeys).

Fixpoint generate_loop (self : HeaviestSubtreeForkChoice) (update_operations : UpdateOperations)
    (observed_pubkeys : gmap Pubkey Slot) (pubkey_votes : list (Pubkey * SlotHashKey))
    : res (HeaviestSubtreeForkChoice * UpdateOperations) :=
  match pubkey_votes with
  | [] => Ok (self, update_operations)
  | (pubkey, new_vote) :: pubkey_votes =>
    '(self, update_operations, observed_pubkeys) ←
      generate_vote self update_operations observed_pubkeys pubkey new_vote;
    generate_loop self update_operations observed_pubkeys pubkey_votes
  end.
Definition generate_update_operations (self : HeaviestSubtreeForkChoice)
    (pubkey_votes : list (Pubkey * SlotHashKey))
    : res (HeaviestSubtreeForkChoice * UpdateOperations) :=
  generate_loop self [] ∅ pubkey_votes.

Definition add_votes (self : HeaviestSubtreeForkChoice) (pubkey_votes : list (Pubkey * SlotHashKey))
    : res (SlotHashKey * HeaviestSubtreeForkChoice) :=
  '(self, update_operations) ← generate_update_operations self pubkey_votes;
  self ← process_update_operations self update_operations;
  best ← best_overall_slot self;
  Ok (best, self).
End stakes.

(** ** New blocks *)

(** No candidate child of the same parent outweighs the block; lower blocks win ties. *)
Fixpoint no_better_child (self : HeaviestSubtreeForkChoice) (maybe_best_child : SlotHashKey)
    (weight : Z) (cs : list SlotHashKey) : res bool :=
  match cs with
  | [] => Ok true
  | c :: cs =>
    child_weight ← expect (stake_voted_subtree self c);
    candidate ← expect (is_candidate self c);
    if negb candidate then no_better_child self maybe_best_child weight cs
    else if (weight <? child_weight) || ((weight =? child_weight) && oltb c maybe_best_child)
    then Ok false
    else no_better_child self maybe_best_child weight cs
  end.
Definition is_best_child (self : HeaviestSubtreeForkChoice) (maybe_best_child : SlotHashKey)
    : res bool :=
  weight ← expect (stake_voted_subtree self maybe_best_child);
  match parent self maybe_best_child with
  | None => Ok true
  | Some p =>
    cs ← expect (children self p);
    no_better_child self maybe_best_child weight cs
  end.

Fixpoint no_deeper_child (self : HeaviestSubtreeForkChoice) (maybe_deepest_child : SlotHashKey)
    (weight : Z) (h : nat) (cs : list SlotHashKey) : res bool :=
  match cs with
  | [] => Ok true
  | c :: cs =>
    child_height ← expect (height self c);
    child_weight ← expect (stake_voted_subtree self c);
    match Nat.compare child_height h, child_weight ?= weight, cmp c maybe_deepest_child with
    | Gt, _, _ => Ok false
    | Eq, Gt, _ => Ok false
    | Eq, Eq, Lt => Ok false
    | _, _, _ => no_deeper_child self maybe_deepest_child weight h cs
    end
  end.
Definition is_deepest_child (self : HeaviestSubtreeForkChoice) (maybe_deepest_child : SlotHashKey)
    : res bool :=
  weight ← expect (stake_voted_subtree self maybe_deepest_child);
  h ← expect (height self maybe_deepest_child);
  match parent self maybe_deepest_child with
  | None => Ok true
  | Some p =>
    cs ← expect (children self p);
    no_deeper_child self maybe_deepest_child weight h cs
  end.

Fixpoint propagate_best (fuel : nat) (self : HeaviestSubtreeForkChoice)
    (leaf parent_best_slot : SlotHashKey) (ancestor : option SlotHashKey)
    : res HeaviestSubtreeForkChoice :=
  match ancestor, fuel with
  | None, _ => Ok self
  | _, O => Panic
  | Some a, S fuel =>
    fi ← expect (fork_infos self !! a);
    if bool_decide (fi_best_slot fi = parent_best_slot)
    then propagate_best fuel (update_info self a (fun fi => set_best_slot fi leaf)) leaf
           parent_best_slot (fi_parent fi)
    else Ok self
  end.

Fixpoint propagate_deepest (fuel : nat) (self : HeaviestSubtreeForkChoice) (leaf : SlotHashKey)
    (ancestor : option SlotHashKey) (current_child : SlotHashKey) (current_height : nat)
    : res HeaviestSubtreeForkChoice :=
  match ancestor, fuel with
  | None, _ => Ok self
  | _, O => Panic
  | Some a, S fuel =>
    deepest ← is_deepest_child self current_child;
    if negb deepest then Ok self
    else
      fi ← expect (fork_infos self !! a);
      propagate_deepest fuel
        (update_info self a (fun fi => set_deepest fi leaf (current_height + 1))) leaf
        (fi_parent fi) a (current_height + 1)
  end.

Definition propagate_new_leaf (self : HeaviestSubtreeForkChoice) (leaf p : SlotHashKey)
    : res HeaviestSubtreeForkChoice :=
  parent_best_slot ← expect (best_slot self p);
  best ← is_best_child self leaf;
  self ← (if best : bool
          then propagate_best (size (fork_infos self)) self leaf parent_best_slot (Some p)
          else Ok self);
  propagate_deepest (size (fork_infos self)) self leaf (Some p) leaf 1.

Definition new_leaf (k : SlotHashKey) (p : option SlotHashKey) (lia : option Slot) : ForkInfo :=
  {| fi_stake_voted_at := 0; fi_stake_voted_subtree := 0; fi_height := 1;
     fi_best_slot := k; fi_deepest_slot := k; fi_parent := p; fi_children := [];
     fi_latest_invalid_ancestor := lia;
     fi_is_duplicate_confirmed := match p with None => true | Some _ => false end |}.

Definition add_new_leaf_slot (self : HeaviestSubtreeForkChoice) (k : SlotHashKey)
    (p : option SlotHashKey) : res HeaviestSubtreeForkChoice :=
  if contains_block self k then Ok self
  else
    let lia := p ≫= latest_invalid_ancestor self in
    let self := set_fork_infos self (<[k := new_leaf k p lia]> (fork_infos self)) in
    match p with
    | None => Ok self
    | Some p =>
      _ ← expect (fork_infos self !! p);
      propagate_new_leaf
        (update_info self p (fun fi => set_children fi (os_insert k (fi_children fi)))) k p
    end.

Definition new (root : SlotHashKey) : res HeaviestSubtreeForkChoice :=
  add_new_leaf_slot {| fork_infos := ∅; latest_votes := ∅; tree_root := root |} root None.

(** What is read of a [Bank]. *)
Record FrozenBank := {
  bank_is_frozen : bool;
  bank_slot : Slot;
  bank_hash : Hash;
  bank_parent_slot : Slot;
  bank_parent_hash : Hash
}.

Fixpoint add_frozen_banks (self : HeaviestSubtreeForkChoice) (root : SlotHashKey)
    (prev_slot : Slot) (frozen_banks : list FrozenBank) : res HeaviestSubtreeForkChoice :=
  match frozen_banks with
  | [] => Ok self
  | bank :: frozen_banks =>
    _ ← ensure (bank_is_frozen bank);
    if root.1 <? bank_slot bank then
      _ ← ensure (prev_slot <? bank_slot bank);
      _ ← ensure (negb (bank_hash bank =? 0));
      _ ← ensure (negb (bank_parent_hash bank =? 0));
      self ← add_new_leaf_slot self (bank_slot bank, bank_hash bank)
               (Some (bank_parent_slot bank, bank_parent_hash bank));
      add_frozen_banks self root (bank_slot bank) frozen_banks
    else add_frozen_banks self root prev_slot frozen_banks
  end.
Definition new_from_frozen_banks (root : SlotHashKey) (frozen_banks : list FrozenBank)
    : res HeaviestSubtreeForkChoice :=
  self ← new root;
  add_frozen_banks self root root.1 frozen_banks.

(** ** Changing the root *)
Fixpoint remove_all (m : gmap SlotHashKey ForkInfo) (ks : list SlotHashKey)
    : res (gmap SlotHashKey ForkInfo) :=
  match ks with
  | [] => Ok m
  | k :: ks => _ ← expect (m !! k); remove_all (delete k m) ks
  end.

Definition set_tree_root (self : HeaviestSubtreeForkChoice) (new_root : SlotHashKey)
    : res HeaviestSubtreeForkChoice :=
  remove_set ← subtree_diff self (tree_root self) new_root;
  m ← remove_all (fork_infos self) (elements remove_set);
  fi ← expect (m !! new_root);
  Ok {| fork_infos := <[new_root := set_parent fi None]> m;
        latest_votes := latest_votes self; tree_root := new_root |}.

Definition add_root_parent (self : HeaviestSubtreeForkChoice) (root_parent : SlotHashKey)
    : res HeaviestSubtreeForkChoice :=
  _ ← ensure (root_parent.1 <? (tree_root self).1);
  _ ← ensure (negb (contains_block self root_parent));
  fi ← expect (fork_infos self !! tree_root self);
  Ok {| fork_infos :=
          <[root_parent :=
              {| fi_stake_voted_at := 0; fi_stake_voted_subtree := fi_stake_voted_subtree fi;
                 fi_height := fi_height fi + 1; fi_best_slot := fi_best_slot fi;
                 fi_deepest_slot := fi_deepest_slot fi; fi_parent := None;
                 fi_children := [tree_root self]; fi_latest_invalid_ancestor := None;
                 fi_is_duplicate_confirmed := fi_is_duplicate_confirmed fi |}]>
            (<[tree_root self := set_parent fi (Some root_parent)]> (fork_infos self));
        latest_votes := latest_votes self; tree_root := root_parent |}.

(** ** Splitting and merging trees *)

(** Moves the nodes on the stack and their children from [m] to [split]. *)
Fixpoint split_loop (fuel : nat) (m split : gmap SlotHashKey ForkInfo)
    (to_visit : list SlotHashKey)
    : res (gmap SlotHashKey ForkInfo * gmap SlotHashKey ForkInfo) :=
  match to_visit, fuel with
  | [], _ => Ok (m, split)
  | _, O => Panic
  | current_node :: to_visit, S fuel =>
    fi ← expect (m !! current_node);
    split_loop fuel (delete current_node m) (<[current_node := fi]> split)
      (reverse (fi_children fi) ++ to_visit)
  end.

(** The split tree and the rest. *)
Definition split_off (self : HeaviestSubtreeForkChoice) (k : SlotHashKey)
    : res (HeaviestSubtreeForkChoice * HeaviestSubtreeForkChoice) :=
  _ ← ensure (negb (bool_decide (tree_root self = k)));
  split_tree_root ← expect (fork_infos self !! k);
  p ← expect (fi_parent split_tree_root);
  let update_operations := insert_aggregate_operations self [] k in
  pi ← expect (fork_infos self !! p);
  let '(removed, cs) := os_remove k (fi_children pi) in
  _ ← ensure removed;
  self ← process_update_operations (update_info self p (fun fi => set_children fi cs))
           update_operations;
  '(m, split) ← split_loop (size (fork_infos self)) (fork_infos self) ∅ [k];
  pi ← expect (m !! p);
  let m := <[p := set_children pi (os_remove k (fi_children pi)).2]> m in
  let split := <[k := set_parent split_tree_root None]> split in
  Ok ({| fork_infos := split;
         latest_votes := filter (fun '(_, node) => is_Some (split !! node)) (latest_votes self);
         tree_root := k |},
      {| fork_infos := m;
         latest_votes := filter (fun '(_, node) => is_Some (m !! node)) (latest_votes self);
         tree_root := tree_root self |}).

Fixpoint add_leaves (self : HeaviestSubtreeForkChoice) (nodes : list (SlotHashKey * SlotHashKey))
    : res HeaviestSubtreeForkChoice :=
  match nodes with
  | [] => Ok self
  | (k, p) :: nodes => self ← add_new_leaf_slot self k (Some p); add_leaves self nodes
  end.

(** The nodes of [other] with their parents, sorted by key. *)
Definition other_slots_nodes (other : HeaviestSubtreeForkChoice) (merge_leaf : SlotHashKey)
    : list (SlotHashKey * SlotHashKey) :=
  foldr (fun '(k, fi) nodes => om_insert k (default merge_leaf (fi_parent fi)) nodes) []
    (map_to_list (fork_infos other)).

Definition merge (get_epoch : Slot -> Epoch) (epoch_stakes : gmap Epoch (gmap Pubkey Z))
    (self other : HeaviestSubtreeForkChoice) (merge_leaf : SlotHashKey)
    : res HeaviestSubtreeForkChoice :=
  _ ← ensure (contains_block self merge_leaf);
  self ← add_leaves self (other_slots_nodes other merge_leaf);
  '(_, self) ← add_votes get_epoch epoch_stakes self (map_to_list (latest_votes other));
  Ok self.

Fixpoint purge_loop (fuel : nat) (self : HeaviestSubtreeForkChoice) (new_root : SlotHashKey)
    (to_visit : list SlotHashKey) (root : option SlotHashKey) (purged_slots : list SlotHashKey)
    (pruned_subtrees : list HeaviestSubtreeForkChoice)
    : res (HeaviestSubtreeForkChoice * option SlotHashKey * list SlotHashKey *
           list HeaviestSubtreeForkChoice) :=
  match to_visit, fuel with
  | [], _ => Ok (self, root, purged_slots, pruned_subtrees)
  | _, O => Panic
  | cur_slot :: to_visit, S fuel =>
    if bool_decide (cur_slot = new_root)
    then purge_loop fuel self new_root to_visit (Some new_root) purged_slots pruned_subtrees
    else if oltb cur_slot new_root then
      cs ← expect (children self cur_slot);
      purge_loop fuel self new_root (reverse cs ++ to_visit) root (purged_slots ++ [cur_slot])
        pruned_subtrees
    else
      '(subtree, self) ← split_off self cur_slot;
      purge_loop fuel self new_root to_visit root purged_slots (pruned_subtrees ++ [subtree])
  end.

(** The purged slots, the pruned subtrees and the tree left. *)
Definition purge_prune (self : HeaviestSubtreeForkChoice) (new_root : SlotHashKey)
    : res (list SlotHashKey * list HeaviestSubtreeForkChoice * HeaviestSubtreeForkChoice) :=
  '(self, root, purged_slots, pruned_subtrees) ←
    purge_loop (size (fork_infos self)) self new_root [tree_root self] None [] [];
  m ← remove_all (fork_infos self) purged_slots;
  match root with
  | Some root =>
    fi ← expect (m !! root);
    Ok (purged_slots, pruned_subtrees,
        {| fork_infos := <[root := set_parent fi None]> m;
           latest_votes := latest_votes self; tree_root := root |})
  | None => Ok (purged_slots, pruned_subtrees, set_fork_infos self m)
  end.

(** ** Valid and invalid forks *)
Fixpoint insert_marks (update_operations : UpdateOperations) (mark : UpdateOperation)
    (ks : list SlotHashKey) : UpdateOperations :=
  match ks with
  | [] => update_operations
  | k :: ks =>
    insert_marks (do_insert_aggregate_operation update_operations (Some mark) k).2 mark ks
  end.

Definition mark_fork_invalid_candidate (self : HeaviestSubtreeForkChoice)
    (invalid_key : SlotHashKey) : res HeaviestSubtreeForkChoice :=
  match fork_infos self !! invalid_key with
  | Some fi =>
    _ ← ensure (negb (fi_is_duplicate_confirmed fi));
    subtree ← subtree_diff self invalid_key default_key;
    let update_operations := insert_marks [] (OpMarkInvalid invalid_key.1) (elements subtree) in
    process_update_operations self (insert_aggregate_operations self update_operations invalid_key)
  | None => Ok self
  end.

Fixpoint newly_confirmed (self : HeaviestSubtreeForkChoice) (ks : list SlotHashKey)
    : res (list SlotHashKey) :=
  match ks with
  | [] => Ok []
  | k :: ks =>
    confirmed ← expect (is_duplicate_confirmed self k);
    rest ← newly_confirmed self ks;
    Ok (if confirmed : bool then rest else k :: rest)
  end.

Definition mark_fork_valid_candidate (self : HeaviestSubtreeForkChoice) (valid_key : SlotHashKey)
    : res (list SlotHashKey * HeaviestSubtreeForkChoice) :=
  newly ← newly_confirmed self (valid_key :: ancestor_iterator self valid_key);
  subtree ← subtree_diff self valid_key default_key;
  let update_operations := insert_marks [] (OpMarkValid valid_key.1) (elements subtree) in
  self ← process_update_operations self
           (insert_aggregate_operations self update_operations valid_key);
  Ok (newly, self).

(** ** The forks to build and vote on *)

(** The tower is read for its last vote and whether that vote is stray. *)
Definition heaviest_slot_on_same_voted_fork (self : HeaviestSubtreeForkChoice)
    (last_voted_slot_hash : option SlotHashKey) (is_stray_last_vote : bool)
    : res (option SlotHashKey) :=
  match last_voted_slot_hash with
  | None => Ok None
  | Some last_voted_slot_hash =>
    match is_candidate self last_voted_slot_hash with
    | Some true => Ok (best_slot self last_voted_slot_hash)
    | Some false => Ok (deepest_slot self last_voted_slot_hash)
    | None => if negb is_stray_last_vote then Panic else Ok None
    end
  end.

(** [BankForks]: the hash of the bank at each slot. *)
Definition get_with_checked_hash (bank_forks : gmap Slot Hash) (k : SlotHashKey)
    : res (option SlotHashKey) :=
  match bank_forks !! k.1 with
  | Some hash => _ ← ensure (hash =? k.2); Ok (Some (k.1, hash))
  | None => Ok None
  end.

Definition select_forks (self : HeaviestSubtreeForkChoice)
    (last_voted_slot_hash : option SlotHashKey) (is_stray_last_vote : bool)
    (bank_forks : gmap Slot Hash) : res (SlotHashKey * option SlotHashKey) :=
  best ← best_overall_slot self;
  bank ← get_with_checked_hash bank_forks best;
  bank ← expect bank;
  voted ← heaviest_slot_on_same_voted_fork self last_voted_slot_hash is_stray_last_vote;
  Ok (bank,
      match voted with
      | Some slot_hash =>
        match bank_forks !! slot_hash.1 with
        | Some hash => if negb (hash =? slot_hash.2) then None else Some (slot_hash.1, hash)
        | None => None
        end
      | None => None
      end).
