(* ===== verification/ForkTree.v ===== *)
(** * Trees of blocks

    The parent and child links of the fork choice's blocks: forests, in which the blocks
    below a block are the blocks of its subtree, and trees, in which every block is below
    the root. *)

From S2P Require Import Prelude OrdMap ForkChoice.
Local Open Scope Z_scope.

(** The links of a block: its parent and its children. *)
Abbreviation Shape := (gmap SlotHashKey (option SlotHashKey * list SlotHashKey)).
Definition links (fi : ForkInfo) : option SlotHashKey * list SlotHashKey :=
  (fi_parent fi, fi_children fi).
Definition shape (m : gmap SlotHashKey ForkInfo) : Shape := links <$> m.

(** [c] is a child of [n]. *)
Definition link (sh : Shape) (n c : SlotHashKey) : Prop :=
  exists p cs, sh !! n = Some (p, cs) /\ c ∈ cs.
Abbreviation below sh := (rtc (link sh)).

Record forest (sh : Shape) : Prop := {
  f_parent n c : link sh n c -> exists cs, sh !! c = Some (Some n, cs);
  f_slot n c : link sh n c -> n.1 < c.1;
  f_sorted n p cs : sh !! n = Some (p, cs) -> sorted cs
}.

Record tree (sh : Shape) (root : SlotHashKey) : Prop := {
  t_forest : forest sh;
  t_root : exists cs, sh !! root = Some (None, cs);
  t_linked k p cs : sh !! k = Some (p, cs) -> k <> root -> exists n, p = Some n /\ link sh n k
}.

Lemma shape_lookup m k : shape m !! k = links <$> m !! k.
Proof. apply lookup_fmap. Qed.

Lemma shape_Some m k fi : m !! k = Some fi -> shape m !! k = Some (links fi).
Proof. intros H. by rewrite shape_lookup, H. Qed.

Lemma link_Some m n c : link (shape m) n c <-> exists fi, m !! n = Some fi /\ c ∈ fi_children fi.
Proof.
  unfold link. setoid_rewrite shape_lookup. split.
  - intros (p & cs & H & Hc). destruct (m !! n) as [fi|]; [|done]. injection H as <- <-. eauto.
  - intros (fi & -> & Hc). eexists _, _. done.
Qed.

Lemma link_dom sh n c : forest sh -> link sh n c -> is_Some (sh !! n) /\ is_Some (sh !! c).
Proof.
  intros Hf Hl. destruct (f_parent _ Hf _ _ Hl) as [cs ->]. destruct Hl as (p & cs' & -> & _). eauto.
Qed.

Lemma olt_slot (a b : SlotHashKey) : a.1 < b.1 -> olt a b.
Proof.
  intros H. unfold olt, cmp. simpl. unfold pair_cmp. simpl.
  by rewrite (proj2 (Z.compare_lt_iff a.1 b.1) H).
Qed.

Section forest.
Context (sh : Shape) (Hf : forest sh).

Lemma link_inj n n' c : link sh n c -> link sh n' c -> n = n'.
Proof using Hf.
  intros H1 H2. apply (f_parent _ Hf) in H1 as [? E1], H2 as [? E2]. congruence.
Qed.

Lemma link_lt n c : link sh n c -> olt n c.
Proof using Hf. intros H. by apply olt_slot, (f_slot _ Hf). Qed.

Lemma below_slot a d : below sh a d -> a = d \/ a.1 < d.1.
Proof using Hf.
  induction 1 as [|a b d H1 _ IH]; [by left|]. right.
  apply (f_slot _ Hf) in H1. destruct IH as [->|]; lia.
Qed.

Lemma below_antisym a d : below sh a d -> below sh d a -> a = d.
Proof using Hf.
  intros H1 H2. apply below_slot in H1 as [->|H1]; [done|].
  apply below_slot in H2 as [->|H2]; [done|lia].
Qed.

Lemma below_dom a d : below sh a d -> is_Some (sh !! a) -> is_Some (sh !! d).
Proof using Hf.
  induction 1 as [|a b d H1 _ IH]; [done|]. intros _. by apply IH, (link_dom sh a b).
Qed.

(** The blocks above a block form a chain. *)
Lemma below_linear a b d : below sh a d -> below sh b d -> below sh a b \/ below sh b a.
Proof using Hf.
  intros Ha. revert b. apply (rtc_ind_r (R:=link sh) (fun d => forall b, below sh b d -> below sh a b \/ below sh b a) a);
    [by right| |done].
  intros x y Hax Hxy IH b Hb. apply rtc_inv_r in Hb as [->|(z & Hb & Hz)].
  - left. by eapply rtc_r.
  - rewrite (link_inj z x y) in Hb by done. by apply IH.
Qed.

(** The subtrees of two children have no block in common. *)
Lemma siblings_disjoint n c c' d :
  link sh n c -> link sh n c' -> below sh c d -> below sh c' d -> c = c'.
Proof using Hf.
  assert (forall c c', link sh n c -> link sh n c' -> below sh c c' -> c = c') as Hs.
  { intros x y Hx Hy Hxy. apply rtc_inv_r in Hxy as [?|(z & Hxz & Hz)]; [done|].
    rewrite (link_inj z n y) in Hxz by done. apply below_slot in Hxz as [->|Hlt].
    - apply (f_slot _ Hf) in Hx. lia.
    - apply (f_slot _ Hf) in Hx. lia. }
  intros H1 H2 H3 H4. destruct (below_linear c c' d); [done..|by apply Hs|symmetry; by apply Hs].
Qed.

(** ** Induction from the leaves and from the root *)
Definition rank (P : SlotHashKey -> Prop) `{!forall x, Decision (P x)} : nat :=
  length (filter (fun x => P x.1) (map_to_list sh)).

Lemma rank_lt (P R : SlotHashKey -> Prop) `{!forall x, Decision (P x), !forall x, Decision (R x)} k :
  is_Some (sh !! k) -> (forall x, P x -> R x) -> ~ P k -> R k -> (rank P < rank R)%nat.
Proof.
  intros [v Hk] HPR HP HR. unfold rank.
  apply elem_of_map_to_list in Hk. apply list_elem_of_split in Hk as (l1 & l2 & ->).
  rewrite !filter_app, !length_app, !filter_cons. simpl.
  rewrite (decide_False (P:=P k)), (decide_True (P:=R k)) by done. simpl.
  assert (forall l : list (SlotHashKey * (option SlotHashKey * list SlotHashKey)),
    (length (filter (fun x => P x.1) l) <= length (filter (fun x => R x.1) l))%nat) as Hm.
  { induction l as [|x l IH]; [done|]. rewrite !filter_cons.
    pose proof (HPR x.1). repeat case_decide; simpl; tauto || lia. }
  pose proof (Hm l1). pose proof (Hm l2). lia.
Qed.

Lemma link_rank n c : link sh n c -> (rank (fun x => (c.1 < x.1)%Z) < rank (fun x => (n.1 < x.1)%Z))%nat.
Proof using Hf.
  intros Hl. pose proof (f_slot _ Hf _ _ Hl) as Hlt.
  apply (rank_lt _ _ c); [by apply (link_dom sh n c)|intros; lia|lia|done].
Qed.

Lemma link_depth n c : link sh n c -> (rank (fun x => (x.1 < n.1)%Z) < rank (fun x => (x.1 < c.1)%Z))%nat.
Proof using Hf.
  intros Hl. pose proof (f_slot _ Hf _ _ Hl) as Hlt.
  apply (rank_lt _ _ n); [by apply (link_dom sh n c)|intros; lia|lia|done].
Qed.

Lemma leaves_ind (P : SlotHashKey -> Prop) :
  (forall k, (forall c, link sh k c -> P c) -> P k) -> forall k, P k.
Proof using Hf.
  intros IH k. remember (rank (fun x => k.1 < x.1)) as r eqn:Hr. revert k Hr.
  induction r as [r IHr] using lt_wf_ind. intros k ->. apply IH. intros c Hc.
  eapply IHr; [by apply link_rank|done].
Qed.

Lemma root_ind (P : SlotHashKey -> Prop) :
  (forall k, (forall n, link sh n k -> P n) -> P k) -> forall k, P k.
Proof using Hf.
  intros IH k. remember (rank (fun x => x.1 < k.1)) as r eqn:Hr. revert k Hr.
  induction r as [r IHr] using lt_wf_ind. intros k ->. apply IH. intros c Hc.
  eapply IHr; [by apply link_depth|done].
Qed.

(** ** The blocks of a subtree *)
Lemma subtrees_list (f g : SlotHashKey -> Z) n cs :
  NoDup cs -> (forall c, c ∈ cs -> link sh n c) ->
  (forall c, c ∈ cs -> exists l, NoDup l /\ (forall d, d ∈ l <-> below sh c d) /\ g c = zsum f l) ->
  exists l, NoDup l /\ (forall d, d ∈ l <-> exists c, c ∈ cs /\ below sh c d) /\
    zsum g cs = zsum f l.
Proof using Hf.
  induction 1 as [|c cs Hc Hcs IH]; intros Hl Hg.
  { exists []. split; [constructor|]. split; [set_solver|done]. }
  destruct IH as (l & Hnd & Hd & Hs).
  { intros; apply Hl; by right. }
  { intros; apply Hg; by right. }
  destruct (Hg c) as (lc & Hndc & Hdc & Hsc); [left|]. exists (lc ++ l). split; [|split].
  - apply NoDup_app. split; [done|]. split; [|done]. intros d Hd1%Hdc (c' & Hc' & Hd2)%Hd.
    apply Hc. by rewrite (siblings_disjoint n c c' d) by (auto; apply Hl; set_solver).
  - intros d. rewrite elem_of_app, Hd, Hdc. setoid_rewrite elem_of_cons. naive_solver.
  - rewrite zsum_app. simpl. lia.
Qed.

(** A quantity that adds up along the links is the sum over the subtree. *)
Lemma subtree_list (f g : SlotHashKey -> Z) k :
  is_Some (sh !! k) ->
  (forall n p cs, below sh k n -> sh !! n = Some (p, cs) -> g n = f n + zsum g cs) ->
  exists l, NoDup l /\ (forall d, d ∈ l <-> below sh k d) /\ g k = zsum f l.
Proof using Hf.
  revert k. refine (leaves_ind _ _). intros k IH [[p cs] Hk] Hg.
  assert (forall c, c ∈ cs -> link sh k c) as Hl by (intros; by exists p, cs).
  destruct (subtrees_list f g k cs) as (l & Hnd & Hd & Hs).
  - eapply sorted_NoDup, (f_sorted _ Hf), Hk.
  - done.
  - intros c Hc. apply IH; [auto|by apply (link_dom sh k c); auto|].
    intros n p' cs' Hn. apply Hg. eapply rtc_l; [by apply Hl|done].
  - exists (k :: l). split; [|split].
    + constructor; [|done]. intros (c & Hc & Hck)%Hd. pose proof (f_slot _ Hf k c (Hl c Hc)).
      apply below_slot in Hck as [->|]; lia.
    + intros d. rewrite elem_of_cons, Hd. split.
      * intros [->|(c & Hc & Hcd)]; [done|]. eapply rtc_l; [by apply Hl|done].
      * intros Hkd. apply rtc_inv in Hkd as [->|(c & (p' & cs' & Hk' & Hc) & Hcd)]; [by left|].
        right. rewrite Hk in Hk'. injection Hk' as <- <-. eauto.
    + simpl. rewrite <-Hs. by eapply Hg.
Qed.
End forest.

(** ** Trees *)
Section tree.
Context (sh : Shape) (root : SlotHashKey) (Ht : tree sh root).

Lemma tree_below k : is_Some (sh !! k) -> below sh root k.
Proof using Ht.
  pose proof (t_forest _ _ Ht) as Hf. revert k. refine (root_ind sh Hf _ _).
  intros k IH [[p cs] Hk]. destruct (decide (k = root)) as [->|Hne]; [done|].
  destruct (t_linked _ _ Ht k p cs Hk Hne) as (n & -> & Hl).
  eapply rtc_r; [|done]. apply IH; [done|]. by apply (link_dom sh n k).
Qed.

Lemma root_top n : ~ link sh n root.
Proof using Ht.
  intros Hl. destruct (t_root _ _ Ht) as [cs Hr].
  destruct (f_parent _ (t_forest _ _ Ht) _ _ Hl) as [cs' Hr']. congruence.
Qed.

(** In a tree the parent of a block is the block it is a child of. *)
Lemma tree_parent k p cs : sh !! k = Some (Some p, cs) -> link sh p k.
Proof using Ht.
  intros Hk. destruct (decide (k = root)) as [->|Hne].
  - destruct (t_root _ _ Ht) as [cs' Hr]. congruence.
  - by destruct (t_linked _ _ Ht k _ cs Hk Hne) as (n & [= <-] & Hl).
Qed.

Lemma tree_parent_None k cs : sh !! k = Some (None, cs) -> k = root.
Proof using Ht.
  intros Hk. destruct (decide (k = root)) as [->|Hne]; [done|].
  by destruct (t_linked _ _ Ht k _ cs Hk Hne) as (n & [=] & Hl).
Qed.
End tree.
