(* ===== verification/ForkAggregate.v ===== *)
(** * Aggregation

    What [aggregate_slot] computes for a block from its children, and that processing a batch
    of update operations from the greatest block to the smallest leaves every block
    aggregated. *)

From S2P Require Import Prelude OrdMap ForkChoice ForkTree.
Local Open Scope Z_scope.

(** ** The greatest element of a list *)
Section greatest.
Context {A : Type} `{EqDecision A} (R : A -> A -> Prop).

Definition greatest (l : list A) (c : A) : Prop :=
  c ∈ l /\ forall c', c' ∈ l -> c' <> c -> R c c'.

(** [v] is the value of the greatest element, or [d] if there is none. *)
Definition chosen {B} (val : A -> B) (d : B) (l : list A) (v : B) : Prop :=
  (l = [] /\ v = d) \/ exists c, greatest l c /\ v = val c.

Lemma greatest_snoc_old l c x : greatest l c -> R c x -> greatest (l ++ [x]) c.
Proof. intros [Hc HR] Hx. split; [set_solver|]. set_solver. Qed.

Lemma greatest_snoc_new `{!Transitive R} l c x : greatest l c -> R x c -> greatest (l ++ [x]) x.
Proof.
  intros [Hc HR] Hx. split; [set_solver|]. intros y Hy Hne.
  assert (y ∈ l) as Hyl by set_solver. destruct (decide (y = c)) as [->|Hyc]; [done|].
  etrans; [exact Hx|]. by apply HR.
Qed.

Lemma greatest_unique l c c' :
  (forall x y, R x y -> R y x -> False) -> greatest l c -> greatest l c' -> c = c'.
Proof.
  intros Has [Hc HR] [Hc' HR']. destruct (decide (c = c')) as [|Hne]; [done|].
  exfalso. eapply Has; [apply (HR c')|apply (HR' c)]; auto.
Qed.

Lemma greatest_ext (R' : A -> A -> Prop) l c :
  (forall x y, x ∈ l -> y ∈ l -> R x y -> R' x y) -> greatest l c ->
  c ∈ l /\ forall c', c' ∈ l -> c' <> c -> R' c c'.
Proof. intros HR' [Hc HR]. split; [done|]. auto. Qed.
End greatest.

(** ** The values of the children *)
Section values.
Context (m : gmap SlotHashKey ForkInfo).

Definition sub_at (k : SlotHashKey) : Z := from_option fi_stake_voted_subtree 0 (m !! k).
Definition at_at (k : SlotHashKey) : Z := from_option fi_stake_voted_at 0 (m !! k).
Definition height_at (k : SlotHashKey) : nat := from_option fi_height 0%nat (m !! k).
Definition best_at (k : SlotHashKey) : SlotHashKey := from_option fi_best_slot k (m !! k).
Definition deepest_at (k : SlotHashKey) : SlotHashKey := from_option fi_deepest_slot k (m !! k).
Definition cand (k : SlotHashKey) : bool := from_option fi_is_candidate false (m !! k).
Definition dup_at (k : SlotHashKey) : bool := from_option fi_is_duplicate_confirmed false (m !! k).

(** The order of the children by weight, lower blocks first on ties, and by height. *)
Definition heavier (c c' : SlotHashKey) : Prop :=
  sub_at c' < sub_at c \/ (sub_at c = sub_at c' /\ olt c c').
Definition deeper (c c' : SlotHashKey) : Prop :=
  (height_at c' < height_at c)%nat \/ (height_at c = height_at c' /\ heavier c c').

#[export] Instance heavier_dec c c' : Decision (heavier c c').
Proof. unfold heavier. apply _. Defined.
#[export] Instance heavier_trans : Transitive heavier.
Proof.
  intros a b c [H1|[H1 H1']] [H2|[H2 H2']]; unfold heavier; [left; lia..|].
  right. split; [lia|by etrans].
Qed.
#[export] Instance deeper_trans : Transitive deeper.
Proof.
  intros a b c [H1|[H1 H1']] [H2|[H2 H2']]; unfold deeper; [left; lia..|].
  right. split; [lia|by etrans].
Qed.
Lemma heavier_total c c' : c <> c' -> heavier c c' \/ heavier c' c.
Proof.
  intros Hne. unfold heavier. destruct (olt_total c c') as [?|[?|?]]; [|done|];
    destruct (Z.lt_total (sub_at c) (sub_at c')) as [?|[?|?]]; auto.
Qed.
Lemma deeper_total c c' : c <> c' -> deeper c c' \/ deeper c' c.
Proof.
  intros Hne. unfold deeper. destruct (heavier_total c c' Hne);
    destruct (lt_eq_lt_dec (height_at c) (height_at c')) as [[?|?]|?]; auto.
Qed.
Lemma heavier_asym c c' : heavier c c' -> heavier c' c -> False.
Proof.
  intros [H1|[H1 H1']] [H2|[H2 H2']]; try lia. by apply (olt_not_sym c c').
Qed.
Lemma deeper_asym c c' : deeper c c' -> deeper c' c -> False.
Proof. intros [H1|[H1 H1']] [H2|[H2 H2']]; try lia. by apply (heavier_asym c c'). Qed.

(** A block's entry agrees with those of its children. *)
Record agg_ok (k : SlotHashKey) (fi : ForkInfo) : Prop := {
  ao_stake : fi_stake_voted_subtree fi = fi_stake_voted_at fi + zsum sub_at (fi_children fi);
  ao_best : fi_is_candidate fi = true ->
    chosen heavier best_at k (filter (fun c => cand c = true) (fi_children fi)) (fi_best_slot fi);
  ao_deep : chosen deeper (fun c => (deepest_at c, height_at c + 1)%nat) (k, 1%nat)
    (fi_children fi) (fi_deepest_slot fi, fi_height fi);
  ao_dup c : c ∈ fi_children fi -> dup_at c = true -> fi_is_duplicate_confirmed fi = true;
  ao_best_below : below (shape m) k (fi_best_slot fi);
  ao_deep_below : below (shape m) k (fi_deepest_slot fi)
}.

(** ** The loop of [aggregate_slot] *)

(** The running values, after the children [l]. *)
Record running (k : SlotHashKey) (fi : ForkInfo) (l : list SlotHashKey) (acc : Aggregate) : Prop := {
  rn_stake : ag_stake_voted_subtree acc = fi_stake_voted_at fi + zsum sub_at l;
  rn_best :
    (filter (fun c => cand c = true) l = [] /\ ag_best_child acc = k /\ ag_best_slot acc = k) \/
    (greatest heavier (filter (fun c => cand c = true) l) (ag_best_child acc) /\
     ag_best_child acc <> k /\ ag_best_child_stake acc = sub_at (ag_best_child acc) /\
     ag_best_slot acc = best_at (ag_best_child acc));
  rn_deep :
    (l = [] /\ ag_deepest_child acc = k /\ ag_deepest_slot acc = k /\
     ag_deepest_child_height acc = 0%nat) \/
    (greatest deeper l (ag_deepest_child acc) /\ ag_deepest_child acc <> k /\
     ag_deepest_child_stake acc = sub_at (ag_deepest_child acc) /\
     ag_deepest_child_height acc = height_at (ag_deepest_child acc) /\
     ag_deepest_slot acc = deepest_at (ag_deepest_child acc));
  rn_dup : ag_is_duplicate_confirmed acc = existsb dup_at l
}.

Lemma u64_add_Ok a b : a + b <= u64_max -> u64_add a b = Ok (a + b).
Proof. intros H. unfold u64_add, checked_add. by destruct (Z.leb_spec (a + b) u64_max); [|lia]. Qed.
Lemma u64_sub_Ok a b : b <= a -> u64_sub a b = Ok (a - b).
Proof. intros H. unfold u64_sub, checked_sub. by destruct (Z.leb_spec b a); [|lia]. Qed.

Lemma takes_best_spec k acc c ci :
  m !! c = Some ci -> c <> ag_best_child acc ->
  ag_best_child acc <> k -> ag_best_child_stake acc = sub_at (ag_best_child acc) ->
  takes_best k acc c ci = true <-> cand c = true /\ heavier c (ag_best_child acc).
Proof.
  intros Hc Hne Hk Hs. unfold takes_best, heavier. rewrite bool_decide_false by done.
  assert (cand c = fi_is_candidate ci) as -> by (unfold cand; by rewrite Hc).
  assert (fi_stake_voted_subtree ci = sub_at c) as -> by (unfold sub_at; by rewrite Hc).
  rewrite Hs, andb_true_iff, orb_false_l, orb_true_iff, andb_true_iff, Z.ltb_lt, Z.eqb_eq, oltb_lt.
  done.
Qed.

Lemma takes_deepest_spec k acc c ci :
  m !! c = Some ci -> ag_deepest_child acc <> k ->
  ag_deepest_child_stake acc = sub_at (ag_deepest_child acc) ->
  ag_deepest_child_height acc = height_at (ag_deepest_child acc) ->
  takes_deepest k acc c ci = true <-> deeper c (ag_deepest_child acc).
Proof.
  intros Hc Hk Hs Hh. unfold takes_deepest, deeper, heavier, olt.
  rewrite bool_decide_false by done. rewrite Hs, Hh.
  assert (fi_stake_voted_subtree ci = sub_at c) as -> by (unfold sub_at; by rewrite Hc).
  assert (fi_height ci = height_at c) as -> by (unfold height_at; by rewrite Hc).
  set (x := ag_deepest_child acc).
  destruct (Nat.compare_spec (height_at c) (height_at x)), (Z.compare_spec (sub_at c) (sub_at x)),
    (cmp c x); naive_solver lia.
Qed.

Lemma running_best k fi l acc c ci best :
  m !! c = Some ci -> c <> k -> c ∉ l -> running k fi l acc -> best = takes_best k acc c ci ->
  let bc := if best then c else ag_best_child acc in
  let bs := if best then fi_best_slot ci else ag_best_slot acc in
  let st := if best then fi_stake_voted_subtree ci else ag_best_child_stake acc in
  (filter (fun c => cand c = true) (l ++ [c]) = [] /\ bc = k /\ bs = k) \/
  (greatest heavier (filter (fun c => cand c = true) (l ++ [c])) bc /\ bc <> k /\
   st = sub_at bc /\ bs = best_at bc).
Proof.
  intros Hc Hk Hl Hr ->. rewrite filter_app, filter_cons, filter_nil.
  assert (sub_at c = fi_stake_voted_subtree ci) as Hs by (unfold sub_at; by rewrite Hc).
  assert (best_at c = fi_best_slot ci) as Hb by (unfold best_at; by rewrite Hc).
  assert (cand c = fi_is_candidate ci) as Hcc by (unfold cand; by rewrite Hc).
  destruct (rn_best _ _ _ _ Hr) as [(-> & Hbc & Hbs)|(Hg & Hne & Hst & Hbs)].
  - unfold takes_best. rewrite bool_decide_true by done. simpl. rewrite andb_true_r.
    rewrite <-Hcc. destruct (cand c) eqn:E; simpl; [right|by left].
    split; [|done]. split; [left|]. intros c' ->%list_elem_of_singleton. done.
  - right. assert (c <> ag_best_child acc) as Hnc.
    { intros ->. apply Hl. by destruct Hg as [[_ ?]%list_elem_of_filter _]. }
    pose proof (takes_best_spec k acc c ci Hc Hnc Hne Hst) as Hspec.
    destruct (takes_best k acc c ci).
    + destruct Hspec as [[Hcand Hh] _]; [done|]. rewrite Hcand, decide_True by done.
      split; [|done]. by eapply greatest_snoc_new; [apply _| |].
    + destruct (cand c) eqn:E; [|by rewrite decide_False, app_nil_r].
      rewrite decide_True by done. split; [|done]. apply greatest_snoc_old; [done|].
      destruct (heavier_total c (ag_best_child acc) Hnc) as [Hh|]; [|done]. naive_solver.
Qed.

Lemma running_deep k fi l acc c ci deep :
  m !! c = Some ci -> c <> k -> c ∉ l -> running k fi l acc -> deep = takes_deepest k acc c ci ->
  let dc := if deep then c else ag_deepest_child acc in
  greatest deeper (l ++ [c]) dc /\ dc <> k /\
  (if deep then fi_stake_voted_subtree ci else ag_deepest_child_stake acc) = sub_at dc /\
  (if deep then fi_height ci else ag_deepest_child_height acc) = height_at dc /\
  (if deep then fi_deepest_slot ci else ag_deepest_slot acc) = deepest_at dc.
Proof.
  intros Hc Hk Hl Hr ->.
  assert (sub_at c = fi_stake_voted_subtree ci) as Hs by (unfold sub_at; by rewrite Hc).
  assert (deepest_at c = fi_deepest_slot ci) as Hb by (unfold deepest_at; by rewrite Hc).
  assert (height_at c = fi_height ci) as Hh by (unfold height_at; by rewrite Hc).
  destruct (rn_deep _ _ _ _ Hr) as [(-> & Hdc & Hds & Hdh)|(Hg & Hne & Hst & Hht & Hds)].
  - unfold takes_deepest. rewrite bool_decide_true by done. simpl.
    split; [|done]. split; [left|]. intros c' ->%list_elem_of_singleton. done.
  - pose proof (takes_deepest_spec k acc c ci Hc Hne Hst Hht) as Hspec.
    destruct (takes_deepest k acc c ci).
    + split; [|done]. eapply greatest_snoc_new; [apply _|done|by apply Hspec].
    + split; [|done]. apply greatest_snoc_old; [done|].
      destruct (deeper_total c (ag_deepest_child acc)) as [Hd|]; [|naive_solver|done].
      intros ->. apply Hl. by destruct Hg.
Qed.

Lemma aggregate_child_ok k fi l acc c :
  is_Some (m !! c) -> c <> k -> c ∉ l -> running k fi l acc ->
  fi_stake_voted_at fi + zsum sub_at (l ++ [c]) <= u64_max ->
  exists acc', aggregate_child m k acc c = Ok acc' /\ running k fi (l ++ [c]) acc'.
Proof.
  intros [ci Hc] Hk Hl Hr Hu. unfold aggregate_child. rewrite Hc. cbn [expect mbind outcome_bind].
  assert (ag_stake_voted_subtree acc + fi_stake_voted_subtree ci =
    fi_stake_voted_at fi + zsum sub_at (l ++ [c])) as Hs.
  { rewrite (rn_stake _ _ _ _ Hr), zsum_app. simpl. unfold sub_at at 3. rewrite Hc. simpl. lia. }
  rewrite u64_add_Ok by lia. cbn [mbind outcome_bind]. eexists. split; [reflexivity|].
  split; cbn -[takes_best takes_deepest].
  - done.
  - by eapply running_best.
  - right. by eapply running_deep.
  - rewrite (rn_dup _ _ _ _ Hr), existsb_app. simpl. rewrite orb_false_r.
    unfold dup_at at 3. by rewrite Hc.
Qed.

Lemma aggregate_children_ok k fi l acc cs :
  (forall c, c ∈ cs -> is_Some (m !! c) /\ c <> k /\ 0 <= sub_at c) -> NoDup (l ++ cs) ->
  running k fi l acc -> fi_stake_voted_at fi + zsum sub_at (l ++ cs) <= u64_max ->
  exists acc', aggregate_children m k acc cs = Ok acc' /\ running k fi (l ++ cs) acc'.
Proof.
  revert l acc. induction cs as [|c cs IH]; intros l acc Hcs Hnd Hr Hu.
  - exists acc. by rewrite app_nil_r.
  - destruct (Hcs c) as (Hc & Hk & Hp); [left|].
    assert (0 <= zsum sub_at cs) by (apply zsum_nonneg; intros; apply Hcs; by right).
    rewrite zsum_app in Hu. simpl in Hu.
    destruct (aggregate_child_ok k fi l acc c) as (acc1 & H1 & Hr1); [done|done| |done| |].
    { apply NoDup_app in Hnd as (_ & Hd & _). intros Hl. apply (Hd c Hl). left. }
    { rewrite zsum_app. simpl. lia. }
    cbn [aggregate_children]. rewrite H1. cbn [mbind outcome_bind].
    replace (l ++ c :: cs) with ((l ++ [c]) ++ cs) in * by (by rewrite <-app_assoc).
    apply IH; [|done|done|].
    + intros; apply Hcs; by right.
    + rewrite !zsum_app. simpl. lia.
Qed.
End values.

(** ** Locality: a block's aggregation depends on its children only *)
Definition view (fi : ForkInfo) : Z * nat * SlotHashKey * SlotHashKey * bool * bool :=
  (fi_stake_voted_subtree fi, fi_height fi, fi_best_slot fi, fi_deepest_slot fi,
   fi_is_candidate fi, fi_is_duplicate_confirmed fi).

Section locality.
Context (m m' : gmap SlotHashKey ForkInfo).

Lemma view_values k :
  view <$> m !! k = view <$> m' !! k ->
  sub_at m k = sub_at m' k /\ height_at m k = height_at m' k /\ best_at m k = best_at m' k /\
  deepest_at m k = deepest_at m' k /\ cand m k = cand m' k /\ dup_at m k = dup_at m' k.
Proof.
  unfold sub_at, height_at, best_at, deepest_at, cand, dup_at, view.
  destruct (m !! k), (m' !! k); simpl; intros [=]; repeat split; congruence.
Qed.

Lemma chosen_ext {A B} `{EqDecision A} (R R' : A -> A -> Prop) (val val' : A -> B) d l v :
  (forall x y, x ∈ l -> y ∈ l -> R x y -> R' x y) -> (forall x, x ∈ l -> val x = val' x) ->
  chosen R val d l v -> chosen R' val' d l v.
Proof.
  intros HR Hv [H|(c & [Hc Hg] & ->)]; [by left|]. right. exists c. split; [|by apply Hv].
  split; [done|]. auto.
Qed.

Lemma agg_ok_local k fi :
  (forall c, c ∈ fi_children fi -> view <$> m !! c = view <$> m' !! c) ->
  (forall d, below (shape m) k d -> below (shape m') k d) ->
  agg_ok m k fi -> agg_ok m' k fi.
Proof.
  intros Hv Hb H.
  assert (forall x y, x ∈ fi_children fi -> y ∈ fi_children fi -> heavier m x y -> heavier m' x y) as Hh.
  { intros x y Hx%Hv%view_values Hy%Hv%view_values. unfold heavier. intuition congruence || lia. }
  split.
  - rewrite (ao_stake _ _ _ H). f_equal. apply zsum_ext. intros c Hc%Hv%view_values. tauto.
  - intros Hc. rewrite (filter_ext_in _ (fun c => cand m c = true)).
    2: { intros c Hc'%Hv%view_values. intuition congruence. }
    eapply chosen_ext; [| |by apply (ao_best _ _ _ H)].
    + intros x y [_ Hx]%list_elem_of_filter [_ Hy]%list_elem_of_filter. by apply Hh.
    + intros x [_ Hx%Hv%view_values]%list_elem_of_filter. tauto.
  - eapply chosen_ext; [| |by apply (ao_deep _ _ _ H)].
    + intros x y Hx Hy. unfold deeper. pose proof (Hh x y Hx Hy).
      apply Hv, view_values in Hx as (_ & -> & _), Hy as (_ & -> & _). naive_solver.
    + intros x Hx%Hv%view_values. simpl. intuition congruence.
  - intros c Hc. pose proof (ao_dup _ _ _ H c Hc) as Hd.
    apply Hv, view_values in Hc as (_ & _ & _ & _ & _ & E). by rewrite <-E.
  - apply Hb, H.
  - apply Hb, H.
Qed.
End locality.

(** ** Validity: the latest invalid ancestor and the duplicate confirmation *)
Definition validity (fi : ForkInfo) : option Slot * bool :=
  (fi_latest_invalid_ancestor fi, fi_is_duplicate_confirmed fi).

Lemma shape_insert m k fi fi' :
  m !! k = Some fi -> links fi' = links fi -> shape (<[k := fi']> m) = shape m.
Proof.
  intros Hk Hl. unfold shape. rewrite fmap_insert, Hl, <-fmap_insert. by rewrite insert_id.
Qed.

Lemma forest_children m k fi c :
  forest (shape m) -> m !! k = Some fi -> c ∈ fi_children fi ->
  link (shape m) k c /\ is_Some (m !! c) /\ c <> k /\ k.1 < c.1.
Proof.
  intros Hf Hk Hc. assert (link (shape m) k c) as Hl by (apply link_Some; eauto).
  split; [done|]. pose proof (f_slot _ Hf _ _ Hl). split.
  - destruct (link_dom _ _ _ Hf Hl) as [_ Hd]. rewrite shape_lookup in Hd. by apply fmap_is_Some in Hd.
  - split; [intros ->; lia|done].
Qed.

Lemma forest_NoDup m k fi : forest (shape m) -> m !! k = Some fi -> NoDup (fi_children fi).
Proof. intros Hf Hk. eapply sorted_NoDup, (f_sorted _ Hf). by apply shape_Some. Qed.

Lemma running_agg_ok m k fi acc :
  running m k fi (fi_children fi) acc ->
  (forall c, c ∈ fi_children fi -> exists ci, m !! c = Some ci /\ agg_ok m c ci /\
    link (shape m) k c) ->
  agg_ok m k (aggregated fi acc).
Proof.
  intros Hr Hch.
  assert (fi_children (aggregated fi acc) = fi_children fi) as Hcs
    by (unfold aggregated; by destruct (ag_is_duplicate_confirmed acc)).
  assert (fi_stake_voted_at (aggregated fi acc) = fi_stake_voted_at fi) as Hat
    by (unfold aggregated; by destruct (ag_is_duplicate_confirmed acc)).
  split; rewrite ?Hcs, ?Hat; cbn [aggregated fi_stake_voted_subtree fi_best_slot fi_deepest_slot
    fi_height set_deepest set_best_slot set_stakes].
  - apply (rn_stake _ _ _ _ _ Hr).
  - intros _. destruct (rn_best _ _ _ _ _ Hr) as [(-> & _ & ->)|(Hg & _ & _ & ->)]; [by left|].
    right. eauto.
  - destruct (rn_deep _ _ _ _ _ Hr) as [(-> & _ & -> & ->)|(Hg & _ & _ & -> & ->)]; [by left|].
    right. eauto.
  - intros c Hc Hd. unfold aggregated. assert (ag_is_duplicate_confirmed acc = true) as ->; [|done].
    rewrite (rn_dup _ _ _ _ _ Hr). apply existsb_exists. exists c. split; [|done].
    by apply list_elem_of_In.
  - destruct (rn_best _ _ _ _ _ Hr) as [(_ & _ & ->)|([Hg _] & _ & _ & ->)]; [done|].
    apply list_elem_of_filter in Hg as [_ Hg]. destruct (Hch _ Hg) as (ci & Hci & Hao & Hl).
    eapply rtc_l; [exact Hl|]. unfold best_at. rewrite Hci. apply Hao.
  - destruct (rn_deep _ _ _ _ _ Hr) as [(_ & _ & -> & _)|([Hg _] & _ & _ & _ & ->)]; [done|].
    destruct (Hch _ Hg) as (ci & Hci & Hao & Hl).
    eapply rtc_l; [exact Hl|]. unfold deepest_at. rewrite Hci. apply Hao.
Qed.

Lemma aggregate_slot_ok fc k fi :
  forest (shape (fork_infos fc)) -> fork_infos fc !! k = Some fi ->
  (forall c ci, c ∈ fi_children fi -> fork_infos fc !! c = Some ci ->
    agg_ok (fork_infos fc) c ci /\ 0 <= fi_stake_voted_subtree ci) ->
  fi_stake_voted_at fi + zsum (sub_at (fork_infos fc)) (fi_children fi) <= u64_max ->
  exists fi', aggregate_slot fc k = Ok (set_fork_infos fc (<[k := fi']> (fork_infos fc))) /\
    links fi' = links fi /\ fi_stake_voted_at fi' = fi_stake_voted_at fi /\
    agg_ok (<[k := fi']> (fork_infos fc)) k fi' /\
    validity fi' = if existsb (dup_at (fork_infos fc)) (fi_children fi) then (None, true)
                   else validity fi.
Proof.
  intros Hf Hk Hcs Hu. set (m := fork_infos fc) in *.
  assert (forall c, c ∈ fi_children fi -> exists ci, m !! c = Some ci /\ agg_ok m c ci /\
    0 <= sub_at m c /\ c <> k /\ link (shape m) k c) as Hch.
  { intros c Hc. destruct (forest_children m k fi c) as (Hl & [ci Hci] & Hne & _); [done..|].
    exists ci. destruct (Hcs c ci Hc Hci). unfold sub_at. by rewrite Hci. }
  destruct (aggregate_children_ok m k fi [] (aggregate_start k fi) (fi_children fi))
    as (acc & Ha & Hr).
  { intros c (ci & Hci & _ & Hp & Hne & _)%Hch. eauto. }
  { by eapply forest_NoDup. }
  { split; simpl; [lia|by left|by left|done]. }
  { done. }
  exists (aggregated fi acc). unfold aggregate_slot. fold m. rewrite Hk, Ha. cbn [mbind outcome_bind].
  simpl in Hr. split; [|split; [|split; [|split]]].
  - unfold update_info. fold m. do 2 f_equal. apply map_eq. intros x. rewrite lookup_alter.
    destruct (decide (k = x)) as [->|]; [by rewrite Hk, lookup_insert_eq|by rewrite lookup_insert_ne].
  - unfold aggregated. by destruct (ag_is_duplicate_confirmed acc).
  - unfold aggregated. by destruct (ag_is_duplicate_confirmed acc).
  - eapply (agg_ok_local m).
    { intros c Hc. rewrite lookup_insert_ne; [done|]. intros ->.
      destruct (Hch c) as (_ & _ & _ & _ & ? & _); [|done].
      revert Hc. unfold aggregated. by destruct (ag_is_duplicate_confirmed acc). }
    { intros d. erewrite shape_insert; [done|done|]. unfold aggregated.
      by destruct (ag_is_duplicate_confirmed acc). }
    apply running_agg_ok; [done|]. intros c (ci & Hci & Hao & _ & _ & Hl)%Hch. eauto.
  - rewrite <-(rn_dup _ _ _ _ _ Hr). unfold aggregated. by destruct (ag_is_duplicate_confirmed acc).
Qed.
