(* ===== verification/ForkProcess.v ===== *)
(** * Processing a batch of update operations

    [process_update_operations] applies the operations from the greatest block to the
    smallest. If every block that changes has an aggregation pending for its parent, no
    operation panics and every block is aggregated in the end. *)

From S2P Require Import Prelude OrdMap ForkChoice ForkTree ForkAggregate.
Local Open Scope Z_scope.

Abbreviation Entry := ((SlotHashKey * UpdateLabel) * UpdateOperation)%type.

Definition op_label (op : UpdateOperation) : UpdateLabel :=
  match op with
  | OpAdd _ => LAdd
  | OpMarkValid s => LMarkValid s
  | OpMarkInvalid s => LMarkInvalid s
  | OpSubtract _ => LSubtract
  | OpAggregate => LAggregate
  end.
Definition is_mark (op : UpdateOperation) : bool :=
  match op with OpMarkValid _ | OpMarkInvalid _ => true | _ => false end.

(** What an operation adds to the stake of its block. *)
Definition amount (op : UpdateOperation) : Z :=
  match op with OpAdd s => s | OpSubtract s => - s | _ => 0 end.
Definition added (op : UpdateOperation) : Z := match op with OpAdd s => s | _ => 0 end.
Definition delta (L : list Entry) (k : SlotHashKey) : Z :=
  zsum (fun e => if decide (e.1.1 = k) then amount e.2 else 0) L.
Definition adds (L : list Entry) : Z := zsum (fun e => added e.2) L.
Definition pending (L : list Entry) (k : SlotHashKey) : Prop := (k, LAggregate) ∈ L.*1.
#[export] Instance pending_dec L k : Decision (pending L k).
Proof. unfold pending. apply _. Defined.

(** What an operation does to the validity of its block. *)
Definition mark (op : UpdateOperation) (k : SlotHashKey) (v : option Slot * bool)
    : option Slot * bool :=
  match op with
  | OpMarkValid s =>
    (match v.1 with Some a => if a <=? s then None else Some a | None => None end,
     if k.1 =? s then true else v.2)
  | OpMarkInvalid s =>
    (match v.1 with Some a => if a <? s then Some s else Some a | None => Some s end, v.2)
  | _ => v
  end.
Definition marks (L : list Entry) (k : SlotHashKey) (v : option Slot * bool) : option Slot * bool :=
  foldl (fun v e => if decide (e.1.1 = k) then mark e.2 k v else v) v L.

(** The validity of a block after a batch, if that of its children is [V]. *)
Definition final (V : SlotHashKey -> option Slot * bool) (L : list Entry) (k : SlotHashKey)
    (fi : ForkInfo) : option Slot * bool :=
  if bool_decide (pending L k) && existsb (fun c => (V c).2) (fi_children fi) then (None, true)
  else marks L k (validity fi).

(** A batch, greatest entry first, that can be processed on the blocks [m] and leaves them
    with the validity [V]. *)
Record batch (V : SlotHashKey -> option Slot * bool) (m : gmap SlotHashKey ForkInfo)
    (L : list Entry) : Prop := {
  ba_sorted : StronglySorted (flip olt) L.*1;
  ba_label e : e ∈ L -> e.1.2 = op_label e.2;
  ba_pos e : e ∈ L -> 0 <= added e.2;
  ba_closed e n : e ∈ L -> link (shape m) n e.1.1 -> pending L n;
  ba_mark e : e ∈ L -> is_mark e.2 = true -> pending L e.1.1;
  ba_sub k l s fi : ((k, l), OpSubtract s) ∈ L -> m !! k = Some fi ->
    0 <= s <= fi_stake_voted_at fi;
  ba_inv k l s fi : ((k, l), OpMarkInvalid s) ∈ L -> m !! k = Some fi ->
    fi_is_duplicate_confirmed fi = false;
  ba_agg k fi : m !! k = Some fi -> agg_ok m k fi \/ pending L k;
  ba_at k fi : m !! k = Some fi -> 0 <= fi_stake_voted_at fi <= fi_stake_voted_subtree fi /\
    fi_stake_voted_subtree fi + adds L <= u64_max;
  ba_tot : msum (fun _ => fi_stake_voted_at) m + adds L <= u64_max;
  ba_val k fi : m !! k = Some fi -> final V L k fi = V k
}.

Lemma olt_pair (k k' : SlotHashKey) (l l' : UpdateLabel) :
  olt (k, l) (k', l') <-> olt k k' \/ (k = k' /\ olt l l').
Proof.
  unfold olt at 1, cmp at 1. simpl. unfold pair_cmp at 1. cbn [fst snd].
  destruct (cmp k k') eqn:E.
  - apply cmp_eq in E as ->. unfold olt at 2. split; [auto|].
    intros [H|[_ H]]; [by apply olt_irrefl in H|done].
  - split; [by left|done].
  - apply cmp_gt in E. split; [done|]. intros [H|[-> _]].
    + by apply olt_not_sym in H.
    + by apply olt_irrefl in E.
Qed.

Lemma olt_aggregate l : ~ olt l LAggregate.
Proof. destruct l; unfold olt; by vm_compute. Qed.

Lemma olt_subtract l : ~ olt LSubtract l.
Proof. destruct l; unfold olt; by vm_compute. Qed.

Lemma existsb_ext_in {A} (f g : A -> bool) (l : list A) :
  (forall x, x ∈ l -> f x = g x) -> existsb f l = existsb g l.
Proof.
  induction l as [|x l IH]; intros H; [done|]. simpl. rewrite (H x) by left.
  rewrite IH; [done|]. intros y Hy. apply H. by right.
Qed.

Lemma marks_done L x v : (forall e, e ∈ L -> e.1.1 <> x) -> marks L x v = v.
Proof.
  unfold marks. revert v. induction L as [|e L IH]; intros v H; [done|]. simpl.
  rewrite decide_False by (apply H; left). apply IH. intros e' He'. apply H. by right.
Qed.

Section step.
Context (V : SlotHashKey -> option Slot * bool) (m : gmap SlotHashKey ForkInfo).
Context (k : SlotHashKey) (l : UpdateLabel) (op : UpdateOperation) (L : list Entry).
Context (Hf : forest (shape m)) (Hb : batch V m ((k, l, op) :: L)).

Lemma head_max e : e ∈ L -> olt e.1 (k, l).
Proof using Hb.
  intros He. pose proof (ba_sorted _ _ _ Hb) as Hs. rewrite fmap_cons in Hs.
  apply StronglySorted_inv in Hs as [_ Hs]. rewrite Forall_forall in Hs.
  apply Hs. by apply list_elem_of_fmap_2.
Qed.

Lemma pending_tail x : pending ((k, l, op) :: L) x -> (x, LAggregate) <> (k, l) -> pending L x.
Proof using. unfold pending. rewrite fmap_cons. simpl. by intros [?|?]%elem_of_cons. Qed.

Lemma tail_closed e n : e ∈ L -> link (shape m) n e.1.1 -> pending L n.
Proof using Hf Hb.
  intros He Hl. apply pending_tail; [apply (ba_closed _ _ _ Hb e n); [by right|done]|].
  intros Heq. apply head_max in He. rewrite <-Heq in He. destruct e as [[k' l'] op']. simpl in *.
  apply (f_slot _ Hf), olt_slot in Hl. apply olt_pair in He as [He|[-> _]].
  - by apply olt_not_sym in He.
  - by apply olt_irrefl in Hl.
Qed.

Lemma tail_mark e : e ∈ L -> is_mark e.2 = true -> pending L e.1.1.
Proof using Hb.
  intros He Hm. apply pending_tail; [apply (ba_mark _ _ _ Hb e); [by right|done]|].
  intros Heq. apply head_max in He. rewrite <-Heq in He. destruct e as [[k' l'] op'].
  apply olt_pair in He as [He|[_ He]]; [by apply olt_irrefl in He|by apply olt_aggregate in He].
Qed.

Lemma marks_cons x v : marks ((k, l, op) :: L) x v = marks L x (if decide (k = x) then mark op x v else v).
Proof using. done. Qed.

Lemma final_tail x fi : x <> k -> final V ((k, l, op) :: L) x fi = final V L x fi.
Proof using.
  intros Hx. unfold final. rewrite marks_cons, decide_False by done.
  rewrite (bool_decide_ext _ (pending L x)); [done|].
  unfold pending. rewrite fmap_cons, elem_of_cons. naive_solver.
Qed.

(** No operation is left for a block above the head of the batch. *)
Lemma above_done x : olt k x -> ~ pending ((k, l, op) :: L) x /\ forall e, e ∈ L -> e.1.1 <> x.
Proof using Hb.
  intros Hx. assert (forall e, e ∈ L -> e.1.1 <> x) as Hne.
  { intros e He ->%eq_sym. apply head_max in He. destruct e as [[k' l'] op'].
    apply olt_pair in He as [He|[-> _]]; [by apply olt_not_sym in He|by apply olt_irrefl in Hx]. }
  split; [|done]. unfold pending. rewrite fmap_cons, elem_of_cons. intros [[= -> _]|He].
  - by apply olt_irrefl in Hx.
  - apply list_elem_of_fmap in He as (e & He & Hin). apply (Hne e Hin). by rewrite <-He.
Qed.

Lemma agg_step fi fi' x gi :
  m !! k = Some fi -> links fi' = links fi -> x <> k -> m !! x = Some gi ->
  agg_ok (<[k := fi']> m) x gi \/ pending L x.
Proof using Hb.
  intros Hk Hlk Hx Hg.
  assert (pending ((k, l, op) :: L) x -> pending L x) as Htl.
  { intros H. apply pending_tail; [done|]. by intros [= ? _]. }
  destruct (ba_agg _ _ _ Hb x gi Hg) as [Hao|Hp]; [|by auto].
  destruct (decide (k ∈ fi_children gi)) as [Hin|Hni].
  - right. apply Htl, (ba_closed _ _ _ Hb (k, l, op)); [left|]. apply link_Some. eauto.
  - left. eapply agg_ok_local; [| |done].
    + intros c Hc. rewrite lookup_insert_ne; [done|]. by intros ->.
    + intros d. by rewrite (shape_insert m k fi fi').
Qed.

(** The head writes the entry [fi'] of its block, and the rest remains a batch. *)
Lemma batch_step fi fi' :
  m !! k = Some fi -> links fi' = links fi ->
  fi_stake_voted_at fi' = fi_stake_voted_at fi + amount op ->
  0 <= fi_stake_voted_at fi' <= fi_stake_voted_subtree fi' ->
  fi_stake_voted_subtree fi' + adds L <= u64_max ->
  agg_ok (<[k := fi']> m) k fi' \/ pending L k ->
  final V L k fi' = V k ->
  (fi_is_duplicate_confirmed fi' = fi_is_duplicate_confirmed fi \/
   forall l' s, ((k, l'), OpMarkInvalid s) ∉ L) ->
  batch V (<[k := fi']> m) L.
Proof using Hf Hb.
  intros Hk Hlk Hat Hpos Hsub Hagg Hfin Hdup.
  assert (shape (<[k := fi']> m) = shape m) as Hsh by (by apply (shape_insert m k fi)).
  pose proof (ba_pos _ _ _ Hb (k, l, op) ltac:(left)) as Hp. simpl in Hp.
  assert (adds ((k, l, op) :: L) = added op + adds L) as Ha by done.
  assert (amount op <= added op) as Hao.
  { destruct op; simpl in *; try lia. destruct (ba_sub _ _ _ Hb k l stake fi ltac:(left) Hk). lia. }
  split.
  - pose proof (ba_sorted _ _ _ Hb) as Hs. by apply StronglySorted_inv in Hs as [Hs _].
  - intros e He. apply (ba_label _ _ _ Hb). by right.
  - intros e He. apply (ba_pos _ _ _ Hb). by right.
  - intros e n He. rewrite Hsh. by apply tail_closed.
  - apply tail_mark.
  - intros x l' s gi Hin. destruct (decide (x = k)) as [->|Hx].
    + intros _. exfalso. pose proof (ba_label _ _ _ Hb (k, l', OpSubtract s) ltac:(by right)) as Hl'.
      simpl in Hl'. subst l'. apply head_max, olt_pair in Hin as [H|[_ H]].
      * by apply olt_irrefl in H.
      * by apply olt_subtract in H.
    + rewrite lookup_insert_ne by done. apply (ba_sub _ _ _ Hb x l'). by right.
  - intros x l' s gi Hin. destruct (decide (x = k)) as [->|Hx].
    + rewrite lookup_insert_eq. intros [= <-]. destruct Hdup as [->|Hno].
      * eapply (ba_inv _ _ _ Hb k l'); [by right|done].
      * by apply Hno in Hin.
    + rewrite lookup_insert_ne by done. apply (ba_inv _ _ _ Hb x l' s). by right.
  - intros x gi. destruct (decide (x = k)) as [->|Hx].
    + rewrite lookup_insert_eq. by intros [= <-].
    + rewrite lookup_insert_ne by done. intros Hg. by eapply agg_step.
  - intros x gi. destruct (decide (x = k)) as [->|Hx].
    + rewrite lookup_insert_eq. by intros [= <-].
    + rewrite lookup_insert_ne by done. intros Hg.
      destruct (ba_at _ _ _ Hb x gi Hg) as [? ?]. split; [done|lia].
  - rewrite (msum_update _ m k fi) by done. pose proof (ba_tot _ _ _ Hb). lia.
  - intros x gi. destruct (decide (x = k)) as [->|Hx].
    + rewrite lookup_insert_eq. by intros [= <-].
    + rewrite lookup_insert_ne by done. intros Hg. rewrite <-(final_tail x gi Hx).
      by apply (ba_val _ _ _ Hb).
Qed.

Lemma adds_tail : adds L <= adds ((k, l, op) :: L).
Proof using Hb.
  pose proof (ba_pos _ _ _ Hb (k, l, op) ltac:(left)) as Hp. simpl in Hp.
  change (adds ((k, l, op) :: L)) with (added op + adds L). lia.
Qed.

(** The head is for a block that is not in the tree, and is skipped. *)
Lemma batch_skip : m !! k = None -> batch V m L.
Proof using Hf Hb.
  intros Hk. pose proof adds_tail as Ha.
  assert (forall x gi, m !! x = Some gi -> x <> k) as Hne by (intros x gi Hx ->; congruence).
  split.
  - pose proof (ba_sorted _ _ _ Hb) as Hs. by apply StronglySorted_inv in Hs as [Hs _].
  - intros e He. apply (ba_label _ _ _ Hb). by right.
  - intros e He. apply (ba_pos _ _ _ Hb). by right.
  - apply tail_closed.
  - apply tail_mark.
  - intros x l' s gi Hin. apply (ba_sub _ _ _ Hb x l'). by right.
  - intros x l' s gi Hin. apply (ba_inv _ _ _ Hb x l' s). by right.
  - intros x gi Hg. destruct (ba_agg _ _ _ Hb x gi Hg) as [?|Hp]; [by left|right].
    apply pending_tail; [done|]. intros [= ? _]. by eapply Hne.
  - intros x gi Hg. destruct (ba_at _ _ _ Hb x gi Hg) as [? ?]. split; [done|lia].
  - pose proof (ba_tot _ _ _ Hb). lia.
  - intros x gi Hg. rewrite <-(final_tail x gi) by (by eapply Hne). by apply (ba_val _ _ _ Hb).
Qed.

(** Operations other than [Aggregate] keep their block's pending aggregation. *)
Lemma pending_keep : l <> LAggregate -> pending ((k, l, op) :: L) k -> pending L k.
Proof using. intros Hl H. apply pending_tail; [done|]. intros Heq. apply Hl. congruence. Qed.

Lemma final_step fi fi' :
  m !! k = Some fi -> links fi' = links fi -> l <> LAggregate ->
  validity fi' = mark op k (validity fi) -> final V L k fi' = V k.
Proof using Hb.
  intros Hk Hlk Hl Hv. rewrite <-(ba_val _ _ _ Hb k fi Hk). unfold final.
  rewrite marks_cons, decide_True, Hv by done. injection Hlk as _ ->.
  rewrite (bool_decide_ext (pending L k) (pending ((k, l, op) :: L) k)); [done|].
  split; [|by apply pending_keep]. unfold pending. rewrite fmap_cons. by right.
Qed.

Lemma agg_ok_restake fi a b d :
  m !! k = Some fi -> agg_ok m k fi -> a = fi_stake_voted_at fi + d ->
  b = fi_stake_voted_subtree fi + d ->
  agg_ok (<[k := set_stakes fi a b]> m) k (set_stakes fi a b).
Proof using Hf.
  intros Hk H -> ->. eapply (agg_ok_local m).
  - intros c Hc. rewrite lookup_insert_ne; [done|]. intros <-.
    destruct (forest_children m k fi k) as (_ & _ & ? & _); done.
  - intros x. by rewrite (shape_insert m k fi).
  - destruct H as [H1 H2 H3 H4 H5 H6]. split; simpl; [lia|done..].
Qed.
End step.

(** ** The operations of a batch succeed *)
Lemma update_info_insert fc k fi f :
  fork_infos fc !! k = Some fi ->
  update_info fc k f = set_fork_infos fc (<[k := f fi]> (fork_infos fc)).
Proof.
  intros Hk. unfold update_info. f_equal. apply map_eq. intros x. rewrite lookup_alter.
  destruct (decide (k = x)) as [->|]; [by rewrite Hk, lookup_insert_eq|by rewrite lookup_insert_ne].
Qed.

Section operation.
Context (V : SlotHashKey -> option Slot * bool) (fc : HeaviestSubtreeForkChoice).
Context (k : SlotHashKey) (l : UpdateLabel) (op : UpdateOperation) (L : list Entry) (fi : ForkInfo).
Abbreviation m := (fork_infos fc).
Context (Hf : forest (shape m)) (Hb : batch V m ((k, l, op) :: L)) (Hk : m !! k = Some fi).

(** The head is executed, on the entry [fi]. *)
Definition executed : Prop :=
  exists fi', process_operation fc k op = Ok (set_fork_infos fc (<[k := fi']> m)) /\
    links fi' = links fi /\ fi_stake_voted_at fi' = fi_stake_voted_at fi + amount op /\
    batch V (<[k := fi']> m) L.

Lemma add_executed s : op = OpAdd s -> executed.
Proof using Hf Hb Hk.
  unfold executed. intros ->. destruct (ba_at _ _ _ Hb k fi Hk) as [Hpos Hu].
  pose proof (ba_pos _ _ _ Hb (k, l, OpAdd s) ltac:(left)) as Hs. simpl in Hs.
  pose proof (ba_label _ _ _ Hb (k, l, OpAdd s) ltac:(left)) as Hl. simpl in Hl.
  change (adds ((k, l, OpAdd s) :: L)) with (s + adds L) in Hu.
  assert (0 <= adds L).
  { apply zsum_nonneg. intros e He. apply (ba_pos _ _ _ Hb). by right. }
  eexists. cbn [process_operation]. unfold add_slot_stake. rewrite Hk.
  rewrite !u64_add_Ok by lia. cbn [mbind outcome_bind]. rewrite (update_info_insert fc k fi) by done.
  split; [reflexivity|]. split; [done|]. split; [simpl; lia|].
  eapply (batch_step V m k l (OpAdd s) L Hf Hb fi); simpl; [done|done|lia|lia|lia| | |by left].
  - destruct (ba_agg _ _ _ Hb k fi Hk) as [Hao|Hp].
    + left. by eapply (agg_ok_restake m k Hf fi _ _ s).
    + right. eapply pending_keep; [|exact Hp]. by rewrite Hl.
  - by eapply (final_step V m k l (OpAdd s) L Hb fi); [done|done|rewrite Hl|].
Qed.

Lemma subtract_executed s : op = OpSubtract s -> executed.
Proof using Hf Hb Hk.
  unfold executed. intros ->. destruct (ba_at _ _ _ Hb k fi Hk) as [Hpos Hu].
  destruct (ba_sub _ _ _ Hb k l s fi ltac:(left) Hk) as [Hs Hs'].
  pose proof (ba_label _ _ _ Hb (k, l, OpSubtract s) ltac:(left)) as Hl. simpl in Hl.
  pose proof (adds_tail _ _ _ _ _ _ Hb) as Ha.
  eexists. cbn [process_operation]. unfold subtract_slot_stake. rewrite Hk.
  rewrite !u64_sub_Ok by lia. cbn [mbind outcome_bind]. rewrite (update_info_insert fc k fi) by done.
  split; [reflexivity|]. split; [done|]. split; [simpl; lia|].
  eapply (batch_step V m k l (OpSubtract s) L Hf Hb fi); simpl; [done|done|lia|lia|lia| | |by left].
  - destruct (ba_agg _ _ _ Hb k fi Hk) as [Hao|Hp].
    + left. eapply (agg_ok_restake m k Hf fi _ _ (- s)); [done|done|lia|lia].
    + right. eapply pending_keep; [|exact Hp]. by rewrite Hl.
  - by eapply (final_step V m k l (OpSubtract s) L Hb fi); [done|done|rewrite Hl|].
Qed.

(** Marks write the validity only; the block's aggregation follows. *)
Lemma mark_executed v :
  is_mark op = true -> v = mark op k (validity fi) ->
  process_operation fc k op = Ok (set_fork_infos fc (<[k := set_validity fi v.1 v.2]> m)) ->
  (v.2 = fi_is_duplicate_confirmed fi \/ forall l' s, ((k, l'), OpMarkInvalid s) ∉ L) ->
  executed.
Proof using Hf Hb Hk.
  intros Hm Hv He Hdup. eexists. split; [exact He|].
  pose proof (ba_label _ _ _ Hb (k, l, op) ltac:(left)) as Hl. simpl in Hl.
  assert (l <> LAggregate) as Hla by (rewrite Hl; by destruct op).
  assert (amount op = 0) as Ham by (by destruct op).
  destruct (ba_at _ _ _ Hb k fi Hk) as [Hpos Hu]. pose proof (adds_tail _ _ _ _ _ _ Hb) as Ha.
  split; [done|]. split; [simpl; lia|].
  eapply (batch_step V m k l op L Hf Hb fi); simpl; [done|done|lia|lia|lia| | |done].
  - right. eapply pending_keep; [done|]. by apply (ba_mark _ _ _ Hb (k, l, op)); [left|].
  - eapply (final_step V m k l op L Hb fi); [done|done|done|].
    rewrite <-Hv. by destruct v.
Qed.

Lemma mark_valid_executed s : op = OpMarkValid s -> executed.
Proof using Hf Hb Hk.
  intros Hop. apply (mark_executed (mark op k (validity fi))); [by rewrite Hop|done| |].
  - rewrite Hop. cbn [process_operation]. unfold mark_fork_valid.
    rewrite (update_info_insert fc k fi) by done. do 2 f_equal.
    unfold update_with_newly_valid_ancestor. destruct fi as [a b h be de p cs lia' d]. simpl.
    f_equal. destruct lia' as [x|]; simpl; [|by destruct (k.1 =? s)].
    destruct (x <=? s); by destruct (k.1 =? s).
  - right. intros l' s' Hin. pose proof (ba_label _ _ _ Hb _ ltac:(by right)) as Hl'.
    pose proof (ba_label _ _ _ Hb (k, l, op) ltac:(left)) as Hl. rewrite Hop in Hl. simpl in Hl.
    apply (head_max _ _ _ _ _ _ Hb) in Hin as Hlt. simpl in Hl'.
    rewrite Hl, Hl' in Hlt. apply olt_pair in Hlt as [H|[_ H]]; [by apply olt_irrefl in H|done].
Qed.

Lemma mark_invalid_executed s : op = OpMarkInvalid s -> executed.
Proof using Hf Hb Hk.
  intros Hop. apply (mark_executed (mark op k (validity fi))); [by rewrite Hop|done| |].
  - pose proof Hb as Hb'. rewrite Hop in Hb'.
    pose proof (ba_inv _ _ _ Hb' k l s fi ltac:(left) Hk) as Hd.
    rewrite Hop. cbn [process_operation]. unfold mark_fork_invalid. rewrite Hk.
    unfold update_with_newly_invalid_ancestor. rewrite Hd. cbn [negb ensure mbind outcome_bind].
    rewrite (update_info_insert fc k fi) by done. do 3 f_equal. destruct fi as [a b h be de p cs lia' d].
    simpl in *. rewrite Hd. destruct lia' as [x|]; [|done]. by destruct (x <? s).
  - left. by rewrite Hop.
Qed.

(** The blocks above the head's have been aggregated, so the sums over their subtrees are
    those of the stakes voted at the blocks. *)
Lemma children_sum :
  l = LAggregate ->
  fi_stake_voted_at fi + zsum (sub_at m) (fi_children fi) <= msum (fun _ => fi_stake_voted_at) m.
Proof using Hf Hb Hk.
  intros Hl. assert (forall x, k.1 < x.1 -> forall gi, m !! x = Some gi -> agg_ok m x gi) as Hup.
  { intros x Hx gi Hg. destruct (ba_agg _ _ _ Hb x gi Hg) as [|Hp]; [done|].
    by apply (above_done _ _ _ _ _ _ Hb x (olt_slot _ _ Hx)) in Hp. }
  assert (forall c, c ∈ fi_children fi -> link (shape m) k c) as Hlk
    by (intros c Hc; by eapply forest_children).
  destruct (subtrees_list (shape m) Hf (at_at m) (sub_at m) k (fi_children fi))
    as (ls & Hnd & Hd & Hs); [by eapply forest_NoDup|done| |].
  - intros c Hc. pose proof (f_slot _ Hf _ _ (Hlk c Hc)) as Hlt.
    apply (subtree_list (shape m) Hf).
    + by apply (link_dom _ _ _ Hf (Hlk c Hc)).
    + intros n p cs Hn Hs. rewrite shape_lookup in Hs. destruct (m !! n) as [gi|] eqn:Hg; [|done].
      injection Hs as _ <-. unfold sub_at at 1, at_at. rewrite Hg. apply (Hup n); [|done].
      apply (below_slot _ Hf) in Hn as [->|]; lia.
  - rewrite Hs. pose proof (msum_part (fun _ => fi_stake_voted_at) m (k :: ls)) as Hp.
    simpl in Hp. rewrite Hk in Hp. simpl in Hp. unfold at_at. apply Hp.
    + intros x gi Hg. by apply (ba_at _ _ _ Hb x gi).
    + constructor; [|done]. intros (c & Hc & Hck)%Hd. pose proof (f_slot _ Hf _ _ (Hlk c Hc)).
      apply (below_slot _ Hf) in Hck as [->|]; lia.
Qed.

(** The children's validity is final, so the block's is after its aggregation. *)
Lemma aggregate_final fi' :
  l = LAggregate -> op = OpAggregate -> (forall e, e ∈ L -> e.1.1 <> k) ->
  validity fi' = (if existsb (dup_at m) (fi_children fi) then (None, true) else validity fi) ->
  final V L k fi' = V k.
Proof using Hf Hb Hk.
  intros Hl Hop Hdone Hv. rewrite <-(ba_val _ _ _ Hb k fi Hk). unfold final at 1.
  rewrite marks_done, bool_decide_false, Hv by (done || by intros (e & He & Hin)%list_elem_of_fmap;
    apply (Hdone e Hin); rewrite <-He).
  unfold final. rewrite bool_decide_true by (rewrite Hl; left).
  rewrite marks_cons, decide_True, Hop, marks_done by done. cbn [andb mark].
  assert (forall c, c ∈ fi_children fi -> (V c).2 = dup_at m c) as HV; [|by rewrite (existsb_ext_in _ _ _ HV)].
  intros c Hc. destruct (forest_children m k fi c Hf Hk Hc) as (_ & [ci Hci] & Hne & Hlt).
  destruct (above_done _ _ _ _ _ _ Hb c (olt_slot _ _ Hlt)) as [Hnp Hne'].
  rewrite <-(ba_val _ _ _ Hb c ci Hci). unfold final. rewrite bool_decide_false by done.
  rewrite marks_cons, decide_False, marks_done by done. unfold dup_at. by rewrite Hci.
Qed.

Lemma aggregate_executed : op = OpAggregate -> executed.
Proof using Hf Hb Hk.
  intros Hop. pose proof (ba_label _ _ _ Hb (k, l, op) ltac:(left)) as Hl.
  rewrite Hop in Hl. simpl in Hl. pose proof (children_sum Hl) as Hsum.
  pose proof (ba_tot _ _ _ Hb) as Ht. pose proof (adds_tail _ _ _ _ _ _ Hb) as Ha.
  assert (0 <= adds L).
  { apply zsum_nonneg. intros e He. apply (ba_pos _ _ _ Hb). by right. }
  assert (forall c, c ∈ fi_children fi -> olt k c) as Hlt.
  { intros c Hc. by apply olt_slot, (forest_children m k fi c). }
  destruct (aggregate_slot_ok fc k fi Hf Hk) as (fi' & He & Hlk & Hat & Hao & Hv); [|lia|].
  { intros c ci Hc Hci. split.
    - destruct (ba_agg _ _ _ Hb c ci Hci) as [|Hp]; [done|].
      by apply (above_done _ _ _ _ _ _ Hb c (Hlt c Hc)) in Hp.
    - destruct (ba_at _ _ _ Hb c ci Hci). lia. }
  exists fi'. rewrite Hop. cbn [process_operation amount]. split; [done|]. split; [done|].
  split; [lia|].
  assert (forall e, e ∈ L -> e.1.1 <> k) as Hdone.
  { intros e He' Heq. apply (head_max _ _ _ _ _ _ Hb) in He'. destruct e as [[k' l'] op'].
    simpl in *. apply olt_pair in He' as [H'|[_ H']].
    - rewrite Heq in H'. by apply olt_irrefl in H'.
    - rewrite Hl in H'. by apply olt_aggregate in H'. }
  assert (fi_stake_voted_subtree fi' = fi_stake_voted_at fi + zsum (sub_at m) (fi_children fi)) as Hsub.
  { rewrite (ao_stake _ _ _ Hao), Hat. injection Hlk as _ ->. f_equal. apply zsum_ext.
    intros c Hc. unfold sub_at. rewrite lookup_insert_ne; [done|]. intros Heq.
    apply (olt_irrefl c). rewrite <-Heq at 1. by apply Hlt. }
  eapply (batch_step V m k l op L Hf Hb fi); [done|done|rewrite Hop; simpl; lia|..|by left| |].
  - assert (0 <= zsum (sub_at m) (fi_children fi)); [|destruct (ba_at _ _ _ Hb k fi Hk); lia].
    apply zsum_nonneg. intros c Hc. unfold sub_at. destruct (m !! c) as [ci|] eqn:Hci; simpl; [|lia].
    destruct (ba_at _ _ _ Hb c ci Hci). lia.
  - lia.
  - by apply aggregate_final.
  - right. intros l' s Hin. by apply Hdone in Hin.
Qed.
End operation.

Lemma process_operation_ok V fc k l op L :
  forest (shape (fork_infos fc)) -> batch V (fork_infos fc) ((k, l, op) :: L) ->
  exists m', process_operation fc k op = Ok (set_fork_infos fc m') /\
    shape m' = shape (fork_infos fc) /\ batch V m' L /\
    (forall x, x <> k -> m' !! x = fork_infos fc !! x) /\
    forall x, is_Some (m' !! x) ->
      at_at m' x = at_at (fork_infos fc) x + if decide (k = x) then amount op else 0.
Proof.
  intros Hf Hb. destruct (fork_infos fc !! k) as [fi|] eqn:Hk.
  - assert (executed V fc k op L fi) as (fi' & He & Hlk & Hat & Hb').
    { destruct op.
      - by eapply add_executed.
      - by eapply mark_valid_executed.
      - by eapply mark_invalid_executed.
      - by eapply subtract_executed.
      - by eapply aggregate_executed. }
    eexists. split; [exact He|]. split; [by eapply shape_insert|]. split; [done|].
    split; [intros x Hx; by rewrite lookup_insert_ne|]. intros x _. unfold at_at. destruct (decide (k = x)) as [->|Hne].
    + rewrite lookup_insert_eq, Hk. done.
    + rewrite lookup_insert_ne by done. lia.
  - exists (fork_infos fc). split; [|split; [done|split; [by eapply batch_skip|split; [done|]]]].
    + destruct op; cbn [process_operation]; unfold mark_fork_valid, mark_fork_invalid,
        subtract_slot_stake, add_slot_stake, aggregate_slot; rewrite ?Hk; try by destruct fc.
      unfold update_info. do 2 f_equal. apply map_eq. intros x. rewrite lookup_alter.
      destruct (decide (k = x)) as [<-|]; [by rewrite Hk|done].
    + intros x [gi Hg]. rewrite decide_False; [lia|]. intros <-. congruence.
Qed.

(** A batch is processed without panic. Afterwards every block is aggregated, the stakes voted
    at the blocks have changed by what the batch adds, and the validity is [V]. *)
Lemma process_list_ok V fc L :
  forest (shape (fork_infos fc)) -> batch V (fork_infos fc) L ->
  exists m', process_list fc L = Ok (set_fork_infos fc m') /\
    shape m' = shape (fork_infos fc) /\
    (forall x, (forall e, e ∈ L -> e.1.1 <> x) -> m' !! x = fork_infos fc !! x) /\
    (forall k fi, m' !! k = Some fi -> agg_ok m' k fi /\ validity fi = V k /\
      0 <= fi_stake_voted_at fi /\ fi_stake_voted_at fi = at_at (fork_infos fc) k + delta L k).
Proof.
  revert fc. induction L as [|[[k l] op] L IH]; intros fc Hf Hb.
  - exists (fork_infos fc). split; [by destruct fc|]. split; [done|]. split; [done|].
    intros k fi Hk. split; [|split; [|split]].
    + destruct (ba_agg _ _ _ Hb k fi Hk) as [|Hp]; [done|]. by apply elem_of_nil in Hp.
    + by rewrite <-(ba_val _ _ _ Hb k fi Hk).
    + by apply (ba_at _ _ _ Hb k fi).
    + unfold at_at. rewrite Hk. unfold delta. simpl. lia.
  - destruct (process_operation_ok V fc k l op L Hf Hb) as (m1 & He & Hsh & Hb1 & Hsame & Hat).
    destruct (IH (set_fork_infos fc m1)) as (m' & He' & Hsh' & Hsame' & Hall); [by simpl; rewrite Hsh|done|].
    exists m'. cbn [process_list]. rewrite He. cbn [mbind outcome_bind]. rewrite He'.
    split; [done|]. split; [by rewrite Hsh'|]. split.
    { intros x Hx. rewrite Hsame' by (intros e He1; apply Hx; by right). apply Hsame.
      intros ->. by apply (Hx (k, l, op)); [left|]. }
    intros x fi Hx.
    destruct (Hall x fi Hx) as (H1 & H2 & H3 & H4). split; [done|]. split; [done|]. split; [done|].
    rewrite H4. simpl. rewrite Hat; [change (delta ((k, l, op) :: L) x) with
      ((if decide (k = x) then amount op else 0) + delta L x); lia|].
    apply shape_Some in Hx. rewrite Hsh' in Hx. cbn [fork_infos set_fork_infos] in Hx.
    rewrite shape_lookup in Hx. destruct (m1 !! x); [eauto|done].
Qed.
