(* ===== verification/ForkInvariant.v ===== *)
(** * The invariant of the fork choice

    The blocks form a tree, every block is aggregated, the stake voted at a block is that of
    the validators whose latest vote it is, and invalid blocks have invalid descendants. *)

From S2P Require Import Prelude OrdMap ForkChoice ForkTree ForkAggregate ForkProcess.
Local Open Scope Z_scope.

(** The order of latest invalid ancestors along a fork. *)
Definition lia_le (a b : option Slot) : Prop :=
  match a, b with
  | None, _ => True
  | Some a, Some b => a <= b
  | Some _, None => False
  end.

Record valid_ok (m : gmap SlotHashKey ForkInfo) : Prop := {
  vo_slot k fi s : m !! k = Some fi -> fi_latest_invalid_ancestor fi = Some s -> s <= k.1;
  vo_dup k fi : m !! k = Some fi -> fi_is_duplicate_confirmed fi = true ->
    fi_latest_invalid_ancestor fi = None;
  vo_mono n ni k ki : link (shape m) n k -> m !! n = Some ni -> m !! k = Some ki ->
    lia_le (fi_latest_invalid_ancestor ni) (fi_latest_invalid_ancestor ki)
}.

Section stakes.
Context (get_epoch : Slot -> Epoch) (epoch_stakes : gmap Epoch (gmap Pubkey Z)).
Abbreviation stake := (stake_update get_epoch epoch_stakes).

(** The stakes are [u64]s whose sum, over the epochs known, is at most half of [u64::MAX]. *)
Definition total_stake : Z := msum (fun _ stakes => msum (fun _ s => s) stakes) epoch_stakes.
Definition stakes_ok : Prop :=
  (forall e stakes pk s, epoch_stakes !! e = Some stakes -> stakes !! pk = Some s -> 0 <= s) /\
  2 * total_stake <= u64_max.

(** The stake of the validators whose latest vote is [k]. *)
Definition tally (votes : gmap Pubkey SlotHashKey) (k : SlotHashKey) : Z :=
  msum (fun pk v => if decide (v = k) then stake pk k.1 else 0) votes.

Record fc_ok (fc : HeaviestSubtreeForkChoice) : Prop := {
  ok_tree : tree (shape (fork_infos fc)) (tree_root fc);
  ok_agg k fi : fork_infos fc !! k = Some fi -> agg_ok (fork_infos fc) k fi;
  ok_at k fi : fork_infos fc !! k = Some fi -> fi_stake_voted_at fi = tally (latest_votes fc) k;
  ok_valid : valid_ok (fork_infos fc)
}.

(** The most a validator can weigh. *)
Definition cap (pk : Pubkey) : Z := msum (fun _ stakes => vote_account_stake stakes pk) epoch_stakes.

Section bounds.
Context (Hs : stakes_ok).

Lemma account_nonneg e stakes pk :
  epoch_stakes !! e = Some stakes -> 0 <= vote_account_stake stakes pk.
Proof using Hs.
  intros He. unfold vote_account_stake. destruct (stakes !! pk) eqn:E; [|done].
  by eapply (proj1 Hs).
Qed.

Lemma stake_cap pk s : 0 <= stake pk s <= cap pk.
Proof using Hs.
  unfold stake_update, cap. destruct (epoch_stakes !! get_epoch s) as [stakes|] eqn:E.
  - split; [by eapply account_nonneg|].
    apply (msum_elem (fun _ stakes => vote_account_stake stakes pk) _ (get_epoch s)); [|done].
    intros. by eapply account_nonneg.
  - split; [done|]. apply msum_nonneg. intros. by eapply account_nonneg.
Qed.

Lemma cap_total (l : list Pubkey) : NoDup l -> zsum cap l <= total_stake.
Proof using Hs.
  intros Hl. unfold cap, total_stake, msum at 1. rewrite zsum_swap. unfold msum at 1.
  apply zsum_le. intros [e stakes] He%elem_of_map_to_list. simpl.
  pose proof (msum_part (fun _ s => s) stakes l) as Hp. unfold vote_account_stake.
  etrans; [|apply Hp]; [|by intros; eapply (proj1 Hs)|done].
  apply zsum_le. intros pk _. by destruct (stakes !! pk).
Qed.

(** The stake voted at the blocks of a list is that of the validators who voted for one. *)
Lemma tally_list votes (l : list SlotHashKey) :
  NoDup l ->
  zsum (tally votes) l = msum (fun pk v => if decide (v ∈ l) then stake pk v.1 else 0) votes.
Proof using.
  intros Hl. unfold tally, msum. rewrite zsum_swap. apply zsum_ext. intros [pk v] _. simpl.
  rewrite <-(zsum_single v (stake pk v.1) l Hl). apply zsum_ext. intros k _.
  by case_decide; [subst|].
Qed.

Lemma tally_total votes (l : list SlotHashKey) : NoDup l -> zsum (tally votes) l <= total_stake.
Proof using Hs.
  intros Hl. rewrite tally_list by done.
  assert (NoDup (map_to_list votes).*1) as Hnd by apply NoDup_fst_map_to_list.
  etrans; [|apply (cap_total _ Hnd)]. rewrite zsum_fmap. apply zsum_le. intros [pk v] _. simpl.
  pose proof (stake_cap pk v.1). case_decide; lia.
Qed.

Lemma tally_nonneg votes k : 0 <= tally votes k.
Proof using Hs.
  apply msum_nonneg. intros pk v _. pose proof (stake_cap pk k.1). case_decide; lia.
Qed.

Section state.
Context (fc : HeaviestSubtreeForkChoice) (Hok : fc_ok fc).
Abbreviation m := (fork_infos fc).

Lemma ok_forest : forest (shape m).
Proof using Hok. apply (t_forest _ _ (ok_tree _ Hok)). Qed.

(** The stake of a subtree is that of the validators whose latest vote is in it. *)
Lemma subtree_votes k fi :
  m !! k = Some fi -> exists l, NoDup l /\ (forall d, d ∈ l <-> below (shape m) k d) /\
    fi_stake_voted_subtree fi = zsum (tally (latest_votes fc)) l.
Proof using Hok.
  intros Hk. destruct (subtree_list (shape m) ok_forest (tally (latest_votes fc)) (sub_at m) k)
    as (l & Hnd & Hd & Hsum).
  - rewrite shape_lookup, Hk. eauto.
  - intros n p cs _ Hn. rewrite shape_lookup in Hn. destruct (m !! n) as [gi|] eqn:Hg; [|done].
    injection Hn as _ <-. unfold sub_at at 1. rewrite Hg. simpl.
    rewrite (ao_stake _ _ _ (ok_agg _ Hok _ _ Hg)). by rewrite (ok_at _ Hok _ _ Hg).
  - exists l. split; [done|]. split; [done|]. rewrite <-Hsum. unfold sub_at. by rewrite Hk.
Qed.

Lemma sub_bounds k fi :
  m !! k = Some fi -> 0 <= fi_stake_voted_at fi <= fi_stake_voted_subtree fi /\
    fi_stake_voted_subtree fi <= total_stake.
Proof using Hs Hok.
  intros Hk. pose proof (ok_at _ Hok k fi Hk) as Hat. pose proof (tally_nonneg (latest_votes fc) k).
  destruct (subtree_votes k fi Hk) as (l & Hnd & Hd & Hsum).
  pose proof (tally_total (latest_votes fc) l Hnd).
  assert (tally (latest_votes fc) k <= zsum (tally (latest_votes fc)) l); [|lia].
  apply zsum_elem; [intros; apply tally_nonneg|]. by apply Hd.
Qed.

Lemma at_total : msum (fun _ => fi_stake_voted_at) m <= total_stake.
Proof using Hs Hok.
  etrans; [|apply (tally_total (latest_votes fc) (map_to_list m).*1), NoDup_fst_map_to_list].
  rewrite zsum_fmap. apply zsum_le. intros [k fi] Hk%elem_of_map_to_list. simpl.
  by rewrite (ok_at _ Hok k fi Hk).
Qed.
End state.
End bounds.
End stakes.
