(* ===== verification/ForkVotes.v ===== *)
(** * Adding votes

    The operations that [generate_update_operations] collects, and the correctness of
    [add_votes]. *)

From S2P Require Import Prelude OrdMap ForkChoice ForkTree ForkAggregate ForkProcess ForkInvariant.
Local Open Scope Z_scope.

(** ** The ancestors of a block *)
Inductive apath (sh : Shape) : SlotHashKey -> list SlotHashKey -> Prop :=
| ap_nil k : (forall n, ~ link sh n k) -> apath sh k []
| ap_cons k p l : link sh p k -> apath sh p l -> apath sh k (p :: l).

Lemma ancestors_from_path m root fuel k :
  tree (shape m) root -> (rank (shape m) (fun x => (x.1 < k.1)%Z) <= fuel)%nat ->
  apath (shape m) k (ancestors_from fuel m k).
Proof.
  intros Ht. revert k. induction fuel as [|fuel IH]; intros k Hr.
  - constructor. intros n Hl. apply (link_depth _ (t_forest _ _ Ht)) in Hl. lia.
  - cbn [ancestors_from]. destruct (m !! k) as [fi|] eqn:Hk; cbn [mbind option_bind].
    + destruct (fi_parent fi) as [p|] eqn:Hp.
      * assert (link (shape m) p k) as Hl.
        { apply (tree_parent _ _ Ht k p (fi_children fi)). rewrite (shape_Some m k fi Hk).
          unfold links. by rewrite Hp. }
        constructor; [done|]. apply IH. pose proof (link_depth _ (t_forest _ _ Ht) _ _ Hl). lia.
      * constructor. intros n Hl. replace k with root in Hl; [by apply (root_top _ _ Ht) in Hl|].
        symmetry. apply (tree_parent_None _ _ Ht k (fi_children fi)). rewrite (shape_Some m k fi Hk).
        unfold links. by rewrite Hp.
    + constructor. intros n Hl. destruct (link_dom _ _ _ (t_forest _ _ Ht) Hl) as [_ [v Hv]].
      rewrite shape_lookup, Hk in Hv. done.
Qed.

Lemma ancestor_iterator_path fc k :
  tree (shape (fork_infos fc)) (tree_root fc) ->
  apath (shape (fork_infos fc)) k (ancestor_iterator fc k).
Proof.
  intros Ht. eapply ancestors_from_path; [done|]. unfold rank.
  etrans; [apply length_filter|]. rewrite length_map_to_list. unfold shape. by rewrite map_size_fmap.
Qed.

Lemma apath_above sh k l x : forest sh -> apath sh k l -> x ∈ l <-> below sh x k /\ x <> k.
Proof.
  intros Hf. induction 1 as [k Hno|k p l Hl Hp IH].
  - split; [set_solver|]. intros [Hb Hne]. apply rtc_inv_r in Hb as [?|(y & _ & Hy)]; [done|].
    by apply Hno in Hy.
  - rewrite elem_of_cons, IH. pose proof (f_slot _ Hf _ _ Hl) as Hlt. split.
    + intros [->|[Hb Hne]].
      * split; [by apply rtc_once|]. intros ->. lia.
      * split; [by eapply rtc_r|]. intros ->. apply (below_slot _ Hf) in Hb as [|]; [done|lia].
    + intros [Hb Hne]. apply rtc_inv_r in Hb as [?|(y & Hb & Hy)]; [done|].
      rewrite (link_inj _ Hf y p k) in Hb by done. destruct (decide (x = p)); [by left|by right].
Qed.

(** [is_strict_ancestor] decides whether a block is strictly above another. *)
Lemma is_strict_ancestor_spec fc a k :
  tree (shape (fork_infos fc)) (tree_root fc) ->
  is_strict_ancestor fc a k = true <-> below (shape (fork_infos fc)) a k /\ a <> k.
Proof.
  intros Ht. pose proof (t_forest _ _ Ht) as Hf. unfold is_strict_ancestor.
  case_bool_decide as Hak; [naive_solver|]. destruct (Z.ltb_spec k.1 a.1).
  - split; [done|]. intros [[->|?]%(below_slot _ Hf) _]; [done|lia].
  - rewrite bool_decide_eq_true. apply apath_above; [done|]. by apply ancestor_iterator_path.
Qed.

Lemma below_or_not fc a k :
  tree (shape (fork_infos fc)) (tree_root fc) ->
  below (shape (fork_infos fc)) a k \/ ~ below (shape (fork_infos fc)) a k.
Proof.
  intros Ht. destruct (decide (a = k)) as [->|Hne]; [by left|].
  pose proof (is_strict_ancestor_spec fc a k Ht). destruct (is_strict_ancestor fc a k); [left|right]; naive_solver.
Qed.

(** ** Operation sets closed under the parents of their blocks *)
Definition closed (sh : Shape) (ops : UpdateOperations) : Prop :=
  forall e n, e ∈ ops -> link sh n e.1.1 -> pending ops n.

Definition agg_entry (k : SlotHashKey) : Entry := (k, LAggregate, OpAggregate).

Lemma pending_get ops k : pending ops k <-> is_Some (om_get (k, LAggregate) ops).
Proof. by rewrite om_get_is_Some. Qed.

Lemma pending_perm ops ops' k : ops ≡ₚ ops' -> pending ops k -> pending ops' k.
Proof. unfold pending. by intros ->. Qed.

(** Aggregations are inserted up to the first ancestor that has one. *)
Lemma insert_across_ok sh ops k l :
  forest sh -> apath sh k l -> om_wf ops ->
  (forall e n, e ∈ ops -> e.1.1 <> k -> link sh n e.1.1 -> pending ops n) ->
  exists ks, let ops' := insert_across ops None l in
    om_wf ops' /\ ops' ≡ₚ (agg_entry <$> ks) ++ ops /\ closed sh ops' /\
    (forall n, link sh n k -> pending ops' n) /\ ks ⊆ l.
Proof.
  intros Hf Hp. revert ops. induction Hp as [k Hno|k p l Hl Hp IH]; intros ops Hwf Hc.
  - exists []. cbn. split; [done|]. split; [done|]. split; [|split; [intros n Hn; by apply Hno in Hn|done]].
    intros e n He Hn. destruct (decide (e.1.1 = k)) as [Hk|Hk]; [|by apply (Hc e)].
    rewrite Hk in Hn. by apply Hno in Hn.
  - cbn [insert_across]. unfold do_insert_aggregate_operation.
    destruct (om_get (p, LAggregate) ops) as [op|] eqn:E.
    + exists []. cbn. assert (pending ops p) as Hpp by (apply pending_get; eauto).
      split; [done|]. split; [done|]. split; [|split; [|set_solver]].
      * intros e n He Hn. destruct (decide (e.1.1 = k)) as [Hk|Hk]; [|by apply (Hc e)].
        rewrite Hk in Hn. by rewrite (link_inj _ Hf n p k).
      * intros n Hn. by rewrite (link_inj _ Hf n p k).
    + pose proof (om_insert_fresh (p, LAggregate) OpAggregate ops E) as Hperm.
      set (ops1 := om_insert _ _ ops) in *.
      assert (pending ops1 p) as Hpp by (eapply pending_perm; [symmetry; exact Hperm|left]).
      assert (forall n, pending ops n -> pending ops1 n) as Hsub.
      { intros n Hn. eapply pending_perm; [symmetry; exact Hperm|]. by right. }
      destruct (IH ops1) as (ks & Hwf' & Hperm' & Hcl & Hpend & Hks).
      { by apply om_insert_wf. }
      { intros e n He Hne Hn. rewrite Hperm in He. apply elem_of_cons in He as [->|He]; [done|].
        destruct (decide (e.1.1 = k)) as [Hk|Hk].
        - rewrite Hk in Hn. by rewrite (link_inj _ Hf n p k).
        - by apply Hsub, (Hc e). }
      exists (ks ++ [p]). cbn zeta. split; [done|]. split; [|split; [done|split; [|set_solver]]].
      * rewrite Hperm', Hperm, fmap_app, <-app_assoc. done.
      * intros n Hn. rewrite (link_inj _ Hf n p k) by done. eapply pending_perm; [symmetry; exact Hperm'|].
        unfold pending. rewrite fmap_app. apply elem_of_app. by right.
Qed.

Lemma insert_aggregate_ok fc ops k :
  tree (shape (fork_infos fc)) (tree_root fc) -> om_wf ops ->
  (forall e n, e ∈ ops -> e.1.1 <> k -> link (shape (fork_infos fc)) n e.1.1 -> pending ops n) ->
  exists ks, let ops' := insert_aggregate_operations fc ops k in
    om_wf ops' /\ ops' ≡ₚ (agg_entry <$> ks) ++ ops /\ closed (shape (fork_infos fc)) ops' /\
    (forall n, link (shape (fork_infos fc)) n k -> pending ops' n) /\ ks ⊆ ancestor_iterator fc k.
Proof.
  intros Ht Hwf Hc. apply insert_across_ok; [apply Ht|by apply ancestor_iterator_path|done|done].
Qed.

#[export] Instance delta_perm : Proper ((≡ₚ) ==> eq ==> eq) delta.
Proof. intros L L' HL k k' ->. unfold delta. by rewrite HL. Qed.
#[export] Instance adds_perm : Proper ((≡ₚ) ==> eq) adds.
Proof. intros L L' HL. unfold adds. by rewrite HL. Qed.

Lemma delta_app L L' k : delta (L ++ L') k = delta L k + delta L' k.
Proof. apply zsum_app. Qed.
Lemma adds_app L L' : adds (L ++ L') = adds L + adds L'.
Proof. apply zsum_app. Qed.

Lemma agg_delta ks k : delta (agg_entry <$> ks) k = 0.
Proof. apply zsum_zero. intros e (x & -> & _)%list_elem_of_fmap. simpl. by case_decide. Qed.
Lemma agg_adds ks : adds (agg_entry <$> ks) = 0.
Proof. apply zsum_zero. by intros e (x & -> & _)%list_elem_of_fmap. Qed.

(** ** Accumulating stakes *)

(** [add_operation] adds to the entry of a key, or inserts it. *)
Lemma add_operation_ok (mk : Z -> UpdateOperation) ops k s :
  mk = OpAdd \/ mk = OpSubtract -> om_wf ops ->
  (forall e, e ∈ ops -> e.1.2 = op_label e.2) ->
  (forall s0, ((k, op_label (mk s)), mk s0) ∈ ops -> s0 + s <= u64_max) ->
  exists ops' s0 rest, add_operation ops (k, op_label (mk s)) s (mk s) = Ok ops' /\
    om_wf ops' /\ ops' ≡ₚ (k, op_label (mk s), mk (s0 + s)) :: rest /\
    ((ops ≡ₚ rest /\ s0 = 0) \/ ops ≡ₚ (k, op_label (mk s), mk s0) :: rest).
Proof.
  intros Hmk Hwf Hlab Hu. unfold add_operation.
  destruct (om_get (k, op_label (mk s)) ops) as [op|] eqn:E.
  - pose proof (Hlab _ (om_get_Some _ _ _ E)) as Hl. simpl in Hl.
    assert (exists s0, op = mk s0) as [s0 ->].
    { destruct Hmk as [-> | ->]; destruct op; try discriminate; eauto. }
    assert (update_stake (mk s0) s = Ok (mk (s0 + s))) as ->.
    { pose proof (Hu s0 (om_get_Some _ _ _ E)).
      destruct Hmk as [-> | ->]; simpl; by rewrite u64_add_Ok. }
    cbn [mbind outcome_bind].
    destruct (om_insert_replace (k, op_label (mk s)) (mk (s0 + s)) (mk s0) ops Hwf E) as (rest & H1 & H2).
    eexists _, s0, rest. split; [reflexivity|]. split; [by apply om_insert_wf|]. auto.
  - eexists _, 0, ops. split; [reflexivity|]. split; [by apply om_insert_wf|]. split; [|auto].
    rewrite Z.add_0_l. by apply om_insert_fresh.
Qed.

(** Charges a stake to a block and schedules the aggregation of its ancestors. *)
Lemma charge_ok fc (mk : Z -> UpdateOperation) ops k s :
  let sh := shape (fork_infos fc) in
  tree sh (tree_root fc) -> mk = OpAdd \/ mk = OpSubtract -> om_wf ops -> closed sh ops ->
  (forall e, e ∈ ops -> e.1.2 = op_label e.2) ->
  (forall s0, ((k, op_label (mk s)), mk s0) ∈ ops -> s0 + s <= u64_max) ->
  exists ops1, add_operation ops (k, op_label (mk s)) s (mk s) = Ok ops1 /\
    let ops' := insert_aggregate_operations fc ops1 k in
    om_wf ops' /\ closed sh ops' /\
    (forall x, delta ops' x = delta ops x + if decide (k = x) then amount (mk s) else 0) /\
    adds ops' = adds ops + added (mk s) /\
    (forall e, e ∈ ops' -> e ∈ ops \/ (exists x, e = agg_entry x) \/
      exists s0, e = (k, op_label (mk s), mk (s0 + s)) /\
        (s0 = 0 \/ (k, op_label (mk s), mk s0) ∈ ops)).
Proof.
  intros sh Ht Hmk Hwf Hcl Hlab Hu.
  destruct (add_operation_ok mk ops k s) as (ops1 & s0 & rest & Ha & Hwf1 & Hp1 & Hold); [done..|].
  assert (forall x, delta ops1 x = delta ops x + if decide (k = x) then amount (mk s) else 0) as Hd.
  { intros x. rewrite Hp1. change (?e :: ?l) with ([e] ++ l). rewrite delta_app.
    destruct Hold as [[-> ->]|Hold]; [|rewrite Hold; change (?e :: ?l) with ([e] ++ l); rewrite delta_app];
    unfold delta at 1; simpl; case_decide; (destruct Hmk as [-> | ->]; unfold delta; simpl;
      rewrite ?decide_True, ?decide_False by done; lia). }
  assert (adds ops1 = adds ops + added (mk s)) as Had.
  { rewrite Hp1. destruct Hold as [[-> ->]| ->]; unfold adds; simpl; destruct Hmk as [-> | ->]; simpl; lia. }
  assert (forall n, pending ops n -> pending ops1 n) as Hpend.
  { intros n Hn. eapply pending_perm; [symmetry; exact Hp1|]. unfold pending. rewrite fmap_cons. right.
    destruct Hold as [[Hold ->]|Hold]; eapply pending_perm in Hn; [|exact Hold|..|exact Hold]; [done|].
    unfold pending in Hn. rewrite fmap_cons in Hn. apply elem_of_cons in Hn as [[= _ Hn]|Hn]; [|done].
    by destruct Hmk as [-> | ->]. }
  destruct (insert_aggregate_ok fc ops1 k Ht Hwf1) as (ks & Hwf2 & Hp2 & Hcl2 & _ & _).
  { intros e n He Hne Hl. apply Hpend. rewrite Hp1 in He. apply elem_of_cons in He as [->|He]; [done|].
    apply (Hcl e); [|done]. destruct Hold as [[-> _]| ->]; [done|by right]. }
  exists ops1. split; [done|]. cbn zeta. split; [done|]. split; [done|]. split; [|split].
  - intros x. rewrite Hp2, delta_app, agg_delta, Hd. lia.
  - rewrite Hp2, adds_app, agg_adds, Had. lia.
  - intros e He. rewrite Hp2 in He. apply elem_of_app in He as [(x & -> & _)%list_elem_of_fmap|He]; [eauto|].
    rewrite Hp1 in He. apply elem_of_cons in He as [->|He].
    + right. right. exists s0. split; [done|]. destruct Hold as [[_ ->]| ->]; [by left|right; left].
    + left. destruct Hold as [[-> _]| ->]; [done|by right].
Qed.

Section votes.
Context (get_epoch : Slot -> Epoch) (epoch_stakes : gmap Epoch (gmap Pubkey Z)).
Context (Hs : stakes_ok epoch_stakes).
Abbreviation stake := (stake_update get_epoch epoch_stakes).
Abbreviation tally := (tally get_epoch epoch_stakes).
Abbreviation cap := (cap epoch_stakes).

Lemma tally_new votes pk k x :
  votes !! pk = None -> tally (<[pk := k]> votes) x = tally votes x + if decide (k = x) then stake pk x.1 else 0.
Proof using. intros H. unfold tally. rewrite msum_insert by done. lia. Qed.

Lemma tally_move votes pk old k x :
  votes !! pk = Some old ->
  tally (<[pk := k]> votes) x =
    tally votes x - (if decide (old = x) then stake pk x.1 else 0)
    + if decide (k = x) then stake pk x.1 else 0.
Proof using. intros H. unfold tally. by rewrite (msum_update _ votes pk old). Qed.

(** The part of a tally that comes from the validators of [D]. *)
Definition part (votes : gmap Pubkey SlotHashKey) (D : gset Pubkey) (k : SlotHashKey) : Z :=
  msum (fun pk v => if decide (v = k /\ pk ∈ D) then stake pk k.1 else 0) votes.

Lemma part_tally votes D k : part votes D k <= tally votes k.
Proof using Hs.
  apply msum_le. intros pk v _. pose proof (stake_cap get_epoch _ Hs pk k.1).
  repeat case_decide; naive_solver lia.
Qed.

Lemma part_mono votes D D' k : D ⊆ D' -> part votes D k <= part votes D' k.
Proof using Hs.
  intros HD. apply msum_le. intros pk v _. pose proof (stake_cap get_epoch _ Hs pk k.1).
  repeat case_decide; set_solver by lia.
Qed.

Lemma part_add votes D pk old :
  pk ∉ D -> votes !! pk = Some old ->
  part votes ({[pk]} ∪ D) old = part votes D old + stake pk old.1.
Proof using Hs.
  intros Hpk Ho. unfold part. rewrite !(msum_delete _ votes pk old Ho).
  rewrite decide_True by set_solver. rewrite decide_False by set_solver.
  rewrite (msum_ext _ (fun pk' v => if decide (v = old /\ pk' ∈ D) then stake pk' old.1 else 0)
    (delete pk votes)); [lia|].
  intros pk' v [Hne _]%lookup_delete_Some. apply decide_ext. set_solver.
Qed.

(** What holds of the operations collected so far, for the validators observed. *)
Record gen_ok (fc0 fc : HeaviestSubtreeForkChoice) (ops : UpdateOperations)
    (obs : gmap Pubkey Slot) : Prop := {
  g_infos : fork_infos fc = fork_infos fc0;
  g_root : tree_root fc = tree_root fc0;
  g_wf : om_wf ops;
  g_entry e : e ∈ ops -> e.1.2 = op_label e.2 /\ is_mark e.2 = false /\ 0 <= added e.2;
  g_closed : closed (shape (fork_infos fc0)) ops;
  g_delta k : tally (latest_votes fc) k = tally (latest_votes fc0) k + delta ops k;
  g_sub k l s : (k, l, OpSubtract s) ∈ ops -> 0 <= s <= part (latest_votes fc0) (dom obs) k;
  g_adds : adds ops <= zsum cap (elements (dom obs));
  g_unobserved pk : obs !! pk = None -> latest_votes fc !! pk = latest_votes fc0 !! pk
}.

Lemma adds_observed (obs : gmap Pubkey Slot) pk s :
  obs !! pk = None ->
  zsum cap (elements (dom (<[pk := s]> obs))) = cap pk + zsum cap (elements (dom obs)).
Proof using.
  intros H. rewrite dom_insert_L, elements_union_singleton; [done|]. by apply not_elem_of_dom.
Qed.

Lemma adds_total (obs : gmap Pubkey Slot) : zsum cap (elements (dom obs)) <= total_stake epoch_stakes.
Proof using Hs. apply cap_total; [done|apply NoDup_elements]. Qed.

Lemma insert_aggregate_infos fc fc' ops k :
  fork_infos fc = fork_infos fc' ->
  insert_aggregate_operations fc ops k = insert_aggregate_operations fc' ops k.
Proof using.
  intros H. unfold insert_aggregate_operations, do_insert_aggregate_operations_across_ancestors,
    ancestor_iterator. by rewrite H.
Qed.

Section step.
Context (fc0 : HeaviestSubtreeForkChoice) (Ht : tree (shape (fork_infos fc0)) (tree_root fc0)).
Context (fc : HeaviestSubtreeForkChoice) (ops : UpdateOperations) (obs : gmap Pubkey Slot).
Context (pk : Pubkey) (k : SlotHashKey) (Hpk : obs !! pk = None).

Lemma gen_observe s : gen_ok fc0 fc ops obs -> gen_ok fc0 fc ops (<[pk := s]> obs).
Proof using Hs Ht Hpk.
  intros [H1 H2 H3 H4 H5 H6 H7 H8 H9]. split; [done..| | |].
  - intros x l z Hz%H7. pose proof (part_mono (latest_votes fc0) (dom obs) (dom (<[pk:=s]> obs)) x).
    assert (dom obs ⊆ dom (<[pk := s]> obs)) by (rewrite dom_insert_L; set_solver). naive_solver lia.
  - rewrite adds_observed by done. pose proof (stake_cap get_epoch _ Hs pk 0). lia.
  - intros pk' H'. apply H9. apply lookup_insert_None in H' as [? _]. done.
Qed.

(** The old vote of [pk] is taken back. *)
Lemma move_from_ok fc1 old s :
  gen_ok fc0 fc ops obs -> fork_infos fc1 = fork_infos fc0 -> latest_votes fc !! pk = Some old ->
  outdated k old = false ->
  exists ops1, move_from get_epoch epoch_stakes fc1 ops pk old k = Ok ops1 /\
    gen_ok fc0 (set_latest_votes fc (delete pk (latest_votes fc))) ops1 (<[pk := s]> obs) /\
    adds ops1 = adds ops.
Proof using Hs Ht Hpk.
  intros Hg H1 Hold Hout. pose proof (gen_observe s Hg) as Hg'.
  assert (forall x, tally (delete pk (latest_votes fc)) x =
    tally (latest_votes fc) x - if decide (old = x) then stake pk x.1 else 0) as Htd.
  { intros x. unfold tally. rewrite (msum_delete _ _ pk old Hold). lia. }
  assert (latest_votes fc0 !! pk = Some old) as Hold0 by (by rewrite <-(g_unobserved _ _ _ _ Hg pk Hpk)).
  assert (forall pk', <[pk := s]> obs !! pk' = None ->
    delete pk (latest_votes fc) !! pk' = latest_votes fc0 !! pk') as Hun.
  { intros pk' H'. apply lookup_insert_None in H' as [? ?]. rewrite lookup_delete_ne by done.
    by apply (g_unobserved _ _ _ _ Hg). }
  unfold move_from. assert ((if k.1 =? old.1 then k.2 <? old.2 else old.1 <? k.1) = true) as ->.
  { unfold outdated in Hout. apply orb_false_iff in Hout as [Ha Hb].
    destruct (Z.eqb_spec k.1 old.1); simpl in Hb; lia. }
  cbn [ensure mbind outcome_bind]. pose proof (stake_cap get_epoch _ Hs pk old.1) as Hst.
  destruct (Z.ltb_spec 0 (stake pk old.1)) as [Hpos|Hzero].
  - destruct (charge_ok fc0 OpSubtract ops old (stake pk old.1)) as (ops1 & Ha & Hwf & Hcl & Hd & Had & Hin).
    { done. } { by right. } { apply Hg. } { apply Hg. }
    { intros e He. by apply (g_entry _ _ _ _ Hg). }
    { intros s0 Hs0. destruct (g_sub _ _ _ _ Hg _ _ _ Hs0) as [_ Hle].
      pose proof (part_add (latest_votes fc0) (dom obs) pk old ltac:(by apply not_elem_of_dom) Hold0).
      pose proof (part_tally (latest_votes fc0) ({[pk]} ∪ dom obs) old).
      pose proof (tally_total get_epoch _ Hs (latest_votes fc0) [old] (NoDup_singleton old)) as Hto.
      simpl in Hto. destruct Hs. pose proof (tally_nonneg get_epoch _ Hs (latest_votes fc0) old). lia. }
    cbn [op_label] in Ha. rewrite Ha. cbn [mbind outcome_bind].
    rewrite (insert_aggregate_infos fc1 fc0) by done. eexists. split; [reflexivity|].
    split; [|simpl in Had; lia]. cbn [op_label added] in *. split; cbn [latest_votes fork_infos tree_root set_latest_votes].
    + apply Hg.
    + apply Hg.
    + done.
    + intros e [He|[(x & ->)|(s0 & -> & _)]]%Hin; [by apply (g_entry _ _ _ _ Hg)|done|done].
    + done.
    + intros x. rewrite Htd, Hd, (g_delta _ _ _ _ Hg x). simpl. case_decide; subst; lia.
    + intros x l z Hz. rewrite dom_insert_L. apply Hin in Hz as [Hz|[(y & [=])|(s0 & [= -> -> ->] & Hs0)]].
      * destruct (g_sub _ _ _ _ Hg _ _ _ Hz).
        pose proof (part_mono (latest_votes fc0) (dom obs) ({[pk]} ∪ dom obs) x ltac:(set_solver)). lia.
      * rewrite part_add by (done || by apply not_elem_of_dom).
        assert (0 <= s0 <= part (latest_votes fc0) (dom obs) old); [|lia].
        destruct Hs0 as [->|Hs0]; [|by eapply (g_sub _ _ _ _ Hg)]. split; [done|].
        apply msum_nonneg. intros pk' v _. pose proof (stake_cap get_epoch _ Hs pk' old.1). case_decide; lia.
    + rewrite Had, Z.add_0_r. apply Hg'.
    + done.
  - exists ops. split; [done|]. split; [|done]. destruct Hg' as [G1 G2 G3 G4 G5 G6 G7 G8 G9].
    split; cbn [latest_votes fork_infos tree_root set_latest_votes]; [done..| |done|done|done].
    intros x. rewrite Htd, G6. case_decide; subst; lia.
Qed.

(** The new vote of [pk] is counted. *)
Lemma count_ok fc1 s :
  gen_ok fc0 fc ops (<[pk := s]> obs) -> adds ops <= zsum cap (elements (dom obs)) ->
  latest_votes fc !! pk = None -> fork_infos fc1 = fork_infos fc0 ->
  exists ops1, add_operation ops (k, LAdd) (stake pk k.1) (OpAdd (stake pk k.1)) = Ok ops1 /\
    gen_ok fc0 (set_latest_votes fc (<[pk := k]> (latest_votes fc)))
      (insert_aggregate_operations fc1 ops1 k) (<[pk := s]> obs).
Proof using Hs Ht Hpk.
  intros Hg Hadds Hnone H1. pose proof (stake_cap get_epoch _ Hs pk k.1) as Hst.
  assert (forall e, e ∈ ops -> 0 <= added e.2) as Hpos by (intros e He; by apply (g_entry _ _ _ _ Hg)).
  destruct (charge_ok fc0 OpAdd ops k (stake pk k.1)) as (ops1 & Ha & Hwf & Hcl & Hd & Had & Hin).
  { done. } { by left. } { apply Hg. } { apply Hg. }
  { intros e He. by apply (g_entry _ _ _ _ Hg). }
  { intros s0 Hs0. pose proof (zsum_elem (fun e : Entry => added e.2) ops _ Hpos Hs0) as He. simpl in He.
    fold (adds ops) in He. pose proof (adds_total (<[pk := s]> obs)) as Hto.
    rewrite adds_observed in Hto by done. destruct Hs as [_ Hmax].
    pose proof (stake_cap get_epoch _ Hs pk k.1). pose proof (Hpos _ Hs0). simpl in *. lia. }
  exists ops1. split; [done|]. rewrite (insert_aggregate_infos fc1 fc0) by done.
  cbn [op_label added] in *. split; cbn [latest_votes fork_infos tree_root set_latest_votes].
  - apply Hg.
  - apply Hg.
  - done.
  - intros e [He|[(x & ->)|(s0 & -> & Hs0)]]%Hin; [by apply (g_entry _ _ _ _ Hg)|done|].
    split; [done|]. split; [done|]. simpl. destruct Hs0 as [->|Hs0%Hpos]; simpl in *; lia.
  - done.
  - intros x. rewrite (tally_new _ _ _ _ Hnone), Hd, (g_delta _ _ _ _ Hg x). simpl. case_decide; subst; lia.
  - intros x l z Hz. apply Hin in Hz as [Hz|[(y & [=])|(s0 & [=] & _)]]. by eapply (g_sub _ _ _ _ Hg).
  - rewrite Had, adds_observed by done. lia.
  - intros pk' H'. pose proof H' as H''. apply lookup_insert_None in H'' as [_ Hne].
    rewrite lookup_insert_ne by done. by apply (g_unobserved _ _ _ _ Hg).
Qed.
End step.

(** The votes after one more: a vote below the root or not newer is ignored. *)
Definition accept (root : SlotHashKey) (votes : gmap Pubkey SlotHashKey) (v : Pubkey * SlotHashKey)
    : gmap Pubkey SlotHashKey :=
  if v.2.1 <? root.1 then votes
  else if match votes !! v.1 with Some old => outdated v.2 old | None => false end then votes
  else <[v.1 := v.2]> votes.

Lemma generate_vote_ok fc0 fc ops obs pk k :
  tree (shape (fork_infos fc0)) (tree_root fc0) -> gen_ok fc0 fc ops obs ->
  ((tree_root fc0).1 <= k.1 -> obs !! pk = None) ->
  exists fc' ops' obs', generate_vote get_epoch epoch_stakes fc ops obs pk k = Ok (fc', ops', obs') /\
    gen_ok fc0 fc' ops' obs' /\
    latest_votes fc' = accept (tree_root fc0) (latest_votes fc) (pk, k) /\
    obs' = if k.1 <? (tree_root fc0).1 then obs else <[pk := k.1]> obs.
Proof using Hs.
  intros Ht Hg Hpk. unfold generate_vote, accept. rewrite (g_root _ _ _ _ Hg). cbn [fst snd].
  destruct (Z.ltb_spec k.1 (tree_root fc0).1) as [Hlt|Hge]; [by eexists _, _, _|].
  specialize (Hpk Hge). rewrite bool_decide_false by (rewrite Hpk; by intros []).
  pose proof (gen_observe fc0 Ht fc ops obs pk Hpk k.1 Hg) as Hg1.
  destruct (latest_votes fc !! pk) as [old|] eqn:Hold.
  - destruct (outdated k old) eqn:Hout; [by eexists _, _, _|].
    set (fc1 := set_latest_votes fc _).
    assert (fork_infos fc1 = fork_infos fc0) as H1 by apply Hg.
    destruct (move_from_ok fc0 Ht fc ops obs pk k Hpk fc1 old k.1) as (ops1 & -> & Hg2 & Ha); [done..|].
    cbn [mbind outcome_bind].
    destruct (count_ok fc0 Ht _ ops1 obs pk k Hpk fc1 k.1 Hg2) as (ops2 & -> & Hg3).
    { rewrite Ha. apply Hg. } { apply lookup_delete_eq. } { done. }
    cbn [mbind outcome_bind]. eexists _, _, _. split; [reflexivity|].
    cbn [latest_votes set_latest_votes] in Hg3. rewrite insert_delete_eq in Hg3. done.
  - destruct (count_ok fc0 Ht fc ops obs pk k Hpk
      (set_latest_votes fc (<[pk := k]> (latest_votes fc))) k.1 Hg1) as (ops2 & Hadd & Hg3).
    { apply Hg. } { done. } { apply Hg. }
    cbn [mbind outcome_bind]. rewrite Hadd. cbn [mbind outcome_bind]. by eexists _, _, _.
Qed.

(** The votes of a batch at or above the root come from different validators. *)
Definition batch_votes_ok (root : SlotHashKey) (votes : list (Pubkey * SlotHashKey)) : Prop :=
  NoDup (filter (fun v => root.1 <= v.2.1) votes).*1.

Lemma generate_loop_ok fc0 fc ops obs votes :
  tree (shape (fork_infos fc0)) (tree_root fc0) -> gen_ok fc0 fc ops obs ->
  batch_votes_ok (tree_root fc0) votes ->
  (forall v, v ∈ votes -> (tree_root fc0).1 <= v.2.1 -> obs !! v.1 = None) ->
  exists fc' ops' obs', generate_loop get_epoch epoch_stakes fc ops obs votes = Ok (fc', ops') /\
    gen_ok fc0 fc' ops' obs' /\
    latest_votes fc' = foldl (accept (tree_root fc0)) (latest_votes fc) votes.
Proof using Hs.
  intros Ht. revert fc ops obs. induction votes as [|[pk k] votes IH]; intros fc ops obs Hg Hnd Hobs.
  - by eexists _, _, _.
  - destruct (generate_vote_ok fc0 fc ops obs pk k) as (fc1 & ops1 & obs1 & He & Hg1 & Hv1 & Hobs1);
      [done|done|apply (Hobs (pk, k)); left|].
    cbn [generate_loop]. rewrite He. cbn [mbind outcome_bind].
    unfold batch_votes_ok in Hnd. rewrite filter_cons in Hnd. cbn [snd] in Hnd.
    destruct (IH fc1 ops1 obs1 Hg1) as (fc' & ops' & obs' & He' & Hg' & Hv').
    + case_decide; [|done]. by apply NoDup_cons in Hnd as [_ Hnd].
    + intros v Hv Hroot. rewrite Hobs1. destruct (Z.ltb_spec k.1 (tree_root fc0).1).
      { apply Hobs; [by right|done]. }
      rewrite decide_True in Hnd by lia. apply NoDup_cons in Hnd as [Hni _].
      rewrite lookup_insert_ne; [apply Hobs; [by right|done]|]. intros Heq. apply Hni.
      cbn [fst]. rewrite Heq. apply list_elem_of_fmap_2. by apply list_elem_of_filter.
    + exists fc', ops', obs'. split; [done|]. split; [done|]. by rewrite Hv', Hv1.
Qed.

Lemma gen_ok_start fc : gen_ok fc fc [] ∅.
Proof using.
  split; try done.
  - constructor.
  - intros e He. by apply elem_of_nil in He.
  - intros e n He. by apply elem_of_nil in He.
  - intros k. unfold delta. simpl. lia.
  - intros k l s He. by apply elem_of_nil in He.
Qed.

(** The validity of the blocks of a map. *)
Definition validity_at (m : gmap SlotHashKey ForkInfo) (k : SlotHashKey) : option Slot * bool :=
  from_option validity (None, false) (m !! k).

(** A batch without marks keeps the validity of the blocks. *)
Lemma unmarked_final m L k fi :
  (forall e, e ∈ L -> is_mark e.2 = false) ->
  (forall c, c ∈ fi_children fi -> dup_at m c = true -> fi_is_duplicate_confirmed fi = true) ->
  (fi_is_duplicate_confirmed fi = true -> fi_latest_invalid_ancestor fi = None) ->
  validity_at m k = validity fi -> final (validity_at m) L k fi = validity_at m k.
Proof using.
  intros Hm Hd Hv Hk.
  assert (forall v, marks L k v = v) as Hmarks.
  { clear Hk. unfold marks. induction L as [|e L IH]; intros v; [done|]. simpl. rewrite IH.
    - pose proof (Hm e ltac:(left)). case_decide; [by destruct e.2|done].
    - intros e' He'. apply Hm. by right. }
  unfold final. rewrite Hmarks, Hk. destruct (bool_decide _); [|done]. cbn [andb].
  destruct (existsb _ _) eqn:E; [|done].
  apply existsb_exists in E as (c & Hc%list_elem_of_In & Hdc).
  assert (fi_is_duplicate_confirmed fi = true) as Hdup.
  { apply (Hd c Hc). revert Hdc. unfold validity_at, dup_at. by destruct (m !! c). }
  unfold validity. by rewrite Hdup, (Hv Hdup).
Qed.

Lemma reverse_sorted {K} `{Ordered K} (l : list K) :
  sorted l -> StronglySorted (flip olt) (reverse l).
Proof using.
  induction 1 as [|x l Hl IH Hx]; [constructor|]. rewrite reverse_cons.
  revert IH. assert (Forall (fun y => olt x y) (reverse l)) as Hx'.
  { rewrite Forall_forall in *. intros y Hy. apply Hx. by apply elem_of_reverse. }
  clear Hx Hl. induction Hx' as [|y r Hy Hr IHr]; simpl; [by repeat constructor|].
  intros Hs'. inversion_clear Hs' as [|?? H1 H2]. constructor; [by apply IHr|].
  apply Forall_app. split; [done|]. by constructor.
Qed.

(** The operations of a batch of votes are a batch of the state. *)
Lemma gen_batch fc0 fc ops obs :
  fc_ok get_epoch epoch_stakes fc0 -> gen_ok fc0 fc ops obs ->
  batch (validity_at (fork_infos fc0)) (fork_infos fc0) (reverse ops).
Proof using Hs.
  intros Hok Hg. pose proof (reverse_Permutation ops) as Hr.
  assert (forall e, e ∈ reverse ops -> e ∈ ops) as Hin by (intros e; by rewrite Hr).
  assert (forall n, pending ops n -> pending (reverse ops) n) as Hpend.
  { intros n. apply pending_perm. by rewrite Hr. }
  assert (adds (reverse ops) <= total_stake epoch_stakes) as Had.
  { rewrite Hr. etrans; [apply Hg|]. apply adds_total. }
  destruct Hs as [_ Hmax].
  split.
  - rewrite fmap_reverse. apply reverse_sorted, Hg.
  - intros e He%Hin. by apply (g_entry _ _ _ _ Hg).
  - intros e He%Hin. by apply (g_entry _ _ _ _ Hg).
  - intros e n He%Hin Hl. by apply Hpend, (g_closed _ _ _ _ Hg e).
  - intros e He%Hin Hm. apply (g_entry _ _ _ _ Hg) in He as (_ & Hm' & _). congruence.
  - intros k l s fi He%Hin Hk. destruct (g_sub _ _ _ _ Hg _ _ _ He) as [? Hle].
    rewrite (ok_at _ _ _ Hok k fi Hk). pose proof (part_tally (latest_votes fc0) (dom obs) k). lia.
  - intros k l s fi He%Hin. apply (g_entry _ _ _ _ Hg) in He as (_ & [=] & _).
  - intros k fi Hk. left. by apply (ok_agg _ _ _ Hok).
  - intros k fi Hk. destruct (sub_bounds _ _ Hs fc0 Hok k fi Hk) as [? ?]. split; [done|lia].
  - pose proof (at_total _ _ Hs fc0 Hok). lia.
  - intros k fi Hk. apply unmarked_final.
    + intros e He%Hin. by apply (g_entry _ _ _ _ Hg).
    + by apply (ao_dup _ _ _ (ok_agg _ _ _ Hok k fi Hk)).
    + by apply (vo_dup _ (ok_valid _ _ _ Hok) k).
    + unfold validity_at. by rewrite Hk.
Qed.

Lemma valid_ok_same m m' :
  shape m' = shape m ->
  (forall k fi', m' !! k = Some fi' -> validity fi' = validity_at m k) -> valid_ok m -> valid_ok m'.
Proof using.
  intros Hsh Hv Hok.
  assert (forall k fi', m' !! k = Some fi' -> exists fi, m !! k = Some fi /\
    fi_latest_invalid_ancestor fi' = fi_latest_invalid_ancestor fi /\
    fi_is_duplicate_confirmed fi' = fi_is_duplicate_confirmed fi) as H.
  { intros k fi' Hk. pose proof (shape_Some _ _ _ Hk) as Hs'. rewrite Hsh, shape_lookup in Hs'.
    apply Hv in Hk. unfold validity_at in Hk. destruct (m !! k) as [fi|]; [|done].
    injection Hk as E1 E2. eauto. }
  split.
  - intros k fi s (gi & Hg & -> & _)%H Hl. by eapply (vo_slot _ Hok).
  - intros k fi (gi & Hg & -> & ->)%H Hd. by eapply (vo_dup _ Hok).
  - intros n ni k ki. rewrite Hsh. intros Hl (gi & Hg & -> & _)%H (hi & Hh & -> & _)%H.
    by eapply (vo_mono _ Hok).
Qed.

(** [add_votes] panics on no batch in which the validators are different; it records the
    newer votes, keeps the blocks and their validity, and restores the invariant. *)
Lemma add_votes_ok fc votes :
  fc_ok get_epoch epoch_stakes fc -> batch_votes_ok (tree_root fc) votes ->
  exists b fc', add_votes get_epoch epoch_stakes fc votes = Ok (b, fc') /\
    fc_ok get_epoch epoch_stakes fc' /\ best_overall_slot fc' = Ok b /\
    shape (fork_infos fc') = shape (fork_infos fc) /\ tree_root fc' = tree_root fc /\
    latest_votes fc' = foldl (accept (tree_root fc)) (latest_votes fc) votes /\
    (forall k fi, fork_infos fc' !! k = Some fi -> validity fi = validity_at (fork_infos fc) k).
Proof using Hs.
  intros Hok Hnd. pose proof (ok_tree _ _ _ Hok) as Ht.
  destruct (generate_loop_ok fc fc [] ∅ votes Ht (gen_ok_start fc) Hnd) as (fc1 & ops & obs & He & Hg & Hv);
    [done|].
  pose proof (gen_batch fc fc1 ops obs Hok Hg) as Hb.
  destruct (process_list_ok (validity_at (fork_infos fc)) fc1 (reverse ops)) as (m' & Hp & Hsh & _ & Hall).
  { rewrite (g_infos _ _ _ _ Hg). apply Ht. }
  { by rewrite (g_infos _ _ _ _ Hg). }
  rewrite (g_infos _ _ _ _ Hg) in Hsh, Hall.
  set (fc' := set_fork_infos fc1 m') in *.
  assert (fc_ok get_epoch epoch_stakes fc') as Hok'.
  { split; cbn [fork_infos latest_votes tree_root fc' set_fork_infos].
    - by rewrite Hsh, (g_root _ _ _ _ Hg).
    - intros k fi Hk. by apply Hall.
    - intros k fi Hk. destruct (Hall k fi Hk) as (_ & _ & _ & ->).
      rewrite (g_delta _ _ _ _ Hg), reverse_Permutation. f_equal.
      apply shape_Some in Hk. rewrite Hsh, shape_lookup in Hk. unfold at_at.
      destruct (fork_infos fc !! k) as [gi|] eqn:Hgi; [|done]. by apply (ok_at _ _ _ Hok).
    - apply (valid_ok_same (fork_infos fc)); [done| |apply Hok].
      intros k fi Hk. by apply Hall. }
  assert (exists b, best_overall_slot fc' = Ok b) as [b Hbest].
  { unfold best_overall_slot, best_slot. destruct (t_root _ _ (ok_tree _ _ _ Hok')) as [cs Hr].
    rewrite shape_lookup in Hr. destruct (fork_infos fc' !! tree_root fc'); [simpl; eauto|done]. }
  exists b, fc'. unfold add_votes, generate_update_operations. rewrite He. cbn [mbind outcome_bind].
  unfold process_update_operations. rewrite Hp. cbn [mbind outcome_bind]. fold fc'. rewrite Hbest.
  split; [done|]. split; [done|]. split; [done|]. split; [done|].
  split; [apply Hg|]. split; [exact Hv|]. intros k fi Hk. by apply Hall.
Qed.
End votes.
