(* ===== verification/ForkSearch.v ===== *)
(** * Searches of the tree

    [subtree_diff] and the loop of [split_off] visit every block of a subtree once. *)

From S2P Require Import Prelude OrdMap ForkChoice ForkTree ForkAggregate.
From S2P Require Import ForkProcess ForkInvariant ForkVotes.
Local Open Scope Z_scope.

(** Links that do not lead on from [root2]. *)
Definition link_until (sh : Shape) (root2 n c : SlotHashKey) : Prop := link sh n c /\ n <> root2.

Lemma until_below sh root2 a d : rtc (link_until sh root2) a d -> below sh a d.
Proof. apply rtc_subrel. by intros x y [? _]. Qed.

(** The blocks visited are those below [a] that are not strictly below [root2]. *)
Lemma until_spec sh root2 a d :
  forest sh -> rtc (link_until sh root2) a d <->
    below sh a d /\ (below sh a root2 -> below sh root2 d -> d = root2).
Proof.
  intros Hf. split.
  - intros H. split; [by apply until_below in H|].
    induction H as [x|x y d [Hl Hne] Hyd IH]; intros H1 H2; [by apply (below_antisym _ Hf)|].
    apply rtc_inv in H1 as [->|(z & Hz & Hzr)]; [done|]. apply until_below in Hyd.
    assert (y = z) as ->; [|by apply IH].
    eapply (siblings_disjoint _ Hf x y z d); [done..|]. by etrans.
  - intros [H Hc]. induction H as [x|x y d Hl Hyd IH]; [done|].
    eapply rtc_l; [split; [exact Hl|]|apply IH].
    + intros ->. assert (d = root2) as ->; [|pose proof (f_slot _ Hf _ _ Hl);
        apply (below_slot _ Hf) in Hyd as [->|]; lia].
      apply Hc; [done|]. by eapply rtc_l.
    + intros H1 H2. apply Hc; [by eapply rtc_l|done].
Qed.

Lemma keys_length {A} (m : gmap SlotHashKey A) (l : list SlotHashKey) :
  NoDup l -> (forall x, x ∈ l -> is_Some (m !! x)) -> (length l <= size m)%nat.
Proof.
  intros Hnd Hl. rewrite <-length_map_to_list, <-(length_fmap fst (map_to_list m)).
  apply submseteq_length, NoDup_submseteq; [done|]. intros x [v Hv]%Hl.
  apply list_elem_of_fmap. exists (x, v). split; [done|]. by apply elem_of_map_to_list.
Qed.

(** ** [subtree_diff] *)
Section diff.
Context (fc : HeaviestSubtreeForkChoice) (root2 : SlotHashKey).
Abbreviation m := (fork_infos fc).
Context (Hf : forest (shape m)).

(** Popping [k] visits its subtree and goes on with the rest of the stack. *)
Definition visits (k : SlotHashKey) (l : list SlotHashKey) : Prop :=
  NoDup l /\ (forall x, x ∈ l <-> rtc (link_until (shape m) root2) k x) /\
  forall fuel rest R, subtree_diff_loop (length l + fuel) fc root2 (k :: rest) R =
    subtree_diff_loop fuel fc root2 rest (list_to_set (filter (fun x => x <> root2) l) ∪ R).

Lemma visits_list n cs :
  NoDup cs -> (forall c, c ∈ cs -> link (shape m) n c) ->
  (forall c, c ∈ cs -> exists l, visits c l) ->
  exists l, NoDup l /\ (forall x, x ∈ l <-> exists c, c ∈ cs /\ rtc (link_until (shape m) root2) c x) /\
    forall fuel rest R, subtree_diff_loop (length l + fuel) fc root2 (cs ++ rest) R =
      subtree_diff_loop fuel fc root2 rest (list_to_set (filter (fun x => x <> root2) l) ∪ R).
Proof.
  induction 1 as [|c cs Hc Hcs IH]; intros Hl Hg.
  { exists []. split; [constructor|]. split; [set_solver|]. intros fuel rest R. simpl.
    by rewrite union_empty_l_L. }
  destruct IH as (l & Hnd & Hd & Hs).
  { intros; apply Hl; by right. } { intros; apply Hg; by right. }
  destruct (Hg c) as (lc & Hndc & Hdc & Hsc); [left|]. exists (lc ++ l). split; [|split].
  - apply NoDup_app. split; [done|]. split; [|done]. intros x Hx1%Hdc%until_below (c' & Hc' & Hx2%until_below)%Hd.
    apply Hc. by rewrite (siblings_disjoint _ Hf n c c' x) by (auto; apply Hl; set_solver).
  - intros x. rewrite elem_of_app, Hd, Hdc. setoid_rewrite elem_of_cons. naive_solver.
  - intros fuel rest R. rewrite length_app, <-Nat.add_assoc. cbn [app]. rewrite Hsc, Hs.
    f_equal. rewrite filter_app, list_to_set_app_L. set_solver.
Qed.

Lemma visits_node k : is_Some (m !! k) -> exists l, visits k l.
Proof.
  revert k. refine (leaves_ind _ Hf _ _). intros k IH [fi Hk].
  destruct (decide (k = root2)) as [->|Hne].
  { exists [root2]. split; [apply NoDup_singleton|]. split.
    - intros x. rewrite list_elem_of_singleton. split; [by intros ->|].
      intros H. by apply rtc_inv in H as [?|(y & [_ ?] & _)].
    - intros fuel rest R. cbn [length Nat.add subtree_diff_loop]. rewrite bool_decide_true by done.
      rewrite filter_cons_False by auto. simpl. by rewrite union_empty_l_L. }
  assert (forall c, c ∈ fi_children fi -> link (shape m) k c) as Hl by (intros; apply link_Some; eauto).
  destruct (visits_list k (reverse (fi_children fi))) as (l & Hnd & Hd & Hs).
  { rewrite reverse_Permutation. by eapply forest_NoDup. }
  { intros c Hc. rewrite elem_of_reverse in Hc. by apply Hl. }
  { intros c Hc. rewrite elem_of_reverse in Hc. apply IH; [by apply Hl|]. by eapply forest_children. }
  exists (k :: l). split; [|split].
  - constructor; [|done]. intros (c & Hc & Hck%until_below)%Hd. rewrite elem_of_reverse in Hc.
    pose proof (f_slot _ Hf _ _ (Hl c Hc)). apply (below_slot _ Hf) in Hck as [->|]; lia.
  - intros x. rewrite elem_of_cons, Hd. split.
    + intros [->|(c & Hc & Hcx)]; [done|]. rewrite elem_of_reverse in Hc. eapply rtc_l; [split; [by apply Hl|done]|done].
    + intros Hkx. apply rtc_inv in Hkx as [->|(c & [Hkc _] & Hcx)]; [by left|right].
      exists c. split; [|done]. apply elem_of_reverse. apply link_Some in Hkc as (fi' & Hk' & Hc).
      rewrite Hk in Hk'. by injection Hk' as <-.
  - intros fuel rest R. cbn [length Nat.add subtree_diff_loop]. rewrite bool_decide_false by done.
    unfold children. rewrite Hk. cbn [fmap option_fmap option_map expect mbind outcome_bind].
    rewrite Hs, filter_cons_True by done. f_equal. rewrite list_to_set_cons. set_solver.
Qed.

Lemma subtree_diff_ok k :
  is_Some (m !! k) ->
  exists S, subtree_diff fc k root2 = Ok S /\
    forall x, x ∈ S <-> rtc (link_until (shape m) root2) k x /\ x <> root2.
Proof.
  intros Hk. destruct (visits_node k Hk) as (l & Hnd & Hd & Hs).
  assert (length l <= size m)%nat as Hle.
  { apply keys_length; [done|]. intros x Hx%Hd%until_below. apply (below_dom _ Hf) in Hx.
    - by rewrite shape_lookup, fmap_is_Some in Hx.
    - rewrite shape_lookup. by apply fmap_is_Some. }
  unfold subtree_diff, contains_block. rewrite bool_decide_true by done. cbn [negb].
  replace (size m) with (length l + (size m - length l))%nat by lia. rewrite Hs.
  eexists. split; [by destruct (size m - length l)%nat|].
  intros x. rewrite union_empty_r_L, elem_of_list_to_set, list_elem_of_filter, Hd. naive_solver.
Qed.
End diff.

(** ** The loop of [split_off] *)
Section split.
Context (m : gmap SlotHashKey ForkInfo) (Hf : forest (shape m)).

(** The blocks [l] have been moved from [m'] to [s]. *)
Definition moved (l : list SlotHashKey) (m' s m2 s2 : gmap SlotHashKey ForkInfo) : Prop :=
  (forall x, m2 !! x = if decide (x ∈ l) then None else m' !! x) /\
  (forall x, s2 !! x = if decide (x ∈ l) then m !! x else s !! x).
Definition moves (k : SlotHashKey) (l : list SlotHashKey) : Prop :=
  NoDup l /\ (forall x, x ∈ l <-> below (shape m) k x) /\
  forall fuel m' s rest, (forall x, x ∈ l -> m' !! x = m !! x) ->
    exists m2 s2, split_loop (length l + fuel) m' s (k :: rest) = split_loop fuel m2 s2 rest /\
      moved l m' s m2 s2.

Lemma moves_list n cs :
  NoDup cs -> (forall c, c ∈ cs -> link (shape m) n c) ->
  (forall c, c ∈ cs -> exists l, moves c l) ->
  exists l, NoDup l /\ (forall x, x ∈ l <-> exists c, c ∈ cs /\ below (shape m) c x) /\
    forall fuel m' s rest, (forall x, x ∈ l -> m' !! x = m !! x) ->
      exists m2 s2, split_loop (length l + fuel) m' s (cs ++ rest) = split_loop fuel m2 s2 rest /\
        moved l m' s m2 s2.
Proof.
  induction 1 as [|c cs Hc Hcs IH]; intros Hl Hg.
  { exists []. split; [constructor|]. split; [set_solver|]. intros fuel m' s rest _. by exists m', s. }
  destruct IH as (l & Hnd & Hd & Hs).
  { intros; apply Hl; by right. } { intros; apply Hg; by right. }
  destruct (Hg c) as (lc & Hndc & Hdc & Hsc); [left|].
  assert (forall x, x ∈ lc -> x ∉ l) as Hdisj.
  { intros x Hx1%Hdc (c' & Hc' & Hx2)%Hd.
    apply Hc. by rewrite (siblings_disjoint _ Hf n c c' x) by (auto; apply Hl; set_solver). }
  exists (lc ++ l). split; [by apply NoDup_app|]. split.
  - intros x. rewrite elem_of_app, Hd, Hdc. setoid_rewrite elem_of_cons. naive_solver.
  - intros fuel m' s rest Hm. rewrite length_app, <-Nat.add_assoc. cbn [app].
    destruct (Hsc (length l + fuel)%nat m' s (cs ++ rest)) as (m2 & s2 & -> & Hm2 & Hs2).
    { intros x Hx. apply Hm. set_solver. }
    destruct (Hs fuel m2 s2 rest) as (m3 & s3 & -> & Hm3 & Hs3).
    { intros x Hx. rewrite Hm2, decide_False; [apply Hm; set_solver|]. intros Hx'. by apply (Hdisj x). }
    exists m3, s3. split; [done|]. split; intros x.
    + rewrite Hm3, Hm2. repeat case_decide; set_solver.
    + rewrite Hs3, Hs2. repeat case_decide; set_solver.
Qed.

Lemma moves_node k : is_Some (m !! k) -> exists l, moves k l.
Proof.
  revert k. refine (leaves_ind _ Hf _ _). intros k IH [fi Hk].
  assert (forall c, c ∈ fi_children fi -> link (shape m) k c) as Hl by (intros; apply link_Some; eauto).
  destruct (moves_list k (reverse (fi_children fi))) as (l & Hnd & Hd & Hs).
  { rewrite reverse_Permutation. by eapply forest_NoDup. }
  { intros c Hc. rewrite elem_of_reverse in Hc. by apply Hl. }
  { intros c Hc. rewrite elem_of_reverse in Hc. apply IH; [by apply Hl|]. by eapply forest_children. }
  assert (k ∉ l) as Hkl.
  { intros (c & Hc & Hck)%Hd. rewrite elem_of_reverse in Hc.
    pose proof (f_slot _ Hf _ _ (Hl c Hc)). apply (below_slot _ Hf) in Hck as [->|]; lia. }
  exists (k :: l). split; [by constructor|]. split.
  - intros x. rewrite elem_of_cons, Hd. split.
    + intros [->|(c & Hc & Hcx)]; [done|]. rewrite elem_of_reverse in Hc. eapply rtc_l; [by apply Hl|done].
    + intros Hkx. apply rtc_inv in Hkx as [->|(c & Hkc & Hcx)]; [by left|right].
      exists c. split; [|done]. apply elem_of_reverse. apply link_Some in Hkc as (fi' & Hk' & Hc).
      rewrite Hk in Hk'. by injection Hk' as <-.
  - intros fuel m' s rest Hm. cbn [length Nat.add split_loop]. rewrite Hm, Hk by left.
    cbn [expect mbind outcome_bind].
    destruct (Hs fuel (delete k m') (<[k := fi]> s) rest) as (m2 & s2 & -> & Hm2 & Hs2).
    { intros x Hx. rewrite lookup_delete_ne by (by intros ->). apply Hm. by right. }
    exists m2, s2. split; [done|]. split; intros x.
    + rewrite Hm2. destruct (decide (x = k)) as [->|Hne].
      * rewrite decide_False, lookup_delete_eq by done. by rewrite decide_True by left.
      * rewrite lookup_delete_ne by done. apply decide_ext. set_solver.
    + rewrite Hs2. destruct (decide (x = k)) as [->|Hne].
      * rewrite decide_False, lookup_insert_eq by done. by rewrite decide_True by left.
      * rewrite lookup_insert_ne by done. apply decide_ext. set_solver.
Qed.

Lemma split_loop_ok k :
  is_Some (m !! k) ->
  exists l m2 s2, split_loop (size m) m ∅ [k] = Ok (m2, s2) /\ moved l m ∅ m2 s2 /\
    forall x, x ∈ l <-> below (shape m) k x.
Proof.
  intros Hk. destruct (moves_node k Hk) as (l & Hnd & Hd & Hs).
  assert (length l <= size m)%nat as Hle.
  { apply keys_length; [done|]. intros x Hx%Hd. apply (below_dom _ Hf) in Hx.
    - by rewrite shape_lookup, fmap_is_Some in Hx.
    - rewrite shape_lookup. by apply fmap_is_Some. }
  destruct (Hs (size m - length l)%nat m ∅ []) as (m2 & s2 & He & Hmv); [done|].
  replace (length l + (size m - length l))%nat with (size m) in He by lia.
  exists l, m2, s2. rewrite He. split; [by destruct (size m - length l)%nat|]. done.
Qed.
End split.
