(* ===== verification/ForkLeaf.v ===== *)
(** * Adding blocks

    [add_new_leaf_slot] does not aggregate: it walks up from the new leaf and corrects the best
    and deepest blocks on the way. The invariant holds afterwards all the same. *)

From S2P Require Import Prelude OrdMap ForkChoice ForkTree ForkAggregate.
From S2P Require Import ForkProcess ForkInvariant ForkVotes.
Local Open Scope Z_scope.

(** ** The parts of [agg_ok] *)
Definition best_ok (m : gmap SlotHashKey ForkInfo) (k : SlotHashKey) (fi : ForkInfo) : Prop :=
  fi_is_candidate fi = true ->
  chosen (heavier m) (best_at m) k (filter (fun c => cand m c = true) (fi_children fi))
    (fi_best_slot fi).
Definition deep_ok (m : gmap SlotHashKey ForkInfo) (k : SlotHashKey) (fi : ForkInfo) : Prop :=
  chosen (deeper m) (fun c => (deepest_at m c, height_at m c + 1)%nat) (k, 1%nat)
    (fi_children fi) (fi_deepest_slot fi, fi_height fi).
Record base_ok (m : gmap SlotHashKey ForkInfo) (k : SlotHashKey) (fi : ForkInfo) : Prop := {
  bo_stake : fi_stake_voted_subtree fi = fi_stake_voted_at fi + zsum (sub_at m) (fi_children fi);
  bo_dup c : c ∈ fi_children fi -> dup_at m c = true -> fi_is_duplicate_confirmed fi = true;
  bo_best : below (shape m) k (fi_best_slot fi);
  bo_deep : below (shape m) k (fi_deepest_slot fi)
}.

Lemma agg_ok_parts m k fi : agg_ok m k fi <-> base_ok m k fi /\ best_ok m k fi /\ deep_ok m k fi.
Proof.
  split.
  - intros [H1 H2 H3 H4 H5 H6]. by repeat split.
  - intros ([H1 H4 H5 H6] & H2 & H3). by split.
Qed.

(** What the best and the deepest block of a block depend on. *)
Definition best_view (fi : ForkInfo) : Z * SlotHashKey * bool :=
  (fi_stake_voted_subtree fi, fi_best_slot fi, fi_is_candidate fi).
Definition deep_view (fi : ForkInfo) : Z * nat * SlotHashKey :=
  (fi_stake_voted_subtree fi, fi_height fi, fi_deepest_slot fi).

Lemma best_view_values m m' k :
  best_view <$> m !! k = best_view <$> m' !! k ->
  sub_at m k = sub_at m' k /\ best_at m k = best_at m' k /\ cand m k = cand m' k.
Proof.
  unfold sub_at, best_at, cand, best_view.
  destruct (m !! k), (m' !! k); simpl; intros [=]; repeat split; congruence.
Qed.
Lemma deep_view_values m m' k :
  deep_view <$> m !! k = deep_view <$> m' !! k ->
  sub_at m k = sub_at m' k /\ height_at m k = height_at m' k /\ deepest_at m k = deepest_at m' k.
Proof.
  unfold sub_at, height_at, deepest_at, deep_view.
  destruct (m !! k), (m' !! k); simpl; intros [=]; repeat split; congruence.
Qed.

Lemma best_ok_ext m m' k fi fi' :
  (forall c, c ∈ fi_children fi -> best_view <$> m !! c = best_view <$> m' !! c) ->
  fi_children fi' = fi_children fi -> fi_best_slot fi' = fi_best_slot fi ->
  fi_is_candidate fi' = fi_is_candidate fi -> best_ok m k fi -> best_ok m' k fi'.
Proof.
  intros Hv Hcs Hb Hc H. unfold best_ok. rewrite Hcs, Hb, Hc. intros Hcand.
  rewrite (filter_ext_in _ (fun c => cand m c = true)).
  2: { intros c Hc'%Hv%best_view_values. intuition congruence. }
  eapply chosen_ext; [| |by apply H].
  - intros x y [_ Hx%Hv%best_view_values]%list_elem_of_filter [_ Hy%Hv%best_view_values]%list_elem_of_filter.
    unfold heavier. intuition congruence || lia.
  - intros x [_ Hx%Hv%best_view_values]%list_elem_of_filter. tauto.
Qed.

Lemma deep_ok_ext m m' k fi fi' :
  (forall c, c ∈ fi_children fi -> deep_view <$> m !! c = deep_view <$> m' !! c) ->
  fi_children fi' = fi_children fi -> fi_deepest_slot fi' = fi_deepest_slot fi ->
  fi_height fi' = fi_height fi -> deep_ok m k fi -> deep_ok m' k fi'.
Proof.
  intros Hv Hcs Hd Hh H. unfold deep_ok. rewrite Hcs, Hd, Hh. eapply chosen_ext; [| |by apply H].
  - intros x y Hx%Hv%deep_view_values Hy%Hv%deep_view_values.
    unfold deeper, heavier. intuition congruence || lia.
  - intros x Hx%Hv%deep_view_values. simpl. intuition congruence.
Qed.

(** ** Comparing a block with its siblings *)
Section children.
Context (fc : HeaviestSubtreeForkChoice).
Abbreviation m := (fork_infos fc).

Lemma no_better_child_spec k w cs :
  w = sub_at m k -> (forall c, c ∈ cs -> is_Some (m !! c)) ->
  exists b, no_better_child fc k w cs = Ok b /\
    (b = true <-> forall c, c ∈ cs -> cand m c = true -> ~ heavier m c k).
Proof.
  intros ->. induction cs as [|c cs IH]; intros Hcs.
  - exists true. split; [done|]. split; [|done]. intros _ c Hc. by apply elem_of_nil in Hc.
  - destruct IH as (b & Hb & Hspec); [intros; apply Hcs; by right|].
    destruct (Hcs c) as [ci Hci]; [left|]. cbn [no_better_child].
    unfold stake_voted_subtree, is_candidate. rewrite Hci. cbn [fmap option_fmap option_map expect mbind outcome_bind].
    assert (cand m c = fi_is_candidate ci) as Hc by (unfold cand; by rewrite Hci).
    assert (fi_stake_voted_subtree ci = sub_at m c) as -> by (unfold sub_at; by rewrite Hci).
    rewrite <-Hc. destruct (cand m c) eqn:Ecand; cbn [negb].
    + destruct (_ || _) eqn:E.
      * exists false. split; [done|]. split; [done|]. intros H. exfalso. apply (H c); [left|done|].
        apply orb_true_iff in E as [?%Z.ltb_lt|[?%Z.eqb_eq ?%oltb_lt]%andb_true_iff]; [by left|by right].
      * exists b. split; [done|]. rewrite Hspec. apply orb_false_iff in E as [E1 E2].
        split; intros H c' Hc'; [|apply H; by right]. apply elem_of_cons in Hc' as [->|Hc']; [|by apply H].
        intros _ [Hh|[Hh1 Hh2%oltb_lt]]; [lia|]. rewrite Hh1, Z.eqb_refl, Hh2 in E2. done.
    + exists b. split; [done|]. rewrite Hspec. split; intros H c' Hc'; [|apply H; by right].
      apply elem_of_cons in Hc' as [->|Hc']; [congruence|by apply H].
Qed.

Lemma no_deeper_child_spec k w h cs :
  w = sub_at m k -> h = height_at m k -> (forall c, c ∈ cs -> is_Some (m !! c)) ->
  exists b, no_deeper_child fc k w h cs = Ok b /\
    (b = true <-> forall c, c ∈ cs -> ~ deeper m c k).
Proof.
  intros -> ->. induction cs as [|c cs IH]; intros Hcs.
  - exists true. split; [done|]. split; [|done]. intros _ c Hc. by apply elem_of_nil in Hc.
  - destruct IH as (b & Hb & Hspec); [intros; apply Hcs; by right|].
    destruct (Hcs c) as [ci Hci]; [left|]. cbn [no_deeper_child].
    unfold stake_voted_subtree, height. rewrite Hci. cbn [fmap option_fmap option_map expect mbind outcome_bind].
    assert (fi_stake_voted_subtree ci = sub_at m c) as -> by (unfold sub_at; by rewrite Hci).
    assert (fi_height ci = height_at m c) as -> by (unfold height_at; by rewrite Hci).
    assert (forall R : Prop, (deeper m c k -> False) ->
      ((forall c, c ∈ cs -> ~ deeper m c k) <-> forall c', c' ∈ c :: cs -> ~ deeper m c' k)) as Hno.
    { intros _ H. split; intros H' c' Hc'; [|apply H'; by right].
      apply elem_of_cons in Hc' as [->|Hc']; [done|by apply H']. }
    assert (deeper m c k -> false = true <-> forall c', c' ∈ c :: cs -> ~ deeper m c' k) as Hyes.
    { intros H. split; [done|]. intros H'. exfalso. apply (H' c); [left|done]. }
    unfold deeper, heavier, olt in Hno, Hyes |- *.
    destruct (Nat.compare_spec (height_at m c) (height_at m k)), (Z.compare_spec (sub_at m c) (sub_at m k)),
      (cmp c k) eqn:E;
      first [exists false; split; [done|]; apply Hyes; naive_solver lia
            |exists b; split; [done|]; rewrite Hspec; apply (Hno True); naive_solver lia].
Qed.

Lemma is_best_child_spec k ki p pi :
  m !! k = Some ki -> fi_parent ki = Some p -> m !! p = Some pi ->
  (forall c, c ∈ fi_children pi -> is_Some (m !! c)) ->
  exists b, is_best_child fc k = Ok b /\
    (b = true <-> forall c, c ∈ fi_children pi -> cand m c = true -> ~ heavier m c k).
Proof.
  intros Hk Hp Hpi Hcs. unfold is_best_child, stake_voted_subtree, parent, children.
  rewrite Hk. cbn [fmap option_fmap option_map expect mbind option_bind outcome_bind].
  rewrite Hp, Hpi. cbn [fmap option_fmap option_map expect mbind outcome_bind].
  apply no_better_child_spec; [|done]. unfold sub_at. by rewrite Hk.
Qed.

Lemma is_deepest_child_spec k ki p pi :
  m !! k = Some ki -> fi_parent ki = Some p -> m !! p = Some pi ->
  (forall c, c ∈ fi_children pi -> is_Some (m !! c)) ->
  exists b, is_deepest_child fc k = Ok b /\
    (b = true <-> forall c, c ∈ fi_children pi -> ~ deeper m c k).
Proof.
  intros Hk Hp Hpi Hcs. unfold is_deepest_child, stake_voted_subtree, height, parent, children.
  rewrite Hk. cbn [fmap option_fmap option_map expect mbind option_bind outcome_bind].
  rewrite Hp, Hpi. cbn [fmap option_fmap option_map expect mbind outcome_bind].
  apply no_deeper_child_spec; [| |done]; [unfold sub_at|unfold height_at]; by rewrite Hk.
Qed.
End children.

(** ** The best block, walking up *)
Section set_best.
Context (m : gmap SlotHashKey ForkInfo) (a : SlotHashKey) (ai : ForkInfo) (b : SlotHashKey).
Context (Ha : m !! a = Some ai).
Abbreviation m1 := (<[a := set_best_slot ai b]> m).

Lemma set_best_values c :
  sub_at m1 c = sub_at m c /\ cand m1 c = cand m c /\
  best_at m1 c = if decide (a = c) then b else best_at m c.
Proof using Ha.
  unfold sub_at, cand, best_at. destruct (decide (a = c)) as [->|Hne].
  - by rewrite lookup_insert_eq, Ha.
  - by rewrite lookup_insert_ne.
Qed.

Lemma set_best_heavier c c' : heavier m1 c c' <-> heavier m c c'.
Proof using Ha.
  unfold heavier. destruct (set_best_values c) as [-> _], (set_best_values c') as [-> _]. done.
Qed.

Lemma set_best_greatest l c :
  greatest (heavier m1) (filter (fun c => cand m1 c = true) l) c <->
  greatest (heavier m) (filter (fun c => cand m c = true) l) c.
Proof using Ha.
  rewrite (filter_ext_in _ (fun c => cand m c = true)).
  2: { intros x _. by destruct (set_best_values x) as (_ & -> & _). }
  unfold greatest. by setoid_rewrite set_best_heavier.
Qed.

Lemma set_best_shape : shape m1 = shape m.
Proof using Ha. by eapply shape_insert. Qed.

(** Blocks other than the parent do not notice. *)
Lemma set_best_other n ni :
  forest (shape m) -> n <> a -> m !! n = Some ni -> ~ link (shape m) n a ->
  best_ok m n ni -> best_ok m1 n ni.
Proof using Ha.
  intros Hf Hne Hn Hl. apply best_ok_ext; [|done..]. intros c Hc.
  rewrite lookup_insert_ne; [done|]. intros <-. apply Hl, link_Some. eauto.
Qed.

(** A parent whose best block was not [a]'s keeps it. *)
Lemma set_best_kept n ni :
  n <> a -> fi_best_slot ni <> fi_best_slot ai -> best_ok m n ni -> best_ok m1 n ni.
Proof using Ha.
  intros Hne Hb H Hc. destruct (H Hc) as [[Hnil He]|(c & Hg & He)].
  - left. split; [|done]. rewrite (filter_ext_in _ (fun c => cand m c = true)); [done|].
    intros x _. by destruct (set_best_values x) as (_ & -> & _).
  - right. exists c. split; [by apply set_best_greatest|].
    destruct (set_best_values c) as (_ & _ & ->). rewrite decide_False; [done|].
    intros <-. apply Hb. rewrite He. unfold best_at. by rewrite Ha.
Qed.
End set_best.

Definition forget_best (fi : ForkInfo) : ForkInfo := set_best_slot fi default_key.

(** The walk has set the best block of [x] from [pb] to [leaf]: every block but the parent of
    [x] is right, and the parent is wrong exactly if its best block was [pb]. *)
Record walk_best (m : gmap SlotHashKey ForkInfo) (pb leaf x : SlotHashKey) : Prop := {
  wb_below : below (shape m) x leaf;
  wb_above a : link (shape m) a x -> below (shape m) a pb;
  wb_inside n ni : m !! n = Some ni -> below (shape m) n (fi_best_slot ni);
  wb_other n ni : m !! n = Some ni -> ~ link (shape m) n x -> best_ok m n ni;
  wb_at : best_at m x = leaf;
  wb_greatest a ai : link (shape m) a x -> m !! a = Some ai -> fi_is_candidate ai = true ->
    fi_best_slot ai = pb ->
    greatest (heavier m) (filter (fun c => cand m c = true) (fi_children ai)) x;
  wb_kept a ai : link (shape m) a x -> m !! a = Some ai -> fi_best_slot ai <> pb -> best_ok m a ai
}.

Section walk_best.
Context (m : gmap SlotHashKey ForkInfo) (pb leaf x a : SlotHashKey) (ai : ForkInfo).
Context (Hf : forest (shape m)) (Hw : walk_best m pb leaf x).
Context (Hl : link (shape m) a x) (Ha : m !! a = Some ai).

Lemma walk_best_done : fi_best_slot ai <> pb -> forall n ni, m !! n = Some ni -> best_ok m n ni.
Proof using Hf Hw Hl Ha.
  intros Hne n ni Hn. destruct (decide (n = a)) as [Hna|Hna].
  - subst n. rewrite Ha in Hn. injection Hn as <-. by apply (wb_kept _ _ _ _ Hw).
  - apply (wb_other _ _ _ _ Hw); [done|]. intros Hl'. by rewrite (link_inj _ Hf n a x) in Hna.
Qed.

(** The block [pb] is below one child of a block only. *)
Lemma walk_best_child g gi :
  link (shape m) g a -> m !! g = Some gi -> fi_best_slot ai = pb -> fi_best_slot gi = pb ->
  best_ok m g gi -> fi_is_candidate gi = true ->
  greatest (heavier m) (filter (fun c => cand m c = true) (fi_children gi)) a.
Proof using Hf Hw Hl Ha.
  intros Hga Hg Hai Hgi Hbo Hc.
  assert (below (shape m) a pb) as Hap by (by apply (wb_above _ _ _ _ Hw)).
  destruct (Hbo Hc) as [[_ He]|(c & Hgr & He)].
  - pose proof (f_slot _ Hf _ _ Hga). rewrite Hgi in He. subst g.
    apply (below_slot _ Hf) in Hap as [->|]; lia.
  - replace a with c; [done|]. destruct Hgr as [[_ Hin]%list_elem_of_filter _].
    apply (siblings_disjoint _ Hf g c a pb); [by apply link_Some; eauto|done| |done].
    rewrite <-Hgi, He. unfold best_at. destruct (m !! c) as [ci|] eqn:Hci; simpl; [|done].
    by apply (wb_inside _ _ _ _ Hw).
Qed.

Lemma walk_best_step :
  fi_best_slot ai = pb -> walk_best (<[a := set_best_slot ai leaf]> m) pb leaf a.
Proof using Hf Hw Hl Ha.
  intros Hpb. set (m1 := <[a := set_best_slot ai leaf]> m).
  assert (shape m1 = shape m) as Hsh by (by apply set_best_shape).
  pose proof (wb_below _ _ _ _ Hw) as Hxl. pose proof (wb_above _ _ _ _ Hw a Hl) as Hap.
  assert (forall n, ~ link (shape m) n n) as Hirr.
  { intros n H. apply (f_slot _ Hf) in H. lia. }
  assert (forall g gi, link (shape m) g a -> m1 !! g = Some gi -> m !! g = Some gi /\ best_ok m g gi) as Hpar.
  { intros g gi Hga Hg. unfold m1 in Hg. rewrite lookup_insert_ne in Hg.
    2: { intros He. subst g. by apply Hirr in Hga. }
    split; [done|]. apply (wb_other _ _ _ _ Hw); [done|]. intros Hgx.
    rewrite (link_inj _ Hf g a x) in Hga by done. by apply Hirr in Hga. }
  split; rewrite ?Hsh.
  - by eapply rtc_l.
  - intros g Hg. by eapply rtc_l.
  - intros n ni Hn. destruct (decide (n = a)) as [->|Hne].
    + unfold m1 in Hn. rewrite lookup_insert_eq in Hn. injection Hn as <-. by eapply rtc_l.
    + unfold m1 in Hn. rewrite lookup_insert_ne in Hn by done. by apply (wb_inside _ _ _ _ Hw).
  - intros n ni Hn Hna. destruct (decide (n = a)) as [->|Hne].
    + unfold m1 in Hn. rewrite lookup_insert_eq in Hn. injection Hn as <-. intros Hc. right. exists x.
      split; [apply set_best_greatest; [done|]; by apply (wb_greatest _ _ _ _ Hw a ai)|].
      unfold m1. destruct (set_best_values m a ai leaf Ha x) as (_ & _ & ->). simpl.
      by case_decide; [|rewrite (wb_at _ _ _ _ Hw)].
    + unfold m1 in Hn. rewrite lookup_insert_ne in Hn by done. apply set_best_other; try done.
      apply (wb_other _ _ _ _ Hw); [done|]. intros Hnx. apply Hne. by apply (link_inj _ Hf n a x).
  - unfold best_at, m1. by rewrite lookup_insert_eq.
  - intros g gi Hga Hg Hc Hgb. destruct (Hpar g gi Hga Hg) as [Hg' Hbo].
    apply set_best_greatest; [done|]. by eapply walk_best_child.
  - intros g gi Hga Hg Hgb. destruct (Hpar g gi Hga Hg) as [Hg' Hbo].
    apply set_best_kept; [done| |by rewrite Hpb|done]. intros ->. by apply Hirr in Hga.
Qed.
End walk_best.

Lemma propagate_best_ok fuel fc x xi pb leaf :
  tree (shape (fork_infos fc)) (tree_root fc) -> fork_infos fc !! x = Some xi ->
  walk_best (fork_infos fc) pb leaf x ->
  (rank (shape (fork_infos fc)) (fun y => (y.1 < x.1)%Z) <= fuel)%nat ->
  exists m', propagate_best fuel fc leaf pb (fi_parent xi) = Ok (set_fork_infos fc m') /\
    (forall n, forget_best <$> m' !! n = forget_best <$> fork_infos fc !! n) /\
    (forall n ni, m' !! n = Some ni -> best_ok m' n ni /\
      below (shape (fork_infos fc)) n (fi_best_slot ni)).
Proof.
  revert fc x xi. induction fuel as [|fuel IH]; intros fc x xi Ht Hx Hw Hr;
    pose proof (t_forest _ _ Ht) as Hf; pose proof (shape_Some _ _ _ Hx) as Hsx; unfold links in Hsx;
    (destruct (fi_parent xi) as [a|] eqn:Hp;
     [pose proof (tree_parent _ _ Ht x a _ Hsx) as Hl; pose proof (link_depth _ Hf _ _ Hl)|]).
  - lia.
  - exists (fork_infos fc). split; [by destruct fc|]. split; [done|]. intros n ni Hn.
    split; [|by apply (wb_inside _ _ _ _ Hw)]. apply (wb_other _ _ _ _ Hw); [done|].
    intros Hl. apply (f_parent _ Hf) in Hl as [cs Hl]. congruence.
  - destruct (link_dom _ _ _ Hf Hl) as [Ha _]. rewrite shape_lookup in Ha.
    apply fmap_is_Some in Ha as [ai Ha]. cbn [propagate_best]. rewrite Ha. cbn [expect mbind outcome_bind].
    case_bool_decide as Hpb.
    + rewrite (update_info_insert fc a ai) by done. set (m1 := <[a := set_best_slot ai leaf]> (fork_infos fc)).
      assert (shape m1 = shape (fork_infos fc)) as Hsh by (by apply set_best_shape).
      destruct (IH (set_fork_infos fc m1) a (set_best_slot ai leaf)) as (m' & He & Hfg & Hall).
      { simpl. by rewrite Hsh. }
      { apply lookup_insert_eq. }
      { by eapply walk_best_step. }
      { simpl. rewrite Hsh. lia. }
      simpl in Hfg, Hall. rewrite Hsh in Hall. exists m'. split; [done|]. split; [|done].
      intros n. rewrite Hfg. unfold m1. destruct (decide (n = a)) as [->|Hne].
      * by rewrite lookup_insert_eq, Ha.
      * by rewrite lookup_insert_ne.
    + exists (fork_infos fc). split; [by destruct fc|]. split; [done|]. intros n ni Hn.
      split; [|by apply (wb_inside _ _ _ _ Hw)]. by eapply walk_best_done.
  - exists (fork_infos fc). split; [by destruct fc|]. split; [done|]. intros n ni Hn.
    split; [|by apply (wb_inside _ _ _ _ Hw)]. apply (wb_other _ _ _ _ Hw); [done|].
    intros Hl. apply (f_parent _ Hf) in Hl as [cs Hl]. congruence.
Qed.

(** ** The deepest block, walking up *)
Section set_deepest.
Context (m : gmap SlotHashKey ForkInfo) (a : SlotHashKey) (ai : ForkInfo) (b : SlotHashKey) (h : nat).
Context (Ha : m !! a = Some ai) (Hh : (fi_height ai <= h)%nat).
Abbreviation m1 := (<[a := set_deepest ai b h]> m).

Lemma set_deepest_values c :
  sub_at m1 c = sub_at m c /\
  (a = c -> height_at m1 c = h /\ deepest_at m1 c = b) /\
  (a <> c -> height_at m1 c = height_at m c /\ deepest_at m1 c = deepest_at m c) /\
  (height_at m c <= height_at m1 c)%nat.
Proof using Ha Hh.
  unfold sub_at, height_at, deepest_at. destruct (decide (a = c)) as [->|Hne].
  - rewrite lookup_insert_eq, Ha. simpl. done.
  - by rewrite lookup_insert_ne.
Qed.

Lemma set_deepest_ne c c' : a <> c -> a <> c' -> deeper m1 c c' <-> deeper m c c'.
Proof using Ha Hh.
  intros Hc Hc'. unfold deeper, heavier.
  destruct (set_deepest_values c) as (-> & _ & E & _), (set_deepest_values c') as (-> & _ & E' & _).
  by rewrite (proj1 (E Hc)), (proj1 (E' Hc')).
Qed.

(** A greater height keeps [a] deeper than the blocks it was deeper than. *)
Lemma set_deepest_grows c : a <> c -> deeper m a c -> deeper m1 a c.
Proof using Ha Hh.
  intros Hc. unfold deeper, heavier.
  destruct (set_deepest_values a) as (-> & E & _ & Hle), (set_deepest_values c) as (-> & _ & E' & _).
  rewrite (proj1 (E' Hc)). intros [?|[? ?]]; [left; lia|].
  destruct (decide (height_at m a = height_at m1 a)) as [Heq|]; [right; by rewrite <-Heq|left; lia].
Qed.

(** The parent of [a] is right, or [a] is now its deepest child. *)
Lemma set_deepest_parent g gi :
  g <> a -> deep_ok m g gi ->
  (forall c, c ∈ fi_children gi -> ~ deeper m1 c a) \/ deep_ok m1 g gi.
Proof using Ha Hh.
  intros Hga [[Hnil He]|(c & [Hc Hgr] & He)].
  { right. left. done. }
  destruct (decide (a = c)) as [Hac|Hac].
  { left. subst c. intros c' Hc' Hd. destruct (decide (c' = a)) as [->|Hne].
    - by eapply deeper_asym.
    - eapply deeper_asym; [exact Hd|]. apply set_deepest_grows; [done|]. by apply Hgr. }
  assert (forall c', c' ∈ fi_children gi -> c' <> c -> c' <> a -> deeper m1 c c') as Hgr'.
  { intros c' Hc' Hne Hna. apply set_deepest_ne; [done..|]. by apply Hgr. }
  destruct (deeper_total m1 c a) as [Hd|Hd]; [done|right|left].
  - right. exists c. split.
    + split; [done|]. intros c' Hc' Hne. destruct (decide (c' = a)) as [->|]; [done|by apply Hgr'].
    + rewrite He. destruct (set_deepest_values c) as (_ & _ & E & _). by destruct (E Hac) as [-> ->].
  - intros c' Hc' Hd'. destruct (decide (c' = a)) as [->|Hna]; [by eapply deeper_asym|].
    destruct (decide (c' = c)) as [->|Hnc]; [by eapply deeper_asym|].
    eapply deeper_asym; [exact Hd'|]. etrans; [exact Hd|]. by apply Hgr'.
Qed.
End set_deepest.

Record walk_deep (m : gmap SlotHashKey ForkInfo) (leaf x : SlotHashKey) : Prop := {
  wd_below : below (shape m) x leaf;
  wd_inside n ni : m !! n = Some ni -> below (shape m) n (fi_deepest_slot ni);
  wd_other n ni : m !! n = Some ni -> ~ link (shape m) n x -> deep_ok m n ni;
  wd_at : deepest_at m x = leaf;
  wd_height a ai : link (shape m) a x -> m !! a = Some ai ->
    fi_height ai = 1%nat \/ exists c, c ∈ fi_children ai /\ (fi_height ai <= height_at m c + 1)%nat;
  wd_parent a ai : link (shape m) a x -> m !! a = Some ai ->
    (forall c, c ∈ fi_children ai -> ~ deeper m c x) \/ deep_ok m a ai
}.

Section walk_deep.
Context (m : gmap SlotHashKey ForkInfo) (leaf x a : SlotHashKey) (ai : ForkInfo).
Context (Hf : forest (shape m)) (Hw : walk_deep m leaf x).
Context (Hl : link (shape m) a x) (Ha : m !! a = Some ai).

Lemma walk_deep_done :
  ~ (forall c, c ∈ fi_children ai -> ~ deeper m c x) -> forall n ni, m !! n = Some ni -> deep_ok m n ni.
Proof using Hf Hw Hl Ha.
  intros Hno n ni Hn. destruct (decide (n = a)) as [Hna|Hna].
  - subst n. rewrite Ha in Hn. injection Hn as <-. by destruct (wd_parent _ _ _ Hw a ai Hl Ha).
  - apply (wd_other _ _ _ Hw); [done|]. intros Hl'. by rewrite (link_inj _ Hf n a x) in Hna.
Qed.

Lemma walk_deep_step :
  (forall c, c ∈ fi_children ai -> ~ deeper m c x) ->
  walk_deep (<[a := set_deepest ai leaf (height_at m x + 1)]> m) leaf a.
Proof using Hf Hw Hl Ha.
  intros Hd. set (h := (height_at m x + 1)%nat). set (m1 := <[a := set_deepest ai leaf h]> m).
  assert (shape m1 = shape m) as Hsh by (by eapply shape_insert).
  assert (forall n, ~ link (shape m) n n) as Hirr.
  { intros n H. apply (f_slot _ Hf) in H. lia. }
  assert (x ∈ fi_children ai) as Hxc.
  { apply link_Some in Hl as (fi & Hfi & ?). rewrite Ha in Hfi. by injection Hfi as ->. }
  assert (forall c, c ∈ fi_children ai -> c <> x -> deeper m x c) as Hdx.
  { intros c Hc Hne. destruct (deeper_total m x c) as [|H]; [done..|]. by apply Hd in H. }
  assert (fi_height ai <= h)%nat as Hh.
  { unfold h. destruct (wd_height _ _ _ Hw a ai Hl Ha) as [->|(c & Hc & Hle)]; [lia|].
    destruct (decide (c = x)) as [->|Hne]; [done|]. destruct (Hdx c Hc Hne) as [?|[? _]]; lia. }
  pose proof (set_deepest_values m a ai leaf h Ha Hh) as Hval. fold m1 in Hval.
  assert (forall c, c ∈ fi_children ai -> a <> c) as Hac.
  { intros c Hc ->. apply (Hirr c), link_Some. eauto. }
  assert (forall g gi, link (shape m) g a -> m1 !! g = Some gi -> g <> a /\ deep_ok m g gi) as Hpar.
  { intros g gi Hga Hg. assert (g <> a) as Hne by (intros ->; by apply Hirr in Hga). split; [done|].
    unfold m1 in Hg. rewrite lookup_insert_ne in Hg by done. apply (wd_other _ _ _ Hw); [done|].
    intros Hgx. by rewrite (link_inj _ Hf g a x) in Hne. }
  split; rewrite ?Hsh.
  - eapply rtc_l; [done|]. apply Hw.
  - intros n ni Hn. unfold m1 in Hn. apply lookup_insert_Some in Hn as [[<- <-]|[Hne Hn]].
    + eapply rtc_l; [done|]. apply Hw.
    + by apply (wd_inside _ _ _ Hw).
  - intros n ni Hn Hna. unfold m1 in Hn. apply lookup_insert_Some in Hn as [[<- <-]|[Hne Hn]].
    + right. exists x. split.
      * split; [done|]. intros c Hc Hcx. apply set_deepest_ne; auto.
      * destruct (Hval x) as (_ & _ & E & _). destruct (E (Hac x Hxc)) as [-> ->].
        by rewrite (wd_at _ _ _ Hw).
    + eapply deep_ok_ext; [|done..|apply (wd_other _ _ _ Hw); [done|]].
      * intros c Hc. unfold m1. rewrite lookup_insert_ne; [done|]. intros <-. apply Hna, link_Some. eauto.
      * intros Hnx. apply Hne. by rewrite (link_inj _ Hf n a x).
  - apply (Hval a). done.
  - intros g gi Hga Hg. destruct (Hpar g gi Hga Hg) as [Hne [[_ [= _ ->]]|(c & [Hc _] & [= _ ->])]]; [by left|].
    right. exists c. split; [done|]. destruct (Hval c) as (_ & _ & _ & ?). lia.
  - intros g gi Hga Hg. destruct (Hpar g gi Hga Hg) as [Hne Hdo]. by apply set_deepest_parent.
Qed.
End walk_deep.

Definition forget_deep (fi : ForkInfo) : ForkInfo := set_deepest fi default_key 0.

Lemma propagate_deepest_ok fuel fc x xi leaf :
  tree (shape (fork_infos fc)) (tree_root fc) -> fork_infos fc !! x = Some xi ->
  walk_deep (fork_infos fc) leaf x ->
  (rank (shape (fork_infos fc)) (fun y => (y.1 < x.1)%Z) <= fuel)%nat ->
  exists m', propagate_deepest fuel fc leaf (fi_parent xi) x (fi_height xi) = Ok (set_fork_infos fc m') /\
    (forall n, forget_deep <$> m' !! n = forget_deep <$> fork_infos fc !! n) /\
    (forall n ni, m' !! n = Some ni -> deep_ok m' n ni /\
      below (shape (fork_infos fc)) n (fi_deepest_slot ni)).
Proof.
  revert fc x xi. induction fuel as [|fuel IH]; intros fc x xi Ht Hx Hw Hr;
    pose proof (t_forest _ _ Ht) as Hf; pose proof (shape_Some _ _ _ Hx) as Hsx; unfold links in Hsx;
    (destruct (fi_parent xi) as [a|] eqn:Hp;
     [pose proof (tree_parent _ _ Ht x a _ Hsx) as Hl; pose proof (link_depth _ Hf _ _ Hl)|]).
  - lia.
  - exists (fork_infos fc). split; [by destruct fc|]. split; [done|]. intros n ni Hn.
    split; [|by apply (wd_inside _ _ _ Hw)]. apply (wd_other _ _ _ Hw); [done|].
    intros Hl. apply (f_parent _ Hf) in Hl as [cs Hl]. congruence.
  - destruct (link_dom _ _ _ Hf Hl) as [Ha _]. rewrite shape_lookup in Ha.
    apply fmap_is_Some in Ha as [ai Ha]. cbn [propagate_deepest].
    destruct (is_deepest_child_spec fc x xi a ai Hx Hp Ha) as (b & -> & Hspec).
    { intros c Hc. by eapply forest_children. }
    cbn [mbind outcome_bind]. destruct b; cbn [negb].
    + rewrite Ha. cbn [expect mbind outcome_bind]. rewrite (update_info_insert fc a ai) by done.
      assert (fi_height xi = height_at (fork_infos fc) x) as Hh by (unfold height_at; by rewrite Hx).
      rewrite Hh. set (m1 := <[a := set_deepest ai leaf (height_at (fork_infos fc) x + 1)]> (fork_infos fc)).
      assert (shape m1 = shape (fork_infos fc)) as Hsh by (by eapply shape_insert).
      destruct (IH (set_fork_infos fc m1) a (set_deepest ai leaf (height_at (fork_infos fc) x + 1)))
        as (m' & He & Hfg & Hall).
      { simpl. by rewrite Hsh. }
      { apply lookup_insert_eq. }
      { eapply walk_deep_step; [done..|]. by apply Hspec. }
      { simpl. rewrite Hsh. lia. }
      simpl in Hfg, Hall. rewrite Hsh in Hall. exists m'. split; [done|]. split; [|done].
      intros n. rewrite Hfg. unfold m1. destruct (decide (n = a)) as [->|Hne].
      * by rewrite lookup_insert_eq, Ha.
      * by rewrite lookup_insert_ne.
    + exists (fork_infos fc). split; [by destruct fc|]. split; [done|]. intros n ni Hn.
      split; [|by apply (wd_inside _ _ _ Hw)]. eapply walk_deep_done; [done..| |done].
      intros H'. by apply Hspec in H'.
  - exists (fork_infos fc). split; [by destruct fc|]. split; [done|]. intros n ni Hn.
    split; [|by apply (wd_inside _ _ _ Hw)]. apply (wd_other _ _ _ Hw); [done|].
    intros Hl. apply (f_parent _ Hf) in Hl as [cs Hl]. congruence.
Qed.

Lemma forget_best_fields fi fi' :
  forget_best fi = forget_best fi' ->
  links fi = links fi' /\ fi_stake_voted_at fi = fi_stake_voted_at fi' /\
  fi_stake_voted_subtree fi = fi_stake_voted_subtree fi' /\ fi_height fi = fi_height fi' /\
  fi_deepest_slot fi = fi_deepest_slot fi' /\ validity fi = validity fi' /\
  deep_view fi = deep_view fi'.
Proof.
  destruct fi, fi'. unfold forget_best, set_best_slot, links, validity, deep_view. simpl.
  intros [=]. subst. done.
Qed.

Lemma forget_deep_fields fi fi' :
  forget_deep fi = forget_deep fi' ->
  links fi = links fi' /\ fi_stake_voted_at fi = fi_stake_voted_at fi' /\
  fi_stake_voted_subtree fi = fi_stake_voted_subtree fi' /\
  fi_best_slot fi = fi_best_slot fi' /\ validity fi = validity fi' /\
  best_view fi = best_view fi'.
Proof.
  destruct fi, fi'. unfold forget_deep, set_deepest, links, validity, best_view, fi_is_candidate. simpl.
  intros [=]. subst. done.
Qed.

(** Equality of two maps up to a part of the entries. *)
Definition eq_upto {A} (f : ForkInfo -> A) (m m' : gmap SlotHashKey ForkInfo) : Prop :=
  forall n, f <$> m !! n = f <$> m' !! n.

Lemma eq_upto_Some {A} (f : ForkInfo -> A) m m' n ni :
  eq_upto f m m' -> m !! n = Some ni -> exists ni', m' !! n = Some ni' /\ f ni = f ni'.
Proof.
  intros H Hn. specialize (H n). rewrite Hn in H. destruct (m' !! n) as [ni'|]; [|done].
  injection H as H. eauto.
Qed.

Lemma eq_upto_impl {A B} (f : ForkInfo -> A) (g : ForkInfo -> B) m m' :
  (forall x y, f x = f y -> g x = g y) -> eq_upto f m m' -> eq_upto g m m'.
Proof.
  intros Hfg H n. specialize (H n). destruct (m !! n), (m' !! n); simpl in *; try done.
  f_equal. apply Hfg. congruence.
Qed.

Lemma eq_upto_sym {A} (f : ForkInfo -> A) m m' : eq_upto f m m' -> eq_upto f m' m.
Proof. intros H n. by rewrite H. Qed.

Lemma eq_upto_shape m m' : eq_upto links m m' -> shape m = shape m'.
Proof. intros H. apply map_eq. intros n. rewrite !shape_lookup. apply H. Qed.

Lemma walk_deep_ext m m' leaf x :
  eq_upto forget_best m' m -> walk_deep m leaf x -> walk_deep m' leaf x.
Proof.
  intros He Hw. assert (shape m' = shape m) as Hsh.
  { apply eq_upto_shape. eapply eq_upto_impl; [|exact He]. by intros ?? [? _]%forget_best_fields. }
  assert (eq_upto deep_view m m') as Hv.
  { apply eq_upto_sym. eapply eq_upto_impl; [|exact He]. by intros ?? (_ & _ & _ & _ & _ & _ & ?)%forget_best_fields. }
  assert (forall c c', deeper m' c c' <-> deeper m c c') as Hd.
  { intros c c'. destruct (deep_view_values _ _ _ (Hv c)) as (E1 & E2 & _).
    destruct (deep_view_values _ _ _ (Hv c')) as (E1' & E2' & _). unfold deeper, heavier.
    by rewrite E1, E2, E1', E2'. }
  assert (forall n ni, m' !! n = Some ni -> exists ni', m !! n = Some ni' /\
    fi_children ni = fi_children ni' /\ fi_height ni = fi_height ni' /\
    fi_deepest_slot ni = fi_deepest_slot ni') as Hn.
  { intros n ni (ni' & Hn' & (El & _ & _ & Eh & Ed & _ & _)%forget_best_fields)%(eq_upto_Some _ _ m); [|done].
    injection El as _ Ec. eauto 10. }
  assert (forall n ni, m' !! n = Some ni -> (exists ni', m !! n = Some ni' /\ deep_ok m n ni') -> deep_ok m' n ni) as Hdo.
  { intros n ni (ni' & Hn' & Ec & Eh & Ed)%Hn (ni2 & Hn2 & Hok). rewrite Hn' in Hn2. injection Hn2 as <-.
    eapply deep_ok_ext; [|done..]. intros c _. apply Hv. }
  split; rewrite ?Hsh.
  - apply Hw.
  - intros n ni (ni' & Hn' & _ & _ & ->)%Hn. by apply (wd_inside _ _ _ Hw).
  - intros n ni Hn' Hl. apply Hdo; [done|]. apply Hn in Hn' as (ni' & Hn' & _).
    exists ni'. split; [done|]. by apply (wd_other _ _ _ Hw).
  - destruct (deep_view_values _ _ _ (Hv x)) as (_ & _ & <-). apply Hw.
  - intros a ai Hl (ai' & Ha & -> & -> & _)%Hn.
    destruct (wd_height _ _ _ Hw a ai' Hl Ha) as [?|(c & Hc & Hle)]; [by left|right].
    exists c. split; [done|]. by destruct (deep_view_values _ _ _ (Hv c)) as (_ & <- & _).
  - intros a ai Hl Ha. pose proof Ha as (ai' & Ha' & Ec & _)%Hn.
    destruct (wd_parent _ _ _ Hw a ai' Hl Ha') as [Hno|Hok].
    + left. rewrite Ec. intros c Hc. rewrite Hd. by apply Hno.
    + right. apply Hdo; [done|]. eauto.
Qed.
