(* ===== verification/ForkAddLeaf.v ===== *)
(** * [add_new_leaf_slot] keeps the invariant *)

From S2P Require Import Prelude OrdMap ForkChoice ForkTree ForkAggregate.
From S2P Require Import ForkProcess ForkInvariant ForkVotes ForkLeaf.
Local Open Scope Z_scope.

(** ** The new leaf [k] under [p], before the walks up *)
Section leaf.
Context (m : gmap SlotHashKey ForkInfo) (root k p : SlotHashKey) (pi : ForkInfo).
Context (Ht : tree (shape m) root) (Hk : m !! k = None) (Hp : m !! p = Some pi) (Hlt : p.1 < k.1).
Context (Hagg : forall n ni, m !! n = Some ni -> agg_ok m n ni) (Hv : valid_ok m).
Abbreviation leaf := (new_leaf k (Some p) (fi_latest_invalid_ancestor pi)).
Abbreviation pi1 := (set_children pi (os_insert k (fi_children pi))).
Abbreviation m1 := (<[p := pi1]> (<[k := leaf]> m)).
#[local] Abbreviation Hf := (t_forest _ _ Ht).

Lemma leaf_ne : p <> k.
Proof. intros He. rewrite He in Hlt. lia. Qed.

Lemma leaf_lookup n ni :
  m1 !! n = Some ni -> (n = p /\ ni = pi1) \/ (n = k /\ ni = leaf) \/ (n <> p /\ n <> k /\ m !! n = Some ni).
Proof.
  intros [[<- <-]|[Hne [[<- <-]|[Hne' Hn]]%lookup_insert_Some]]%lookup_insert_Some; auto.
Qed.
Lemma leaf_lookup_p : m1 !! p = Some pi1.
Proof. apply lookup_insert_eq. Qed.
Lemma leaf_lookup_k : m1 !! k = Some leaf.
Proof. rewrite lookup_insert_ne by (apply leaf_ne). apply lookup_insert_eq. Qed.
Lemma leaf_lookup_ne n : n <> p -> n <> k -> m1 !! n = m !! n.
Proof. intros. by rewrite !lookup_insert_ne. Qed.

Lemma leaf_child n ni c : m !! n = Some ni -> c ∈ fi_children ni -> c <> k /\ is_Some (m !! c).
Proof.
  intros Hn Hc. destruct (forest_children m n ni c Hf Hn Hc) as (_ & Hs & _ & _).
  split; [|done]. intros ->. rewrite Hk in Hs. by destruct Hs.
Qed.

Lemma leaf_link n c : link (shape m1) n c <-> link (shape m) n c \/ (n = p /\ c = k).
Proof.
  rewrite !link_Some. split.
  - intros (ni & [[-> ->]|[[-> ->]|(_ & _ & Hn)]]%leaf_lookup & Hc); [|by apply elem_of_nil in Hc|eauto].
    simpl in Hc. apply elem_of_os_insert in Hc as [->|Hc]; [by right|left; eauto].
  - intros [(ni & Hn & Hc)|[-> ->]].
    + destruct (decide (n = p)) as [->|Hne].
      * rewrite Hp in Hn. injection Hn as <-. exists pi1. rewrite leaf_lookup_p. split; [done|].
        apply elem_of_os_insert. by right.
      * exists ni. rewrite leaf_lookup_ne; [done..|]. congruence.
    + exists pi1. rewrite leaf_lookup_p. split; [done|]. apply elem_of_os_insert. by left.
Qed.

Lemma leaf_parent n ni : m !! n = Some ni -> exists ni1, m1 !! n = Some ni1 /\ fi_parent ni1 = fi_parent ni /\
  view ni1 = view ni /\ validity ni1 = validity ni /\ fi_stake_voted_at ni1 = fi_stake_voted_at ni.
Proof.
  intros Hn. destruct (decide (n = p)) as [->|Hne].
  - rewrite leaf_lookup_p. rewrite Hp in Hn. injection Hn as <-. eauto 10.
  - rewrite leaf_lookup_ne; [eauto 10|done|congruence].
Qed.

Lemma leaf_forest : forest (shape m1).
Proof.
  split.
  - intros n c [Hl|[-> ->]]%leaf_link.
    + destruct (f_parent _ Hf _ _ Hl) as [cs Hc]. rewrite shape_lookup in Hc.
      destruct (m !! c) as [ci|] eqn:Hci; [|done]. injection Hc as Hpar _.
      destruct (leaf_parent c ci Hci) as (ci1 & Hc1 & Hpar1 & _).
      rewrite (shape_Some _ _ _ Hc1). unfold links. rewrite Hpar1, Hpar. eauto.
    + rewrite (shape_Some _ _ _ leaf_lookup_k). eauto.
  - intros n c [Hl|[-> ->]]%leaf_link; [by apply (f_slot _ Hf)|done].
  - intros n q cs Hn. rewrite shape_lookup in Hn. destruct (m1 !! n) as [ni|] eqn:Hni; [|done].
    injection Hn as _ <-. apply leaf_lookup in Hni as [[-> ->]|[[-> ->]|(_ & _ & Hn)]].
    + simpl. apply os_insert_sorted. eapply (f_sorted _ Hf), shape_Some, Hp.
    + constructor.
    + eapply (f_sorted _ Hf), shape_Some, Hn.
Qed.

Lemma leaf_tree : tree (shape m1) root.
Proof.
  split; [apply leaf_forest|..].
  - destruct (t_root _ _ Ht) as [cs Hr]. rewrite shape_lookup in Hr.
    destruct (m !! root) as [ri|] eqn:Hri; [|done]. injection Hr as Hpar _.
    destruct (leaf_parent root ri Hri) as (ri1 & Hr1 & Hpar1 & _).
    rewrite (shape_Some _ _ _ Hr1). unfold links. rewrite Hpar1, Hpar. eauto.
  - intros n q cs Hn Hne. rewrite shape_lookup in Hn. destruct (m1 !! n) as [ni|] eqn:Hni; [|done].
    injection Hn as <- _. setoid_rewrite leaf_link.
    apply leaf_lookup in Hni as [[-> ->]|[[-> ->]|(_ & _ & Hn)]].
    + destruct (t_linked _ _ Ht p _ _ (shape_Some _ _ _ Hp) Hne) as (g & Hg & Hl). simpl. eauto.
    + simpl. eauto 10.
    + destruct (t_linked _ _ Ht n _ _ (shape_Some _ _ _ Hn) Hne) as (g & Hg & Hl). eauto.
Qed.

Lemma leaf_below a d : below (shape m) a d -> below (shape m1) a d.
Proof. apply rtc_subrel. intros x y Hl. apply leaf_link. by left. Qed.

(** The entries of the old blocks show the same to their parents. *)
Lemma leaf_view n ni c : m !! n = Some ni -> c ∈ fi_children ni -> view <$> m !! c = view <$> m1 !! c.
Proof.
  intros Hn Hc. destruct (leaf_child n ni c Hn Hc) as [_ [ci Hci]].
  destruct (leaf_parent c ci Hci) as (ci1 & -> & _ & Hv1 & _). rewrite Hci. simpl. by rewrite Hv1.
Qed.

Lemma leaf_agg_other n ni : m1 !! n = Some ni -> n <> p -> agg_ok m1 n ni.
Proof.
  intros Hn Hne. apply leaf_lookup in Hn as [[-> _]|[[-> ->]|(_ & _ & Hn)]]; [done|..].
  - split; simpl; [done|by left|by left|by intros c ?%elem_of_nil|done|done].
  - eapply (agg_ok_local m); [intros c Hc; by eapply leaf_view|apply leaf_below|by apply Hagg].
Qed.

Lemma leaf_values c :
  c ∈ fi_children pi -> sub_at m1 c = sub_at m c /\ height_at m1 c = height_at m c /\
  best_at m1 c = best_at m c /\ deepest_at m1 c = deepest_at m c /\ cand m1 c = cand m c /\
  dup_at m1 c = dup_at m c.
Proof.
  intros Hc. pose proof (leaf_view p pi c Hp Hc) as H. apply view_values in H. intuition congruence.
Qed.
Lemma leaf_values_k : sub_at m1 k = 0 /\ height_at m1 k = 1%nat /\ best_at m1 k = k /\
  deepest_at m1 k = k /\ cand m1 k = fi_is_candidate pi /\ dup_at m1 k = false.
Proof.
  unfold sub_at, height_at, best_at, deepest_at, cand, dup_at. by rewrite leaf_lookup_k.
Qed.
Lemma leaf_fresh : k ∉ fi_children pi.
Proof. intros Hc. by destruct (leaf_child p pi k Hp Hc). Qed.

Lemma leaf_base : base_ok m1 p pi1.
Proof.
  destruct (Hagg p pi Hp) as [H1 _ _ H4 H5 H6]. split.
  - cbn [fi_children fi_stake_voted_at fi_stake_voted_subtree set_children].
    rewrite (zsum_perm (sub_at m1) _ _ (os_insert_perm k _ leaf_fresh)). simpl. destruct leaf_values_k as (-> & _).
    rewrite H1. rewrite (zsum_ext (sub_at m1) (sub_at m)); [lia|]. intros c Hc. by apply leaf_values.
  - intros c. simpl. intros [->|Hc]%elem_of_os_insert Hd.
    + destruct leaf_values_k as (_ & _ & _ & _ & _ & E). congruence.
    + apply (H4 c Hc). by destruct (leaf_values c Hc) as (_ & _ & _ & _ & _ & <-).
  - simpl. by apply leaf_below.
  - simpl. by apply leaf_below.
Qed.

Lemma filter_perm_In (P : SlotHashKey -> Prop) `{!forall x, Decision (P x)} x :
  x ∈ filter P (os_insert k (fi_children pi)) <-> P x /\ (x = k \/ x ∈ fi_children pi).
Proof. by rewrite list_elem_of_filter, elem_of_os_insert. Qed.

Lemma leaf_heavier c c' :
  c ∈ fi_children pi -> c' ∈ fi_children pi -> heavier m1 c c' <-> heavier m c c'.
Proof.
  intros (Hc & _)%leaf_values (Hc' & _)%leaf_values. unfold heavier. by rewrite Hc, Hc'.
Qed.
Lemma leaf_deeper c c' :
  c ∈ fi_children pi -> c' ∈ fi_children pi -> deeper m1 c c' <-> deeper m c c'.
Proof.
  intros Hc Hc'. unfold deeper. rewrite (leaf_heavier c c' Hc Hc').
  destruct (leaf_values c Hc) as (_ & -> & _), (leaf_values c' Hc') as (_ & -> & _). done.
Qed.

(** If a child outweighs the leaf, the best block is what it was. *)
Lemma leaf_best_kept c :
  c ∈ os_insert k (fi_children pi) -> cand m1 c = true -> heavier m1 c k -> best_ok m1 p pi1.
Proof.
  intros Hc Hcc Hh Hcand. apply elem_of_os_insert in Hc as [->|Hc]; [by apply heavier_asym in Hh|].
  destruct (leaf_values c Hc) as (_ & _ & _ & _ & Ec & _). rewrite Ec in Hcc.
  destruct (ao_best _ _ _ (Hagg p pi Hp) Hcand) as [[Hnil _]|(b & [Hb Hgr] & He)].
  { assert (c ∈ filter (fun c => cand m c = true) (fi_children pi)) as Hin by (by apply list_elem_of_filter).
    rewrite Hnil in Hin. by apply elem_of_nil in Hin. }
  apply list_elem_of_filter in Hb as [Hb1 Hb2]. right. exists b.
  destruct (leaf_values b Hb2) as (_ & _ & Eb & _ & Ecb & _). split; [|by rewrite Eb].
  split; [apply filter_perm_In; rewrite Ecb; auto|].
  assert (heavier m1 b k) as Hbk.
  { destruct (decide (c = b)) as [->|Hne]; [done|]. etrans; [|exact Hh].
    apply leaf_heavier; [done..|]. apply Hgr; [by apply list_elem_of_filter|done]. }
  intros x [Hx [->|Hin]]%filter_perm_In Hne; [done|].
  destruct (leaf_values x Hin) as (_ & _ & _ & _ & Ex & _). rewrite Ex in Hx.
  apply leaf_heavier; [done..|]. apply Hgr; [by apply list_elem_of_filter|done].
Qed.

(** Otherwise the leaf is the new best block of [p]. *)
Lemma leaf_walk_best :
  (forall c, c ∈ os_insert k (fi_children pi) -> cand m1 c = true -> ~ heavier m1 c k) ->
  walk_best m1 (fi_best_slot pi) k k.
Proof.
  intros Hno. pose proof leaf_forest as Hf1.
  assert (forall n, link (shape m1) n k -> n = p) as Honly.
  { intros n Hl. eapply (link_inj _ Hf1); [exact Hl|]. apply leaf_link. by right. }
  split.
  - done.
  - intros a ->%Honly. apply leaf_base.
  - intros n ni Hn. destruct (decide (n = p)) as [->|Hne].
    + rewrite leaf_lookup_p in Hn. injection Hn as <-. apply leaf_base.
    + by apply leaf_agg_other.
  - intros n ni Hn Hnl. apply agg_ok_parts, leaf_agg_other; [done|]. intros ->.
    apply Hnl, leaf_link. by right.
  - apply leaf_values_k.
  - intros a ai Hl Ha Hc _. pose proof (Honly a Hl) as ->. rewrite leaf_lookup_p in Ha. injection Ha as <-.
    destruct leaf_values_k as (_ & _ & _ & _ & Ek & _). simpl. split.
    + apply filter_perm_In. rewrite Ek. auto.
    + intros x [Hx Hin]%filter_perm_In Hne. destruct (heavier_total m1 k x) as [|Hh]; [done..|].
      exfalso. apply (Hno x); [by apply elem_of_os_insert|done|done].
  - intros a ai Hl Ha Hne. pose proof (Honly a Hl) as ->. rewrite leaf_lookup_p in Ha. by injection Ha as <-.
Qed.

Lemma leaf_walk_deep : walk_deep m1 k k.
Proof.
  pose proof leaf_forest as Hf1. pose proof (ao_deep _ _ _ (Hagg p pi Hp)) as Hdeep.
  assert (forall n, link (shape m1) n k -> n = p) as Honly.
  { intros n Hl. eapply (link_inj _ Hf1); [exact Hl|]. apply leaf_link. by right. }
  split.
  - done.
  - intros n ni Hn. destruct (decide (n = p)) as [->|Hne].
    + rewrite leaf_lookup_p in Hn. injection Hn as <-. apply leaf_base.
    + by apply leaf_agg_other.
  - intros n ni Hn Hnl. apply (ao_deep m1 n ni), leaf_agg_other; [done|]. intros ->.
    apply Hnl, leaf_link. by right.
  - apply leaf_values_k.
  - intros a ai Hl Ha. pose proof (Honly a Hl) as ->. rewrite leaf_lookup_p in Ha. injection Ha as <-. simpl.
    destruct Hdeep as [[_ [= _ ->]]|(c & [Hc _] & [= _ ->])]; [by left|right]. exists c.
    destruct (leaf_values c Hc) as (_ & -> & _). split; [apply elem_of_os_insert; by right|lia].
  - intros a ai Hl Ha. pose proof (Honly a Hl) as ->. rewrite leaf_lookup_p in Ha. injection Ha as <-. simpl.
    destruct Hdeep as [[Hnil _]|(c & [Hc Hgr] & He)].
    { left. intros x [->|Hx]%elem_of_os_insert Hd; [by apply deeper_asym in Hd|].
      rewrite Hnil in Hx. by apply elem_of_nil in Hx. }
    assert (c <> k) as Hck by (intros ->; by apply leaf_fresh in Hc).
    assert (forall x, x ∈ fi_children pi -> x <> c -> deeper m1 c x) as Hgr1.
    { intros x Hx Hne. apply leaf_deeper; auto. }
    destruct (deeper_total m1 c k Hck) as [Hd|Hd]; [right|left].
    + right. exists c. destruct (leaf_values c Hc) as (_ & -> & _ & -> & _). split; [|done]. split.
      * apply elem_of_os_insert. by right.
      * intros x [->|Hx]%elem_of_os_insert Hne; auto.
    + intros x [->|Hx]%elem_of_os_insert Hdx; [by apply deeper_asym in Hdx|].
      destruct (decide (x = c)) as [->|Hne]; [by apply (deeper_asym m1 c k)|].
      apply (deeper_asym m1 x k); [done|]. etrans; [exact Hd|]. by apply Hgr1.
Qed.

Lemma leaf_valid : valid_ok m1.
Proof.
  pose proof leaf_ne as Hpk. destruct Hv as [V1 V2 V3].
  assert (forall n ni, m1 !! n = Some ni -> (n = k /\ ni = leaf) \/ exists ni', m !! n = Some ni' /\
    fi_latest_invalid_ancestor ni = fi_latest_invalid_ancestor ni' /\
    fi_is_duplicate_confirmed ni = fi_is_duplicate_confirmed ni') as Hold.
  { intros n ni [[-> ->]|[?|(_ & _ & Hn)]]%leaf_lookup; [right; exists pi; done|by left|right; eauto]. }
  split.
  - intros n ni s [[-> ->]|(ni' & Hn & -> & _)]%Hold Hs; [|by eapply V1].
    simpl in Hs. pose proof (V1 _ _ _ Hp Hs). lia.
  - intros n ni [[-> ->]|(ni' & Hn & -> & ->)]%Hold Hd; [done|by eapply V2].
  - intros n ni c ci Hl Hn Hc. apply leaf_link in Hl as [Hl|[-> ->]].
    + apply Hold in Hn as [[-> _]|(ni' & Hn & -> & _)].
      { destruct (link_dom _ _ _ (t_forest _ _ Ht) Hl) as [[v Hd] _]. rewrite shape_lookup, Hk in Hd. done. }
      apply Hold in Hc as [[-> _]|(ci' & Hc & -> & _)].
      { destruct (link_dom _ _ _ (t_forest _ _ Ht) Hl) as [_ [v Hd]]. rewrite shape_lookup, Hk in Hd. done. }
      by eapply V3.
    + rewrite leaf_lookup_p in Hn. rewrite leaf_lookup_k in Hc. injection Hn as <-. injection Hc as <-. simpl.
      by destruct (fi_latest_invalid_ancestor pi); simpl.
Qed.
End leaf.

(** What the walks up leave alone. *)
Definition core (fi : ForkInfo) : (option SlotHashKey * list SlotHashKey) * Z * Z * (option Slot * bool) :=
  (links fi, fi_stake_voted_at fi, fi_stake_voted_subtree fi, validity fi).

Lemma forget_best_core fi fi' : forget_best fi = forget_best fi' -> core fi = core fi'.
Proof. intros (E1 & E2 & E3 & _ & _ & E4 & _)%forget_best_fields. unfold core. congruence. Qed.
Lemma forget_deep_core fi fi' : forget_deep fi = forget_deep fi' -> core fi = core fi'.
Proof. intros (E1 & E2 & E3 & _ & E4 & _)%forget_deep_fields. unfold core. congruence. Qed.

Lemma eq_upto_trans {A} (f : ForkInfo -> A) m1 m2 m3 :
  eq_upto f m1 m2 -> eq_upto f m2 m3 -> eq_upto f m1 m3.
Proof. intros H1 H2 n. by rewrite H1. Qed.

(** After both walks every block is aggregated. *)
Lemma walks_agg m1 m2 m3 :
  (forall n ni, m1 !! n = Some ni -> base_ok m1 n ni) ->
  eq_upto forget_best m2 m1 ->
  (forall n ni, m2 !! n = Some ni -> best_ok m2 n ni /\ below (shape m1) n (fi_best_slot ni)) ->
  eq_upto forget_deep m3 m2 ->
  (forall n ni, m3 !! n = Some ni -> deep_ok m3 n ni /\ below (shape m1) n (fi_deepest_slot ni)) ->
  eq_upto core m3 m1 /\ forall n ni, m3 !! n = Some ni -> agg_ok m3 n ni.
Proof.
  intros Hbase H2 Hbest H3 Hdeep.
  assert (eq_upto core m3 m1) as Hcore.
  { eapply eq_upto_trans; eapply eq_upto_impl; [apply forget_deep_core|done|apply forget_best_core|done]. }
  split; [done|]. assert (shape m3 = shape m1) as Hsh.
  { apply eq_upto_shape. eapply eq_upto_impl; [|exact Hcore]. unfold core. congruence. }
  assert (forall c, sub_at m3 c = sub_at m1 c /\ dup_at m3 c = dup_at m1 c) as Hval.
  { intros c. specialize (Hcore c). unfold sub_at, dup_at. unfold core, validity in Hcore.
    destruct (m3 !! c), (m1 !! c); simpl in *; try done. injection Hcore as ?????. done. }
  intros n ni Hn. destruct (eq_upto_Some _ _ _ _ _ H3 Hn) as (n2 & Hn2 & F2).
  destruct (eq_upto_Some _ _ _ _ _ Hcore Hn) as (n1 & Hn1 & F1).
  apply forget_deep_fields in F2 as (L2 & _ & _ & B2 & _ & V2).
  unfold core, links, validity in F1. injection F1 as Hpar Hcs Hat Hsub Hlia Hdup.
  destruct (Hbest n n2 Hn2) as [Hbo Hbb]. destruct (Hdeep n ni Hn) as [Hdo Hdb].
  destruct (Hbase n n1 Hn1) as [S1 D1 _ _].
  apply agg_ok_parts. split; [split|split; [|done]].
  - rewrite Hsub, Hat, Hcs, S1. f_equal. apply zsum_ext. intros c _. by rewrite (proj1 (Hval c)).
  - intros c. rewrite Hcs, Hdup. rewrite (proj2 (Hval c)). apply D1.
  - rewrite Hsh, B2. done.
  - by rewrite Hsh.
  - injection L2 as _ Hcs2. apply (best_ok_ext m2 m3 n n2 ni); [|done|done| |exact Hbo].
    + intros c _. symmetry. eapply (eq_upto_impl forget_deep best_view); [|exact H3].
      by intros ?? (_ & _ & _ & _ & _ & ?)%forget_deep_fields.
    + unfold best_view in V2. congruence.
Qed.

Section add_leaf.
Context (get_epoch : Slot -> Epoch) (epoch_stakes : gmap Epoch (gmap Pubkey Z)).
Abbreviation fc_ok := (fc_ok get_epoch epoch_stakes).
Context (fc : HeaviestSubtreeForkChoice) (k p : SlotHashKey) (pi : ForkInfo).
Context (Hok : fc_ok fc) (Hk : fork_infos fc !! k = None) (Hp : fork_infos fc !! p = Some pi).
Context (Hlt : p.1 < k.1).
Abbreviation leaf := (new_leaf k (Some p) (fi_latest_invalid_ancestor pi)).
Abbreviation pi1 := (set_children pi (os_insert k (fi_children pi))).
Abbreviation m1 := (<[p := pi1]> (<[k := leaf]> (fork_infos fc))).
Abbreviation fc1 := (set_fork_infos fc m1).

Lemma start_tree : tree (shape m1) (tree_root fc).
Proof. by apply leaf_tree; [apply Hok|..]. Qed.

Lemma start_agg n ni : m1 !! n = Some ni -> n <> p -> agg_ok m1 n ni.
Proof. intros Hn Hne. eapply leaf_agg_other; try done; apply Hok. Qed.

Lemma start_base n ni : m1 !! n = Some ni -> base_ok m1 n ni.
Proof.
  intros Hn. destruct (decide (n = p)) as [->|Hne].
  - rewrite lookup_insert_eq in Hn. injection Hn as <-. eapply leaf_base; try done; apply Hok.
  - by apply agg_ok_parts, start_agg.
Qed.

Lemma start_rank (x : SlotHashKey) : (rank (shape m1) (fun y => (y.1 < x.1)%Z) <= size m1)%nat.
Proof.
  unfold rank. etrans; [apply length_filter|]. rewrite length_map_to_list.
  unfold shape. by rewrite map_size_fmap.
Qed.

Lemma best_walked :
  exists b m2, is_best_child fc1 k = Ok b /\
    (if b : bool then propagate_best (size m1) fc1 k (fi_best_slot pi) (Some p) else Ok fc1)
      = Ok (set_fork_infos fc1 m2) /\ eq_upto forget_best m2 m1 /\
    (forall n ni, m2 !! n = Some ni -> best_ok m2 n ni /\ below (shape m1) n (fi_best_slot ni)).
Proof.
  pose proof start_tree as Ht1. assert (m1 !! k = Some leaf) as Hmk by (by apply leaf_lookup_k).
  destruct (is_best_child_spec fc1 k leaf p pi1 Hmk eq_refl (lookup_insert_eq _ _ _)) as (b & Hb & Hspec).
  { intros c Hc. eapply (forest_children m1); [apply Ht1|apply lookup_insert_eq|done]. }
  exists b. destruct b.
  - destruct (propagate_best_ok (size m1) fc1 k leaf (fi_best_slot pi) k Ht1 Hmk) as (m2 & He & Hall);
      [|apply start_rank|by exists m2].
    eapply leaf_walk_best; try done; [apply Hok..|]. by apply Hspec.
  - exists m1. split; [done|]. split; [done|]. split; [done|]. intros n ni Hn.
    split; [|by apply start_base]. destruct (decide (n = p)) as [->|Hne].
    2: { exact (ao_best _ _ _ (start_agg n ni Hn Hne)). }
    rewrite lookup_insert_eq in Hn. injection Hn as <-.
    destruct (decide (Exists (fun c => cand m1 c = true /\ heavier m1 c k) (fi_children pi1))) as [He|He].
    + apply Exists_exists in He as (c & Hc & Hcand & Hh).
      eapply leaf_best_kept; try done; apply Hok.
    + assert (false = true); [|done]. apply Hspec. intros c Hc Hcand Hh. apply He, Exists_exists. eauto.
Qed.

(** A new block under a known parent of a lower slot, which nobody has voted for yet. *)
Lemma add_new_leaf_ok :
  (forall pk, latest_votes fc !! pk <> Some k) ->
  exists m', add_new_leaf_slot fc k (Some p) = Ok (set_fork_infos fc m') /\
    fc_ok (set_fork_infos fc m') /\ eq_upto core m' m1.
Proof.
  intros Hvotes. pose proof start_tree as Ht1.
  assert (m1 !! k = Some leaf) as Hmk by (by apply leaf_lookup_k).
  assert (k <> p) as Hkp by (by intros ->; lia).
  unfold add_new_leaf_slot, contains_block. rewrite bool_decide_false by (rewrite Hk; by intros []).
  unfold latest_invalid_ancestor. cbn [mbind option_bind fork_infos set_fork_infos]. rewrite Hp.
  cbn [mbind option_bind]. rewrite lookup_insert_ne, Hp by done. cbn [expect mbind outcome_bind].
  rewrite (update_info_insert _ p pi) by (simpl; by rewrite lookup_insert_ne).
  change (set_fork_infos (set_fork_infos fc _) _) with fc1.
  unfold propagate_new_leaf, best_slot. cbn [fork_infos set_fork_infos]. rewrite lookup_insert_eq.
  cbn [fmap option_fmap option_map expect mbind outcome_bind].
  destruct best_walked as (b & m2 & -> & Hb & H2 & Hbest). cbn [mbind outcome_bind fi_best_slot set_children].
  rewrite Hb. cbn [mbind outcome_bind]. 
  destruct (eq_upto_Some _ _ _ _ _ (eq_upto_sym _ _ _ H2) Hmk) as (leaf2 & Hk2 & Hl2).
  apply forget_best_fields in Hl2 as (Hlk & _ & _ & Hh & _ & _ & _). injection Hlk as Hpar _.
  assert (shape m2 = shape m1) as Hsh.
  { apply eq_upto_shape. eapply eq_upto_impl; [|exact H2]. by intros ?? [? _]%forget_best_fields. }
  destruct (propagate_deepest_ok (size m2) (set_fork_infos fc1 m2) k leaf2 k) as (m3 & Hd & H3 & Hdeep).
  { simpl. by rewrite Hsh. } { done. }
  { eapply walk_deep_ext; [exact H2|]. eapply leaf_walk_deep; try done; apply Hok. }
  { simpl. rewrite Hsh. etrans; [apply start_rank|]. unfold shape in Hsh.
    apply (f_equal size) in Hsh. rewrite !map_size_fmap in Hsh. lia. }
  rewrite <-Hpar, <-Hh in Hd. simpl in Hd, H3, Hdeep. rewrite Hsh in Hdeep.
  destruct (walks_agg m1 m2 m3 start_base H2 Hbest H3 Hdeep) as [Hcore Hagg].
  exists m3. split; [exact Hd|]. split; [|done]. 
  assert (shape m3 = shape m1) as Hsh3.
  { apply eq_upto_shape. eapply eq_upto_impl; [|exact Hcore]. unfold core. congruence. }
  split; simpl.
  - by rewrite Hsh3.
  - done.
  - intros n ni (n1 & Hn1 & E)%(eq_upto_Some core m3 m1); [|done]. injection E as _ _ -> _ _ _.
    apply leaf_lookup in Hn1 as [[-> ->]|[[-> ->]|(_ & _ & Hn)]].
    + simpl. by apply (ok_at _ _ _ Hok).
    + simpl. symmetry. apply msum_zero. intros pk v Hv. case_decide; [|done]. subst. by apply Hvotes in Hv.
    + by apply (ok_at _ _ _ Hok).
  - apply (valid_ok_same m1); [done| |].
    + intros n ni (n1 & Hn1 & E)%(eq_upto_Some core m3 m1); [|done]. unfold validity_at. rewrite Hn1.
      unfold core in E. simpl. congruence.
    + eapply leaf_valid; try done; apply Hok.
Qed.
End add_leaf.
