(* ===== verification/ForkMarks.v ===== *)
(** * Marking forks valid and invalid *)

From S2P Require Import Prelude OrdMap ForkChoice ForkTree ForkAggregate.
From S2P Require Import ForkProcess ForkInvariant ForkVotes ForkSearch.
Local Open Scope Z_scope.

(** ** The operations *)
Lemma insert_marks_ok ops mk ks :
  is_mark mk = true -> om_wf ops -> NoDup ks ->
  (forall x, x ∈ ks -> ~ pending ops x /\ (x, op_label mk) ∉ ops.*1) ->
  om_wf (insert_marks ops mk ks) /\
  forall e, e ∈ insert_marks ops mk ks <->
    e ∈ ops \/ exists x, x ∈ ks /\ (e = (x, op_label mk, mk) \/ e = agg_entry x).
Proof.
  intros Hmk. revert ops. induction ks as [|k ks IH]; intros ops Hwf Hnd Hks.
  { split; [done|]. intros e. cbn. set_solver. }
  apply NoDup_cons in Hnd as [Hk Hnd]. cbn [insert_marks]. unfold do_insert_aggregate_operation.
  destruct (Hks k) as [Hp Hl]; [left|].
  destruct (om_get (k, LAggregate) ops) as [op|] eqn:E.
  { destruct Hp. apply pending_get. eauto. }
  cbn [snd]. set (ops1 := match mk with OpMarkValid _ => _ | _ => _ end).
  assert (ops1 = om_insert (k, op_label mk) mk ops) as -> by (unfold ops1; by destruct mk).
  assert (om_get (k, op_label mk) ops = None) as Hn1.
  { destruct (om_get (k, op_label mk) ops) eqn:E'; [|done]. destruct Hl. apply om_get_is_Some. eauto. }
  pose proof (om_insert_fresh (k, op_label mk) mk ops Hn1) as Hp1.
  assert (om_get (k, LAggregate) (om_insert (k, op_label mk) mk ops) = None) as Hn2.
  { rewrite om_get_insert by done. destruct (cmp (k, LAggregate) (k, op_label mk)) eqn:Ec; [|done..].
    apply cmp_eq in Ec. injection Ec as Ec. by destruct mk. }
  pose proof (om_insert_fresh (k, LAggregate) OpAggregate _ Hn2) as Hp2.
  set (ops2 := om_insert (k, LAggregate) OpAggregate _) in *. rewrite Hp1 in Hp2.
  destruct (IH ops2) as [Hwf' Hin]; [by repeat apply om_insert_wf|done| |].
  - intros x Hx. assert (x <> k) as Hxk by (by intros ->). destruct (Hks x) as [Hpx Hlx]; [by right|].
    split.
    + intros H. eapply pending_perm in H; [|exact Hp2]. unfold pending in H, Hpx.
      rewrite !fmap_cons in H. apply elem_of_cons in H as [[= ?]|H]; [done|].
      apply elem_of_cons in H as [[= ? _]|H]; done.
    + rewrite Hp2, !fmap_cons. rewrite !elem_of_cons. intros [[= ?]|[[= ?]|?]]; done.
  - split; [done|]. intros e. rewrite Hin, Hp2, !elem_of_cons. setoid_rewrite elem_of_cons.
    unfold agg_entry. naive_solver.
Qed.

Lemma marks_unique L x v e :
  NoDup L -> e ∈ L -> e.1.1 = x ->
  (forall e', e' ∈ L -> e'.1.1 = x -> is_mark e'.2 = true -> e' = e) ->
  marks L x v = mark e.2 x v.
Proof.
  intros Hnd He Hx Hu. apply list_elem_of_split in He as (L1 & L2 & ->).
  assert (forall L' v, (forall e', e' ∈ L' -> e' ∈ L1 ++ e :: L2 /\ e' <> e) -> marks L' x v = v) as Hskip.
  { intros L' w HL'. revert w. unfold marks. induction L' as [|e' L' IH]; intros w; [done|]. simpl.
    rewrite IH by (intros; apply HL'; by right). case_decide as Hk; [|done].
    destruct (HL' e') as [Hin Hne]; [left|]. destruct (is_mark e'.2) eqn:Em; [|by destruct e'.2].
    by apply Hu in Em. }
  apply NoDup_app in Hnd as (H1 & Hd & [H2 H3]%NoDup_cons).
  unfold marks. rewrite foldl_app. simpl. fold (marks L1 x v). rewrite Hskip.
  2: { intros e' He'. split; [set_solver|]. intros ->. apply (Hd e He'). left. }
  rewrite decide_True by done. apply Hskip. intros e' He'. split; [set_solver|]. by intros ->.
Qed.

Lemma marks_none L x v :
  (forall e, e ∈ L -> e.1.1 = x -> is_mark e.2 = false) -> marks L x v = v.
Proof.
  unfold marks. revert v. induction L as [|e L IH]; intros v H; [done|]. simpl.
  rewrite IH by (intros; apply H; [by right|done]).
  case_decide as Hk; [|done]. pose proof (H e ltac:(left) Hk). by destruct e.2.
Qed.

(** Every block above [k] has a pending aggregation. *)
Lemma pending_up sh ops k x :
  closed sh ops -> (forall n, link sh n k -> pending ops n) ->
  below sh x k -> x <> k -> pending ops x.
Proof.
  intros Hcl Hk. induction 1 as [|x c k Hl Hc IH]; [done|]. intros _.
  destruct (decide (c = k)) as [->|Hne]; [by apply Hk|].
  specialize (IH Hk Hne). apply list_elem_of_fmap in IH as (e & He & Hin).
  apply (Hcl e); [done|]. by rewrite <-He.
Qed.

Section marks.
Context (get_epoch : Slot -> Epoch) (epoch_stakes : gmap Epoch (gmap Pubkey Z)).
Context (Hs : stakes_ok epoch_stakes).
Context (fc : HeaviestSubtreeForkChoice) (Hok : fc_ok get_epoch epoch_stakes fc).
Context (k : SlotHashKey) (mk : UpdateOperation) (Hmk : is_mark mk = true).
Context (S : gset SlotHashKey) (HS : forall x, x ∈ S <-> below (shape (fork_infos fc)) k x).
Abbreviation m := (fork_infos fc).
Abbreviation ops := (insert_aggregate_operations fc (insert_marks [] mk (elements S)) k).
#[local] Abbreviation Ht := (ok_tree _ _ _ Hok).
#[local] Abbreviation Hf := (t_forest _ _ Ht).

Lemma mark_ops :
  om_wf ops /\ closed (shape m) ops /\ (forall n, link (shape m) n k -> pending ops n) /\
  (forall x, x ∈ S -> (x, op_label mk, mk) ∈ ops /\ pending ops x) /\
  (forall e, e ∈ ops -> (exists x, e = agg_entry x) \/ exists x, x ∈ S /\ e = (x, op_label mk, mk)).
Proof.
  destruct (insert_marks_ok [] mk (elements S) Hmk) as [Hwf Hin].
  { constructor. } { apply NoDup_elements. }
  { intros x _. split; apply not_elem_of_nil. }
  set (ops0 := insert_marks [] mk (elements S)) in *.
  assert (forall x, x ∈ S -> (x, op_label mk, mk) ∈ ops0 /\ agg_entry x ∈ ops0) as HS0.
  { intros x Hx. split; apply Hin; right; exists x; (split; [by apply elem_of_elements|auto]). }
  assert (forall x, x ∈ S -> pending ops0 x) as HP0.
  { intros x [_ Hx]%HS0. by apply (list_elem_of_fmap_2 fst _ (agg_entry x)). }
  destruct (insert_aggregate_ok fc ops0 k Ht Hwf) as (ks & Hwf' & Hperm & Hcl & Hpk & _).
  { intros e n He Hne Hl. apply HP0, HS.
    assert (e.1.1 ∈ S) as Hx.
    { apply Hin in He as [?%elem_of_nil|(x & Hx%elem_of_elements & [->| ->])]; done. }
    apply HS in Hx. apply rtc_inv_r in Hx as [?|(y & Hy & Hy')]; [done|].
    by rewrite (link_inj _ Hf n y e.1.1). }
  split; [done|]. split; [done|]. split; [done|]. split.
  - intros x Hx. split.
    + rewrite Hperm. apply elem_of_app. right. by apply HS0.
    + eapply pending_perm; [symmetry; exact Hperm|]. unfold pending. rewrite fmap_app.
      apply elem_of_app. right. by apply HP0.
  - intros e He. rewrite Hperm in He. apply elem_of_app in He as [(x & -> & _)%list_elem_of_fmap|He]; [eauto|].
    apply Hin in He as [?%elem_of_nil|(x & Hx%elem_of_elements & [->| ->])]; [done|eauto|eauto].
Qed.

Lemma mark_marks x v :
  marks (reverse ops) x v = if decide (x ∈ S) then mark mk x v else v.
Proof.
  destruct mark_ops as (Hwf & _ & _ & HSin & Hall). case_decide as Hx.
  - apply (marks_unique _ x v (x, op_label mk, mk)); [|by apply elem_of_reverse, HSin|done|].
    + rewrite reverse_Permutation. apply (NoDup_fmap_1 fst), sorted_NoDup, Hwf.
    + intros e He Hk Hm. rewrite elem_of_reverse in He.
      apply Hall in He as [(y & ->)|(y & _ & ->)]; [done|]. simpl in Hk. by subst.
  - apply marks_none. intros e He Hk. rewrite elem_of_reverse in He.
    apply Hall in He as [(y & ->)|(y & Hy & ->)]; [done|]. simpl in Hk. by subst.
Qed.

Lemma mark_sums : (forall x, delta (reverse ops) x = 0) /\ adds (reverse ops) = 0.
Proof.
  destruct mark_ops as (_ & _ & _ & _ & Hall).
  assert (forall e, e ∈ reverse ops -> amount e.2 = 0 /\ added e.2 = 0) as H0.
  { intros e He. rewrite elem_of_reverse in He.
    apply Hall in He as [(y & ->)|(y & _ & ->)]; [done|]. simpl. by destruct mk. }
  split.
  - intros x. apply zsum_zero. intros e He%H0. case_decide; [tauto|done].
  - apply zsum_zero. intros e He%H0. tauto.
Qed.

(** Marking a subtree succeeds and leaves the validity [V]. *)
Lemma mark_process V :
  (forall x fi, m !! x = Some fi -> final V (reverse ops) x fi = V x) ->
  (forall s x fi, mk = OpMarkInvalid s -> x ∈ S -> m !! x = Some fi ->
    fi_is_duplicate_confirmed fi = false) ->
  (forall m', shape m' = shape m -> (forall x fi, m' !! x = Some fi -> validity fi = V x) -> valid_ok m') ->
  exists m', process_update_operations fc ops = Ok (set_fork_infos fc m') /\
    fc_ok get_epoch epoch_stakes (set_fork_infos fc m') /\ shape m' = shape m /\
    forall x fi, m' !! x = Some fi -> validity fi = V x.
Proof.
  intros HV Hinv Hvalid. destruct mark_ops as (Hwf & Hcl & Hpk & HSin & Hall).
  destruct mark_sums as [Hdelta Hadds]. pose proof (reverse_Permutation ops) as Hr.
  assert (forall e, e ∈ reverse ops -> e ∈ ops) as Hin by (intros e; by rewrite Hr).
  assert (forall n, pending ops n -> pending (reverse ops) n) as Hpend.
  { intros n. apply pending_perm. by rewrite Hr. }
  destruct (process_list_ok V fc (reverse ops)) as (m' & He & Hsh & _ & Hm').
  { apply Hf. }
  { split.
    - rewrite fmap_reverse. apply reverse_sorted, Hwf.
    - intros e [(x & ->)|(x & _ & ->)]%Hin%Hall; done.
    - intros e [(x & ->)|(x & _ & ->)]%Hin%Hall; [done|]. simpl. by destruct mk.
    - intros e n He%Hin Hl. by apply Hpend, (Hcl e).
    - intros e [(x & ->)|(x & Hx & ->)]%Hin%Hall Hm; [done|]. by apply Hpend, HSin.
    - intros x l s fi [(y & [=])|(y & _ & [= -> -> Heq])]%Hin%Hall. by rewrite <-Heq in Hmk.
    - intros x l s fi [(y & [=])|(y & Hy & [= -> -> Heq])]%Hin%Hall Hx. by eapply (Hinv s).
    - intros x fi Hx. left. by apply (ok_agg _ _ _ Hok).
    - intros x fi Hx. rewrite Hadds. destruct (sub_bounds _ _ Hs fc Hok x fi Hx) as [? ?].
      destruct Hs as [_ Hmax]. split; [done|]. pose proof (tally_nonneg get_epoch _ Hs (latest_votes fc) x).
      rewrite <-(ok_at _ _ _ Hok x fi Hx) in *. lia.
    - rewrite Hadds. pose proof (at_total _ _ Hs fc Hok). destruct Hs as [_ Hmax].
      assert (0 <= msum (fun _ => fi_stake_voted_at) m); [|lia].
      apply msum_nonneg. intros x fi Hx. by destruct (sub_bounds _ _ Hs fc Hok x fi Hx) as [[? _] _].
    - done. }
  exists m'. split; [done|]. split; [|split; [done|]; intros x fi Hx; by apply Hm'].
  split; simpl.
  - rewrite Hsh. apply Hok.
  - intros x fi Hx. by apply Hm'.
  - intros x fi Hx. destruct (Hm' x fi Hx) as (_ & _ & _ & ->). rewrite Hdelta, Z.add_0_r.
    apply shape_Some in Hx. rewrite Hsh, shape_lookup in Hx. unfold at_at.
    destruct (m !! x) as [gi|] eqn:Hg; [|done]. by apply (ok_at _ _ _ Hok).
  - apply Hvalid; [done|]. intros x fi Hx. by apply Hm'.
Qed.
End marks.

Section candidates.
Context (get_epoch : Slot -> Epoch) (epoch_stakes : gmap Epoch (gmap Pubkey Z)).
Context (Hs : stakes_ok epoch_stakes).
Abbreviation fc_ok := (fc_ok get_epoch epoch_stakes).
Context (fc : HeaviestSubtreeForkChoice) (Hok : fc_ok fc) (k : SlotHashKey) (ki : ForkInfo).
Abbreviation m := (fork_infos fc).
Context (Hk : m !! k = Some ki) (Hslot : 0 <= k.1) (Hdef : k <> default_key).
#[local] Abbreviation Ht := (ok_tree _ _ _ Hok).
#[local] Abbreviation Hf := (t_forest _ _ Ht).

Lemma subtree_of : exists S, subtree_diff fc k default_key = Ok S /\
  forall x, x ∈ S <-> below (shape m) k x.
Proof.
  destruct (subtree_diff_ok fc default_key Hf k) as (S & HS & Hin); [eauto|].
  exists S. split; [done|]. intros x. rewrite Hin, (until_spec _ _ _ _ Hf).
  assert (~ below (shape m) k default_key) as Hno.
  { intros [->|H]%(below_slot _ Hf); [done|]. simpl in H. lia. }
  split; [tauto|]. intros Hx. split; [by split|]. by intros ->.
Qed.

(** A block with a confirmed descendant is confirmed. *)
Lemma confirmed_up a x : below (shape m) a x -> dup_at m x = true -> dup_at m a = true.
Proof.
  induction 1 as [|a y x Hl _ IH]; [done|]. intros Hx%IH.
  apply link_Some in Hl as (ai & Ha & Hy). unfold dup_at. rewrite Ha. simpl.
  by apply (ao_dup _ _ _ (ok_agg _ _ _ Hok a ai Ha) y).
Qed.

Lemma child_confirmed x fi : m !! x = Some fi -> existsb (dup_at m) (fi_children fi) = true ->
  validity fi = (None, true).
Proof.
  intros Hx (c & Hc%list_elem_of_In & Hd)%existsb_exists.
  pose proof (ao_dup _ _ _ (ok_agg _ _ _ Hok x fi Hx) c Hc Hd) as Hdup.
  unfold validity. by rewrite Hdup, (vo_dup _ (ok_valid _ _ _ Hok) x fi Hx Hdup).
Qed.

Lemma validity_at_dup x : (validity_at m x).2 = dup_at m x.
Proof. unfold validity_at, dup_at. by destruct (m !! x). Qed.

Section with_subtree.
Context (S : gset SlotHashKey) (HS : forall x, x ∈ S <-> below (shape m) k x).

Lemma subtree_child n c : link (shape m) n c -> n ∈ S -> c ∈ S.
Proof. rewrite !HS. intros. by eapply rtc_r. Qed.
Lemma subtree_parent n c : link (shape m) n c -> c ∈ S -> c <> k -> n ∈ S.
Proof.
  rewrite !HS. intros Hl Hc Hne. apply rtc_inv_r in Hc as [?|(y & Hy & Hyc)]; [done|].
  by rewrite (link_inj _ Hf n y c).
Qed.
Lemma subtree_slot x : x ∈ S -> x = k \/ k.1 < x.1.
Proof. rewrite HS. intros [->|?]%(below_slot _ Hf); auto. Qed.

(** ** Invalid *)
Definition invalid_after (x : SlotHashKey) : option Slot * bool :=
  if decide (x ∈ S) then mark (OpMarkInvalid k.1) x (validity_at m x) else validity_at m x.

Lemma invalid_after_dup x : (invalid_after x).2 = dup_at m x.
Proof. unfold invalid_after. case_decide; simpl; apply validity_at_dup. Qed.

Lemma invalid_valid m' :
  fi_is_duplicate_confirmed ki = false -> shape m' = shape m ->
  (forall x fi, m' !! x = Some fi -> validity fi = invalid_after x) -> valid_ok m'.
Proof.
  intros Hdup Hsh HV. pose proof (ok_valid _ _ _ Hok) as Hval.
  assert (forall x fi, m' !! x = Some fi -> exists gi, m !! x = Some gi /\
    fi_is_duplicate_confirmed fi = fi_is_duplicate_confirmed gi /\
    fi_latest_invalid_ancestor fi = (if decide (x ∈ S) then
      match fi_latest_invalid_ancestor gi with
      | Some a => if a <? k.1 then Some k.1 else Some a | None => Some k.1 end
      else fi_latest_invalid_ancestor gi)) as Hold.
  { intros x fi Hx. pose proof (shape_Some _ _ _ Hx) as Hsx. rewrite Hsh, shape_lookup in Hsx.
    apply HV in Hx. unfold invalid_after, validity_at in Hx. destruct (m !! x) as [gi|]; [|done].
    exists gi. split; [done|]. case_decide; simpl in Hx; unfold validity in Hx; simpl in Hx;
      injection Hx as E1 E2; done. }
  split.
  - intros x fi s (gi & Hg & _ & ->)%Hold. case_decide as Hx; [|by apply (vo_slot _ Hval)].
    pose proof (vo_slot _ Hval x gi) as Hle. destruct (fi_latest_invalid_ancestor gi) as [a|].
    + destruct (a <? k.1); intros [= <-]; [|by apply Hle]. apply subtree_slot in Hx as [->|]; lia.
    + intros [= <-]. apply subtree_slot in Hx as [->|]; lia.
  - intros x fi (gi & Hg & -> & ->)%Hold Hd. case_decide as Hx; [|by apply (vo_dup _ Hval x gi)].
    apply HS in Hx. assert (dup_at m k = true) as Hd'.
    { eapply confirmed_up; [exact Hx|]. unfold dup_at. by rewrite Hg. }
    unfold dup_at in Hd'. rewrite Hk in Hd'. simpl in Hd'. congruence.
  - intros n ni c ci. rewrite Hsh. intros Hl (gi & Hg & _ & ->)%Hold (hi & Hh & _ & ->)%Hold.
    pose proof (vo_mono _ Hval n gi c hi Hl Hg Hh) as Hm. pose proof (subtree_child n c Hl) as Hc.
    destruct (decide (n ∈ S)); [rewrite decide_True by auto|case_decide; [|done]];
      destruct (fi_latest_invalid_ancestor gi) as [a|], (fi_latest_invalid_ancestor hi) as [b|];
      simpl in *; try done; repeat case_bool; simpl; lia.
Qed.

Lemma invalid_final x fi :
  fi_is_duplicate_confirmed ki = false -> m !! x = Some fi ->
  final invalid_after (reverse (insert_aggregate_operations fc
    (insert_marks [] (OpMarkInvalid k.1) (elements S)) k)) x fi = invalid_after x.
Proof.
  intros Hdup Hx. unfold final.
  rewrite (mark_marks _ _ fc Hok k (OpMarkInvalid k.1) eq_refl S HS).
  rewrite (existsb_ext_in _ (dup_at m)) by (intros; apply invalid_after_dup).
  destruct (bool_decide _ && _) eqn:E.
  - apply andb_true_iff in E as [_ E]. pose proof (child_confirmed x fi Hx E) as Hv.
    unfold invalid_after. rewrite decide_False; [unfold validity_at; by rewrite Hx|].
    intros HxS%HS. assert (dup_at m k = true) as Hd'.
    { eapply confirmed_up; [exact HxS|]. unfold dup_at. rewrite Hx. simpl. unfold validity in Hv. congruence. }
    unfold dup_at in Hd'. rewrite Hk in Hd'. simpl in Hd'. congruence.
  - unfold invalid_after, validity_at. by rewrite Hx.
Qed.

(** ** Valid *)
Definition valid_after (x : SlotHashKey) : option Slot * bool :=
  if decide (x ∈ ancestor_iterator fc k) then (None, true)
  else if decide (x ∈ S) then mark (OpMarkValid k.1) x (validity_at m x) else validity_at m x.

Lemma anc_spec x : x ∈ ancestor_iterator fc k <-> below (shape m) x k /\ x <> k.
Proof. apply apath_above; [apply Hf|]. apply ancestor_iterator_path, Ht. Qed.

Lemma anc_parent n c : link (shape m) n c -> c = k \/ c ∈ ancestor_iterator fc k -> n ∈ ancestor_iterator fc k.
Proof.
  intros Hl Hc. pose proof (f_slot _ Hf _ _ Hl). rewrite !anc_spec in *. destruct Hc as [->|[Hc _]].
  - split; [by apply rtc_once|]. intros ->. lia.
  - split; [by eapply rtc_l|]. intros ->. apply (below_slot _ Hf) in Hc as [->|]; lia.
Qed.

Lemma valid_after_k : valid_after k = (None, true).
Proof.
  unfold valid_after. case_decide; [done|]. rewrite decide_True by (by apply HS). simpl.
  rewrite Z.eqb_refl. f_equal. unfold validity_at. rewrite Hk. simpl.
  destruct (fi_latest_invalid_ancestor ki) as [a|] eqn:E; [|done].
  pose proof (vo_slot _ (ok_valid _ _ _ Hok) k ki a Hk E). by destruct (Z.leb_spec a k.1); [|lia].
Qed.

Lemma valid_after_other x :
  x <> k -> x ∉ ancestor_iterator fc k -> (valid_after x).2 = dup_at m x /\
    (valid_after x).1 = if decide (x ∈ S) then
      match (validity_at m x).1 with Some a => if a <=? k.1 then None else Some a | None => None end
      else (validity_at m x).1.
Proof.
  intros Hne Hna. unfold valid_after. rewrite decide_False by done. rewrite <-validity_at_dup.
  case_decide as Hx; [|done]. split; [|done]. simpl.
  destruct (subtree_slot x Hx) as [->|Hlt]; [done|]. by destruct (Z.eqb_spec x.1 k.1); [lia|].
Qed.

Lemma valid_valid m' :
  shape m' = shape m -> (forall x fi, m' !! x = Some fi -> validity fi = valid_after x) -> valid_ok m'.
Proof.
  intros Hsh HV. pose proof (ok_valid _ _ _ Hok) as Hval.
  assert (forall x fi, m' !! x = Some fi -> (validity fi = (None, true) /\ (x = k \/ x ∈ ancestor_iterator fc k)) \/
    exists gi, x <> k /\ x ∉ ancestor_iterator fc k /\ m !! x = Some gi /\
    fi_is_duplicate_confirmed fi = fi_is_duplicate_confirmed gi /\
    fi_latest_invalid_ancestor fi = (if decide (x ∈ S) then
      match fi_latest_invalid_ancestor gi with Some a => if a <=? k.1 then None else Some a | None => None end
      else fi_latest_invalid_ancestor gi)) as Hold.
  { intros x fi Hx. pose proof (shape_Some _ _ _ Hx) as Hsx. rewrite Hsh, shape_lookup in Hsx.
    apply HV in Hx. destruct (decide (x = k)) as [->|Hne]; [left; by rewrite Hx, valid_after_k; auto|].
    destruct (decide (x ∈ ancestor_iterator fc k)) as [Ha|Hna].
    { left. rewrite Hx. unfold valid_after. by rewrite decide_True; auto. }
    right. destruct (valid_after_other x Hne Hna) as [E2 E1]. rewrite <-Hx in E1, E2.
    unfold validity_at, dup_at in E1, E2. destruct (m !! x) as [gi|]; [|done]. eauto 10. }
  split.
  - intros x fi s [([= -> _] & _)|(gi & _ & _ & Hg & _ & ->)]%Hold; [done|].
    pose proof (vo_slot _ Hval x gi) as Hle. case_decide; [|by apply Hle].
    destruct (fi_latest_invalid_ancestor gi) as [a|]; [|done].
    destruct (a <=? k.1); intros [= <-]. by apply Hle.
  - intros x fi [([= -> _] & _)|(gi & _ & _ & Hg & -> & ->)]%Hold Hd; [done|].
    rewrite (vo_dup _ Hval x gi Hg Hd). by case_decide.
  - intros n ni c ci. rewrite Hsh. intros Hl Hn Hc. pose proof Hn as Hn'.
    apply Hold in Hn as [([= -> _] & _)|(gi & Hnk & Hna & Hg & _ & ->)]; [done|].
    apply Hold in Hc as [(_ & Hc)|(hi & Hck & _ & Hh & _ & ->)]; [by destruct Hna; apply (anc_parent n c)|].
    pose proof (vo_mono _ Hval n gi c hi Hl Hg Hh) as Hm.
    pose proof (subtree_child n c Hl) as Hin. pose proof (subtree_parent n c Hl) as Hout.
    destruct (decide (n ∈ S)); [rewrite decide_True by auto|rewrite decide_False by auto; done].
    destruct (fi_latest_invalid_ancestor gi) as [a|], (fi_latest_invalid_ancestor hi) as [b|];
      simpl in *; try done; repeat case_bool; simpl; lia || done.
Qed.

Lemma valid_final x fi :
  m !! x = Some fi ->
  final valid_after (reverse (insert_aggregate_operations fc
    (insert_marks [] (OpMarkValid k.1) (elements S)) k)) x fi = valid_after x.
Proof.
  intros Hx. set (L := reverse _).
  destruct (mark_ops _ _ fc Hok k (OpMarkValid k.1) eq_refl S HS) as (_ & Hcl & Hpk & _ & _).
  assert (forall n, pending (reverse L) n -> pending L n) as Hrev.
  { intros n. apply pending_perm. apply reverse_Permutation. }
  unfold L in Hrev. rewrite reverse_involutive in Hrev. fold L in Hrev.
  destruct (decide (x ∈ ancestor_iterator fc k)) as [Ha|Hna].
  - unfold final. unfold valid_after at 2. rewrite decide_True by done.
    pose proof Ha as [Hb Hne]%anc_spec. apply rtc_inv in Hb as [?|(c & Hl & Hc)]; [done|].
    assert (pending L x) as Hp.
    { apply Hrev, (pending_up (shape m) _ k); [done|done|by eapply rtc_l|done]. }
    rewrite bool_decide_true by done. cbn [andb].
    assert (existsb (fun c => (valid_after c).2) (fi_children fi) = true) as ->; [|done].
    apply existsb_exists. exists c. apply link_Some in Hl as (fi' & Hx' & Hcin). rewrite Hx in Hx'.
    injection Hx' as <-. split; [by apply list_elem_of_In|]. destruct (decide (c = k)) as [->|Hck].
    + by rewrite valid_after_k.
    + unfold valid_after. rewrite decide_True; [done|]. by apply anc_spec.
  - unfold final. unfold L. rewrite (mark_marks _ _ fc Hok k (OpMarkValid k.1) eq_refl S HS). fold L.
    assert (forall c, c ∈ fi_children fi -> (valid_after c).2 = dup_at m c) as Hch.
    { intros c Hc. assert (link (shape m) x c) as Hl by (apply link_Some; eauto).
      apply valid_after_other; intros ?; apply Hna, (anc_parent x c); auto. }
    rewrite (existsb_ext_in _ (dup_at m)) by done.
    destruct (bool_decide _ && _) eqn:E.
    + apply andb_true_iff in E as [_ E]. pose proof (child_confirmed x fi Hx E) as Hv.
      unfold valid_after. rewrite decide_False by done. unfold validity_at. rewrite Hx. cbn [from_option]. rewrite Hv.
      case_decide; [|done]. simpl. by destruct (x.1 =? k.1).
    + unfold valid_after. rewrite (decide_False (P:=x ∈ ancestor_iterator fc k)) by done.
      unfold validity_at. by rewrite Hx.
Qed.
End with_subtree.

(** A block that is not confirmed can be marked invalid: its subtree is then excluded. *)
Lemma mark_invalid_ok :
  fi_is_duplicate_confirmed ki = false ->
  exists m' S, mark_fork_invalid_candidate fc k = Ok (set_fork_infos fc m') /\
    fc_ok (set_fork_infos fc m') /\ shape m' = shape m /\
    (forall x, x ∈ S <-> below (shape m) k x) /\
    forall x fi, m' !! x = Some fi -> validity fi = invalid_after S x.
Proof.
  intros Hdup. destruct subtree_of as (S & Hsub & HS).
  destruct (mark_process _ _ Hs fc Hok k (OpMarkInvalid k.1) eq_refl S HS (invalid_after S))
    as (m' & He & Hok' & Hsh & HV).
  - intros x fi Hx. by apply invalid_final.
  - intros s x fi _ Hx Hm. destruct (fi_is_duplicate_confirmed fi) eqn:E; [|done].
    apply HS in Hx. assert (dup_at m k = true) as Hd'.
    { eapply confirmed_up; [exact Hx|]. unfold dup_at. by rewrite Hm. }
    unfold dup_at in Hd'. rewrite Hk in Hd'. simpl in Hd'. congruence.
  - intros m'. by apply invalid_valid.
  - exists m', S. split; [|done]. unfold mark_fork_invalid_candidate. rewrite Hk, Hdup.
    cbn [negb ensure mbind outcome_bind]. rewrite Hsub. cbn [mbind outcome_bind]. exact He.
Qed.

Lemma newly_confirmed_ok ks :
  (forall x, x ∈ ks -> is_Some (m !! x)) ->
  newly_confirmed fc ks = Ok (filter (fun x => dup_at m x = false) ks).
Proof.
  induction ks as [|x ks IH]; intros Hks; [done|]. cbn [newly_confirmed].
  destruct (Hks x) as [xi Hx]; [left|]. unfold is_duplicate_confirmed. rewrite Hx.
  cbn [fmap option_fmap option_map expect mbind outcome_bind].
  rewrite IH by (intros; apply Hks; by right). cbn [mbind outcome_bind].
  rewrite filter_cons. assert (dup_at m x = fi_is_duplicate_confirmed xi) as ->
    by (unfold dup_at; by rewrite Hx).
  by destruct (fi_is_duplicate_confirmed xi).
Qed.

(** A block can be marked valid: it and its ancestors are confirmed, and its descendants are no
    longer excluded on account of blocks at or below its slot. The blocks newly confirmed are
    returned. *)
Lemma mark_valid_ok :
  exists m' S, mark_fork_valid_candidate fc k =
      Ok (filter (fun x => dup_at m x = false) (k :: ancestor_iterator fc k), set_fork_infos fc m') /\
    fc_ok (set_fork_infos fc m') /\ shape m' = shape m /\
    (forall x, x ∈ S <-> below (shape m) k x) /\
    forall x fi, m' !! x = Some fi -> validity fi = valid_after S x.
Proof.
  destruct subtree_of as (S & Hsub & HS).
  destruct (mark_process _ _ Hs fc Hok k (OpMarkValid k.1) eq_refl S HS (valid_after S))
    as (m' & He & Hok' & Hsh & HV).
  - intros x fi Hx. by apply valid_final.
  - done.
  - intros m'. by apply valid_valid.
  - exists m', S. split; [|done]. unfold mark_fork_valid_candidate. rewrite newly_confirmed_ok.
    2: { intros x [->|[Hx _]%anc_spec]%elem_of_cons; [eauto|].
         destruct (rtc_inv _ _ Hx) as [->|(c & Hl & _)]; [eauto|].
         destruct (link_dom _ _ _ Hf Hl) as [Hd _]. by rewrite shape_lookup, fmap_is_Some in Hd. }
    cbn [mbind outcome_bind]. rewrite Hsub. cbn [mbind outcome_bind]. rewrite He. done.
Qed.
End candidates.
