(* ===== verification/ForkRoots.v ===== *)
(** * Creating trees and changing their root *)

From S2P Require Import Prelude OrdMap ForkChoice ForkTree ForkAggregate.
From S2P Require Import ForkProcess ForkInvariant ForkVotes ForkSearch ForkLeaf.
From S2P Require Import ForkAddLeaf.
Local Open Scope Z_scope.

(** ** The subtree of a block as a tree of its own *)

(** [m'] is the subtree of [m] at [r], whose parent is forgotten. *)
Definition subtree_at (m : gmap SlotHashKey ForkInfo) (r : SlotHashKey)
    (m' : gmap SlotHashKey ForkInfo) : Prop :=
  (forall x, below (shape m) r x ->
    m' !! x = (fun fi => if decide (x = r) then set_parent fi None else fi) <$> m !! x) /\
  (forall x, is_Some (m' !! x) -> below (shape m) r x).

Section subtree.
Context (m m' : gmap SlotHashKey ForkInfo) (r : SlotHashKey) (Hsub : subtree_at m r m').
Context (Hf : forest (shape m)) (Hr : is_Some (m !! r)).
Context (Hagg : forall x fi, m !! x = Some fi -> agg_ok m x fi) (Hv : valid_ok m).

Lemma sub_lookup x fi' :
  m' !! x = Some fi' -> below (shape m) r x /\ exists fi, m !! x = Some fi /\
    fi' = if decide (x = r) then set_parent fi None else fi.
Proof.
  intros Hx. assert (below (shape m) r x) as Hb by (apply Hsub; eauto). split; [done|].
  rewrite (proj1 Hsub) in Hx by done. destruct (m !! x) as [fi|]; [|done]. injection Hx as <-. eauto.
Qed.

Lemma sub_link n c : link (shape m') n c <-> below (shape m) r n /\ link (shape m) n c.
Proof.
  rewrite !link_Some. split.
  - intros (fi' & (Hb & fi & Hn & ->)%sub_lookup & Hc). split; [done|]. exists fi. split; [done|].
    by destruct (decide _).
  - intros (Hb & fi & Hn & Hc). eexists. rewrite (proj1 Hsub), Hn by done. split; [reflexivity|].
    by destruct (decide _).
Qed.

Lemma sub_below a d : below (shape m) r a -> below (shape m) a d -> below (shape m') a d.
Proof.
  intros Ha Hd. induction Hd as [|a b d Hl _ IH]; [done|].
  eapply rtc_l; [by apply sub_link|]. apply IH. by eapply rtc_r.
Qed.

Lemma sub_tree : tree (shape m') r.
Proof.
  split; [split|..].
  - intros n c [Hb Hl]%sub_link. pose proof (f_slot _ Hf _ _ Hl) as Hlt.
    destruct (f_parent _ Hf _ _ Hl) as [cs Hc]. rewrite shape_lookup in Hc.
    destruct (m !! c) as [ci|] eqn:Hci; [|done]. injection Hc as Hpar _.
    rewrite shape_lookup, (proj1 Hsub) by (by eapply rtc_r). rewrite Hci. simpl.
    rewrite decide_False; [unfold links; rewrite Hpar; eauto|].
    intros ->. apply (below_slot _ Hf) in Hb as [->|]; lia.
  - intros n c [_ Hl]%sub_link. by apply (f_slot _ Hf).
  - intros n p cs Hn. rewrite shape_lookup in Hn. destruct (m' !! n) as [fi'|] eqn:E; [|done].
    injection Hn as _ <-. apply sub_lookup in E as (_ & fi & Hfi & ->).
    pose proof (f_sorted _ Hf n _ _ (shape_Some _ _ _ Hfi)). by destruct (decide _).
  - rewrite shape_lookup, (proj1 Hsub) by done. destruct Hr as [fi ->]. simpl.
    rewrite decide_True by done. unfold links. simpl. eauto.
  - intros x p cs Hx Hne. rewrite shape_lookup in Hx. destruct (m' !! x) as [fi'|] eqn:E; [|done].
    injection Hx as <- _. apply sub_lookup in E as (Hb & fi & Hfi & ->).
    rewrite decide_False by done. apply rtc_inv_r in Hb as [?|(y & Hy & Hl)]; [done|].
    exists y. split; [|by apply sub_link]. destruct (f_parent _ Hf _ _ Hl) as [cs' Hc].
    rewrite (shape_Some _ _ _ Hfi) in Hc. unfold links in Hc. congruence.
Qed.

Lemma sub_agg x fi' : m' !! x = Some fi' -> agg_ok m' x fi'.
Proof.
  intros (Hb & fi & Hfi & ->)%sub_lookup. pose proof (Hagg x fi Hfi) as Hao.
  eapply (agg_ok_local m).
  - intros c Hc. assert (c ∈ fi_children fi) as Hc' by (by destruct (decide _)).
    assert (link (shape m) x c) as Hl by (apply link_Some; eauto).
    rewrite (proj1 Hsub) by (by eapply rtc_r). destruct (m !! c) as [ci|]; [|done].
    by destruct (decide (c = r)).
  - intros d. by apply sub_below.
  - destruct (decide _); [|done]. destruct Hao. by split.
Qed.

Lemma sub_valid : valid_ok m'.
Proof.
  assert (forall x fi', m' !! x = Some fi' -> exists fi, m !! x = Some fi /\
    fi_latest_invalid_ancestor fi' = fi_latest_invalid_ancestor fi /\
    fi_is_duplicate_confirmed fi' = fi_is_duplicate_confirmed fi) as H.
  { intros x fi' (_ & fi & Hfi & ->)%sub_lookup. exists fi. by destruct (decide _). }
  split.
  - intros x fi' s (fi & Hfi & -> & _)%H. by apply (vo_slot _ Hv).
  - intros x fi' (fi & Hfi & -> & ->)%H. by apply (vo_dup _ Hv x).
  - intros n ni c ci [_ Hl]%sub_link (gi & Hg & -> & _)%H (hi & Hh & -> & _)%H. by apply (vo_mono _ Hv n gi c hi).
Qed.
End subtree.

(** ** A new root above the old one *)
Section root_parent.
Context (m : gmap SlotHashKey ForkInfo) (r q : SlotHashKey) (ri : ForkInfo).
Context (Ht : tree (shape m) r) (Hri : m !! r = Some ri) (Hq : m !! q = None) (Hlt : q.1 < r.1).
Context (Hagg : forall n ni, m !! n = Some ni -> agg_ok m n ni) (Hv : valid_ok m).
Context (Hc : fi_is_candidate ri = true).
#[local] Abbreviation qi := {|
  fi_stake_voted_at := 0; fi_stake_voted_subtree := fi_stake_voted_subtree ri;
  fi_height := (fi_height ri + 1)%nat; fi_best_slot := fi_best_slot ri;
  fi_deepest_slot := fi_deepest_slot ri; fi_parent := None; fi_children := [r];
  fi_latest_invalid_ancestor := None; fi_is_duplicate_confirmed := fi_is_duplicate_confirmed ri |}.
#[local] Abbreviation mq := (<[q := qi]> (<[r := set_parent ri (Some q)]> m)).

Lemma rp_lookup n ni :
  mq !! n = Some ni -> (n = q /\ ni = qi) \/
    exists fi, m !! n = Some fi /\ ni = if decide (n = r) then set_parent fi (Some q) else fi.
Proof using Hri.
  intros [[<- <-]|[Hne [[<- <-]|[Hne' Hn]]%lookup_insert_Some]]%lookup_insert_Some; [by left|right..].
  - exists ri. by rewrite decide_True.
  - exists ni. by rewrite decide_False.
Qed.

Lemma rp_old n fi :
  m !! n = Some fi -> mq !! n = Some (if decide (n = r) then set_parent fi (Some q) else fi).
Proof using Hri Hq.
  intros Hn. rewrite lookup_insert_ne by congruence. destruct (decide (n = r)) as [->|Hne].
  - rewrite lookup_insert_eq. congruence.
  - by rewrite lookup_insert_ne.
Qed.

Lemma rp_link n c : link (shape mq) n c <-> link (shape m) n c \/ (n = q /\ c = r).
Proof using Hri Hq.
  rewrite !link_Some. split.
  - intros (ni & [[-> ->]|(fi & Hfi & ->)]%rp_lookup & Hin).
    + right. split; [done|]. by apply list_elem_of_singleton in Hin.
    + left. exists fi. split; [done|]. by destruct (decide _).
  - intros [(fi & Hn & Hin)|[-> ->]].
    + eexists. split; [by apply rp_old|]. by destruct (decide _).
    + eexists. rewrite lookup_insert_eq. split; [done|]. by left.
Qed.

Lemma rp_below a d : below (shape m) a d -> below (shape mq) a d.
Proof using Hri Hq. apply rtc_subrel. intros x y Hl. apply rp_link. by left. Qed.

Lemma rp_tree : tree (shape mq) q.
Proof using Hri Hq Hlt Ht.
  pose proof (t_forest _ _ Ht) as Hf. split; [split|..].
  - intros n c [Hl|[-> ->]]%rp_link.
    + destruct (f_parent _ Hf _ _ Hl) as [cs Hcs]. rewrite shape_lookup in Hcs.
      destruct (m !! c) as [ci|] eqn:E; [|done]. injection Hcs as Hp _.
      rewrite shape_lookup, (rp_old c ci E), decide_False; [unfold links; simpl; rewrite Hp; eauto|].
      intros ->. destruct (t_root _ _ Ht) as [cs' Hr]. rewrite (shape_Some _ _ _ E) in Hr.
      unfold links in Hr. congruence.
    + rewrite shape_lookup, (rp_old r ri Hri), decide_True by done. by eexists.
  - intros n c [Hl|[-> ->]]%rp_link; [by apply (f_slot _ Hf)|done].
  - intros n p cs Hn. rewrite shape_lookup in Hn. destruct (mq !! n) as [ni|] eqn:E; [|done].
    injection Hn as _ <-. apply rp_lookup in E as [[-> ->]|(fi & Hfi & ->)]; [by repeat constructor|].
    pose proof (f_sorted _ Hf n _ _ (shape_Some _ _ _ Hfi)). by destruct (decide _).
  - rewrite shape_lookup, lookup_insert_eq. by eexists.
  - intros n p cs Hn Hne. rewrite shape_lookup in Hn. destruct (mq !! n) as [ni|] eqn:E; [|done].
    injection Hn as <- _. apply rp_lookup in E as [[-> ->]|(fi & Hfi & ->)]; [done|].
    setoid_rewrite rp_link. destruct (decide (n = r)) as [->|Hnr]; [exists q; auto|].
    destruct (t_linked _ _ Ht n _ _ (shape_Some _ _ _ Hfi) Hnr) as (x & Hx & Hl). eauto.
Qed.

Lemma rp_view c ci : m !! c = Some ci -> view <$> mq !! c = Some (view ci).
Proof using Hri Hq. intros Hci. rewrite (rp_old c ci Hci). by destruct (decide _). Qed.

Lemma rp_agg n ni : mq !! n = Some ni -> agg_ok mq n ni.
Proof using All.
  pose proof (t_forest _ _ Ht) as Hf. intros [[-> ->]|(fi & Hfi & ->)]%rp_lookup.
  - pose proof (rp_old r ri Hri) as Hr. rewrite decide_True in Hr by done.
    pose proof (Hagg r ri Hri) as Hao. split; 
      cbn [fi_stake_voted_at fi_stake_voted_subtree fi_height fi_best_slot fi_deepest_slot fi_children
        fi_is_duplicate_confirmed].
    + simpl. unfold sub_at. rewrite Hr. simpl. lia.
    + intros _. rewrite filter_cons_True by (unfold cand; by rewrite Hr). right. exists r.
      split; [|unfold best_at; by rewrite Hr]. split; [by left|]. set_solver.
    + right. exists r. split; [|unfold deepest_at, height_at; by rewrite Hr]. split; [by left|]. set_solver.
    + intros c Hin. apply list_elem_of_singleton in Hin as ->. unfold dup_at. by rewrite Hr.
    + eapply rtc_l; [apply rp_link; by right|]. apply rp_below, Hao.
    + eapply rtc_l; [apply rp_link; by right|]. apply rp_below, Hao.
  - apply (agg_ok_local m).
    + intros c Hin. assert (c ∈ fi_children fi) as Hin' by (by destruct (decide _)).
      destruct (forest_children m n fi c Hf Hfi Hin') as (_ & [ci Hci] & _ & _).
      by rewrite (rp_view c ci Hci), Hci.
    + intros d. apply rp_below.
    + pose proof (Hagg n fi Hfi) as []. by destruct (decide _).
Qed.

Lemma rp_valid : valid_ok mq.
Proof using All.
  assert (forall x fi', mq !! x = Some fi' ->
    (x = q /\ fi_latest_invalid_ancestor fi' = None) \/ exists fi, m !! x = Some fi /\
    fi_latest_invalid_ancestor fi' = fi_latest_invalid_ancestor fi /\
    fi_is_duplicate_confirmed fi' = fi_is_duplicate_confirmed fi) as H.
  { intros x fi' [[-> ->]|(fi & Hfi & ->)]%rp_lookup; [by left|right]. exists fi. by destruct (decide _). }
  split.
  - intros x fi' s [[-> ->]|(fi & Hfi & -> & _)]%H; [done|]. by apply (vo_slot _ Hv).
  - intros x fi' [[-> ->]|(fi & Hfi & -> & ->)]%H; [done|]. by apply (vo_dup _ Hv x).
  - intros n ni c ci Hl [[-> ->]|(gi & Hg & -> & _)]%H Hci; [done|].
    apply rp_link in Hl as [Hl|[-> _]]; [|congruence].
    apply H in Hci as [[-> _]|(hi & Hh & -> & _)]; [|by apply (vo_mono _ Hv n gi c hi)].
    destruct (link_dom _ _ _ (t_forest _ _ Ht) Hl) as [_ Hs]. rewrite shape_lookup, Hq in Hs. by destruct Hs.
Qed.
End root_parent.

(** ** Removing blocks *)
Lemma remove_all_ok m ks :
  NoDup ks -> (forall k, k ∈ ks -> is_Some (m !! k)) ->
  exists m', remove_all m ks = Ok m' /\ forall x, m' !! x = if decide (x ∈ ks) then None else m !! x.
Proof.
  revert m. induction ks as [|k ks IH]; intros m Hnd Hks.
  { exists m. split; [done|]. intros x. by rewrite decide_False by apply not_elem_of_nil. }
  apply NoDup_cons in Hnd as [Hk Hnd]. destruct (Hks k) as [fi Hfi]; [left|].
  cbn [remove_all]. rewrite Hfi. cbn [expect mbind outcome_bind].
  destruct (IH (delete k m) Hnd) as (m' & -> & Hm').
  { intros x Hx. rewrite lookup_delete_ne by (by intros ->). apply Hks. by right. }
  exists m'. split; [done|]. intros x. rewrite Hm'. destruct (decide (x = k)) as [->|Hne].
  - rewrite decide_False, lookup_delete_eq by done. by rewrite decide_True by left.
  - rewrite lookup_delete_ne by done. apply decide_ext. set_solver.
Qed.

Section roots.
Context (get_epoch : Slot -> Epoch) (epoch_stakes : gmap Epoch (gmap Pubkey Z)).
Abbreviation fc_ok := (fc_ok get_epoch epoch_stakes).
Abbreviation tally := (tally get_epoch epoch_stakes).

(** A subtree, with the votes for its blocks, satisfies the invariant. *)
Lemma subtree_fc_ok m r m' votes :
  forest (shape m) -> (forall x fi, m !! x = Some fi -> agg_ok m x fi) -> valid_ok m ->
  is_Some (m !! r) -> subtree_at m r m' ->
  (forall x fi, below (shape m) r x -> m !! x = Some fi -> fi_stake_voted_at fi = tally votes x) ->
  fc_ok {| fork_infos := m'; latest_votes := votes; tree_root := r |}.
Proof.
  intros Hf Hagg Hv Hr Hsub Hvotes. split; simpl.
  - by eapply sub_tree.
  - intros x fi'. by apply (sub_agg m m' r Hsub Hagg).
  - intros x fi' Hx. destruct (sub_lookup _ _ _ Hsub x fi' Hx) as (Hb & fi & Hfi & ->).
    rewrite <-(Hvotes x fi) by done. by destruct (decide _).
  - by eapply sub_valid.
Qed.

(** [set_tree_root] keeps exactly the subtree of the new root. *)
Lemma set_tree_root_ok fc r :
  fc_ok fc -> is_Some (fork_infos fc !! r) ->
  exists fc', set_tree_root fc r = Ok fc' /\ fc_ok fc' /\ tree_root fc' = r /\
    latest_votes fc' = latest_votes fc /\ subtree_at (fork_infos fc) r (fork_infos fc').
Proof.
  intros Hok Hr. pose proof (ok_forest _ _ fc Hok) as Hf. pose proof (ok_tree _ _ _ Hok) as Ht.
  assert (forall x, is_Some (fork_infos fc !! x) <-> below (shape (fork_infos fc)) (tree_root fc) x) as Hroot.
  { intros x. split.
    - intros Hx. apply (tree_below _ _ Ht). rewrite shape_lookup. by apply fmap_is_Some.
    - intros Hb. apply (below_dom _ Hf) in Hb; [by rewrite shape_lookup, fmap_is_Some in Hb|].
      destruct (t_root _ _ Ht) as [cs ->]. eauto. }
  destruct (subtree_diff_ok fc r Hf (tree_root fc)) as (S & HS & Hin); [by apply Hroot|].
  assert (forall x, x ∈ S <-> is_Some (fork_infos fc !! x) /\ ~ below (shape (fork_infos fc)) r x) as HS'.
  { intros x. rewrite Hin, (until_spec _ _ _ _ Hf), Hroot. apply Hroot in Hr.
    split; [|naive_solver]. intros [[H1 H2] H3]. split; [done|]. intros H4. by apply H3, H2. }
  destruct (remove_all_ok (fork_infos fc) (elements S)) as (m1 & Hm1 & Hlk).
  { apply NoDup_elements. } { intros x Hx%elem_of_elements. by apply HS'. }
  assert (forall x, below (shape (fork_infos fc)) r x -> m1 !! x = fork_infos fc !! x) as Hin1.
  { intros x Hx. rewrite Hlk, decide_False; [done|]. rewrite elem_of_elements, HS'. tauto. }
  destruct Hr as [ri Hri]. unfold set_tree_root. rewrite HS. cbn [mbind outcome_bind].
  rewrite Hm1. cbn [mbind outcome_bind]. rewrite (Hin1 r), Hri by done. cbn [expect mbind outcome_bind].
  eexists. split; [reflexivity|]. simpl.
  assert (subtree_at (fork_infos fc) r (<[r := set_parent ri None]> m1)) as Hsub.
  { split.
    - intros x Hx. destruct (decide (x = r)) as [->|Hne].
      + by rewrite lookup_insert_eq, Hri.
      + rewrite lookup_insert_ne, Hin1 by done. by destruct (fork_infos fc !! x).
    - intros x. destruct (decide (x = r)) as [->|Hne]; [done|]. rewrite lookup_insert_ne, Hlk by done.
      case_decide as Hx; [by intros []|]. intros Hs. rewrite elem_of_elements, HS' in Hx.
      destruct (below_or_not fc r x Ht); [done|tauto]. }
  split; [|done]. eapply subtree_fc_ok; [done|apply Hok|apply Hok| |done|].
  - by exists ri.
  - intros x fi _. apply (ok_at _ _ _ Hok).
Qed.
(** ** New trees *)
Lemma new_ok root :
  exists fc, new root = Ok fc /\ fc_ok fc /\ tree_root fc = root /\ latest_votes fc = ∅ /\
    forall x, is_Some (fork_infos fc !! x) <-> x = root.
Proof.
  set (ri := new_leaf root None None).
  exists {| fork_infos := {[root := ri]}; latest_votes := ∅; tree_root := root |}.
  split; [done|]. simpl.
  assert (forall x fi, ({[root := ri]} : gmap _ _) !! x = Some fi <-> x = root /\ fi = ri) as Hlk.
  { intros x fi. rewrite lookup_singleton_Some. naive_solver. }
  assert (forall n c, ~ link (shape {[root := ri]}) n c) as Hno.
  { intros n c (fi & [-> ->]%Hlk & Hc)%link_Some. by apply elem_of_nil in Hc. }
  split; [|split; [done|]; split; [done|]].
  - split; simpl.
    + split; [split|..].
      * intros n c []%Hno.
      * intros n c []%Hno.
      * intros n p cs Hn. rewrite shape_lookup in Hn. destruct (_ !! n) as [fi|] eqn:E; [|done].
        apply Hlk in E as [-> ->]. injection Hn as _ <-. constructor.
      * rewrite shape_lookup, lookup_singleton_eq. by exists [].
      * intros x p cs Hx Hne. rewrite shape_lookup, lookup_singleton_ne in Hx by done. done.
    + intros x fi [-> ->]%Hlk. split; simpl; try done; by left.
    + intros x fi [-> ->]%Hlk. done.
    + split.
      * by intros x fi s [-> ->]%Hlk.
      * by intros x fi [-> ->]%Hlk.
      * intros n ni c ci []%Hno.
  - intros x. rewrite lookup_singleton_is_Some. naive_solver.
Qed.

(** ** [add_root_parent] *)

(** The tree has a new root, whose only child is the old one. *)
Lemma add_root_parent_ok fc q :
  fc_ok fc -> q.1 < (tree_root fc).1 -> fork_infos fc !! q = None ->
  is_candidate fc (tree_root fc) = Some true -> tally (latest_votes fc) q = 0 ->
  exists fc', add_root_parent fc q = Ok fc' /\ fc_ok fc' /\ tree_root fc' = q /\
    latest_votes fc' = latest_votes fc /\
    (forall x, x <> q -> x <> tree_root fc -> fork_infos fc' !! x = fork_infos fc !! x) /\
    best_overall_slot fc' = best_overall_slot fc.
Proof.
  intros Hok Hlt Hq Hc Hz. destruct (t_root _ _ (ok_tree _ _ _ Hok)) as [cs Hr].
  rewrite shape_lookup in Hr. unfold is_candidate in Hc.
  destruct (fork_infos fc !! tree_root fc) as [ri|] eqn:Hri; [|done]. injection Hc as Hc.
  unfold add_root_parent, contains_block. rewrite (proj2 (Z.ltb_lt _ _) Hlt).
  rewrite bool_decide_eq_false_2 by (rewrite Hq; by intros []). cbn [ensure negb mbind outcome_bind].
  rewrite Hri. cbn [expect mbind outcome_bind]. eexists. split; [reflexivity|].
  split; [|split; [done|]; split; [done|]; split].
  - split; simpl.
    + apply rp_tree; [apply Hok|done..].
    + eapply rp_agg; [apply Hok|done|done|done|apply Hok|apply Hok|done].
    + intros x fi [[-> ->]|(gi & Hg & ->)]%rp_lookup; [done| |done].
      rewrite <-(ok_at _ _ _ Hok x gi Hg). by destruct (decide _).
    + eapply rp_valid; [apply Hok|done|done|done|apply Hok|apply Hok|done].
  - intros x Hne Hne'. simpl. by rewrite !lookup_insert_ne.
  - unfold best_overall_slot, best_slot. simpl. by rewrite lookup_insert_eq, Hri.
Qed.
End roots.
