(* ===== verification/ForkSplit.v ===== *)
(** * Splitting a tree *)

From S2P Require Import Prelude OrdMap ForkChoice ForkTree ForkAggregate.
From S2P Require Import ForkProcess ForkInvariant ForkVotes ForkSearch ForkMarks.
From S2P Require Import ForkRoots.
Local Open Scope Z_scope.

Lemma os_remove_absent {K} `{Ordered K} (k : K) l : k ∉ l -> (os_remove k l).2 = l.
Proof.
  induction l as [|k' l IH]; intros Hk; [done|]. simpl. apply not_elem_of_cons in Hk as [Hne Hk].
  specialize (IH Hk). destruct (os_remove k l) as [b l']; simpl in IH. subst.
  destruct (cmp k k') eqn:E; [by apply cmp_eq in E|done..].
Qed.

(** ** Cutting the link to [k] *)
Section cut.
Context (m : gmap SlotHashKey ForkInfo) (root k p : SlotHashKey) (pi : ForkInfo).
Context (Ht : tree (shape m) root) (Hp : m !! p = Some pi) (Hkp : k ∈ fi_children pi).
Abbreviation cut_children := (os_remove k (fi_children pi)).2.
#[local] Abbreviation m1 := (<[p := set_children pi cut_children]> m).
#[local] Abbreviation Hf := (t_forest _ _ Ht).

Lemma cut_parent : link (shape m) p k.
Proof using Hp Hkp. apply link_Some. eauto. Qed.

Lemma cut_in c : c ∈ cut_children <-> c ∈ fi_children pi /\ c <> k.
Proof using Ht Hp Hkp.
  pose proof (f_sorted _ Hf p _ _ (shape_Some _ _ _ Hp)) as Hs%sorted_NoDup.
  destruct (os_remove_perm k _ Hkp) as [_ Hperm]. rewrite Hperm in Hs. apply NoDup_cons in Hs as [Hk _].
  rewrite Hperm at 2. set_solver.
Qed.

Lemma cut_lookup x xi : m1 !! x = Some xi -> exists fi, m !! x = Some fi /\
  xi = if decide (x = p) then set_children fi cut_children else fi.
Proof using Hp.
  intros [[<- <-]|[Hne Hx]]%lookup_insert_Some.
  - exists pi. by rewrite decide_True.
  - exists xi. by rewrite decide_False.
Qed.

Lemma cut_old x : x <> p -> m1 !! x = m !! x.
Proof. intros. by rewrite lookup_insert_ne. Qed.

Lemma cut_link n c : link (shape m1) n c <-> link (shape m) n c /\ c <> k.
Proof using Ht Hp Hkp.
  rewrite !link_Some. split.
  - intros (xi & (fi & Hn & ->)%cut_lookup & Hc). destruct (decide (n = p)) as [->|Hne].
    + simpl in Hc. apply cut_in in Hc as [Hc Hne]. rewrite Hp in Hn. injection Hn as <-. eauto.
    + split; [eauto|]. intros ->. apply Hne.
      eapply (link_inj _ Hf); [apply link_Some; eauto|apply cut_parent].
  - intros [(fi & Hn & Hc) Hne]. destruct (decide (n = p)) as [->|Hnp].
    + rewrite lookup_insert_eq. eexists. split; [done|]. apply cut_in. split; [|done]. congruence.
    + rewrite cut_old by done. eauto.
Qed.

Lemma cut_below_sub a d : below (shape m1) a d -> below (shape m) a d.
Proof using Ht Hp Hkp. apply rtc_subrel. by intros x y [? _]%cut_link. Qed.

(** Paths that do not enter [k] remain. *)
Lemma cut_below a d : below (shape m) a d -> (below (shape m) a k -> a = k) -> below (shape m1) a d.
Proof using Ht Hp Hkp.
  induction 1 as [|a b d Hl Hbd IH]; intros Ha; [done|].
  assert (~ below (shape m) b k) as Hb.
  { intros Hbk. assert (below (shape m) a k) as Hak by (by eapply rtc_l). apply Ha in Hak as ->.
    pose proof (f_slot _ Hf _ _ Hl). apply (below_slot _ Hf) in Hbk as [->|]; lia. }
  eapply rtc_l; [apply cut_link; split; [done|]|by apply IH].
  intros ->. by apply Hb.
Qed.

Lemma cut_forest : forest (shape m1).
Proof using Ht Hp Hkp.
  split.
  - intros n c [Hl _]%cut_link. destruct (f_parent _ Hf _ _ Hl) as [cs Hcs]. rewrite shape_lookup in *.
    destruct (decide (c = p)) as [->|Hne].
    + rewrite lookup_insert_eq. rewrite Hp in Hcs. injection Hcs as Hpar _. unfold links. simpl.
      rewrite Hpar. eauto.
    + rewrite cut_old by done. eauto.
  - intros n c [Hl _]%cut_link. by apply (f_slot _ Hf).
  - intros n q cs Hn. rewrite shape_lookup in Hn. destruct (m1 !! n) as [xi|] eqn:E; [|done].
    injection Hn as _ <-. apply cut_lookup in E as (fi & Hfi & ->).
    pose proof (f_sorted _ Hf n _ _ (shape_Some _ _ _ Hfi)) as Hs. destruct (decide (n = p)) as [->|]; [|done].
    simpl. rewrite Hp in Hfi. injection Hfi as <-. by apply os_remove_sorted.
Qed.

(** The blocks left under the root. *)
Lemma cut_root x : k <> root -> is_Some (m !! x) ->
  below (shape m1) root x <-> ~ below (shape m) k x.
Proof using Ht Hp Hkp.
  intros Hne Hx. pose proof (cut_forest) as Hf1.
  assert (below (shape m) root x) as Hrx.
  { apply (tree_below _ _ Ht). rewrite shape_lookup. by apply fmap_is_Some. }
  split.
  - intros Hb Hk. assert (below (shape m1) k x) as Hk1 by (apply cut_below; auto).
    destruct (below_linear _ Hf1 _ _ _ Hb Hk1) as [H|H].
    + apply rtc_inv_r in H as [?|(y & _ & [_ ?]%cut_link)]; done.
    + apply cut_below_sub in H. assert (below (shape m) root k) as H'.
      { apply (tree_below _ _ Ht). destruct (link_dom _ _ _ Hf cut_parent). done. }
      by apply Hne, (below_antisym _ Hf).
  - clear Hx. revert x Hrx. apply (rtc_ind_r (R := link (shape m))
      (fun x => ~ below (shape m) k x -> below (shape m1) root x) root); [done|].
    intros y x Hry Hl IH Hno. eapply rtc_r; [apply IH|apply cut_link; split; [done|]].
    + intros Hky. apply Hno. by eapply rtc_r.
    + by intros ->.
Qed.
End cut.

(** ** The batch of [split_off] *)
Section split.
Context (get_epoch : Slot -> Epoch) (epoch_stakes : gmap Epoch (gmap Pubkey Z)).
Context (Hs : stakes_ok epoch_stakes).
Context (fc : HeaviestSubtreeForkChoice) (k p : SlotHashKey) (pi : ForkInfo).
Abbreviation m := (fork_infos fc).
Context (Hok : fc_ok get_epoch epoch_stakes fc) (Hp : m !! p = Some pi) (Hkp : k ∈ fi_children pi).
#[local] Abbreviation Ht := (ok_tree _ _ fc Hok).
#[local] Abbreviation m1 := (<[p := set_children pi (os_remove k (fi_children pi)).2]> m).
#[local] Abbreviation ops := (insert_aggregate_operations fc [] k).

(** Every operation is an aggregation of a strict ancestor of [k], and each of them has one. *)
Lemma split_ops :
  om_wf ops /\ closed (shape m) ops /\
  (forall e, e ∈ ops -> e = agg_entry e.1.1 /\ below (shape m) e.1.1 k /\ e.1.1 <> k) /\
  (forall x, below (shape m) x k -> x <> k -> pending ops x).
Proof using Hok.
  destruct (insert_aggregate_ok fc [] k Ht) as (ks & Hwf & Hperm & Hcl & Hpend & Hks).
  { constructor. } { intros e n He. by apply elem_of_nil in He. }
  split; [done|]. split; [done|]. split.
  - intros e He. rewrite Hperm, app_nil_r in He. apply list_elem_of_fmap in He as (x & -> & Hx%Hks).
    split; [done|]. apply (apath_above _ _ _ x (t_forest _ _ Ht) (ancestor_iterator_path fc k Ht)). done.
  - intros x. by apply pending_up.
Qed.

Lemma cut_view c : view <$> m !! c = view <$> m1 !! c.
Proof using Hp.
  destruct (decide (c = p)) as [->|Hne]; [|by rewrite lookup_insert_ne].
  by rewrite lookup_insert_eq, Hp.
Qed.

Lemma cut_validity x : validity_at m1 x = validity_at m x.
Proof using Hp.
  unfold validity_at. destruct (decide (x = p)) as [->|Hne]; [|by rewrite lookup_insert_ne].
  by rewrite lookup_insert_eq, Hp.
Qed.

Lemma split_batch : batch (validity_at m) m1 (reverse ops).
Proof using Hs Hok Hp Hkp.
  destruct split_ops as (Hwf & Hcl & Hops & Hup). pose proof (reverse_Permutation ops) as Hr.
  assert (forall e, e ∈ reverse ops -> e = agg_entry e.1.1) as Hin.
  { intros e He. apply Hops. by rewrite <-Hr. }
  assert (forall n, pending ops n -> pending (reverse ops) n) as Hpend.
  { intros n. apply pending_perm. by rewrite Hr. }
  assert (adds (reverse ops) = 0) as Had by (apply zsum_zero; intros e ->%Hin; done).
  destruct Hs as [_ Hmax]. split.
  - rewrite fmap_reverse. by apply reverse_sorted.
  - by intros e ->%Hin.
  - by intros e ->%Hin.
  - intros e n He [Hl _]%(cut_link m _ k p pi Ht Hp Hkp).
    apply Hpend, (Hcl e); [by rewrite <-Hr|done].
  - by intros e ->%Hin.
  - by intros x l s fi ?%Hin.
  - by intros x l s fi ?%Hin.
  - intros x xi Hx. destruct (cut_lookup m k p pi Hp x xi Hx) as (fi & Hfi & ->).
    destruct (decide (pending (reverse ops) x)) as [|Hno]; [by right|left].
    assert (below (shape m) x k -> x = k) as Hxk.
    { intros Hb. destruct (decide (x = k)) as [|Hne]; [done|]. destruct Hno.
      by apply Hpend, Hup. }
    assert (x <> p) as Hne.
    { intros ->. pose proof (cut_parent m k p pi Hp Hkp) as Hl. rewrite Hxk in Hl by (by apply rtc_once).
      pose proof (f_slot _ (t_forest _ _ Ht) _ _ Hl). lia. }
    rewrite decide_False by done. eapply (agg_ok_local m).
    + intros c _. apply cut_view.
    + intros d Hd. eapply cut_below; [apply Ht|done..].
    + by apply (ok_agg _ _ _ Hok).
  - intros x xi Hx. destruct (cut_lookup m k p pi Hp x xi Hx) as (fi & Hfi & ->).
    destruct (sub_bounds _ _ Hs fc Hok x fi Hfi) as [? ?]. rewrite Had. destruct (decide _); simpl; lia.
  - pose proof (at_total _ _ Hs fc Hok). rewrite Had, (msum_update _ _ p pi) by done. simpl. unfold u64_max in *. lia.
  - intros x xi Hx. destruct (cut_lookup m k p pi Hp x xi Hx) as (fi & Hfi & ->). apply unmarked_final.
    + by intros e ->%Hin.
    + intros c Hc Hd. assert (c ∈ fi_children fi) as Hc'.
      { destruct (decide (x = p)) as [->|]; [|done]. rewrite Hp in Hfi. injection Hfi as <-.
        by apply os_remove_sub in Hc. }
      pose proof (ao_dup _ _ _ (ok_agg _ _ _ Hok x fi Hfi) c Hc' Hd). by destruct (decide _).
    + intros Hd. assert (fi_is_duplicate_confirmed fi = true) as Hd' by (by destruct (decide _)).
      pose proof (vo_dup _ (ok_valid _ _ _ Hok) x fi Hfi Hd'). by destruct (decide _).
    + unfold validity_at. rewrite Hfi. by destruct (decide _).
Qed.

(** The blocks after the aggregation: two trees, whose blocks below [k] have not changed. *)
Lemma split_process :
  exists m', process_list (set_fork_infos fc m1) (reverse ops) =
      Ok (set_fork_infos (set_fork_infos fc m1) m') /\
    shape m' = shape m1 /\ (forall x, (below (shape m) x k -> x = k) -> m' !! x = m !! x) /\
    (forall x fi, m' !! x = Some fi -> agg_ok m' x fi /\ validity fi = validity_at m x /\
      fi_stake_voted_at fi = tally get_epoch epoch_stakes (latest_votes fc) x) /\ valid_ok m'.
Proof using Hs Hok Hp Hkp.
  destruct split_ops as (_ & _ & Hops & _).
  destruct (process_list_ok (validity_at m) (set_fork_infos fc m1) (reverse ops))
    as (m' & Hpl & Hsh & Hsame & Hall); [by eapply cut_forest; [apply Ht|..]|apply split_batch|].
  simpl in Hsh, Hsame, Hall. exists m'. split; [done|]. split; [done|]. split; [|split].
  - intros x Hx. rewrite Hsame.
    + rewrite lookup_insert_ne; [done|]. intros <-. pose proof (cut_parent m k p pi Hp Hkp) as Hl.
      rewrite Hx in Hl by (by apply rtc_once). pose proof (f_slot _ (t_forest _ _ Ht) _ _ Hl). lia.
    + intros e (_ & Hb & Hne)%elem_of_reverse%Hops <-. auto.
  - intros x fi Hx. destruct (Hall x fi Hx) as (Hao & Hv & _ & Hat). split; [done|]. split; [done|].
    rewrite Hat. unfold delta. rewrite zsum_zero.
    2: { intros e [-> _]%elem_of_reverse%Hops. by case_decide. }
    pose proof (shape_Some _ _ _ Hx) as Hx1. rewrite Hsh, shape_lookup in Hx1.
    destruct (m1 !! x) as [xi|] eqn:E; [|done].
    destruct (cut_lookup m k p pi Hp x xi E) as (gi & Hg & ->). unfold at_at. rewrite E. simpl.
    rewrite <-(ok_at _ _ _ Hok x gi Hg). destruct (decide _); simpl; lia.
  - apply (valid_ok_same m1); [done| |].
    + intros x fi Hx. rewrite cut_validity. by apply Hall.
    + pose proof (ok_valid _ _ _ Hok) as Hv.
      assert (forall x xi, m1 !! x = Some xi -> exists fi, m !! x = Some fi /\ validity xi = validity fi) as H.
      { intros x xi (fi & Hfi & ->)%(cut_lookup m k p pi Hp). exists fi. by destruct (decide _). }
      split.
      * intros x xi s (fi & Hfi & [= -> _])%H. by apply (vo_slot _ Hv).
      * intros x xi (fi & Hfi & [= -> ->])%H. by apply (vo_dup _ Hv x).
      * intros n ni c ci [Hl _]%(cut_link m _ k p pi Ht Hp Hkp) (gi & Hg & [= -> _])%H (hi & Hh & [= -> _])%H.
        by apply (vo_mono _ Hv n gi c hi).
Qed.
End split.

Lemma set_parent_None fi : fi_parent fi = None -> set_parent fi None = fi.
Proof. destruct fi; simpl. by intros ->. Qed.

Section split_off.
Context (get_epoch : Slot -> Epoch) (epoch_stakes : gmap Epoch (gmap Pubkey Z)).
Context (Hs : stakes_ok epoch_stakes).
Abbreviation fc_ok := (fc_ok get_epoch epoch_stakes).

(** Votes for other blocks do not count. *)
Lemma tally_filter (m : gmap SlotHashKey ForkInfo) votes x :
  is_Some (m !! x) ->
  tally get_epoch epoch_stakes (filter (fun '(_, node) => is_Some (m !! node)) votes) x =
  tally get_epoch epoch_stakes votes x.
Proof using.
  intros Hx. induction votes as [|pk v votes Hpk IH] using map_ind; [done|].
  unfold tally in *. rewrite msum_insert by done.
  destruct (decide (is_Some (m !! v))) as [Hv|Hv].
  - rewrite map_filter_insert_True, msum_insert, IH by (done || by apply map_lookup_filter_None_2; left). done.
  - rewrite map_filter_insert_False, delete_id, IH by done. rewrite decide_False by congruence. lia.
Qed.

(** The two trees of [split_off]: the subtree of [k] as it was, and the rest, aggregated. *)
Record split_at (fc : HeaviestSubtreeForkChoice) (k : SlotHashKey)
    (split rest : HeaviestSubtreeForkChoice) : Prop := {
  sp_split : fc_ok split;
  sp_rest : fc_ok rest;
  sp_split_root : tree_root split = k;
  sp_rest_root : tree_root rest = tree_root fc;
  sp_subtree : subtree_at (fork_infos fc) k (fork_infos split);
  sp_keys x : is_Some (fork_infos rest !! x) <->
    is_Some (fork_infos fc !! x) /\ ~ below (shape (fork_infos fc)) k x;
  sp_link n c : link (shape (fork_infos rest)) n c <->
    link (shape (fork_infos fc)) n c /\ ~ below (shape (fork_infos fc)) k c;
  sp_same x : ~ below (shape (fork_infos fc)) k x -> ~ below (shape (fork_infos fc)) x k ->
    fork_infos rest !! x = fork_infos fc !! x;
  sp_valid x fi : fork_infos rest !! x = Some fi -> validity fi = validity_at (fork_infos fc) x;
  sp_split_votes : latest_votes split =
    filter (fun '(_, node) => is_Some (fork_infos split !! node)) (latest_votes fc);
  sp_rest_votes : latest_votes rest =
    filter (fun '(_, node) => is_Some (fork_infos rest !! node)) (latest_votes fc)
}.

Section result.
Context (fc : HeaviestSubtreeForkChoice) (k p : SlotHashKey) (ki pi : ForkInfo).
Abbreviation m := (fork_infos fc).
Context (Hok : fc_ok fc) (Hk : m !! k = Some ki) (Hne : k <> tree_root fc).
Context (Hp : m !! p = Some pi) (Hkp : k ∈ fi_children pi).
#[local] Abbreviation Ht := (ok_tree _ _ fc Hok).
#[local] Abbreviation m1 := (<[p := set_children pi (os_remove k (fi_children pi)).2]> m).
Context (m' : gmap SlotHashKey ForkInfo).
Context (Hsh : shape m' = shape m1) (Hsame : forall x, below (shape m) k x -> m' !! x = m !! x).
Context (l : list SlotHashKey) (m2 s2 : gmap SlotHashKey ForkInfo).
Context (Hmv : moved m' l m' ∅ m2 s2) (Hl : forall x, x ∈ l <-> below (shape m') k x).

Lemma split_in x : x ∈ l <-> below (shape m) k x.
Proof using Hok Hp Hkp Hsh Hl.
  rewrite Hl, Hsh. split; [by eapply cut_below_sub; [apply Ht|..]|].
  intros Hb. eapply cut_below; [apply Ht|done..].
Qed.

Lemma split_dom x : is_Some (m' !! x) <-> is_Some (m !! x).
Proof using Hp Hsh.
  rewrite <-(fmap_is_Some links (m' !! x)), <-shape_lookup, Hsh, shape_lookup, fmap_is_Some.
  destruct (decide (x = p)) as [->|]; [|by rewrite lookup_insert_ne]. rewrite lookup_insert_eq, Hp. split; eauto.
Qed.

(** The blocks split off are the subtree of [k]. *)
Lemma split_subtree : subtree_at m k (<[k := set_parent ki None]> s2).
Proof using Hok Hk Hp Hkp Hsh Hsame Hmv Hl.
  destruct Hmv as [_ Hs2]. split.
  - intros x Hx. destruct (decide (x = k)) as [->|Hxk]; [by rewrite lookup_insert_eq, Hk|].
    rewrite lookup_insert_ne, Hs2, decide_True, Hsame by (done || by apply split_in).
    by destruct (fork_infos fc !! x).
  - intros x. destruct (decide (x = k)) as [->|Hxk]; [done|]. rewrite lookup_insert_ne, Hs2 by done.
    case_decide as Hx; [by intros _; apply split_in|]. rewrite lookup_empty. by intros [].
Qed.

(** The blocks left are the tree of the root. *)
Lemma split_rest : subtree_at m' (tree_root fc) m2.
Proof using Hok Hk Hne Hp Hkp Hsh Hmv Hl.
  destruct Hmv as [Hm2 _].
  assert (forall x, is_Some (m' !! x) -> below (shape m') (tree_root fc) x <-> x ∉ l) as Hroot.
  { intros x Hx. rewrite Hsh, split_in. eapply cut_root; [apply Ht|done..|by apply split_dom]. }
  split.
  - intros x Hx. assert (is_Some (m' !! x)) as Hs'.
    { rewrite <-(fmap_is_Some links), <-shape_lookup. rewrite Hsh in Hx |- *.
      eapply below_dom; [by eapply cut_forest; [apply Ht|..]|done|]. rewrite <-Hsh, shape_lookup.
      apply fmap_is_Some, split_dom. destruct (t_root _ _ Ht) as [cs Hr]. rewrite shape_lookup in Hr.
      destruct (fork_infos fc !! tree_root fc); [eauto|done]. }
    apply Hroot in Hx; [|done]. rewrite Hm2, decide_False by done. destruct Hs' as [fi Hfi]. rewrite Hfi. simpl.
    destruct (decide (x = tree_root fc)) as [->|]; [|done]. rewrite set_parent_None; [done|].
    pose proof (shape_Some _ _ _ Hfi) as Hr. rewrite Hsh, shape_lookup in Hr.
    destruct (t_root _ _ Ht) as [cs Hr']. rewrite shape_lookup in Hr'. destruct (decide (tree_root fc = p)) as [Hrp|].
    + rewrite Hrp in Hr', Hr. rewrite lookup_insert_eq in Hr. rewrite Hp in Hr'. unfold links in *. simpl in *. congruence.
    + rewrite lookup_insert_ne in Hr by done. rewrite Hr' in Hr. unfold links in Hr. congruence.
  - intros x. rewrite Hm2. case_decide as Hx; [by intros []|]. intros Hs'. by apply Hroot.
Qed.

(** The parent of [k] has already lost it. *)
Lemma split_parent : exists pi', m2 !! p = Some pi' /\
  <[p := set_children pi' (os_remove k (fi_children pi')).2]> m2 = m2.
Proof using Hok Hk Hne Hp Hkp Hsh Hsame Hmv Hl.
  destruct Hmv as [Hm2 _]. pose proof (cut_parent m k p pi Hp Hkp) as Hlk.
  assert (p ∉ l) as Hpl.
  { rewrite split_in. intros Hb. pose proof (f_slot _ (t_forest _ _ Ht) _ _ Hlk).
    apply (below_slot _ (t_forest _ _ Ht)) in Hb as [->|]; lia. }
  destruct (proj2 (split_dom p)) as [pi' Hpi']; [by exists pi|].
  exists pi'. rewrite Hm2, decide_False by done. split; [done|].
  pose proof (shape_Some _ _ _ Hpi') as Hs'. rewrite Hsh, shape_lookup, lookup_insert_eq in Hs'.
  injection Hs' as _ Hch. rewrite os_remove_absent.
  - apply insert_id. rewrite Hm2, decide_False, Hpi' by done. by destruct pi'.
  - rewrite <-Hch. intros [_ ?]%(cut_in m _ k p pi Ht Hp Hkp). done.
Qed.

Lemma split_keys x : is_Some (m2 !! x) <-> is_Some (m !! x) /\ ~ below (shape m) k x.
Proof using Hok Hk Hne Hp Hkp Hsh Hmv Hl.
  destruct Hmv as [Hm2 _]. rewrite Hm2, <-split_in, <-split_dom.
  case_decide; [|tauto]. split; [by intros []|tauto].
Qed.

Lemma split_links n c : link (shape m2) n c <-> link (shape m) n c /\ ~ below (shape m) k c.
Proof using Hok Hk Hne Hp Hkp Hsh Hmv Hl.
  rewrite (sub_link _ _ _ split_rest), Hsh, (cut_link m _ k p pi Ht Hp Hkp). pose proof (t_forest _ _ Ht) as Hf.
  assert (link (shape m) n c -> is_Some (m !! n)) as Hn.
  { intros Hlk. apply (link_dom _ _ _ Hf) in Hlk as [Hn _]. by rewrite shape_lookup, fmap_is_Some in Hn. }
  split.
  - intros (Hr & Hlk & Hck). split; [done|]. apply (cut_root m _ k p pi Ht Hp Hkp) in Hr; [|done|auto].
    intros Hb. apply rtc_inv_r in Hb as [?|(y & Hy & Hyc)]; [done|].
    by rewrite (link_inj _ Hf _ _ _ Hyc Hlk) in Hy.
  - intros [Hlk Hb]. split; [|split; [done|by intros ->]]. apply (cut_root m _ k p pi Ht Hp Hkp); [done|auto|].
    intros Hkn. apply Hb. by eapply rtc_r.
Qed.
End result.

Lemma split_off_ok fc k :
  fc_ok fc -> is_Some (fork_infos fc !! k) -> k <> tree_root fc ->
  exists split rest, split_off fc k = Ok (split, rest) /\ split_at fc k split rest.
Proof using Hs.
  intros Hok [ki Hk] Hne. pose proof (ok_tree _ _ _ Hok) as Ht. pose proof (t_forest _ _ Ht) as Hf.
  destruct (t_linked _ _ Ht k _ _ (shape_Some _ _ _ Hk) Hne) as (p & Hkp & Hl).
  apply link_Some in Hl as (pi & Hp & Hin).
  destruct (split_process _ _ Hs fc k p pi Hok Hp Hin) as (m' & Hpl & Hsh & Hsame0 & Hall & Hv).
  assert (forall x, below (shape (fork_infos fc)) k x -> m' !! x = fork_infos fc !! x) as Hsame.
  { intros x Hx. apply Hsame0. intros Hx'. by apply (below_antisym _ Hf). }
  destruct (split_loop_ok m' ltac:(rewrite Hsh; by eapply cut_forest) k) as (l & m2 & s2 & Hsl & Hmv & Hl).
  { exists ki. by rewrite Hsame. }
  pose proof (split_subtree fc k p ki pi Hok Hk Hp Hin m' Hsh Hsame l m2 s2 Hmv Hl) as Hsub.
  pose proof (split_rest fc k p ki pi Hok Hk Hne Hp Hin m' Hsh l m2 s2 Hmv Hl) as Hrest.
  destruct (split_parent fc k p ki pi Hok Hk Hne Hp Hin m' Hsh Hsame l m2 s2 Hmv Hl) as (pi' & Hpi' & Hid).
  eexists _, _. split.
  { unfold split_off. rewrite bool_decide_false by congruence. cbn [ensure negb mbind outcome_bind].
    rewrite Hk. cbn [expect mbind outcome_bind]. rewrite Hkp. cbn [expect mbind outcome_bind].
    rewrite Hp. cbn [expect mbind outcome_bind]. rewrite (proj1 (os_remove_perm k _ Hin)).
    cbn [ensure mbind outcome_bind]. rewrite (update_info_insert fc p pi) by done.
    unfold process_update_operations. rewrite Hpl. cbn [mbind outcome_bind fork_infos set_fork_infos].
    rewrite Hsl. cbn [mbind outcome_bind]. rewrite Hpi'. cbn [expect mbind outcome_bind].
    rewrite Hid. reflexivity. }
  split; simpl.
  - eapply subtree_fc_ok; [done|apply Hok|apply Hok|by exists ki|done|].
    intros x fi Hx Hfi. rewrite tally_filter; [by apply (ok_at _ _ _ Hok)|].
    rewrite (proj1 Hsub), Hfi by done. eauto.
  - eapply subtree_fc_ok; [rewrite Hsh; by eapply cut_forest|by apply Hall|done| |done|].
    + eapply split_dom; [done..|]. destruct (t_root _ _ Ht) as [cs Hr]. rewrite shape_lookup in Hr.
      destruct (fork_infos fc !! tree_root fc); [eauto|done].
    + intros x fi Hx Hfi. rewrite tally_filter; [by apply Hall|]. rewrite (proj1 Hrest), Hfi by done. eauto.
  - done.
  - done.
  - done.
  - intros x. by eapply split_keys.
  - intros n c. by eapply split_links.
  - intros x Hx Hx'. rewrite (proj1 Hmv), decide_False, Hsame0; [done|tauto|].
    by rewrite (split_in fc k p pi Hok Hp Hin m' Hsh l Hl).
  - intros x fi (_ & gi & Hg & ->)%(sub_lookup _ _ _ Hrest).
    apply Hall in Hg as (_ & Hg & _). rewrite <-Hg. by destruct (decide _).
  - done.
  - done.
Qed.
End split_off.
