(* ===== verification/ForkMerge.v ===== *)
(** * Merging trees *)

From stdpp Require Import sorting.
From S2P Require Import Prelude OrdMap ForkChoice ForkTree ForkAggregate.
From S2P Require Import ForkProcess ForkInvariant ForkVotes ForkSearch ForkLeaf.
From S2P Require Import ForkAddLeaf ForkMarks ForkRoots ForkSplit.
Local Open Scope Z_scope.

(** ** A tree is determined by the parents of its blocks *)
Definition parents (m : gmap SlotHashKey ForkInfo) : gmap SlotHashKey (option SlotHashKey) :=
  fi_parent <$> m.

Lemma parents_shape m : parents m = fst <$> shape m.
Proof. unfold parents, shape. rewrite <-map_fmap_compose. by apply map_fmap_ext. Qed.

Lemma tree_link_parent sh root n c :
  tree sh root -> link sh n c <-> exists cs, sh !! c = Some (Some n, cs).
Proof.
  intros Ht. split; [by apply (f_parent _ (t_forest _ _ Ht))|]. intros [cs Hc].
  destruct (t_linked _ _ Ht c _ _ Hc) as (n' & [= <-] & Hl); [|done].
  intros ->. destruct (t_root _ _ Ht) as [cs' Hr]. congruence.
Qed.

Lemma sorted_ext {K} `{Ordered K} (l l' : list K) :
  sorted l -> sorted l' -> (forall x, x ∈ l <-> x ∈ l') -> l = l'.
Proof.
  intros Hl. revert l'. induction Hl as [|x l Hl IH Hx]; intros l' Hl' Hin.
  - destruct l' as [|y l']; [done|]. exfalso. eapply elem_of_nil, Hin. left.
  - destruct Hl' as [|y l' Hl' Hy]; [exfalso; eapply elem_of_nil, Hin; left|].
    rewrite Forall_forall in Hx, Hy. assert (x = y) as <-.
    { assert (x ∈ y :: l') as [|Hxl]%elem_of_cons by (apply Hin; left); [done|].
      assert (y ∈ x :: l) as [|Hyl]%elem_of_cons by (apply Hin; left); [done|].
      by destruct (olt_not_sym _ _ (Hx y Hyl) (Hy x Hxl)). }
    f_equal. apply IH; [done|]. intros z. specialize (Hin z). rewrite !elem_of_cons in Hin.
    split; intros Hz.
    + destruct (proj1 Hin) as [->|]; [by right| |done]. by destruct (olt_irrefl x (Hx x Hz)).
    + destruct (proj2 Hin) as [->|]; [by right| |done]. by destruct (olt_irrefl x (Hy x Hz)).
Qed.

Lemma tree_ext sh sh' root root' : tree sh root -> tree sh' root' -> fst <$> sh = fst <$> sh' -> sh = sh'.
Proof.
  intros Ht Ht' He. assert (forall x, fst <$> sh !! x = fst <$> sh' !! x) as Hx.
  { intros x. by rewrite <-!lookup_fmap, He. }
  apply map_eq. intros n. pose proof (Hx n) as Hn.
  destruct (sh !! n) as [[p cs]|] eqn:E, (sh' !! n) as [[p' cs']|] eqn:E'; try done.
  injection Hn as <-. do 2 f_equal. apply sorted_ext.
  - by eapply (f_sorted _ (t_forest _ _ Ht)).
  - by eapply (f_sorted _ (t_forest _ _ Ht')).
  - assert (forall c, link sh n c <-> link sh' n c) as Hl.
    { intros c. rewrite (tree_link_parent _ _ _ _ Ht), (tree_link_parent _ _ _ _ Ht').
      specialize (Hx c). split; intros [ds Hd]; rewrite Hd in Hx.
      - destruct (sh' !! c) as [[? ?]|]; [|done]. injection Hx as <-. eauto.
      - destruct (sh !! c) as [[? ?]|]; [|done]. injection Hx as ->. eauto. }
    intros c. split; intros Hc.
    + destruct (proj1 (Hl c)) as (? & ? & ? & ?); [by exists p, cs|]. congruence.
    + destruct (proj2 (Hl c)) as (? & ? & ? & ?); [by exists p, cs'|]. congruence.
Qed.

Section merge.
Context (get_epoch : Slot -> Epoch) (epoch_stakes : gmap Epoch (gmap Pubkey Z)).
Context (Hs : stakes_ok epoch_stakes).
Abbreviation fc_ok := (fc_ok get_epoch epoch_stakes).

Lemma add_leaf_parents fc k p :
  fc_ok fc -> fork_infos fc !! k = None -> is_Some (fork_infos fc !! p) -> p.1 < k.1 ->
  (forall pk, latest_votes fc !! pk <> Some k) ->
  exists fc', add_new_leaf_slot fc k (Some p) = Ok fc' /\ fc_ok fc' /\ tree_root fc' = tree_root fc /\
    latest_votes fc' = latest_votes fc /\
    parents (fork_infos fc') = <[k := Some p]> (parents (fork_infos fc)).
Proof.
  intros Hok Hk [pi Hp] Hlt Hv.
  destruct (add_new_leaf_ok get_epoch epoch_stakes fc k p pi Hok Hk Hp Hlt Hv) as (m' & He & Hok' & Hc).
  eexists. split; [exact He|]. split; [done|]. split; [done|]. split; [done|]. simpl.
  unfold parents. apply map_eq. intros x. specialize (Hc x). rewrite lookup_fmap.
  assert (fi_parent <$> m' !! x = fi_parent <$> <[p := set_children pi (os_insert k (fi_children pi))]>
    (<[k := new_leaf k (Some p) (fi_latest_invalid_ancestor pi)]> (fork_infos fc)) !! x) as ->.
  { destruct (m' !! x), (_ !! x) in Hc |- *; try done. injection Hc as E _. simpl. by rewrite E. }
  rewrite <-lookup_fmap, !fmap_insert. simpl. destruct (decide (x = p)) as [->|Hne].
  - rewrite lookup_insert_eq, lookup_insert_ne, lookup_fmap, Hp by (intros ->; lia). done.
  - by rewrite lookup_insert_ne.
Qed.

(** Leaves whose parents are known, or among the leaves before. *)
Lemma add_leaves_ok fc nodes :
  fc_ok fc -> NoDup nodes.*1 ->
  (forall k p, (k, p) ∈ nodes -> fork_infos fc !! k = None /\ p.1 < k.1 /\
    (forall pk, latest_votes fc !! pk <> Some k)) ->
  (forall l1 k p l2, nodes = l1 ++ (k, p) :: l2 -> is_Some (fork_infos fc !! p) \/ p ∈ l1.*1) ->
  exists fc', add_leaves fc nodes = Ok fc' /\ fc_ok fc' /\ tree_root fc' = tree_root fc /\
    latest_votes fc' = latest_votes fc /\
    parents (fork_infos fc') = list_to_map (prod_map id Some <$> nodes) ∪ parents (fork_infos fc).
Proof.
  revert fc. induction nodes as [|[k p] nodes IH]; intros fc Hok Hnd Hn Hp.
  { exists fc. simpl. by rewrite map_empty_union. }
  apply NoDup_cons in Hnd as [Hk Hnd]. destruct (Hn k p) as (Hk' & Hlt & Hv); [left|].
  assert (is_Some (fork_infos fc !! p)) as Hpp.
  { destruct (Hp [] k p nodes) as [|Hin]; [done..|]. by apply elem_of_nil in Hin. }
  destruct (add_leaf_parents fc k p Hok Hk' Hpp Hlt Hv) as (fc1 & He & Hok1 & Hr1 & Hv1 & Hp1).
  assert (forall x, is_Some (fork_infos fc1 !! x) <-> x = k \/ is_Some (fork_infos fc !! x)) as Hdom.
  { intros x. rewrite <-(fmap_is_Some fi_parent), <-(fmap_is_Some fi_parent (fork_infos fc !! x)).
    rewrite <-!lookup_fmap. unfold parents in Hp1. rewrite Hp1, lookup_insert_is_Some. 
    destruct (decide (k = x)); naive_solver. }
  cbn [add_leaves]. rewrite He. cbn [mbind outcome_bind].
  destruct (IH fc1 Hok1 Hnd) as (fc' & He' & Hok' & Hr' & Hv' & Hp').
  - intros x y Hxy. destruct (Hn x y) as (Hx & Hlt' & Hvx); [by right|]. split; [|by rewrite Hv1].
    apply eq_None_not_Some. rewrite Hdom. intros [->|[? ?]]; [|congruence].
    by apply Hk, (list_elem_of_fmap_2 fst _ (k, y)).
  - intros l1 x y l2 ->. rewrite Hdom. destruct (Hp ((k, p) :: l1) x y l2) as [|Hy]; [done|auto|].
    apply elem_of_cons in Hy as [->|]; auto.
  - exists fc'. rewrite Hr', Hv'. split; [done|]. split; [done|]. split; [done|]. split; [done|].
    rewrite Hp', Hp1. simpl. rewrite <-insert_union_l, insert_union_r; [done|].
    apply not_elem_of_list_to_map_1. rewrite <-list_fmap_compose. done.
Qed.

Lemma other_nodes_ok other leaf :
  om_wf (other_slots_nodes other leaf) /\
  other_slots_nodes other leaf ≡ₚ
    (fun e => (e.1, default leaf (fi_parent e.2))) <$> map_to_list (fork_infos other).
Proof using.
  unfold other_slots_nodes. pose proof (NoDup_fst_map_to_list (fork_infos other)) as Hnd.
  induction (map_to_list (fork_infos other)) as [|[k fi] l IH]; [done || by split; [constructor|]|].
  apply NoDup_cons in Hnd as [Hk Hnd]. destruct (IH Hnd) as [Hwf Hp]. simpl.
  split; [by apply om_insert_wf|]. rewrite om_insert_fresh; [by rewrite Hp|].
  apply eq_None_not_Some. rewrite om_get_is_Some, Hp, <-list_fmap_compose. done.
Qed.

Lemma other_nodes_in other leaf k p :
  (k, p) ∈ other_slots_nodes other leaf <->
  exists fi, fork_infos other !! k = Some fi /\ p = default leaf (fi_parent fi).
Proof using.
  rewrite (proj2 (other_nodes_ok other leaf)), list_elem_of_fmap. split.
  - intros ([x fi] & [= -> ->] & Hin%elem_of_map_to_list). eauto.
  - intros (fi & Hk & ->). exists (k, fi). by rewrite elem_of_map_to_list.
Qed.

Lemma other_nodes_map other leaf :
  list_to_map (prod_map id Some <$> other_slots_nodes other leaf) =
  (fun fi => Some (default leaf (fi_parent fi))) <$> fork_infos other.
Proof using.
  destruct (other_nodes_ok other leaf) as [Hwf%sorted_NoDup _].
  apply map_eq. intros x. rewrite lookup_fmap. destruct (fork_infos other !! x) as [fi|] eqn:E; simpl.
  - apply elem_of_list_to_map_1; [by rewrite <-list_fmap_compose|].
    apply list_elem_of_fmap. exists (x, default leaf (fi_parent fi)). split; [done|].
    apply other_nodes_in. eauto.
  - apply not_elem_of_list_to_map_1. rewrite <-list_fmap_compose.
    intros ([k p] & -> & (fi & Hk & _)%other_nodes_in)%list_elem_of_fmap. simpl in E. congruence.
Qed.

(** The other tree hangs under [merge_leaf]. *)
Lemma merge_leaves_ok self other leaf :
  fc_ok self -> tree (shape (fork_infos other)) (tree_root other) ->
  is_Some (fork_infos self !! leaf) -> leaf.1 < (tree_root other).1 ->
  (forall k, is_Some (fork_infos other !! k) -> fork_infos self !! k = None) ->
  (forall pk k, latest_votes self !! pk = Some k -> fork_infos other !! k = None) ->
  exists fc', add_leaves self (other_slots_nodes other leaf) = Ok fc' /\ fc_ok fc' /\
    tree_root fc' = tree_root self /\ latest_votes fc' = latest_votes self /\
    parents (fork_infos fc') =
      ((fun fi => Some (default leaf (fi_parent fi))) <$> fork_infos other) ∪ parents (fork_infos self).
Proof using Hs.
  intros Hok Ht Hleaf Hlt Hdis Hv. destruct (other_nodes_ok other leaf) as [Hwf Hperm].
  pose proof (t_forest _ _ Ht) as Hf.
  assert (forall k fi, fork_infos other !! k = Some fi -> (k = tree_root other /\ fi_parent fi = None) \/
    exists n, fi_parent fi = Some n /\ link (shape (fork_infos other)) n k) as Hpar.
  { intros k fi Hk. destruct (decide (k = tree_root other)) as [->|Hne].
    - left. split; [done|]. destruct (t_root _ _ Ht) as [cs Hr]. rewrite (shape_Some _ _ _ Hk) in Hr.
      unfold links in Hr. congruence.
    - right. by apply (t_linked _ _ Ht k _ _ (shape_Some _ _ _ Hk)). }
  destruct (add_leaves_ok self (other_slots_nodes other leaf) Hok) as (fc' & He & Hok' & Hr & Hl & Hp).
  - by apply sorted_NoDup.
  - intros k p (fi & Hk & ->)%other_nodes_in. split; [by eauto|]. split.
    + destruct (Hpar k fi Hk) as [[-> ->]|(n & -> & Hl)]; [done|]. by apply (f_slot _ Hf).
    + intros pk Hpk%Hv. congruence.
  - intros l1 k p l2 Hsplit. assert ((k, p) ∈ other_slots_nodes other leaf) as Hin by (rewrite Hsplit; set_solver).
    apply other_nodes_in in Hin as (fi & Hk & ->).
    destruct (Hpar k fi Hk) as [[-> ->]|(n & -> & Hl)]; [by left|right]. simpl.
    assert (n ∈ (other_slots_nodes other leaf).*1) as Hn.
    { destruct (link_dom _ _ _ Hf Hl) as [Hs' _]. rewrite shape_lookup in Hs'.
      apply fmap_is_Some in Hs' as [ni Hni].
      apply list_elem_of_fmap. eexists (n, _). split; [done|]. apply other_nodes_in. eauto. }
    pose proof (olt_slot n k (f_slot _ Hf _ _ Hl)) as Hlt'. unfold om_wf in Hwf. rewrite Hsplit in Hwf, Hn.
    rewrite fmap_app, fmap_cons in Hwf, Hn. apply elem_of_app in Hn as [|[->|Hn]%elem_of_cons]; [done|..].
    + by apply olt_irrefl in Hlt'.
    + apply StronglySorted_app_1_r, StronglySorted_inv in Hwf as [_ Hk2]. rewrite Forall_forall in Hk2.
      by destruct (olt_not_sym _ _ Hlt' (Hk2 n Hn)).
  - exists fc'. split; [done|]. split; [done|]. split; [done|]. split; [done|]. rewrite Hp. f_equal.
    apply other_nodes_map.
Qed.

(** Votes of distinct validators are accepted independently. *)
Lemma accept_lookup root votes l pk :
  NoDup l.*1 -> foldl (accept root) votes l !! pk =
    match list_to_map (M := gmap Pubkey SlotHashKey) l !! pk with
    | Some v => accept root votes (pk, v) !! pk
    | None => votes !! pk
    end.
Proof using.
  revert votes. induction l as [|[pk' v] l IH]; intros votes Hnd; [by simpl; rewrite lookup_empty|].
  apply NoDup_cons in Hnd as [Hpk Hnd]. cbn [foldl]. rewrite IH by done. simpl.
  assert (pk <> pk' -> accept root votes (pk', v) !! pk = votes !! pk) as Hother.
  { intros Hne. unfold accept. simpl. destruct (v.1 <? root.1); [done|].
    destruct (match votes !! pk' with Some old => outdated v old | None => false end); [done|].
    by rewrite lookup_insert_ne. }
  destruct (decide (pk = pk')) as [->|Hne].
  - rewrite lookup_insert_eq, not_elem_of_list_to_map_1 by done. done.
  - rewrite lookup_insert_ne, Hother by done. destruct (list_to_map l !! pk) as [w|]; [|done].
    specialize (Hother Hne). unfold accept in *. cbn [fst snd] in *. destruct (w.1 <? root.1); [done|].
    rewrite Hother. destruct (match votes !! pk with Some old => outdated w old | None => false end); [done|].
    by rewrite !lookup_insert_eq.
Qed.

Record merged (self other : HeaviestSubtreeForkChoice) (leaf : SlotHashKey)
    (fc : HeaviestSubtreeForkChoice) : Prop := {
  mg_ok : fc_ok fc;
  mg_root : tree_root fc = tree_root self;
  mg_parents : parents (fork_infos fc) =
    ((fun fi => Some (default leaf (fi_parent fi))) <$> fork_infos other) ∪ parents (fork_infos self);
  mg_votes pk : latest_votes fc !! pk =
    match latest_votes other !! pk with
    | Some v => accept (tree_root self) (latest_votes self) (pk, v) !! pk
    | None => latest_votes self !! pk
    end
}.

Lemma merge_ok self other leaf :
  fc_ok self -> tree (shape (fork_infos other)) (tree_root other) ->
  is_Some (fork_infos self !! leaf) -> leaf.1 < (tree_root other).1 ->
  (forall k, is_Some (fork_infos other !! k) -> fork_infos self !! k = None) ->
  (forall pk k, latest_votes self !! pk = Some k -> fork_infos other !! k = None) ->
  exists fc', merge get_epoch epoch_stakes self other leaf = Ok fc' /\ merged self other leaf fc'.
Proof using Hs.
  intros Hok Ht Hleaf Hlt Hdis Hv.
  destruct (merge_leaves_ok self other leaf Hok Ht Hleaf Hlt Hdis Hv) as (fc1 & He & Hok1 & Hr1 & Hv1 & Hp1).
  pose proof (NoDup_fst_map_to_list (latest_votes other)) as Hnd.
  destruct (add_votes_ok get_epoch epoch_stakes Hs fc1 (map_to_list (latest_votes other)) Hok1)
    as (b & fc2 & Ha & Hok2 & _ & Hsh2 & Hr2 & Hv2 & _).
  { unfold batch_votes_ok. eapply sublist_NoDup; [exact Hnd|]. apply fmap_sublist, sublist_filter. }
  exists fc2. unfold merge, contains_block. rewrite bool_decide_true by done. cbn [ensure mbind outcome_bind].
  rewrite He. cbn [mbind outcome_bind]. rewrite Ha. split; [done|]. split.
  - done.
  - by rewrite Hr2.
  - by rewrite parents_shape, Hsh2, <-parents_shape.
  - intros pk. by rewrite Hv2, Hr1, Hv1, accept_lookup, list_to_map_to_list.
Qed.

(** Stake is determined by the tree and the votes. *)
Lemma stakes_ext fc fc' k fi fi' :
  fc_ok fc -> fc_ok fc' -> shape (fork_infos fc) = shape (fork_infos fc') ->
  (forall x, is_Some (fork_infos fc !! x) -> tally get_epoch epoch_stakes (latest_votes fc) x =
    tally get_epoch epoch_stakes (latest_votes fc') x) ->
  fork_infos fc !! k = Some fi -> fork_infos fc' !! k = Some fi' ->
  fi_stake_voted_at fi = fi_stake_voted_at fi' /\ fi_stake_voted_subtree fi = fi_stake_voted_subtree fi'.
Proof using.
  intros Hok Hok' Hsh Htal Hk Hk'. split.
  { rewrite (ok_at _ _ _ Hok k fi Hk), (ok_at _ _ _ Hok' k fi' Hk'). eauto. }
  destruct (subtree_votes _ _ fc Hok k fi Hk) as (l & Hnd & Hd & ->).
  destruct (subtree_votes _ _ fc' Hok' k fi' Hk') as (l' & Hnd' & Hd' & ->).
  rewrite (zsum_perm _ l l').
  - apply zsum_ext. intros x Hx. apply Htal. rewrite Hd', <-Hsh in Hx.
    apply (below_dom _ (ok_forest _ _ _ Hok)) in Hx.
    + by rewrite shape_lookup, fmap_is_Some in Hx.
    + rewrite shape_lookup, Hk. eauto.
  - apply NoDup_Permutation; [done..|]. intros x. by rewrite Hd, Hd', Hsh.
Qed.

(** ** Merging what was split off *)
Section again.
Context (fc split rest : HeaviestSubtreeForkChoice) (k p : SlotHashKey).
Context (Hok : fc_ok fc) (Hsp : split_at get_epoch epoch_stakes fc k split rest).
Abbreviation m := (fork_infos fc).
Context (Hl : link (shape m) p k).
#[local] Abbreviation Ht := (ok_tree _ _ fc Hok).
#[local] Abbreviation Hf := (t_forest _ _ Ht).

Lemma again_link n c : link (shape m) n c -> exists ci, m !! c = Some ci /\ fi_parent ci = Some n.
Proof using Hok.
  intros Hlk. destruct (f_parent _ Hf _ _ Hlk) as [cs Hc]. rewrite shape_lookup in Hc.
  destruct (m !! c) as [ci|]; [|done]. exists ci. split; [done|]. unfold links in Hc. simpl in Hc. congruence.
Qed.

Lemma again_split x fi : below (shape m) k x -> m !! x = Some fi ->
  exists si, fork_infos split !! x = Some si /\ Some (default p (fi_parent si)) = fi_parent fi.
Proof using Hok Hsp Hl.
  intros Hb Hx. rewrite (proj1 (sp_subtree _ _ _ _ _ _ Hsp)), Hx by done. eexists. split; [done|].
  destruct (again_link p k Hl) as (ki & Hk & Hp). destruct (decide (x = k)) as [->|Hne].
  - simpl. congruence.
  - apply rtc_inv_r in Hb as [?|(n & _ & Hn)]; [done|]. apply again_link in Hn as (xi & Hxi & Hp').
    rewrite Hx in Hxi. injection Hxi as <-. by rewrite Hp'.
Qed.

Lemma again_rest x fi : ~ below (shape m) k x -> m !! x = Some fi ->
  exists ri, fork_infos rest !! x = Some ri /\ fi_parent ri = fi_parent fi.
Proof using Hok Hsp.
  intros Hb Hx. destruct (proj2 (sp_keys _ _ _ _ _ _ Hsp x)) as [ri Hri]; [by split; [exists fi|]|].
  exists ri. split; [done|]. pose proof (ok_tree _ _ _ (sp_rest _ _ _ _ _ _ Hsp)) as Htr.
  rewrite (sp_rest_root _ _ _ _ _ _ Hsp) in Htr. destruct (decide (x = tree_root fc)) as [->|Hne].
  - destruct (t_root _ _ Ht) as [cs Hr]. destruct (t_root _ _ Htr) as [cs' Hr'].
    rewrite (shape_Some _ _ _ Hx) in Hr. rewrite (shape_Some _ _ _ Hri) in Hr'. unfold links in *. congruence.
  - destruct (t_linked _ _ Ht x _ _ (shape_Some _ _ _ Hx) Hne) as (n & -> & Hn).
    assert (link (shape (fork_infos rest)) n x) as Hn' by (by apply (sp_link _ _ _ _ _ _ Hsp)).
    destruct (f_parent _ (t_forest _ _ Htr) _ _ Hn') as [cs Hc]. rewrite (shape_Some _ _ _ Hri) in Hc.
    unfold links in Hc. congruence.
Qed.

Lemma again_none x : m !! x = None -> fork_infos split !! x = None /\ fork_infos rest !! x = None.
Proof using Hok Hsp Hl.
  intros Hx. rewrite !eq_None_not_Some. split.
  - intros Hb%(proj2 (sp_subtree _ _ _ _ _ _ Hsp)). apply (below_dom _ Hf) in Hb.
    + rewrite shape_lookup, Hx in Hb. by destruct Hb.
    + by apply (link_dom _ _ _ Hf Hl).
  - intros [[? ?] _]%(sp_keys _ _ _ _ _ _ Hsp). congruence.
Qed.

(** The votes of the two parts are those for known blocks. *)
Lemma again_votes pk :
  match latest_votes split !! pk with
  | Some v => accept (tree_root rest) (latest_votes rest) (pk, v) !! pk
  | None => latest_votes rest !! pk
  end = filter (fun '(_, node) => is_Some (m !! node)) (latest_votes fc) !! pk.
Proof using Hok Hsp Hl.
  rewrite (sp_split_votes _ _ _ _ _ _ Hsp), (sp_rest_root _ _ _ _ _ _ Hsp).
  unfold accept. rewrite (sp_rest_votes _ _ _ _ _ _ Hsp). cbn [fst snd].
  rewrite !map_lookup_filter. destruct (latest_votes fc !! pk) as [v|] eqn:Hv; [|done]. simpl.
  destruct (m !! v) as [fi|] eqn:Hm.
  - destruct (below_or_not fc k v Ht) as [Hb|Hb].
    + destruct (again_split v fi Hb Hm) as (si & Hsi & _). rewrite Hsi.
      assert (fork_infos rest !! v = None) as ->.
      { apply eq_None_not_Some. by intros [_ ?]%(sp_keys _ _ _ _ _ _ Hsp). }
      simplify_option_eq.
      assert (below (shape m) (tree_root fc) v) as Hr.
      { apply (tree_below _ _ Ht). rewrite shape_lookup, Hm. eauto. }
      apply (below_slot _ Hf) in Hr. rewrite (proj2 (Z.ltb_ge _ _)) by (destruct Hr as [->|]; lia).
      by rewrite lookup_insert_eq.
    + assert (fork_infos split !! v = None) as ->.
      { apply eq_None_not_Some. by intros ?%(proj2 (sp_subtree _ _ _ _ _ _ Hsp)). }
      destruct (again_rest v fi Hb Hm) as (ri & -> & _).
      by simplify_option_eq.
  - destruct (again_none v Hm) as [-> ->]. by simplify_option_eq.
Qed.

Lemma merge_again :
  exists fc', merge get_epoch epoch_stakes rest split p = Ok fc' /\ fc_ok fc' /\
    tree_root fc' = tree_root fc /\ shape (fork_infos fc') = shape m /\
    latest_votes fc' = filter (fun '(_, node) => is_Some (m !! node)) (latest_votes fc).
Proof using Hs Hok Hsp Hl.
  pose proof (f_slot _ Hf _ _ Hl) as Hlt. destruct (link_dom _ _ _ Hf Hl) as [Hp _].
  rewrite shape_lookup, fmap_is_Some in Hp.
  destruct (merge_ok rest split p (sp_rest _ _ _ _ _ _ Hsp) (ok_tree _ _ _ (sp_split _ _ _ _ _ _ Hsp)))
    as (fc' & He & Hm).
  - apply (sp_keys _ _ _ _ _ _ Hsp). split; [done|]. intros [->|]%(below_slot _ Hf); lia.
  - by rewrite (sp_split_root _ _ _ _ _ _ Hsp).
  - intros x Hb%(proj2 (sp_subtree _ _ _ _ _ _ Hsp)). apply eq_None_not_Some.
    by intros [_ ?]%(sp_keys _ _ _ _ _ _ Hsp).
  - intros pk x. rewrite (sp_rest_votes _ _ _ _ _ _ Hsp).
    intros [_ [_ Hx]%(sp_keys _ _ _ _ _ _ Hsp)]%map_lookup_filter_Some. apply eq_None_not_Some.
    by intros ?%(proj2 (sp_subtree _ _ _ _ _ _ Hsp)).
  - exists fc'. destruct Hm as [Hok' Hroot Hpar Hvotes]. split; [done|]. split; [done|].
    rewrite Hroot. split; [apply Hsp|]. split.
    + apply (tree_ext _ _ (tree_root fc') (tree_root fc)); [apply Hok'|apply Ht|].
      rewrite <-!parents_shape, Hpar. apply map_eq. intros x. unfold parents.
      rewrite lookup_union, !lookup_fmap. destruct (m !! x) as [fi|] eqn:Hx; simpl.
      * destruct (below_or_not fc k x Ht) as [Hb|Hb].
        -- destruct (again_split x fi Hb Hx) as (si & -> & <-). simpl. by destruct (fork_infos rest !! x).
        -- destruct (again_rest x fi Hb Hx) as (ri & -> & <-). simpl.
           assert (fork_infos split !! x = None) as ->; [|done]. apply eq_None_not_Some.
           by intros ?%(proj2 (sp_subtree _ _ _ _ _ _ Hsp)).
      * by destruct (again_none x Hx) as [-> ->].
    + apply map_eq. intros pk. rewrite Hvotes. apply again_votes.
Qed.
End again.
End merge.
