(* ===== verification/ForkPurge.v ===== *)
(** * [purge_prune]

    The tree it leaves is that of [set_tree_root]; the other blocks are purged or moved to
    trees of their own. *)

From S2P Require Import Prelude OrdMap ForkChoice ForkTree ForkAggregate.
From S2P Require Import ForkProcess ForkInvariant ForkVotes ForkSearch ForkMarks.
From S2P Require Import ForkRoots ForkSplit.
Local Open Scope Z_scope.

Section purge.
Context (get_epoch : Slot -> Epoch) (epoch_stakes : gmap Epoch (gmap Pubkey Z)).
Context (Hs : stakes_ok epoch_stakes).
Abbreviation fc_ok := (fc_ok get_epoch epoch_stakes).
Context (fc0 : HeaviestSubtreeForkChoice) (r : SlotHashKey).
Abbreviation m0 := (fork_infos fc0).
Abbreviation root := (tree_root fc0).
Context (Hok0 : fc_ok fc0) (Hr : is_Some (m0 !! r)).
#[local] Abbreviation Ht := (ok_tree _ _ fc0 Hok0).
#[local] Abbreviation Hf := (t_forest _ _ Ht).

(** [visited]: the blocks popped so far. *)
Record purging (fc : HeaviestSubtreeForkChoice) (stack : list SlotHashKey)
    (found : option SlotHashKey) (purged : list SlotHashKey)
    (pruned : list HeaviestSubtreeForkChoice) (visited : list SlotHashKey) : Prop := {
  pg_ok : fc_ok fc;
  pg_root : tree_root fc = root;
  pg_NoDup : NoDup (stack ++ visited);
  pg_known x : x ∈ stack ++ visited -> is_Some (m0 !! x);
  pg_parent x : x ∈ stack ++ visited -> x = root \/ exists n, n ∈ purged /\ link (shape m0) n x;
  pg_purged x : x ∈ purged -> x ∈ visited /\ olt x r;
  pg_purged_NoDup : NoDup purged;
  pg_found k : found = Some k -> k = r /\ r ∈ visited;
  pg_keys x : is_Some (fork_infos fc !! x) <->
    x ∈ purged \/ (exists s, s ∈ stack /\ below (shape m0) s x) \/
    (found = Some r /\ below (shape m0) r x);
  pg_link n c : link (shape (fork_infos fc)) n c <->
    link (shape m0) n c /\ is_Some (fork_infos fc !! c);
  pg_same x : below (shape m0) r x -> fork_infos fc !! x = m0 !! x;
  pg_pruned : Forall fc_ok pruned;
  pg_all x : is_Some (m0 !! x) -> is_Some (fork_infos fc !! x) \/
    exists t, t ∈ pruned /\ is_Some (fork_infos t !! x)
}.

Lemma not_above_root x : link (shape m0) x root -> False.
Proof using Hok0.
  intros Hl. destruct (f_parent _ Hf _ _ Hl) as [cs Hc]. destruct (t_root _ _ Ht) as [cs' Hc'].
  congruence.
Qed.

Section state.
Context (fc : HeaviestSubtreeForkChoice) (stack : list SlotHashKey) (found : option SlotHashKey).
Context (purged : list SlotHashKey) (pruned : list HeaviestSubtreeForkChoice).
Context (visited : list SlotHashKey).

(** The blocks above a purged or visited one are purged. *)
Lemma purged_up (Hp : purging fc stack found purged pruned visited) x y :
  x ∈ stack ++ visited -> below (shape m0) y x -> y <> x -> y ∈ purged.
Proof using Hok0.
  intros Hx Hb. revert x Hb Hx. apply (rtc_ind_r (R := link (shape m0))
    (fun x => x ∈ stack ++ visited -> y <> x -> y ∈ purged) y); [done|].
  intros z x Hyz Hl IH Hx Hne. destruct (pg_parent _ _ _ _ _ _ Hp x Hx) as [->|(n & Hn & Hnl)].
  - by apply not_above_root in Hl.
  - rewrite (link_inj _ Hf _ _ _ Hl Hnl) in IH, Hyz. destruct (decide (y = n)) as [->|]; [done|].
    apply IH; [|done]. apply elem_of_app. right. by apply (pg_purged _ _ _ _ _ _ Hp).
Qed.

End state.

Section step.
Context (fc : HeaviestSubtreeForkChoice) (cur : SlotHashKey) (stack : list SlotHashKey).
Context (found : option SlotHashKey) (purged : list SlotHashKey).
Context (pruned : list HeaviestSubtreeForkChoice) (visited : list SlotHashKey).
Context (Hp : purging fc (cur :: stack) found purged pruned visited).

Lemma cur_fresh : cur ∉ stack /\ cur ∉ visited.
Proof using All.
  pose proof (pg_NoDup _ _ _ _ _ _ Hp) as Hnd. simpl in Hnd. apply NoDup_cons in Hnd as [Hn _]. set_solver.
Qed.

Lemma cur_not_purged : cur ∉ purged.
Proof using All. intros [Hv _]%(pg_purged _ _ _ _ _ _ Hp). by apply cur_fresh. Qed.

(** Nothing popped or waiting is related to the block popped. *)
Lemma cur_apart x y :
  y ∈ stack ++ visited -> y ∉ purged -> below (shape m0) cur x -> below (shape m0) y x -> False.
Proof using All.
  intros Hy Hyp Hcx Hyx. pose proof cur_fresh as [Hs1 Hs2].
  assert (cur <> y) as Hne by (intros <-; set_solver).
  destruct (below_linear _ Hf _ _ _ Hcx Hyx) as [H|H].
  - apply cur_not_purged. eapply (purged_up _ _ _ _ _ _ Hp y); [|done..]. set_solver.
  - apply Hyp. eapply (purged_up _ _ _ _ _ _ Hp cur); [|done|by auto]. set_solver.
Qed.

Lemma cur_purged x : x ∈ purged -> ~ below (shape m0) cur x.
Proof using All.
  intros Hx Hb. destruct (decide (cur = x)) as [Hcx|Hne];
    [rewrite <-Hcx in Hx; by apply cur_not_purged|].
  apply cur_not_purged. eapply (purged_up _ _ _ _ _ _ Hp x); [|done..].
  apply elem_of_app. right. by apply (pg_purged _ _ _ _ _ _ Hp).
Qed.

Lemma cur_below x : below (shape (fork_infos fc)) cur x <-> below (shape m0) cur x.
Proof using All.
  split.
  - apply rtc_subrel. by intros a b [? _]%(pg_link _ _ _ _ _ _ Hp).
  - revert x. apply (rtc_ind_r (R := link (shape m0)) (fun x => below (shape (fork_infos fc)) cur x) cur); [done|].
    intros y x Hy Hl IH. eapply rtc_r; [exact IH|]. apply (pg_link _ _ _ _ _ _ Hp). split; [done|].
    apply (pg_keys _ _ _ _ _ _ Hp). right. left. exists cur. split; [left|]. by eapply rtc_r.
Qed.

Lemma cur_known : is_Some (fork_infos fc !! cur).
Proof using All. apply (pg_keys _ _ _ _ _ _ Hp). right. left. exists cur. split; [left|done]. Qed.

(** The new root. *)
Lemma step_found : cur = r -> purging fc stack (Some r) purged pruned (cur :: visited).
Proof using All.
  intros Hcr. pose proof (Permutation_middle stack visited cur) as Hperm.
  assert (forall x, x ∈ stack ++ cur :: visited <-> x ∈ (cur :: stack) ++ visited) as Hin.
  { intros x. by rewrite <-Hperm. }
  destruct Hp. split; try done.
  - by rewrite <-Hperm.
  - intros x. rewrite Hin. auto.
  - intros x. rewrite Hin. auto.
  - intros x Hx. split; [right|]; by apply pg_purged0.
  - intros k [= <-]. split; [done|]. rewrite Hcr. left.
  - intros x. rewrite pg_keys0. split.
    + intros [?|[(s & [->|Hin']%elem_of_cons & Hb)|[_ ?]]]; [auto|rewrite <-Hcr; auto|eauto|auto].
    + intros [?|[(s & Hin' & Hb)|[_ Hb]]]; [auto|right; left; exists s; split; [by right|done]|].
      right. left. exists cur. split; [left|]. by rewrite Hcr.
Qed.

(** A block before the new root: its children are visited. *)
Lemma cur_children : exists cs, children fc cur = Some cs /\ NoDup cs /\
  forall c, c ∈ cs <-> link (shape m0) cur c.
Proof using All.
  destruct cur_known as [ci Hci]. unfold children. rewrite Hci. exists (fi_children ci). split; [done|].
  split; [eapply forest_NoDup; [apply (ok_forest _ _ _ (pg_ok _ _ _ _ _ _ Hp))|done]|].
  intros c. split.
  - intros Hc. apply (pg_link _ _ _ _ _ _ Hp), link_Some. eauto.
  - intros Hl. assert (link (shape (fork_infos fc)) cur c) as Hl'.
    { apply (pg_link _ _ _ _ _ _ Hp). split; [done|]. apply (pg_keys _ _ _ _ _ _ Hp). right. left.
      exists cur. split; [left|]. by apply rtc_once. }
    apply link_Some in Hl' as (ci' & Hci' & Hc). congruence.
Qed.

Lemma child_fresh c : link (shape m0) cur c -> c ∉ (cur :: stack) ++ visited.
Proof using All.
  intros Hl Hin. destruct (pg_parent _ _ _ _ _ _ Hp c Hin) as [->|(n & Hn & Hnl)].
  - by apply not_above_root in Hl.
  - rewrite <-(link_inj _ Hf _ _ _ Hl Hnl) in Hn. by apply cur_not_purged.
Qed.

Lemma step_purge : olt cur r -> exists cs, children fc cur = Some cs /\
  purging fc (reverse cs ++ stack) found (purged ++ [cur]) pruned (cur :: visited).
Proof using All.
  intros Hlt. destruct cur_children as (cs & Hcs & Hnd & Hin). exists cs. split; [done|].
  assert ((reverse cs ++ stack) ++ cur :: visited ≡ₚ cs ++ (cur :: stack) ++ visited) as Hperm.
  { rewrite reverse_Permutation, <-app_assoc. simpl. by rewrite Permutation_middle. }
  pose proof cur_not_purged as Hnp. pose proof child_fresh as Hfresh. destruct Hp. split; try done.
  - rewrite Hperm. apply NoDup_app. split; [done|]. split; [|done]. intros c Hc%Hin. by apply Hfresh.
  - intros x. rewrite Hperm. intros [Hc%Hin|Hx]%elem_of_app; [|auto].
    apply (link_dom _ _ _ Hf) in Hc as [_ Hc]. by rewrite shape_lookup, fmap_is_Some in Hc.
  - intros x. rewrite Hperm. intros [Hc%Hin|Hx]%elem_of_app.
    + right. exists cur. split; [|done]. set_solver.
    + destruct (pg_parent0 x Hx) as [|(n & Hn & Hl)]; [auto|]. right. exists n. split; [set_solver|done].
  - intros x [Hx|Hx]%elem_of_app.
    2: { apply list_elem_of_singleton in Hx as ->. split; [left|done]. }
    split; [right|]; by apply pg_purged0.
  - apply NoDup_app. split; [done|]. split; [set_solver|apply NoDup_singleton].
  - intros k Hk. destruct (pg_found0 k Hk). split; [done|by right].
  - intros x. rewrite pg_keys0. split.
    + intros [?|[(s & [->|Hs']%elem_of_cons & Hb)|?]]; [set_solver| |set_solver|auto].
      apply rtc_inv in Hb as [<-|(c & Hc & Hb)]; [set_solver|]. right. left. exists c.
      split; [|done]. apply elem_of_app. left. by apply elem_of_reverse, Hin.
    + intros [[?|Hx]%elem_of_app|[(s & Hs' & Hb)|?]]; [auto| | |auto].
      * apply list_elem_of_singleton in Hx as ->. right. left. exists cur. split; [left|done].
      * right. left. rewrite reverse_Permutation in Hs'. apply elem_of_app in Hs' as [Hc%Hin|Hs'].
        -- exists cur. split; [left|]. by eapply rtc_l.
        -- exists s. split; [by right|done].
Qed.

(** A block after the new root: its subtree is split off. *)
Lemma not_related : cur <> r -> ~ olt cur r -> cur <> root /\
  ~ below (shape m0) cur r /\ ~ below (shape m0) r cur.
Proof using All.
  intros Hne Hlt. assert (~ below (shape m0) cur r) as Hcr.
  { intros [?|?]%(below_slot _ Hf); [done|]. by apply Hlt, olt_slot. }
  assert (cur <> root) as Hroot.
  { intros Heq. apply Hcr. rewrite Heq. apply (tree_below _ _ Ht). rewrite shape_lookup. by apply fmap_is_Some. }
  split; [done|]. split; [done|]. intros Hrc.
  assert (r ∈ purged) as [_ Hrr]%(pg_purged _ _ _ _ _ _ Hp).
  { eapply (purged_up _ _ _ _ _ _ Hp cur); [left|done|done]. }
  by apply olt_irrefl in Hrr.
Qed.

Lemma step_split : cur <> r -> ~ olt cur r -> exists split rest, split_off fc cur = Ok (split, rest) /\
  purging rest stack found purged (pruned ++ [split]) (cur :: visited).
Proof using All.
  intros Hne Hlt. destruct (not_related Hne Hlt) as (Hroot & Hcr & Hrc).
  destruct (split_off_ok get_epoch epoch_stakes Hs fc cur (pg_ok _ _ _ _ _ _ Hp) cur_known) as (sp & rest & He & Hsp).
  { by rewrite (pg_root _ _ _ _ _ _ Hp). }
  exists sp, rest. split; [done|].
  assert (forall x, is_Some (fork_infos rest !! x) <-> is_Some (fork_infos fc !! x) /\ ~ below (shape m0) cur x) as Hkeys.
  { intros x. by rewrite (sp_keys _ _ _ _ _ _ Hsp), cur_below. }
  pose proof (Permutation_middle stack visited cur) as Hperm.
  assert (forall x, x ∈ stack ++ cur :: visited <-> x ∈ (cur :: stack) ++ visited) as Hin.
  { intros x. by rewrite <-Hperm. }
  pose proof cur_apart as Hapart. pose proof cur_purged as Hcp. pose proof cur_below as Hcb.
  pose proof (pg_purged _ _ _ _ _ _ Hp) as Hpur. destruct Hp. split.
  - apply Hsp.
  - by rewrite (sp_rest_root _ _ _ _ _ _ Hsp).
  - by rewrite <-Hperm.
  - intros x. rewrite Hin. auto.
  - intros x. rewrite Hin. auto.
  - intros x Hx. split; [right|]; by apply Hpur.
  - done.
  - intros k Hk. destruct (pg_found0 k Hk). split; [done|by right].
  - intros x. rewrite Hkeys, pg_keys0. split.
    + intros [[?|[(s & [->|Hs']%elem_of_cons & Hb)|?]] Hn]; [auto|done|eauto|auto].
    + intros [Hx|[(s & Hs' & Hb)|[Hfd Hb]]].
      * split; [auto|]. by apply Hcp.
      * split; [right; left; exists s; split; [by right|done]|]. intros Hc.
        apply (Hapart x s); [set_solver| |done|done]. intros Hsp'%Hpur.
        apply NoDup_app in pg_NoDup0 as (_ & Hd & _). apply (Hd s); [by right|by apply Hsp'].
      * split; [auto|]. intros Hc. destruct (pg_found0 r Hfd) as [_ Hrv].
        apply (Hapart x r); [set_solver| |done|done]. intros [_ Hrr]%Hpur. by apply olt_irrefl in Hrr.
  - intros n c. rewrite (sp_link _ _ _ _ _ _ Hsp), pg_link0, Hkeys, Hcb. tauto.
  - intros x Hx. rewrite (sp_same _ _ _ _ _ _ Hsp); [by auto| |].
    + rewrite Hcb. intros Hc. destruct (below_linear _ Hf _ _ _ Hx Hc); done.
    + intros Hxc. apply Hrc. etrans; [exact Hx|]. revert Hxc. apply rtc_subrel.
      by intros a b [? _]%pg_link0.
  - apply Forall_app. split; [done|]. constructor; [apply Hsp|done].
  - intros x Hx. destruct (pg_all0 x Hx) as [Hfx|(t & Ht' & Htx)].
    + destruct (below_or_not fc0 cur x Ht) as [Hc|Hc]; [right|left; by apply Hkeys].
      exists sp. split; [set_solver|]. rewrite (proj1 (sp_subtree _ _ _ _ _ _ Hsp)) by (by apply Hcb).
      by apply fmap_is_Some.
    + right. exists t. split; [set_solver|done].
Qed.
End step.

Lemma purging_start : purging fc0 [root] None [] [] [].
Proof using Hok0.
  assert (forall x, is_Some (m0 !! x) <-> below (shape m0) root x) as Hroot.
  { intros x. rewrite <-(fmap_is_Some links), <-shape_lookup. split; [apply (tree_below _ _ Ht)|].
    intros Hb. apply (below_dom _ Hf) in Hb; [done|]. destruct (t_root _ _ Ht) as [cs ->]. eauto. }
  split; simpl; try done.
  - apply NoDup_singleton.
  - intros x Hx. apply list_elem_of_singleton in Hx as ->. by apply Hroot.
  - intros x Hx. apply list_elem_of_singleton in Hx as ->. by left.
  - by intros x ?%elem_of_nil.
  - constructor.
  - intros x. rewrite Hroot. split; [intros; right; left; exists root; split; [left|done]|].
    intros [?%elem_of_nil|[(s & Hx & Hb)|[? _]]]; [done| |done]. by apply list_elem_of_singleton in Hx as ->.
  - intros n c. split; [|tauto]. intros Hl. split; [done|].
    apply (link_dom _ _ _ Hf) in Hl as [_ Hc]. by rewrite shape_lookup, fmap_is_Some in Hc.
  - auto.
Qed.

Lemma purge_loop_ok fuel fc stack found purged pruned visited :
  purging fc stack found purged pruned visited -> (fuel + length visited = size m0)%nat ->
  exists fc' found' purged' pruned' visited',
    purge_loop fuel fc r stack found purged pruned = Ok (fc', found', purged', pruned') /\
    purging fc' [] found' purged' pruned' visited'.
Proof using Hs Hok0 Hr.
  revert fc stack found purged pruned visited.
  induction fuel as [|fuel IH]; intros fc stack found purged pruned visited Hp Hfuel;
    (destruct stack as [|cur stack]; [by eexists _, _, _, _, _|]).
  - pose proof (keys_length m0 _ (pg_NoDup _ _ _ _ _ _ Hp) (pg_known _ _ _ _ _ _ Hp)) as Hle.
    rewrite length_app in Hle. simpl in *. lia.
  - cbn [purge_loop]. case_bool_decide as Hcr; [|destruct (oltb cur r) eqn:Hlt].
    + eapply IH; [eapply step_found; [exact Hp|done]|simpl; lia].
    + apply oltb_lt in Hlt. destruct (step_purge _ _ _ _ _ _ _ Hp Hlt) as (cs & Hcs & Hp').
      rewrite Hcs. cbn [expect mbind outcome_bind]. eapply IH; [exact Hp'|simpl; lia].
    + assert (~ olt cur r) as Hlt' by (rewrite <-oltb_lt; congruence).
      destruct (step_split _ _ _ _ _ _ _ Hp Hcr Hlt') as (sp & rest & He & Hp').
      rewrite He. cbn [mbind outcome_bind]. eapply IH; [exact Hp'|simpl; lia].
Qed.

(** The tree left is the subtree of the new root, as [set_tree_root] leaves it. *)
Lemma purge_prune_ok :
  exists purged pruned fc1, purge_prune fc0 r = Ok (purged, pruned, fc1) /\
    fc_ok fc1 /\ tree_root fc1 = r /\ subtree_at m0 r (fork_infos fc1) /\
    Forall fc_ok pruned /\ NoDup purged /\ (forall x, x ∈ purged -> olt x r) /\
    forall x, is_Some (m0 !! x) -> x ∈ purged \/ below (shape m0) r x \/
      exists t, t ∈ pruned /\ is_Some (fork_infos t !! x).
Proof using Hs Hok0 Hr.
  destruct (purge_loop_ok _ _ _ _ _ _ _ purging_start (Nat.add_0_r _))
    as (fc & found & purged & pruned & visited & He & Hp).
  unfold purge_prune. rewrite He. cbn [mbind outcome_bind].
  assert (forall x, is_Some (fork_infos fc !! x) <-> x ∈ purged \/ (found = Some r /\ below (shape m0) r x)) as Hkeys.
  { intros x. rewrite (pg_keys _ _ _ _ _ _ Hp). split; [|tauto].
    intros [?|[(s & []%elem_of_nil & _)|?]]; auto. }
  assert (r ∉ purged) as Hrp by (intros [_ ?%olt_irrefl]%(pg_purged _ _ _ _ _ _ Hp); done).
  destruct Hr as [ri Hri]. assert (fork_infos fc !! r = Some ri) as Hri' by (by rewrite (pg_same _ _ _ _ _ _ Hp)).
  assert (found = Some r) as ->.
  { destruct (proj1 (Hkeys r)) as [|[? _]]; [eauto|done..]. }
  destruct (remove_all_ok (fork_infos fc) purged (pg_purged_NoDup _ _ _ _ _ _ Hp)) as (m1 & -> & Hm1).
  { intros x Hx. apply Hkeys. auto. }
  cbn [mbind outcome_bind]. rewrite Hm1, decide_False, Hri' by done. cbn [expect mbind outcome_bind].
  assert (forall x, x ∈ purged -> ~ below (shape m0) r x) as Hno.
  { intros x Hx [->|Hlt]%(below_slot _ Hf); [done|].
    apply (pg_purged _ _ _ _ _ _ Hp) in Hx as [_ Hx]. by destruct (olt_not_sym _ _ Hx (olt_slot _ _ Hlt)). }
  assert (subtree_at m0 r (<[r := set_parent ri None]> m1)) as Hsub.
  { split.
    - intros x Hx. destruct (decide (x = r)) as [->|Hne]; [by rewrite lookup_insert_eq, Hri|].
      rewrite lookup_insert_ne, Hm1, decide_False, (pg_same _ _ _ _ _ _ Hp) by naive_solver.
      by destruct (m0 !! x).
    - intros x. destruct (decide (x = r)) as [->|Hne]; [done|]. rewrite lookup_insert_ne, Hm1 by done.
      case_decide; [by intros []|]. intros [|[_ ?]]%Hkeys; done. }
  eexists _, _, _. split; [reflexivity|]. split; [|split; [done|]; split; [done|]; split; [apply Hp|]; split; [apply Hp|]; split].
  - eapply subtree_fc_ok; [apply Hf|apply Hok0|apply Hok0|by exists ri|done|].
    intros x fi Hb Hx. rewrite <-(pg_same _ _ _ _ _ _ Hp) in Hx by done.
    by apply (ok_at _ _ _ (pg_ok _ _ _ _ _ _ Hp)).
  - intros x Hx. by apply (pg_purged _ _ _ _ _ _ Hp).
  - intros x Hx. destruct (pg_all _ _ _ _ _ _ Hp x Hx) as [[|[_ ?]]%Hkeys|]; auto.
Qed.
End purge.

(** A subtree is determined by its root. *)
Lemma subtree_at_unique m r m' m'' : subtree_at m r m' -> subtree_at m r m'' ->
  (forall x, below (shape m) r x \/ ~ below (shape m) r x) -> m' = m''.
Proof.
  intros [H1 H2] [H3 H4] Hd. apply map_eq. intros x. destruct (Hd x) as [Hx|Hx].
  - by rewrite H1, H3.
  - assert (m' !! x = None) as -> by (apply eq_None_not_Some; auto).
    symmetry. apply eq_None_not_Some. auto.
Qed.
