(* ===== verification/LatestVotes.v ===== *)
(** * The latest votes for frozen banks, and the batches they give the fork choice

    [core/src/consensus/latest_validator_votes_for_frozen_banks.rs] and
    [compute_bank_stats] of [core/src/consensus/heaviest_subtree_fork_choice.rs]. *)

From S2P Require Import Prelude OrdMap ForkChoice ForkTree ForkAggregate.
From S2P Require Import ForkProcess ForkInvariant ForkVotes ForkMerge.
Local Open Scope Z_scope.

Abbreviation FrozenVotes := (gmap Pubkey (Slot * list Hash)).

Record LatestValidatorVotesForFrozenBanks := {
  max_gossip_frozen_votes : FrozenVotes;
  max_replay_frozen_votes : FrozenVotes;
  fork_choice_dirty_set : FrozenVotes
}.

Definition latest_default : LatestValidatorVotesForFrozenBanks :=
  {| max_gossip_frozen_votes := ∅; max_replay_frozen_votes := ∅; fork_choice_dirty_set := ∅ |}.

Definition vote_map (self : LatestValidatorVotesForFrozenBanks) (is_replay_vote : bool) : FrozenVotes :=
  if is_replay_vote then max_replay_frozen_votes self else max_gossip_frozen_votes self.

Definition set_vote_map (self : LatestValidatorVotesForFrozenBanks) (is_replay_vote : bool)
    (votes dirty : FrozenVotes) : LatestValidatorVotesForFrozenBanks :=
  if is_replay_vote
  then {| max_gossip_frozen_votes := max_gossip_frozen_votes self; max_replay_frozen_votes := votes;
          fork_choice_dirty_set := dirty |}
  else {| max_gossip_frozen_votes := votes; max_replay_frozen_votes := max_replay_frozen_votes self;
          fork_choice_dirty_set := fork_choice_dirty_set self |}.

(** The entry of the dirty set for a second hash of the slot; a hash is pushed once. *)
Definition push_dirty (dirty : FrozenVotes) (vote_pubkey : Pubkey) (vote_slot : Slot)
    (frozen_hash : Hash) : res FrozenVotes :=
  match dirty !! vote_pubkey with
  | Some (slot, hashes) =>
    _ ← ensure (negb (bool_decide (frozen_hash ∈ hashes)));
    Ok (<[vote_pubkey := (slot, hashes ++ [frozen_hash])]> dirty)
  | None => Ok (<[vote_pubkey := (vote_slot, [frozen_hash])]> dirty)
  end.

Definition check_add_vote (self : LatestValidatorVotesForFrozenBanks) (vote_pubkey : Pubkey)
    (vote_slot : Slot) (frozen_hash : option Hash) (is_replay_vote : bool)
    : res (bool * option Slot * LatestValidatorVotesForFrozenBanks) :=
  let votes := vote_map self is_replay_vote in
  let dirty := fork_choice_dirty_set self in
  let fresh frozen_hash :=
    Ok (true, Some vote_slot,
        set_vote_map self is_replay_vote (<[vote_pubkey := (vote_slot, [frozen_hash])]> votes)
          (<[vote_pubkey := (vote_slot, [frozen_hash])]> dirty)) in
  match frozen_hash, votes !! vote_pubkey with
  | Some frozen_hash, Some (latest_frozen_vote_slot, latest_frozen_vote_hashes) =>
    if latest_frozen_vote_slot <? vote_slot then fresh frozen_hash
    else if (vote_slot =? latest_frozen_vote_slot)
        && negb (bool_decide (frozen_hash ∈ latest_frozen_vote_hashes)) then
      dirty ← (if is_replay_vote then push_dirty dirty vote_pubkey vote_slot frozen_hash else Ok dirty);
      Ok (true, Some vote_slot,
          set_vote_map self is_replay_vote
            (<[vote_pubkey := (latest_frozen_vote_slot, latest_frozen_vote_hashes ++ [frozen_hash])]> votes)
            dirty)
    else Ok (false, Some latest_frozen_vote_slot, self)
  | Some frozen_hash, None => fresh frozen_hash
  | None, votes => Ok (false, fst <$> votes, self)
  end.

Definition entry_votes (e : Pubkey * (Slot * list Hash)) : list (Pubkey * SlotHashKey) :=
  (fun hash => (e.1, (e.2.1, hash))) <$> e.2.2.

Section taking.
(** The order in which the dirty set, a [HashMap], is iterated. *)
Context (into_iter : FrozenVotes -> list (Pubkey * (Slot * list Hash))).

(** The votes of the dirty set at or after the root, each validator's in the order pushed. *)
Definition take_votes_dirty_set (self : LatestValidatorVotesForFrozenBanks) (root : Slot)
    : list (Pubkey * SlotHashKey) * LatestValidatorVotesForFrozenBanks :=
  (concat (entry_votes <$> filter (fun e => root <= e.2.1) (into_iter (fork_choice_dirty_set self))),
   {| max_gossip_frozen_votes := max_gossip_frozen_votes self;
      max_replay_frozen_votes := max_replay_frozen_votes self;
      fork_choice_dirty_set := ∅ |}).

Definition compute_bank_stats (get_epoch : Slot -> Epoch) (epoch_stakes : gmap Epoch (gmap Pubkey Z))
    (self : HeaviestSubtreeForkChoice) (latest : LatestValidatorVotesForFrozenBanks)
    : res (SlotHashKey * HeaviestSubtreeForkChoice * LatestValidatorVotesForFrozenBanks) :=
  let '(new_votes, latest) := take_votes_dirty_set latest (tree_root self).1 in
  '(best, self) ← add_votes get_epoch epoch_stakes self new_votes;
  Ok (best, self, latest).
End taking.

(** ** The votes recorded *)

(** What the dirty set holds was recorded in the replay votes. *)
Definition latest_ok (self : LatestValidatorVotesForFrozenBanks) : Prop :=
  forall pk slot hashes, fork_choice_dirty_set self !! pk = Some (slot, hashes) ->
    exists hashes', max_replay_frozen_votes self !! pk = Some (slot, hashes') /\ hashes ⊆ hashes'.

(** The vote recorded for a validator: of a new slot, or another hash of the latest one. *)
Definition record_vote (old : option (Slot * list Hash)) (vote_slot : Slot) (hash : Hash)
    : bool * (Slot * list Hash) :=
  match old with
  | Some (slot, hashes) =>
    if slot <? vote_slot then (true, (vote_slot, [hash]))
    else if (vote_slot =? slot) && negb (bool_decide (hash ∈ hashes)) then (true, (slot, hashes ++ [hash]))
    else (false, (slot, hashes))
  | None => (true, (vote_slot, [hash]))
  end.

Lemma push_dirty_ok self pk slot hashes hash :
  latest_ok self -> max_replay_frozen_votes self !! pk = Some (slot, hashes) -> hash ∉ hashes ->
  exists ds, push_dirty (fork_choice_dirty_set self) pk slot hash =
      Ok (<[pk := (slot, ds ++ [hash])]> (fork_choice_dirty_set self)) /\ ds ⊆ hashes.
Proof.
  intros Hok Hr Hh. unfold push_dirty. destruct (fork_choice_dirty_set self !! pk) as [[s ds]|] eqn:E.
  - destruct (Hok pk s ds E) as (hs & Hr' & Hsub). rewrite Hr in Hr'. injection Hr' as <- <-.
    rewrite bool_decide_false by (intros ?; by apply Hh, Hsub). by exists ds.
  - exists []. split; [done|]. by intros x ?%elem_of_nil.
Qed.

Lemma latest_ok_insert self pk slot hashes ds :
  latest_ok self -> ds ⊆ hashes ->
  latest_ok (set_vote_map self true (<[pk := (slot, hashes)]> (vote_map self true))
    (<[pk := (slot, ds)]> (fork_choice_dirty_set self))).
Proof.
  intros Hok Hsub x s hs. simpl. destruct (decide (x = pk)) as [->|Hne].
  - rewrite !lookup_insert_eq. intros [= <- <-]. eauto.
  - rewrite !lookup_insert_ne by done. apply Hok.
Qed.

(** Recording a vote never panics. *)
Lemma check_add_vote_ok self pk slot hash b :
  latest_ok self ->
  exists self', check_add_vote self pk slot (Some hash) b =
      Ok ((record_vote (vote_map self b !! pk) slot hash).1,
          Some (record_vote (vote_map self b !! pk) slot hash).2.1, self') /\
    latest_ok self' /\
    vote_map self' b = <[pk := (record_vote (vote_map self b !! pk) slot hash).2]> (vote_map self b) /\
    vote_map self' (negb b) = vote_map self (negb b) /\
    (b = false -> fork_choice_dirty_set self' = fork_choice_dirty_set self).
Proof.
  intros Hok. unfold check_add_vote, record_vote.
  assert (forall v, latest_ok (set_vote_map self false v (fork_choice_dirty_set self))) as Hgossip by done.
  destruct (vote_map self b !! pk) as [[s hs]|] eqn:E.
  2: { eexists. split; [reflexivity|]. destruct b; [|by auto]. split; [|done].
       by apply latest_ok_insert. }
  destruct (Z.ltb_spec s slot).
  { eexists. split; [reflexivity|]. destruct b; [|by auto]. split; [|done]. by apply latest_ok_insert. }
  destruct (Z.eqb_spec slot s) as [->|]; cbn [andb].
  2: { eexists. split; [reflexivity|]. split; [done|]. split; [|done]. by rewrite insert_id. }
  case_bool_decide as Hh; cbn [negb].
  { eexists. split; [reflexivity|]. split; [done|]. split; [|done]. by rewrite insert_id. }
  destruct b; [|by eexists].
  destruct (push_dirty_ok self pk s hs hash Hok E Hh) as (ds & -> & Hds). cbn [mbind outcome_bind].
  eexists. split; [reflexivity|]. split; [|done]. apply latest_ok_insert; [done|]. set_solver.
Qed.

(** ** The batches *)
Section batches.
Context (into_iter : FrozenVotes -> list (Pubkey * (Slot * list Hash))).
Context (Hiter : forall m, into_iter m ≡ₚ map_to_list m).
Context (get_epoch : Slot -> Epoch) (epoch_stakes : gmap Epoch (gmap Pubkey Z)).

Lemma add_operation_cases ops k s op :
  (exists ops', add_operation ops k s op = Ok ops') \/ add_operation ops k s op = Panic.
Proof using.
  unfold add_operation. destruct (om_get k ops) as [op'|]; [|eauto].
  assert (forall s', (exists r, u64_add s' s = Ok r) \/ u64_add s' s = Panic) as Hadd.
  { intros s'. unfold u64_add. destruct (checked_add u64_max s' s); simpl; eauto. }
  destruct op' as [s'| | |s'|]; simpl; auto; destruct (Hadd s') as [[? ->]| ->]; simpl; eauto.
Qed.

Lemma move_from_cases fc ops pk old v :
  (exists ops', move_from get_epoch epoch_stakes fc ops pk old v = Ok ops') \/
  move_from get_epoch epoch_stakes fc ops pk old v = Panic.
Proof using.
  unfold move_from. destruct (if _ =? _ then _ else _); simpl; [|by right].
  destruct (0 <? _); [|by left; eauto].
  destruct (add_operation_cases ops (old, LSubtract) (stake_update get_epoch epoch_stakes pk old.1)
    (OpSubtract (stake_update get_epoch epoch_stakes pk old.1))) as [[? ->]| ->]; simpl; eauto.
Qed.

(** A vote is recorded as observed, or the batch panics. *)
Lemma generate_vote_cases fc ops obs pk v :
  (exists fc' ops' obs', generate_vote get_epoch epoch_stakes fc ops obs pk v = Ok (fc', ops', obs') /\
    tree_root fc' = tree_root fc /\ (forall x, is_Some (obs !! x) -> is_Some (obs' !! x)) /\
    ((tree_root fc).1 <= v.1 -> is_Some (obs' !! pk))) \/
  generate_vote get_epoch epoch_stakes fc ops obs pk v = Panic.
Proof using.
  unfold generate_vote. destruct (Z.ltb_spec v.1 (tree_root fc).1) as [Hlt|_].
  { left. eexists _, _, _. split; [done|]. split; [done|]. split; [done|]. lia. }
  case_bool_decide; [by right|].
  assert (forall x, is_Some (obs !! x) -> is_Some ((<[pk := v.1]> obs : gmap _ _) !! x)) as Hobs.
  { intros x Hx. rewrite lookup_insert_is_Some. destruct (decide (pk = x)); auto. }
  assert (is_Some ((<[pk := v.1]> obs : gmap _ _) !! pk)) as Hpk by (rewrite lookup_insert_eq; eauto).
  destruct (match latest_votes fc !! pk with Some old => outdated v old | None => false end).
  { left. eexists _, _, _. done. }
  set (fc1 := set_latest_votes fc _).
  assert (forall r, (exists o, r = Ok o) \/ r = Panic -> (exists fc' ops' obs',
    (ops0 ← r; ops1 ← add_operation ops0 (v, LAdd) (stake_update get_epoch epoch_stakes pk v.1)
        (OpAdd (stake_update get_epoch epoch_stakes pk v.1));
      Ok (fc1, insert_aggregate_operations fc1 ops1 v, <[pk := v.1]> obs)) = Ok (fc', ops', obs') /\
    tree_root fc' = tree_root fc /\ (forall x, is_Some (obs !! x) -> is_Some (obs' !! x)) /\
    ((tree_root fc).1 <= v.1 -> is_Some (obs' !! pk))) \/
    (ops0 ← r; ops1 ← add_operation ops0 (v, LAdd) (stake_update get_epoch epoch_stakes pk v.1)
        (OpAdd (stake_update get_epoch epoch_stakes pk v.1));
      Ok (fc1, insert_aggregate_operations fc1 ops1 v, <[pk := v.1]> obs)) = Panic) as Hgo.
  { intros r [[o ->]| ->]; cbn [mbind outcome_bind]; [|by right].
    destruct (add_operation_cases o (v, LAdd) (stake_update get_epoch epoch_stakes pk v.1)
      (OpAdd (stake_update get_epoch epoch_stakes pk v.1))) as [[? ->]| ->]; cbn [mbind outcome_bind];
      [left|by right]. eexists _, _, _. done. }
  apply Hgo. destruct (latest_votes fc !! pk); [apply move_from_cases|eauto].
Qed.

(** A batch with two votes of one validator, after the root, is not processed. *)
Lemma generate_panics fc ops obs votes1 votes2 pk v :
  (tree_root fc).1 <= v.1 -> is_Some (obs !! pk) ->
  generate_loop get_epoch epoch_stakes fc ops obs (votes1 ++ (pk, v) :: votes2) = Panic.
Proof using.
  revert fc ops obs. induction votes1 as [|[pk1 v1] votes1 IH]; intros fc ops obs Hv Hpk.
  - cbn [app generate_loop]. unfold generate_vote. rewrite (proj2 (Z.ltb_ge _ _)) by done.
    by rewrite bool_decide_true.
  - cbn [app generate_loop].
    destruct (generate_vote_cases fc ops obs pk1 v1) as [(fc' & ops' & obs' & -> & Hr & Hobs & _)| ->]; [|done].
    cbn [mbind outcome_bind]. apply IH; [by rewrite Hr|auto].
Qed.

Lemma generate_twice fc ops obs votes1 votes2 votes3 pk v w :
  (tree_root fc).1 <= v.1 -> (tree_root fc).1 <= w.1 ->
  generate_loop get_epoch epoch_stakes fc ops obs (votes1 ++ (pk, v) :: votes2 ++ (pk, w) :: votes3) = Panic.
Proof using.
  revert fc ops obs. induction votes1 as [|[pk1 v1] votes1 IH]; intros fc ops obs Hv Hw; cbn [app generate_loop].
  - destruct (generate_vote_cases fc ops obs pk v) as [(fc' & ops' & obs' & -> & Hr & _ & Hpk)| ->]; [|done].
    cbn [mbind outcome_bind]. apply generate_panics; [by rewrite Hr|auto].
  - destruct (generate_vote_cases fc ops obs pk1 v1) as [(fc' & ops' & obs' & -> & Hr & _ & _)| ->]; [|done].
    cbn [mbind outcome_bind]. apply IH; by rewrite Hr.
Qed.

Lemma dirty_entries (m : FrozenVotes) root e :
  e ∈ filter (fun e => root <= e.2.1) (into_iter m) <-> m !! e.1 = Some e.2 /\ root <= e.2.1.
Proof using Hiter.
  rewrite list_elem_of_filter, Hiter. destruct e as [pk v]. rewrite elem_of_map_to_list.
  by split; intros [? ?].
Qed.

(** Two hashes of a validator for a slot, since the last batch, panic. *)
Lemma compute_bank_stats_panics fc latest pk slot h1 h2 hs :
  fork_choice_dirty_set latest !! pk = Some (slot, h1 :: h2 :: hs) -> (tree_root fc).1 <= slot ->
  compute_bank_stats into_iter get_epoch epoch_stakes fc latest = Panic.
Proof using Hiter.
  intros Hpk Hslot. unfold compute_bank_stats, take_votes_dirty_set.
  assert ((pk, (slot, h1 :: h2 :: hs)) ∈
    filter (fun e => (tree_root fc).1 <= e.2.1) (into_iter (fork_choice_dirty_set latest))) as Hin
    by (by apply dirty_entries).
  apply list_elem_of_split in Hin as (l1 & l2 & ->). unfold add_votes, generate_update_operations.
  rewrite fmap_app, concat_app. cbn [fmap list_fmap entry_votes fst snd concat app].
  assert (forall l3, generate_loop get_epoch epoch_stakes fc [] ∅
    (concat (entry_votes <$> l1) ++ ((pk, (slot, h1)) :: (pk, (slot, h2)) :: l3)) = Panic) as H.
  { intros l3. by apply (generate_twice fc [] ∅ _ [] l3 pk (slot, h1) (slot, h2)). }
  by rewrite H.
Qed.

(** One hash of each validator, at or after the root. *)
Definition single_votes (root : Slot) (dirty : FrozenVotes) : Prop :=
  forall pk slot hashes, dirty !! pk = Some (slot, hashes) -> root <= slot -> exists h, hashes = [h].

Lemma single_batch (m : FrozenVotes) root :
  single_votes root m ->
  (concat (entry_votes <$> filter (fun e => root <= e.2.1) (into_iter m))) =
    (fun e => (e.1, (e.2.1, default 0 (head e.2.2)))) <$> filter (fun e => root <= e.2.1) (into_iter m).
Proof using Hiter.
  intros Hs. assert (forall e, e ∈ filter (fun e => root <= e.2.1) (into_iter m) -> exists h, e.2.2 = [h]) as H.
  { intros [pk [s hs]] [Hpk Hr]%dirty_entries. by apply (Hs pk s). }
  induction (filter _ (into_iter m)) as [|e l IH]; [done|].
  destruct (H e) as [h He]; [left|]. rewrite !fmap_cons. cbn [concat]. rewrite IH by (intros x Hx; apply H; by right).
  unfold entry_votes. by rewrite He.
Qed.

(** The vote of a validator in a batch. *)
Definition dirty_vote (root : Slot) (dirty : FrozenVotes) (pk : Pubkey) : option SlotHashKey :=
  '(slot, hashes) ← dirty !! pk; if root <=? slot then h ← head hashes; Some (slot, h) else None.

Lemma dirty_NoDup (m : FrozenVotes) root : NoDup (filter (fun e => root <= e.2.1) (into_iter m)).*1.
Proof using Hiter.
  eapply sublist_NoDup; [|apply fmap_sublist, sublist_filter]. rewrite Hiter. apply NoDup_fst_map_to_list.
Qed.

Lemma batch_lookup (m : FrozenVotes) root pk :
  single_votes root m ->
  list_to_map (M := gmap Pubkey SlotHashKey)
    (concat (entry_votes <$> filter (fun e => root <= e.2.1) (into_iter m))) !! pk = dirty_vote root m pk.
Proof using Hiter.
  intros Hs. rewrite single_batch by done. pose proof (dirty_NoDup m root) as Hnd. unfold dirty_vote.
  apply option_eq. intros v. rewrite <-elem_of_list_to_map by (by rewrite <-list_fmap_compose).
  rewrite list_elem_of_fmap. split.
  - intros ([pk' [s hs]] & [= -> ->] & [Hpk Hr]%dirty_entries). simpl in *. rewrite Hpk. simpl.
    rewrite (proj2 (Z.leb_le _ _)) by done. destruct (Hs pk' s hs Hpk Hr) as [h ->]. done.
  - destruct (m !! pk) as [[s hs]|] eqn:E; [|done]. simpl. destruct (Z.leb_spec root s) as [Hr|]; [|done].
    destruct (Hs pk s hs E Hr) as [h ->]. intros [= <-]. exists (pk, (s, [h])). split; [done|].
    by apply dirty_entries.
Qed.

(** With one hash each, the batch is processed and the votes are taken. *)
Lemma compute_bank_stats_ok fc latest :
  stakes_ok epoch_stakes -> fc_ok get_epoch epoch_stakes fc ->
  single_votes (tree_root fc).1 (fork_choice_dirty_set latest) ->
  exists b fc', compute_bank_stats into_iter get_epoch epoch_stakes fc latest =
      Ok (b, fc', {| max_gossip_frozen_votes := max_gossip_frozen_votes latest;
                     max_replay_frozen_votes := max_replay_frozen_votes latest;
                     fork_choice_dirty_set := ∅ |}) /\
    fc_ok get_epoch epoch_stakes fc' /\ best_overall_slot fc' = Ok b /\
    shape (fork_infos fc') = shape (fork_infos fc) /\ tree_root fc' = tree_root fc /\
    forall pk, latest_votes fc' !! pk =
      match dirty_vote (tree_root fc).1 (fork_choice_dirty_set latest) pk with
      | Some v => accept (tree_root fc) (latest_votes fc) (pk, v) !! pk
      | None => latest_votes fc !! pk
      end.
Proof using Hiter.
  intros Hs Hok Hsingle. unfold compute_bank_stats, take_votes_dirty_set.
  assert (NoDup (concat (entry_votes <$>
    filter (fun e => (tree_root fc).1 <= e.2.1) (into_iter (fork_choice_dirty_set latest)))).*1) as Hnd.
  { rewrite single_batch, <-list_fmap_compose by done. apply dirty_NoDup. }
  destruct (add_votes_ok get_epoch epoch_stakes Hs fc _ Hok (sublist_NoDup _ _ Hnd
    (fmap_sublist _ _ _ (sublist_filter (fun v => (tree_root fc).1 <= v.2.1) _))))
    as (b & fc' & -> & Hok' & Hb & Hsh & Hr & Hv & _).
  eexists b, fc'. split; [reflexivity|]. split; [done|]. split; [done|]. split; [done|]. split; [done|].
  intros pk. by rewrite Hv, accept_lookup, batch_lookup.
Qed.
End batches.
