(* ===== verification/ForkSpec.v ===== *)
(** * What the fork choice promises

    The states reachable by the operations of
    [core/src/consensus/heaviest_subtree_fork_choice.rs] satisfy the invariant, and no operation
    panics in them. The block chosen is the one GHOST finds: from the root, the heaviest child
    that is not invalid, down to a block that has none. *)

From S2P Require Import Prelude OrdMap ForkChoice ForkTree ForkAggregate.
From S2P Require Import ForkProcess ForkInvariant ForkVotes ForkSearch ForkLeaf.
From S2P Require Import ForkAddLeaf ForkMarks ForkRoots ForkSplit ForkMerge.
From S2P Require Import ForkPurge LatestVotes.
Local Open Scope Z_scope.

Section spec.
Context (get_epoch : Slot -> Epoch) (epoch_stakes : gmap Epoch (gmap Pubkey Z)).
Abbreviation stake := (stake_update get_epoch epoch_stakes).
Abbreviation ok := (fc_ok get_epoch epoch_stakes).

(** ** The operations *)
Inductive ForkOp :=
| NewLeaf (k p : SlotHashKey)
| AddVotes (votes : list (Pubkey * SlotHashKey))
| MarkInvalid (k : SlotHashKey)
| MarkValid (k : SlotHashKey)
| SetRoot (k : SlotHashKey)
| RootParent (k : SlotHashKey)
| KeepSplit (k : SlotHashKey)
| KeepRest (k : SlotHashKey)
| Purge (k : SlotHashKey).

Definition run_op (fc : HeaviestSubtreeForkChoice) (op : ForkOp) : res HeaviestSubtreeForkChoice :=
  match op with
  | NewLeaf k p => add_new_leaf_slot fc k (Some p)
  | AddVotes votes => '(_, fc) ← add_votes get_epoch epoch_stakes fc votes; Ok fc
  | MarkInvalid k => mark_fork_invalid_candidate fc k
  | MarkValid k => '(_, fc) ← mark_fork_valid_candidate fc k; Ok fc
  | SetRoot k => set_tree_root fc k
  | RootParent k => add_root_parent fc k
  | KeepSplit k => '(split, _) ← split_off fc k; Ok split
  | KeepRest k => '(_, rest) ← split_off fc k; Ok rest
  | Purge k => '(_, _, fc) ← purge_prune fc k; Ok fc
  end.

(** When an operation may be called. *)
Definition op_pre (fc : HeaviestSubtreeForkChoice) (op : ForkOp) : Prop :=
  match op with
  | NewLeaf k p => is_Some (fork_infos fc !! k) \/
      (is_Some (fork_infos fc !! p) /\ p.1 < k.1 /\ map_Forall (fun _ v => v <> k) (latest_votes fc))
  | AddVotes votes => batch_votes_ok (tree_root fc) votes
  | MarkInvalid k => fork_infos fc !! k = None \/
      (is_duplicate_confirmed fc k = Some false /\ 0 <= k.1 /\ k <> default_key)
  | MarkValid k => is_Some (fork_infos fc !! k) /\ 0 <= k.1 /\ k <> default_key
  | SetRoot k | Purge k => is_Some (fork_infos fc !! k)
  | RootParent k => k.1 < (tree_root fc).1 /\ fork_infos fc !! k = None /\
      is_candidate fc (tree_root fc) = Some true /\ map_Forall (fun _ v => v <> k) (latest_votes fc)
  | KeepSplit k | KeepRest k => is_Some (fork_infos fc !! k) /\ k <> tree_root fc
  end.

#[export] Instance op_pre_dec fc op : Decision (op_pre fc op).
Proof. destruct op; simpl; unfold batch_votes_ok; apply _. Defined.

Lemma unvoted_tally fc k :
  map_Forall (fun _ v => v <> k) (latest_votes fc) -> tally get_epoch epoch_stakes (latest_votes fc) k = 0.
Proof. intros Hv. apply msum_zero. intros pk v Hpk. case_decide; [|done]. by apply Hv in Hpk. Qed.

Context (Hs : stakes_ok epoch_stakes).

(** An operation returns and keeps the invariant. *)
Lemma run_op_ok fc op : ok fc -> op_pre fc op -> exists fc', run_op fc op = Ok fc' /\ ok fc'.
Proof.
  intros Hok. destruct op as [k p|votes|k|k|k|k|k|k|k]; simpl.
  - intros [Hk|([pi Hp] & Hlt & Hv)].
    { exists fc. unfold add_new_leaf_slot, contains_block. by rewrite bool_decide_true. }
    destruct (fork_infos fc !! k) as [ki|] eqn:Hk.
    { exists fc. unfold add_new_leaf_slot, contains_block. by rewrite bool_decide_true by (rewrite Hk; eauto). }
    destruct (add_new_leaf_ok get_epoch epoch_stakes fc k p pi Hok Hk Hp Hlt) as (m' & He & Hok' & _); [|eauto].
    intros pk Hpk. by apply Hv in Hpk.
  - intros Hb. destruct (add_votes_ok get_epoch epoch_stakes Hs fc votes Hok Hb) as (b & fc' & -> & Hok' & _).
    by exists fc'.
  - intros [Hk|(Hd & H0 & Hne)]; [exists fc; unfold mark_fork_invalid_candidate; by rewrite Hk|].
    unfold is_duplicate_confirmed in Hd. destruct (fork_infos fc !! k) as [ki|] eqn:Hk; [|done].
    injection Hd as Hd.
    destruct (mark_invalid_ok get_epoch epoch_stakes Hs fc Hok k ki Hk H0 Hne Hd) as (m' & S & He & Hok' & _).
    eauto.
  - intros ([ki Hk] & H0 & Hne).
    destruct (mark_valid_ok get_epoch epoch_stakes Hs fc Hok k ki Hk H0 Hne) as (m' & S & -> & Hok' & _).
    by eexists.
  - intros Hk. destruct (set_tree_root_ok _ _ fc k Hok Hk) as (fc' & He & Hok' & _). eauto.
  - intros (Hlt & Hk & Hc & Hv%unvoted_tally).
    destruct (add_root_parent_ok _ _ fc k Hok Hlt Hk Hc Hv) as (fc' & He & Hok' & _). eauto.
  - intros [Hk Hne]. destruct (split_off_ok _ _ Hs fc k Hok Hk Hne) as (s & r & -> & Hsp). exists s. split; [done|apply Hsp].
  - intros [Hk Hne]. destruct (split_off_ok _ _ Hs fc k Hok Hk Hne) as (s & r & -> & Hsp). exists r. split; [done|apply Hsp].
  - intros Hk. destruct (purge_prune_ok _ _ Hs fc k Hok Hk) as (ps & ts & fc' & -> & Hok' & _). by exists fc'.
Qed.

(** ** Reachable states *)
Definition merge_pre (self other : HeaviestSubtreeForkChoice) (leaf : SlotHashKey) : Prop :=
  is_Some (fork_infos self !! leaf) /\ leaf.1 < (tree_root other).1 /\
  map_Forall (fun k _ => fork_infos self !! k = None) (fork_infos other) /\
  map_Forall (fun _ v => fork_infos other !! v = None) (latest_votes self).

Inductive reachable : HeaviestSubtreeForkChoice -> Prop :=
| reach_new root fc : new root = Ok fc -> reachable fc
| reach_op fc op fc' : reachable fc -> op_pre fc op -> run_op fc op = Ok fc' -> reachable fc'
| reach_merge self other leaf fc' :
    reachable self -> reachable other -> merge_pre self other leaf ->
    merge get_epoch epoch_stakes self other leaf = Ok fc' -> reachable fc'.

Lemma merge_pre_ok self other leaf : ok self -> ok other -> merge_pre self other leaf ->
  exists fc', merge get_epoch epoch_stakes self other leaf = Ok fc' /\
    merged get_epoch epoch_stakes self other leaf fc'.
Proof using Hs.
  intros Hself Hother (Hl & Hlt & Hd & Hv). apply (merge_ok _ _ Hs); [done|apply Hother|done|done| |].
  - intros k [fi Hk]. by apply Hd in Hk.
  - intros pk k Hk. by apply Hv in Hk.
Qed.

Lemma reachable_ok fc : reachable fc -> ok fc.
Proof using Hs.
  induction 1 as [root fc Hn|fc op fc' _ IH Hpre Hrun|self other leaf fc' _ IH1 _ IH2 Hpre Hm].
  - destruct (new_ok get_epoch epoch_stakes root) as (fc' & Hn' & Hok & _). congruence.
  - destruct (run_op_ok fc op IH Hpre) as (fc'' & Hrun' & Hok). congruence.
  - destruct (merge_pre_ok self other leaf IH1 IH2 Hpre) as (fc'' & Hm' & [Hok _ _ _]). congruence.
Qed.

(** ** The reference: weights from the votes, and the walk down the heaviest children *)

(** The stake of the validators whose latest vote is [n] or a block above it. *)
Definition weight (fc : HeaviestSubtreeForkChoice) (n : SlotHashKey) : Z :=
  msum (fun pk v => if bool_decide (n ∈ v :: ancestor_iterator fc v) then stake pk v.1 else 0)
    (latest_votes fc).

(** The heaviest block of a list, the first one of equals. *)
Definition heaviest (fc : HeaviestSubtreeForkChoice) (c : SlotHashKey) (cs : list SlotHashKey) : SlotHashKey :=
  foldl (fun best c => if weight fc best <? weight fc c then c else best) c cs.

Fixpoint ghost (fuel : nat) (fc : HeaviestSubtreeForkChoice) (n : SlotHashKey) : SlotHashKey :=
  match fuel with
  | O => n
  | S fuel =>
    match filter (fun c => is_candidate fc c = Some true) (default [] (children fc n)) with
    | [] => n
    | c :: cs => ghost fuel fc (heaviest fc c cs)
    end
  end.

Section state.
Context (fc : HeaviestSubtreeForkChoice) (Hok : ok fc).
Abbreviation m := (fork_infos fc).
#[local] Abbreviation Ht := (ok_tree _ _ fc Hok).
#[local] Abbreviation Hf := (t_forest _ _ Ht).

Lemma weight_sub n fi : m !! n = Some fi -> fi_stake_voted_subtree fi = weight fc n.
Proof using Hok.
  intros Hn. destruct (subtree_votes _ _ fc Hok n fi Hn) as (l & Hnd & Hd & ->).
  rewrite tally_list by done. apply msum_ext. intros pk v _.
  assert (v ∈ l <-> n ∈ v :: ancestor_iterator fc v) as Hiff.
  { rewrite Hd, elem_of_cons, (apath_above _ _ _ n Hf (ancestor_iterator_path fc v Ht)). split.
    - intros Hb. destruct (decide (n = v)); [by left|by right].
    - intros [->|[? _]]; done. }
  case_bool_decide; case_decide; tauto.
Qed.

(** The fold finds the greatest child of a sorted list. *)
Lemma heaviest_greatest c cs :
  sorted (c :: cs) -> (forall x, x ∈ c :: cs -> is_Some (m !! x)) ->
  greatest (heavier m) (c :: cs) (heaviest fc c cs).
Proof using Hs Hok.
  assert (forall x, is_Some (m !! x) -> sub_at m x = weight fc x) as Hw.
  { intros x [fi Hx]. unfold sub_at. rewrite Hx. by apply weight_sub. }
  intros Hsort Hin. unfold heaviest.
  assert (forall l best pre, sorted (pre ++ l) -> (forall x, x ∈ pre ++ l -> is_Some (m !! x)) ->
    greatest (heavier m) pre best ->
    greatest (heavier m) (pre ++ l) (foldl (fun b c => if weight fc b <? weight fc c then c else b) best l)) as H.
  { induction l as [|x l IH]; intros best pre Hs1 Hl Hg; [by rewrite app_nil_r|]. cbn [foldl].
    replace (pre ++ x :: l) with ((pre ++ [x]) ++ l) in * by (by rewrite <-app_assoc).
    apply IH; [done|done|]. destruct Hg as [Hb Hg].
    assert (is_Some (m !! best) /\ is_Some (m !! x)) as [Hbs Hxs] by (split; apply Hl; set_solver).
    destruct (Z.ltb_spec (weight fc best) (weight fc x)) as [Hlt|Hge].
    - apply (greatest_snoc_new (heavier m) pre best x); [by split|]. left. by rewrite !Hw.
    - apply greatest_snoc_old; [by split|]. unfold heavier. rewrite !Hw by done.
      destruct (decide (weight fc x < weight fc best)); [by left|right]. split; [lia|].
      assert (sorted (pre ++ [x])) as Hs2 by (by eapply sorting.StronglySorted_app_1_l).
      eapply sorting.StronglySorted_app_1_elem_of; [exact Hs2|done|left]. }
  apply (H cs c [c]); [done|done|]. split; [left|]. set_solver.
Qed.

Lemma candidate_cand c : is_candidate fc c = Some true <-> cand m c = true.
Proof using. unfold is_candidate, cand. destruct (m !! c); simpl; [|done]. split; congruence. Qed.

(** The best block of a candidate is where the walk ends, given a block more of fuel than are
    below it. *)
Lemma ghost_best fuel n fi :
  m !! n = Some fi -> fi_is_candidate fi = true ->
  (rank (shape m) (fun y => (n.1 < y.1)%Z) <= fuel)%nat -> ghost fuel fc n = fi_best_slot fi.
Proof using Hs Hok.
  revert n fi. induction fuel as [|fuel IH]; intros n fi Hn Hc Hfuel;
    pose proof (ao_best _ _ _ (ok_agg _ _ _ Hok n fi Hn) Hc) as Hbest.
  - destruct Hbest as [[_ ->]|(c & [[_ Hin]%list_elem_of_filter _] & _)]; [done|].
    assert (link (shape m) n c) as Hl by (apply link_Some; eauto).
    pose proof (link_rank _ Hf n c Hl). lia.
  - cbn [ghost]. unfold children. rewrite Hn. cbn [fmap option_fmap option_map default from_option id].
    rewrite (filter_ext_in _ (fun c => cand m c = true)) by (intros c _; apply candidate_cand).
    pose proof (f_sorted _ Hf n _ _ (shape_Some _ _ _ Hn)) as Hsort.
    set (l := filter (fun c => cand m c = true) (fi_children fi)) in *.
    assert (forall c, c ∈ l -> cand m c = true /\ link (shape m) n c) as Hl.
    { intros c [Hcc Hin]%list_elem_of_filter. split; [done|]. apply link_Some. eauto. }
    assert (sorted l) as Hsl by (by apply sorted_filter).
    clearbody l. destruct l as [|c cs].
    { destruct Hbest as [[_ ->]|(c & [Hin _] & _)]; [done|by apply elem_of_nil in Hin]. }
    pose proof (heaviest_greatest c cs Hsl) as Hg. destruct Hbest as [[? _]|(g & Hg' & ->)]; [done|].
    assert (heaviest fc c cs = g) as ->.
    { eapply greatest_unique; [apply heavier_asym|apply Hg|exact Hg']. intros x [_ Hx]%Hl.
      apply (link_dom _ _ _ Hf) in Hx as [_ Hx]. by rewrite shape_lookup, fmap_is_Some in Hx. }
    destruct (Hl g) as [Hcg Hlg]; [apply Hg'|]. unfold best_at. pose proof (link_rank _ Hf n g Hlg).
    unfold cand in Hcg. destruct (m !! g) as [gi|] eqn:Hgi; [|done]. apply (IH g gi); [done|done|lia].
Qed.

(** The best block of a candidate is a candidate. *)
Lemma best_candidate n fi :
  m !! n = Some fi -> fi_is_candidate fi = true -> cand m (fi_best_slot fi) = true.
Proof using Hok.
  revert n fi. refine (leaves_ind _ Hf _ _). intros n IH fi Hn Hc.
  destruct (ao_best _ _ _ (ok_agg _ _ _ Hok n fi Hn) Hc) as [[_ ->]|(c & [[Hcc Hin]%list_elem_of_filter _] & ->)].
  - unfold cand. by rewrite Hn.
  - unfold best_at. unfold cand in Hcc. destruct (m !! c) as [ci|] eqn:Hci; [|done].
    apply (IH c); [apply link_Some; eauto|done|done].
Qed.

(** The height of a block is that of the longest chain on it, and its deepest block ends one. *)
Lemma deepest_chain n fi :
  m !! n = Some fi ->
  (exists j, fi_height fi = S j /\ nsteps (link (shape m)) j n (fi_deepest_slot fi)) /\
  forall j d, nsteps (link (shape m)) j n d -> (j < fi_height fi)%nat.
Proof using Hok.
  revert n fi. refine (leaves_ind _ Hf _ _). intros n IH fi Hn.
  assert (forall c, c ∈ fi_children fi -> link (shape m) n c /\ exists ci, m !! c = Some ci) as Hch.
  { intros c Hc. destruct (forest_children m n fi c Hf Hn Hc) as (_ & [ci Hci] & _). split; [|eauto].
    apply link_Some. eauto. }
  destruct (ao_deep _ _ _ (ok_agg _ _ _ Hok n fi Hn)) as [[Hno [= -> ->]]|(c & [Hc Hg] & [= -> ->])].
  - split; [exists 0%nat; split; [done|constructor]|]. intros j d Hj. inversion Hj as [|j' ? y ? Hl]; [lia|].
    subst. apply link_Some in Hl as (fi' & Hn' & Hy). rewrite Hn in Hn'. injection Hn' as <-.
    rewrite Hno in Hy. by apply elem_of_nil in Hy.
  - destruct (Hch c Hc) as [Hl [ci Hci]]. unfold height_at, deepest_at. rewrite Hci. simpl.
    destruct (IH c Hl ci Hci) as [(j & Hj & Hd) Hmax]. split.
    + exists (S j). split; [lia|]. by econstructor.
    + intros i d Hi. inversion Hi as [|i' ? y ? Hly Hyd]; [lia|]. subst.
      assert (y ∈ fi_children fi) as Hy.
      { apply link_Some in Hly as (fi' & Hn' & Hy). rewrite Hn in Hn'. by injection Hn' as <-. }
      destruct (Hch y Hy) as [_ [yi Hyi]]. destruct (IH y Hly yi Hyi) as [_ Hmy]. specialize (Hmy _ _ Hyd).
      destruct (decide (y = c)) as [->|Hne]; [rewrite Hci in Hyi; injection Hyi as <-; lia|].
      destruct (Hg y Hy Hne) as [Hd'|[Hd' _]]; unfold height_at in Hd'; rewrite Hci, Hyi in Hd'; simpl in Hd'; lia.
Qed.
End state.
End spec.
