(* ===== verification/ForkTheorems.v ===== *)
(** * Theorems on the fork choice *)

From S2P Require Import Prelude OrdMap ForkChoice ForkTree ForkAggregate.
From S2P Require Import ForkProcess ForkInvariant ForkVotes ForkSearch ForkMarks.
From S2P Require Import ForkRoots ForkSplit ForkMerge ForkPurge LatestVotes.
From S2P Require Import ForkSpec.
Local Open Scope Z_scope.

(** ** Vocabulary *)

(** [d] is [a] or descends from it. *)
Definition descends (fc : HeaviestSubtreeForkChoice) (a d : SlotHashKey) : bool :=
  bool_decide (a ∈ d :: ancestor_iterator fc d).
Definition child (fc : HeaviestSubtreeForkChoice) (n c : SlotHashKey) : Prop :=
  c ∈ default [] (children fc n).

(** Runs the operations that may be called, in order. *)
Fixpoint run_ops (get_epoch : Slot -> Epoch) (epoch_stakes : gmap Epoch (gmap Pubkey Z))
    (fc : HeaviestSubtreeForkChoice) (ops : list ForkOp) : option HeaviestSubtreeForkChoice :=
  match ops with
  | [] => Some fc
  | op :: ops =>
    if decide (op_pre fc op) then
      match run_op get_epoch epoch_stakes fc op with
      | Ok fc' => run_ops get_epoch epoch_stakes fc' ops
      | _ => None
      end
    else None
  end.

Lemma run_ops_reachable get_epoch epoch_stakes fc ops fc' :
  reachable get_epoch epoch_stakes fc -> run_ops get_epoch epoch_stakes fc ops = Some fc' ->
  reachable get_epoch epoch_stakes fc'.
Proof.
  revert fc. induction ops as [|op ops IH]; intros fc Hr; simpl; [congruence|].
  case_decide as Hp; [|done]. destruct (run_op get_epoch epoch_stakes fc op) as [fc1|e|] eqn:E; [|done..].
  apply IH. by eapply reach_op.
Qed.

Lemma child_link fc n c : child fc n c <-> link (shape (fork_infos fc)) n c.
Proof.
  rewrite link_Some. unfold child, children. destruct (fork_infos fc !! n) as [fi|]; simpl.
  - split; [eauto|]. intros (fi' & [= <-] & Hc). done.
  - split; [by intros ?%elem_of_nil|]. by intros (fi & ? & _).
Qed.

Lemma child_nsteps fc i a d : nsteps (child fc) i a d <-> nsteps (link (shape (fork_infos fc))) i a d.
Proof. split; induction 1; econstructor; try done; by apply child_link. Qed.

Lemma descends_below fc a d :
  tree (shape (fork_infos fc)) (tree_root fc) ->
  descends fc a d = true <-> below (shape (fork_infos fc)) a d.
Proof.
  intros Ht. unfold descends. rewrite bool_decide_eq_true, elem_of_cons.
  rewrite (apath_above _ _ _ a (t_forest _ _ Ht) (ancestor_iterator_path fc d Ht)). split.
  - intros [->|[? _]]; done.
  - intros Hb. destruct (decide (a = d)); auto.
Qed.

(** ** Two validators, a fork and a duplicate block *)
Module Demo.
Definition epoch (_ : Slot) : Epoch := 0.
Definition stakes : gmap Epoch (gmap Pubkey Z) := {[ 0 := {[ 1 := 34; 2 := 66 ]} ]}.
Definition k (s : Z) : SlotHashKey := (s, s + 100).

(** 0 - 1 - 2 - 4 and 1 - 3; 34 of stake on 3 and 66 on 4. *)
Definition ops : list ForkOp :=
  [NewLeaf (k 1) (k 0); NewLeaf (k 2) (k 1); NewLeaf (k 3) (k 1); NewLeaf (k 4) (k 2);
   AddVotes [(1, k 3); (2, k 4)]].
Definition root : HeaviestSubtreeForkChoice :=
  match new (k 0) with
  | Ok fc => fc
  | _ => {| fork_infos := ∅; latest_votes := ∅; tree_root := k 0 |}
  end.
Definition fc : HeaviestSubtreeForkChoice := default root (run_ops epoch stakes root ops).

Lemma fc_reachable : reachable epoch stakes fc.
Proof.
  apply (run_ops_reachable _ _ root ops).
  - by apply (reach_new _ _ (k 0)).
  - vm_compute. reflexivity.
Qed.

Lemma stakes_fine : stakes_ok stakes.
Proof.
  split; [|by vm_compute]. intros e s pk st He Hpk. unfold stakes in He.
  apply lookup_singleton_Some in He as [<- <-].
  apply lookup_insert_Some in Hpk as [[_ <-]|[_ [_ <-]%lookup_singleton_Some]]; lia.
Qed.

(** The votes for 4 count towards 2 when 4 is a duplicate; 4 is best again once confirmed. *)
Example best_voted : best_overall_slot fc = Ok (k 4).
Proof. vm_compute. reflexivity. Qed.
Example best_duplicate : (mark_fork_invalid_candidate fc (k 4) ≫= best_overall_slot) = Ok (k 2).
Proof. vm_compute. reflexivity. Qed.
End Demo.

(** ** The theorems *)
Section theorems.
Context (get_epoch : Slot -> Epoch) (epoch_stakes : gmap Epoch (gmap Pubkey Z)).
Context (Hs : stakes_ok epoch_stakes).
Context (fc : HeaviestSubtreeForkChoice) (Hr : reachable get_epoch epoch_stakes fc).

(** C10: In every reachable state an operation called when it may be (a new leaf under a known
    parent of a lower slot, a batch of votes of distinct validators, an invalid mark for a block
    that is not duplicate confirmed, a known new root, and so on) returns without panicking, and
    its result satisfies the invariant: the blocks form a tree, every block is aggregated from
    its children, the stake at each block is that of the latest votes for it. *)
Theorem fork_ops_safe (op : ForkOp) :
  op_pre fc op ->
  exists fc', run_op get_epoch epoch_stakes fc op = Ok fc' /\ fc_ok get_epoch epoch_stakes fc'.
Proof using Hs Hr. apply run_op_ok; [done|]. by apply reachable_ok. Qed.

(** C4: The best overall block of a reachable state whose root is not invalid is the one GHOST
    finds from the votes: from the root, at each block, the child that is not invalid and has
    most stake of latest votes in its subtree, the lower block on ties, until there is none. *)
Theorem best_overall_slot_ghost :
  is_candidate fc (tree_root fc) = Some true ->
  best_overall_slot fc = Ok (ghost get_epoch epoch_stakes (size (fork_infos fc)) fc (tree_root fc)).
Proof using Hs Hr.
  intros Hc. pose proof (reachable_ok _ _ Hs fc Hr) as Hok. unfold is_candidate in Hc.
  unfold best_overall_slot, best_slot. destruct (fork_infos fc !! tree_root fc) as [ri|] eqn:E; [|done].
  injection Hc as Hc. simpl. f_equal. symmetry. apply (ghost_best _ _ Hs fc Hok _ _ ri E Hc).
  unfold rank, shape. etrans; [apply length_filter|]. by rewrite length_map_to_list, map_size_fmap.
Qed.

(** C26: The stake the code keeps for the subtree of a block is the stake of the validators whose
    latest vote is in it, and does not exceed [u64::MAX]. *)
Theorem stake_voted_subtree_weight (n : SlotHashKey) :
  contains_block fc n = true ->
  stake_voted_subtree fc n = Some (weight get_epoch epoch_stakes fc n) /\
  0 <= weight get_epoch epoch_stakes fc n <= u64_max.
Proof using Hs Hr.
  intros [fi Hn]%bool_decide_eq_true. pose proof (reachable_ok _ _ Hs fc Hr) as Hok.
  unfold stake_voted_subtree. rewrite Hn. simpl. rewrite <-(weight_sub _ _ fc Hok n fi Hn).
  split; [done|]. destruct (sub_bounds _ _ Hs fc Hok n fi Hn). destruct Hs as [_ ?]. lia.
Qed.

(** The deepest overall block is at the end of a longest chain of blocks from the root, and
    the height of the root is the length of that chain. *)
Theorem deepest_overall_slot_longest :
  exists b j, deepest_overall_slot fc = Ok b /\ height fc (tree_root fc) = Some (S j) /\
    nsteps (child fc) j (tree_root fc) b /\
    forall i d, nsteps (child fc) i (tree_root fc) d -> (i <= j)%nat.
Proof using Hs Hr.
  pose proof (reachable_ok _ _ Hs fc Hr) as Hok. destruct (t_root _ _ (ok_tree _ _ _ Hok)) as [cs Hroot].
  rewrite shape_lookup in Hroot. destruct (fork_infos fc !! tree_root fc) as [ri|] eqn:E; [|done].
  destruct (deepest_chain _ _ fc Hok _ ri E) as [(j & Hj & Hd) Hmax].
  exists (fi_deepest_slot ri), j. unfold deepest_overall_slot, deepest_slot, height. rewrite E. simpl.
  rewrite Hj. split; [done|]. split; [done|]. split; [by apply child_nsteps|].
  intros i d Hi%child_nsteps%Hmax. lia.
Qed.

(** C34: Marking a block that is not duplicate confirmed invalid returns; no block descending from
    it is a candidate afterwards, the other blocks are candidates as before, and the best overall
    block, when the root is a candidate, does not descend from it. *)
Theorem mark_invalid_excludes (k : SlotHashKey) :
  is_duplicate_confirmed fc k = Some false -> 0 <= k.1 -> k <> default_key ->
  exists fc', mark_fork_invalid_candidate fc k = Ok fc' /\
    (forall x, contains_block fc x = true ->
      is_candidate fc' x = if descends fc k x then Some false else is_candidate fc x) /\
    (is_candidate fc' (tree_root fc') = Some true ->
      exists b, best_overall_slot fc' = Ok b /\ descends fc k b = false).
Proof using Hs Hr.
  intros Hd H0 Hne. pose proof (reachable_ok _ _ Hs fc Hr) as Hok.
  destruct (fork_infos fc !! k) as [ki|] eqn:Hk; unfold is_duplicate_confirmed in Hd; rewrite Hk in Hd; [|done].
  injection Hd as Hd.
  destruct (mark_invalid_ok get_epoch epoch_stakes Hs fc Hok k ki Hk H0 Hne Hd)
    as (m' & S & He & Hok' & Hsh & HS & HV).
  eexists. split; [exact He|].
  assert (forall x, contains_block fc x = true -> is_candidate (set_fork_infos fc m') x =
    if descends fc k x then Some false else is_candidate fc x) as Hcand.
  { intros x [xi Hx]%bool_decide_eq_true. unfold is_candidate. simpl.
    assert (is_Some (m' !! x)) as [xi' Hx'].
    { rewrite <-(fmap_is_Some links), <-shape_lookup, Hsh, shape_lookup, Hx. eauto. }
    rewrite Hx, Hx'. simpl. apply HV in Hx'. unfold invalid_after in Hx'.
    assert (x ∈ S <-> descends fc k x = true) as HxS by (rewrite HS, descends_below; [done|apply Hok]).
    unfold validity_at in Hx'. rewrite Hx in Hx'. unfold fi_is_candidate.
    destruct (decide (x ∈ S)) as [Hin|Hin].
    - rewrite (proj1 HxS Hin). injection Hx' as -> _. destruct (fi_latest_invalid_ancestor xi) as [a|]; [|done].
      by destruct (a <? k.1).
    - assert (descends fc k x = false) as -> by (destruct (descends fc k x); [by destruct Hin; apply HxS|done]).
      by injection Hx' as -> _. }
  split; [done|]. unfold is_candidate at 1, best_overall_slot, best_slot. simpl.
  destruct (m' !! tree_root fc) as [ri|] eqn:Hri; [|done]. intros [= Hrc]. exists (fi_best_slot ri).
  split; [done|]. destruct (descends fc k (fi_best_slot ri)) eqn:E; [|done].
  pose proof (best_candidate _ _ _ Hok' (tree_root fc) ri Hri Hrc) as Hb. apply candidate_cand in Hb.
  rewrite Hcand, E in Hb; [done|]. apply bool_decide_eq_true.
  rewrite <-(fmap_is_Some links), <-shape_lookup, <-Hsh, shape_lookup, fmap_is_Some.
  unfold is_candidate in Hb. simpl in Hb. destruct (m' !! fi_best_slot ri); [eauto|done].
Qed.

(** Marking a known block valid returns the blocks among it and its ancestors that were not
    duplicate confirmed; afterwards all of these are confirmed and candidates, so are no longer
    under any invalid block, and the blocks on other forks are as before. *)
Theorem mark_valid_confirms (k : SlotHashKey) :
  contains_block fc k = true -> 0 <= k.1 -> k <> default_key ->
  exists fc', mark_fork_valid_candidate fc k =
      Ok (filter (fun x => is_duplicate_confirmed fc x = Some false) (k :: ancestor_iterator fc k), fc') /\
    (forall x, x ∈ k :: ancestor_iterator fc k ->
      is_duplicate_confirmed fc' x = Some true /\ is_candidate fc' x = Some true) /\
    (forall x, contains_block fc x = true -> descends fc x k = false -> descends fc k x = false ->
      is_duplicate_confirmed fc' x = is_duplicate_confirmed fc x /\
      latest_invalid_ancestor fc' x = latest_invalid_ancestor fc x).
Proof using Hs Hr.
  intros [ki Hk]%bool_decide_eq_true H0 Hne. pose proof (reachable_ok _ _ Hs fc Hr) as Hok.
  pose proof (ok_tree _ _ _ Hok) as Ht.
  destruct (mark_valid_ok get_epoch epoch_stakes Hs fc Hok k ki Hk H0 Hne) as (m' & S & He & Hok' & Hsh & HS & HV).
  eexists. split; [|split].
  - rewrite He. do 2 f_equal. apply filter_ext_in. intros x Hx. unfold dup_at, is_duplicate_confirmed.
    assert (is_Some (fork_infos fc !! x)) as [xi ->]; [|simpl; split; congruence].
    apply elem_of_cons in Hx as [->|Hx]; [eauto|].
    apply (apath_above _ _ _ x (t_forest _ _ Ht) (ancestor_iterator_path fc k Ht)) in Hx as [Hx _].
    destruct (rtc_inv _ _ Hx) as [->|(c & Hl & _)]; [eauto|]. apply link_Some in Hl as (xi & ? & _). eauto.
  - intros x Hx. assert (below (shape m') x k) as Hb.
    { rewrite Hsh, <-descends_below by done. by apply bool_decide_eq_true. }
    assert (exists xi, m' !! x = Some xi) as [xi Hxi].
    { destruct (rtc_inv _ _ Hb) as [->|(c & Hl & _)]; [|apply link_Some in Hl as (xi & ? & _); eauto].
      apply (f_equal (.!! k)) in Hsh. rewrite !shape_lookup, Hk in Hsh. destruct (m' !! k); [eauto|done]. }
    assert (validity xi = (None, true)) as Hv.
    { rewrite (HV x xi Hxi). apply elem_of_cons in Hx as [->|Hx]; [by eapply valid_after_k|].
      unfold valid_after. by rewrite decide_True. }
    injection Hv as Hl Hd. unfold is_duplicate_confirmed, is_candidate, fi_is_candidate. simpl. rewrite Hxi. simpl.
    by rewrite Hl, Hd.
  - intros x [xi Hx]%bool_decide_eq_true Hxk Hkx.
    assert (exists xi', m' !! x = Some xi') as [xi' Hxi'].
    { apply (f_equal (.!! x)) in Hsh. rewrite !shape_lookup, Hx in Hsh. destruct (m' !! x); [eauto|done]. }
    pose proof (HV x xi' Hxi') as Hv. unfold valid_after in Hv. rewrite !decide_False in Hv.
    + unfold validity_at in Hv. rewrite Hx in Hv. injection Hv as Hl Hd.
      unfold is_duplicate_confirmed, latest_invalid_ancestor. simpl. rewrite Hx, Hxi'. simpl. by rewrite Hl, Hd.
    + rewrite HS. intros Hb%descends_below; [congruence|done].
    + intros Ha. apply bool_decide_eq_false in Hxk. apply Hxk. by right.
Qed.

(** C28: Splitting off the subtree of a block and merging it back under the block's parent gives
    the tree there was: the same blocks, parents and children, the same stake at and under every
    block; only the latest votes for blocks that are not in the tree are gone. *)
Theorem split_merge_roundtrip (k p : SlotHashKey) :
  parent fc k = Some p -> k <> tree_root fc ->
  exists split rest fc', split_off fc k = Ok (split, rest) /\
    merge get_epoch epoch_stakes rest split p = Ok fc' /\
    tree_root fc' = tree_root fc /\
    (forall x, parent fc' x = parent fc x /\ children fc' x = children fc x /\
      stake_voted_at fc' x = stake_voted_at fc x /\
      stake_voted_subtree fc' x = stake_voted_subtree fc x) /\
    latest_votes fc' = filter (fun '(_, v) => is_Some (fork_infos fc !! v)) (latest_votes fc).
Proof using Hs Hr.
  intros Hp Hne. pose proof (reachable_ok _ _ Hs fc Hr) as Hok. pose proof (ok_tree _ _ _ Hok) as Ht.
  unfold parent in Hp. destruct (fork_infos fc !! k) as [ki|] eqn:Hk; [|done]. simpl in Hp.
  destruct (split_off_ok _ _ Hs fc k Hok ltac:(eauto) Hne) as (split & rest & Hsplit & Hsp).
  assert (link (shape (fork_infos fc)) p k) as Hl.
  { eapply tree_link_parent; [done|]. rewrite shape_lookup, Hk. unfold links. simpl. rewrite Hp. eauto. }
  destruct (merge_again _ _ Hs fc split rest k p Hok Hsp Hl) as (fc' & Hm & Hok' & Hroot & Hsh & Hv).
  exists split, rest, fc'. split; [done|]. split; [done|]. split; [done|]. split; [|done].
  intros x. pose proof (f_equal (.!! x) Hsh) as Hx. rewrite !shape_lookup in Hx.
  unfold parent, children, stake_voted_at, stake_voted_subtree.
  destruct (fork_infos fc !! x) as [xi|] eqn:E, (fork_infos fc' !! x) as [xi'|] eqn:E'; [|done..].
  injection Hx as Hpar Hch. simpl. rewrite Hpar, Hch. split; [done|]. split; [done|].
  destruct (stakes_ext get_epoch epoch_stakes fc' fc x xi' xi Hok' Hok Hsh) as [-> ->]; [|done..].
  intros y Hy. rewrite Hv. apply tally_filter.
  rewrite <-(fmap_is_Some links), <-shape_lookup, <-Hsh, shape_lookup. by apply fmap_is_Some.
Qed.

(** C27: [purge_prune] leaves the tree that [set_tree_root] leaves, the subtree of the new root;
    every other block is purged, when it is before the new root, or in one of the subtrees
    pruned, each of which satisfies the invariant. *)
Theorem purge_prune_set_tree_root (r : SlotHashKey) :
  contains_block fc r = true ->
  exists purged pruned fc1 fc2, purge_prune fc r = Ok (purged, pruned, fc1) /\
    set_tree_root fc r = Ok fc2 /\ fork_infos fc1 = fork_infos fc2 /\ tree_root fc1 = tree_root fc2 /\
    Forall (fc_ok get_epoch epoch_stakes) (fc1 :: pruned) /\ NoDup purged /\ (forall x, x ∈ purged -> olt x r) /\
    (forall x, contains_block fc1 x = true <-> descends fc r x = true) /\
    forall x, contains_block fc x = true ->
      x ∈ purged \/ contains_block fc1 x = true \/ exists t, t ∈ pruned /\ contains_block t x = true.
Proof using Hs Hr.
  intros Hr0%bool_decide_eq_true. pose proof (reachable_ok _ _ Hs fc Hr) as Hok. pose proof (ok_tree _ _ _ Hok) as Ht.
  destruct (purge_prune_ok _ _ Hs fc r Hok Hr0) as (ps & ts & fc1 & Hp & Hok1 & Hr1 & Hs1 & Hts & Hnd & Hlt & Hall).
  destruct (set_tree_root_ok _ _ fc r Hok Hr0) as (fc2 & H2 & _ & Hr2 & _ & Hs2).
  assert (forall x, contains_block fc1 x = true <-> descends fc r x = true) as Hin.
  { intros x. rewrite (descends_below _ _ _ Ht). unfold contains_block. rewrite bool_decide_eq_true.
    split; [apply Hs1|]. intros Hb. rewrite (proj1 Hs1) by done. apply fmap_is_Some.
    apply (below_dom _ (t_forest _ _ Ht)) in Hb; [by rewrite shape_lookup, fmap_is_Some in Hb|].
    rewrite shape_lookup. by apply fmap_is_Some. }
  exists ps, ts, fc1, fc2. split; [done|]. split; [done|]. split; [|split; [congruence|]; split; [by constructor|]].
  { eapply subtree_at_unique; [done|done|]. intros x. by apply below_or_not. }
  split; [done|]. split; [done|]. split; [done|]. intros x Hx%bool_decide_eq_true.
  destruct (Hall x Hx) as [|[Hb|(t & Ht' & Hxt)]]; [auto|right; left|right; right].
  - apply Hin. by apply descends_below.
  - exists t. split; [done|]. by apply bool_decide_eq_true.
Qed.

(** Votes recorded for frozen banks, with one hash for each validator since the last time,
    are taken by [compute_bank_stats] without a panic, whatever the order of the dirty set:
    the latest vote of each validator is its dirty vote when that is at or after the root and
    newer, or for the same slot and a smaller hash; the best block is returned and the dirty set
    is empty. *)
Theorem compute_bank_stats_total (into_iter : FrozenVotes -> list (Pubkey * (Slot * list Hash)))
    (latest : LatestValidatorVotesForFrozenBanks) :
  (forall d, into_iter d ≡ₚ map_to_list d) ->
  single_votes (tree_root fc).1 (fork_choice_dirty_set latest) ->
  exists b fc' latest', compute_bank_stats into_iter get_epoch epoch_stakes fc latest = Ok (b, fc', latest') /\
    best_overall_slot fc' = Ok b /\ fc_ok get_epoch epoch_stakes fc' /\ fork_choice_dirty_set latest' = ∅ /\
    forall pk, latest_votes fc' !! pk =
      match dirty_vote (tree_root fc).1 (fork_choice_dirty_set latest) pk, latest_votes fc !! pk with
      | Some v, Some old => Some (if outdated v old then old else v)
      | Some v, None => Some v
      | None, old => old
      end.
Proof using Hs Hr.
  intros Hiter Hsv. pose proof (reachable_ok _ _ Hs fc Hr) as Hok.
  destruct (compute_bank_stats_ok into_iter Hiter get_epoch epoch_stakes fc latest Hs Hok Hsv)
    as (b & fc' & He & Hok' & Hb & _ & _ & Hv).
  eexists b, fc', _. split; [exact He|]. split; [done|]. split; [done|]. split; [done|].
  intros pk. rewrite Hv. destruct (dirty_vote _ _ pk) as [v|] eqn:E; [|done].
  assert ((tree_root fc).1 <= v.1) as Hge.
  { unfold dirty_vote in E. destruct (_ !! pk) as [[s hs]|]; [|done]. simpl in E.
    destruct (Z.leb_spec (tree_root fc).1 s); [|done]. destruct (head hs); [|done]. by injection E as <-. }
  unfold accept. cbn [fst snd]. rewrite (proj2 (Z.ltb_ge _ _)) by done.
  destruct (latest_votes fc !! pk) as [old|] eqn:Eo; [|by rewrite lookup_insert_eq].
  destruct (outdated v old); [done|]. by rewrite lookup_insert_eq.
Qed.
End theorems.

(** C40: A validator whose votes for two hashes of one slot, at or after the root, were both
    recorded since the last batch, makes [compute_bank_stats] panic, in any state and whatever
    the order of the dirty set. *)
Theorem compute_bank_stats_two_hashes (into_iter : FrozenVotes -> list (Pubkey * (Slot * list Hash)))
    (get_epoch : Slot -> Epoch) (epoch_stakes : gmap Epoch (gmap Pubkey Z))
    (fc : HeaviestSubtreeForkChoice) (latest : LatestValidatorVotesForFrozenBanks)
    (pk : Pubkey) (slot : Slot) (h1 h2 : Hash) :
  (forall d, into_iter d ≡ₚ map_to_list d) ->
  max_replay_frozen_votes latest !! pk = None -> fork_choice_dirty_set latest !! pk = None ->
  h1 <> h2 -> (tree_root fc).1 <= slot ->
  exists l1 l2, check_add_vote latest pk slot (Some h1) true = Ok (true, Some slot, l1) /\
    check_add_vote l1 pk slot (Some h2) true = Ok (true, Some slot, l2) /\
    compute_bank_stats into_iter get_epoch epoch_stakes fc l2 = Panic.
Proof.
  intros Hiter Hr Hd Hne Hs. unfold check_add_vote at 1, vote_map. rewrite Hr. eexists _, _. split; [reflexivity|].
  unfold check_add_vote, vote_map, push_dirty. simpl. rewrite !lookup_insert_eq.
  rewrite Z.ltb_irrefl, Z.eqb_refl, bool_decide_false by set_solver. simpl. split; [reflexivity|].
  eapply (compute_bank_stats_panics _ Hiter); [|exact Hs]. simpl. by rewrite lookup_insert_eq.
Qed.

(** ** The theorems at the example *)
Section examples.
Import Demo.
Abbreviation at_demo thm := (thm epoch stakes stakes_fine Demo.fc fc_reachable).

Lemma fork_ops_safe_witness :
  exists fc', run_op epoch stakes Demo.fc (MarkInvalid (k 4)) = Ok fc' /\ fc_ok epoch stakes fc'.
Proof. apply (at_demo fork_ops_safe). right. vm_compute. split; [reflexivity|]. by split. Defined.

Lemma best_overall_slot_ghost_witness :
  best_overall_slot Demo.fc = Ok (k 4) /\
  best_overall_slot Demo.fc = Ok (ghost epoch stakes (size (fork_infos Demo.fc)) Demo.fc (tree_root Demo.fc)).
Proof. split; [vm_compute; reflexivity|]. apply (at_demo best_overall_slot_ghost). vm_compute. reflexivity. Defined.

Lemma stake_voted_subtree_weight_witness :
  stake_voted_subtree Demo.fc (k 1) = Some 100 /\
  stake_voted_subtree Demo.fc (k 1) = Some (weight epoch stakes Demo.fc (k 1)).
Proof.
  split; [vm_compute; reflexivity|]. apply (at_demo stake_voted_subtree_weight (k 1)). vm_compute. reflexivity.
Defined.

Lemma deepest_overall_slot_longest_witness :
  exists b j, deepest_overall_slot Demo.fc = Ok b /\ height Demo.fc (tree_root Demo.fc) = Some (S j) /\
    nsteps (child Demo.fc) j (tree_root Demo.fc) b.
Proof.
  destruct (at_demo deepest_overall_slot_longest) as (b & j & H1 & H2 & H3 & _). exists b, j. exact (conj H1 (conj H2 H3)).
Defined.

Lemma mark_invalid_excludes_witness :
  exists fc', mark_fork_invalid_candidate Demo.fc (k 4) = Ok fc' /\
    is_candidate fc' (k 4) = Some false /\ is_candidate fc' (k 3) = Some true.
Proof.
  destruct (at_demo mark_invalid_excludes (k 4)) as (fc' & He & Hc & _); [vm_compute; reflexivity|by vm_compute|done|].
  exists fc'. split; [exact He|]. rewrite !Hc by (vm_compute; reflexivity). vm_compute. auto.
Defined.

Lemma mark_valid_confirms_witness :
  exists fc', mark_fork_valid_candidate Demo.fc (k 2) = Ok ([k 2; k 1], fc') /\
    is_duplicate_confirmed fc' (k 1) = Some true.
Proof.
  destruct (at_demo mark_valid_confirms (k 2)) as (fc' & He & Hc & _); [vm_compute; reflexivity|by vm_compute|done|].
  exists fc'. split; [rewrite He; vm_compute; reflexivity|]. apply Hc.
  apply (bool_decide_unpack _). vm_compute. exact I.
Defined.

Lemma split_merge_roundtrip_witness :
  exists split rest fc', split_off Demo.fc (k 2) = Ok (split, rest) /\
    merge epoch stakes rest split (k 1) = Ok fc' /\ tree_root fc' = tree_root Demo.fc.
Proof.
  destruct (at_demo split_merge_roundtrip (k 2) (k 1)) as (s & r & fc' & H1 & H2 & H3 & _);
    [vm_compute; reflexivity|vm_compute; discriminate|]. exists s, r, fc'. exact (conj H1 (conj H2 H3)).
Defined.

Lemma purge_prune_set_tree_root_witness :
  exists purged pruned fc1 fc2, purge_prune Demo.fc (k 2) = Ok (purged, pruned, fc1) /\
    set_tree_root Demo.fc (k 2) = Ok fc2 /\ fork_infos fc1 = fork_infos fc2.
Proof.
  destruct (at_demo purge_prune_set_tree_root (k 2)) as (ps & ts & fc1 & fc2 & H1 & H2 & H3 & _);
    [vm_compute; reflexivity|]. exists ps, ts, fc1, fc2. exact (conj H1 (conj H2 H3)).
Defined.

(** Validator 2 votes for block 3 next. *)
Definition latest : LatestValidatorVotesForFrozenBanks :=
  {| max_gossip_frozen_votes := ∅; max_replay_frozen_votes := {[ 2 := (3, [103]) ]};
     fork_choice_dirty_set := {[ 2 := (3, [103]) ]} |}.

Lemma compute_bank_stats_total_witness :
  exists b fc' latest', compute_bank_stats map_to_list epoch stakes Demo.fc latest = Ok (b, fc', latest') /\
    best_overall_slot fc' = Ok b.
Proof.
  destruct (at_demo compute_bank_stats_total map_to_list latest) as (b & fc' & l' & H1 & H2 & _).
  - done.
  - intros pk s hs. simpl. intros [_ [= _ <-]]%lookup_singleton_Some _. eauto.
  - exists b, fc', l'. exact (conj H1 H2).
Defined.

Lemma compute_bank_stats_two_hashes_witness :
  exists l1 l2, check_add_vote latest_default 2 4 (Some 104) true = Ok (true, Some 4, l1) /\
    check_add_vote l1 2 4 (Some 105) true = Ok (true, Some 4, l2) /\
    compute_bank_stats map_to_list epoch stakes Demo.fc l2 = Panic.
Proof.
  apply (compute_bank_stats_two_hashes map_to_list epoch stakes Demo.fc latest_default 2 4 104 105);
    [done|reflexivity|reflexivity|done|]. vm_compute. discriminate.
Defined.
End examples.
