(* ===== verification/SvmInterface.v ===== *)
(** * What the transaction runtime takes from other crates

    The errors, ids and functions that the runtime ([transaction-context],
    [program-runtime]) and the built-in programs ([programs/system],
    [programs/vote]) call and that are not part of the repository: the rent
    calculator, address derivation, the program and sysvar ids, the bincode
    format.  [SvmInterface] and [Bincode] list the operations; [SvmLaws] and
    [BincodeLaws] state the documented behaviour the proofs rely on.  The file
    also holds the signed machine integers and the combinators on a [&mut]
    state that only this part of the sources uses. *)

From S2P Require Import Prelude VoteInterface.
From stdpp Require Import strings.
Local Open Scope Z_scope.

(** ** Signed machine integers *)

Definition i8_min : Z := -128.
Definition i8_max : Z := 127.
Definition i128_min : Z := -170141183460469231731687303715884105728.
Definition i128_max : Z := 170141183460469231731687303715884105727.

(** The value closest to [z] in [lo .. hi]: what saturating arithmetic returns. *)
Definition clamp (lo hi z : Z) : Z := Z.max lo (Z.min hi z).
(** [z as i64] and [z as u16]. *)
Definition as_i64 (z : Z) : Z := (z - i64_min) mod (u64_max + 1) + i64_min.
Definition as_u16 (z : Z) : Z := z mod (u16_max + 1).
(** [a.checked_add(b)] on [i128]. *)
Definition checked_add_i128 (a b : Z) : option Z :=
  if (i128_min <=? a + b) && (a + b <=? i128_max) then Some (a + b) else None.

Lemma as_i64_id z : i64_min <= z <= i64_max -> as_i64 z = z.
Proof. unfold as_i64, i64_min, i64_max, u64_max. intros. rewrite Z.mod_small; lia. Qed.

Lemma clamp_id lo hi z : lo <= z <= hi -> clamp lo hi z = z.
Proof. unfold clamp. lia. Qed.

Lemma as_u16_id z : is_u u16_max z -> as_u16 z = z.
Proof. unfold as_u16, is_u, u16_max. intros. rewrite Z.mod_small; lia. Qed.

(** ** Errors *)

Inductive SystemError :=
| AccountAlreadyInUse | ResultWithNegativeLamports | InvalidAccountDataLength
| AddressWithSeedMismatch | NonceNoRecentBlockhashes | NonceBlockhashNotExpired.

(** The constructors of [InstructionError] the sources name.  The errors of the
    system and the vote program are converted to [Custom] with their code; the
    model keeps the error itself. *)
Inductive InstructionError :=
| GenericError | InvalidArgument | InvalidInstructionData | InvalidAccountData
| AccountDataTooSmall | InsufficientFunds | MissingRequiredSignature
| AccountAlreadyInitialized | UninitializedAccount | UnbalancedInstruction
| ModifiedProgramId | ExternalAccountLamportSpend | ExternalAccountDataModified
| ReadonlyLamportChange | ReadonlyDataModified | ExecutableModified | MissingAccount
| AccountBorrowFailed | AccountBorrowOutstanding | CallDepth | ReentrancyNotAllowed
| PrivilegeEscalation | UnsupportedProgramId | UnsupportedSysvar | InvalidRealloc
| ComputationalBudgetExceeded | MaxAccountsDataAllocationsExceeded
| MaxInstructionTraceLengthExceeded | BuiltinProgramsMustConsumeComputeUnits
| ArithmeticOverflow | AccountNotRentExempt | ExecutableAccountNotRentExempt
| InvalidAccountOwner | ProgramFailedToComplete
| SystemErr (e : SystemError)
| VoteErr (e : VoteError)
| Custom (code : Z).

#[export] Instance SystemError_eq_dec : EqDecision SystemError.
Proof. solve_decision. Defined.
#[export] Instance VoteError_eq_dec : EqDecision VoteError.
Proof. solve_decision. Defined.
#[export] Instance InstructionError_eq_dec : EqDecision InstructionError.
Proof. solve_decision. Defined.

(** ** External functions *)

Class SvmInterface := {
  Rent : Type;
  minimum_balance : Rent -> Z -> Z;
  is_exempt : Rent -> Z -> Z -> bool;
  (** Address derivation; a [PubkeyError] is returned as its code. *)
  create_with_seed : Pubkey -> string -> Pubkey -> Pubkey + Z;
  create_program_address : list (list Z) -> Pubkey -> Pubkey + Z;
  (** [InstructionError::from] on the code of a [PubkeyError]. *)
  error_of_code : Z -> InstructionError;
  system_program_id : Pubkey;
  vote_program_id : Pubkey;
  native_loader_id : Pubkey;
  bpf_loader_deprecated_id : Pubkey;
  bpf_loader_id : Pubkey;
  bpf_loader_upgradeable_id : Pubkey;
  loader_v4_id : Pubkey;
  sysvar_id : Pubkey;
  instructions_sysvar_id : Pubkey;
  clock_sysvar_id : Pubkey;
  rent_sysvar_id : Pubkey;
  slot_hashes_sysvar_id : Pubkey;
  recent_blockhashes_sysvar_id : Pubkey;
  (** [instructions::store_current_index_checked] on the data of the instructions sysvar. *)
  store_current_index_checked : list Z -> Z -> outcome InstructionError (list Z);
}.

Class SvmLaws (SI : SvmInterface) : Prop := {
  (** A balance is exempt when it reaches the minimum for the size. *)
  is_exempt_spec r b n : is_exempt r b n = (minimum_balance r n <=? b);
  minimum_balance_u64 r n : 0 <= n -> is_u u64_max (minimum_balance r n);
  (** Storing the index overwrites bytes in place. *)
  store_index_length d i d' :
    store_current_index_checked d i = Ok d' -> length d' = length d;
}.

(** [bincode] for a type: what [serialize] writes, the size it announces, and what
    [deserialize] reads back. *)
Class Bincode (T : Type) := {
  serialized_size : T -> option Z;
  serialize : T -> option (list Z);
  deserialize : list Z -> option T;
}.

Class BincodeLaws (T : Type) {B : Bincode T} : Prop := {
  (** A value is written in as many bytes as announced. *)
  serialize_size x n : serialized_size x = Some n ->
    exists b, serialize x = Some b /\ Z.of_nat (length b) = n;
  (** [deserialize] reads the written value back and ignores the bytes after it. *)
  deserialize_serialize x b rest : serialize x = Some b -> deserialize (b ++ rest) = Some x;
}.

(** ** Combinators on a [&mut] state *)

Definition st_gets {S E A} (f : S -> A) : stm S E A := fun s => (Ok (f s), s).
(** [if b { return Err(e) }]. *)
Definition fail_if {S E} (b : bool) (e : E) : stm S E unit :=
  if b then st_err e else mret tt.
(** Runs [m] and then, however it ended, the destructor [d]. *)
Definition st_finally {S E A} (m : stm S E A) (d : S -> S) : stm S E A :=
  fun s => let (o, s') := m s in (o, d s').
(** The outcome of [m] as a value, for the callers that inspect it. *)
Definition st_try {S E A} (m : stm S E A) : stm S E (outcome E A) :=
  fun s => match m s with (Panic, s') => (Panic, s') | (o, s') => (Ok o, s') end.
(** Runs a computation on a part of the state. *)
Definition st_zoom {S T E A} (get : S -> T) (set : T -> S -> S) (m : stm T E A) : stm S E A :=
  fun s => let (o, t) := m (get s) in (o, set t s).
