(* ===== verification/TransactionAccounts.v ===== *)
(** * The accounts of a transaction

    Models [transaction-context/src/transaction_accounts.rs]: the accounts loaded
    for a transaction, kept as two parallel arrays (the fields shared with
    programs and the private ones), the borrow counters that stand for the
    references handed out, the touched flags, and the two running totals (bytes
    of data added, lamports created).  [UnsafeCell] and [Cell] contents are the
    fields of a state that every operation threads through. *)

From S2P Require Import Prelude SvmInterface.
Local Open Scope Z_scope.

(** An index of an account in a transaction or in an instruction ([u16]). *)
Abbreviation IndexOfAccount := nat (only parsing).

Definition MAX_ACCOUNTS_PER_TRANSACTION : nat := 256.
Definition MAX_ACCOUNT_DATA_LEN : Z := 10 * 1024 * 1024.
Definition MAX_ACCOUNT_DATA_GROWTH_PER_TRANSACTION : Z := MAX_ACCOUNT_DATA_LEN * 2.

Definition GUEST_REGION_SIZE : Z := Z.shiftl 1 32.
Definition RETURN_DATA_SCRATCHPAD : Z := 7 * GUEST_REGION_SIZE.
Definition GUEST_ACCOUNT_PAYLOAD_BASE_ADDRESS : Z := 8 * GUEST_REGION_SIZE.
Definition GUEST_INSTRUCTION_DATA_BASE_ADDRESS : Z := 264 * GUEST_REGION_SIZE.
Definition GUEST_INSTRUCTION_ACCOUNT_BASE_ADDRESS : Z := 328 * GUEST_REGION_SIZE.

(** ** State *)

Record VmSlice := mk_slice { ptr : Z; len : Z }.
Definition set_len (new_len : Z) (s : VmSlice) : VmSlice := mk_slice (ptr s) new_len.

Record AccountSharedFields := mk_shared {
  key : Pubkey;
  owner : Pubkey;
  lamports : Z;
  payload_slice : VmSlice;
}.

Record AccountPrivateFields := mk_private {
  rent_epoch : Epoch;
  executable : bool;
  payload : list Z;
}.

Definition payload_len (p : AccountPrivateFields) : nat := length (payload p).

Record TransactionAccounts := mk_accounts {
  shared_account_fields : list AccountSharedFields;
  private_account_fields : list AccountPrivateFields;
  borrow_counters : list Z;
  touched_flags : list bool;
  resize_delta : Z;
  lamports_delta : Z;
}.

#[export] Instance shared_inhabited : Inhabited AccountSharedFields :=
  populate (mk_shared 0 0 0 (mk_slice 0 0)).
#[export] Instance private_inhabited : Inhabited AccountPrivateFields :=
  populate (mk_private 0 false []).

#[export] Instance VmSlice_eq_dec : EqDecision VmSlice.
Proof. solve_decision. Defined.
#[export] Instance AccountSharedFields_eq_dec : EqDecision AccountSharedFields.
Proof. solve_decision. Defined.
#[export] Instance AccountPrivateFields_eq_dec : EqDecision AccountPrivateFields.
Proof. solve_decision. Defined.

(** An account as the accounts database hands it over. *)
Record AccountSharedData := mk_asd {
  asd_lamports : Z;
  asd_data : list Z;
  asd_owner : Pubkey;
  asd_executable : bool;
  asd_rent_epoch : Epoch;
}.

Abbreviation TA := (stm TransactionAccounts InstructionError).

Definition with_shared (f : list AccountSharedFields -> list AccountSharedFields)
    (s : TransactionAccounts) : TransactionAccounts :=
  mk_accounts (f (shared_account_fields s)) (private_account_fields s) (borrow_counters s)
    (touched_flags s) (resize_delta s) (lamports_delta s).
Definition with_private (f : list AccountPrivateFields -> list AccountPrivateFields)
    (s : TransactionAccounts) : TransactionAccounts :=
  mk_accounts (shared_account_fields s) (f (private_account_fields s)) (borrow_counters s)
    (touched_flags s) (resize_delta s) (lamports_delta s).
Definition with_counters (f : list Z -> list Z) (s : TransactionAccounts) :
    TransactionAccounts :=
  mk_accounts (shared_account_fields s) (private_account_fields s) (f (borrow_counters s))
    (touched_flags s) (resize_delta s) (lamports_delta s).
Definition with_touched (f : list bool -> list bool) (s : TransactionAccounts) :
    TransactionAccounts :=
  mk_accounts (shared_account_fields s) (private_account_fields s) (borrow_counters s)
    (f (touched_flags s)) (resize_delta s) (lamports_delta s).
Definition with_resize_delta (z : Z) (s : TransactionAccounts) : TransactionAccounts :=
  mk_accounts (shared_account_fields s) (private_account_fields s) (borrow_counters s)
    (touched_flags s) z (lamports_delta s).
Definition with_lamports_delta (z : Z) (s : TransactionAccounts) : TransactionAccounts :=
  mk_accounts (shared_account_fields s) (private_account_fields s) (borrow_counters s)
    (touched_flags s) (resize_delta s) z.

(** ** Borrow counters

    Negative while the account is borrowed mutably, the number of shared
    borrows otherwise. *)

Definition is_writing (counter : Z) : bool := counter <? 0.
Definition is_reading (counter : Z) : bool := 0 <? counter.

Definition counter_try_borrow (counter : Z) : option Z :=
  if is_writing counter then None
  else if counter + 1 <=? i8_max then Some (counter + 1) else None.
Definition counter_try_borrow_mut (counter : Z) : option Z :=
  if is_writing counter || is_reading counter then None
  else Some (clamp i8_min i8_max (counter - 1)).
Definition release_borrow (counter : Z) : Z := clamp i8_min i8_max (counter - 1).
Definition release_borrow_mut (counter : Z) : Z := clamp i8_min i8_max (counter + 1).

(** ** Operations on the accounts *)

Definition new_shared (idx : nat) (item : Pubkey * AccountSharedData) : AccountSharedFields :=
  mk_shared item.1 (asd_owner item.2) (asd_lamports item.2)
    (mk_slice
      (saturating_add u64_max GUEST_ACCOUNT_PAYLOAD_BASE_ADDRESS
        (saturating_mul u64_max GUEST_REGION_SIZE (Z.of_nat idx)))
      (Z.of_nat (length (asd_data item.2)))).
Definition new_private (item : Pubkey * AccountSharedData) : AccountPrivateFields :=
  mk_private (asd_rent_epoch item.2) (asd_executable item.2) (asd_data item.2).

Definition accounts_new (accounts : list (Pubkey * AccountSharedData)) : TransactionAccounts :=
  mk_accounts (imap new_shared accounts) (new_private <$> accounts)
    (replicate (length accounts) 0) (replicate (length accounts) false) 0 0.

Definition accounts_len (s : TransactionAccounts) : nat := length (shared_account_fields s).

Definition touch (index : IndexOfAccount) : TA unit := fun s =>
  match touched_flags s !! index with
  | None => (Err MissingAccount, s)
  | Some _ => (Ok tt, with_touched <[index := true]> s)
  end.

Definition i64_saturating_add (a b : Z) : Z := clamp i64_min i64_max (a + b).
Definition i64_saturating_sub (a b : Z) : Z := clamp i64_min i64_max (a - b).

Definition update_accounts_resize_delta (old_len new_len : nat) : TA unit := fun s =>
  (Ok tt, with_resize_delta
    (i64_saturating_add (resize_delta s)
      (i64_saturating_sub (as_i64 (Z.of_nat new_len)) (as_i64 (Z.of_nat old_len)))) s).

Definition accounts_can_data_be_resized (old_len new_len : nat) : TA unit := fun s =>
  if MAX_ACCOUNT_DATA_LEN <? Z.of_nat new_len then (Err InvalidRealloc, s)
  else
    let length_delta :=
      i64_saturating_sub (as_i64 (Z.of_nat new_len)) (as_i64 (Z.of_nat old_len)) in
    if MAX_ACCOUNT_DATA_GROWTH_PER_TRANSACTION <?
       i64_saturating_add (resize_delta s) length_delta
    then (Err MaxAccountsDataAllocationsExceeded, s)
    else (Ok tt, s).

(** Takes the mutable reference of an account: the counter records it, and the
    account is then named by its index. *)
Definition try_borrow_mut (index : IndexOfAccount) : TA unit := fun s =>
  match borrow_counters s !! index with
  | None => (Err MissingAccount, s)
  | Some c =>
    match counter_try_borrow_mut c with
    | None => (Err AccountBorrowFailed, s)
    | Some c' => (Ok tt, with_counters <[index := c']> s)
    end
  end.

Definition try_borrow (index : IndexOfAccount) : TA unit := fun s =>
  match borrow_counters s !! index with
  | None => (Err MissingAccount, s)
  | Some c =>
    match counter_try_borrow c with
    | None => (Err AccountBorrowFailed, s)
    | Some c' => (Ok tt, with_counters <[index := c']> s)
    end
  end.

(** The destructors of [AccountRef] and [AccountRefMut]. *)
Definition drop_ref (index : IndexOfAccount) (s : TransactionAccounts) : TransactionAccounts :=
  with_counters (alter release_borrow index) s.
Definition drop_ref_mut (index : IndexOfAccount) (s : TransactionAccounts) :
    TransactionAccounts :=
  let n := payload_len (private_account_fields s !!! index) in
  with_counters (alter release_borrow_mut index)
    (with_shared (alter (fun a => mk_shared (key a) (owner a) (lamports a)
       (set_len (Z.of_nat n) (payload_slice a))) index) s).

Definition add_lamports_delta (balance : Z) : TA unit := fun s =>
  match checked_add_i128 (lamports_delta s) balance with
  | None => (Err ArithmeticOverflow, s)
  | Some delta => (Ok tt, with_lamports_delta delta s)
  end.

Definition account_key (index : IndexOfAccount) (s : TransactionAccounts) : option Pubkey :=
  key <$> shared_account_fields s !! index.

Definition find_index_of_account (pubkey : Pubkey) (s : TransactionAccounts) :
    option IndexOfAccount :=
  fst <$> list_find (fun a => key a = pubkey) (shared_account_fields s).

Definition deconstruct_into_keyed_account_shared_data (s : TransactionAccounts) :
    list (Pubkey * AccountSharedData) :=
  zip_with (fun sh pr =>
    (key sh, mk_asd (lamports sh) (payload pr) (owner sh) (executable pr) (rent_epoch pr)))
    (shared_account_fields s) (private_account_fields s).

(** ** Writes to one account ([TransactionAccountViewMut]) *)

Definition view_set_lamports (index : nat) (x : Z) : TransactionAccounts -> TransactionAccounts :=
  with_shared (alter (fun a => mk_shared (key a) (owner a) x (payload_slice a)) index).
Definition view_set_owner (index : nat) (x : Pubkey) :
    TransactionAccounts -> TransactionAccounts :=
  with_shared (alter (fun a => mk_shared (key a) x (lamports a) (payload_slice a)) index).
Definition view_set_executable (index : nat) (x : bool) :
    TransactionAccounts -> TransactionAccounts :=
  with_private (alter (fun p => mk_private (rent_epoch p) x (payload p)) index).
(** Writes through [data_as_mut_slice]: the slice keeps its length. *)
Definition view_write_data (index : nat) (data : list Z) :
    TransactionAccounts -> TransactionAccounts :=
  with_private (alter (fun p => mk_private (rent_epoch p) (executable p) data) index).
(** The three ways the data is replaced together with the length programs see. *)
Definition view_set_data_from_slice (index : nat) (new_data : list Z)
    (s : TransactionAccounts) : TransactionAccounts :=
  with_shared (alter (fun a => mk_shared (key a) (owner a) (lamports a)
      (set_len (Z.of_nat (length new_data)) (payload_slice a))) index)
    (view_write_data index new_data s).
Definition view_resize (index : nat) (new_len : nat) (s : TransactionAccounts) :
    TransactionAccounts :=
  view_set_data_from_slice index
    (resize new_len 0 (payload (private_account_fields s !!! index))) s.
Definition view_extend_from_slice (index : nat) (data : list Z) (s : TransactionAccounts) :
    TransactionAccounts :=
  view_set_data_from_slice index (payload (private_account_fields s !!! index) ++ data) s.
