(* ===== verification/InstructionAccounts.v ===== *)
(** * The accounts of an instruction

    Models [transaction-context/src/instruction_accounts.rs]: the account
    metadata of an instruction and [BorrowedInstructionAccount], the only way a
    built-in program reads and writes an account, with the checks that decide
    what a program may change.  The reference a borrowed account holds is the
    index of its account in [TransactionAccounts]. *)

From S2P Require Import Prelude SvmInterface TransactionAccounts.
Local Open Scope Z_scope.

Section InstructionAccounts.
Context {SI : SvmInterface}.

Record InstructionAccount := mk_ia {
  index_in_transaction : IndexOfAccount;
  is_signer_ : Z;
  is_writable_ : Z;
}.

Definition u8_of_bool (b : bool) : Z := if b then 1 else 0.
Definition ia_new (index_in_transaction : IndexOfAccount) (is_signer is_writable : bool) :
    InstructionAccount :=
  mk_ia index_in_transaction (u8_of_bool is_signer) (u8_of_bool is_writable).
Definition ia_is_signer (ia : InstructionAccount) : bool := negb (is_signer_ ia =? 0).
Definition ia_is_writable (ia : InstructionAccount) : bool := negb (is_writable_ ia =? 0).
Definition set_is_signer (value : bool) (ia : InstructionAccount) : InstructionAccount :=
  mk_ia (index_in_transaction ia) (u8_of_bool value) (is_writable_ ia).
Definition set_is_writable (value : bool) (ia : InstructionAccount) : InstructionAccount :=
  mk_ia (index_in_transaction ia) (is_signer_ ia) (u8_of_bool value).

(** [rent] is the only field of the transaction's constant part that a borrowed
    account reads. *)
Record BorrowedInstructionAccount := mk_borrowed {
  rent : Rent;
  instruction_account : InstructionAccount;
  index_in_transaction_of_instruction_program : IndexOfAccount;
}.

Implicit Types (b : BorrowedInstructionAccount) (s : TransactionAccounts).

Definition get_index_in_transaction b : IndexOfAccount :=
  index_in_transaction (instruction_account b).

Definition get_key_of_account_at_index (index : IndexOfAccount) s :
    outcome InstructionError Pubkey :=
  ok_or MissingAccount (account_key index s).

(** [get_key] unwraps: a borrowed account is an account of the transaction. *)
Definition get_key b s : Pubkey :=
  key (shared_account_fields s !!! get_index_in_transaction b).
Definition get_owner b s : Pubkey :=
  owner (shared_account_fields s !!! get_index_in_transaction b).
Definition get_lamports b s : Z :=
  lamports (shared_account_fields s !!! get_index_in_transaction b).
Definition get_data b s : list Z :=
  payload (private_account_fields s !!! get_index_in_transaction b).
Definition is_executable b s : bool :=
  executable (private_account_fields s !!! get_index_in_transaction b).
Definition get_rent_epoch b s : Epoch :=
  rent_epoch (private_account_fields s !!! get_index_in_transaction b).
Definition is_signer b : bool := ia_is_signer (instruction_account b).
Definition is_writable b : bool := ia_is_writable (instruction_account b).

Definition is_owned_by_current_program b s : bool :=
  match get_key_of_account_at_index (index_in_transaction_of_instruction_program b) s with
  | Ok program_key => program_key =? get_owner b s
  | _ => false
  end.

Definition is_rent_exempt_at_data_length b (data_length : Z) s : bool :=
  is_exempt (rent b) (get_lamports b s) data_length.

Definition borrowed_touch b : TA unit := touch (get_index_in_transaction b).

Definition borrowed_update_resize_delta b (new_len : nat) : TA unit := fun s =>
  update_accounts_resize_delta (length (get_data b s)) new_len s.

Definition can_data_be_changed b : TA unit := fun s =>
  if negb (is_writable b) then (Err ReadonlyDataModified, s)
  else if negb (is_owned_by_current_program b s) then (Err ExternalAccountDataModified, s)
  else (Ok tt, s).

Definition can_data_be_resized b (new_len : nat) : TA unit := fun s =>
  (accounts_can_data_be_resized (length (get_data b s)) new_len ;;
   can_data_be_changed b) s.

(** The data is compared to zeros in chunks of 1024 bytes and a remainder. *)
Definition ZEROS_LEN : nat := 1024.
Fixpoint zero_chunks (fuel : nat) (buf : list Z) : bool :=
  match fuel with
  | O => forallb (Z.eqb 0) buf
  | S fuel =>
    if (length buf <? ZEROS_LEN)%nat then forallb (Z.eqb 0) buf
    else forallb (Z.eqb 0) (take ZEROS_LEN buf) && zero_chunks fuel (drop ZEROS_LEN buf)
  end.
Definition is_zeroed (buf : list Z) : bool := zero_chunks (length buf) buf.

Definition set_owner b (pubkey : Pubkey) : TA unit := fun s =>
  if negb (is_owned_by_current_program b s) then (Err ModifiedProgramId, s)
  else if negb (is_writable b) then (Err ModifiedProgramId, s)
  else if negb (is_zeroed (get_data b s)) then (Err ModifiedProgramId, s)
  else if get_owner b s =? pubkey then (Ok tt, s)
  else (borrowed_touch b ;; st_modify (view_set_owner (get_index_in_transaction b) pubkey)) s.

Definition set_lamports b (x : Z) : TA unit := fun s =>
  if negb (is_owned_by_current_program b s) && (x <? get_lamports b s)
  then (Err ExternalAccountLamportSpend, s)
  else if negb (is_writable b) then (Err ReadonlyLamportChange, s)
  else
    let old_lamports := get_lamports b s in
    if old_lamports =? x then (Ok tt, s)
    else
      let lamports_balance := clamp i128_min i128_max (x - old_lamports) in
      (add_lamports_delta lamports_balance ;; borrowed_touch b ;;
       st_modify (view_set_lamports (get_index_in_transaction b) x)) s.

Definition checked_add_lamports b (x : Z) : TA unit := fun s =>
  match checked_add u64_max (get_lamports b s) x with
  | None => (Err ArithmeticOverflow, s)
  | Some y => set_lamports b y s
  end.

Definition checked_sub_lamports b (x : Z) : TA unit := fun s =>
  match checked_sub (get_lamports b s) x with
  | None => (Err ArithmeticOverflow, s)
  | Some y => set_lamports b y s
  end.

(** [get_data_mut] hands out the data as a mutable slice, through which the caller
    then changes bytes ([view_write_data]). *)
Definition get_data_mut b : TA unit := can_data_be_changed b ;; borrowed_touch b.

Definition set_data_from_slice b (data : list Z) : TA unit :=
  can_data_be_resized b (length data) ;;
  borrowed_touch b ;;
  borrowed_update_resize_delta b (length data) ;;
  st_modify (view_set_data_from_slice (get_index_in_transaction b) data).

Definition set_data_length b (new_length : nat) : TA unit :=
  can_data_be_resized b new_length ;;
  data ← st_gets (get_data b);
  if (length data =? new_length)%nat then mret tt
  else
    borrowed_touch b ;;
    borrowed_update_resize_delta b new_length ;;
    st_modify (view_resize (get_index_in_transaction b) new_length).

Definition extend_from_slice b (data : list Z) : TA unit :=
  old ← st_gets (get_data b);
  let new_len := (length old + length data)%nat in
  can_data_be_resized b new_len ;;
  if (length data =? 0)%nat then mret tt
  else
    borrowed_touch b ;;
    borrowed_update_resize_delta b new_len ;;
    st_modify (view_extend_from_slice (get_index_in_transaction b) data).

Definition set_executable b (x : bool) : TA unit := fun s =>
  if negb (is_exempt (rent b) (get_lamports b s) (Z.of_nat (length (get_data b s))))
  then (Err ExecutableAccountNotRentExempt, s)
  else if negb (is_owned_by_current_program b s) then (Err ExecutableModified, s)
  else if negb (is_writable b) then (Err ExecutableModified, s)
  else if Bool.eqb (is_executable b s) x then (Ok tt, s)
  else (borrowed_touch b ;;
        st_modify (view_set_executable (get_index_in_transaction b) x)) s.

(** ** Typed state in the account data *)

Definition get_state {T} `{!Bincode T} b : TA T := fun s =>
  (ok_or InvalidAccountData (deserialize (get_data b s)), s).

(** Writing to a slice overwrites its first bytes; what does not fit is lost. *)
Definition overwrite (bytes data : list Z) : list Z :=
  take (length data) bytes ++ drop (length bytes) data.

(** [serialize_into] fails after the write when the bytes do not fit. *)
Definition set_state {T} `{!Bincode T} b (state : T) : TA unit :=
  get_data_mut b ;;
  data ← st_gets (get_data b);
  size ← st_lift (ok_or GenericError (serialized_size state));
  fail_if (Z.of_nat (length data) <? size) AccountDataTooSmall ;;
  bytes ← st_lift (ok_or GenericError (serialize state));
  st_modify (view_write_data (get_index_in_transaction b) (overwrite bytes data)) ;;
  fail_if (length data <? length bytes)%nat GenericError.
End InstructionAccounts.
