(* ===== verification/TransactionContext.v ===== *)
(** * The transaction context

    Models [transaction-context/src/transaction.rs] and
    [transaction-context/src/instruction.rs]: the instruction trace and stack of a
    transaction, the view of one instruction ([InstructionContext]), and the
    [push]/[pop] pair that brackets the execution of an instruction and checks
    that it neither creates nor destroys lamports. *)

From S2P Require Import Prelude SvmInterface TransactionAccounts InstructionAccounts.
Local Open Scope Z_scope.

Section TransactionContext.
Context {SI : SvmInterface}.

(** ** State *)

Record InstructionFrame := mk_frame {
  program_account_index_in_tx : Z;
  nesting_level : Z;
  index_of_caller_instruction : Z;
  instruction_accounts_slice : VmSlice;
  instruction_data_slice : VmSlice;
}.

Definition frame_default : InstructionFrame :=
  mk_frame 0 0 u16_max (mk_slice 0 0) (mk_slice 0 0).

Definition configure_vm_slices (instruction_index : Z) (instruction_accounts_len : nat)
    (instruction_data_len : Z) (f : InstructionFrame) : InstructionFrame :=
  let common_offset := saturating_mul u64_max GUEST_REGION_SIZE instruction_index in
  mk_frame (program_account_index_in_tx f) (nesting_level f) (index_of_caller_instruction f)
    (mk_slice (saturating_add u64_max GUEST_INSTRUCTION_ACCOUNT_BASE_ADDRESS common_offset)
      (Z.of_nat instruction_accounts_len))
    (mk_slice (saturating_add u64_max GUEST_INSTRUCTION_DATA_BASE_ADDRESS common_offset)
      instruction_data_len).

Record TransactionFrame := mk_txframe {
  return_data_pubkey : Pubkey;
  return_data_scratchpad : VmSlice;
  cpi_data_scratchpad : VmSlice;
  cpi_accounts_scratchpad : VmSlice;
  current_executing_instruction : Z;
  total_number_of_instructions_in_trace : Z;
  number_of_cpis_in_trace : Z;
  number_of_transaction_accounts : Z;
}.

Record TransactionContext := mk_tx {
  accounts : TransactionAccounts;
  instruction_stack_capacity : nat;
  instruction_trace_capacity : nat;
  instruction_stack : list nat;
  instruction_trace : list InstructionFrame;
  transaction_frame : TransactionFrame;
  return_data_bytes : list Z;
  next_top_level_instruction_index : nat;
  tx_rent : Rent;
  deduplication_maps : list (list Z);
  tx_instruction_accounts : list (list InstructionAccount);
  tx_instruction_data : list (list Z);
}.

Abbreviation TX := (stm TransactionContext InstructionError).
Implicit Types t : TransactionContext.

Definition with_accounts (a : TransactionAccounts) t : TransactionContext :=
  mk_tx a (instruction_stack_capacity t) (instruction_trace_capacity t) (instruction_stack t)
    (instruction_trace t) (transaction_frame t) (return_data_bytes t)
    (next_top_level_instruction_index t) (tx_rent t) (deduplication_maps t)
    (tx_instruction_accounts t) (tx_instruction_data t).
Definition with_stack (l : list nat) t : TransactionContext :=
  mk_tx (accounts t) (instruction_stack_capacity t) (instruction_trace_capacity t) l
    (instruction_trace t) (transaction_frame t) (return_data_bytes t)
    (next_top_level_instruction_index t) (tx_rent t) (deduplication_maps t)
    (tx_instruction_accounts t) (tx_instruction_data t).
Definition with_trace (l : list InstructionFrame) t : TransactionContext :=
  mk_tx (accounts t) (instruction_stack_capacity t) (instruction_trace_capacity t)
    (instruction_stack t) l (transaction_frame t) (return_data_bytes t)
    (next_top_level_instruction_index t) (tx_rent t) (deduplication_maps t)
    (tx_instruction_accounts t) (tx_instruction_data t).
Definition with_frame (f : TransactionFrame) t : TransactionContext :=
  mk_tx (accounts t) (instruction_stack_capacity t) (instruction_trace_capacity t)
    (instruction_stack t) (instruction_trace t) f (return_data_bytes t)
    (next_top_level_instruction_index t) (tx_rent t) (deduplication_maps t)
    (tx_instruction_accounts t) (tx_instruction_data t).
Definition with_next_top_level (n : nat) t : TransactionContext :=
  mk_tx (accounts t) (instruction_stack_capacity t) (instruction_trace_capacity t)
    (instruction_stack t) (instruction_trace t) (transaction_frame t) (return_data_bytes t) n
    (tx_rent t) (deduplication_maps t) (tx_instruction_accounts t) (tx_instruction_data t).
Definition with_return_data (l : list Z) t : TransactionContext :=
  mk_tx (accounts t) (instruction_stack_capacity t) (instruction_trace_capacity t)
    (instruction_stack t) (instruction_trace t) (transaction_frame t) l
    (next_top_level_instruction_index t) (tx_rent t) (deduplication_maps t)
    (tx_instruction_accounts t) (tx_instruction_data t).
(** Appends the configuration of one instruction to the three tables. *)
Definition push_configuration (dedup : list Z) (ias : list InstructionAccount) (data : list Z)
    t : TransactionContext :=
  mk_tx (accounts t) (instruction_stack_capacity t) (instruction_trace_capacity t)
    (instruction_stack t) (instruction_trace t) (transaction_frame t) (return_data_bytes t)
    (next_top_level_instruction_index t) (tx_rent t) (deduplication_maps t ++ [dedup])
    (tx_instruction_accounts t ++ [ias]) (tx_instruction_data t ++ [data]).

Definition frame_set_current (i : Z) (f : TransactionFrame) : TransactionFrame :=
  mk_txframe (return_data_pubkey f) (return_data_scratchpad f) (cpi_data_scratchpad f)
    (cpi_accounts_scratchpad f) i (total_number_of_instructions_in_trace f)
    (number_of_cpis_in_trace f) (number_of_transaction_accounts f).
Definition frame_set_cpis (n : Z) (f : TransactionFrame) : TransactionFrame :=
  mk_txframe (return_data_pubkey f) (return_data_scratchpad f) (cpi_data_scratchpad f)
    (cpi_accounts_scratchpad f) (current_executing_instruction f)
    (total_number_of_instructions_in_trace f) n (number_of_transaction_accounts f).

(** ** Construction *)

Definition context_new (transaction_accounts : list (Pubkey * AccountSharedData)) (rent : Rent)
    (stack_capacity trace_capacity number_of_top_level_instructions : nat) :
    TransactionContext :=
  let n := Z.of_nat number_of_top_level_instructions in
  let offset := saturating_mul u64_max GUEST_REGION_SIZE n in
  mk_tx (accounts_new transaction_accounts) stack_capacity trace_capacity []
    (replicate (S number_of_top_level_instructions) frame_default)
    (mk_txframe 0 (mk_slice RETURN_DATA_SCRATCHPAD 0)
      (mk_slice (saturating_add u64_max GUEST_INSTRUCTION_DATA_BASE_ADDRESS offset) 0)
      (mk_slice (saturating_add u64_max GUEST_INSTRUCTION_ACCOUNT_BASE_ADDRESS offset) 0)
      0 (as_u16 n) 0 (as_u16 (Z.of_nat (length transaction_accounts))))
    [] 0 rent [] [] [].

Definition get_number_of_accounts t : nat := accounts_len (accounts t).
Definition get_instruction_trace_length t : nat := length (instruction_trace t) - 1.
Definition get_instruction_stack_height t : nat := length (instruction_stack t).
Definition number_of_called_instructions_in_trace t : Z :=
  saturating_add u64_max (Z.of_nat (next_top_level_instruction_index t))
    (number_of_cpis_in_trace (transaction_frame t)).

(** ** The view of one instruction *)

Record InstructionContext := mk_ix {
  ix_rent : Rent;
  index_in_trace : nat;
  ix_nesting_level : Z;
  ix_index_of_caller_instruction : Z;
  ix_program_account_index_in_tx : Z;
  instruction_accounts : list InstructionAccount;
  dedup_map : list Z;
  instruction_data : list Z;
}.
Implicit Types ix : InstructionContext.

Definition get_instruction_context_at_index_in_trace (i : nat) t :
    outcome InstructionError InstructionContext :=
  instruction ← ok_or CallDepth (instruction_trace t !! i);
  mret (mk_ix (tx_rent t) i (nesting_level instruction)
    (index_of_caller_instruction instruction) (program_account_index_in_tx instruction)
    (default [] (tx_instruction_accounts t !! i))
    (default [] (deduplication_maps t !! i))
    (default [] (tx_instruction_data t !! i))).

Definition get_instruction_context_at_nesting_level (level : nat) t :
    outcome InstructionError InstructionContext :=
  i ← ok_or CallDepth (instruction_stack t !! level);
  get_instruction_context_at_index_in_trace i t.

Definition get_current_instruction_index t : outcome InstructionError nat :=
  ok_or CallDepth (last (instruction_stack t)).

Definition get_current_instruction_context t : outcome InstructionError InstructionContext :=
  i ← get_current_instruction_index t;
  get_instruction_context_at_index_in_trace i t.

Definition get_next_instruction_context t : outcome InstructionError InstructionContext :=
  i ← match instruction_stack t with
      | [] => Ok (next_top_level_instruction_index t)
      | _ => match length (instruction_trace t) with
             | O => Err CallDepth
             | S n => Ok n
             end
      end;
  get_instruction_context_at_index_in_trace i t.

Definition get_number_of_instruction_accounts ix : Z :=
  as_u16 (Z.of_nat (length (instruction_accounts ix))).

Definition check_number_of_instruction_accounts ix (expected_at_least : Z) :
    outcome InstructionError unit :=
  if get_number_of_instruction_accounts ix <? expected_at_least
  then Err MissingAccount else Ok tt.

Definition get_index_of_program_account_in_transaction ix : outcome InstructionError nat :=
  if ix_program_account_index_in_tx ix =? u16_max then Err MissingAccount
  else Ok (Z.to_nat (ix_program_account_index_in_tx ix)).

Definition get_index_of_instruction_account_in_transaction ix (i : IndexOfAccount) :
    outcome InstructionError IndexOfAccount :=
  ia ← ok_or MissingAccount (instruction_accounts ix !! i);
  mret (index_in_transaction ia).

Definition get_index_of_account_in_instruction ix (i : IndexOfAccount) :
    outcome InstructionError IndexOfAccount :=
  ok_or MissingAccount
    (idx ← dedup_map ix !! i;
     if Z.of_nat (length (instruction_accounts ix)) <=? idx then None else Some (Z.to_nat idx)).

Definition is_instruction_account_duplicate ix (i : IndexOfAccount) :
    outcome InstructionError (option IndexOfAccount) :=
  tx_index ← get_index_of_instruction_account_in_transaction ix i;
  first ← get_index_of_account_in_instruction ix tx_index;
  mret (if (first =? i)%nat then None else Some first).

Definition is_instruction_account_signer ix (i : IndexOfAccount) :
    outcome InstructionError bool :=
  ia ← ok_or MissingAccount (instruction_accounts ix !! i); mret (ia_is_signer ia).
Definition is_instruction_account_writable ix (i : IndexOfAccount) :
    outcome InstructionError bool :=
  ia ← ok_or MissingAccount (instruction_accounts ix !! i); mret (ia_is_writable ia).

(** The rest of the view reads or borrows the accounts of the transaction. *)

Definition get_program_key ix (s : TransactionAccounts) : outcome InstructionError Pubkey :=
  i ← get_index_of_program_account_in_transaction ix;
  get_key_of_account_at_index i s.

Definition get_key_of_instruction_account ix (i : IndexOfAccount) (s : TransactionAccounts) :
    outcome InstructionError Pubkey :=
  idx ← get_index_of_instruction_account_in_transaction ix i;
  get_key_of_account_at_index idx s.

(** The reference [try_borrow] returns is dropped once the owner is copied. *)
Definition get_program_owner ix : TA Pubkey :=
  i ← st_lift (get_index_of_program_account_in_transaction ix);
  try_borrow i ;;
  o ← st_gets (fun s => owner (shared_account_fields s !!! i));
  st_modify (drop_ref i) ;;
  mret o.

Fixpoint collect_signers (ias : list InstructionAccount) (s : TransactionAccounts)
    (result : gset Pubkey) : outcome InstructionError (gset Pubkey) :=
  match ias with
  | [] => Ok result
  | ia :: ias =>
    if ia_is_signer ia then
      k ← get_key_of_account_at_index (index_in_transaction ia) s;
      collect_signers ias s ({[k]} ∪ result)
    else collect_signers ias s result
  end.
Definition get_signers ix (s : TransactionAccounts) : outcome InstructionError (gset Pubkey) :=
  collect_signers (instruction_accounts ix) s ∅.

Definition try_borrow_instruction_account ix (i : IndexOfAccount) :
    TA BorrowedInstructionAccount :=
  ia ← st_lift (ok_or MissingAccount (instruction_accounts ix !! i));
  try_borrow_mut (index_in_transaction ia) ;;
  mret (mk_borrowed (ix_rent ix) ia (Z.to_nat (ix_program_account_index_in_tx ix))).

Definition drop_borrowed (b : BorrowedInstructionAccount) :
    TransactionAccounts -> TransactionAccounts :=
  drop_ref_mut (get_index_in_transaction b).

(** Borrows an instruction account for the scope [f]; the reference is dropped
    at the end of the scope on every exit. *)
Definition with_account {A} ix (i : IndexOfAccount) (f : BorrowedInstructionAccount -> TA A) :
    TA A :=
  b ← try_borrow_instruction_account ix i;
  st_finally (f b) (drop_borrowed b).

(** ** The trace and the stack *)

Definition configure_instruction_at_index (instruction_index : nat) (program_index : Z)
    (ias : list InstructionAccount) (deduplication_map : list Z) (data : list Z)
    (caller_index : option Z) : TX unit := fun t =>
  match instruction_trace t !! instruction_index with
  | None => (Err MaxInstructionTraceLengthExceeded, t)
  | Some instruction =>
    let f := transaction_frame t in
    let '(instruction, f) :=
      match caller_index with
      | Some caller_index =>
        (mk_frame (program_account_index_in_tx instruction) (nesting_level instruction)
           caller_index (instruction_accounts_slice instruction)
           (instruction_data_slice instruction),
         mk_txframe (return_data_pubkey f) (return_data_scratchpad f)
           (mk_slice (saturating_add u64_max (ptr (cpi_data_scratchpad f)) GUEST_REGION_SIZE) 0)
           (mk_slice (saturating_add u64_max (ptr (cpi_accounts_scratchpad f))
              GUEST_REGION_SIZE) 0)
           (current_executing_instruction f)
           (saturating_add u16_max (total_number_of_instructions_in_trace f) 1)
           (number_of_cpis_in_trace f) (number_of_transaction_accounts f))
      | None => (instruction, f)
      end in
    let instruction :=
      configure_vm_slices (Z.of_nat instruction_index) (length ias) (Z.of_nat (length data))
        (mk_frame program_index (nesting_level instruction)
           (index_of_caller_instruction instruction)
           (instruction_accounts_slice instruction) (instruction_data_slice instruction)) in
    (Ok tt, push_configuration deduplication_map ias data
      (with_frame f (with_trace (<[instruction_index := instruction]> (instruction_trace t)) t)))
  end.

(** Stores the index of the top-level instruction in the instructions sysvar, when
    the transaction loads that account. *)
Definition store_current_instruction (current_top_level_instruction : Z) : TA unit := fun s =>
  match find_index_of_account instructions_sysvar_id s with
  | None => (Ok tt, s)
  | Some i =>
    (try_borrow_mut i ;;
     st_finally
       (o ← st_gets (fun s => owner (shared_account_fields s !!! i));
        fail_if (negb (o =? sysvar_id)) InvalidAccountOwner ;;
        data ← st_gets (fun s => payload (private_account_fields s !!! i));
        data' ← st_lift (store_current_index_checked data (as_u16 current_top_level_instruction));
        st_modify (view_write_data i data'))
       (drop_ref_mut i)) s
  end.

Definition set_nesting_level (level : Z) (f : InstructionFrame) : InstructionFrame :=
  mk_frame (program_account_index_in_tx f) level (index_of_caller_instruction f)
    (instruction_accounts_slice f) (instruction_data_slice f).

Definition on_accounts {A} (m : TA A) : TX A := st_zoom accounts with_accounts m.

(** The index of the instruction about to run and of its top-level instruction;
    a cross-program invocation reserves the next frame of the trace. *)
Definition enter_trace : TX (nat * nat) := fun t =>
  match instruction_stack t with
  | [] =>
    let index := next_top_level_instruction_index t in
    (Ok (index, index), with_next_top_level (S index) t)
  | _ =>
    let index := get_instruction_trace_length t in
    let f := transaction_frame t in
    (Ok (index, next_top_level_instruction_index t - 1)%nat,
     with_trace (instruction_trace t ++ [frame_default])
       (with_frame (frame_set_cpis (saturating_add u16_max (number_of_cpis_in_trace f) 1) f) t))
  end.

Definition enter_stack (level : nat) (p : nat * nat) : TX unit := fun t =>
  if (instruction_stack_capacity t <=? level)%nat then (Err CallDepth, t)
  else
    let t := with_frame
      (frame_set_current (as_u16 (Z.of_nat p.1)) (transaction_frame t)) t in
    on_accounts (store_current_instruction (Z.of_nat p.2))
      (with_stack (instruction_stack t ++ [p.1]) t).

Definition context_push : TX unit := fun t =>
  let level := get_instruction_stack_height t in
  if negb (level =? 0)%nat && negb (lamports_delta (accounts t) =? 0)
  then (Err UnbalancedInstruction, t)
  else
    match length (instruction_trace t) with
    | O => (Err CallDepth, t)
    | S placeholder =>
      let t := with_trace
        (alter (set_nesting_level (as_u16 (Z.of_nat level))) placeholder (instruction_trace t)) t in
      if Z.of_nat (instruction_trace_capacity t) <=? number_of_called_instructions_in_trace t
      then (Err MaxInstructionTraceLengthExceeded, t)
      else
        (enter_trace ≫= enter_stack level) t
    end.

(** Whether the instruction left the sum of the lamports changed; the program
    account must not be borrowed any more. *)
Definition detect_unbalanced : TX bool := fun t =>
  match get_current_instruction_context t with
  | Ok ix =>
    match get_index_of_program_account_in_transaction ix with
    | Ok i =>
      match on_accounts (try_borrow_mut i) t with
      | (Ok _, t) =>
        let t := with_accounts (drop_ref_mut i (accounts t)) t in
        (Ok (negb (lamports_delta (accounts t) =? 0)), t)
      | (Err e, t) =>
        (Err (if decide (e = AccountBorrowFailed) then AccountBorrowOutstanding else e), t)
      | (Panic, t) => (Panic, t)
      end
    | Err e => (Err e, t)
    | Panic => (Panic, t)
    end
  | Err e => (Err e, t)
  | Panic => (Panic, t)
  end.

Definition context_pop : TX unit := fun t =>
  match instruction_stack t with
  | [] => (Err CallDepth, t)
  | stack =>
    let (detected, t) := detect_unbalanced t in
    let stack := take (length stack - 1) stack in
    let t := with_stack stack t in
    let t := match last stack with
             | Some i => with_frame (frame_set_current (as_u16 (Z.of_nat i))
                           (transaction_frame t)) t
             | None => t
             end in
    match detected with
    | Ok true => (Err UnbalancedInstruction, t)
    | Ok false => (Ok tt, t)
    | Err e => (Err e, t)
    | Panic => (Panic, t)
    end
  end.

Definition set_return_data (program_id : Pubkey) (data : list Z) : TX unit := fun t =>
  let f := transaction_frame t in
  (Ok tt, with_return_data data (with_frame
    (mk_txframe program_id (set_len (Z.of_nat (length data)) (return_data_scratchpad f))
       (cpi_data_scratchpad f) (cpi_accounts_scratchpad f) (current_executing_instruction f)
       (total_number_of_instructions_in_trace f) (number_of_cpis_in_trace f)
       (number_of_transaction_accounts f)) t)).

(** ** The end of the transaction *)

(** The frames, accounts and data of the trace; the placeholder is dropped. *)
Definition take_instruction_trace t :
    list InstructionFrame * list (list InstructionAccount) * list (list Z) :=
  (take (length (instruction_trace t) - 1) (instruction_trace t), tx_instruction_accounts t,
   tx_instruction_data t).

Record ExecutionRecord := mk_record {
  rec_accounts : list (Pubkey * AccountSharedData);
  rec_return_data : Pubkey * list Z;
  rec_touched_flags : list bool;
  rec_accounts_resize_delta : Z;
}.

Definition execution_record t : ExecutionRecord :=
  mk_record (deconstruct_into_keyed_account_shared_data (accounts t))
    (return_data_pubkey (transaction_frame t), return_data_bytes t)
    (touched_flags (accounts t)) (resize_delta (accounts t)).
End TransactionContext.
