(* ===== verification/InvokeContext.v ===== *)
(** * Running the instructions of a transaction

    Models [program-runtime/src/invoke_context.rs] and the stack of
    [program-runtime/src/memory_context.rs]: [push]/[pop] with the reentrancy
    check, the preparation of top-level and cross-program instructions with the
    privilege checks, the dispatch to a program and [process_message].

    A program is a function of the context it runs in and of the cross-program
    invocation it may call; the programs of the cache are a parameter
    ([programs], what [ProgramCacheForTxBatch::find] returns and the function
    registry finds for the entrypoint), as are the precompiles.  The recursion
    from an instruction to the ones it invokes is bounded by a fuel; logs, timings,
    and the contents of a [MemoryContext] are not modelled. *)

From S2P Require Import Prelude SvmInterface TransactionAccounts InstructionAccounts.
From S2P Require Import TransactionContext.
Local Open Scope Z_scope.

(** ** State *)

Inductive MemoryContextType := ABIv1 | Placeholder.

Record InvokeContext {SI : SvmInterface} := mk_ic {
  transaction_context : TransactionContext;
  compute_meter : Z;
  memory_contexts : list MemoryContextType;
}.
Arguments InvokeContext : clear implicits.

Record AccountMeta := mk_meta {
  pubkey : Pubkey;
  meta_is_signer : bool;
  meta_is_writable : bool;
}.

Record Instruction := mk_instruction {
  program_id : Pubkey;
  metas : list AccountMeta;
  data : list Z;
}.

(** What a program returns: an [InstructionError], or another error. *)
Inductive ProgramError := InstrError (e : InstructionError) | OtherError.

(** An instruction of a message, with indices into the account keys ([u8]). *)
Record SVMInstruction := mk_svm_instruction {
  program_id_index : Z;
  account_indices : list nat;
  svm_data : list Z;
}.

(** The methods of [SVMMessage] the runtime calls. *)
Record SVMMessage := mk_message {
  account_keys : list Pubkey;
  program_instructions : list (Pubkey * SVMInstruction);
  message_is_signer : nat -> bool;
  message_is_writable : nat -> bool;
}.

Section InvokeContext.
Context {SI : SvmInterface}.

Abbreviation IC := (stm (InvokeContext SI) InstructionError).
Implicit Types ic : InvokeContext SI.

Definition with_tx (t : TransactionContext) ic : InvokeContext SI :=
  mk_ic _ t (compute_meter ic) (memory_contexts ic).
Definition on_tx {E A} (m : stm TransactionContext E A) : stm (InvokeContext SI) E A :=
  st_zoom transaction_context with_tx m.
Definition on_ta {A} (m : TA A) : IC A := on_tx (on_accounts m).

Definition consume_checked (amount : Z) : IC unit := fun ic =>
  let exceeded := compute_meter ic <? amount in
  let ic := mk_ic _ (transaction_context ic) (saturating_sub (compute_meter ic) amount)
    (memory_contexts ic) in
  if exceeded then (Err ComputationalBudgetExceeded, ic) else (Ok tt, ic).

(** ** Memory contexts *)

Definition set_memory_context_abi_v1 : IC unit := fun ic =>
  match length (memory_contexts ic) with
  | O => (Err CallDepth, ic)
  | S n => (Ok tt, mk_ic _ (transaction_context ic) (compute_meter ic)
             (<[n := ABIv1]> (memory_contexts ic)))
  end.
Definition push_placeholder ic : InvokeContext SI :=
  mk_ic _ (transaction_context ic) (compute_meter ic) (memory_contexts ic ++ [Placeholder]).
Definition pop_memory ic : InvokeContext SI :=
  mk_ic _ (transaction_context ic) (compute_meter ic)
    (take (length (memory_contexts ic) - 1) (memory_contexts ic)).

(** ** Stack frames *)

Definition program_key_is (t : TransactionContext) (id : Pubkey)
    (o : outcome InstructionError InstructionContext) : bool :=
  match o with
  | Ok ix => match get_program_key ix (accounts t) with Ok k => k =? id | _ => false end
  | _ => false
  end.

Definition invoke_push : IC unit := fun ic =>
  let t := transaction_context ic in
  match ix ← get_next_instruction_context t;
        map_err (fun _ => UnsupportedProgramId) (get_program_key ix (accounts t)) with
  | Ok id =>
    let height := get_instruction_stack_height t in
    let contains := existsb (fun level =>
      program_key_is t id (get_instruction_context_at_nesting_level level t)) (seq 0 height) in
    let is_last := program_key_is t id (get_current_instruction_context t) in
    if negb (height =? 0)%nat && contains && negb is_last then (Err ReentrancyNotAllowed, ic)
    else (on_tx context_push ;; st_modify push_placeholder) ic
  | Err e => (Err e, ic)
  | Panic => (Panic, ic)
  end.

Definition invoke_pop : IC unit := fun ic => on_tx context_pop (pop_memory ic).

(** ** Cross-program invocations *)

(** The accounts of the callee as they are collected: the first position of
    each account in the callee ([u16::MAX] when it has none), and the list. *)
Abbreviation Callee := (list Z * list InstructionAccount)%type.

Definition collect_account (s : TransactionAccounts) (meta : AccountMeta) (c : Callee) :
    outcome InstructionError Callee :=
  let '(callee_map, ias) := c in
  idx ← ok_or MissingAccount (find_index_of_account (pubkey meta) s);
  index_in_callee ← expect (callee_map !! idx);
  if index_in_callee <? Z.of_nat (length ias) then
    ia ← ok_or MissingAccount (ias !! Z.to_nat index_in_callee);
    let ia := set_is_writable (ia_is_writable ia || meta_is_writable meta)
      (set_is_signer (ia_is_signer ia || meta_is_signer meta) ia) in
    mret (callee_map, <[Z.to_nat index_in_callee := ia]> ias ++ [ia])
  else
    mret (<[idx := as_u16 (Z.of_nat (length ias))]> callee_map,
          ias ++ [ia_new idx (meta_is_signer meta) (meta_is_writable meta)]).

Fixpoint collect_accounts (s : TransactionAccounts) (l : list AccountMeta) (c : Callee) :
    outcome InstructionError Callee :=
  match l with
  | [] => Ok c
  | meta :: l => c ← collect_account s meta c; collect_accounts s l c
  end.

(** One round of the second loop: a repeated account takes the flags of its first
    occurrence, a first occurrence is checked against the caller. *)
Definition check_account (caller : InstructionContext) (signers : list Pubkey)
    (l : list AccountMeta) (callee_map : list Z) (current : nat)
    (ias : list InstructionAccount) : outcome InstructionError (list InstructionAccount) :=
  ia ← expect (ias !! current);
  index_in_callee ← expect (callee_map !! index_in_transaction ia);
  if negb (Z.of_nat current =? index_in_callee) then
    reference ← ok_or MissingAccount (ias !! Z.to_nat index_in_callee);
    mret (<[current := set_is_writable (ia_is_writable ia || ia_is_writable reference)
              (set_is_signer (ia_is_signer ia || ia_is_signer reference) ia)]> ias)
  else
    index_in_caller ← get_index_of_account_in_instruction caller (index_in_transaction ia);
    meta ← expect (l !! current);
    caller_ia ← expect (instruction_accounts caller !! index_in_caller);
    if ia_is_writable ia && negb (ia_is_writable caller_ia) then Err PrivilegeEscalation
    else if ia_is_signer ia &&
            negb (ia_is_signer caller_ia || bool_decide (pubkey meta ∈ signers))
    then Err PrivilegeEscalation
    else mret ias.

Fixpoint check_accounts (caller : InstructionContext) (signers : list Pubkey)
    (l : list AccountMeta) (callee_map : list Z) (todo : list nat)
    (ias : list InstructionAccount) : outcome InstructionError (list InstructionAccount) :=
  match todo with
  | [] => Ok ias
  | current :: todo =>
    ias ← check_account caller signers l callee_map current ias;
    check_accounts caller signers l callee_map todo ias
  end.

Definition find_program (caller : InstructionContext) (id : Pubkey) (s : TransactionAccounts) :
    outcome InstructionError nat :=
  match find_index_of_account id s with
  | None => Err MissingAccount
  | Some i =>
    match get_index_of_account_in_instruction caller i with
    | Ok _ => Ok i
    | Err _ => Err MissingAccount
    | Panic => Panic
    end
  end.

(** The accounts and the program of the callee, checked against the caller. *)
Definition prepare_callee (caller : InstructionContext) (instruction : Instruction)
    (signers : list Pubkey) (s : TransactionAccounts) :
    outcome InstructionError (nat * list InstructionAccount * list Z) :=
  let map_len := Nat.min (accounts_len s) MAX_ACCOUNTS_PER_TRANSACTION in
  '(callee_map, ias) ←
    collect_accounts s (metas instruction) (replicate map_len u16_max, []);
  ias ← check_accounts caller signers (metas instruction) callee_map (seq 0 (length ias)) ias;
  program ← find_program caller (program_id instruction) s;
  mret (program, ias, callee_map).

Definition prepare_next_cpi_instruction (instruction : Instruction) (signers : list Pubkey) :
    TransactionContext -> outcome InstructionError unit * TransactionContext := fun t =>
  match caller ← get_current_instruction_context t;
        callee ← prepare_callee caller instruction signers (accounts t);
        caller_index ← get_current_instruction_index t;
        mret (callee, caller_index) with
  | Ok (program, ias, callee_map, caller_index) =>
    configure_instruction_at_index (get_instruction_trace_length t) (Z.of_nat program) ias
      callee_map (data instruction) (Some (as_u16 (Z.of_nat caller_index))) t
  | Err e => (Err e, t)
  | Panic => (Panic, t)
  end.

(** ** Programs *)

(** [invoke instruction seeds] is the cross-program invocation a program may call. *)
Definition program : Type :=
  (Instruction -> list (list (list Z)) -> IC unit) ->
  stm (InvokeContext SI) ProgramError unit.

Variable programs : Pubkey -> option program.

(** The program that runs an instruction: the one of its key when the native
    loader owns it, the loader that owns it otherwise. *)
Definition builtin_id_of (owner_id : Pubkey) (program_key : outcome InstructionError Pubkey) :
    outcome InstructionError Pubkey :=
  if owner_id =? native_loader_id then program_key
  else if (owner_id =? bpf_loader_deprecated_id) || (owner_id =? bpf_loader_id)
          || (owner_id =? bpf_loader_upgradeable_id) || (owner_id =? loader_v4_id)
  then Ok owner_id
  else Err UnsupportedProgramId.

Definition into_instruction_error (e : ProgramError) : InstructionError :=
  match e with InstrError e => e | OtherError => ProgramFailedToComplete end.

(** The state of these functions has the [&mut u64] that receives the compute
    units consumed as its second component. *)
Abbreviation CU := (stm (InvokeContext SI * Z) InstructionError).
Definition on_ic {A} (m : IC A) : CU A :=
  st_zoom fst (fun ic s => (ic, s.2)) m.

Definition run_entrypoint (invoke : Instruction -> list (list (list Z)) -> IC unit)
    (function : program) (builtin_id id : Pubkey) : CU unit := fun s =>
  let pre_remaining_units := compute_meter s.1 in
  let (result, ic) := function invoke s.1 in
  let consumed := saturating_sub pre_remaining_units (compute_meter ic) in
  let result := map_err into_instruction_error result in
  if (builtin_id =? id) && is_ok result && (consumed =? 0)
  then (Err BuiltinProgramsMustConsumeComputeUnits, (ic, consumed))
  else (result, (ic, consumed)).

(** The entrypoint of the current instruction, with the id it was found under and
    the id of the program; the return data is cleared and the memory context set. *)
Definition find_entrypoint : CU (program * Pubkey * Pubkey) :=
  ix ← on_ic (fun ic => (get_current_instruction_context (transaction_context ic), ic));
  owner_id ← on_ic (on_ta (get_program_owner ix));
  builtin_id ← on_ic (fun ic =>
    (builtin_id_of owner_id (get_program_key ix (accounts (transaction_context ic))), ic));
  function ← st_lift (ok_or UnsupportedProgramId (programs builtin_id));
  id ← on_ic (fun ic => (get_program_key ix (accounts (transaction_context ic)), ic));
  on_ic (on_tx (set_return_data id [])) ;;
  on_ic set_memory_context_abi_v1 ;;
  mret (function, builtin_id, id).

Definition process_executable_chain
    (invoke : Instruction -> list (list (list Z)) -> IC unit) : CU unit :=
  '(function, builtin_id, id) ← find_entrypoint;
  run_entrypoint invoke function builtin_id id.

(** [a.and(b)] where [b] is evaluated in any case. *)
Definition then_always {S E} (a b : stm S E unit) : stm S E unit := fun s =>
  match a s with
  | (Panic, s) => (Panic, s)
  | (o, s) =>
    match b s with
    | (Panic, s) => (Panic, s)
    | (o', s) => (match o with Ok _ => o' | _ => o end, s)
    end
  end.

Fixpoint derive_signers (seeds : list (list (list Z))) (caller : Pubkey) :
    outcome InstructionError (list Pubkey) :=
  match seeds with
  | [] => Ok []
  | seed :: seeds =>
    match create_program_address seed caller with
    | inl k => l ← derive_signers seeds caller; mret (k :: l)
    | inr code => Err (error_of_code code)
    end
  end.

Definition caller_program_id : IC Pubkey := fun ic =>
  let t := transaction_context ic in
  (ix ← get_current_instruction_context t; get_program_key ix (accounts t), ic).

(** Runs [process] with a fresh counter of compute units. *)
Definition run_process (process : CU unit) : IC unit := fun ic =>
  let (o, s) := process (ic, 0) in (o, s.1).

Definition invoke_with (process : CU unit) (instruction : Instruction)
    (signer_seeds : list (list (list Z))) : IC unit :=
  caller ← caller_program_id;
  signers ← st_lift (derive_signers signer_seeds caller);
  on_tx (prepare_next_cpi_instruction instruction signers) ;;
  run_process process.

Fixpoint process_instruction (fuel : nat) : CU unit :=
  match fuel with
  | O => fun s => (Panic, s)
  | S fuel => fun s =>
    (on_ic invoke_push ;;
     then_always
       (process_executable_chain (invoke_with (process_instruction fuel)))
       (on_ic invoke_pop)) (s.1, 0)
  end.

Definition native_invoke_signed (fuel : nat) : Instruction -> list (list (list Z)) -> IC unit :=
  invoke_with (process_instruction fuel).

(** ** Messages *)

Definition collect_top_level_account (message : SVMMessage) (idx : nat) (c : Callee) :
    outcome (Z * InstructionError) Callee :=
  let '(callee_map, ias) := c in
  index_in_callee ← expect (callee_map !! idx);
  let callee_map :=
    if Z.of_nat (length ias) <? index_in_callee
    then <[idx := as_u16 (Z.of_nat (length ias))]> callee_map else callee_map in
  mret (callee_map,
    ias ++ [ia_new idx (message_is_signer message idx) (message_is_writable message idx)]).

Fixpoint collect_top_level_accounts (message : SVMMessage) (l : list nat) (c : Callee) :
    outcome (Z * InstructionError) Callee :=
  match l with
  | [] => Ok c
  | idx :: l =>
    c ← collect_top_level_account message idx c; collect_top_level_accounts message l c
  end.

Definition prepare_top_level_instruction (message : SVMMessage) (index : nat)
    (instruction : SVMInstruction) : stm TransactionContext (Z * InstructionError) unit :=
  let map_len := Nat.min (length (account_keys message)) MAX_ACCOUNTS_PER_TRANSACTION in
  '(callee_map, ias) ← st_lift (collect_top_level_accounts message
    (account_indices instruction) (replicate map_len u16_max, []));
  st_map_err (fun e => (Z.of_nat index mod 256, e))
    (configure_instruction_at_index index (program_id_index instruction) ias callee_map
      (svm_data instruction) None).

Fixpoint prepare_top_level_instructions (message : SVMMessage) (index : nat)
    (l : list (Pubkey * SVMInstruction)) :
    stm TransactionContext (Z * InstructionError) unit :=
  match l with
  | [] => mret tt
  | (_, instruction) :: l =>
    prepare_top_level_instruction message index instruction ;;
    prepare_top_level_instructions message (S index) l
  end.

(** The precompiles of the callback the bank installs. *)
Variable is_precompile : Pubkey -> bool.
Variable precompile : Pubkey -> list Z -> list (list Z) -> outcome InstructionError unit.

Definition process_precompile (id : Pubkey) (d : list Z) (datas : list (list Z)) : IC unit :=
  invoke_push ;;
  then_always (st_lift (precompile id d datas)) invoke_pop.

(** The state is the context and the compute units accumulated so far. *)
Fixpoint process_instructions (fuel : nat) (message : SVMMessage) (index : nat)
    (l : list (Pubkey * SVMInstruction)) : stm (InvokeContext SI * Z) (Z * InstructionError) unit :=
  match l with
  | [] => mret tt
  | (id, instruction) :: l => fun s =>
    let (result, s') :=
      if is_precompile id then
        on_ic (process_precompile id (svm_data instruction)
          ((fun p => svm_data p.2) <$> program_instructions message)) (s.1, 0)
      else process_instruction fuel (s.1, 0) in
    let s' := (s'.1, saturating_add u64_max s.2 s'.2) in
    match result with
    | Ok _ => process_instructions fuel message (S index) l s'
    | Err e => (Err (Z.of_nat index mod 256, e), s')
    | Panic => (Panic, s')
    end
  end.

Definition process_message (fuel : nat) (message : SVMMessage) :
    stm (InvokeContext SI * Z) (Z * InstructionError) unit :=
  st_zoom fst (fun ic s => (ic, s.2))
    (on_tx (prepare_top_level_instructions message 0 (program_instructions message))) ;;
  process_instructions fuel message 0 (program_instructions message).
End InvokeContext.
