(* ===== verification/SysvarCache.v ===== *)
(** * Sysvars and the environment of an instruction

    Models [program-runtime/src/sysvar_cache.rs] (the cache of the sysvar
    accounts, its accessors and the checked accessors the built-in programs use)
    and the constant part of the invocation environment of
    [program-runtime/src/invoke_context.rs].  The sysvar types live in other
    crates: [Clock] and [EpochSchedule] are read by field, the others are types of
    [SysvarInterface]. *)

From S2P Require Import Prelude SvmInterface TransactionAccounts InstructionAccounts.
From S2P Require Import TransactionContext.
Local Open Scope Z_scope.

Record Clock := mk_clock {
  clock_slot : Slot;
  epoch_start_timestamp : Z;
  clock_epoch : Epoch;
  leader_schedule_epoch : Epoch;
  unix_timestamp : Z;
}.

Record EpochSchedule := mk_schedule {
  slots_per_epoch : Z;
  leader_schedule_slot_offset : Z;
  warmup : bool;
  first_normal_epoch : Epoch;
  first_normal_slot : Slot;
}.

Abbreviation SlotHashes := (list (Slot * Hash)) (only parsing).
(** The entries of the deprecated sysvar; the sources only test for emptiness. *)
Abbreviation RecentBlockhashes := (list Hash) (only parsing).

Class SysvarInterface {SI : SvmInterface} := {
  EpochRewards : Type;
  StakeHistory : Type;
  LastRestartSlot : Type;
  Fees : Type;
  clock_bincode :: Bincode Clock;
  schedule_bincode :: Bincode EpochSchedule;
  rent_bincode :: Bincode Rent;
  rewards_bincode :: Bincode EpochRewards;
  restart_bincode :: Bincode LastRestartSlot;
  history_bincode :: Bincode StakeHistory;
  slot_hashes_bincode :: Bincode SlotHashes;
  fees_bincode :: Bincode Fees;
  recent_bincode :: Bincode RecentBlockhashes;
  epoch_schedule_sysvar_id : Pubkey;
  epoch_rewards_sysvar_id : Pubkey;
  stake_history_sysvar_id : Pubkey;
  last_restart_slot_sysvar_id : Pubkey;
  fees_sysvar_id : Pubkey;
}.

Section SysvarCache.
Context {SI : SvmInterface} {SY : SysvarInterface}.

Record SysvarCache := mk_cache {
  sc_clock : option (list Z);
  sc_epoch_schedule : option (list Z);
  sc_epoch_rewards : option (list Z);
  sc_rent : option (list Z);
  sc_slot_hashes : option (list Z);
  sc_stake_history : option (list Z);
  sc_last_restart_slot : option (list Z);
  sc_slot_hashes_obj : option SlotHashes;
  sc_stake_history_obj : option StakeHistory;
  sc_fees : option Fees;
  sc_recent_blockhashes : option RecentBlockhashes;
}.
Implicit Types c : SysvarCache.

Definition cache_reset : SysvarCache :=
  mk_cache None None None None None None None None None None None.

Definition sysvar_id_to_buffer c (id : Pubkey) : option (list Z) :=
  if id =? clock_sysvar_id then sc_clock c
  else if id =? epoch_schedule_sysvar_id then sc_epoch_schedule c
  else if id =? epoch_rewards_sysvar_id then sc_epoch_rewards c
  else if id =? rent_sysvar_id then sc_rent c
  else if id =? slot_hashes_sysvar_id then sc_slot_hashes c
  else if id =? stake_history_sysvar_id then sc_stake_history c
  else if id =? last_restart_slot_sysvar_id then sc_last_restart_slot c
  else None.

Definition get_sysvar_obj (A : Type) `{!Bincode A} c (id : Pubkey) :
    outcome InstructionError A :=
  match sysvar_id_to_buffer c id with
  | Some buf => ok_or UnsupportedSysvar (deserialize buf)
  | None => Err UnsupportedSysvar
  end.

Definition get_clock c : outcome InstructionError Clock := get_sysvar_obj Clock c clock_sysvar_id.
Definition get_epoch_schedule c : outcome InstructionError EpochSchedule :=
  get_sysvar_obj EpochSchedule c epoch_schedule_sysvar_id.
Definition get_epoch_rewards c : outcome InstructionError EpochRewards :=
  get_sysvar_obj EpochRewards c epoch_rewards_sysvar_id.
Definition get_rent c : outcome InstructionError Rent := get_sysvar_obj Rent c rent_sysvar_id.
Definition get_last_restart_slot c : outcome InstructionError LastRestartSlot :=
  get_sysvar_obj LastRestartSlot c last_restart_slot_sysvar_id.
Definition get_stake_history c : outcome InstructionError StakeHistory :=
  ok_or UnsupportedSysvar (sc_stake_history_obj c).
Definition get_slot_hashes c : outcome InstructionError SlotHashes :=
  ok_or UnsupportedSysvar (sc_slot_hashes_obj c).
Definition get_fees c : outcome InstructionError Fees := ok_or UnsupportedSysvar (sc_fees c).
Definition get_recent_blockhashes c : outcome InstructionError RecentBlockhashes :=
  ok_or UnsupportedSysvar (sc_recent_blockhashes c).

(** [get_account_data id] is the data of the account, when there is one. *)
Section fill.
Context (get_account_data : Pubkey -> option (list Z)).

(** A missing buffer is filled with the account data when that data decodes. *)
Definition fill_buffer (A : Type) `{!Bincode A} (id : Pubkey) (old : option (list Z)) :
    option (list Z) :=
  match old with
  | Some buf => Some buf
  | None => d ← get_account_data id; match deserialize (T := A) d with
                                     | Some _ => Some d
                                     | None => None
                                     end
  end.
(** A missing object is filled with what the account data decodes to. *)
Definition fill_object (A : Type) `{!Bincode A} (id : Pubkey) (old : option A) : option A :=
  match old with
  | Some x => Some x
  | None => d ← get_account_data id; deserialize d
  end.
(** A buffer with its object: both are filled when the buffer is missing. *)
Definition fill_pair (A : Type) `{!Bincode A} (id : Pubkey) (old : option (list Z))
    (obj : option A) : option (list Z) * option A :=
  match old with
  | Some buf => (Some buf, obj)
  | None =>
    match get_account_data id with
    | Some d => match deserialize d with Some x => (Some d, Some x) | None => (None, obj) end
    | None => (None, obj)
    end
  end.

Definition fill_missing_entries c : SysvarCache :=
  let '(slot_hashes, slot_hashes_obj) :=
    fill_pair SlotHashes slot_hashes_sysvar_id (sc_slot_hashes c) (sc_slot_hashes_obj c) in
  let '(stake_history, stake_history_obj) :=
    fill_pair StakeHistory stake_history_sysvar_id (sc_stake_history c)
      (sc_stake_history_obj c) in
  mk_cache
    (fill_buffer Clock clock_sysvar_id (sc_clock c))
    (fill_buffer EpochSchedule epoch_schedule_sysvar_id (sc_epoch_schedule c))
    (fill_buffer EpochRewards epoch_rewards_sysvar_id (sc_epoch_rewards c))
    (fill_buffer Rent rent_sysvar_id (sc_rent c))
    slot_hashes stake_history
    (fill_buffer LastRestartSlot last_restart_slot_sysvar_id (sc_last_restart_slot c))
    slot_hashes_obj stake_history_obj
    (fill_object Fees fees_sysvar_id (sc_fees c))
    (fill_object RecentBlockhashes recent_blockhashes_sysvar_id (sc_recent_blockhashes c)).
End fill.

(** ** The environment of an instruction *)

(** The features the system and the vote program test. *)
Record SVMFeatureSet := mk_features {
  create_account_allow_prefund_feature : bool;
  bls_pubkey_management_in_vote_account : bool;
  commission_rate_in_basis_points : bool;
  custom_commission_collector : bool;
  block_revenue_sharing : bool;
  vote_account_initialize_v2 : bool;
  delay_commission_updates : bool;
  deprecate_legacy_vote_ixs : bool;
  relax_post_exec_min_balance_check : bool;
  define_ltds_fee_only_semantics : bool;
  relax_fee_payer_constraint : bool;
}.

Record EnvironmentConfig := mk_env {
  blockhash : Hash;
  blockhash_lamports_per_signature : Z;
  alpenglow_migration_succeeded : bool;
  feature_set : SVMFeatureSet;
  sysvar_cache : SysvarCache;
}.

(** ** Checked accessors

    The instruction must list the account of the sysvar at the given position. *)

Definition check_sysvar_account (id : Pubkey) (ix : InstructionContext) (i : IndexOfAccount)
    (s : TransactionAccounts) : outcome InstructionError unit :=
  k ← get_key_of_instruction_account ix i s;
  if negb (k =? id) then Err InvalidArgument else Ok tt.

Definition checked_sysvar {A} (id : Pubkey) (get : SysvarCache -> outcome InstructionError A)
    (env : EnvironmentConfig) (ix : InstructionContext) (i : IndexOfAccount) : TA A := fun s =>
  (_ ← check_sysvar_account id ix i s; get (sysvar_cache env), s).

Definition checked_clock := checked_sysvar clock_sysvar_id get_clock.
Definition checked_rent := checked_sysvar rent_sysvar_id get_rent.
Definition checked_slot_hashes := checked_sysvar slot_hashes_sysvar_id get_slot_hashes.
Definition checked_recent_blockhashes :=
  checked_sysvar recent_blockhashes_sysvar_id get_recent_blockhashes.
Definition checked_stake_history := checked_sysvar stake_history_sysvar_id get_stake_history.
Definition checked_last_restart_slot :=
  checked_sysvar last_restart_slot_sysvar_id get_last_restart_slot.

End SysvarCache.
