(* ===== verification/AccountSafety.v ===== *)
(** * What a program can do to the accounts of a transaction

    The invariant of [TransactionAccounts] ([ta_ok]: the arrays are parallel, the
    two running totals are exact) and the two relations that every computation
    on borrowed accounts stays within: [evolves] (only accounts that are writable
    in the instruction change, and those that do are marked as touched) and
    [confined] (an account the program does not own keeps its owner, data and
    executable flag and loses no lamports).  [safe] packages the three; the
    lemmas of the hint database [svm] derive it for every operation of
    [InstructionAccounts] and for their compositions. *)

From S2P Require Import Prelude SvmInterface TransactionAccounts InstructionAccounts.
From S2P Require Import TransactionContext.
Local Open Scope Z_scope.

(** ** Sums over a list with one element changed *)

Lemma zsum_alter {A} (f : A -> Z) (g : A -> A) l i x :
  l !! i = Some x -> zsum f (alter g i l) = zsum f l + (f (g x) - f x).
Proof.
  revert i. induction l as [|y l IH]; intros i Hi; [done|].
  destruct i as [|i]; simplify_eq/=; [lia|]. rewrite IH by done. lia.
Qed.

Lemma zsum_bound {A} (f : A -> Z) l b :
  (forall x, x ∈ l -> 0 <= f x <= b) -> 0 <= zsum f l <= Z.of_nat (length l) * b.
Proof.
  induction l as [|x l IH]; intros H; simpl; [lia|].
  assert (0 <= f x <= b) by (apply H; left).
  assert (0 <= zsum f l <= Z.of_nat (length l) * b) by (apply IH; intros; apply H; by right).
  lia.
Qed.

(** ** The invariant *)

Definition total_lamports (s : TransactionAccounts) : Z :=
  zsum lamports (shared_account_fields s).
Definition total_data (s : TransactionAccounts) : Z :=
  zsum (fun p => Z.of_nat (length (payload p))) (private_account_fields s).

Record account_ok (a : AccountSharedFields) (p : AccountPrivateFields) : Prop := {
  lamports_u64 : is_u u64_max (lamports a);
  payload_small : Z.of_nat (length (payload p)) <= MAX_ACCOUNT_DATA_LEN;
  slice_synced : len (payload_slice a) = Z.of_nat (length (payload p));
}.

(** [L] and [T] are the bytes and the lamports the transaction was loaded with. *)
Record ta_ok (L T : Z) (s : TransactionAccounts) : Prop := {
  len_private : length (private_account_fields s) = accounts_len s;
  len_counters : length (borrow_counters s) = accounts_len s;
  len_touched : length (touched_flags s) = accounts_len s;
  few_accounts : (accounts_len s <= MAX_ACCOUNTS_PER_TRANSACTION)%nat;
  accounts_are_ok i a p : shared_account_fields s !! i = Some a ->
    private_account_fields s !! i = Some p -> account_ok a p;
  lamports_exact : lamports_delta s = total_lamports s - T;
  resize_exact : resize_delta s = total_data s - L;
  resize_bounded : resize_delta s <= MAX_ACCOUNT_DATA_GROWTH_PER_TRANSACTION;
  loaded_lamports : 0 <= T <= 256 * u64_max;
  loaded_data : 0 <= L <= 256 * MAX_ACCOUNT_DATA_LEN;
}.

Lemma ok_shared L T s a :
  ta_ok L T s -> a ∈ shared_account_fields s -> exists i p, account_ok a p /\
  shared_account_fields s !! i = Some a /\ private_account_fields s !! i = Some p.
Proof.
  intros Hok [i Hi]%list_elem_of_lookup.
  destruct (lookup_lt_is_Some_2 (private_account_fields s) i) as [p Hp].
  { rewrite (len_private _ _ _ Hok). by eapply lookup_lt_Some. }
  exists i, p. split; [|done]. by eapply accounts_are_ok.
Qed.

Lemma ok_private L T s p :
  ta_ok L T s -> p ∈ private_account_fields s -> exists i a, account_ok a p /\
  shared_account_fields s !! i = Some a /\ private_account_fields s !! i = Some p.
Proof.
  intros Hok [i Hi]%list_elem_of_lookup.
  destruct (lookup_lt_is_Some_2 (shared_account_fields s) i) as [a Ha].
  { change (length (shared_account_fields s)) with (accounts_len s).
    rewrite <-(len_private _ _ _ Hok). by eapply lookup_lt_Some. }
  exists i, a. split; [|done]. by eapply accounts_are_ok.
Qed.

Lemma total_lamports_bound L T s : ta_ok L T s -> 0 <= total_lamports s <= 256 * u64_max.
Proof.
  intros Hok. assert (0 <= total_lamports s <= Z.of_nat (accounts_len s) * u64_max).
  { apply zsum_bound. intros a Ha. destruct (ok_shared _ _ _ _ Hok Ha) as (i & p & Hap & _).
    apply (lamports_u64 _ _ Hap). }
  pose proof (few_accounts _ _ _ Hok) as Hf. unfold MAX_ACCOUNTS_PER_TRANSACTION, u64_max in *. lia.
Qed.

Lemma total_data_bound L T s : ta_ok L T s -> 0 <= total_data s <= 256 * MAX_ACCOUNT_DATA_LEN.
Proof.
  intros Hok.
  assert (0 <= total_data s <=
    Z.of_nat (length (private_account_fields s)) * MAX_ACCOUNT_DATA_LEN).
  { apply zsum_bound. intros p Hp. destruct (ok_private _ _ _ _ Hok Hp) as (i & a & Hap & _).
    pose proof (payload_small _ _ Hap). lia. }
  pose proof (few_accounts _ _ _ Hok) as Hf. rewrite (len_private _ _ _ Hok) in *.
  unfold MAX_ACCOUNTS_PER_TRANSACTION, MAX_ACCOUNT_DATA_LEN in *. lia.
Qed.

(** ** What may change *)

Record evolves (W : nat -> Prop) (s s' : TransactionAccounts) : Prop := {
  keys_kept : key <$> shared_account_fields s' = key <$> shared_account_fields s;
  counters_kept : borrow_counters s' = borrow_counters s;
  touched_kept i : touched_flags s !! i = Some true -> touched_flags s' !! i = Some true;
  changes i :
    shared_account_fields s' !! i = shared_account_fields s !! i /\
    private_account_fields s' !! i = private_account_fields s !! i \/
    W i /\ touched_flags s' !! i = Some true;
}.

Lemma evolves_refl W s : evolves W s s.
Proof. split; auto. Qed.

Lemma evolves_trans W s1 s2 s3 : evolves W s1 s2 -> evolves W s2 s3 -> evolves W s1 s3.
Proof.
  intros H1 H2. split.
  - by rewrite (keys_kept _ _ _ H2), (keys_kept _ _ _ H1).
  - by rewrite (counters_kept _ _ _ H2), (counters_kept _ _ _ H1).
  - intros i Hi. by apply (touched_kept _ _ _ H2), (touched_kept _ _ _ H1).
  - intros i. destruct (changes _ _ _ H2 i) as [[E1 E2]|]; [|by right].
    destruct (changes _ _ _ H1 i) as [[E3 E4]|[Hw Ht]].
    + left. by rewrite E1, E2.
    + right. split; [done|]. by apply (touched_kept _ _ _ H2).
Qed.

Lemma evolves_mono (W W' : nat -> Prop) s s' :
  (forall i, W i -> W' i) -> evolves W s s' -> evolves W' s s'.
Proof.
  intros HW H. split; [apply H..|]. intros i. destruct (changes _ _ _ H i); [by left|].
  right. naive_solver.
Qed.

Lemma evolves_len W s s' : evolves W s s' -> accounts_len s' = accounts_len s.
Proof.
  intros H. unfold accounts_len.
  by rewrite <-(length_fmap key), (keys_kept _ _ _ H), length_fmap.
Qed.

Lemma evolves_key W s s' i : evolves W s s' -> account_key i s' = account_key i s.
Proof.
  intros H. unfold account_key. by rewrite <-!list_lookup_fmap, (keys_kept _ _ _ H).
Qed.

(** What the program with key [P] may do to an account. *)
Definition account_confined (P : option Pubkey) (a a' : AccountSharedFields)
    (p p' : AccountPrivateFields) : Prop :=
  P = Some (owner a) \/ owner a' = owner a /\ p' = p /\ lamports a <= lamports a'.

Definition confined (P : option Pubkey) (s s' : TransactionAccounts) : Prop :=
  forall i a a' p p',
    shared_account_fields s !! i = Some a -> shared_account_fields s' !! i = Some a' ->
    private_account_fields s !! i = Some p -> private_account_fields s' !! i = Some p' ->
    account_confined P a a' p p'.

Lemma confined_refl P s : confined P s s.
Proof. intros i a a' p p' ????. simplify_eq. right. by split_and!. Qed.

Lemma confined_trans P L T s1 s2 s3 :
  ta_ok L T s2 -> accounts_len s2 = accounts_len s3 ->
  confined P s1 s2 -> confined P s2 s3 -> confined P s1 s3.
Proof.
  intros Hok Hlen H1 H2 i a a3 p p3 Ha Ha3 Hp Hp3.
  destruct (lookup_lt_is_Some_2 (shared_account_fields s2) i) as [a2 Ha2].
  { apply lookup_lt_Some in Ha3. unfold accounts_len in Hlen. lia. }
  destruct (lookup_lt_is_Some_2 (private_account_fields s2) i) as [p2 Hp2].
  { rewrite (len_private _ _ _ Hok). by eapply lookup_lt_Some. }
  destruct (H1 i a a2 p p2 Ha Ha2 Hp Hp2) as [|(E1 & E2 & E3)]; [by left|].
  destruct (H2 i a2 a3 p2 p3 Ha2 Ha3 Hp2 Hp3) as [Ho|(E4 & E5 & E6)].
  - left. by rewrite Ho, E1.
  - right. split_and!; [by rewrite E4|by rewrite E5|lia].
Qed.

(** The saturating arithmetic of the running total does not saturate. *)
Lemma resize_delta_exact L T s m k :
  ta_ok L T s -> Z.of_nat m <= MAX_ACCOUNT_DATA_LEN -> Z.of_nat k <= MAX_ACCOUNT_DATA_LEN ->
  i64_saturating_add (resize_delta s)
    (i64_saturating_sub (as_i64 (Z.of_nat m)) (as_i64 (Z.of_nat k))) =
  resize_delta s + (Z.of_nat m - Z.of_nat k).
Proof.
  intros Hok Hm Hk. pose proof (resize_exact _ _ _ Hok). pose proof (loaded_data _ _ _ Hok).
  pose proof (total_data_bound _ _ _ Hok).
  unfold MAX_ACCOUNT_DATA_LEN in *. unfold i64_saturating_add, i64_saturating_sub.
  rewrite !as_i64_id by (unfold i64_min, i64_max; lia).
  rewrite (clamp_id _ _ (Z.of_nat m - _)) by (unfold i64_min, i64_max; lia).
  apply clamp_id. unfold i64_min, i64_max. lia.
Qed.

(** ** One account written *)

Section write.
Context (L T : Z) (W : nat -> Prop) (P : option Pubkey).
Context (s s' : TransactionAccounts) (i : nat).
Context (f : AccountSharedFields -> AccountSharedFields).
Context (g : AccountPrivateFields -> AccountPrivateFields).
Context (a : AccountSharedFields) (p : AccountPrivateFields).
Hypothesis Hok : ta_ok L T s.
Hypothesis Ha : shared_account_fields s !! i = Some a.
Hypothesis Hp : private_account_fields s !! i = Some p.
Hypothesis Hshared : shared_account_fields s' = alter f i (shared_account_fields s).
Hypothesis Hprivate : private_account_fields s' = alter g i (private_account_fields s).
Hypothesis Hcounters : borrow_counters s' = borrow_counters s.
Hypothesis Htouched : touched_flags s' = <[i := true]> (touched_flags s).
Hypothesis Hlamports :
  lamports_delta s' = lamports_delta s + (lamports (f a) - lamports a).
Hypothesis Hresize : resize_delta s' = resize_delta s +
  (Z.of_nat (length (payload (g p))) - Z.of_nat (length (payload p))).
Hypothesis Hbounded : resize_delta s' <= MAX_ACCOUNT_DATA_GROWTH_PER_TRANSACTION.
Hypothesis Hkey : key (f a) = key a.
Hypothesis Hnew : account_ok (f a) (g p).

Lemma write_ok : ta_ok L T s'.
Proof.
  split; unfold accounts_len; rewrite ?Hshared, ?Hprivate, ?Hcounters, ?Htouched,
    ?length_alter, ?length_insert.
  - apply (len_private _ _ _ Hok).
  - apply (len_counters _ _ _ Hok).
  - apply (len_touched _ _ _ Hok).
  - apply (few_accounts _ _ _ Hok).
  - intros j a' p'. destruct (decide (i = j)) as [<-|Hne].
    + rewrite !list_lookup_alter_eq, Ha, Hp. simpl. by intros [= <-] [= <-].
    + rewrite !list_lookup_alter_ne by done. apply (accounts_are_ok _ _ _ Hok).
  - unfold total_lamports. rewrite Hlamports, Hshared, (zsum_alter _ _ _ _ _ Ha).
    pose proof (lamports_exact _ _ _ Hok) as E. unfold total_lamports in E. lia.
  - unfold total_data. rewrite Hresize, Hprivate, (zsum_alter _ _ _ _ _ Hp).
    pose proof (resize_exact _ _ _ Hok) as E. unfold total_data in E. lia.
  - done.
  - apply (loaded_lamports _ _ _ Hok).
  - apply (loaded_data _ _ _ Hok).
Qed.

Lemma write_evolves : W i -> evolves W s s'.
Proof.
  intros HW. split.
  - rewrite Hshared. apply list_eq. intros j. rewrite !list_lookup_fmap.
    destruct (decide (i = j)) as [<-|Hne].
    + rewrite list_lookup_alter_eq, Ha. simpl. by rewrite Hkey.
    + by rewrite list_lookup_alter_ne.
  - done.
  - intros j Hj. rewrite Htouched. destruct (decide (i = j)) as [<-|Hne].
    + rewrite list_lookup_insert_eq; [done|]. by eapply lookup_lt_Some.
    + by rewrite list_lookup_insert_ne.
  - intros j. rewrite Hshared, Hprivate, Htouched. destruct (decide (i = j)) as [<-|Hne].
    + right. split; [done|]. apply list_lookup_insert_eq.
      rewrite (len_touched _ _ _ Hok). by eapply lookup_lt_Some.
    + left. by rewrite !list_lookup_alter_ne.
Qed.

Lemma write_confined : account_confined P a (f a) p (g p) -> confined P s s'.
Proof.
  intros Hc j a1 a2 p1 p2 H1 H2 H3 H4. rewrite Hshared in H2. rewrite Hprivate in H4.
  destruct (decide (i = j)) as [<-|Hne].
  - rewrite list_lookup_alter_eq in H2. rewrite list_lookup_alter_eq in H4. rewrite Ha in H1, H2. rewrite Hp in H3, H4. simpl in H2, H4.
    injection H1 as <-. injection H2 as <-. injection H3 as <-. by injection H4 as <-.
  - rewrite list_lookup_alter_ne in H2 by done. rewrite list_lookup_alter_ne in H4 by done. simplify_eq. right. by split_and!.
Qed.
End write.

(** ** Safe computations *)

Record step (L T : Z) (W : nat -> Prop) (P : option Pubkey) (s s' : TransactionAccounts) :
    Prop := {
  step_ok : ta_ok L T s';
  step_evolves : evolves W s s';
  step_confined : confined P s s';
}.

(** The result of marking account [i] as touched and changing its fields. *)
Definition written (i : nat) (f : AccountSharedFields -> AccountSharedFields)
    (g : AccountPrivateFields -> AccountPrivateFields) (dr dl : Z) (s : TransactionAccounts) :
    TransactionAccounts :=
  mk_accounts (alter f i (shared_account_fields s)) (alter g i (private_account_fields s))
    (borrow_counters s) (<[i := true]> (touched_flags s)) (resize_delta s + dr)
    (lamports_delta s + dl).

Lemma written_step L T W P s i f g dr dl a p :
  ta_ok L T s -> shared_account_fields s !! i = Some a ->
  private_account_fields s !! i = Some p ->
  dl = lamports (f a) - lamports a ->
  dr = Z.of_nat (length (payload (g p))) - Z.of_nat (length (payload p)) ->
  resize_delta s + dr <= MAX_ACCOUNT_DATA_GROWTH_PER_TRANSACTION ->
  key (f a) = key a -> account_ok (f a) (g p) -> W i -> account_confined P a (f a) p (g p) ->
  step L T W P s (written i f g dr dl s).
Proof.
  intros Hok Ha Hp Hdl Hdr Hb Hk Hn HW Hc.
  split; [eapply write_ok|eapply write_evolves|eapply write_confined]; try done;
    unfold written; simpl; congruence.
Qed.

Lemma step_refl L T W P s : ta_ok L T s -> step L T W P s s.
Proof. intros H. split; [done|apply evolves_refl|apply confined_refl]. Qed.

Lemma step_trans L T W P s1 s2 s3 :
  step L T W P s1 s2 -> step L T W P s2 s3 -> step L T W P s1 s3.
Proof.
  intros [H1 H2 H3] [H4 H5 H6]. split; [done|by eapply evolves_trans|].
  eapply confined_trans; [exact H1| |done..]. symmetry. by eapply evolves_len.
Qed.

Section safe.
Context (n : nat) (W : nat -> Prop) (pi : nat).

(** [m] keeps the invariant and stays within what the program at index [pi] may
    do, in a transaction of [n] accounts of which those in [W] are writable. *)
Definition safe {A} (m : TA A) : Prop := forall L T s,
  ta_ok L T s -> accounts_len s = n -> step L T W (account_key pi s) s (m s).2.

Lemma safe_read {A} (m : TA A) : (forall s, (m s).2 = s) -> safe m.
Proof. intros H L T s Hok Hn. rewrite H. by apply step_refl. Qed.

Lemma safe_bind {A B} (m : TA A) (f : A -> TA B) :
  safe m -> (forall a, safe (f a)) -> safe (m ≫= f).
Proof.
  intros Hm Hf L T s Hok Hn. specialize (Hm L T s Hok Hn). unfold mbind, stm_bind.
  destruct (m s) as [[a|e|] s1]; simpl in *; [|done|done].
  eapply step_trans; [done|]. destruct Hm as [H1 H2 _].
  rewrite <-(evolves_key _ _ _ pi H2). apply Hf; [done|].
  by rewrite (evolves_len _ _ _ H2).
Qed.

Lemma safe_state {A} (m : TA A) :
  (forall L T s, ta_ok L T s -> accounts_len s = n -> exists m', m s = m' s /\ safe m') -> safe m.
Proof.
  intros H L T s Hok Hn. destruct (H L T s Hok Hn) as (m' & -> & Hs). by apply Hs.
Qed.

Lemma safe_try {A} (m : TA A) : safe m -> safe (st_try m).
Proof.
  intros Hm L T s Hok Hn. specialize (Hm L T s Hok Hn). unfold st_try.
  by destruct (m s) as [[a|e|] s1].
Qed.
End safe.

Create HintDb svm.
#[export] Hint Resolve safe_bind safe_try : svm.
#[export] Hint Extern 1 (safe _ _ _ (mret _)) => by apply safe_read : svm.
#[export] Hint Extern 1 (safe _ _ _ (st_lift _)) => by apply safe_read : svm.
#[export] Hint Extern 1 (safe _ _ _ (st_err _)) => by apply safe_read : svm.
#[export] Hint Extern 1 (safe _ _ _ (st_gets _)) => by apply safe_read : svm.
#[export] Hint Extern 1 (safe _ _ _ (fail_if ?b _)) =>
  apply safe_read; intros; unfold fail_if; by destruct b : svm.
#[export] Hint Extern 2 (safe _ _ _ (if ?b then _ else _)) => destruct b : svm.
#[export] Hint Extern 2 (safe _ _ _ (match ?x with _ => _ end)) => destruct x : svm.

(** ** The operations on a borrowed account *)

Section operations.
Context {SI : SvmInterface} (n : nat) (W : nat -> Prop) (pi : nat).

(** [b] is an account of the transaction, borrowed by the program at index [pi]. *)
Record handle (b : BorrowedInstructionAccount) : Prop := {
  handle_index : (get_index_in_transaction b < n)%nat;
  handle_writable : is_writable b = true -> W (get_index_in_transaction b);
  handle_program : index_in_transaction_of_instruction_program b = pi;
}.

Context (b : BorrowedInstructionAccount) (Hb : handle b).
Let i := get_index_in_transaction b.

Lemma touch_run s :
  (i < length (touched_flags s))%nat ->
  borrowed_touch b s = (Ok tt, with_touched <[i := true]> s).
Proof.
  intros Hi. unfold borrowed_touch, touch. fold i.
  by destruct (lookup_lt_is_Some_2 _ _ Hi) as [x ->].
Qed.

Section in_state.
Context (L T : Z) (s : TransactionAccounts) (Hok : ta_ok L T s) (Hn : accounts_len s = n).

Lemma handle_lookup : exists a p,
  shared_account_fields s !! i = Some a /\ private_account_fields s !! i = Some p /\
  account_ok a p /\ (i < length (touched_flags s))%nat /\
  shared_account_fields s !!! i = a /\ private_account_fields s !!! i = p.
Proof using Hb Hok Hn.
  pose proof (handle_index _ Hb) as Hi. fold i in Hi. rewrite <-Hn in Hi.
  destruct (lookup_lt_is_Some_2 _ _ Hi) as [a Ha].
  destruct (lookup_lt_is_Some_2 (private_account_fields s) i) as [p Hp].
  { by rewrite (len_private _ _ _ Hok). }
  exists a, p. split_and!; [done|done|by eapply accounts_are_ok| | |].
  - by rewrite (len_touched _ _ _ Hok).
  - by apply list_lookup_total_correct.
  - by apply list_lookup_total_correct.
Qed.

Lemma owned_key : is_owned_by_current_program b s = true ->
  account_key pi s = Some (get_owner b s).
Proof using Hb.
  unfold is_owned_by_current_program, get_key_of_account_at_index.
  rewrite (handle_program _ Hb). destruct (account_key pi s) as [k|]; simpl; [|done].
  intros ->%Z.eqb_eq. done.
Qed.

Lemma lamports_delta_run x :
  is_u u64_max x ->
  add_lamports_delta (clamp i128_min i128_max (x - get_lamports b s)) s =
  (Ok tt, with_lamports_delta (lamports_delta s + (x - get_lamports b s)) s).
Proof using Hb Hok Hn.
  intros Hx. destruct handle_lookup as (a & p & _ & _ & Hap & _ & Ea & _).
  pose proof (lamports_u64 _ _ Hap). unfold get_lamports. fold i. rewrite Ea.
  pose proof (lamports_exact _ _ _ Hok). pose proof (loaded_lamports _ _ _ Hok).
  pose proof (total_lamports_bound _ _ _ Hok).
  unfold is_u, u64_max in *. rewrite clamp_id by (unfold i128_min, i128_max; lia).
  unfold add_lamports_delta, checked_add_i128.
  assert ((i128_min <=? lamports_delta s + (x - lamports a)) = true) as ->.
  { apply Z.leb_le. unfold i128_min. lia. }
  assert ((lamports_delta s + (x - lamports a) <=? i128_max) = true) as ->.
  { apply Z.leb_le. unfold i128_max. lia. }
  done.
Qed.

Lemma resize_run m :
  Z.of_nat m <= MAX_ACCOUNT_DATA_LEN ->
  i64_saturating_add (resize_delta s)
    (i64_saturating_sub (as_i64 (Z.of_nat m)) (as_i64 (Z.of_nat (length (get_data b s))))) =
  resize_delta s + (Z.of_nat m - Z.of_nat (length (get_data b s))).
Proof using Hb Hok Hn.
  intros Hm. destruct handle_lookup as (a & p & _ & _ & Hap & _ & _ & Ep).
  unfold get_data. fold i. rewrite Ep. apply (resize_delta_exact L T); [done|done|].
  apply Hap.
Qed.

Lemma plain_write f g :
  (forall a p, account_ok a p -> key (f a) = key a /\ lamports (f a) = lamports a /\
     length (payload (g p)) = length (payload p) /\ account_ok (f a) (g p)) ->
  is_writable b = true -> is_owned_by_current_program b s = true ->
  step L T W (account_key pi s) s (written i f g 0 0 s).
Proof using Hb Hok Hn.
  intros Hfg Hw Ho. destruct handle_lookup as (a & p & Ha & Hp & Hap & _ & Ea & Ep).
  destruct (Hfg a p Hap) as (H1 & H2 & H3 & H4).
  pose proof (resize_bounded _ _ _ Hok).
  eapply written_step; [done..|lia|lia|lia|done|done|by apply handle_writable|].
  left. rewrite (owned_key Ho). unfold get_owner. fold i. by rewrite Ea.
Qed.

Lemma changed_cases :
  can_data_be_changed b s = (Ok tt, s) /\ is_writable b = true /\
    is_owned_by_current_program b s = true \/
  exists e, can_data_be_changed b s = (Err e, s).
Proof.
  unfold can_data_be_changed. destruct (is_writable b), (is_owned_by_current_program b s);
    simpl; eauto.
Qed.

Lemma resized_cases m :
  can_data_be_resized b m s = (Ok tt, s) /\ is_writable b = true /\
    is_owned_by_current_program b s = true /\ Z.of_nat m <= MAX_ACCOUNT_DATA_LEN /\
    resize_delta s + (Z.of_nat m - Z.of_nat (length (get_data b s))) <=
      MAX_ACCOUNT_DATA_GROWTH_PER_TRANSACTION \/
  exists e, can_data_be_resized b m s = (Err e, s).
Proof using Hb Hok Hn.
  unfold can_data_be_resized, accounts_can_data_be_resized, mbind, stm_bind.
  case_bool; [by eauto|]. rewrite resize_run by done. case_bool; [by eauto|].
  destruct changed_cases as [(E & ? & ?)|[e E]]; rewrite E; [|by eauto]. left. done.
Qed.

(** Data replaced together with the length that programs see. *)
Lemma data_write (d : list Z) :
  is_writable b = true -> is_owned_by_current_program b s = true ->
  Z.of_nat (length d) <= MAX_ACCOUNT_DATA_LEN ->
  resize_delta s + (Z.of_nat (length d) - Z.of_nat (length (get_data b s))) <=
    MAX_ACCOUNT_DATA_GROWTH_PER_TRANSACTION ->
  step L T W (account_key pi s) s
    (written i (fun a => mk_shared (key a) (owner a) (lamports a)
                  (set_len (Z.of_nat (length d)) (payload_slice a)))
       (fun p => mk_private (rent_epoch p) (executable p) d)
       (Z.of_nat (length d) - Z.of_nat (length (get_data b s))) 0 s).
Proof using Hb Hok Hn.
  intros Hw Ho Hd Hg. destruct handle_lookup as (a & p & Ha & Hp & Hap & _ & Ea & Ep).
  unfold get_data in *. fold i in Hg |- *. rewrite Ep in *.
  eapply written_step; simpl; [done..|lia|lia|lia|done| |by apply handle_writable|].
  - split; simpl; [apply Hap|done|done].
  - left. rewrite (owned_key Ho). unfold get_owner. fold i. by rewrite Ea.
Qed.
End in_state.

Lemma handle_touched L T s :
  ta_ok L T s -> accounts_len s = n -> (i < length (touched_flags s))%nat.
Proof using Hb. intros Hok Hn. by destruct (handle_lookup L T s Hok Hn) as (?&?&?&?&?&?&?). Qed.

Lemma safe_touch : safe n W pi (borrowed_touch b).
Proof using Hb.
  intros L T s Hok Hn. rewrite touch_run by by eapply handle_touched.
  split; simpl; [|split; simpl; auto|].
  - destruct Hok. split; simpl; rewrite ?length_insert; done.
  - intros j Hj. destruct (decide (i = j)) as [<-|Hne].
    + apply list_lookup_insert_eq. by eapply lookup_lt_Some.
    + by rewrite list_lookup_insert_ne.
  - exact (confined_refl _ s).
Qed.

Lemma set_owner_safe k : safe n W pi (set_owner b k).
Proof using Hb.
  intros L T s Hok Hn. unfold set_owner.
  destruct (is_owned_by_current_program b s) eqn:Ho; simpl; [|by apply step_refl].
  destruct (is_writable b) eqn:Hw; simpl; [|by apply step_refl].
  destruct (is_zeroed (get_data b s)); simpl; [|by apply step_refl].
  destruct (get_owner b s =? k); simpl; [by apply step_refl|].
  unfold mbind, stm_bind. rewrite touch_run by by eapply handle_touched. simpl.
  replace (view_set_owner _ _ _) with (written i
    (fun a => mk_shared (key a) k (lamports a) (payload_slice a)) id 0 0 s).
  - apply plain_write; [done|done| |done|done]. by intros a p [].
  - unfold written, view_set_owner, with_shared. simpl. rewrite !Z.add_0_r.
    by rewrite (list_alter_id id).
Qed.

Lemma set_executable_safe x : safe n W pi (set_executable b x).
Proof using Hb.
  intros L T s Hok Hn. unfold set_executable.
  destruct (is_exempt _ _ _); simpl; [|by apply step_refl].
  destruct (is_owned_by_current_program b s) eqn:Ho; simpl; [|by apply step_refl].
  destruct (is_writable b) eqn:Hw; simpl; [|by apply step_refl].
  destruct (Bool.eqb _ _); simpl; [by apply step_refl|].
  unfold mbind, stm_bind. rewrite touch_run by by eapply handle_touched. simpl.
  replace (view_set_executable _ _ _) with (written i id
    (fun p => mk_private (rent_epoch p) x (payload p)) 0 0 s).
  - apply plain_write; [done|done| |done|done]. by intros a p [].
  - unfold written, view_set_executable, with_private. simpl. rewrite !Z.add_0_r.
    by rewrite (list_alter_id id).
Qed.

Lemma set_lamports_safe x : is_u u64_max x -> safe n W pi (set_lamports b x).
Proof using Hb.
  intros Hx L T s Hok Hn. unfold set_lamports.
  destruct (negb _ && _) eqn:Hspend; simpl; [by apply step_refl|].
  destruct (is_writable b) eqn:Hw; simpl; [|by apply step_refl].
  destruct (get_lamports b s =? x); simpl; [by apply step_refl|].
  pose proof (handle_touched L T s Hok Hn) as Ht.
  unfold mbind, stm_bind. rewrite (lamports_delta_run L T s Hok Hn x Hx).
  rewrite touch_run by done. simpl.
  destruct (handle_lookup L T s Hok Hn) as (a & p & Ha & Hp & Hap & _ & Ea & Ep).
  replace (view_set_lamports _ _ _) with (written i
    (fun a => mk_shared (key a) (owner a) x (payload_slice a)) id 0 (x - get_lamports b s) s).
  - pose proof (resize_bounded _ _ _ Hok).
    eapply written_step; simpl; [done..| |lia|lia|done| |by apply handle_writable|].
    + unfold get_lamports. fold i. by rewrite Ea.
    + split; simpl; [done|apply Hap|apply Hap].
    + destruct (is_owned_by_current_program b s) eqn:Ho.
      * left. rewrite (owned_key s Ho). unfold get_owner. fold i. by rewrite Ea.
      * right. unfold get_lamports in Hspend. fold i in Hspend. rewrite Ea in Hspend.
        simpl in Hspend. apply Z.ltb_ge in Hspend. by split_and!.
  - unfold written, view_set_lamports, with_shared. simpl. rewrite Z.add_0_r.
    by rewrite (list_alter_id id).
Qed.

Lemma get_lamports_u64 L T s :
  ta_ok L T s -> accounts_len s = n -> is_u u64_max (get_lamports b s).
Proof using Hb.
  intros Hok Hn. destruct (handle_lookup L T s Hok Hn) as (a & p & _ & _ & Hap & _ & Ea & _).
  unfold get_lamports. fold i. rewrite Ea. apply Hap.
Qed.

Lemma checked_add_lamports_safe x : 0 <= x -> safe n W pi (checked_add_lamports b x).
Proof using Hb.
  intros Hx. apply safe_state. intros L T s Hok Hn. unfold checked_add_lamports, checked_add.
  pose proof (get_lamports_u64 L T s Hok Hn) as [??]. case_bool.
  - eexists. split; [done|]. apply set_lamports_safe. unfold is_u. lia.
  - exists (st_err ArithmeticOverflow). split; [done|]. by apply safe_read.
Qed.

Lemma checked_sub_lamports_safe x : 0 <= x -> safe n W pi (checked_sub_lamports b x).
Proof using Hb.
  intros Hx. apply safe_state. intros L T s Hok Hn. unfold checked_sub_lamports, checked_sub.
  pose proof (get_lamports_u64 L T s Hok Hn) as [??]. case_bool.
  - eexists. split; [done|]. apply set_lamports_safe. unfold is_u. lia.
  - exists (st_err ArithmeticOverflow). split; [done|]. by apply safe_read.
Qed.

Lemma can_data_be_changed_safe : safe n W pi (can_data_be_changed b).
Proof.
  apply safe_read. intros s. by destruct (changed_cases s) as [(-> & _)|[e ->]].
Qed.

Lemma can_data_be_resized_safe m : safe n W pi (can_data_be_resized b m).
Proof.
  apply safe_read. intros s. unfold can_data_be_resized, mbind, stm_bind.
  unfold accounts_can_data_be_resized. repeat case_bool; [done..|].
  by destruct (changed_cases s) as [(-> & _)|[e ->]].
Qed.

(** Bytes written through the slice of [get_data_mut], in a state reached by reads. *)
Lemma slice_write_safe d :
  safe n W pi (fun s => (get_data_mut b ;;
    st_modify (view_write_data i (overwrite d (get_data b s)))) s).
Proof using Hb.
  intros L T s Hok Hn. unfold get_data_mut, mbind, stm_bind.
  destruct (changed_cases s) as [(-> & Hw & Ho)|[e ->]]; [|by apply step_refl].
  rewrite touch_run by by eapply handle_touched. simpl.
  destruct (handle_lookup L T s Hok Hn) as (a & p & Ha & Hp & Hap & _ & Ea & Ep).
  replace (view_write_data _ _ _) with (written i id
    (fun p => mk_private (rent_epoch p) (executable p) (overwrite d (payload p))) 0 0 s).
  - apply plain_write; [done|done| |done|done]. intros a' p' [H1 H2 H3].
    assert (length (overwrite d (payload p')) = length (payload p')) as E.
    { unfold overwrite. rewrite length_app, length_take, length_drop. lia. }
    split_and!; [done|done|done|]. split; simpl; rewrite ?E; done.
  - unfold written, view_write_data, with_private. simpl. rewrite !Z.add_0_r.
    rewrite (list_alter_id id) by done. f_equal. apply list_alter_ext; [|done].
    intros p' Hp'. f_equal. unfold get_data. fold i. by rewrite Ep; simplify_eq.
Qed.

Lemma get_data_mut_safe : safe n W pi (get_data_mut b).
Proof using Hb.
  apply safe_bind; [apply can_data_be_changed_safe|]. intros _. apply safe_touch.
Qed.

(** Replacing the data, from the point where the size was accepted. *)
Lemma replace_data_safe L T s d :
  ta_ok L T s -> accounts_len s = n -> is_writable b = true ->
  is_owned_by_current_program b s = true -> Z.of_nat (length d) <= MAX_ACCOUNT_DATA_LEN ->
  resize_delta s + (Z.of_nat (length d) - Z.of_nat (length (get_data b s))) <=
    MAX_ACCOUNT_DATA_GROWTH_PER_TRANSACTION ->
  step L T W (account_key pi s) s
    ((borrowed_touch b ;; borrowed_update_resize_delta b (length d) ;;
      st_modify (view_set_data_from_slice i d)) s).2.
Proof using Hb.
  intros Hok Hn Hw Ho Hd Hg. unfold mbind, stm_bind.
  rewrite touch_run by by eapply handle_touched. simpl.
  unfold borrowed_update_resize_delta, update_accounts_resize_delta. simpl.
  change (get_data b (with_touched <[i:=true]> s)) with (get_data b s).
  rewrite (resize_run L T s Hok Hn) by done.
  eapply eq_ind; [by eapply (data_write L T s Hok Hn d)|].
  unfold written, view_set_data_from_slice, view_write_data, with_shared, with_private. simpl.
  by rewrite Z.add_0_r.
Qed.

Lemma set_data_from_slice_safe d : safe n W pi (set_data_from_slice b d).
Proof using Hb.
  intros L T s Hok Hn. unfold set_data_from_slice, mbind at 1, stm_bind at 1.
  destruct (resized_cases L T s Hok Hn (length d)) as [(-> & H1 & H2 & H3 & H4)|[e ->]];
    [|by apply step_refl]. by apply replace_data_safe.
Qed.

Lemma set_data_length_safe m : safe n W pi (set_data_length b m).
Proof using Hb.
  intros L T s Hok Hn. unfold set_data_length, mbind at 1, stm_bind at 1.
  destruct (resized_cases L T s Hok Hn m) as [(-> & H1 & H2 & H3 & H4)|[e ->]];
    [|by apply step_refl].
  unfold mbind at 1, stm_bind at 1, st_gets at 1. case_bool; [by apply step_refl|].
  pose proof (length_resize (payload (private_account_fields s !!! i)) m 0) as Elen.
  pose proof (replace_data_safe L T s (resize m 0 (payload (private_account_fields s !!! i)))
    Hok Hn H1 H2) as Hs. rewrite Elen in Hs. specialize (Hs H3 H4).
  eapply eq_ind; [exact Hs|]. unfold mbind, stm_bind.
  rewrite touch_run by by eapply handle_touched. done.
Qed.

Lemma extend_from_slice_safe d : safe n W pi (extend_from_slice b d).
Proof using Hb.
  intros L T s Hok Hn. unfold extend_from_slice.
  unfold mbind at 1, stm_bind at 1, st_gets at 1, mbind at 1, stm_bind at 1.
  destruct (resized_cases L T s Hok Hn (length (get_data b s) + length d))
    as [(-> & H1 & H2 & H3 & H4)|[e ->]]; [|by apply step_refl].
  case_bool; [by apply step_refl|].
  pose proof (length_app (get_data b s) d) as Elen.
  pose proof (replace_data_safe L T s (get_data b s ++ d) Hok Hn H1 H2) as Hs.
  rewrite Elen in Hs. specialize (Hs H3 H4).
  eapply eq_ind; [exact Hs|]. unfold mbind, stm_bind.
  rewrite touch_run by by eapply handle_touched. done.
Qed.

Lemma get_state_safe `{!Bincode A} : safe n W pi (@get_state SI A _ b).
Proof. by apply safe_read. Qed.

Lemma set_state_safe `{!Bincode A} (x : A) : safe n W pi (set_state b x).
Proof using Hb.
  intros L T s Hok Hn. pose proof (get_data_mut_safe L T s Hok Hn) as Hg.
  unfold set_state, mbind, stm_bind. unfold get_data_mut, mbind, stm_bind in *.
  destruct (changed_cases s) as [(E & Hw & Ho)|[e ->]]; [|by apply step_refl].
  rewrite E in Hg |- *. rewrite touch_run in Hg |- * by by eapply handle_touched.
  unfold st_gets, st_lift, st_modify, fail_if.
  destruct (serialized_size x) as [size|]; simpl in *; [|done].
  destruct (_ <? size); simpl; [done|].
  destruct (serialize x) as [bytes|]; simpl; [|done].
  pose proof (slice_write_safe bytes L T s Hok Hn) as Hs.
  unfold get_data_mut, mbind, stm_bind in Hs. rewrite E in Hs.
  rewrite touch_run in Hs by by eapply handle_touched. simpl in Hs.
  by destruct (_ <? _)%nat.
Qed.
End operations.

#[export] Hint Resolve safe_touch set_owner_safe set_executable_safe set_lamports_safe
  checked_add_lamports_safe checked_sub_lamports_safe can_data_be_changed_safe
  can_data_be_resized_safe get_data_mut_safe set_data_from_slice_safe set_data_length_safe
  extend_from_slice_safe get_state_safe set_state_safe : svm.

(** ** Borrowing and dropping *)

(** The destructor finds the length programs see already up to date. *)
Lemma drop_ref_mut_ok L T s j :
  ta_ok L T s -> drop_ref_mut j s = with_counters (alter release_borrow_mut j) s.
Proof.
  intros Hok. unfold drop_ref_mut, with_counters, with_shared. simpl. f_equal.
  apply list_eq. intros k. destruct (decide (j = k)) as [<-|Hne].
  2: { by rewrite list_lookup_alter_ne. }
  rewrite list_lookup_alter_eq. destruct (shared_account_fields s !! j) as [a|] eqn:Ha; [|done].
  destruct (lookup_lt_is_Some_2 (private_account_fields s) j) as [p Hp].
  { rewrite (len_private _ _ _ Hok). by eapply lookup_lt_Some. }
  pose proof (slice_synced _ _ (accounts_are_ok _ _ _ Hok j a p Ha Hp)) as E.
  rewrite (list_lookup_total_correct _ _ _ Hp). simpl. unfold payload_len. rewrite <-E.
  by destruct a as [? ? ? []].
Qed.

Lemma with_counters_ok L T s l :
  length l = accounts_len s -> ta_ok L T s -> ta_ok L T (with_counters (fun _ => l) s).
Proof. intros Hl []. by split. Qed.

Lemma borrow_mut_run s j :
  match try_borrow_mut j s with
  | (Ok _, s1) => borrow_counters s !! j = Some 0 /\
      s1 = with_counters (fun _ => <[j := -1]> (borrow_counters s)) s
  | (Err _, s1) => s1 = s
  | (Panic, _) => False
  end.
Proof.
  unfold try_borrow_mut. destruct (borrow_counters s !! j) as [c|] eqn:Hc; [|done].
  unfold counter_try_borrow_mut, is_writing, is_reading.
  destruct (c <? 0) eqn:E1, (0 <? c) eqn:E2; simpl; [done..|].
  apply Z.ltb_ge in E1, E2. by replace c with 0 by lia.
Qed.

(** The counter is back at zero after the borrow and the drop. *)
Lemma drop_restores L T s s2 j :
  ta_ok L T s2 -> borrow_counters s !! j = Some 0 ->
  borrow_counters s2 = <[j := -1]> (borrow_counters s) ->
  drop_ref_mut j s2 = with_counters (fun _ => borrow_counters s) s2.
Proof.
  intros Hok Hj Hc. rewrite (drop_ref_mut_ok L T) by done. unfold with_counters. f_equal.
  rewrite Hc. apply list_eq. intros k. destruct (decide (j = k)) as [<-|Hne].
  - rewrite list_lookup_alter_eq, list_lookup_insert_eq by (by eapply lookup_lt_Some).
    by rewrite Hj.
  - by rewrite list_lookup_alter_ne, list_lookup_insert_ne.
Qed.

Section borrowing.
Context (L T : Z) (W : nat -> Prop) (P : option Pubkey).

(** A computation that runs while [j] is borrowed, between the borrow and the drop. *)
Lemma borrowed_step s s2 j :
  ta_ok L T s -> borrow_counters s !! j = Some 0 ->
  step L T W P (with_counters (fun _ => <[j := -1]> (borrow_counters s)) s) s2 ->
  step L T W P s (drop_ref_mut j s2).
Proof.
  intros Hok Hj [H1 H2 H3]. rewrite (drop_restores L T s) by
    (first [done | apply (counters_kept _ _ _ H2)]).
  pose proof (evolves_len _ _ _ H2) as Hl. unfold accounts_len in Hl. simpl in Hl. split.
  - apply with_counters_ok; [|done]. rewrite (len_counters _ _ _ Hok). done.
  - destruct H2 as [K1 K2 K3 K4]. by split.
  - exact H3.
Qed.
End borrowing.

Section with_account.
Context {SI : SvmInterface}.

(** The accounts an instruction may write, and the index of its program. *)
Definition writable_in (ias : list InstructionAccount) (i : nat) : Prop :=
  exists ia, ia ∈ ias /\ index_in_transaction ia = i /\ ia_is_writable ia = true.
Definition ix_program (ix : InstructionContext) : nat :=
  Z.to_nat (ix_program_account_index_in_tx ix).

Definition ix_safe {A} (n : nat) (ix : InstructionContext) : TA A -> Prop :=
  safe n (writable_in (instruction_accounts ix)) (ix_program ix).
Definition ix_handle (n : nat) (ix : InstructionContext) : BorrowedInstructionAccount -> Prop :=
  handle n (writable_in (instruction_accounts ix)) (ix_program ix).

Lemma borrow_handle {A} n ix i (f : BorrowedInstructionAccount -> TA A) L T s :
  ta_ok L T s -> accounts_len s = n ->
  (exists e, with_account ix i f s = (Err e, s)) \/
  exists b, ix_handle n ix b /\ instruction_accounts ix !! i = Some (instruction_account b) /\
    borrow_counters s !! get_index_in_transaction b = Some 0 /\ rent b = ix_rent ix /\
    with_account ix i f s =
    st_finally (f b) (drop_borrowed b)
      (with_counters (fun _ => <[get_index_in_transaction b := -1]> (borrow_counters s)) s).
Proof.
  intros Hok Hn. unfold with_account, try_borrow_instruction_account, mbind, stm_bind, st_lift.
  destruct (instruction_accounts ix !! i) as [ia|] eqn:Hi; simpl; [|eauto].
  pose proof (borrow_mut_run s (index_in_transaction ia)) as Hr.
  destruct (try_borrow_mut _ s) as [[[]|e|] s1]; [|subst; eauto|done].
  destruct Hr as [Hj ->]. right.
  exists (mk_borrowed (ix_rent ix) ia (Z.to_nat (ix_program_account_index_in_tx ix))).
  split; [|by split_and!]. split; simpl.
  - apply lookup_lt_Some in Hj. rewrite (len_counters _ _ _ Hok) in Hj. by rewrite <-Hn.
  - intros Hw. exists ia. split_and!; [by eapply list_elem_of_lookup_2|done|done].
  - done.
Qed.

Lemma with_account_safe {A} n ix i (f : BorrowedInstructionAccount -> TA A) :
  (forall b, ix_handle n ix b -> ix_safe n ix (f b)) -> ix_safe n ix (with_account ix i f).
Proof.
  intros Hf L T s Hok Hn.
  destruct (borrow_handle n ix i f L T s Hok Hn) as [[e ->]|(b & Hb & _ & Hj & _ & ->)].
  { by apply step_refl. }
  unfold st_finally.
  destruct (f b (with_counters _ s)) as [o s2] eqn:E. simpl.
  eapply borrowed_step; [done|done|].
  change s2 with (o, s2).2. rewrite <-E.
  refine (Hf b Hb L T (with_counters _ s) _ Hn).
  apply with_counters_ok; [|done]. rewrite length_insert. apply Hok.
Qed.

Lemma get_program_owner_run L T s ix :
  ta_ok L T s ->
  (exists e, get_program_owner ix s = (Err e, s)) \/
  exists i a, get_index_of_program_account_in_transaction ix = Ok i /\
    shared_account_fields s !! i = Some a /\ get_program_owner ix s = (Ok (owner a), s).
Proof.
  intros Hok. unfold get_program_owner, mbind, stm_bind, st_lift.
  destruct (get_index_of_program_account_in_transaction ix) as [i|e|] eqn:Ei; [|by eauto|].
  2: { unfold get_index_of_program_account_in_transaction in Ei. by destruct (_ =? _). }
  unfold try_borrow. destruct (borrow_counters s !! i) as [c|] eqn:Hc; [|by eauto].
  unfold counter_try_borrow, is_writing. destruct (c <? 0) eqn:E1; [by eauto|].
  destruct (c + 1 <=? i8_max) eqn:E2; [|by eauto]. right.
  destruct (lookup_lt_is_Some_2 (shared_account_fields s) i) as [a Ha].
  { change (i < accounts_len s)%nat. rewrite <-(len_counters _ _ _ Hok).
    by eapply lookup_lt_Some. }
  exists i, a. split_and!; [done|done|]. simpl. rewrite (list_lookup_total_correct _ _ _ Ha).
  unfold st_modify, mret, stm_ret, drop_ref, with_counters. simpl. do 2 f_equal.
  destruct s as [? ? cs ? ? ?]; simpl in *. f_equal. apply list_eq. intros k.
  destruct (decide (i = k)) as [<-|Hne].
  - rewrite list_lookup_alter_eq, list_lookup_insert_eq by (by eapply lookup_lt_Some).
    rewrite Hc. simpl. f_equal. unfold release_borrow.
    apply Z.ltb_ge in E1. apply Z.leb_le in E2. rewrite clamp_id; unfold i8_min, i8_max in *; lia.
  - by rewrite list_lookup_alter_ne, list_lookup_insert_ne.
Qed.
End with_account.
