(* ===== verification/AccountRun.v ===== *)
(** * Borrowed accounts, step by step

    The exact result of the operations on borrowed accounts in a well-formed
    transaction, as equations.  No operation reads the borrow counters
    ([counter_free]), so a scope that borrows a free account computes what its body
    computes on the accounts as they are ([with_account_run]). *)

From S2P Require Import Prelude SvmInterface TransactionAccounts InstructionAccounts.
From S2P Require Import TransactionContext AccountSafety.
Local Open Scope Z_scope.

Section counters.
Context {SI : SvmInterface}.

Definition counter_free {A} (m : TA A) : Prop := forall c s,
  m (with_counters (fun _ => c) s) = ((m s).1, with_counters (fun _ => c) (m s).2).

Lemma cf_bind {A B} (m : TA A) (f : A -> TA B) :
  counter_free m -> (forall a, counter_free (f a)) -> counter_free (m ≫= f).
Proof.
  intros Hm Hf c s. unfold mbind, stm_bind. rewrite Hm.
  destruct (m s) as [[a|e|] s1]; simpl; [apply Hf|done|done].
Qed.

Lemma cf_ret {A} (a : A) : counter_free (mret a).
Proof. done. Qed.
Lemma cf_lift {A} (o : outcome InstructionError A) : counter_free (st_lift o).
Proof. done. Qed.
Lemma cf_err {A} e : counter_free (st_err (A := A) e).
Proof. done. Qed.
Lemma cf_fail_if b e : counter_free (fail_if b e).
Proof. intros c s. by destruct b. Qed.
Lemma cf_gets {A} (f : TransactionAccounts -> A) :
  (forall c s, f (with_counters (fun _ => c) s) = f s) -> counter_free (st_gets f).
Proof. intros H c s. unfold st_gets. by rewrite H. Qed.
Lemma cf_reads {A} (f : TransactionAccounts -> outcome InstructionError A) :
  (forall c s, f (with_counters (fun _ => c) s) = f s) -> counter_free (fun s => (f s, s)).
Proof. intros H c s. by rewrite H. Qed.

Implicit Types b : BorrowedInstructionAccount.

Lemma cf_touch b : counter_free (borrowed_touch b).
Proof. intros c s. unfold borrowed_touch, touch. simpl. by destruct (touched_flags s !! _). Qed.
Lemma cf_modify f :
  (forall c s, f (with_counters (fun _ => c) s) = with_counters (fun _ => c) (f s)) ->
  counter_free (st_modify f).
Proof. intros H c s. unfold st_modify. by rewrite H. Qed.
Lemma cf_add_delta x : counter_free (add_lamports_delta x).
Proof. intros c s. unfold add_lamports_delta. simpl. by destruct (checked_add_i128 _ _). Qed.
Lemma cf_resize b n : counter_free (borrowed_update_resize_delta b n).
Proof. done. Qed.

(** A guard on the state that does not see the counters. *)
Lemma cf_guard {A} (g : TransactionAccounts -> bool) e (m : TA A) :
  (forall c s, g (with_counters (fun _ => c) s) = g s) -> counter_free m ->
  counter_free (fun s => if g s then (Err e, s) else m s).
Proof. intros Hg Hm c s. rewrite Hg. destruct (g s); [done|apply Hm]. Qed.
Lemma cf_if {A} (g : TransactionAccounts -> bool) (m1 m2 : TA A) :
  (forall c s, g (with_counters (fun _ => c) s) = g s) -> counter_free m1 -> counter_free m2 ->
  counter_free (fun s => if g s then m1 s else m2 s).
Proof. intros Hg H1 H2 c s. rewrite Hg. destruct (g s); [apply H1|apply H2]. Qed.

Lemma cf_can_change b : counter_free (can_data_be_changed b).
Proof.
  intros c s. unfold can_data_be_changed. simpl.
  change (is_owned_by_current_program b (with_counters (fun _ => c) s))
    with (is_owned_by_current_program b s).
  by destruct (is_writable b), (is_owned_by_current_program b s).
Qed.

Lemma cf_can_resize b n : counter_free (can_data_be_resized b n).
Proof.
  intros c s. unfold can_data_be_resized, accounts_can_data_be_resized, mbind, stm_bind. simpl.
  change (get_data b (with_counters (fun _ => c) s)) with (get_data b s).
  case_bool; [done|]. case_bool; [done|]. apply cf_can_change.
Qed.

Lemma cf_set_owner b k : counter_free (set_owner b k).
Proof.
  intros c s. unfold set_owner.
  change (is_owned_by_current_program b (with_counters (fun _ => c) s))
    with (is_owned_by_current_program b s).
  change (get_data b (with_counters (fun _ => c) s)) with (get_data b s).
  change (get_owner b (with_counters (fun _ => c) s)) with (get_owner b s).
  destruct (is_owned_by_current_program b s), (is_writable b), (is_zeroed (get_data b s)),
    (get_owner b s =? k); simpl; try done.
  apply cf_bind; [apply cf_touch|]. intros _. by apply cf_modify.
Qed.

Lemma cf_set_lamports b x : counter_free (set_lamports b x).
Proof.
  intros c s. unfold set_lamports.
  change (is_owned_by_current_program b (with_counters (fun _ => c) s))
    with (is_owned_by_current_program b s).
  change (get_lamports b (with_counters (fun _ => c) s)) with (get_lamports b s).
  destruct (negb _ && _), (negb (is_writable b)), (get_lamports b s =? x); try done.
  apply cf_bind; [apply cf_add_delta|]. intros _.
  apply cf_bind; [apply cf_touch|]. intros _. by apply cf_modify.
Qed.

Lemma cf_checked_add b x : counter_free (checked_add_lamports b x).
Proof.
  intros c s. unfold checked_add_lamports.
  change (get_lamports b (with_counters (fun _ => c) s)) with (get_lamports b s).
  destruct (checked_add _ _ _); [apply cf_set_lamports|done].
Qed.
Lemma cf_checked_sub b x : counter_free (checked_sub_lamports b x).
Proof.
  intros c s. unfold checked_sub_lamports.
  change (get_lamports b (with_counters (fun _ => c) s)) with (get_lamports b s).
  destruct (checked_sub _ _); [apply cf_set_lamports|done].
Qed.

Lemma cf_get_data_mut b : counter_free (get_data_mut b).
Proof. apply cf_bind; [apply cf_can_change|]. intros _. apply cf_touch. Qed.

Lemma cf_set_data_length b n : counter_free (set_data_length b n).
Proof.
  apply cf_bind; [apply cf_can_resize|]. intros _.
  apply cf_bind; [by apply cf_gets|]. intros d. case_bool; [apply cf_ret|].
  apply cf_bind; [apply cf_touch|]. intros _.
  apply cf_bind; [apply cf_resize|]. intros _. by apply cf_modify.
Qed.

Lemma cf_get_state `{!Bincode A} b : counter_free (@get_state SI A _ b).
Proof. by apply (cf_reads (fun s => ok_or InvalidAccountData (deserialize (get_data b s)))). Qed.

Lemma cf_set_state `{!Bincode A} b (x : A) : counter_free (set_state b x).
Proof.
  apply cf_bind; [apply cf_get_data_mut|]. intros _.
  apply cf_bind; [by apply cf_gets|]. intros d. apply cf_bind; [apply cf_lift|]. intros size.
  apply cf_bind; [apply cf_fail_if|]. intros _. apply cf_bind; [apply cf_lift|]. intros bytes.
  apply cf_bind; [by apply cf_modify|]. intros _. apply cf_fail_if.
Qed.

(** ** Scopes *)

Lemma with_counters_id s : with_counters (fun _ => borrow_counters s) s = s.
Proof. by destruct s. Qed.

Definition borrowed_at (ix : InstructionContext) (ia : InstructionAccount) :
    BorrowedInstructionAccount :=
  mk_borrowed (ix_rent ix) ia (ix_program ix).

Lemma with_account_run {A} L T n ix i ia (f : BorrowedInstructionAccount -> TA A) s :
  ta_ok L T s -> accounts_len s = n ->
  instruction_accounts ix !! i = Some ia ->
  borrow_counters s !! index_in_transaction ia = Some 0 ->
  counter_free (f (borrowed_at ix ia)) -> ix_safe n ix (f (borrowed_at ix ia)) ->
  with_account ix i f s = f (borrowed_at ix ia) s.
Proof.
  intros Hok Hn Hia Hc Hf Hs.
  unfold with_account, try_borrow_instruction_account, mbind, stm_bind, st_lift.
  rewrite Hia. simpl. unfold try_borrow_mut. rewrite Hc. simpl.
  change (mk_borrowed (ix_rent ix) ia (Z.to_nat (ix_program_account_index_in_tx ix)))
    with (borrowed_at ix ia).
  change (with_counters _ s) with
    (with_counters (fun _ => <[index_in_transaction ia := -1]> (borrow_counters s)) s).
  unfold st_finally. rewrite Hf. destruct (Hs L T s Hok Hn) as [S1 S2 _].
  destruct (f (borrowed_at ix ia) s) as [o s2]. simpl in *. f_equal.
  unfold drop_borrowed, get_index_in_transaction. simpl.
  rewrite (drop_restores L T s); [|apply with_counters_ok|done|done].
  - unfold with_counters. simpl. rewrite <-(counters_kept _ _ _ S2). by destruct s2.
  - rewrite length_insert, (evolves_len _ _ _ S2). apply Hok.
  - done.
Qed.
End counters.

(** ** Balances *)

Definition balance (i : nat) (s : TransactionAccounts) : Z :=
  lamports (shared_account_fields s !!! i).
Definition owner_at (i : nat) (s : TransactionAccounts) : Pubkey :=
  owner (shared_account_fields s !!! i).
Definition data_at (i : nat) (s : TransactionAccounts) : list Z :=
  payload (private_account_fields s !!! i).

(** Adds [d] lamports to account [i]. *)
Definition pay (i : nat) (d : Z) (s : TransactionAccounts) : TransactionAccounts :=
  if d =? 0 then s
  else mk_accounts
    (alter (fun a => mk_shared (key a) (owner a) (lamports a + d) (payload_slice a)) i
      (shared_account_fields s))
    (private_account_fields s) (borrow_counters s) (<[i := true]> (touched_flags s))
    (resize_delta s) (lamports_delta s + d).

Lemma lookup_total_alter_eq {A} `{!Inhabited A} (f : A -> A) (l : list A) (i : nat) :
  (i < length l)%nat -> alter f i l !!! i = f (l !!! i).
Proof.
  intros [x Hx]%lookup_lt_is_Some_2. apply list_lookup_total_correct.
  by rewrite list_lookup_alter_eq, Hx, (list_lookup_total_correct _ _ _ Hx).
Qed.
Lemma lookup_total_alter_ne {A} `{!Inhabited A} (f : A -> A) (l : list A) (i j : nat) :
  i <> j -> alter f i l !!! j = l !!! j.
Proof. intros H. by rewrite !list_lookup_total_alt, list_lookup_alter_ne. Qed.

(** A field that the change keeps. *)
Lemma field_alter {A B} `{!Inhabited A} (f : A -> B) (g : A -> A) (l : list A) (i j : nat) :
  (forall a, f (g a) = f a) -> f (alter g i l !!! j) = f (l !!! j).
Proof.
  intros Hg. rewrite !list_lookup_total_alt.
  destruct (decide (i = j)) as [<-|Hne]; [|by rewrite list_lookup_alter_ne].
  rewrite list_lookup_alter_eq. by destruct (l !! i); simpl.
Qed.
Lemma field_alter_lookup {A B} (f : A -> B) (g : A -> A) (l : list A) (i j : nat) :
  (forall a, f (g a) = f a) -> f <$> alter g i l !! j = f <$> l !! j.
Proof.
  intros Hg. destruct (decide (i = j)) as [<-|Hne]; [|by rewrite list_lookup_alter_ne].
  rewrite list_lookup_alter_eq. destruct (l !! i); [|done]. simpl. by rewrite Hg.
Qed.

Lemma balance_pay i d j s :
  (i < accounts_len s)%nat ->
  balance j (pay i d s) = balance j s + (if decide (i = j) then d else 0).
Proof.
  intros Hi. unfold pay. destruct (Z.eqb_spec d 0) as [->|Hd]; [case_decide; lia|].
  unfold balance. simpl. case_decide as E.
  - subst j. by rewrite lookup_total_alter_eq.
  - rewrite lookup_total_alter_ne by done. lia.
Qed.

(** Paying changes a balance and nothing else of the accounts. *)
Lemma pay_len i d s : accounts_len (pay i d s) = accounts_len s.
Proof. unfold pay, accounts_len. case_bool; [done|]. simpl. by rewrite length_alter. Qed.
Lemma pay_owner i d j s : owner_at j (pay i d s) = owner_at j s.
Proof. unfold pay. case_bool; [done|]. by apply field_alter. Qed.
Lemma pay_key i d j s : account_key j (pay i d s) = account_key j s.
Proof. unfold pay. case_bool; [done|]. by apply field_alter_lookup. Qed.
Lemma pay_data i d j s : data_at j (pay i d s) = data_at j s.
Proof. unfold pay. by case_bool. Qed.
Lemma pay_counters i d s : borrow_counters (pay i d s) = borrow_counters s.
Proof. unfold pay. by case_bool. Qed.

Section run.
Context {SI : SvmInterface} (n : nat) (W : nat -> Prop) (pi : nat).
Context (b : BorrowedInstructionAccount) (Hb : handle n W pi b).
Context (L T : Z) (s : TransactionAccounts) (Hok : ta_ok L T s) (Hn : accounts_len s = n).
Abbreviation i := (get_index_in_transaction b).
Abbreviation owned := (is_owned_by_current_program b s).

Lemma set_lamports_run x :
  is_u u64_max x ->
  set_lamports b x s =
  if negb owned && (x <? balance i s) then (Err ExternalAccountLamportSpend, s)
  else if negb (is_writable b) then (Err ReadonlyLamportChange, s)
  else (Ok tt, pay i (x - balance i s) s).
Proof using Hb Hok Hn.
  intros Hx. unfold set_lamports. change (get_lamports b s) with (balance i s).
  destruct (negb owned && _); [done|]. destruct (negb (is_writable b)); [done|].
  unfold pay. destruct (Z.eqb_spec (balance i s) x) as [E|E];
    destruct (Z.eqb_spec (x - balance i s) 0) as [E'|E']; [done|lia|lia|].
  unfold mbind, stm_bind. change (balance i s) with (get_lamports b s).
  rewrite (lamports_delta_run n W pi b Hb L T s Hok Hn x Hx).
  rewrite touch_run by exact (handle_touched n W pi b Hb L T s Hok Hn). unfold st_modify, view_set_lamports.
  unfold with_shared. simpl. do 2 f_equal. apply list_alter_ext; [|done].
  intros a Ha. f_equal. unfold get_lamports. rewrite (list_lookup_total_correct _ _ _ Ha). lia.
Qed.

Lemma balance_u64 : is_u u64_max (balance i s).
Proof using Hb Hok Hn. by eapply get_lamports_u64. Qed.

Lemma checked_sub_run x :
  0 <= x ->
  checked_sub_lamports b x s =
  if balance i s <? x then (Err ArithmeticOverflow, s)
  else if negb owned && (0 <? x) then (Err ExternalAccountLamportSpend, s)
  else if negb (is_writable b) then (Err ReadonlyLamportChange, s)
  else (Ok tt, pay i (- x) s).
Proof using Hb Hok Hn.
  intros Hx. pose proof balance_u64 as [H0 H1]. unfold checked_sub_lamports, checked_sub.
  change (get_lamports b s) with (balance i s).
  destruct (Z.leb_spec x (balance i s)), (Z.ltb_spec (balance i s) x); try lia; [|done].
  rewrite set_lamports_run by (unfold is_u; lia).
  replace (balance i s - x <? balance i s) with (0 <? x)
    by (destruct (Z.ltb_spec 0 x), (Z.ltb_spec (balance i s - x) (balance i s)); lia).
  by replace (balance i s - x - balance i s) with (- x) by lia.
Qed.

Lemma checked_add_run x :
  0 <= x ->
  checked_add_lamports b x s =
  if u64_max <? balance i s + x then (Err ArithmeticOverflow, s)
  else if negb (is_writable b) then (Err ReadonlyLamportChange, s)
  else (Ok tt, pay i x s).
Proof using Hb Hok Hn.
  intros Hx. pose proof balance_u64 as [H0 H1]. unfold checked_add_lamports, checked_add.
  change (get_lamports b s) with (balance i s).
  destruct (Z.leb_spec (balance i s + x) u64_max), (Z.ltb_spec u64_max (balance i s + x));
    try lia; [|done].
  rewrite set_lamports_run by (unfold is_u; lia).
  replace (balance i s + x <? balance i s) with false
    by (destruct (Z.ltb_spec (balance i s + x) (balance i s)); lia).
  rewrite andb_false_r. by replace (balance i s + x - balance i s) with x by lia.
Qed.

(** ** Sizes and owners *)

Definition alloc (j : nat) (m : nat) (s : TransactionAccounts) : TransactionAccounts :=
  if (length (data_at j s) =? m)%nat then s
  else mk_accounts
    (alter (fun a => mk_shared (key a) (owner a) (lamports a)
       (set_len (Z.of_nat m) (payload_slice a))) j (shared_account_fields s))
    (alter (fun p => mk_private (rent_epoch p) (executable p) (resize m 0 (payload p))) j
       (private_account_fields s))
    (borrow_counters s) (<[j := true]> (touched_flags s))
    (resize_delta s + (Z.of_nat m - Z.of_nat (length (data_at j s)))) (lamports_delta s).

Definition give (j : nat) (k : Pubkey) (s : TransactionAccounts) : TransactionAccounts :=
  if owner_at j s =? k then s
  else mk_accounts
    (alter (fun a => mk_shared (key a) k (lamports a) (payload_slice a)) j
       (shared_account_fields s))
    (private_account_fields s) (borrow_counters s) (<[j := true]> (touched_flags s))
    (resize_delta s) (lamports_delta s).

Lemma set_data_length_run m :
  set_data_length b m s =
  if MAX_ACCOUNT_DATA_LEN <? Z.of_nat m then (Err InvalidRealloc, s)
  else if MAX_ACCOUNT_DATA_GROWTH_PER_TRANSACTION <?
          resize_delta s + (Z.of_nat m - Z.of_nat (length (data_at i s)))
  then (Err MaxAccountsDataAllocationsExceeded, s)
  else if negb (is_writable b) then (Err ReadonlyDataModified, s)
  else if negb owned then (Err ExternalAccountDataModified, s)
  else (Ok tt, alloc i m s).
Proof using Hb Hok Hn.
  unfold set_data_length, can_data_be_resized, accounts_can_data_be_resized, can_data_be_changed.
  unfold mbind, stm_bind. destruct (Z.ltb_spec MAX_ACCOUNT_DATA_LEN (Z.of_nat m)); [done|].
  rewrite (resize_run n W pi b Hb L T s Hok Hn) by done.
  change (get_data b s) with (data_at i s). case_bool; [done|].
  destruct (negb (is_writable b)); [done|]. destruct (negb owned); [done|].
  unfold st_gets, alloc. change (get_data b s) with (data_at i s).
  destruct (length (data_at i s) =? m)%nat; [done|].
  rewrite touch_run by exact (handle_touched n W pi b Hb L T s Hok Hn).
  unfold borrowed_update_resize_delta, update_accounts_resize_delta. simpl.
  change (get_data b (with_touched _ s)) with (get_data b s).
  rewrite (resize_run n W pi b Hb L T s Hok Hn) by done.
  unfold st_modify, view_resize, view_set_data_from_slice, view_write_data, with_private.
  unfold with_shared. simpl. rewrite length_resize. do 2 f_equal.
  apply list_alter_ext; [|done]. intros p Hp. by rewrite (list_lookup_total_correct _ _ _ Hp).
Qed.

Lemma set_owner_run k :
  set_owner b k s =
  if negb owned || negb (is_writable b) || negb (is_zeroed (data_at i s))
  then (Err ModifiedProgramId, s)
  else (Ok tt, give i k s).
Proof using Hb Hok Hn.
  unfold set_owner, give. change (get_data b s) with (data_at i s).
  change (get_owner b s) with (owner_at i s).
  destruct owned, (is_writable b), (is_zeroed (data_at i s)); simpl; try done.
  destruct (owner_at i s =? k); [done|]. unfold mbind, stm_bind.
  by rewrite touch_run by exact (handle_touched n W pi b Hb L T s Hok Hn).
Qed.
End run.

(** The chunked comparison with zeros is the comparison of every byte. *)
Lemma zero_chunks_spec fuel buf :
  (length buf <= fuel)%nat -> zero_chunks fuel buf = forallb (Z.eqb 0) buf.
Proof.
  revert buf. induction fuel as [|fuel IH]; intros buf Hl; [done|]. cbn [zero_chunks].
  destruct (Nat.ltb_spec (length buf) ZEROS_LEN) as [|Hge]; [done|].
  rewrite IH by (rewrite length_drop; unfold ZEROS_LEN in *; lia).
  by rewrite <-forallb_app, take_drop.
Qed.

Lemma is_zeroed_spec buf : is_zeroed buf = forallb (Z.eqb 0) buf.
Proof. by apply zero_chunks_spec. Qed.

Lemma is_zeroed_replicate m : is_zeroed (replicate m 0) = true.
Proof. rewrite is_zeroed_spec. by induction m. Qed.

Section accessors.
Context (j m : nat) (k : Pubkey) (s : TransactionAccounts).

Lemma alloc_len : accounts_len (alloc j m s) = accounts_len s.
Proof. unfold alloc, accounts_len. case_bool; [done|]. simpl. by rewrite length_alter. Qed.
Lemma alloc_counters : borrow_counters (alloc j m s) = borrow_counters s.
Proof. unfold alloc. by case_bool. Qed.
Lemma alloc_owner x : owner_at x (alloc j m s) = owner_at x s.
Proof. unfold alloc. case_bool; [done|]. by apply field_alter. Qed.
Lemma alloc_key x : account_key x (alloc j m s) = account_key x s.
Proof. unfold alloc. case_bool; [done|]. by apply field_alter_lookup. Qed.
Lemma alloc_data :
  data_at j s = [] -> (j < length (private_account_fields s))%nat ->
  data_at j (alloc j m s) = replicate m 0.
Proof.
  intros Hd Hj. unfold alloc. rewrite Hd. simpl. destruct m as [|m']; [by rewrite Hd|]. simpl.
  unfold data_at. simpl. rewrite lookup_total_alter_eq by done. simpl.
  change (payload (private_account_fields s !!! j)) with (data_at j s). by rewrite Hd, resize_nil.
Qed.
Lemma give_len : accounts_len (give j k s) = accounts_len s.
Proof. unfold give, accounts_len. case_bool; [done|]. simpl. by rewrite length_alter. Qed.
Lemma alloc_balance x : balance x (alloc j m s) = balance x s.
Proof. unfold alloc. case_bool; [done|]. by apply field_alter. Qed.
Lemma alloc_other x : x <> j -> data_at x (alloc j m s) = data_at x s.
Proof.
  intros Hx. unfold alloc. case_bool; [done|]. unfold data_at. simpl.
  by rewrite lookup_total_alter_ne.
Qed.
Lemma give_balance x : balance x (give j k s) = balance x s.
Proof. unfold give. case_bool; [done|]. by apply field_alter. Qed.
Lemma give_data x : data_at x (give j k s) = data_at x s.
Proof. unfold give. by case_bool. Qed.
Lemma give_owner x :
  (j < accounts_len s)%nat -> owner_at x (give j k s) = if decide (x = j) then k else owner_at x s.
Proof.
  intros Hj. unfold give. destruct (Z.eqb_spec (owner_at j s) k) as [<-|Hk].
  - by case_decide; subst.
  - unfold owner_at. simpl. case_decide; subst; [by rewrite lookup_total_alter_eq|].
    by rewrite lookup_total_alter_ne.
Qed.
Lemma give_counters : borrow_counters (give j k s) = borrow_counters s.
Proof. unfold give. by case_bool. Qed.
End accessors.
