(* ===== verification/AccessViolation.v ===== *)
(** * Growing an account on a memory access

    Models [access_violation_handler] of [transaction-context/src/transaction.rs],
    which the virtual machine calls when a program writes past the mapped part of
    an account's data.  Of a memory region the handler reads the start, the length
    and the account it maps; redirecting it is a change of its length, the host
    address is not modelled. *)

From S2P Require Import Prelude SvmInterface TransactionAccounts AccountSafety AccountRun.
Local Open Scope Z_scope.

Inductive AccessType := Load | Store.

Record MemoryRegion := mk_region {
  region_start : Z;
  region_len : Z;
  access_violation_handler_payload : option IndexOfAccount;
}.

Definition redirect (n : Z) (r : MemoryRegion) : MemoryRegion :=
  mk_region (region_start r) n (access_violation_handler_payload r).

Definition requested_length (r : MemoryRegion) (vm_addr n : Z) : Z :=
  saturating_sub (saturating_add u64_max vm_addr n) (region_start r).

Definition remaining_allowed_growth (s : TransactionAccounts) : Z :=
  Z.max 0 (i64_saturating_sub MAX_ACCOUNT_DATA_GROWTH_PER_TRANSACTION (resize_delta s)).

Definition grown_length (reserved : Z) (old_len : nat) (s : TransactionAccounts) : nat :=
  Z.to_nat (Z.min (Z.min reserved MAX_ACCOUNT_DATA_LEN)
    (saturating_add u64_max (Z.of_nat old_len) (remaining_allowed_growth s))).

(** The account [i] is reallocated to fit the access. *)
Definition grow (i : IndexOfAccount) (reserved : Z) (r : MemoryRegion)
    (s : TransactionAccounts) : MemoryRegion * TransactionAccounts :=
  let old_len := payload_len (private_account_fields s !!! i) in
  let new_len := grown_length reserved old_len s in
  (redirect (Z.of_nat new_len) r,
   view_resize i new_len (update_accounts_resize_delta old_len new_len s).2).

(** [direct]: the region maps the account's own buffer. *)
Definition access_violation_handler (direct : bool) (r : MemoryRegion) (reserved : Z)
    (access_type : AccessType) (vm_addr n : Z) (s : TransactionAccounts) :
    MemoryRegion * TransactionAccounts :=
  match access_type, access_violation_handler_payload r with
  | Store, Some i =>
    let requested := requested_length r vm_addr n in
    if reserved <? requested then (r, s)
    else
      match try_borrow_mut i s with
      | (Ok _, s) =>
        match touch i s with
        | (Ok _, s) =>
          let (r, s) := if region_len r <? requested then grow i reserved r s else (r, s) in
          let r := if direct
                   then redirect (Z.of_nat (payload_len (private_account_fields s !!! i))) r
                   else r in
          (r, drop_ref_mut i s)
        | (_, s) => (r, drop_ref_mut i s)
        end
      | (_, s) => (r, s)
      end
  | _, _ => (r, s)
  end.

(** ** The limits hold *)

Section handler.
Context (L T : Z) (s : TransactionAccounts) (Hok : ta_ok L T s).

Lemma remaining_exact :
  remaining_allowed_growth s = MAX_ACCOUNT_DATA_GROWTH_PER_TRANSACTION - resize_delta s.
Proof using Hok.
  pose proof (resize_bounded _ _ _ Hok). pose proof (resize_exact _ _ _ Hok).
  pose proof (loaded_data _ _ _ Hok). pose proof (total_data_bound _ _ _ Hok).
  unfold remaining_allowed_growth, i64_saturating_sub.
  unfold MAX_ACCOUNT_DATA_GROWTH_PER_TRANSACTION, MAX_ACCOUNT_DATA_LEN in *.
  rewrite clamp_id by (unfold i64_min, i64_max; lia). lia.
Qed.

Lemma grown_length_bounds reserved k :
  0 <= reserved -> Z.of_nat k <= MAX_ACCOUNT_DATA_LEN ->
  Z.of_nat (grown_length reserved k s) =
    Z.min (Z.min reserved MAX_ACCOUNT_DATA_LEN)
      (Z.of_nat k + (MAX_ACCOUNT_DATA_GROWTH_PER_TRANSACTION - resize_delta s)).
Proof using Hok.
  intros Hr Hk. pose proof (resize_bounded _ _ _ Hok). pose proof (resize_exact _ _ _ Hok).
  pose proof (loaded_data _ _ _ Hok). pose proof (total_data_bound _ _ _ Hok).
  unfold grown_length. rewrite remaining_exact.
  unfold MAX_ACCOUNT_DATA_GROWTH_PER_TRANSACTION, MAX_ACCOUNT_DATA_LEN in *.
  unfold saturating_add, u64_max. lia.
Qed.

(** What the handler asserts before it reallocates. *)
Lemma growth_allowed reserved k :
  0 <= reserved -> Z.of_nat k <= MAX_ACCOUNT_DATA_LEN ->
  accounts_can_data_be_resized k (grown_length reserved k s) s = (Ok tt, s).
Proof using Hok.
  intros Hr Hk. pose proof (grown_length_bounds reserved k Hr Hk) as E.
  unfold accounts_can_data_be_resized.
  destruct (Z.ltb_spec MAX_ACCOUNT_DATA_LEN (Z.of_nat (grown_length reserved k s))); [lia|].
  rewrite (resize_delta_exact L T) by (done || lia). case_bool; [lia|done].
Qed.

(** The write of a reallocation, from a state whose account [i] is borrowed and touched. *)
Definition resized (i m : nat) (s : TransactionAccounts) : TransactionAccounts :=
  written i (fun a => mk_shared (key a) (owner a) (lamports a)
      (set_len (Z.of_nat m) (payload_slice a)))
    (fun p => mk_private (rent_epoch p) (executable p) (resize m 0 (payload p)))
    (Z.of_nat m - Z.of_nat (length (payload (private_account_fields s !!! i)))) 0 s.

Lemma resized_ok i m p :
  private_account_fields s !! i = Some p -> Z.of_nat m <= MAX_ACCOUNT_DATA_LEN ->
  resize_delta s + (Z.of_nat m - Z.of_nat (length (payload p))) <=
    MAX_ACCOUNT_DATA_GROWTH_PER_TRANSACTION ->
  ta_ok L T (resized i m s) /\ evolves (fun j => j = i) s (resized i m s).
Proof using Hok.
  intros Hp Hm Hd. destruct (lookup_lt_is_Some_2 (shared_account_fields s) i) as [a Ha].
  { change (i < accounts_len s)%nat. rewrite <-(len_private _ _ _ Hok). by eapply lookup_lt_Some. }
  pose proof (accounts_are_ok _ _ _ Hok i a p Ha Hp) as [K1 K2 K3].
  assert (account_ok (mk_shared (key a) (owner a) (lamports a) (set_len (Z.of_nat m)
    (payload_slice a))) (mk_private (rent_epoch p) (executable p) (resize m 0 (payload p)))) as Hn.
  { split; simpl; rewrite ?length_resize; done. }
  unfold resized. rewrite (list_lookup_total_correct _ _ _ Hp).
  split; [eapply write_ok|eapply write_evolves]; try done; simpl;
    rewrite ?length_resize; first [done|lia].
Qed.

(** The length asked for, of an account that is there. *)
Lemma grow_run i reserved r :
  0 <= reserved -> (i < accounts_len s)%nat ->
  let m := grown_length reserved (payload_len (private_account_fields s !!! i)) s in
  let mark s := with_touched <[i := true]>
    (with_counters (fun _ => <[i := -1]> (borrow_counters s)) s) in
  grow i reserved r (mark s) =
    (redirect (Z.of_nat m) r,
     with_counters (fun _ => <[i := -1]> (borrow_counters s)) (resized i m s)) /\
  ta_ok L T (resized i m s) /\ evolves (fun j => j = i) s (resized i m s).
Proof using Hok.
  intros Hr Hi. cbv zeta. set (m := grown_length _ _ s).
  destruct (lookup_lt_is_Some_2 (private_account_fields s) i) as [p Hp].
  { by rewrite (len_private _ _ _ Hok). }
  destruct (lookup_lt_is_Some_2 (shared_account_fields s) i) as [a Ha]; [done|].
  pose proof (payload_small _ _ (accounts_are_ok _ _ _ Hok i a p Ha Hp)) as Hsmall.
  assert (payload_len (private_account_fields s !!! i) = length (payload p)) as El
    by by rewrite (list_lookup_total_correct _ _ _ Hp).
  pose proof (grown_length_bounds reserved (length (payload p)) Hr Hsmall) as Em.
  rewrite <-El in Em. fold m in Em. rewrite El in Em. split; [|apply (resized_ok i m p); [done|lia..]].
  unfold grow. cbn [with_touched with_counters private_account_fields].
  change (grown_length reserved _ _) with m. rewrite El. f_equal.
  unfold update_accounts_resize_delta, view_resize, view_set_data_from_slice, view_write_data.
  unfold with_private, with_shared, with_resize_delta, with_counters, with_touched, resized, written.
  cbn [snd shared_account_fields private_account_fields borrow_counters touched_flags resize_delta
    lamports_delta].
  rewrite (resize_delta_exact L T) by (done || lia).
  rewrite (list_lookup_total_correct _ _ _ Hp), length_resize, Z.add_0_r. f_equal.
  apply list_alter_ext; [|done]. intros p' Hp'. by simplify_eq.
Qed.

(** A store that the handler serves. *)
Lemma handler_run direct r reserved vm_addr n i :
  0 <= reserved -> access_violation_handler_payload r = Some i ->
  requested_length r vm_addr n <= reserved -> borrow_counters s !! i = Some 0 ->
  let m := grown_length reserved (payload_len (private_account_fields s !!! i)) s in
  (access_violation_handler direct r reserved Store vm_addr n s).2 =
  if region_len r <? requested_length r vm_addr n then resized i m s
  else with_touched <[i := true]> s.
Proof using Hok.
  intros Hr Hp Hq Hc. cbv zeta. pose proof (lookup_lt_Some _ _ _ Hc) as Hi.
  rewrite (len_counters _ _ _ Hok) in Hi. unfold access_violation_handler. rewrite Hp.
  destruct (Z.ltb_spec reserved (requested_length r vm_addr n)); [lia|].
  pose proof (borrow_mut_run s i) as Hb. unfold try_borrow_mut in *. rewrite Hc in *. simpl in Hb.
  cbn [counter_try_borrow_mut is_writing is_reading Z.ltb Z.compare orb] in *.
  destruct Hb as [_ Hb]. rewrite Hb. unfold touch. cbn [with_counters touched_flags].
  destruct (lookup_lt_is_Some_2 (touched_flags s) i) as [b Ht].
  { by rewrite (len_touched _ _ _ Hok). }
  rewrite Ht. case_bool.
  - destruct (grow_run i reserved r Hr Hi) as (E & Hok1 & He). cbv zeta in E. rewrite E.
    cbn [snd]. rewrite (drop_restores L T s); [|apply with_counters_ok; [|done]|done|done].
    + rewrite <-(counters_kept _ _ _ He). by destruct (resized _ _ _).
    + rewrite length_insert, <-(counters_kept _ _ _ He). apply Hok1.
  - cbn [snd]. rewrite (drop_restores L T s); [by destruct s| |done|done].
    destruct Hok. split; simpl; rewrite ?length_insert; done.
Qed.

(** Whatever the access, the accounts stay as they are or one account is served. *)
Lemma handler_cases direct r reserved access_type vm_addr n :
  (access_violation_handler direct r reserved access_type vm_addr n s).2 = s \/
  exists i, access_type = Store /\ access_violation_handler_payload r = Some i /\
    requested_length r vm_addr n <= reserved /\ borrow_counters s !! i = Some 0.
Proof using.
  unfold access_violation_handler. destruct access_type; [by left|].
  destruct (access_violation_handler_payload r) as [i|]; [|by left].
  destruct (Z.ltb_spec reserved (requested_length r vm_addr n)); [by left|].
  pose proof (borrow_mut_run s i) as Hb.
  destruct (try_borrow_mut i s) as [[[]|e|] s1]; [|by left; subst|done].
  right. exists i. by destruct Hb.
Qed.

(** What may happen to account [i] with fields [a] and [p]. *)
Record served (i m : nat) (s' : TransactionAccounts) : Prop := {
  sv_ok : ta_ok L T s';
  sv_counters : borrow_counters s' = borrow_counters s;
  sv_others j : j <> i -> shared_account_fields s' !! j = shared_account_fields s !! j /\
    private_account_fields s' !! j = private_account_fields s !! j;
  sv_touched : touched_flags s' !! i = Some true;
  sv_lamports : lamports_delta s' = lamports_delta s;
  sv_account a p : shared_account_fields s !! i = Some a ->
    private_account_fields s !! i = Some p -> exists a' p',
    shared_account_fields s' !! i = Some a' /\ private_account_fields s' !! i = Some p' /\
    (key a', owner a', lamports a') = (key a, owner a, lamports a) /\
    (rent_epoch p', executable p') = (rent_epoch p, executable p) /\
    (payload p' = payload p \/ payload p' = resize m 0 (payload p));
}.

Lemma handler_served direct r reserved vm_addr n i :
  0 <= reserved -> access_violation_handler_payload r = Some i ->
  requested_length r vm_addr n <= reserved -> borrow_counters s !! i = Some 0 ->
  served i (grown_length reserved (payload_len (private_account_fields s !!! i)) s)
    (access_violation_handler direct r reserved Store vm_addr n s).2.
Proof using Hok.
  intros Hr Hp Hq Hc. pose proof (lookup_lt_Some _ _ _ Hc) as Hi.
  rewrite (len_counters _ _ _ Hok) in Hi. pose proof (len_touched _ _ _ Hok) as Ht.
  rewrite handler_run with (i := i) by done. case_bool.
  - destruct (grow_run i reserved r Hr Hi) as (_ & Hok1 & He). cbv zeta in *.
    split; [done|done| | | |].
    + intros j Hj. simpl. by rewrite !list_lookup_alter_ne.
    + simpl. apply list_lookup_insert_eq. by rewrite Ht.
    + simpl. lia.
    + intros a p Ha Hp'. simpl. rewrite !list_lookup_alter_eq, Ha, Hp'. simpl.
      eexists _, _. split_and!; [done|done|done|done|by right].
  - split; [|done|done| |done|].
    + destruct Hok. split; simpl; rewrite ?length_insert; done.
    + simpl. apply list_lookup_insert_eq. by rewrite Ht.
    + intros a p Ha Hp'. exists a, p. split_and!; [done|done|done|done|by left].
Qed.
End handler.

(** C31: A write past the mapped part of an account's data leaves the accounts as they
    are, or touches the account the region maps: that account keeps its key, owner,
    lamports and flags, its data is kept or reallocated with zeros to at most the
    reserved length and the maximal account size, and the total of reallocations is
    exact and within the limit.  The reallocation is one the runtime allows, and
    covers the access when the limits leave room for it. *)
Theorem access_violation_safe (L T : Z) (s : TransactionAccounts) (direct : bool)
    (r : MemoryRegion) (reserved : Z) (access_type : AccessType) (vm_addr n : Z) :
  ta_ok L T s -> 0 <= reserved ->
  let (r', s') := access_violation_handler direct r reserved access_type vm_addr n s in
  s' = s \/
  exists i, access_violation_handler_payload r = Some i /\ access_type = Store /\
    let old_len := payload_len (private_account_fields s !!! i) in
    let m := grown_length reserved old_len s in
    served L T s i m s' /\
    Z.of_nat m <= reserved /\ Z.of_nat m <= MAX_ACCOUNT_DATA_LEN /\
    accounts_can_data_be_resized old_len m s = (Ok tt, s) /\
    (requested_length r vm_addr n <= MAX_ACCOUNT_DATA_LEN ->
     requested_length r vm_addr n <= Z.of_nat old_len +
       (MAX_ACCOUNT_DATA_GROWTH_PER_TRANSACTION - resize_delta s) ->
     requested_length r vm_addr n <= Z.of_nat m).
Proof.
  intros Hok Hr.
  pose proof (handler_cases s direct r reserved access_type vm_addr n) as Hc.
  pose proof (fun i => handler_served L T s Hok direct r reserved vm_addr n i Hr) as Hs.
  destruct Hc as [E|(i & -> & Hp & Hq & Hc)].
  { destruct (access_violation_handler _ _ _ _ _ _ _). by left. }
  specialize (Hs i Hp Hq Hc). destruct (access_violation_handler _ _ _ _ _ _ _) as [r' s'].
  right. exists i. cbv zeta. split_and!; [done|done|done|..].
  all: apply lookup_lt_Some in Hc; rewrite (len_counters _ _ _ Hok) in Hc.
  all: destruct (lookup_lt_is_Some_2 _ _ Hc) as [a Ha].
  all: destruct (lookup_lt_is_Some_2 (private_account_fields s) i) as [p Hp'];
    [by rewrite (len_private _ _ _ Hok)|].
  all: pose proof (payload_small _ _ (accounts_are_ok _ _ _ Hok i a p Ha Hp')) as Hsmall.
  all: rewrite (list_lookup_total_correct _ _ _ Hp'); fold (payload_len p) in Hsmall.
  all: pose proof (grown_length_bounds L T s Hok reserved (payload_len p) Hr Hsmall).
  all: first [by apply (growth_allowed L T) | lia].
Qed.

Definition demo_region : MemoryRegion := mk_region 4096 3 (Some 0%nat).
Definition demo_accounts : TransactionAccounts :=
  accounts_new [(7, mk_asd 5 [1; 2; 3] 9 false 0)].

Lemma demo_accounts_ok : ta_ok 3 5 demo_accounts.
Proof.
  split; try done; [unfold MAX_ACCOUNTS_PER_TRANSACTION; cbn; lia|].
  intros [|i] a p Ha Hp; simplify_eq/=. split; done.
Qed.

Lemma access_violation_safe_witness :
  let s' := (access_violation_handler false demo_region 10 Store 4100 4 demo_accounts).2 in
  ta_ok 3 5 s' /\ data_at 0 s' = [1; 2; 3; 0; 0; 0; 0; 0; 0; 0].
Proof.
  pose proof (access_violation_safe 3 5 demo_accounts false demo_region 10 Store 4100 4
    demo_accounts_ok ltac:(done)) as H. cbv zeta. split; [|by vm_compute].
  destruct (access_violation_handler _ _ _ _ _ _ _) as [r' s'].
  destruct H as [->|(i & _ & _ & [H] & _)]; [exact demo_accounts_ok|exact H].
Defined.
