(* ===== verification/CpiPrivileges.v ===== *)
(** * Cross-program invocations gain no privilege

    The accounts [InvokeContext::prepare_next_cpi_instruction] hands to a callee:
    one per account the caller listed, in order, each with the union of the flags
    requested for it, writable only if it is writable in the caller, and signed
    only if it is signed in the caller or derived from the caller's seeds. *)

From S2P Require Import Prelude SvmInterface TransactionAccounts InstructionAccounts.
From S2P Require Import TransactionContext InvokeContext AccountSafety.
Local Open Scope Z_scope.

(** The deduplication map of an instruction: the positions it holds are those of
    the account they are stored for. *)
Definition dedup_ok (ias : list InstructionAccount) (dm : list Z) : Prop :=
  forall i k, dm !! i = Some k -> k < Z.of_nat (length ias) ->
    0 <= k /\ exists ia, ias !! Z.to_nat k = Some ia /\ index_in_transaction ia = i.

Lemma u8_of_bool_ne b : negb (u8_of_bool b =? 0) = b.
Proof. by destruct b. Qed.
Lemma new_signer i sg w : ia_is_signer (ia_new i sg w) = sg.
Proof. by destruct sg. Qed.
Lemma new_writable i sg w : ia_is_writable (ia_new i sg w) = w.
Proof. by destruct w. Qed.

Section collect.
Context {SI : SvmInterface} (s : TransactionAccounts).

Abbreviation index_of meta := (find_index_of_account (pubkey meta) s).

(** Some account of [l] is the account [i] and has the flag. *)
Definition wants (flag : AccountMeta -> bool) (i : nat) (l : list AccountMeta) : bool :=
  existsb (fun meta => bool_decide (index_of meta = Some i) && flag meta) l.

Lemma wants_app flag i l k : wants flag i (l ++ k) = wants flag i l || wants flag i k.
Proof. apply existsb_app. Qed.

(** What the first loop has established after the accounts [done]: every account
    is listed at its position, the map holds first positions, and the flags of a
    first position are the union of those requested so far. *)
Record collected (done : list AccountMeta) (dm : list Z) (ias : list InstructionAccount) :
    Prop := {
  col_length : length ias = length done;
  col_index j meta : done !! j = Some meta ->
    exists ia, ias !! j = Some ia /\ index_of meta = Some (index_in_transaction ia);
  col_map j ia : ias !! j = Some ia ->
    exists k, dm !! index_in_transaction ia = Some (Z.of_nat k) /\ (k <= j)%nat;
  col_first i k : dm !! i = Some k -> k < Z.of_nat (length ias) ->
    0 <= k /\ exists ia, ias !! Z.to_nat k = Some ia /\ index_in_transaction ia = i /\
      ia_is_signer ia = wants meta_is_signer i done /\
      ia_is_writable ia = wants meta_is_writable i done;
  col_fresh i k : dm !! i = Some k -> Z.of_nat (length ias) <= k -> k = u16_max;
  col_flags j ia : ias !! j = Some ia ->
    (ia_is_signer ia = true -> wants meta_is_signer (index_in_transaction ia) done = true) /\
    (ia_is_writable ia = true -> wants meta_is_writable (index_in_transaction ia) done = true);
}.

Lemma collected_start m : collected [] (replicate m u16_max) [].
Proof.
  split; [done|done|done| | |done].
  - intros i k [-> _]%lookup_replicate. unfold u16_max. simpl. lia.
  - by intros i k [-> _]%lookup_replicate.
Qed.

Lemma wants_none flag i done dm ias :
  collected done dm ias -> (forall ia, ia ∈ ias -> index_in_transaction ia <> i) ->
  wants flag i done = false.
Proof.
  intros Hc Hi. apply not_true_iff_false. intros [meta [Hm Hf]]%existsb_exists.
  apply andb_prop in Hf as [Hf _]. apply bool_decide_eq_true in Hf.
  apply list_elem_of_In, list_elem_of_lookup in Hm as [j Hj].
  destruct (col_index _ _ _ Hc j meta Hj) as (ia & Hia & E). rewrite Hf in E.
  apply (Hi ia); [by eapply list_elem_of_lookup_2|congruence].
Qed.

Lemma wants_snoc flag i done meta j :
  index_of meta = Some j ->
  wants flag i (done ++ [meta]) = wants flag i done || (bool_decide (j = i) && flag meta).
Proof.
  intros Hj. rewrite wants_app. f_equal. unfold wants. simpl. rewrite orb_false_r, Hj. f_equal.
  apply bool_decide_ext. naive_solver.
Qed.

Section step.
Context (seen : list AccountMeta) (dm : list Z) (ias : list InstructionAccount).
Context (meta : AccountMeta) (idx : nat) (c : Z).
Hypothesis Hc : collected seen dm ias.
Hypothesis Hsmall : Z.of_nat (S (length seen)) <= u16_max.
Hypothesis Hidx : index_of meta = Some idx.
Hypothesis Hdm : dm !! idx = Some c.

Let upd (ia : InstructionAccount) : InstructionAccount :=
  set_is_writable (ia_is_writable ia || meta_is_writable meta)
    (set_is_signer (ia_is_signer ia || meta_is_signer meta) ia).

Lemma upd_flags ia :
  index_in_transaction (upd ia) = index_in_transaction ia /\
  ia_is_signer (upd ia) = ia_is_signer ia || meta_is_signer meta /\
  ia_is_writable (upd ia) = ia_is_writable ia || meta_is_writable meta.
Proof. split_and!; [done|apply u8_of_bool_ne|apply u8_of_bool_ne]. Qed.

Lemma seen_length : Z.of_nat (length ias) < u16_max.
Proof using Hc Hsmall. rewrite (col_length _ _ _ Hc). lia. Qed.

(** The account was listed before, at position [c]. *)
Section again.
Context (ia : InstructionAccount).
Hypothesis Hlt : c < Z.of_nat (length ias).
Hypothesis Hia : ias !! Z.to_nat c = Some ia.
Let l := <[Z.to_nat c := upd ia]> ias.

Lemma again_this : 0 <= c /\ index_in_transaction ia = idx /\
  ia_is_signer ia = wants meta_is_signer idx seen /\
  ia_is_writable ia = wants meta_is_writable idx seen.
Proof using Hc Hdm Hlt Hia.
  destruct (col_first _ _ _ Hc idx c Hdm Hlt) as (H0 & ia1 & E1 & Ei & Es & Ew).
  rewrite Hia in E1. injection E1 as <-. done.
Qed.

Lemma again_length : length l = length ias.
Proof. apply length_insert. Qed.

Lemma again_at : l !! Z.to_nat c = Some (upd ia).
Proof using Hia. apply list_lookup_insert_eq. by eapply lookup_lt_Some. Qed.

Lemma again_old j x : l !! j = Some x -> exists y, ias !! j = Some y /\
  index_in_transaction x = index_in_transaction y /\ (x = y \/ y = ia /\ x = upd ia).
Proof using Hia.
  destruct (decide (j = Z.to_nat c)) as [->|Hne].
  - rewrite again_at. intros [= <-]. exists ia. auto.
  - unfold l. rewrite list_lookup_insert_ne by done. intros. exists x. auto.
Qed.

Lemma again_first i k :
  dm !! i = Some k -> k < Z.of_nat (length (l ++ [upd ia])) ->
  0 <= k /\ exists x, (l ++ [upd ia]) !! Z.to_nat k = Some x /\ index_in_transaction x = i /\
    ia_is_signer x = wants meta_is_signer i (seen ++ [meta]) /\
    ia_is_writable x = wants meta_is_writable i (seen ++ [meta]).
Proof using Hc Hsmall Hidx Hdm Hlt Hia.
  intros Hk Hlk. rewrite length_app, again_length in Hlk. simpl in Hlk.
  destruct again_this as (H0 & Ei & Es & Ew). destruct (upd_flags ia) as (Ui & Us & Uw).
  assert (k < Z.of_nat (length ias)) as Hlt'.
  { destruct (Z.lt_ge_cases k (Z.of_nat (length ias))) as [|Hge]; [done|].
    pose proof (col_fresh _ _ _ Hc i k Hk Hge). pose proof seen_length. lia. }
  destruct (col_first _ _ _ Hc i k Hk Hlt') as (Hk0 & x & Ex & Exi & Exs & Exw).
  split; [done|]. rewrite !(wants_snoc _ _ _ _ _ Hidx). destruct (decide (idx = i)) as [<-|Hne].
  - assert (k = c) as -> by congruence. exists (upd ia). rewrite bool_decide_true by done.
    rewrite Ui, Us, Uw, Es, Ew. split_and!; [|done..]. apply lookup_app_l_Some, again_at.
  - exists x. rewrite bool_decide_false, !orb_false_r by done. split_and!; [|done..].
    apply lookup_app_l_Some. unfold l. rewrite list_lookup_insert_ne; [done|].
    intros E. assert (x = ia) by congruence. congruence.
Qed.

Lemma again_flags j x :
  (l ++ [upd ia]) !! j = Some x ->
  (ia_is_signer x = true ->
    wants meta_is_signer (index_in_transaction x) (seen ++ [meta]) = true) /\
  (ia_is_writable x = true ->
    wants meta_is_writable (index_in_transaction x) (seen ++ [meta]) = true).
Proof using Hc Hidx Hdm Hlt Hia.
  destruct again_this as (H0 & Ei & Es & Ew). destruct (upd_flags ia) as (Ui & Us & Uw).
  assert (x = upd ia -> (ia_is_signer x = true ->
    wants meta_is_signer (index_in_transaction x) (seen ++ [meta]) = true) /\
   (ia_is_writable x = true ->
    wants meta_is_writable (index_in_transaction x) (seen ++ [meta]) = true)) as Hnew.
  { intros ->. rewrite !(wants_snoc _ _ _ _ _ Hidx), Ui, Ei, bool_decide_true by done.
    by rewrite Us, Uw, Es, Ew. }
  intros [Hj|[Hj Hx]]%lookup_app_Some.
  - destruct (again_old j x Hj) as (y & Hy & E & [->|[-> ->]]); [|by apply Hnew].
    destruct (col_flags _ _ _ Hc j y Hy) as [F1 F2].
    rewrite !(wants_snoc _ _ _ _ _ Hidx). split; intros F; [rewrite F1|rewrite F2]; done.
  - apply list_lookup_singleton_Some in Hx as [? <-]. by apply Hnew.
Qed.

Lemma collect_again : collected (seen ++ [meta]) dm (l ++ [upd ia]).
Proof using Hc Hsmall Hidx Hdm Hlt Hia.
  destruct again_this as (H0 & Ei & Es & Ew). destruct (upd_flags ia) as (Ui & Us & Uw).
  pose proof (col_length _ _ _ Hc) as Hlen. pose proof again_length as Hl. split.
  - by rewrite !length_app, Hl, Hlen.
  - intros j m [Hj|[Hj Hm]]%lookup_app_Some.
    + destruct (col_index _ _ _ Hc j m Hj) as (x & Hx & E).
      destruct (decide (j = Z.to_nat c)) as [->|Hne].
      * exists (upd ia). split; [|rewrite Ui; congruence]. apply lookup_app_l_Some, again_at.
      * exists x. split; [|done]. apply lookup_app_l_Some. unfold l.
        by rewrite list_lookup_insert_ne.
    + apply list_lookup_singleton_Some in Hm as [? <-]. exists (upd ia).
      rewrite Ui, Ei. split; [|done]. rewrite lookup_app_r by lia.
      by replace (j - length l)%nat with 0%nat by lia.
  - intros j x [Hj|[Hj Hx]]%lookup_app_Some.
    + destruct (again_old j x Hj) as (y & Hy & -> & _). by apply (col_map _ _ _ Hc).
    + apply list_lookup_singleton_Some in Hx as [? <-]. rewrite Ui, Ei. exists (Z.to_nat c).
      rewrite Z2Nat.id by done. split; [done|lia].
  - apply again_first.
  - intros i k Hk Hge. rewrite length_app in Hge. apply (col_fresh _ _ _ Hc i k Hk). lia.
  - apply again_flags.
Qed.
End again.

(** The account is listed for the first time. *)
Section fresh.
Hypothesis Hge : Z.of_nat (length ias) <= c.
Let ia := ia_new idx (meta_is_signer meta) (meta_is_writable meta).
Let dm' := <[idx := as_u16 (Z.of_nat (length ias))]> dm.

Lemma fresh_map : dm' = <[idx := Z.of_nat (length ias)]> dm.
Proof using Hc Hsmall.
  unfold dm'. rewrite as_u16_id; [done|]. pose proof seen_length. unfold is_u. lia.
Qed.

Lemma fresh_wants flag : wants flag idx seen = false.
Proof using Hc Hsmall Hdm Hge.
  eapply wants_none; [exact Hc|]. intros x [j Hj]%list_elem_of_lookup E.
  destruct (col_map _ _ _ Hc j x Hj) as (k & Hk & Hkj). rewrite E, Hdm in Hk.
  injection Hk as Hk. apply lookup_lt_Some in Hj. lia.
Qed.

Lemma fresh_other j x : ias !! j = Some x -> index_in_transaction x <> idx.
Proof using Hc Hsmall Hdm Hge.
  intros Hj E. destruct (col_map _ _ _ Hc j x Hj) as (k & Hk & Hkj). rewrite E, Hdm in Hk.
  injection Hk as Hk. apply lookup_lt_Some in Hj. lia.
Qed.

Lemma fresh_first i k :
  dm' !! i = Some k -> k < Z.of_nat (length (ias ++ [ia])) ->
  0 <= k /\ exists x, (ias ++ [ia]) !! Z.to_nat k = Some x /\ index_in_transaction x = i /\
    ia_is_signer x = wants meta_is_signer i (seen ++ [meta]) /\
    ia_is_writable x = wants meta_is_writable i (seen ++ [meta]).
Proof using Hc Hsmall Hidx Hdm Hge.
  rewrite fresh_map, length_app. simpl. intros Hk Hlk. destruct (decide (i = idx)) as [->|Hne].
  - rewrite list_lookup_insert_eq in Hk by (by eapply lookup_lt_Some). injection Hk as <-.
    split; [lia|]. exists ia. rewrite Nat2Z.id, !(wants_snoc _ _ _ _ _ Hidx), !fresh_wants.
    rewrite bool_decide_true by done. unfold ia. rewrite new_signer, new_writable.
    split_and!; [by apply list_lookup_middle|done..].
  - rewrite list_lookup_insert_ne in Hk by done.
    assert (k < Z.of_nat (length ias)) as Hlt'.
    { destruct (Z.lt_ge_cases k (Z.of_nat (length ias))) as [|Hge']; [done|].
      pose proof (col_fresh _ _ _ Hc i k Hk Hge'). pose proof seen_length. lia. }
    destruct (col_first _ _ _ Hc i k Hk Hlt') as (Hk0 & x & Ex & Exi & Exs & Exw).
    split; [done|]. exists x. rewrite !(wants_snoc _ _ _ _ _ Hidx).
    rewrite bool_decide_false, !orb_false_r by done. split_and!; [|done..].
    by apply lookup_app_l_Some.
Qed.

Lemma collect_fresh : collected (seen ++ [meta]) dm' (ias ++ [ia]).
Proof using Hc Hsmall Hidx Hdm Hge.
  pose proof (col_length _ _ _ Hc) as Hlen. split.
  - by rewrite !length_app, Hlen.
  - intros j m [Hj|[Hj Hm]]%lookup_app_Some.
    + destruct (col_index _ _ _ Hc j m Hj) as (x & Hx & E). exists x.
      split; [by apply lookup_app_l_Some|done].
    + apply list_lookup_singleton_Some in Hm as [? <-]. exists ia. split; [|done].
      apply list_lookup_middle. lia.
  - intros j x [Hj|[Hj Hx]]%lookup_app_Some.
    + destruct (col_map _ _ _ Hc j x Hj) as (k & Hk & Hkj). exists k. split; [|done].
      rewrite fresh_map, list_lookup_insert_ne; [done|]. intros E. by apply (fresh_other j x).
    + apply list_lookup_singleton_Some in Hx as [? <-]. exists (length ias). split; [|lia].
      rewrite fresh_map. apply list_lookup_insert_eq. by eapply lookup_lt_Some.
  - apply fresh_first.
  - intros i k. rewrite fresh_map, length_app. simpl. intros Hk Hlk.
    destruct (decide (i = idx)) as [->|Hne].
    + rewrite list_lookup_insert_eq in Hk by (by eapply lookup_lt_Some).
      injection Hk as <-. lia.
    + rewrite list_lookup_insert_ne in Hk by done. apply (col_fresh _ _ _ Hc i k Hk). lia.
  - intros j x [Hj|[Hj Hx]]%lookup_app_Some.
    + destruct (col_flags _ _ _ Hc j x Hj) as [F1 F2].
      rewrite !(wants_snoc _ _ _ _ _ Hidx). split; intros F; [rewrite F1|rewrite F2]; done.
    + apply list_lookup_singleton_Some in Hx as [? <-]. simpl.
      rewrite !(wants_snoc _ _ _ _ _ Hidx), !fresh_wants, bool_decide_true by done.
      unfold ia. rewrite new_signer, new_writable. done.
Qed.
End fresh.
End step.

Lemma collect_account_ok seen dm ias meta dm' ias' :
  collected seen dm ias -> Z.of_nat (S (length seen)) <= u16_max ->
  collect_account s meta (dm, ias) = Ok (dm', ias') ->
  collected (seen ++ [meta]) dm' ias'.
Proof.
  intros Hc Hs H. unfold collect_account in H. inv_ok. case_bool_in H; inv_ok.
  - eapply collect_again; eauto.
  - eapply collect_fresh; eauto.
Qed.

Lemma collect_accounts_ok l seen dm ias dm' ias' :
  collected seen dm ias -> Z.of_nat (length seen + length l) <= u16_max ->
  collect_accounts s l (dm, ias) = Ok (dm', ias') ->
  collected (seen ++ l) dm' ias'.
Proof.
  revert seen dm ias. induction l as [|meta l IH]; intros seen dm ias Hc Hs H.
  { injection H as <- <-. by rewrite app_nil_r. }
  apply bind_Ok in H as ([dm1 ias1] & H1 & H). rewrite cons_middle, app_assoc.
  simpl in Hs. eapply IH; [|..|exact H].
  - eapply collect_account_ok; [done|lia|done].
  - rewrite length_app. simpl. lia.
Qed.
End collect.

Section check.
Context {SI : SvmInterface} (s : TransactionAccounts).
Context (caller : InstructionContext) (signers : list Pubkey) (l : list AccountMeta).
Context (dm : list Z) (ias0 : list InstructionAccount).
Hypothesis Hcol : collected s l dm ias0.
Hypothesis Hcaller : dedup_ok (instruction_accounts caller) (dedup_map caller).

(** The first occurrence [ref], at position [k], has no flag the caller lacks. *)
Definition allowed (k : nat) (ref : InstructionAccount) : Prop :=
  exists cia, cia ∈ instruction_accounts caller /\
    index_in_transaction cia = index_in_transaction ref /\
    (ia_is_writable ref = true -> ia_is_writable cia = true) /\
    (ia_is_signer ref = true -> ia_is_signer cia = true \/
       exists meta, l !! k = Some meta /\ pubkey meta ∈ signers).

(** The list [ias] after the positions below [m] have been checked. *)
Record checked (m : nat) (ias : list InstructionAccount) : Prop := {
  ck_length : length ias = length ias0;
  ck_todo j : (m <= j)%nat -> ias !! j = ias0 !! j;
  ck_first j ia : ias0 !! j = Some ia -> dm !! index_in_transaction ia = Some (Z.of_nat j) ->
    ias !! j = Some ia;
  ck_done j ia : (j < m)%nat -> ias0 !! j = Some ia ->
    exists x k ref, ias !! j = Some x /\ index_in_transaction x = index_in_transaction ia /\
      dm !! index_in_transaction ia = Some (Z.of_nat k) /\ ias0 !! k = Some ref /\
      index_in_transaction ref = index_in_transaction ia /\
      ia_is_signer x = ia_is_signer ref /\ ia_is_writable x = ia_is_writable ref /\
      allowed k ref;
}.

Lemma checked_start : checked 0 ias0.
Proof. split; [done|done|done|lia]. Qed.

(** Position [m] holds a first occurrence, or repeats an earlier one. *)
Lemma occurrence m ia :
  ias0 !! m = Some ia ->
  exists k ref, dm !! index_in_transaction ia = Some (Z.of_nat k) /\ (k <= m)%nat /\
    ias0 !! k = Some ref /\ index_in_transaction ref = index_in_transaction ia /\
    (ia_is_signer ia = true -> ia_is_signer ref = true) /\
    (ia_is_writable ia = true -> ia_is_writable ref = true).
Proof using Hcol.
  intros Hm. destruct (col_map _ _ _ _ Hcol m ia Hm) as (k & Hk & Hkm).
  pose proof (lookup_lt_Some _ _ _ Hm) as Hlt.
  destruct (col_first _ _ _ _ Hcol _ _ Hk) as (_ & ref & Href & Ei & Es & Ew); [lia|].
  rewrite Nat2Z.id in Href. destruct (col_flags _ _ _ _ Hcol m ia Hm) as [F1 F2].
  exists k, ref. split_and!; [done..| |]; intros F; [rewrite Es|rewrite Ew]; auto.
Qed.

Lemma check_repeat m ias ia k ref :
  checked m ias -> ias0 !! m = Some ia -> ias0 !! k = Some ref -> (k < m)%nat ->
  dm !! index_in_transaction ia = Some (Z.of_nat k) ->
  index_in_transaction ref = index_in_transaction ia ->
  (ia_is_signer ia = true -> ia_is_signer ref = true) ->
  (ia_is_writable ia = true -> ia_is_writable ref = true) ->
  checked (S m) (<[m := set_is_writable (ia_is_writable ia || ia_is_writable ref)
    (set_is_signer (ia_is_signer ia || ia_is_signer ref) ia)]> ias).
Proof.
  intros Hc Hm Hk Hkm Hd Ei F1 F2. pose proof (lookup_lt_Some _ _ _ Hm) as Hlt.
  assert (allowed k ref) as Hal.
  { destruct (ck_done _ _ Hc k ref Hkm Hk) as (x & k' & r & _ & _ & Hd' & Hr & _ & _ & _ & Ha).
    rewrite Ei, Hd in Hd'. injection Hd' as Hd'. assert (k = k') as <- by lia. congruence. }
  set (y := set_is_writable _ _). split.
  - rewrite length_insert. apply Hc.
  - intros j Hj. rewrite list_lookup_insert_ne by lia. apply (ck_todo _ _ Hc). lia.
  - intros j x Hx Hdx. rewrite list_lookup_insert_ne; [by apply (ck_first _ _ Hc)|].
    intros <-. assert (x = ia) as -> by congruence. rewrite Hd in Hdx. injection Hdx. lia.
  - intros j x Hj Hx. destruct (decide (j = m)) as [->|Hne].
    + assert (x = ia) as -> by congruence. exists y, k, ref.
      split_and!; [|done|done|done|done| | |done].
      * apply list_lookup_insert_eq. rewrite (ck_length _ _ Hc). done.
      * unfold ia_is_signer at 1. simpl. rewrite u8_of_bool_ne.
        destruct (ia_is_signer ia); [by rewrite F1|done].
      * unfold ia_is_writable at 1. simpl. rewrite u8_of_bool_ne.
        destruct (ia_is_writable ia); [by rewrite F2|done].
    + rewrite list_lookup_insert_ne by done. apply (ck_done _ _ Hc); [lia|done].
Qed.

Lemma check_first m ias ia :
  checked m ias -> ias0 !! m = Some ia -> dm !! index_in_transaction ia = Some (Z.of_nat m) ->
  allowed m ia -> checked (S m) ias.
Proof.
  intros Hc Hm Hd Ha. split; [apply Hc| |apply (ck_first _ _ Hc)|].
  - intros j Hj. apply (ck_todo _ _ Hc). lia.
  - intros j x Hj Hx. destruct (decide (j = m)) as [->|Hne].
    + assert (x = ia) as -> by congruence. exists ia, m, ia.
      split_and!; try done. by apply (ck_first _ _ Hc).
    + apply (ck_done _ _ Hc); [lia|done].
Qed.

Lemma check_account_ok m ias ias' :
  checked m ias -> check_account caller signers l dm m ias = Ok ias' -> checked (S m) ias'.
Proof using Hcol Hcaller.
  intros Hc H. unfold check_account in H. inv_ok.
  rename x into ia, H0 into Hm, x0 into c, H1 into Hd. rewrite (ck_todo _ _ Hc) in Hm by lia.
  destruct (occurrence m ia Hm) as (k & ref & Hk & Hkm & Href & Ei & F1 & F2).
  assert (c = Z.of_nat k) as -> by congruence.
  destruct (Z.eqb_spec (Z.of_nat m) (Z.of_nat k)) as [E|E]; simpl in H.
  - assert (k = m) as -> by lia. inv_ok. rename x into p, x0 into meta, x1 into cia.
    unfold get_index_of_account_in_instruction in H0. apply ok_or_Ok, bind_Some in H0 as (q & Hq & H0).
    destruct (Z.leb_spec (Z.of_nat (length (instruction_accounts caller))) q); [done|].
    injection H0 as <-. destruct (Hcaller _ _ Hq) as (_ & cia' & Hcia & Eci); [done|].
    assert (cia' = cia) as -> by congruence.
    head_if H; [done|]. head_if H; [done|]. inv_ok. eapply check_first; [exact Hc|exact Hm|exact Hk|].
    exists cia. split_and!; [by eapply list_elem_of_lookup_2|done| |].
    + intros Hw. rewrite Hw in E0. by destruct (ia_is_writable cia).
    + intros Hs. rewrite Hs in E1. destruct (ia_is_signer cia); [by left|]. right.
      exists meta. split; [done|]. simpl in E1. by apply negb_false_iff, bool_decide_eq_true in E1.
  - inv_ok. rename x into r, H0 into Hr. rewrite Nat2Z.id in Hr.
    assert (ias !! k = Some ref) as Hr'.
    { apply (ck_first _ _ Hc); [done|]. by rewrite Ei. }
    assert (r = ref) as -> by congruence. eapply check_repeat; [done..|lia| | | |]; done.
Qed.

Lemma check_accounts_ok r m ias ias' :
  checked m ias -> check_accounts caller signers l dm (seq m r) ias = Ok ias' ->
  checked (m + r) ias'.
Proof using Hcol Hcaller.
  revert m ias. induction r as [|r IH]; intros m ias Hc H.
  { injection H as <-. by rewrite Nat.add_0_r. }
  apply bind_Ok in H as (ias1 & H1 & H). rewrite Nat.add_succ_r, <-Nat.add_succ_l.
  eapply IH; [|exact H]. by eapply check_account_ok.
Qed.
End check.

(** What a callee is granted. *)
Record granted {SI : SvmInterface} (s : TransactionAccounts) (caller : InstructionContext)
    (signers : list Pubkey) (l : list AccountMeta) (ias : list InstructionAccount) : Prop := {
  gr_length : length ias = length l;
  gr_flags j meta : l !! j = Some meta -> exists ia, ias !! j = Some ia /\
    find_index_of_account (pubkey meta) s = Some (index_in_transaction ia) /\
    ia_is_signer ia = wants s meta_is_signer (index_in_transaction ia) l /\
    ia_is_writable ia = wants s meta_is_writable (index_in_transaction ia) l;
  gr_caller ia : ia ∈ ias -> exists cia, cia ∈ instruction_accounts caller /\
    index_in_transaction cia = index_in_transaction ia /\
    (ia_is_writable ia = true -> ia_is_writable cia = true) /\
    (ia_is_signer ia = true -> ia_is_signer cia = true \/
       exists meta, meta ∈ l /\ pubkey meta ∈ signers /\
         find_index_of_account (pubkey meta) s = Some (index_in_transaction ia));
}.

Section prepare.
Context {SI : SvmInterface} (s : TransactionAccounts).
Context (caller : InstructionContext) (signers : list Pubkey).
Hypothesis Hcaller : dedup_ok (instruction_accounts caller) (dedup_map caller).

Lemma checked_granted l dm ias0 ias :
  collected s l dm ias0 -> checked caller signers l dm ias0 (length ias0) ias ->
  granted s caller signers l ias /\ dedup_ok ias dm.
Proof.
  intros Hcol Hck.
  assert (forall j ia, ias !! j = Some ia -> exists ia0, ias0 !! j = Some ia0 /\ (j < length ias0)%nat)
    as Hin.
  { intros j ia Hj. apply lookup_lt_Some in Hj. rewrite (ck_length _ _ _ _ _ _ _ Hck) in Hj.
    destruct (lookup_lt_is_Some_2 _ _ Hj). eauto. }
  split; [split|].
  - rewrite (ck_length _ _ _ _ _ _ _ Hck). apply (col_length _ _ _ _ Hcol).
  - intros j meta Hj. destruct (col_index _ _ _ _ Hcol j meta Hj) as (ia0 & H0 & E).
    pose proof (lookup_lt_Some _ _ _ H0) as Hlt.
    destruct (ck_done _ _ _ _ _ _ _ Hck j ia0 Hlt H0)
      as (x & k & ref & Hx & Ei & Hd & Hr & Er & Es & Ew & _).
    exists x. rewrite Ei, Es, Ew. split_and!; [done|done|..];
      destruct (col_first _ _ _ _ Hcol _ _ Hd) as (_ & r & Hr' & _ & Fs & Fw);
      try (apply lookup_lt_Some in Hr; lia); rewrite Nat2Z.id in Hr'; congruence.
  - intros ia [j Hj]%list_elem_of_lookup. destruct (Hin j ia Hj) as (ia0 & H0 & Hlt).
    destruct (ck_done _ _ _ _ _ _ _ Hck j ia0 Hlt H0)
      as (x & k & ref & Hx & Ei & Hd & Hr & Er & Es & Ew & cia & Hc & Eci & Fw & Fs).
    assert (x = ia) as -> by congruence. exists cia. rewrite Es, Ew.
    split_and!; [done|congruence|done|]. intros F. destruct (Fs F) as [|(meta & Hm & Hp)]; [by left|].
    right. exists meta. split_and!; [by eapply list_elem_of_lookup_2|done|].
    destruct (col_index _ _ _ _ Hcol k meta Hm) as (y & Hy & ->). congruence.
  - intros i k Hk Hlt. rewrite (ck_length _ _ _ _ _ _ _ Hck) in Hlt.
    destruct (col_first _ _ _ _ Hcol i k Hk Hlt) as (Hk0 & ia0 & H0 & Ei & _). split; [done|].
    exists ia0. split; [|done]. apply (ck_first _ _ _ _ _ _ _ Hck); [done|].
    by rewrite Ei, Z2Nat.id.
Qed.

Lemma prepare_callee_ok instruction prog ias dm :
  Z.of_nat (length (metas instruction)) <= u16_max ->
  prepare_callee caller instruction signers s = Ok (prog, ias, dm) ->
  granted s caller signers (metas instruction) ias /\ dedup_ok ias dm /\
  find_index_of_account (program_id instruction) s = Some prog.
Proof using Hcaller.
  intros Hlen H. unfold prepare_callee in H. apply bind_Ok in H as ([dm0 ias0] & Hcol & H).
  apply bind_Ok in H as (ias1 & Hck & H). apply bind_Ok in H as (q & Hp & H).
  injection H as -> -> ->. eapply collect_accounts_ok in Hcol; [|apply collected_start|done].
  simpl in Hcol. eapply (check_accounts_ok s) in Hck; [|done|done|apply checked_start].
  destruct (checked_granted _ _ _ _ Hcol Hck). split_and!; [done|done|].
  unfold find_program in Hp. destruct (find_index_of_account _ s); [|done].
  destruct (get_index_of_account_in_instruction _ _); congruence.
Qed.
End prepare.
