(* ===== verification/RuntimeSafety.v ===== *)
(** * The runtime keeps every transaction within its rights

    The invariant of a running transaction ([tx_ok]), what an instruction keeps of
    the frames below it ([frames_kept]), and the contract between the runtime and a
    program: [cpi_ok] is what a cross-program invocation promises to the program
    that calls it, [program_ok] what a program promises to the runtime.  The
    runtime discharges the first from the second by induction on the depth of the
    invocations ([process_instruction_ok]). *)

From S2P Require Import Prelude SvmInterface TransactionAccounts InstructionAccounts.
From S2P Require Import TransactionContext InvokeContext AccountSafety CpiPrivileges.
Local Open Scope Z_scope.

Section relations.
Context {SI : SvmInterface}.

(** As [evolves], but [push] also rewrites the data of the instructions sysvar. *)
Record rt_evolves (W : nat -> Prop) (s s' : TransactionAccounts) : Prop := {
  rt_keys : key <$> shared_account_fields s' = key <$> shared_account_fields s;
  rt_counters : borrow_counters s' = borrow_counters s;
  rt_touched i : touched_flags s !! i = Some true -> touched_flags s' !! i = Some true;
  rt_changes i :
    shared_account_fields s' !! i = shared_account_fields s !! i /\
    private_account_fields s' !! i = private_account_fields s !! i \/
    W i /\ touched_flags s' !! i = Some true \/
    account_key i s = Some instructions_sysvar_id /\
    shared_account_fields s' !! i = shared_account_fields s !! i;
}.

Lemma rt_key W s s' i : rt_evolves W s s' -> account_key i s' = account_key i s.
Proof. intros H. unfold account_key. by rewrite <-!list_lookup_fmap, (rt_keys _ _ _ H). Qed.

Lemma rt_len W s s' : rt_evolves W s s' -> accounts_len s' = accounts_len s.
Proof.
  intros H. unfold accounts_len. by rewrite <-(length_fmap key), (rt_keys _ _ _ H), length_fmap.
Qed.

Lemma evolves_rt W s s' : evolves W s s' -> rt_evolves W s s'.
Proof.
  intros [H1 H2 H3 H4]. split; [done..|]. intros i. destruct (H4 i); [by left|]. right. by left.
Qed.

Lemma rt_refl W s : rt_evolves W s s.
Proof. apply evolves_rt, evolves_refl. Qed.

Lemma rt_trans W s1 s2 s3 : rt_evolves W s1 s2 -> rt_evolves W s2 s3 -> rt_evolves W s1 s3.
Proof.
  intros H1 H2. split.
  - by rewrite (rt_keys _ _ _ H2), (rt_keys _ _ _ H1).
  - by rewrite (rt_counters _ _ _ H2), (rt_counters _ _ _ H1).
  - intros i Hi. by apply (rt_touched _ _ _ H2), (rt_touched _ _ _ H1).
  - intros i. destruct (rt_changes _ _ _ H2 i) as [[E1 E2]|[|[K E]]]; [|by right; left|].
    + destruct (rt_changes _ _ _ H1 i) as [[E3 E4]|[[Hw Ht]|[K E]]].
      * left. by rewrite E1, E2.
      * right. left. split; [done|]. by apply (rt_touched _ _ _ H2).
      * right. right. by rewrite E1.
    + destruct (rt_changes _ _ _ H1 i) as [[E3 E4]|[[Hw Ht]|[K' E']]].
      * right. right. by rewrite <-(rt_key _ _ _ i H1), E, E3.
      * right. left. split; [done|]. by apply (rt_touched _ _ _ H2).
      * right. right. by rewrite E.
Qed.

Lemma rt_mono (W W' : nat -> Prop) s s' :
  (forall i, W i -> W' i) -> rt_evolves W s s' -> rt_evolves W' s s'.
Proof. intros HW [H1 H2 H3 H4]. split; [done..|]. intros i. destruct (H4 i); naive_solver. Qed.

(** ** The invariant of a running transaction *)

Definition entries_ok (t : TransactionContext) : Prop :=
  forall k ias dm, tx_instruction_accounts t !! k = Some ias ->
    deduplication_maps t !! k = Some dm -> dedup_ok ias dm.

Record tx_ok (L T : Z) (t : TransactionContext) : Prop := {
  tx_accounts : ta_ok L T (accounts t);
  tx_placeholder : instruction_trace t <> [];
  tx_tables : length (deduplication_maps t) = length (tx_instruction_accounts t);
  tx_datas : length (tx_instruction_data t) = length (tx_instruction_accounts t);
  tx_configured : (get_instruction_trace_length t <= length (tx_instruction_accounts t))%nat;
  tx_entries : entries_ok t;
  tx_stack k : k ∈ instruction_stack t -> (k < get_instruction_trace_length t)%nat;
}.

(** Exactly the frames of the trace are configured. *)
Definition synced (t : TransactionContext) : Prop :=
  length (tx_instruction_accounts t) = get_instruction_trace_length t.

(** What every part of the runtime keeps: the frames and the configurations of the
    trace, but for the placeholder at its end. *)
Record frames_below (t t' : TransactionContext) : Prop := {
  fb_capacity : instruction_stack_capacity t' = instruction_stack_capacity t;
  fb_rent : tx_rent t' = tx_rent t;
  fb_trace k : (k < get_instruction_trace_length t)%nat ->
    instruction_trace t' !! k = instruction_trace t !! k;
  fb_length : (length (instruction_trace t) <= length (instruction_trace t'))%nat;
  fb_accounts : tx_instruction_accounts t `prefix_of` tx_instruction_accounts t';
  fb_maps : deduplication_maps t `prefix_of` deduplication_maps t';
  fb_data : tx_instruction_data t `prefix_of` tx_instruction_data t';
}.

(** What an instruction keeps for the one that invoked it. *)
Record frames_kept (t t' : TransactionContext) : Prop := {
  fk_stack : instruction_stack t' = instruction_stack t;
  fk_next : next_top_level_instruction_index t' = next_top_level_instruction_index t;
  fk_below : frames_below t t';
}.

Lemma fb_refl t : frames_below t t.
Proof. by split. Qed.
Lemma fk_refl t : frames_kept t t.
Proof. split; [done|done|apply fb_refl]. Qed.

Lemma fb_trans t1 t2 t3 : frames_below t1 t2 -> frames_below t2 t3 -> frames_below t1 t3.
Proof.
  intros [A2 A3 A5 A6 A7 A8 A9] [B2 B3 B5 B6 B7 B8 B9]. split; try congruence.
  - intros k Hk. rewrite B5, A5; [done|done|]. unfold get_instruction_trace_length in *. lia.
  - lia.
  - by etrans.
  - by etrans.
  - by etrans.
Qed.

Lemma fk_trans t1 t2 t3 : frames_kept t1 t2 -> frames_kept t2 t3 -> frames_kept t1 t3.
Proof.
  intros [A1 A2 A3] [B1 B2 B3]. split; [congruence|congruence|]. by eapply fb_trans.
Qed.

Lemma prefix_lookup_lt {A} (l k : list A) i :
  l `prefix_of` k -> (i < length l)%nat -> k !! i = l !! i.
Proof. intros [m ->] Hi. by apply lookup_app_l. Qed.

(** The view of a configured instruction stays the same. *)
Lemma context_kept L T t t' k :
  tx_ok L T t -> (k < get_instruction_trace_length t)%nat -> frames_below t t' ->
  get_instruction_context_at_index_in_trace k t' =
  get_instruction_context_at_index_in_trace k t.
Proof.
  intros Hok Hk Hb. pose proof (tx_configured _ _ _ Hok). pose proof (tx_tables _ _ _ Hok).
  pose proof (tx_datas _ _ _ Hok). unfold get_instruction_context_at_index_in_trace.
  rewrite (fb_trace _ _ Hb), (fb_rent _ _ Hb) by done.
  rewrite (prefix_lookup_lt _ _ _ (fb_accounts _ _ Hb)) by lia.
  rewrite (prefix_lookup_lt _ _ _ (fb_maps _ _ Hb)) by lia.
  by rewrite (prefix_lookup_lt _ _ _ (fb_data _ _ Hb)) by lia.
Qed.

Lemma current_kept L T t t' ix :
  tx_ok L T t -> frames_kept t t' -> get_current_instruction_context t = Ok ix ->
  get_current_instruction_context t' = Ok ix.
Proof.
  intros Hok Hk. unfold get_current_instruction_context, get_current_instruction_index.
  rewrite (fk_stack _ _ Hk). destruct (last (instruction_stack t)) as [k|] eqn:Hl; [|done].
  simpl. rewrite (context_kept L T t t'); [done|done| |apply Hk].
  apply (tx_stack _ _ _ Hok). apply last_Some_app in Hl as [l ->]. set_solver.
Qed.

(** ** The contract between the runtime and the programs *)

(** What holds of the accounts however the computation ended. *)
Record acc_step (L T : Z) (W : nat -> Prop) (t t' : TransactionContext) : Prop := {
  as_ok : ta_ok L T (accounts t');
  as_evolves : rt_evolves W (accounts t) (accounts t');
}.
(** What holds of the frames when it succeeded. *)
Record frame_step (L T : Z) (t t' : TransactionContext) : Prop := {
  fs_ok : tx_ok L T t';
  fs_frames : frames_kept t t';
  fs_synced : synced t';
}.

Lemma acc_refl L T W t : tx_ok L T t -> acc_step L T W t t.
Proof. intros []. split; [done|apply rt_refl]. Qed.
Lemma acc_trans L T W t1 t2 t3 :
  acc_step L T W t1 t2 -> acc_step L T W t2 t3 -> acc_step L T W t1 t3.
Proof. intros [] []. split; [done|by eapply rt_trans]. Qed.
Lemma acc_mono L T (W W' : nat -> Prop) t t' :
  (forall i, W i -> W' i) -> acc_step L T W t t' -> acc_step L T W' t t'.
Proof. intros HW []. split; [done|by eapply rt_mono]. Qed.
Lemma acc_same L T W t1 t2 t2' :
  accounts t2' = accounts t2 -> acc_step L T W t1 t2 -> acc_step L T W t1 t2'.
Proof. intros E []. split; by rewrite E. Qed.

Lemma fs_trans L T t1 t2 t3 : frame_step L T t1 t2 -> frame_step L T t2 t3 -> frame_step L T t1 t3.
Proof. intros [] []. split; [done|by eapply fk_trans|done]. Qed.

(** [m] runs an instruction, or a part of it, in the current frame.  After a
    failure the transaction is abandoned: the frames may be left in disorder, the
    accounts may not. *)
Definition within {S E A} (n : nat) (tx : S -> TransactionContext) (ix : InstructionContext)
    (m : stm S E A) : Prop :=
  forall L T s, tx_ok L T (tx s) -> synced (tx s) -> accounts_len (accounts (tx s)) = n ->
    get_current_instruction_context (tx s) = Ok ix ->
    acc_step L T (writable_in (instruction_accounts ix)) (tx s) (tx (m s).2) /\
    (is_ok (m s).1 = true -> frame_step L T (tx s) (tx (m s).2)).
Abbreviation runs_within := (fun n => within n transaction_context).

(** A vector of account metas has a length that fits [u16]. *)
Definition cpi_ok (invoke : Instruction -> list (list (list Z)) ->
    stm (InvokeContext SI) InstructionError unit) : Prop :=
  forall n instruction seeds ix, Z.of_nat (length (metas instruction)) <= u16_max ->
    runs_within n ix (invoke instruction seeds).

Definition program_ok (p : program) : Prop :=
  forall n invoke ix, cpi_ok invoke -> runs_within n ix (p invoke).

(** ** Composing *)

Section within.
Context {S : Type} (n : nat) (tx : S -> TransactionContext) (ix : InstructionContext).

Lemma within_read {E A} (m : stm S E A) :
  (forall s, tx (m s).2 = tx s) -> within n tx ix m.
Proof.
  intros H L T s Hok Hs Hn Hc. rewrite !H. split; [by apply acc_refl|].
  intros _. split; [done|apply fk_refl|done].
Qed.

Lemma within_bind {E A B} (m : stm S E A) (f : A -> stm S E B) :
  within n tx ix m -> (forall a, within n tx ix (f a)) -> within n tx ix (m ≫= f).
Proof.
  intros Hm Hf L T s Hok Hs Hn Hc. destruct (Hm L T s Hok Hs Hn Hc) as [H1 H2].
  unfold mbind, stm_bind. destruct (m s) as [[a|e|] s1]; simpl in *; [|done|done].
  specialize (H2 eq_refl).
  destruct (Hf a L T s1) as [H3 H4]; [apply H2|apply H2| | |].
  { by rewrite (rt_len _ _ _ (as_evolves _ _ _ _ _ H1)). }
  { eapply current_kept; [exact Hok|apply H2|done]. }
  split; [by eapply acc_trans|]. intros Ho. eapply fs_trans; [done|by apply H4].
Qed.

(** The context an instruction asks for is its own. *)
Lemma within_current {A} (f : InstructionContext -> stm S InstructionError A) :
  within n tx ix (f ix) ->
  within n tx ix ((fun s => (get_current_instruction_context (tx s), s)) ≫= f).
Proof.
  intros Hf L T s Hok Hs Hn Hc. unfold mbind, stm_bind. rewrite Hc. by apply Hf.
Qed.

Lemma within_map_err {E E' A} (f : E -> E') (m : stm S E A) :
  within n tx ix m -> within n tx ix (st_map_err f m).
Proof.
  intros Hm L T s Hok Hs Hn Hc. destruct (Hm L T s Hok Hs Hn Hc) as [H1 H2].
  unfold st_map_err. by destruct (m s) as [[a|e|] s1].
Qed.
End within.

Lemma within_units {A} n ix (m : stm (InvokeContext SI) InstructionError A) :
  runs_within n ix m -> within n (fun s => transaction_context s.1) ix (on_ic m).
Proof.
  intros Hm L T [ic z] Hok Hs Hn Hc. destruct (Hm L T ic Hok Hs Hn Hc) as [H1 H2].
  unfold on_ic, st_zoom. simpl. by destruct (m ic) as [o ic1].
Qed.

Lemma with_accounts_ok L T t s' :
  tx_ok L T t -> ta_ok L T s' -> tx_ok L T (with_accounts s' t).
Proof. intros [H1 H2 H3 H4 H5 H6 H7] Hs. by split. Qed.

Lemma within_accounts {A} n ix (m : TA A) : ix_safe n ix m -> runs_within n ix (on_ta m).
Proof.
  intros Hm L T ic Hok Hs Hn Hc. pose proof (tx_accounts _ _ _ Hok) as Ha.
  destruct (Hm L T _ Ha Hn) as [H1 H2 _].
  unfold on_ta, on_tx, on_accounts, st_zoom. destruct (m _) as [o s']. simpl in *.
  split; [split; [done|by apply evolves_rt]|]. intros _.
  split; [by apply with_accounts_ok|split; [done|done|by split]|done].
Qed.

(** ** Storing the index of the current instruction *)

Lemma same_length_write L T s i d p :
  ta_ok L T s -> private_account_fields s !! i = Some p -> length d = length (payload p) ->
  ta_ok L T (view_write_data i d s).
Proof.
  intros Hok Hp Hd. pose proof (resize_exact _ _ _ Hok) as Hr. destruct Hok as [K1 K2 K3 K4 K5 K6 K7 K8 K9].
  split; simpl; try done.
  - by rewrite length_alter.
  - intros j a p'. destruct (decide (i = j)) as [<-|Hne].
    + rewrite list_lookup_alter_eq, Hp. intros Ha [= <-].
      destruct (K5 i a p Ha Hp) as [F1 F2 F3]. split; simpl; rewrite ?Hd; done.
    + rewrite list_lookup_alter_ne by done. apply K5.
  - unfold total_data in *. simpl. rewrite (zsum_alter _ _ _ _ _ Hp). simpl. lia.
Qed.

Lemma find_index_key k s i : find_index_of_account k s = Some i -> account_key i s = Some k.
Proof.
  unfold find_index_of_account, account_key. intros ([j a] & Hf & ->)%fmap_Some.
  apply list_find_Some in Hf as (Hj & Hk & _). simpl. by rewrite Hj, <-Hk.
Qed.

Context {SL : SvmLaws SI}.

Lemma sysvar_write L T s i d p :
  ta_ok L T s -> private_account_fields s !! i = Some p -> length d = length (payload p) ->
  account_key i s = Some instructions_sysvar_id ->
  rt_evolves (fun _ => False) s (view_write_data i d s).
Proof.
  intros Hok Hp Hd Hk. split; simpl; [done|done|done|]. intros j.
  destruct (decide (i = j)) as [<-|Hne]; [by right; right|].
  left. by rewrite list_lookup_alter_ne.
Qed.

Lemma drop_after L T W s s2 j :
  ta_ok L T s -> borrow_counters s !! j = Some 0 -> ta_ok L T s2 ->
  rt_evolves W (with_counters (fun _ => <[j := -1]> (borrow_counters s)) s) s2 ->
  ta_ok L T (drop_ref_mut j s2) /\ rt_evolves W s (drop_ref_mut j s2).
Proof.
  intros Hok Hj Hok2 He. rewrite (drop_restores L T s) by
    (first [done | apply (rt_counters _ _ _ He)]).
  split.
  - apply with_counters_ok; [|done]. rewrite (rt_len _ _ _ He). apply Hok.
  - destruct He as [K1 K2 K3 K4]. by split.
Qed.

Lemma store_current_ok L T n s :
  ta_ok L T s ->
  ta_ok L T (store_current_instruction n s).2 /\
  rt_evolves (fun _ => False) s (store_current_instruction n s).2.
Proof using SL.
  intros Hok. unfold store_current_instruction.
  destruct (find_index_of_account _ s) as [i|] eqn:Hf; [|by split; [|apply rt_refl]].
  pose proof (find_index_key _ _ _ Hf) as Hk. pose proof (borrow_mut_run s i) as Hr.
  unfold mbind, stm_bind.
  destruct (try_borrow_mut i s) as [[[]|e|] s1]; [|subst; by split; [|apply rt_refl]|done].
  destruct Hr as [Hj ->]. set (s1 := with_counters _ s).
  assert (ta_ok L T s1) as Hok1.
  { apply with_counters_ok; [|done]. rewrite length_insert. apply Hok. }
  unfold st_finally, st_gets, st_lift, st_modify, fail_if.
  destruct (negb _); simpl; [by eapply drop_after; [..|apply rt_refl]|].
  destruct (store_current_index_checked _ _) as [d|e|] eqn:Hd; simpl;
    [|by eapply drop_after; [..|apply rt_refl]..].
  destruct (lookup_lt_is_Some_2 (private_account_fields s) i) as [p Hp].
  { rewrite (len_private _ _ _ Hok), <-(len_counters _ _ _ Hok). by eapply lookup_lt_Some. }
  rewrite (list_lookup_total_correct _ _ _ Hp) in Hd. apply store_index_length in Hd.
  eapply drop_after; [done|done| |].
  - by eapply same_length_write.
  - by eapply sysvar_write.
Qed.

(** ** Entering and leaving an instruction *)

(** The next instruction to run is configured, at index [k], with accounts [ias]. *)
Record ready (t : TransactionContext) (k : nat) (ias : list InstructionAccount) : Prop := {
  rd_entry : tx_instruction_accounts t !! k = Some ias;
  rd_where : instruction_stack t = [] /\ k = next_top_level_instruction_index t /\
      (k < get_instruction_trace_length t)%nat /\ synced t \/
    instruction_stack t <> [] /\ k = get_instruction_trace_length t /\
      length (tx_instruction_accounts t) = S k;
}.

(** What [push] has done to a ready transaction. *)
Record pushed (L T : Z) (t : TransactionContext) (k : nat) (t' : TransactionContext) : Prop := {
  pu_ok : tx_ok L T t';
  pu_synced : synced t';
  pu_stack : instruction_stack t' = instruction_stack t ++ [k];
  pu_below : frames_below t t';
  pu_accounts : tx_instruction_accounts t' = tx_instruction_accounts t;
  pu_next : next_top_level_instruction_index t' =
    if (length (instruction_stack t) =? 0)%nat then S k
    else next_top_level_instruction_index t;
  pu_trace : (k < length (instruction_trace t))%nat;
}.

Lemma placeholder_below t f :
  frames_below t (with_trace
    (alter f (get_instruction_trace_length t) (instruction_trace t)) t).
Proof.
  split; simpl; try done.
  - intros k Hk. by rewrite list_lookup_alter_ne by lia.
  - by rewrite length_alter.
Qed.

Lemma placeholder_ok L T t f :
  tx_ok L T t ->
  tx_ok L T (with_trace (alter f (get_instruction_trace_length t) (instruction_trace t)) t).
Proof.
  intros [H1 H2 H3 H4 H5 H6 H7]. split; unfold get_instruction_trace_length in *; simpl;
    rewrite ?length_alter; try done.
  intros E. apply H2. apply (f_equal length) in E. rewrite length_alter in E.
  by apply length_zero_iff_nil.
Qed.

Lemma trace_succ L T t :
  tx_ok L T t -> length (instruction_trace t) = S (get_instruction_trace_length t).
Proof.
  intros Hok. pose proof (tx_placeholder _ _ _ Hok). unfold get_instruction_trace_length.
  destruct (instruction_trace t); simpl; [done|lia].
Qed.

(** The bounds of the trace and the tables, as [enter_trace] leaves them. *)
Record entered (L T : Z) (t : TransactionContext) (k : nat) (t' : TransactionContext) :
    Prop := {
  en_ok : tx_ok L T t';
  en_synced : synced t';
  en_stack : instruction_stack t' = instruction_stack t;
  en_below : frames_below t t';
  en_tables : tx_instruction_accounts t' = tx_instruction_accounts t;
  en_accounts : accounts t' = accounts t;
  en_next : next_top_level_instruction_index t' =
    if (length (instruction_stack t) =? 0)%nat then S k
    else next_top_level_instruction_index t;
  en_index : (k < get_instruction_trace_length t')%nat;
}.

Lemma enter_trace_ok L T t k ias :
  tx_ok L T t -> ready t k ias ->
  exists top, (enter_trace t).1 = Ok (k, top) /\ entered L T t k (enter_trace t).2.
Proof.
  intros Hok [Hi [(Hs & -> & Hlt & Hsync)|(Hs & -> & Hlen)]]; unfold enter_trace.
  - rewrite Hs. eexists. split; [done|]. destruct Hok as [H1 H2 H3 H4 H5 H6 H7].
    split; simpl; try done. by rewrite Hs.
  - destruct (instruction_stack t) as [|x l] eqn:Hst; [done|]. eexists. split; [done|].
    pose proof (trace_succ _ _ _ Hok) as Hsucc. destruct Hok as [H1 H2 H3 H4 H5 H6 H7].
    assert (get_instruction_trace_length t = length (tx_instruction_accounts t) - 1)%nat by lia.
    split; simpl; try done.
    + split; unfold get_instruction_trace_length in *; simpl; rewrite ?length_app; simpl;
        try done; try lia.
      * by destruct (instruction_trace t).
      * intros j Hj. specialize (H7 j Hj). lia.
    + unfold synced, get_instruction_trace_length in *. simpl. rewrite length_app. simpl. lia.
    + split; simpl; try done.
      * intros j Hj. rewrite lookup_app_l; [done|]. unfold get_instruction_trace_length in Hj. lia.
      * rewrite length_app. lia.
    + by rewrite Hst.
    + unfold get_instruction_trace_length. simpl. rewrite length_app. simpl.
      unfold get_instruction_trace_length in *. lia.
Qed.

Lemma enter_stack_ok L T t k top level t0 :
  entered L T t0 k t -> 
  acc_step L T (fun _ => False) t (enter_stack level (k, top) t).2 /\
  (is_ok (enter_stack level (k, top) t).1 = true ->
    (k < length (instruction_trace t0))%nat -> pushed L T t0 k (enter_stack level (k, top) t).2).
Proof using SL.
  intros [H1 H2 H3 H4 H5 H6 H7 H8]. unfold enter_stack.
  case_bool; [by split; [apply acc_refl|]|].
  unfold on_accounts, st_zoom. simpl.
  destruct (store_current_ok L T (Z.of_nat top) (accounts t) (tx_accounts _ _ _ H1)) as [S1 S2].
  destruct (store_current_instruction _ (accounts t)) as [o s']. simpl in *.
  split; [by split|]. intros _ Hk. destruct H1 as [K1 K2 K3 K4 K5 K6 K7].
  split; simpl; [|done|by rewrite H3| |done|done|done].
  - split; simpl; try done. intros j [Hj|Hj]%elem_of_app; [by apply K7|].
    apply list_elem_of_singleton in Hj as ->. done.
  - destruct H4 as [F1 F2 F3 F4 F5 F6 F7]. by split.
Qed.

Lemma context_push_ok L T t k ias :
  tx_ok L T t -> ready t k ias ->
  acc_step L T (fun _ => False) t (context_push t).2 /\
  (is_ok (context_push t).1 = true -> pushed L T t k (context_push t).2).
Proof using SL.
  intros Hok Hr. unfold context_push. case_bool; [by split; [apply acc_refl|]|].
  rewrite (trace_succ _ _ _ Hok). set (t1 := with_trace _ t).
  assert (tx_ok L T t1) as Hok1 by by apply placeholder_ok.
  assert (frames_below t t1) as Hb1 by apply placeholder_below.
  assert (get_instruction_trace_length t1 = get_instruction_trace_length t) as El.
  { unfold t1, get_instruction_trace_length. simpl. by rewrite length_alter. }
  case_bool; [by split; [apply (acc_same _ _ _ _ t); [done|apply acc_refl]|]|].
  assert (ready t1 k ias) as Hr1.
  { destruct Hr as [R1 R2]. split; [done|]. unfold synced. by rewrite El. }
  destruct (enter_trace_ok _ _ _ _ _ Hok1 Hr1) as (top & E1 & Hen).
  unfold mbind, stm_bind. destruct (enter_trace t1) as [o t2]. simpl in *. subst o.
  destruct (enter_stack_ok _ _ _ _ top (get_instruction_stack_height t) _ Hen) as [A1 A2].
  split.
  - destruct A1 as [B1 B2]. split; [done|]. by rewrite (en_accounts _ _ _ _ _ Hen) in B2.
  - intros Ho. destruct (A2 Ho) as [P1 P2 P3 P4 P5 P6 P7].
    { unfold t1. simpl. rewrite length_alter, (trace_succ _ _ _ Hok).
      destruct (rd_where _ _ _ Hr) as [(_ & _ & ? & _)|(_ & ? & _)]; lia. }
    split; [done|done|done|by eapply fb_trans|done|done|].
    unfold t1 in P7. simpl in P7. by rewrite length_alter in P7.
Qed.

Lemma with_accounts_id t : with_accounts (accounts t) t = t.
Proof. by destruct t. Qed.

Lemma detect_run L T t :
  ta_ok L T (accounts t) ->
  exists o, detect_unbalanced t = (o, t) /\
    forall b, o = Ok b -> b = negb (lamports_delta (accounts t) =? 0).
Proof.
  intros Hok. unfold detect_unbalanced, get_index_of_program_account_in_transaction.
  destruct (get_current_instruction_context t) as [ix|e|];
    [|by (eexists; split)|by (eexists; split)].
  case_bool; [by (eexists; split)|]. unfold on_accounts, st_zoom.
  pose proof (borrow_mut_run (accounts t) (Z.to_nat (ix_program_account_index_in_tx ix))) as Hr.
  destruct (try_borrow_mut _ (accounts t)) as [[[]|e|] s1]; [|subst s1|done].
  - destruct Hr as [Hj ->]. simpl. set (j := Z.to_nat _) in *.
    rewrite (drop_restores L T (accounts t)); [|by apply with_counters_ok;
      [rewrite length_insert; apply Hok|]|done|done].
    exists (Ok (negb (lamports_delta (accounts t) =? 0))). split; [|congruence].
    by destruct t as [[] ].
  - rewrite with_accounts_id. eexists. split; [done|]. by case_decide.
Qed.

(** What [pop] has done. *)
Record popped (t t' : TransactionContext) : Prop := {
  po_accounts : accounts t' = accounts t;
  po_stack : instruction_stack t' =
    take (length (instruction_stack t) - 1) (instruction_stack t);
  po_trace : instruction_trace t' = instruction_trace t;
  po_tables : tx_instruction_accounts t' = tx_instruction_accounts t;
  po_maps : deduplication_maps t' = deduplication_maps t;
  po_data : tx_instruction_data t' = tx_instruction_data t;
  po_next : next_top_level_instruction_index t' = next_top_level_instruction_index t;
  po_capacity : instruction_stack_capacity t' = instruction_stack_capacity t;
  po_rent : tx_rent t' = tx_rent t;
}.

Lemma context_pop_ok L T t :
  ta_ok L T (accounts t) ->
  popped t (context_pop t).2 /\
  (is_ok (context_pop t).1 = true -> lamports_delta (accounts t) = 0).
Proof.
  intros Hok. unfold context_pop. destruct (instruction_stack t) as [|x l] eqn:Hs.
  { split; [by split; rewrite ?Hs|done]. }
  destruct (detect_run L T t Hok) as (o & -> & Ho). rewrite <-Hs.
  set (t' := match last _ with Some _ => _ | None => _ end).
  assert (popped t t') as Hp by (unfold t'; by destruct (last _)).
  destruct o as [[]|e|]; simpl; split; try done.
  intros _. specialize (Ho _ eq_refl). symmetry in Ho. apply negb_false_iff, Z.eqb_eq in Ho. done.
Qed.

(** ** Preparing a cross-program invocation *)

Lemma configure_below i program_index ias dm d caller t :
  (get_instruction_trace_length t <= i)%nat ->
  is_ok (configure_instruction_at_index i program_index ias dm d caller t).1 = true ->
  let t' := (configure_instruction_at_index i program_index ias dm d caller t).2 in
  frames_kept t t' /\ accounts t' = accounts t /\
  length (instruction_trace t') = length (instruction_trace t) /\
  tx_instruction_accounts t' = tx_instruction_accounts t ++ [ias] /\
  deduplication_maps t' = deduplication_maps t ++ [dm] /\
  tx_instruction_data t' = tx_instruction_data t ++ [d].
Proof.
  intros Hi. unfold configure_instruction_at_index.
  destruct (instruction_trace t !! i) as [f|] eqn:Hf; [|done].
  destruct caller; simpl; intros _; (split_and!; [|done|by rewrite length_insert|done..]);
    (split; simpl; [done|done|]; split; simpl; try done; [|by rewrite length_insert
      |by eexists..]); intros k Hk; by rewrite list_lookup_insert_ne by lia.
Qed.

Lemma configure_error i program_index ias dm d caller t :
  is_ok (configure_instruction_at_index i program_index ias dm d caller t).1 = false ->
  (configure_instruction_at_index i program_index ias dm d caller t).2 = t.
Proof.
  unfold configure_instruction_at_index. destruct (instruction_trace t !! i); [|done].
  by destruct caller.
Qed.

Lemma entries_snoc t ias dm :
  length (deduplication_maps t) = length (tx_instruction_accounts t) ->
  entries_ok t -> dedup_ok ias dm ->
  forall k ias' dm', (tx_instruction_accounts t ++ [ias]) !! k = Some ias' ->
    (deduplication_maps t ++ [dm]) !! k = Some dm' -> dedup_ok ias' dm'.
Proof.
  intros Hl He Hd k ias' dm' [H1|[H1 H2]]%lookup_app_Some [H3|[H3 H4]]%lookup_app_Some.
  - by eapply He.
  - apply lookup_lt_Some in H1. lia.
  - apply lookup_lt_Some in H3. lia.
  - apply list_lookup_singleton_Some in H2 as [_ <-].
    by apply list_lookup_singleton_Some in H4 as [_ <-].
Qed.

Lemma current_dedup L T t ix :
  tx_ok L T t -> get_current_instruction_context t = Ok ix ->
  instruction_stack t <> [] /\ dedup_ok (instruction_accounts ix) (dedup_map ix).
Proof.
  intros Hok. unfold get_current_instruction_context, get_current_instruction_index.
  destruct (last (instruction_stack t)) as [k|] eqn:Hl; [|done].
  apply last_Some_app in Hl as [l Hl].
  assert (k < get_instruction_trace_length t)%nat as Hk.
  { apply (tx_stack _ _ _ Hok). rewrite Hl. set_solver. }
  pose proof (tx_configured _ _ _ Hok). pose proof (tx_tables _ _ _ Hok) as Ht. simpl.
  unfold get_instruction_context_at_index_in_trace. destruct (instruction_trace t !! k); [|done].
  intros [= <-]. split; [by rewrite Hl; destruct l|]. simpl.
  destruct (lookup_lt_is_Some_2 (tx_instruction_accounts t) k) as [ias Hias]; [lia|].
  destruct (lookup_lt_is_Some_2 (deduplication_maps t) k) as [dm Hdm]; [lia|].
  rewrite Hias, Hdm. by eapply (tx_entries _ _ _ Hok).
Qed.

Lemma prepare_next_cpi_ok L T t ix instruction signers :
  tx_ok L T t -> synced t -> get_current_instruction_context t = Ok ix ->
  Z.of_nat (length (metas instruction)) <= u16_max ->
  let r := prepare_next_cpi_instruction instruction signers t in
  accounts r.2 = accounts t /\
  (is_ok r.1 = true -> exists ias, tx_ok L T r.2 /\ frames_kept t r.2 /\
     ready r.2 (get_instruction_trace_length t) ias /\
     granted (accounts t) ix signers (metas instruction) ias).
Proof.
  intros Hok Hs Hc Hlen. destruct (current_dedup _ _ _ _ Hok Hc) as [Hne Hdd].
  unfold prepare_next_cpi_instruction. rewrite Hc. simpl.
  destruct (prepare_callee ix instruction signers (accounts t)) as [[[prog ias] dm]|e|] eqn:Hp;
    [|done|done]. simpl.
  destruct (get_current_instruction_index t) as [c|e|]; [|done|done]. simpl.
  destruct (prepare_callee_ok _ _ _ Hdd _ _ _ _ Hlen Hp) as (Hg & Hd & _).
  set (r := configure_instruction_at_index _ _ _ _ _ _ t).
  destruct (is_ok r.1) eqn:Ho; [|unfold r; by rewrite (configure_error _ _ _ _ _ _ _ Ho)].
  destruct (configure_below _ _ _ _ _ _ _ (le_n _) Ho) as (B1 & B2 & B3 & B4 & B5 & B6).
  fold r in B1, B2, B3, B4, B5, B6. split; [done|]. intros _. exists ias.
  assert (get_instruction_trace_length r.2 = get_instruction_trace_length t) as El.
  { unfold get_instruction_trace_length. by rewrite B3. }
  destruct Hok as [K1 K2 K3 K4 K5 K6 K7]. split_and!; [|done| |done].
  - split; rewrite ?B2, ?B4, ?B5, ?B6, ?El, ?length_app; simpl; try done; try lia.
    + intros E. apply K2, length_zero_iff_nil. by rewrite <-B3, E.
    + unfold entries_ok. rewrite B4, B5. by apply entries_snoc.
    + rewrite (fk_stack _ _ B1). done.
  - split.
    + rewrite B4. apply list_lookup_middle. by rewrite <-Hs.
    + right. rewrite (fk_stack _ _ B1), El, B4, length_app. simpl. unfold synced in Hs.
      split_and!; [done|done|lia].
Qed.
End relations.
