(* ===== verification/RuntimeProofs.v ===== *)
(** * Instructions, invocations and messages

    The runtime of [InvokeContext] against the contract of [RuntimeSafety]: given
    programs that keep [program_ok], an instruction at any depth changes only
    accounts that are writable in it and leaves the frames of its caller as they
    were ([process_instruction_ok], [invoke_within]), and so does a whole message
    ([process_message_ok]), which moreover neither creates nor destroys lamports
    when it succeeds. *)

From S2P Require Import Prelude SvmInterface TransactionAccounts InstructionAccounts.
From S2P Require Import TransactionContext InvokeContext AccountSafety CpiPrivileges.
From S2P Require Import RuntimeSafety.
Local Open Scope Z_scope.

Section runtime.
Context {SI : SvmInterface} {SL : SvmLaws SI}.
Abbreviation runs_within := (fun n => within n transaction_context).
Abbreviation tx_of := (fun s : InvokeContext SI * Z => transaction_context s.1).

Lemma get_program_owner_safe n ix ix' : ix_safe n ix (get_program_owner ix').
Proof.
  intros L T s Hok Hn.
  destruct (get_program_owner_run L T s ix' Hok) as [[e ->]|(i & a & _ & _ & ->)];
    by apply step_refl.
Qed.

Context (programs : Pubkey -> option program).
Hypothesis programs_ok : forall id p, programs id = Some p -> program_ok p.

Lemma run_entrypoint_within n ix invoke function builtin_id id :
  runs_within n ix (function invoke) ->
  within n tx_of ix (run_entrypoint invoke function builtin_id id).
Proof.
  intros Hf L T [ic z] Hok Hs Hn Hc. destruct (Hf L T ic Hok Hs Hn Hc) as [H1 H2].
  unfold run_entrypoint. simpl. destruct (function invoke ic) as [o ic1]. simpl in *.
  case_bool; simpl; [done|]. split; [done|]. by destruct o.
Qed.

Lemma set_return_data_within n ix id d : runs_within n ix (on_tx (set_return_data id d)).
Proof.
  intros L T ic Hok Hs Hn Hc. unfold on_tx, st_zoom, set_return_data. simpl.
  destruct Hok as [K1 K2 K3 K4 K5 K6 K7]. split; [split; [done|apply rt_refl]|]. intros _.
  split; [by split|split; [done|done|by split]|done].
Qed.

Lemma find_entrypoint_within n ix : within n tx_of ix (find_entrypoint programs).
Proof.
  unfold find_entrypoint.
  apply within_bind; [by apply within_read|]. intros ix'.
  apply within_bind; [apply within_units, within_accounts, get_program_owner_safe|].
  intros owner_id. apply within_bind; [by apply within_read|]. intros builtin_id.
  apply within_bind; [by apply within_read|]. intros function.
  apply within_bind; [by apply within_read|]. intros id.
  apply within_bind; [apply within_units, set_return_data_within|]. intros _.
  apply within_bind; [|intros _; by apply within_read].
  apply within_read. intros [ic z]. unfold on_ic, st_zoom, set_memory_context_abi_v1. simpl.
  by destruct (length (memory_contexts ic)).
Qed.

(** The entrypoint that is found is one of the programs. *)
Lemma find_entrypoint_program s function builtin_id id s' :
  find_entrypoint programs s = (Ok (function, builtin_id, id), s') ->
  programs builtin_id = Some function.
Proof.
  unfold find_entrypoint. intros H. by inv_ok.
Qed.

Lemma chain_within n invoke ix :
  cpi_ok invoke -> within n tx_of ix (process_executable_chain programs invoke).
Proof using programs_ok.
  intros Hi L T s Hok Hs Hn Hc.
  destruct (find_entrypoint_within n ix L T s Hok Hs Hn Hc) as [H1 H2].
  unfold process_executable_chain, mbind, stm_bind.
  destruct (find_entrypoint programs s) as [[[[function bid] id]|e|] s1] eqn:E; simpl in *;
    [|done|done]. specialize (H2 eq_refl).
  apply find_entrypoint_program in E.
  destruct (run_entrypoint_within n ix invoke function bid id (programs_ok _ _ E n _ ix Hi) L T s1)
    as [H3 H4]; [apply H2|apply H2| | |].
  { by rewrite (rt_len _ _ _ (as_evolves _ _ _ _ _ H1)). }
  { eapply current_kept; [exact Hok|apply H2|done]. }
  split; [by eapply acc_trans|]. intros Ho. eapply fs_trans; [done|by apply H4].
Qed.

Lemma invoke_push_ok L T ic k ias :
  tx_ok L T (transaction_context ic) -> ready (transaction_context ic) k ias ->
  acc_step L T (fun _ => False) (transaction_context ic) (transaction_context (invoke_push ic).2) /\
  (is_ok (invoke_push ic).1 = true ->
    pushed L T (transaction_context ic) k (transaction_context (invoke_push ic).2)).
Proof using SL.
  intros Hok Hr. unfold invoke_push.
  destruct (_ ≫= _) as [id|e|]; [|by split; [apply acc_refl|]..].
  case_bool; [by split; [apply acc_refl|]|].
  destruct (context_push_ok _ _ _ _ _ Hok Hr) as [H1 H2].
  unfold mbind, stm_bind, on_tx, st_zoom.
  by destruct (context_push (transaction_context ic)) as [[[]|e|] t'].
Qed.

Lemma invoke_pop_ok L T ic :
  ta_ok L T (accounts (transaction_context ic)) ->
  popped (transaction_context ic) (transaction_context (invoke_pop ic).2) /\
  (is_ok (invoke_pop ic).1 = true -> lamports_delta (accounts (transaction_context ic)) = 0).
Proof.
  intros Hok. unfold invoke_pop, on_tx, st_zoom. simpl.
  destruct (context_pop_ok L T (transaction_context ic) Hok) as [H1 H2].
  by destruct (context_pop (transaction_context ic)) as [o t'].
Qed.

(** The instruction that was pushed is the current one. *)
Lemma pushed_current L T t k t' ias :
  pushed L T t k t' -> tx_instruction_accounts t !! k = Some ias ->
  exists ix, get_current_instruction_context t' = Ok ix /\ instruction_accounts ix = ias.
Proof.
  intros Hp Hk. unfold get_current_instruction_context, get_current_instruction_index.
  rewrite (pu_stack _ _ _ _ _ Hp), last_snoc. simpl.
  unfold get_instruction_context_at_index_in_trace.
  destruct (lookup_lt_is_Some_2 (instruction_trace t') k) as [f ->].
  { pose proof (pu_trace _ _ _ _ _ Hp). pose proof (fb_length _ _ (pu_below _ _ _ _ _ Hp)). lia. }
  eexists. split; [done|]. simpl. by rewrite (pu_accounts _ _ _ _ _ Hp), Hk.
Qed.

(** What a whole instruction has done, from a ready transaction. *)
Record processed (L T : Z) (t : TransactionContext) (k : nat) (t' : TransactionContext) :
    Prop := {
  pr_ok : tx_ok L T t';
  pr_synced : synced t';
  pr_stack : instruction_stack t' = instruction_stack t;
  pr_below : frames_below t t';
  pr_next : next_top_level_instruction_index t' =
    if (length (instruction_stack t) =? 0)%nat then S k
    else next_top_level_instruction_index t;
  pr_balanced : lamports_delta (accounts t') = 0;
}.

Lemma popped_processed L T t k t1 t2 t3 :
  pushed L T t k t1 -> frame_step L T t1 t2 -> popped t2 t3 ->
  lamports_delta (accounts t2) = 0 -> processed L T t k t3.
Proof.
  intros Hp [F1 F2 F3] Ho Hl.
  assert (instruction_stack t3 = instruction_stack t) as Hs.
  { rewrite (po_stack _ _ Ho), (fk_stack _ _ F2), (pu_stack _ _ _ _ _ Hp), length_app. simpl.
    by rewrite Nat.add_sub, take_app_length. }
  destruct Ho as [O1 O2 O3 O4 O5 O6 O7 O8 O9]. destruct F1 as [K1 K2 K3 K4 K5 K6 K7].
  assert (get_instruction_trace_length t3 = get_instruction_trace_length t2) as El.
  { unfold get_instruction_trace_length. by rewrite O3. }
  split; [|by unfold synced in *; rewrite O4, El|done| | |by rewrite O1].
  - split; rewrite ?O1, ?O3, ?O4, ?O5, ?O6, ?El; try done.
    + unfold entries_ok. by rewrite O4, O5.
    + intros j Hj. apply K7. rewrite (fk_stack _ _ F2), (pu_stack _ _ _ _ _ Hp).
      apply elem_of_app. left. by rewrite <-Hs.
  - eapply fb_trans; [apply Hp|]. eapply fb_trans; [apply F2|].
    by split; rewrite ?O3, ?O4, ?O5, ?O6.
  - rewrite O7, (fk_next _ _ F2). apply Hp.
Qed.

(** A computation between [push] and [pop]. *)
Lemma bracket {S} (tx : S -> TransactionContext) (push m pop : stm S InstructionError unit)
    L T s k ias :
  (acc_step L T (fun _ => False) (tx s) (tx (push s).2) /\
   (is_ok (push s).1 = true -> pushed L T (tx s) k (tx (push s).2))) ->
  (forall s, ta_ok L T (accounts (tx s)) -> popped (tx s) (tx (pop s).2) /\
     (is_ok (pop s).1 = true -> lamports_delta (accounts (tx s)) = 0)) ->
  (forall n ix, within n tx ix m) -> ready (tx s) k ias ->
  acc_step L T (writable_in ias) (tx s) (tx ((push ;; then_always m pop) s).2) /\
  (is_ok ((push ;; then_always m pop) s).1 = true ->
    processed L T (tx s) k (tx ((push ;; then_always m pop) s).2)).
Proof.
  intros [A1 A2] Hpop Hm Hr. unfold mbind, stm_bind.
  destruct (push s) as [[[]|e|] s1]; simpl in *;
    [|by split; [eapply acc_mono; [|exact A1]|]..].
  specialize (A2 eq_refl). apply (acc_mono _ _ _ (writable_in ias)) in A1; [|done].
  destruct (pushed_current _ _ _ _ _ _ A2 (rd_entry _ _ _ Hr)) as (ix & Hc & Ei).
  destruct (Hm (accounts_len (accounts (tx s1))) ix L T s1) as [B1 B2]; [apply A2|apply A2|done|done|].
  rewrite Ei in B1. unfold then_always. destruct (m s1) as [o s2]. simpl in *.
  pose proof (acc_trans _ _ _ _ _ _ A1 B1) as C1.
  destruct (Hpop s2 (as_ok _ _ _ _ _ C1)) as [P1 P2].
  destruct (pop s2) as [o' s3]. simpl in *.
  pose proof (acc_same _ _ _ _ _ _ (po_accounts _ _ P1) C1) as C2.
  destruct o as [[]|e|]; [|by destruct o'|done].
  destruct o' as [[]|e|]; simpl; [|done|done]. split; [done|]. intros _.
  eapply popped_processed; [done|by apply B2|done|by apply P2].
Qed.

(** What the runtime promises of one instruction. *)
Definition processes (process : stm (InvokeContext SI * Z) InstructionError unit) : Prop :=
  forall L T s k ias, tx_ok L T (tx_of s) -> ready (tx_of s) k ias ->
    acc_step L T (writable_in ias) (tx_of s) (tx_of (process s).2) /\
    (is_ok (process s).1 = true -> processed L T (tx_of s) k (tx_of (process s).2)).

Lemma invoke_within process : processes process -> cpi_ok (invoke_with process).
Proof.
  intros Hp n instruction seeds ix Hlen L T ic Hok Hs _ Hc.
  unfold invoke_with, mbind, stm_bind, caller_program_id, st_lift. rewrite Hc. simpl.
  destruct (get_program_key ix _) as [caller|e|]; simpl; [|by split; [apply acc_refl|]..].
  destruct (derive_signers seeds caller) as [signers|e|]; simpl; [|by split; [apply acc_refl|]..].
  unfold on_tx, st_zoom.
  destruct (prepare_next_cpi_ok L T _ ix instruction signers Hok Hs Hc Hlen) as [H1 H2].
  destruct (prepare_next_cpi_instruction instruction signers _) as [o t1]. simpl in *.
  destruct o as [[]|e|]; simpl;
    [|by split; [eapply acc_same; [exact H1|by apply acc_refl]|]..].
  destruct (H2 eq_refl) as (ias & K1 & K2 & K3 & K4). unfold run_process.
  destruct (Hp L T (with_tx t1 ic, 0) _ ias K1 K3) as [A1 A2]. simpl in A1, A2.
  destruct (process (with_tx t1 ic, 0)) as [o [ic2 z2]]. simpl in *. split.
  - destruct A1 as [B1 B2]. rewrite H1 in B2. split; [done|]. eapply rt_mono; [|exact B2].
    intros i (ia & Hia & Ei & Hw). destruct (gr_caller _ _ _ _ _ K4 ia Hia) as (cia & C1 & C2 & C3 & _).
    exists cia. split_and!; [done|congruence|by apply C3].
  - intros Ho. destruct (A2 Ho) as [P1 P2 P3 P4 P5 P6]. split; [done| |done].
    split; [by rewrite P3, (fk_stack _ _ K2)| |by apply (fb_trans _ _ _ (fk_below _ _ K2))].
    rewrite P5, (fk_next _ _ K2), (fk_stack _ _ K2).
    destruct (current_dedup _ _ _ _ Hok Hc) as [Hne _]. by destruct (instruction_stack (transaction_context ic)).
Qed.

Lemma process_instruction_ok fuel : processes (process_instruction programs fuel).
Proof using programs_ok SL.
  induction fuel as [|fuel IH]; intros L T [ic z] k ias Hok Hr.
  { split; [by apply acc_refl|done]. }
  apply (bracket tx_of (on_ic invoke_push) (process_executable_chain programs
    (invoke_with (process_instruction programs fuel))) (on_ic invoke_pop) L T (ic, 0) k ias).
  - destruct (invoke_push_ok _ _ _ _ _ Hok Hr) as [A1 A2]. unfold on_ic, st_zoom. simpl.
    simpl in A1, A2. by destruct (invoke_push ic).
  - intros [ic' z'] Ht. destruct (invoke_pop_ok L T ic' Ht) as [A1 A2]. unfold on_ic, st_zoom.
    simpl in *. by destruct (invoke_pop ic').
  - intros n ix. by apply chain_within, invoke_within.
  - done.
Qed.

Lemma process_precompile_ok precompile id d datas :
  processes (on_ic (process_precompile precompile id d datas)).
Proof using SL.
  intros L T [ic z] k ias Hok Hr.
  pose proof (bracket transaction_context invoke_push (st_lift (precompile id d datas))
    invoke_pop L T ic k ias) as H. unfold on_ic, st_zoom. simpl in *.
  change (process_precompile precompile id d datas ic) with
    ((invoke_push ;; then_always (st_lift (precompile id d datas)) invoke_pop) ic).
  destruct ((invoke_push ;; _) ic) as [o ic']. apply H; [|..|done].
  - by eapply invoke_push_ok.
  - intros ic1 Ht. by eapply invoke_pop_ok.
  - intros n ix. by apply within_read.
Qed.

(** ** Top-level instructions *)

Section message.
Context (message : SVMMessage).

(** The accounts of a top-level instruction, as they are collected. *)
Record top_collected (seen : list nat) (dm : list Z) (ias : list InstructionAccount) : Prop := {
  tc_accounts : ias = (fun idx => ia_new idx (message_is_signer message idx)
    (message_is_writable message idx)) <$> seen;
  tc_dedup : dedup_ok ias dm;
  tc_fresh i k : dm !! i = Some k -> Z.of_nat (length ias) <= k -> k = u16_max;
}.

Lemma top_collect_one seen dm ias idx dm' ias' :
  top_collected seen dm ias -> Z.of_nat (S (length seen)) <= u16_max ->
  collect_top_level_account message idx (dm, ias) = Ok (dm', ias') ->
  top_collected (seen ++ [idx]) dm' ias'.
Proof.
  intros [C1 C2 C3] Hs H. assert (length ias = length seen) as Hl by by rewrite C1, length_fmap.
  unfold collect_top_level_account in H. apply bind_Ok in H as (c & Hc & H).
  apply expect_Ok in Hc. injection H as <- <-.
  assert (dedup_ok (ias ++ [ia_new idx (message_is_signer message idx)
    (message_is_writable message idx)]) dm) as Hold.
  { intros i k Hk Hlt. destruct (Z.lt_ge_cases k (Z.of_nat (length ias))) as [Hk'|Hk'].
    - destruct (C2 i k Hk Hk') as (K0 & ia & K1 & K2). split; [done|]. exists ia.
      split; [by apply lookup_app_l_Some|done].
    - rewrite length_app in Hlt. simpl in Hlt. pose proof (C3 i k Hk Hk'). lia. }
  split.
  - by rewrite fmap_app, C1.
  - case_bool; [|done]. rewrite as_u16_id by (unfold is_u; lia). intros i k Hk Hlt.
    destruct (decide (idx = i)) as [<-|Hne].
    + rewrite list_lookup_insert_eq in Hk by (by eapply lookup_lt_Some). injection Hk as <-.
      split; [lia|]. rewrite Nat2Z.id. eexists. split; [by apply list_lookup_middle|done].
    + rewrite list_lookup_insert_ne in Hk by done. by apply (Hold i k).
  - rewrite length_app. simpl. intros i k Hk Hge. case_bool_in Hk.
    + rewrite as_u16_id in Hk by (unfold is_u; lia). destruct (decide (idx = i)) as [<-|Hne].
      * rewrite list_lookup_insert_eq in Hk by (by eapply lookup_lt_Some). injection Hk as <-. lia.
      * rewrite list_lookup_insert_ne in Hk by done. apply (C3 i k Hk). lia.
    + apply (C3 i k Hk). lia.
Qed.

Lemma top_collect l seen dm ias dm' ias' :
  top_collected seen dm ias -> Z.of_nat (length seen + length l) <= u16_max ->
  collect_top_level_accounts message l (dm, ias) = Ok (dm', ias') ->
  top_collected (seen ++ l) dm' ias'.
Proof.
  revert seen dm ias. induction l as [|idx l IH]; intros seen dm ias Hc Hs H.
  { injection H as <- <-. by rewrite app_nil_r. }
  apply bind_Ok in H as ([dm1 ias1] & H1 & H). rewrite cons_middle, app_assoc.
  simpl in Hs. eapply IH; [|..|exact H].
  - eapply top_collect_one; [done|lia|done].
  - rewrite length_app. simpl. lia.
Qed.

(** The instruction with the accounts [l] gets no flag the message does not give. *)
Definition from_message (l : list nat) (ias : list InstructionAccount) : Prop :=
  ias = (fun idx => ia_new idx (message_is_signer message idx)
    (message_is_writable message idx)) <$> l.

(** The first [m] instructions of [all] are configured. *)
Record prepared (L T : Z) (all : list SVMInstruction) (m : nat) (t : TransactionContext) :
    Prop := {
  pp_accounts : ta_ok L T (accounts t);
  pp_trace : length (instruction_trace t) = S (length all);
  pp_tables : length (tx_instruction_accounts t) = m;
  pp_maps : length (deduplication_maps t) = m;
  pp_data : length (tx_instruction_data t) = m;
  pp_entries : entries_ok t;
  pp_stack : instruction_stack t = [];
  pp_next : next_top_level_instruction_index t = 0%nat;
  pp_message k ias ins : tx_instruction_accounts t !! k = Some ias -> all !! k = Some ins ->
    from_message (account_indices ins) ias;
}.

Lemma configure_top_level L T all m t ins ias dm program_index d :
  prepared L T all m t -> all !! m = Some ins -> dedup_ok ias dm ->
  from_message (account_indices ins) ias ->
  is_ok (configure_instruction_at_index m program_index ias dm d None t).1 = true ->
  let t' := (configure_instruction_at_index m program_index ias dm d None t).2 in
  prepared L T all (S m) t' /\ accounts t' = accounts t.
Proof.
  intros [P1 P2 P3 P4 P5 P6 P7 P8 P9] Hins Hd Hm Ho. unfold configure_instruction_at_index in *.
  destruct (instruction_trace t !! m) as [f|]; [|done]. simpl. split; [|done].
  split; simpl; rewrite ?length_insert, ?length_app; simpl; try done; try lia.
  - unfold entries_ok. simpl. apply entries_snoc; [congruence|done|done].
  - intros k ias' ins' [H1|[H1 H2]]%lookup_app_Some Hk; [by eapply P9|].
    apply list_lookup_singleton_Some in H2 as [E <-]. assert (k = m) as -> by lia. congruence.
Qed.

Lemma prepare_top_level_ok L T all l m t :
  (forall ins, ins ∈ all -> Z.of_nat (length (account_indices ins)) <= u16_max) ->
  prepared L T all m t -> drop m all = (snd <$> l) ->
  let r := prepare_top_level_instructions message m l t in
  accounts r.2 = accounts t /\ (is_ok r.1 = true -> prepared L T all (m + length l) r.2).
Proof.
  intros Hsmall. revert m t. induction l as [|[id ins] l IH]; intros m t Hp Hd; cbv zeta.
  { split; [done|]. by rewrite Nat.add_0_r. }
  assert (all !! m = Some ins) as Hm.
  { pose proof (lookup_drop all m 0) as E. rewrite Hd, Nat.add_0_r in E. done. }
  cbn [prepare_top_level_instructions]. unfold mbind, stm_bind.
  unfold prepare_top_level_instruction, mbind, stm_bind, st_lift.
  destruct (collect_top_level_accounts _ _ _) as [[dm ias]|e|] eqn:Hc; [|done|done].
  eapply (top_collect _ []) in Hc; [| |simpl; apply Hsmall; by eapply list_elem_of_lookup_2].
  2: { split; [done| |by intros i k [-> _]%lookup_replicate].
       intros i k [-> _]%lookup_replicate. unfold u16_max. simpl. lia. }
  destruct Hc as [C1 C2 _]. unfold st_map_err.
  set (c := configure_instruction_at_index _ _ _ _ _ _ t).
  destruct (is_ok c.1) eqn:Ho; unfold c in *; clear c.
  - destruct (configure_top_level _ _ _ _ _ _ _ _ _ _ Hp Hm C2 C1 Ho) as [Q1 Q2].
    destruct (configure_instruction_at_index _ _ _ _ _ _ t) as [[[]|e|] t1]; [|done|done]. simpl in *.
    destruct (IH (S m) t1 Q1) as [R1 R2].
    { pose proof (drop_S all ins m Hm) as E. rewrite Hd in E. by injection E as E. }
    split; [by rewrite R1|]. by rewrite Nat.add_succ_r.
  - pose proof (configure_error _ _ _ _ _ _ _ Ho) as E.
    by destruct (configure_instruction_at_index _ _ _ _ _ _ t) as [[[]|e|] t1]; simpl in *; subst.
Qed.

(** What a message allows to change. *)
Definition message_writes (i : nat) : Prop := message_is_writable message i = true.

Lemma from_message_writable l ias i :
  from_message l ias -> writable_in ias i -> message_writes i.
Proof.
  intros -> (ia & Hia & <- & Hw). apply list_elem_of_fmap in Hia as (idx & -> & _).
  by rewrite new_writable in Hw.
Qed.

(** Between two top-level instructions. *)
Record between (L T : Z) (index : nat) (l : list (Pubkey * SVMInstruction))
    (t : TransactionContext) : Prop := {
  bt_ok : tx_ok L T t;
  bt_synced : synced t;
  bt_stack : instruction_stack t = [];
  bt_next : next_top_level_instruction_index t = index;
  bt_bound : (index + length l <= get_instruction_trace_length t)%nat;
  bt_message j p : l !! j = Some p -> exists ias,
    tx_instruction_accounts t !! (index + j)%nat = Some ias /\
    from_message (account_indices p.2) ias;
  bt_balanced : lamports_delta (accounts t) = 0;
}.

Lemma between_next L T index p l t t' :
  between L T index (p :: l) t -> processed L T t index t' -> between L T (S index) l t'.
Proof.
  intros [B1 B2 B3 B4 B5 B6 B7] [P1 P2 P3 P4 P5 P6]. split; try done.
  - by rewrite P3.
  - by rewrite P5, B3.
  - pose proof (fb_length _ _ P4). unfold get_instruction_trace_length in *. simpl in B5. lia.
  - intros j q Hj. destruct (B6 (S j) q Hj) as (ias & Hi & Hf). exists ias. split; [|done].
    rewrite Nat.add_succ_l, <-Nat.add_succ_r.
    by rewrite (prefix_lookup_lt _ _ _ (fb_accounts _ _ P4)) by (by eapply lookup_lt_Some).
Qed.

Context (is_precompile : Pubkey -> bool).
Context (precompile : Pubkey -> list Z -> list (list Z) -> outcome InstructionError unit).

Lemma process_instructions_ok fuel L T index l s :
  between L T index l (tx_of s) ->
  let r := process_instructions programs is_precompile precompile fuel message index l s in
  acc_step L T message_writes (tx_of s) (tx_of r.2) /\
  (is_ok r.1 = true -> lamports_delta (accounts (tx_of r.2)) = 0).
Proof using programs_ok SL.
  revert index s. induction l as [|[id ins] l IH]; intros index [ic z] Hb; cbv zeta.
  { split; [apply acc_refl, Hb|]. intros _. apply Hb. }
  cbn [process_instructions].
  set (process := if is_precompile id then _ else _).
  assert (exists m, processes m /\ process = m (ic, 0)) as (m & Hm & Em).
  { unfold process. destruct (is_precompile id).
    - eexists. split; [apply process_precompile_ok|done].
    - eexists. split; [apply process_instruction_ok|done]. }
  destruct (bt_message _ _ _ _ _ Hb 0 _ eq_refl) as (ias & Hi & Hf). rewrite Nat.add_0_r in Hi.
  destruct (Hm L T (ic, 0) index ias) as [A1 A2]; [apply Hb| |].
  { split; [done|]. left. pose proof (bt_bound _ _ _ _ _ Hb) as Hbd. simpl in Hbd.
    split_and!; [apply Hb|symmetry; apply Hb|simpl; lia|apply Hb]. }
  apply (acc_mono _ _ _ message_writes) in A1; [|intros i Hw; by eapply from_message_writable].
  rewrite Em. destruct (m (ic, 0)) as [[[]|e|] [ic1 z1]]; simpl in *; [|done|done].
  destruct (IH (S index) (ic1, saturating_add u64_max z z1)) as [R1 R2].
  { simpl. eapply between_next; [done|by apply A2]. }
  split; [by eapply acc_trans|done].
Qed.

(** The context that a message starts from. *)
Record loaded (L T : Z) (t : TransactionContext) : Prop := {
  ld_accounts : ta_ok L T (accounts t);
  ld_balanced : lamports_delta (accounts t) = 0;
  ld_trace : length (instruction_trace t) = S (length (program_instructions message));
  ld_tables : tx_instruction_accounts t = [];
  ld_maps : deduplication_maps t = [];
  ld_data : tx_instruction_data t = [];
  ld_stack : instruction_stack t = [];
  ld_next : next_top_level_instruction_index t = 0%nat;
}.

Lemma prepared_between L T t t' :
  loaded L T t -> accounts t' = accounts t ->
  prepared L T (snd <$> program_instructions message) (length (program_instructions message)) t' ->
  between L T 0 (program_instructions message) t'.
Proof.
  intros Hl Ha [P1 P2 P3 P4 P5 P6 P7 P8 P9]. rewrite length_fmap in P2.
  assert (get_instruction_trace_length t' = length (program_instructions message)) as El.
  { unfold get_instruction_trace_length. lia. }
  split; [|by unfold synced; rewrite P3, El|done|done|by rewrite El| |by rewrite Ha; apply Hl].
  - split; rewrite ?P3, ?P4, ?P5, ?El; try done.
    + intros E. by rewrite E in P2.
    + rewrite P7. by intros k ?%elem_of_nil.
  - intros j p Hj. destruct (lookup_lt_is_Some_2 (tx_instruction_accounts t') j) as [ias Hi].
    { rewrite P3. by eapply lookup_lt_Some. }
    exists ias. split; [done|]. eapply P9; [done|]. by rewrite list_lookup_fmap, Hj.
Qed.

Definition message_ok : Prop :=
  forall p, p ∈ program_instructions message ->
    Z.of_nat (length (account_indices p.2)) <= u16_max.

Lemma process_message_ok fuel L T s :
  message_ok -> loaded L T (tx_of s) ->
  let r := process_message programs is_precompile precompile fuel message s in
  acc_step L T message_writes (tx_of s) (tx_of r.2) /\
  (is_ok r.1 = true -> lamports_delta (accounts (tx_of r.2)) = 0).
Proof using programs_ok SL.
  intros Hm Hl. destruct s as [ic z]. simpl in Hl. cbv zeta.
  unfold process_message, mbind, stm_bind, on_tx, st_zoom. simpl.
  destruct (prepare_top_level_ok L T (snd <$> program_instructions message)
    (program_instructions message) 0 (transaction_context ic)) as [A1 A2].
  { intros ins ([id ins'] & -> & Hp)%list_elem_of_fmap. by apply (Hm _ Hp). }
  { destruct Hl as [L1 L2 L3 L4 L5 L6 L7 L8].
    split; rewrite ?L4, ?L5, ?L6, ?length_fmap; try done; unfold entries_ok; by rewrite L4. }
  { done. }
  destruct (prepare_top_level_instructions message 0 _ _) as [o t1]. simpl in *.
  destruct o as [[]|e|]; simpl;
    [|by split; [eapply acc_same; [exact A1|split; [apply Hl|apply rt_refl]]|]..].
  pose proof (prepared_between _ _ _ _ Hl A1 (A2 eq_refl)) as Hb.
  destruct (process_instructions_ok fuel L T 0 _ (with_tx t1 ic, z) Hb) as [R1 R2].
  split; [|done]. destruct R1 as [R3 R4]. split; [done|]. simpl in R4. by rewrite A1 in R4.
Qed.
End message.
End runtime.
