(* ===== verification/RuntimeFuel.v ===== *)
(** * The depth of invocations is bounded

    [process_instruction] recurses from an instruction to the ones it invokes, on
    a fuel.  A fuel above the free part of the instruction stack is enough: the
    result is the same with any larger one, because [push] refuses to go beyond
    the capacity of the stack.  A program must be [program_local]: it uses the
    invocation it is given only in frames of its own depth. *)

From S2P Require Import Prelude SvmInterface TransactionAccounts InstructionAccounts.
From S2P Require Import TransactionContext InvokeContext.
Local Open Scope Z_scope.

Section fuel.
Context {SI : SvmInterface}.
Abbreviation Invoke :=
  (Instruction -> list (list (list Z)) -> stm (InvokeContext SI) InstructionError unit).

(** The height and the capacity of the stack. *)
Definition tx_shape (t : TransactionContext) : nat * nat :=
  (get_instruction_stack_height t, instruction_stack_capacity t).
Definition shape (ic : InvokeContext SI) : nat * nat := tx_shape (transaction_context ic).

Definition keeps_shape {S A} (sh : S -> nat * nat) {E} (m : stm S E A) : Prop :=
  forall s a s', m s = (Ok a, s') -> sh s' = sh s.

Lemma keeps_bind {S A B E} (sh : S -> nat * nat) (m : stm S E A) (f : A -> stm S E B) :
  keeps_shape sh m -> (forall a, keeps_shape sh (f a)) -> keeps_shape sh (m ≫= f).
Proof.
  intros Hm Hf s b s' H. apply st_bind_Ok in H as (a & s1 & H1 & H2).
  by rewrite (Hf _ _ _ _ H2), (Hm _ _ _ H1).
Qed.

Lemma keeps_same {S A E} (sh : S -> nat * nat) (m : stm S E A) :
  (forall s, sh (m s).2 = sh s) -> keeps_shape sh m.
Proof. intros H s a s' E1. specialize (H s). by rewrite E1 in H. Qed.

Definition agree (sh : nat * nat) (invoke1 invoke2 : Invoke) : Prop :=
  forall instruction seeds ic, shape ic = sh ->
    invoke1 instruction seeds ic = invoke2 instruction seeds ic.

Record program_local (p : program) : Prop := {
  local_agree invoke1 invoke2 ic : agree (shape ic) invoke1 invoke2 ->
    (forall instruction seeds, keeps_shape shape (invoke1 instruction seeds)) ->
    p invoke1 ic = p invoke2 ic;
  local_keeps invoke : (forall instruction seeds, keeps_shape shape (invoke instruction seeds)) ->
    keeps_shape shape (p invoke);
}.

Local Arguments shape : simpl never.

(** ** What [push] and [pop] do to the stack *)

Lemma context_push_shape t t' :
  context_push t = (Ok tt, t') ->
  tx_shape t' = (S (get_instruction_stack_height t), instruction_stack_capacity t) /\
  (get_instruction_stack_height t < instruction_stack_capacity t)%nat.
Proof.
  unfold context_push. intros H. head_if H; [done|].
  destruct (length (instruction_trace t)) as [|n]; [done|].
  head_if H; [done|]. apply st_bind_Ok in H as (p & t2 & H1 & H2).
  assert (instruction_stack t2 = instruction_stack t /\
    instruction_stack_capacity t2 = instruction_stack_capacity t) as [Es Ec].
  { unfold enter_trace in H1. simpl in H1. by destruct (instruction_stack t) eqn:Hs;
      injection H1 as <- <-. }
  unfold enter_stack in H2. head_if H2; [done|]. apply Nat.leb_gt in E1.
  unfold on_accounts, st_zoom in H2. destruct (store_current_instruction _ _) as [o s'].
  injection H2 as -> <-. unfold tx_shape, get_instruction_stack_height. simpl.
  rewrite length_app, Es, Ec. simpl. rewrite Nat.add_1_r. split; [done|]. by rewrite <-Ec.
Qed.

Lemma context_pop_shape t t' :
  context_pop t = (Ok tt, t') ->
  tx_shape t' = ((get_instruction_stack_height t - 1)%nat, instruction_stack_capacity t).
Proof.
  unfold context_pop. destruct (instruction_stack t) as [|x l] eqn:Hs; [done|].
  destruct (detect_unbalanced t) as [o t1] eqn:Hd. intros H.
  assert (instruction_stack_capacity t1 = instruction_stack_capacity t) as Hc.
  { unfold detect_unbalanced in Hd. destruct (get_current_instruction_context t) as [ix|e|];
      [|by injection Hd as _ <-..].
    destruct (get_index_of_program_account_in_transaction ix); [|by injection Hd as _ <-..].
    unfold on_accounts, st_zoom in Hd. destruct (try_borrow_mut _ _) as [[[]|e|] s'];
      by injection Hd as _ <-. }
  destruct o as [[]|e|]; [done| |done|done]. injection H as <-. rewrite <-Hs.
  unfold tx_shape, get_instruction_stack_height. rewrite <-Hc, Hs.
  destruct (last _); simpl; by rewrite length_take; simpl; f_equal; lia.
Qed.

Lemma invoke_push_shape ic ic' :
  invoke_push ic = (Ok tt, ic') ->
  shape ic' = (S (shape ic).1, (shape ic).2) /\ ((shape ic).1 < (shape ic).2)%nat.
Proof.
  unfold invoke_push. destruct (_ ≫= _) as [id|e|]; [|done|done]. intros H.
  head_if H; [done|]. apply st_bind_Ok in H as ([] & ic1 & H1 & H2).
  unfold st_modify in H2. injection H2 as <-. unfold on_tx, st_zoom in H1.
  destruct (context_push (transaction_context ic)) as [o t1] eqn:Hp.
  injection H1 as -> <-. apply context_push_shape in Hp. done.
Qed.

Lemma invoke_pop_shape ic ic' :
  invoke_pop ic = (Ok tt, ic') -> shape ic' = (((shape ic).1 - 1)%nat, (shape ic).2).
Proof.
  unfold invoke_pop, on_tx, st_zoom. simpl. intros H.
  destruct (context_pop (transaction_context ic)) as [o t1] eqn:Hp. injection H as -> <-.
  by apply context_pop_shape in Hp.
Qed.

(** ** The recursion *)

Context (programs : Pubkey -> option program).
Hypothesis programs_local : forall id p, programs id = Some p -> program_local p.
Abbreviation shape2 := (fun s : InvokeContext SI * Z => shape s.1).

Lemma keeps_on_ic {A} (m : stm (InvokeContext SI) InstructionError A) :
  keeps_shape shape m -> keeps_shape shape2 (on_ic m).
Proof.
  intros Hm [ic z] a s' H. unfold on_ic, st_zoom in H. simpl in *.
  destruct (m ic) as [o ic1] eqn:E. injection H as -> <-. by apply Hm in E.
Qed.

Lemma keeps_on_ta {A} (m : TA A) : keeps_shape shape (on_ta m).
Proof.
  intros ic a ic' H. unfold on_ta, on_tx, on_accounts, st_zoom in H.
  destruct (m _) as [o s']. by injection H as -> <-.
Qed.

Lemma find_entrypoint_keeps : keeps_shape shape2 (find_entrypoint programs).
Proof.
  unfold find_entrypoint.
  apply keeps_bind; [by apply keeps_same|]. intros ix.
  apply keeps_bind; [apply keeps_on_ic, keeps_on_ta|]. intros owner_id.
  apply keeps_bind; [by apply keeps_same|]. intros builtin_id.
  apply keeps_bind; [by apply keeps_same|]. intros function.
  apply keeps_bind; [by apply keeps_same|]. intros id.
  apply keeps_bind; [by apply keeps_same|]. intros _.
  apply keeps_bind; [|intros _; by apply keeps_same].
  apply keeps_same. intros [ic z]. unfold on_ic, st_zoom, set_memory_context_abi_v1. simpl.
  by destruct (length (memory_contexts ic)).
Qed.

Lemma entrypoint_local s function builtin_id id s' :
  find_entrypoint programs s = (Ok (function, builtin_id, id), s') -> program_local function.
Proof using programs_local.
  unfold find_entrypoint. intros H. inv_ok. by eapply programs_local.
Qed.

Lemma chain_keeps (invoke : Invoke) :
  (forall instruction seeds, keeps_shape shape (invoke instruction seeds)) ->
  keeps_shape shape2 (process_executable_chain programs invoke).
Proof using programs_local.
  intros Hi s a s' H. apply st_bind_Ok in H as ([[function bid] id] & s1 & H1 & H2).
  pose proof (entrypoint_local _ _ _ _ _ H1) as Hl.
  rewrite <-(find_entrypoint_keeps _ _ _ H1). unfold run_entrypoint in H2.
  destruct (function invoke s1.1) as [o ic2] eqn:E. head_if H2; [done|].
  destruct o as [[]|e|]; [|done|done]. injection H2 as _ <-. simpl.
  by apply (local_keeps _ Hl invoke Hi) in E.
Qed.

Lemma prepare_keeps instruction signers :
  keeps_shape shape (on_tx (prepare_next_cpi_instruction instruction signers)).
Proof.
  apply keeps_same. intros ic. unfold on_tx, st_zoom, prepare_next_cpi_instruction.
  destruct (_ ≫= _) as [[[[prog ias] dm] c]|e|]; [|done|done].
  unfold configure_instruction_at_index. by destruct (instruction_trace _ !! _).
Qed.

Lemma process_keeps fuel : keeps_shape shape2 (process_instruction programs fuel) /\
  forall instruction seeds, keeps_shape shape
    (invoke_with (process_instruction programs fuel) instruction seeds).
Proof using programs_local.
  assert (forall process, keeps_shape shape2 process ->
    forall instruction seeds, keeps_shape shape (invoke_with process instruction seeds)) as Hinv.
  { intros process Hp instruction seeds. unfold invoke_with.
    apply keeps_bind; [by apply keeps_same|]. intros caller.
    apply keeps_bind; [by apply keeps_same|]. intros signers.
    apply keeps_bind; [apply prepare_keeps|]. intros _ ic a ic' H. unfold run_process in H.
    destruct (process (ic, 0)) as [o s1] eqn:E. injection H as -> <-. by apply Hp in E. }
  induction fuel as [|fuel [IH1 IH2]]; [split; [done|by apply Hinv]|].
  assert (keeps_shape shape2 (process_instruction programs (S fuel))) as Hk; [|by split; [|apply Hinv]].
  intros [ic z] [] s' H. apply st_bind_Ok in H as ([] & [ic1 z1] & H1 & H2).
  unfold on_ic at 1, st_zoom in H1. simpl in H1. destruct (invoke_push ic) as [o ic1'] eqn:Ep.
  injection H1 as -> <- <-. apply invoke_push_shape in Ep as [Ep _].
  unfold then_always in H2. destruct (process_executable_chain _ _ _) as [o2 s2] eqn:Ec.
  destruct o2 as [[]|e|]; [|by destruct (on_ic invoke_pop s2) as [[]]|done].
  apply (chain_keeps _ IH2) in Ec. destruct (on_ic invoke_pop s2) as [o3 s3] eqn:Eo.
  destruct o3 as [[]|e|]; [|done|done]. injection H2 as <-. unfold on_ic, st_zoom in Eo.
  destruct (invoke_pop s2.1) as [o4 ic4] eqn:E4. injection Eo as -> <-.
  apply invoke_pop_shape in E4. cbn [fst] in *. rewrite E4, Ec, Ep. cbn [fst snd].
  rewrite Nat.sub_succ, Nat.sub_0_r. by destruct (shape ic).
Qed.

Lemma chain_agree (invoke1 invoke2 : Invoke) s :
  agree (shape2 s) invoke1 invoke2 ->
  (forall instruction seeds, keeps_shape shape (invoke1 instruction seeds)) ->
  process_executable_chain programs invoke1 s = process_executable_chain programs invoke2 s.
Proof using programs_local.
  intros Ha Hk. unfold process_executable_chain, mbind, stm_bind.
  destruct (find_entrypoint programs s) as [[[[function bid] id]|e|] s1] eqn:E; [|done|done].
  pose proof (entrypoint_local _ _ _ _ _ E) as Hl. apply find_entrypoint_keeps in E.
  unfold run_entrypoint. rewrite (local_agree _ Hl invoke1 invoke2); [done| |done]. by rewrite E.
Qed.

Lemma process_fuel f1 f2 s :
  ((shape2 s).2 - (shape2 s).1 < f1)%nat -> ((shape2 s).2 - (shape2 s).1 < f2)%nat ->
  process_instruction programs f1 s = process_instruction programs f2 s.
Proof using programs_local.
  revert f2 s. induction f1 as [|f1 IH]; intros [|f2] [ic z] H1 H2; [lia..|].
  cbn [process_instruction fst]. unfold mbind, stm_bind, on_ic at 1 3, st_zoom. simpl.
  destruct (invoke_push ic) as [[[]|e|] ic1] eqn:E; [|done|done].
  apply invoke_push_shape in E as [E Hlt]. unfold then_always.
  rewrite (chain_agree _ (invoke_with (process_instruction programs f2))); [done| |].
  - intros instruction seeds ic2 Hs. cbn [fst] in Hs. rewrite E in Hs.
    unfold invoke_with, mbind, stm_bind.
    destruct (caller_program_id ic2) as [[caller|e|] ic3] eqn:E3; [|done|done].
    injection E3 as _ <-. destruct (st_lift _ ic2) as [[signers|e|] ic3] eqn:E3; [|done|done].
    injection E3 as _ <-.
    destruct (on_tx (prepare_next_cpi_instruction _ _) ic2) as [[[]|e|] ic4] eqn:E4; [|done|done].
    apply prepare_keeps in E4. rewrite Hs in E4.
    unfold run_process. rewrite (IH f2); [done|..]; cbn [fst snd] in *; rewrite E4; cbn [fst snd]; lia.
  - apply process_keeps.
Qed.

(** ** Messages *)

Lemma precompile_keeps precompile id d datas :
  keeps_shape shape (process_precompile precompile id d datas).
Proof using.
  intros ic [] ic' H. apply st_bind_Ok in H as ([] & ic1 & H1 & H2).
  apply invoke_push_shape in H1 as [H1 _]. unfold then_always, st_lift in H2.
  destruct (precompile id d datas) as [[]|e|]; [|by destruct (invoke_pop ic1) as [[]]|done].
  destruct (invoke_pop ic1) as [[[]|e|] ic2] eqn:E; [|done|done]. injection H2 as <-.
  apply invoke_pop_shape in E. rewrite E, H1. cbn [fst snd].
  rewrite Nat.sub_succ, Nat.sub_0_r. by destruct (shape ic).
Qed.

Context (is_precompile : Pubkey -> bool).
Context (precompile : Pubkey -> list Z -> list (list Z) -> outcome InstructionError unit).

Lemma process_instructions_fuel f1 f2 message index l s :
  ((shape2 s).2 < f1)%nat -> ((shape2 s).2 < f2)%nat ->
  process_instructions programs is_precompile precompile f1 message index l s =
  process_instructions programs is_precompile precompile f2 message index l s.
Proof using programs_local.
  intros H1 H2. revert index s H1 H2.
  induction l as [|[id ins] l IH]; intros index [ic z] H1 H2; [done|].
  cbn [process_instructions fst snd] in *.
  rewrite (process_fuel f1 f2 (ic, 0)) by (cbn [fst]; lia).
  set (run := if is_precompile id then _ else _).
  assert (forall u s', run = (Ok u, s') -> shape2 s' = shape ic) as Hk.
  { intros u s' E. unfold run in E. destruct (is_precompile id).
    - by eapply (keeps_on_ic _ (precompile_keeps _ _ _ _)) in E.
    - by apply process_keeps in E. }
  destruct run as [[u|e|] s'] eqn:E; [|done|done]. specialize (Hk u s' eq_refl).
  cbn [fst] in Hk. apply IH; cbn [fst]; by rewrite Hk.
Qed.

Lemma prepare_top_level_keeps message index l t :
  instruction_stack_capacity (prepare_top_level_instructions message index l t).2 =
  instruction_stack_capacity t.
Proof using.
  revert index t. induction l as [|[id ins] l IH]; intros index t; [done|]. simpl.
  unfold mbind, stm_bind. destruct (prepare_top_level_instruction message index ins t)
    as [o t1] eqn:E. assert (instruction_stack_capacity t1 = instruction_stack_capacity t) as Hc.
  { unfold prepare_top_level_instruction, mbind, stm_bind, st_lift in E.
    destruct (collect_top_level_accounts _ _ _) as [[dm ias]|e|]; [|by injection E as _ <-..].
    unfold st_map_err, configure_instruction_at_index in E.
    destruct (instruction_trace t !! index); by injection E as _ <-. }
  destruct o as [[]|e|]; simpl; [|done|done]. by rewrite IH.
Qed.

Lemma process_message_fuel f1 f2 message s :
  ((shape2 s).2 < f1)%nat -> ((shape2 s).2 < f2)%nat ->
  process_message programs is_precompile precompile f1 message s =
  process_message programs is_precompile precompile f2 message s.
Proof using programs_local.
  intros H1 H2. unfold process_message, mbind, stm_bind, on_tx, st_zoom. destruct s as [ic z].
  pose proof (prepare_top_level_keeps message 0 (program_instructions message)
    (transaction_context ic)) as Hc. cbn [fst snd] in *.
  destruct (prepare_top_level_instructions _ _ _ _) as [[[]|e|] t]; [|done|done].
  cbn [snd] in Hc. unfold shape, tx_shape in *.
  apply process_instructions_fuel; cbn [fst snd transaction_context with_tx] in *;
    unfold shape, tx_shape; cbn [snd transaction_context with_tx]; by rewrite Hc.
Qed.
End fuel.
