(* ===== verification/SystemProgram.v ===== *)
(** * The system program

    Models [programs/system/src/system_processor.rs] (accounts: create, allocate,
    assign, transfer, and the dispatch of an instruction) and
    [programs/system/src/system_instruction.rs] (nonce accounts).  The nonce state
    is a type of the crate [solana_nonce], abstracted by [NonceInterface]; [SvmModel]
    has a concrete instance.  The log messages are left out. *)

From S2P Require Import Prelude SvmInterface TransactionAccounts InstructionAccounts.
From S2P Require Import TransactionContext SysvarCache InvokeContext.
From stdpp Require Import strings.
Local Open Scope Z_scope.

(** ** External types *)

Inductive AuthorizeNonceError :=
| NonceMissingRequiredSignature (authority : Pubkey)
| NonceUninitialized.

Class NonceInterface := {
  DurableNonce : Type;
  durable_eq_dec :: EqDecision DurableNonce;
  from_blockhash : Hash -> DurableNonce;
  NonceData : Type;
  nonce_data_new : Pubkey -> DurableNonce -> Z -> NonceData;
  authority : NonceData -> Pubkey;
  durable_nonce : NonceData -> DurableNonce;
  Versions : Type;
  (** [State::Initialized(data)] is [Some data], [State::Uninitialized] is [None]. *)
  versions_new : option NonceData -> Versions;
  versions_state : Versions -> option NonceData;
  versions_authorize : Versions -> gset Pubkey -> Pubkey -> Versions + AuthorizeNonceError;
  versions_upgrade : Versions -> option Versions;
  versions_bincode :: Bincode Versions;
}.

Inductive SystemInstruction :=
| CreateAccount (lamports space : Z) (owner : Pubkey)
| Assign (owner : Pubkey)
| Transfer (lamports : Z)
| CreateAccountWithSeed (base : Pubkey) (seed : string) (lamports space : Z) (owner : Pubkey)
| AdvanceNonceAccount
| WithdrawNonceAccount (lamports : Z)
| InitializeNonceAccount (authorized : Pubkey)
| AuthorizeNonceAccount (nonce_authority : Pubkey)
| Allocate (space : Z)
| AllocateWithSeed (base : Pubkey) (seed : string) (space : Z) (owner : Pubkey)
| AssignWithSeed (base : Pubkey) (seed : string) (owner : Pubkey)
| TransferWithSeed (lamports : Z) (from_seed : string) (from_owner : Pubkey)
| UpgradeNonceAccount
| CreateAccountAllowPrefund (lamports space : Z) (owner : Pubkey).

(** [solana_system_interface::MAX_PERMITTED_DATA_LENGTH], which a test of the
    repository asserts to be the limit of the runtime. *)
Definition MAX_PERMITTED_DATA_LENGTH : Z := MAX_ACCOUNT_DATA_LEN.
Definition PACKET_DATA_SIZE : Z := 1232.
Definition SYSTEM_COMPUTE_UNITS : Z := 150.

Section SystemProgram.
Context {SI : SvmInterface} {SY : SysvarInterface} {NI : NonceInterface}.
(** [limited_deserialize] of the instruction data. *)
Context (decode_system_instruction : list Z -> Z -> option SystemInstruction).

Implicit Types (b : BorrowedInstructionAccount) (ix : InstructionContext).
Implicit Types (env : EnvironmentConfig) (signers : gset Pubkey).

(** ** Addresses *)

Record Address := mk_address { address : Pubkey; base : option Pubkey }.

Definition address_is_signer (a : Address) signers : bool :=
  match base a with
  | Some base => bool_decide (base ∈ signers)
  | None => bool_decide (address a ∈ signers)
  end.

Definition address_create (addr : Pubkey) (with_seed : option (Pubkey * string * Pubkey)) :
    outcome InstructionError Address :=
  match with_seed with
  | None => Ok (mk_address addr None)
  | Some (base, seed, owner) =>
    match create_with_seed base seed owner with
    | inr code => Err (error_of_code code)
    | inl derived =>
      if negb (addr =? derived) then Err (SystemErr AddressWithSeedMismatch)
      else Ok (mk_address addr (Some base))
    end
  end.

(** ** Accounts *)

Definition allocate b (a : Address) (space : Z) signers : TA unit :=
  fail_if (negb (address_is_signer a signers)) MissingRequiredSignature ;;
  d ← st_gets (get_data b);
  o ← st_gets (get_owner b);
  fail_if (negb (length d =? 0)%nat || negb (o =? system_program_id))
    (SystemErr AccountAlreadyInUse) ;;
  fail_if (MAX_PERMITTED_DATA_LENGTH <? space) (SystemErr InvalidAccountDataLength) ;;
  set_data_length b (Z.to_nat space).

Definition assign b (a : Address) (owner : Pubkey) signers : TA unit :=
  o ← st_gets (get_owner b);
  if o =? owner then mret tt
  else
    fail_if (negb (address_is_signer a signers)) MissingRequiredSignature ;;
    set_owner b owner.

Definition allocate_and_assign b (a : Address) (space : Z) (owner : Pubkey) signers : TA unit :=
  allocate b a space signers ;;
  assign b a owner signers.

Definition transfer_verified ix (from to : IndexOfAccount) (lamports : Z) : TA unit :=
  with_account ix from (fun from =>
    d ← st_gets (get_data from);
    fail_if (negb (length d =? 0)%nat) InvalidArgument ;;
    l ← st_gets (get_lamports from);
    fail_if (l <? lamports) (SystemErr ResultWithNegativeLamports) ;;
    checked_sub_lamports from lamports) ;;
  with_account ix to (fun to => checked_add_lamports to lamports).

Definition transfer ix (from to : IndexOfAccount) (lamports : Z) : TA unit :=
  signer ← st_lift (is_instruction_account_signer ix from);
  fail_if (negb signer) MissingRequiredSignature ;;
  transfer_verified ix from to lamports.

Definition transfer_with_seed ix (from from_base : IndexOfAccount) (from_seed : string)
    (from_owner : Pubkey) (to : IndexOfAccount) (lamports : Z) : TA unit :=
  signer ← st_lift (is_instruction_account_signer ix from_base);
  fail_if (negb signer) MissingRequiredSignature ;;
  base_key ← (fun s => (get_key_of_instruction_account ix from_base s, s));
  match create_with_seed base_key from_seed from_owner with
  | inr code => st_err (error_of_code code)
  | inl address_from_seed =>
    from_key ← (fun s => (get_key_of_instruction_account ix from s, s));
    fail_if (negb (from_key =? address_from_seed)) (SystemErr AddressWithSeedMismatch) ;;
    transfer_verified ix from to lamports
  end.

Definition create_account ix (from to : IndexOfAccount) (to_address : Address)
    (lamports space : Z) (owner : Pubkey) signers : TA unit :=
  with_account ix to (fun to =>
    l ← st_gets (get_lamports to);
    fail_if (0 <? l) (SystemErr AccountAlreadyInUse) ;;
    allocate_and_assign to to_address space owner signers) ;;
  transfer ix from to lamports.

Definition create_account_allow_prefund ix (to : IndexOfAccount) (to_address : Address)
    (from_and_lamports : option (IndexOfAccount * Z)) (space : Z) (owner : Pubkey) signers :
    TA unit :=
  with_account ix to (fun to => allocate_and_assign to to_address space owner signers) ;;
  match from_and_lamports with
  | Some (from, lamports) => if 0 <? lamports then transfer ix from to lamports else mret tt
  | None => mret tt
  end.

(** ** Nonce accounts *)

Definition advance_nonce_account env b signers : TA unit :=
  fail_if (negb (is_writable b)) InvalidArgument ;;
  state ← get_state (T := Versions) b;
  match versions_state state with
  | Some data =>
    fail_if (bool_decide (authority data ∉ signers)) MissingRequiredSignature ;;
    let next_durable_nonce := from_blockhash (blockhash env) in
    fail_if (bool_decide (durable_nonce data = next_durable_nonce))
      (SystemErr NonceBlockhashNotExpired) ;;
    set_state b (versions_new (Some (nonce_data_new (authority data) next_durable_nonce
      (blockhash_lamports_per_signature env))))
  | None => st_err InvalidAccountData
  end.

(** The checks of a withdrawal, and the reset of an account that is emptied. *)
Definition check_nonce_withdrawal env b (lamports : Z) (rent : Rent) signers : TA unit :=
  fail_if (negb (is_writable b)) InvalidArgument ;;
  state ← get_state (T := Versions) b;
  balance ← st_gets (get_lamports b);
  match versions_state state with
  | None =>
    fail_if (balance <? lamports) InsufficientFunds ;;
    k ← st_gets (get_key b);
    fail_if (bool_decide (k ∉ signers)) MissingRequiredSignature
  | Some data =>
    if lamports =? balance then
      fail_if (bool_decide (durable_nonce data = from_blockhash (blockhash env)))
        (SystemErr NonceBlockhashNotExpired) ;;
      fail_if (bool_decide (authority data ∉ signers)) MissingRequiredSignature ;;
      set_state b (versions_new None)
    else
      d ← st_gets (get_data b);
      let min_balance := minimum_balance rent (Z.of_nat (length d)) in
      amount ← st_lift (ok_or InsufficientFunds (checked_add u64_max lamports min_balance));
      fail_if (balance <? amount) InsufficientFunds ;;
      fail_if (bool_decide (authority data ∉ signers)) MissingRequiredSignature
  end.

Definition withdraw_nonce_account env ix (from : IndexOfAccount) (lamports : Z)
    (to : IndexOfAccount) (rent : Rent) signers : TA unit :=
  with_account ix from (fun from =>
    check_nonce_withdrawal env from lamports rent signers ;;
    checked_sub_lamports from lamports) ;;
  with_account ix to (fun to => checked_add_lamports to lamports).

Definition initialize_nonce_account env b (nonce_authority : Pubkey) (rent : Rent) : TA unit :=
  fail_if (negb (is_writable b)) InvalidArgument ;;
  state ← get_state (T := Versions) b;
  match versions_state state with
  | None =>
    d ← st_gets (get_data b);
    let min_balance := minimum_balance rent (Z.of_nat (length d)) in
    balance ← st_gets (get_lamports b);
    fail_if (balance <? min_balance) InsufficientFunds ;;
    set_state b (versions_new (Some (nonce_data_new nonce_authority
      (from_blockhash (blockhash env)) (blockhash_lamports_per_signature env))))
  | Some _ => st_err InvalidAccountData
  end.

Definition authorize_nonce_account b (nonce_authority : Pubkey) signers : TA unit :=
  fail_if (negb (is_writable b)) InvalidArgument ;;
  state ← get_state (T := Versions) b;
  match versions_authorize state signers nonce_authority with
  | inl versions => set_state b versions
  | inr NonceUninitialized => st_err InvalidAccountData
  | inr (NonceMissingRequiredSignature _) => st_err MissingRequiredSignature
  end.

Definition upgrade_nonce_account b : TA unit :=
  o ← st_gets (get_owner b);
  fail_if (negb (o =? system_program_id)) InvalidAccountOwner ;;
  fail_if (negb (is_writable b)) InvalidArgument ;;
  nonce_versions ← get_state (T := Versions) b;
  match versions_upgrade nonce_versions with
  | None => st_err InvalidArgument
  | Some nonce_versions => set_state b nonce_versions
  end.

(** ** Dispatch *)

Definition check_accounts_number ix (n : Z) : TA unit :=
  st_lift (check_number_of_instruction_accounts ix n).
Definition key_of ix (i : IndexOfAccount) : TA Pubkey := fun s =>
  (get_key_of_instruction_account ix i s, s).

Definition dispatch_system env ix (instruction : SystemInstruction) signers : TA unit :=
  match instruction with
  | CreateAccount lamports space owner =>
    check_accounts_number ix 2 ;;
    k ← key_of ix 1;
    to_address ← st_lift (address_create k None);
    create_account ix 0 1 to_address lamports space owner signers
  | CreateAccountWithSeed base seed lamports space owner =>
    check_accounts_number ix 2 ;;
    k ← key_of ix 1;
    to_address ← st_lift (address_create k (Some (base, seed, owner)));
    create_account ix 0 1 to_address lamports space owner signers
  | Assign owner =>
    check_accounts_number ix 1 ;;
    with_account ix 0 (fun account =>
      k ← key_of ix 0;
      a ← st_lift (address_create k None);
      assign account a owner signers)
  | Transfer lamports =>
    check_accounts_number ix 2 ;;
    transfer ix 0 1 lamports
  | TransferWithSeed lamports from_seed from_owner =>
    check_accounts_number ix 3 ;;
    transfer_with_seed ix 0 1 from_seed from_owner 2 lamports
  | AdvanceNonceAccount =>
    check_accounts_number ix 1 ;;
    with_account ix 0 (fun me =>
      recent_blockhashes ← checked_recent_blockhashes env ix 1%nat;
      fail_if (length recent_blockhashes =? 0)%nat (SystemErr NonceNoRecentBlockhashes) ;;
      advance_nonce_account env me signers)
  | WithdrawNonceAccount lamports =>
    check_accounts_number ix 2 ;;
    checked_recent_blockhashes env ix 2%nat ;;
    rent ← checked_rent env ix 3%nat;
    withdraw_nonce_account env ix 0 lamports 1 rent signers
  | InitializeNonceAccount authorized =>
    check_accounts_number ix 1 ;;
    with_account ix 0 (fun me =>
      recent_blockhashes ← checked_recent_blockhashes env ix 1%nat;
      fail_if (length recent_blockhashes =? 0)%nat (SystemErr NonceNoRecentBlockhashes) ;;
      rent ← checked_rent env ix 2%nat;
      initialize_nonce_account env me authorized rent)
  | AuthorizeNonceAccount nonce_authority =>
    check_accounts_number ix 1 ;;
    with_account ix 0 (fun me => authorize_nonce_account me nonce_authority signers)
  | UpgradeNonceAccount =>
    check_accounts_number ix 1 ;;
    with_account ix 0 upgrade_nonce_account
  | Allocate space =>
    check_accounts_number ix 1 ;;
    with_account ix 0 (fun account =>
      k ← key_of ix 0;
      a ← st_lift (address_create k None);
      allocate account a space signers)
  | AllocateWithSeed base seed space owner =>
    check_accounts_number ix 1 ;;
    with_account ix 0 (fun account =>
      k ← key_of ix 0;
      a ← st_lift (address_create k (Some (base, seed, owner)));
      allocate_and_assign account a space owner signers)
  | AssignWithSeed base seed owner =>
    check_accounts_number ix 1 ;;
    with_account ix 0 (fun account =>
      k ← key_of ix 0;
      a ← st_lift (address_create k (Some (base, seed, owner)));
      assign account a owner signers)
  | CreateAccountAllowPrefund lamports space owner =>
    fail_if (negb (create_account_allow_prefund_feature (feature_set env)))
      InvalidInstructionData ;;
    (if 0 <? lamports then check_accounts_number ix 2 else check_accounts_number ix 1) ;;
    let from_and_lamports := if 0 <? lamports then Some (1%nat, lamports) else None in
    k ← key_of ix 0;
    to_address ← st_lift (address_create k None);
    create_account_allow_prefund ix 0 to_address from_and_lamports space owner signers
  end.

Definition system_instruction env ix : TA unit :=
  instruction ← st_lift (ok_or InvalidInstructionData
    (decode_system_instruction (instruction_data ix) PACKET_DATA_SIZE));
  signers ← (fun s => (get_signers ix s, s));
  dispatch_system env ix instruction signers.

(** What [declare_process_instruction!] wraps around the body of a program. *)
Definition entrypoint (units : Z) (inner : stm (InvokeContext SI) InstructionError unit) :
    stm (InvokeContext SI) ProgramError unit :=
  st_map_err InstrError (
    (if 0 <? units then consume_checked units else mret tt) ;; inner).

Definition system_entrypoint env : program := fun _ =>
  entrypoint SYSTEM_COMPUTE_UNITS (
    ix ← (fun ic => (get_current_instruction_context (transaction_context ic), ic));
    on_ta (system_instruction env ix)).
End SystemProgram.
