(* ===== verification/SystemProofs.v ===== *)
(** * The system program stays within its rights *)

From S2P Require Import Prelude SvmInterface TransactionAccounts InstructionAccounts.
From S2P Require Import TransactionContext SysvarCache InvokeContext AccountSafety SystemProgram.
From stdpp Require Import strings.
Local Open Scope Z_scope.

(** The numbers of an instruction are [u64]s. *)
Definition system_instruction_typed (i : SystemInstruction) : Prop :=
  match i with
  | CreateAccount l s _ | CreateAccountWithSeed _ _ l s _ | CreateAccountAllowPrefund l s _ =>
    is_u u64_max l /\ is_u u64_max s
  | Transfer l | WithdrawNonceAccount l | TransferWithSeed l _ _ => is_u u64_max l
  | Allocate s | AllocateWithSeed _ _ s _ => is_u u64_max s
  | _ => True
  end.

Section safety.
Context {SI : SvmInterface} {SY : SysvarInterface} {NI : NonceInterface}.
Context (n : nat) (ix : InstructionContext).
Local Abbreviation safe_here := (ix_safe n ix).

Lemma ix_safe_bind {A B} (m : TA A) (f : A -> TA B) :
  safe_here m -> (forall a, safe_here (f a)) -> safe_here (m ≫= f).
Proof. apply safe_bind. Qed.

Lemma key_of_safe i : safe_here (key_of ix i).
Proof. by apply safe_read. Qed.
Lemma check_accounts_number_safe k : safe_here (check_accounts_number ix k).
Proof. by apply safe_read. Qed.
Lemma checked_sysvar_safe {A} id get env j : safe_here (@checked_sysvar _ _ A id get env ix j).
Proof. by apply safe_read. Qed.
End safety.

Ltac safe_step :=
  lazymatch goal with
  | |- forall _, _ => intro
  | |- ix_safe _ _ (with_account _ _ _) => apply with_account_safe
  | |- ix_safe _ _ (_ ≫= _) => apply ix_safe_bind
  | |- ix_safe _ _ (if ?b then _ else _) => destruct b
  | |- ix_safe _ _ (match ?x with _ => _ end) => destruct x
  | |- ix_safe _ _ (fail_if ?b _) =>
      apply safe_read; intros; unfold fail_if; destruct b; reflexivity
  | |- ix_safe _ _ (mret _) => apply safe_read; reflexivity
  | |- ix_safe _ _ (st_err _) => apply safe_read; reflexivity
  | |- ix_safe _ _ (st_lift _) => apply safe_read; reflexivity
  | |- ix_safe _ _ (st_gets _) => apply safe_read; reflexivity
  | |- ix_safe _ _ (fun s => (_, s)) => apply safe_read; reflexivity
  | |- ix_safe _ _ (get_state _) => apply safe_read; reflexivity
  | |- ix_safe _ _ (set_state _ _) => apply set_state_safe; assumption
  | |- ix_safe _ _ (set_owner _ _) => apply set_owner_safe; assumption
  | |- ix_safe _ _ (set_data_length _ _) => apply set_data_length_safe; assumption
  | |- ix_safe _ _ (checked_sub_lamports _ _) => apply checked_sub_lamports_safe; [assumption|]
  | |- ix_safe _ _ (checked_add_lamports _ _) => apply checked_add_lamports_safe; [assumption|]
  end.

Section safety.
Context {SI : SvmInterface} {SY : SysvarInterface} {NI : NonceInterface}.
Context (n : nat) (ix : InstructionContext).
Local Abbreviation safe_here := (ix_safe n ix).

Lemma allocate_safe b a space signers :
  ix_handle n ix b -> safe_here (allocate b a space signers).
Proof. intros. unfold allocate. repeat safe_step. Qed.
Lemma assign_safe b a k signers : ix_handle n ix b -> safe_here (assign b a k signers).
Proof. intros. unfold assign. repeat safe_step. Qed.
Lemma allocate_and_assign_safe b a space k signers :
  ix_handle n ix b -> safe_here (allocate_and_assign b a space k signers).
Proof. intros. apply ix_safe_bind; intros; [by apply allocate_safe|by apply assign_safe]. Qed.

Lemma transfer_verified_safe i j l : 0 <= l -> safe_here (transfer_verified ix i j l).
Proof. intros. unfold transfer_verified. by repeat safe_step. Qed.
Lemma transfer_safe i j l : 0 <= l -> safe_here (transfer ix i j l).
Proof. intros. unfold transfer. repeat safe_step. by apply transfer_verified_safe. Qed.
Lemma transfer_with_seed_safe i j seed k t l :
  0 <= l -> safe_here (transfer_with_seed ix i j seed k t l).
Proof. intros. unfold transfer_with_seed. repeat safe_step. by apply transfer_verified_safe. Qed.
Lemma create_account_safe i j a l space k signers :
  0 <= l -> safe_here (create_account ix i j a l space k signers).
Proof.
  intros. unfold create_account. repeat safe_step; [by apply allocate_and_assign_safe|].
  by apply transfer_safe.
Qed.
Lemma create_account_allow_prefund_safe j a fl space k signers :
  safe_here (create_account_allow_prefund ix j a fl space k signers).
Proof.
  unfold create_account_allow_prefund. apply ix_safe_bind.
  { repeat safe_step. by apply allocate_and_assign_safe. }
  intros _. destruct fl as [[i l]|]; [|repeat safe_step].
  destruct (Z.ltb_spec 0 l); [apply transfer_safe; lia|repeat safe_step].
Qed.

Lemma advance_nonce_safe env b signers :
  ix_handle n ix b -> safe_here (advance_nonce_account env b signers).
Proof. intros. unfold advance_nonce_account. repeat safe_step. Qed.
Lemma check_nonce_withdrawal_safe env b l r signers :
  ix_handle n ix b -> safe_here (check_nonce_withdrawal env b l r signers).
Proof. intros. unfold check_nonce_withdrawal. repeat safe_step. Qed.
Lemma withdraw_nonce_safe env i l j r signers :
  0 <= l -> safe_here (withdraw_nonce_account env ix i l j r signers).
Proof.
  intros. unfold withdraw_nonce_account. repeat safe_step; [|done..].
  by apply check_nonce_withdrawal_safe.
Qed.
Lemma initialize_nonce_safe env b k r :
  ix_handle n ix b -> safe_here (initialize_nonce_account env b k r).
Proof. intros. unfold initialize_nonce_account. repeat safe_step. Qed.
Lemma authorize_nonce_safe b k signers :
  ix_handle n ix b -> safe_here (authorize_nonce_account b k signers).
Proof. intros. unfold authorize_nonce_account. repeat safe_step. Qed.
Lemma upgrade_nonce_safe b : ix_handle n ix b -> safe_here (upgrade_nonce_account b).
Proof. intros. unfold upgrade_nonce_account. repeat safe_step. Qed.

Lemma dispatch_system_safe env i signers :
  system_instruction_typed i -> safe_here (dispatch_system env ix i signers).
Proof.
  destruct i; simpl; unfold is_u; intros Ht;
    repeat first [ safe_step | apply key_of_safe | apply check_accounts_number_safe 
      | apply checked_sysvar_safe
      | apply create_account_safe; lia | by apply assign_safe | apply transfer_safe; lia
      | apply transfer_with_seed_safe; lia | by apply advance_nonce_safe
      | apply withdraw_nonce_safe; lia | by apply initialize_nonce_safe
      | by apply authorize_nonce_safe | by apply upgrade_nonce_safe | by apply allocate_safe
      | by apply allocate_and_assign_safe | apply create_account_allow_prefund_safe
      | unfold dispatch_system ].
Qed.
End safety.
