(* ===== verification/SystemSpec.v ===== *)
(** * What the system program computes

    Reference results of the transfer and of the creation of an account, branch by
    branch, and the proof that the program computes them on every well-formed
    transaction. *)

From S2P Require Import Prelude SvmInterface TransactionAccounts InstructionAccounts.
From S2P Require Import TransactionContext SysvarCache InvokeContext AccountSafety AccountRun.
From S2P Require Import SystemProgram SystemProofs.
From stdpp Require Import strings.
Local Open Scope Z_scope.

Section spec.
Context {SI : SvmInterface} {SY : SysvarInterface} {NI : NonceInterface}.
Context (ix : InstructionContext).

(** The program of the instruction owns account [i]. *)
Definition owns (i : nat) (s : TransactionAccounts) : bool :=
  bool_decide (account_key (ix_program ix) s = Some (owner_at i s)).

Lemma owned_owns ia s :
  is_owned_by_current_program (borrowed_at ix ia) s = owns (index_in_transaction ia) s.
Proof.
  unfold is_owned_by_current_program, get_key_of_account_at_index, owns. simpl.
  destruct (account_key (ix_program ix) s) as [k|]; simpl.
  - change (get_owner (borrowed_at ix ia) s) with (owner_at (index_in_transaction ia) s).
    destruct (Z.eqb_spec k (owner_at (index_in_transaction ia) s)) as [->|Hne].
    + by rewrite bool_decide_true.
    + rewrite bool_decide_false; [done|]. congruence.
  - done.
Qed.

Lemma handle_at n ia i s L T :
  ta_ok L T s -> accounts_len s = n -> instruction_accounts ix !! i = Some ia ->
  borrow_counters s !! index_in_transaction ia = Some 0 ->
  ix_handle n ix (borrowed_at ix ia).
Proof.
  intros Hok Hn Hi Hc. split; simpl.
  - apply lookup_lt_Some in Hc. rewrite (len_counters _ _ _ Hok) in Hc. by rewrite <-Hn.
  - intros Hw. exists ia. split_and!; [by eapply list_elem_of_lookup_2|done|done].
  - done.
Qed.

(** ** Transfers *)

(** The debit of [l] lamports from [f], then the credit to [t]. *)
Definition transfer_result (f t : InstructionAccount) (l : Z) (s : TransactionAccounts) :
    outcome InstructionError unit * TransactionAccounts :=
  let fi := index_in_transaction f in
  let ti := index_in_transaction t in
  if negb (length (data_at fi s) =? 0)%nat then (Err InvalidArgument, s)
  else if balance fi s <? l then (Err (SystemErr ResultWithNegativeLamports), s)
  else if negb (owns fi s) && (0 <? l) then (Err ExternalAccountLamportSpend, s)
  else if negb (ia_is_writable f) then (Err ReadonlyLamportChange, s)
  else
    let s1 := pay fi (- l) s in
    if u64_max <? balance ti s1 + l then (Err ArithmeticOverflow, s1)
    else if negb (ia_is_writable t) then (Err ReadonlyLamportChange, s1)
    else (Ok tt, pay ti l s1).

Lemma transfer_result_ok f t l s s' :
  transfer_result f t l s = (Ok tt, s') ->
  s' = pay (index_in_transaction t) l (pay (index_in_transaction f) (- l) s) /\
  l <= balance (index_in_transaction f) s.
Proof.
  unfold transfer_result. intros H. head_if H; [done|].
  destruct (Z.ltb_spec (balance (index_in_transaction f) s) l); [done|].
  do 4 (head_if H; [done|]). by injection H as <-.
Qed.

Lemma credit_run L T n s to t l :
  ta_ok L T s -> accounts_len s = n ->
  instruction_accounts ix !! to = Some t ->
  borrow_counters s !! index_in_transaction t = Some 0 -> 0 <= l ->
  with_account ix to (fun to => checked_add_lamports to l) s =
  let ti := index_in_transaction t in
  if u64_max <? balance ti s + l then (Err ArithmeticOverflow, s)
  else if negb (ia_is_writable t) then (Err ReadonlyLamportChange, s)
  else (Ok tt, pay ti l s).
Proof.
  intros Hok Hn Ht Hct Hl. pose proof (handle_at _ _ _ _ _ _ Hok Hn Ht Hct) as Hh.
  rewrite (with_account_run L T n ix to t); [|done|done|done|done|apply cf_checked_add
    |by repeat safe_step].
  by rewrite (checked_add_run n _ _ _ Hh L T s Hok Hn l Hl).
Qed.

Section state.
Context (L T : Z) (n : nat) (s : TransactionAccounts).
Hypothesis Hok : ta_ok L T s.
Hypothesis Hn : accounts_len s = n.

Lemma debit_run from f l :
  instruction_accounts ix !! from = Some f ->
  borrow_counters s !! index_in_transaction f = Some 0 -> 0 <= l ->
  with_account ix from (fun from =>
    d ← st_gets (get_data from);
    fail_if (negb (length d =? 0)%nat) InvalidArgument ;;
    l' ← st_gets (get_lamports from);
    fail_if (l' <? l) (SystemErr ResultWithNegativeLamports) ;;
    checked_sub_lamports from l) s =
  let fi := index_in_transaction f in
  if negb (length (data_at fi s) =? 0)%nat then (Err InvalidArgument, s)
  else if balance fi s <? l then (Err (SystemErr ResultWithNegativeLamports), s)
  else if negb (owns fi s) && (0 <? l) then (Err ExternalAccountLamportSpend, s)
  else if negb (ia_is_writable f) then (Err ReadonlyLamportChange, s)
  else (Ok tt, pay fi (- l) s).
Proof using Hok Hn.
  intros Hf Hcf Hl. pose proof (handle_at _ _ _ _ _ _ Hok Hn Hf Hcf) as Hh.
  rewrite (with_account_run L T n ix from f); [|done|done|done|done|..].
  - cbv zeta. unfold mbind, stm_bind, st_gets, fail_if.
    change (get_data (borrowed_at ix f) s) with (data_at (index_in_transaction f) s).
    destruct (negb (length _ =? 0)%nat); [done|]. unfold mret, stm_ret. cbv beta iota.
    change (get_lamports (borrowed_at ix f) s) with (balance (index_in_transaction f) s).
    destruct (balance (index_in_transaction f) s <? l) eqn:E; [done|].
    rewrite (checked_sub_run n _ _ _ Hh L T s Hok Hn l Hl), owned_owns.
    change (get_index_in_transaction (borrowed_at ix f)) with (index_in_transaction f).
    by rewrite E.
  - repeat first [apply cf_bind; [|intros ?] | by apply cf_gets | apply cf_fail_if
                 | apply cf_checked_sub].
  - by repeat safe_step.
Qed.

Lemma pay_ok f l :
  ix_handle n ix (borrowed_at ix f) -> 0 <= l -> l <= balance (index_in_transaction f) s ->
  negb (owns (index_in_transaction f) s) && (0 <? l) = false -> ia_is_writable f = true ->
  ta_ok L T (pay (index_in_transaction f) (- l) s).
Proof using Hok Hn.
  intros Hh Hl Hb Ho Hw.
  destruct (checked_sub_lamports_safe n _ _ _ Hh l Hl L T s Hok Hn) as [S1 _ _].
  rewrite (checked_sub_run n _ _ _ Hh L T s Hok Hn l Hl), owned_owns in S1.
  change (get_index_in_transaction (borrowed_at ix f)) with (index_in_transaction f) in S1.
  rewrite Ho in S1. change (is_writable (borrowed_at ix f)) with (ia_is_writable f) in S1.
  rewrite Hw in S1. by destruct (Z.ltb_spec (balance (index_in_transaction f) s) l); [lia|].
Qed.

Lemma transfer_verified_run from to f t l :
  instruction_accounts ix !! from = Some f -> instruction_accounts ix !! to = Some t ->
  borrow_counters s !! index_in_transaction f = Some 0 ->
  borrow_counters s !! index_in_transaction t = Some 0 -> 0 <= l ->
  transfer_verified ix from to l s = transfer_result f t l s.
Proof using Hok Hn.
  intros Hf Ht Hcf Hct Hl. pose proof (handle_at _ _ _ _ _ _ Hok Hn Hf Hcf) as Hh.
  unfold transfer_verified, transfer_result. unfold mbind at 1, stm_bind at 1.
  rewrite (debit_run from f l) by done. cbv zeta.
  destruct (negb (length _ =? 0)%nat); [done|].
  destruct (Z.ltb_spec (balance (index_in_transaction f) s) l) as [|Hb]; [done|].
  destruct (negb (owns _ s) && _) eqn:Ho; [done|].
  destruct (ia_is_writable f) eqn:Hw; simpl; [|done].
  pose proof (pay_ok f l Hh Hl Hb Ho Hw) as Hok1. set (s1 := pay _ _ s) in *.
  assert (accounts_len s1 = n) as Hn1 by by unfold s1; rewrite pay_len.
  rewrite (credit_run L T n s1 to t l); [done|done|done|done| |done].
  unfold s1. by rewrite pay_counters.
Qed.

Lemma transfer_run from to f t l :
  instruction_accounts ix !! from = Some f -> instruction_accounts ix !! to = Some t ->
  borrow_counters s !! index_in_transaction f = Some 0 ->
  borrow_counters s !! index_in_transaction t = Some 0 -> 0 <= l ->
  transfer ix from to l s =
  if negb (ia_is_signer f) then (Err MissingRequiredSignature, s) else transfer_result f t l s.
Proof using Hok Hn.
  intros Hf Ht Hcf Hct Hl. unfold transfer, is_instruction_account_signer, st_lift.
  unfold mbind, stm_bind, fail_if. rewrite Hf. simpl. destruct (ia_is_signer f); [|done].
  cbn [negb]. unfold mret, stm_ret. cbv beta iota. by apply transfer_verified_run.
Qed.

(** ** Creation *)

(** The checks on the new account, in order; [k] is what follows them. *)
Definition allocate_checks (t : InstructionAccount) (signed : bool) (space : Z)
    (k : outcome InstructionError unit * TransactionAccounts) :
    outcome InstructionError unit * TransactionAccounts :=
  let ti := index_in_transaction t in
  if negb signed then (Err MissingRequiredSignature, s)
  else if negb (length (data_at ti s) =? 0)%nat || negb (owner_at ti s =? system_program_id)
  then (Err (SystemErr AccountAlreadyInUse), s)
  else if MAX_PERMITTED_DATA_LENGTH <? space
  then (Err (SystemErr InvalidAccountDataLength), s)
  else if MAX_ACCOUNT_DATA_GROWTH_PER_TRANSACTION <? resize_delta s + space
  then (Err MaxAccountsDataAllocationsExceeded, s)
  else if negb (ia_is_writable t) then (Err ReadonlyDataModified, s)
  else if negb (owns ti s) then (Err ExternalAccountDataModified, s)
  else k.

Lemma allocate_run t a space signers :
  ix_handle n ix (borrowed_at ix t) -> 0 <= space ->
  allocate (borrowed_at ix t) a space signers s =
  allocate_checks t (address_is_signer a signers) space
    (Ok tt, alloc (index_in_transaction t) (Z.to_nat space) s).
Proof using Hok Hn.
  intros Hh Hsp. set (ti := index_in_transaction t). unfold allocate, allocate_checks. fold ti.
  unfold mbind, stm_bind, st_gets, fail_if, mret, stm_ret.
  destruct (address_is_signer a signers); cbn [negb]; [|done]. cbv beta iota.
  change (get_data (borrowed_at ix t) s) with (data_at ti s).
  change (get_owner (borrowed_at ix t) s) with (owner_at ti s).
  destruct (Nat.eqb_spec (length (data_at ti s)) 0) as [Hd|]; [|by cbn [negb orb]].
  destruct (owner_at ti s =? system_program_id); cbn [negb orb]; [|done]. cbv beta iota.
  destruct (Z.ltb_spec MAX_PERMITTED_DATA_LENGTH space) as [|Hmax]; [done|]. cbv beta iota.
  rewrite (set_data_length_run n _ _ _ Hh L T s Hok Hn), owned_owns.
  change (get_index_in_transaction (borrowed_at ix t)) with ti. rewrite Z2Nat.id, Hd by done.
  rewrite Z.sub_0_r.
  by destruct (Z.ltb_spec MAX_ACCOUNT_DATA_LEN space); [unfold MAX_PERMITTED_DATA_LENGTH in *; lia|].
Qed.

(** Where the checks pass, the account is allocated in a well-formed transaction. *)
Lemma alloc_ok t space :
  ix_handle n ix (borrowed_at ix t) -> 0 <= space ->
  (allocate_checks t true space (Ok tt, s)).1 = Ok tt ->
  ta_ok L T (alloc (index_in_transaction t) (Z.to_nat space) s) /\
  data_at (index_in_transaction t) s = [] /\ ia_is_writable t = true /\
  owns (index_in_transaction t) s = true.
Proof using Hok Hn.
  intros Hh Hsp. set (ti := index_in_transaction t).
  destruct (set_data_length_safe n _ _ _ Hh (Z.to_nat space) L T s Hok Hn) as [Hok1 _ _].
  rewrite (set_data_length_run n _ _ _ Hh L T s Hok Hn), owned_owns in Hok1.
  change (get_index_in_transaction (borrowed_at ix t)) with ti in Hok1.
  change (is_writable (borrowed_at ix t)) with (ia_is_writable t) in Hok1.
  rewrite Z2Nat.id in Hok1 by done. unfold allocate_checks. fold ti. cbn [negb].
  destruct (Nat.eqb_spec (length (data_at ti s)) 0) as [Hd|]; [|by cbn [negb orb]].
  rewrite Hd, Z.sub_0_r in Hok1. apply nil_length_inv in Hd. rewrite Hd.
  destruct (owner_at ti s =? system_program_id); cbn [negb orb]; [|done].
  destruct (Z.ltb_spec MAX_PERMITTED_DATA_LENGTH space) as [|Hmax]; [done|].
  destruct (Z.ltb_spec MAX_ACCOUNT_DATA_LEN space); [unfold MAX_PERMITTED_DATA_LENGTH in *; lia|].
  destruct (_ <? resize_delta s + space); [done|]. destruct (ia_is_writable t); [|done].
  fold ti in Hok1. by destruct (owns ti s).
Qed.

Lemma assign_run t a owner signers space :
  ix_handle n ix (borrowed_at ix t) -> 0 <= space -> address_is_signer a signers = true ->
  (allocate_checks t true space (Ok tt, s)).1 = Ok tt ->
  let s1 := alloc (index_in_transaction t) (Z.to_nat space) s in
  assign (borrowed_at ix t) a owner signers s1 = (Ok tt, give (index_in_transaction t) owner s1).
Proof using Hok Hn.
  intros Hh Hsp Hsig Hc s1. destruct (alloc_ok t space Hh Hsp Hc) as (Hok1 & Hd & Hw & Hown).
  fold s1 in Hok1. assert (accounts_len s1 = n) as Hn1 by by unfold s1; rewrite alloc_len.
  unfold assign. unfold mbind, stm_bind, st_gets, fail_if, mret, stm_ret. rewrite Hsig.
  change (get_owner (borrowed_at ix t) s1) with (owner_at (index_in_transaction t) s1).
  destruct (owner_at _ s1 =? owner) eqn:E; [by unfold give; rewrite E|]. cbn [negb].
  cbv beta iota. rewrite (set_owner_run n _ _ _ Hh L T s1 Hok1 Hn1), owned_owns.
  change (get_index_in_transaction (borrowed_at ix t)) with (index_in_transaction t).
  change (is_writable (borrowed_at ix t)) with (ia_is_writable t). rewrite Hw.
  assert (owns (index_in_transaction t) s1 = true) as ->.
  { unfold owns, s1. by rewrite alloc_key, alloc_owner. }
  unfold s1. rewrite alloc_data, is_zeroed_replicate; [done|done|].
  rewrite (len_private _ _ _ Hok), Hn. by destruct Hh.
Qed.

Lemma checks_cases t signed space k :
  (exists e, forall k', allocate_checks t signed space k' = (Err e, s)) \/
  (signed = true /\ (allocate_checks t true space (Ok tt, s)).1 = Ok tt /\
   allocate_checks t signed space k = k).
Proof using.
  clear. unfold allocate_checks. destruct signed; cbn [negb]; [|by left; eexists].
  destruct (negb (_ =? _)%nat || _); [by left; eexists|].
  do 2 (destruct (_ <? _); [by left; eexists|]).
  destruct (negb (ia_is_writable t)); [by left; eexists|].
  destruct (negb (owns _ s)); [by left; eexists|]. by right.
Qed.

Lemma allocate_and_assign_run t a space owner signers :
  ix_handle n ix (borrowed_at ix t) -> 0 <= space ->
  allocate_and_assign (borrowed_at ix t) a space owner signers s =
  allocate_checks t (address_is_signer a signers) space
    (Ok tt, give (index_in_transaction t) owner
              (alloc (index_in_transaction t) (Z.to_nat space) s)).
Proof using Hok Hn.
  intros Hh Hsp. unfold allocate_and_assign. unfold mbind, stm_bind.
  rewrite allocate_run by done.
  destruct (checks_cases t (address_is_signer a signers) space (Ok tt,
    alloc (index_in_transaction t) (Z.to_nat space) s)) as [[e He]|(Hs & Hc & Hk)].
  - by rewrite !He.
  - rewrite Hk, (assign_run t a owner signers space) by done. rewrite Hs in *.
    destruct (checks_cases t true space (Ok tt, give (index_in_transaction t) owner
      (alloc (index_in_transaction t) (Z.to_nat space) s))) as [[e He]|(_ & _ & ->)]; [|done].
    by rewrite He in Hc.
Qed.

(** The creation of an account: the checks on [t], the allocation, the assignment, then
    the transfer from [f]. *)
Definition create_result (f t : InstructionAccount) (signed : bool) (l space : Z)
    (owner : Pubkey) : outcome InstructionError unit * TransactionAccounts :=
  let ti := index_in_transaction t in
  if 0 <? balance ti s then (Err (SystemErr AccountAlreadyInUse), s)
  else allocate_checks t signed space (
    let s1 := give ti owner (alloc ti (Z.to_nat space) s) in
    if negb (ia_is_signer f) then (Err MissingRequiredSignature, s1)
    else transfer_result f t l s1).
End state.

Definition create_scope (to : nat) (a : Address) (space : Z) (owner : Pubkey)
    (signers : gset Pubkey) : TA unit :=
  with_account ix to (fun to =>
    l ← st_gets (get_lamports to);
    fail_if (0 <? l) (SystemErr AccountAlreadyInUse) ;;
    allocate_and_assign to a space owner signers).

Lemma create_scope_safe n to a space owner signers :
  ix_safe n ix (create_scope to a space owner signers).
Proof. unfold create_scope. repeat safe_step. by apply allocate_and_assign_safe. Qed.

Lemma cf_allocate_and_assign b a space owner signers :
  counter_free (allocate_and_assign b a space owner signers).
Proof.
  apply cf_bind; intros.
  - repeat first [apply cf_set_data_length | apply cf_bind; [|intros ?] | by apply cf_gets
                 | apply cf_fail_if].
  - apply cf_bind; [by apply cf_gets|]. intros o. case_bool; [apply cf_ret|].
    apply cf_bind; [apply cf_fail_if|]. intros _. apply cf_set_owner.
Qed.

Section create.
Context (L T : Z) (n : nat) (s : TransactionAccounts).
Hypothesis Hok : ta_ok L T s.
Hypothesis Hn : accounts_len s = n.
Context (from to : nat) (f t : InstructionAccount).
Hypothesis Hf : instruction_accounts ix !! from = Some f.
Hypothesis Ht : instruction_accounts ix !! to = Some t.
Hypothesis Hcf : borrow_counters s !! index_in_transaction f = Some 0.
Hypothesis Hct : borrow_counters s !! index_in_transaction t = Some 0.

Lemma create_scope_run a space owner signers :
  0 <= space ->
  create_scope to a space owner signers s =
  if 0 <? balance (index_in_transaction t) s then (Err (SystemErr AccountAlreadyInUse), s)
  else allocate_checks s t (address_is_signer a signers) space
    (Ok tt, give (index_in_transaction t) owner
              (alloc (index_in_transaction t) (Z.to_nat space) s)).
Proof using Hok Hn Ht Hct.
  intros Hsp. pose proof (handle_at _ _ _ _ _ _ Hok Hn Ht Hct) as Hh. unfold create_scope.
  rewrite (with_account_run L T n ix to t); [|done|done|done|done|..].
  - unfold mbind, stm_bind, st_gets, fail_if.
    change (get_lamports (borrowed_at ix t) s) with (balance (index_in_transaction t) s).
    destruct (0 <? balance _ s); [done|]. unfold mret, stm_ret. cbv beta iota.
    by apply (allocate_and_assign_run L T n).
  - apply cf_bind; [by apply cf_gets|]. intros l. apply cf_bind; [apply cf_fail_if|]. intros _.
    apply cf_allocate_and_assign.
  - repeat safe_step. by apply allocate_and_assign_safe.
Qed.

Lemma create_account_run a l space owner signers :
  0 <= l -> 0 <= space ->
  create_account ix from to a l space owner signers s =
  create_result s f t (address_is_signer a signers) l space owner.
Proof using Hok Hn Hf Ht Hcf Hct.
  intros Hl Hsp. pose proof (handle_at _ _ _ _ _ _ Hok Hn Ht Hct) as Hh.
  unfold create_account. unfold mbind at 1, stm_bind at 1.
  change (with_account ix to _) with (create_scope to a space owner signers).
  destruct (create_scope_safe n to a space owner signers L T s Hok Hn) as [Hok1 _ _].
  rewrite (create_scope_run a space owner signers Hsp) in Hok1 |- *. unfold create_result.
  destruct (0 <? balance _ s); [done|].
  destruct (checks_cases s t (address_is_signer a signers) space (Ok tt,
    give (index_in_transaction t) owner (alloc (index_in_transaction t) (Z.to_nat space) s)))
    as [[e He]|(Hs & Hc & Hk)]; [by rewrite !He|].
  rewrite Hk in Hok1 |- *. cbn [fst snd] in Hok1. set (s1 := give _ _ _) in *.
  rewrite Hs.
  destruct (checks_cases s t true space (if negb (ia_is_signer f)
    then (Err MissingRequiredSignature, s1) else transfer_result f t l s1))
    as [[e He]|(_ & _ & ->)]; [by rewrite He in Hc|].
  assert (borrow_counters s1 = borrow_counters s) as Hcs
    by by unfold s1; rewrite give_counters, alloc_counters.
  apply (transfer_run L T n); [done| |done|done|by rewrite Hcs|by rewrite Hcs|done].
  unfold s1. by rewrite give_len, alloc_len.
Qed.

Lemma create_result_ok signed l space owner s' :
  create_result s f t signed l space owner = (Ok tt, s') ->
  let fi := index_in_transaction f in
  let ti := index_in_transaction t in
  s' = pay ti l (pay fi (- l) (give ti owner (alloc ti (Z.to_nat space) s))) /\
  signed = true /\ ia_is_signer f = true /\ balance ti s <= 0 /\ data_at ti s = [] /\
  owner_at ti s = system_program_id /\ space <= MAX_PERMITTED_DATA_LENGTH.
Proof using.
  cbv zeta. unfold create_result, allocate_checks. cbv zeta. intros H.
  destruct (Z.ltb_spec 0 (balance (index_in_transaction t) s)); [done|].
  destruct signed; [|done]. cbn [negb] in H.
  destruct (Nat.eqb_spec (length (data_at (index_in_transaction t) s)) 0) as [Hd|]; [|done].
  destruct (Z.eqb_spec (owner_at (index_in_transaction t) s) system_program_id); [|done].
  cbn [negb orb] in H. destruct (Z.ltb_spec MAX_PERMITTED_DATA_LENGTH space); [done|].
  do 3 (head_if H; [done|]). destruct (ia_is_signer f); [|done]. cbn [negb] in H.
  apply transfer_result_ok in H as [-> _]. apply nil_length_inv in Hd. by split_and!.
Qed.
End create.
End spec.
