(* ===== verification/NonceProofs.v ===== *)
(** * Nonce accounts

    What is stored in an account is read back from it ([set_state_stored]); a nonce
    advances at most once per blockhash; a withdrawal empties the account or leaves
    it rent exempt. *)

From S2P Require Import Prelude SvmInterface TransactionAccounts InstructionAccounts.
From S2P Require Import TransactionContext SysvarCache AccountSafety AccountRun.
From S2P Require Import SystemProgram SystemProofs SystemSpec.
Local Open Scope Z_scope.

(** The documented behaviour of the nonce types: a version holds the state it was
    made from, a state the values it was made from. *)
Class NonceLaws (NI : NonceInterface) : Prop := {
  versions_state_new x : versions_state (versions_new x) = x;
  authority_new a d f : authority (nonce_data_new a d f) = a;
  durable_nonce_new a d f : durable_nonce (nonce_data_new a d f) = d;
  versions_bincode_laws :: BincodeLaws Versions;
}.

Section state.
Context {SI : SvmInterface} {A : Type} {B : Bincode A} {BL : BincodeLaws A}.
Implicit Types b : BorrowedInstructionAccount.

Definition stored (b : BorrowedInstructionAccount) (s : TransactionAccounts) : option A :=
  deserialize (get_data b s).

Lemma overwrite_fits bytes d :
  (length bytes <= length d)%nat -> overwrite bytes d = bytes ++ drop (length bytes) d.
Proof. intros H. unfold overwrite. by rewrite take_ge by lia. Qed.

Lemma set_state_inv b (x : A) s s' :
  set_state b x s = (Ok tt, s') ->
  exists bytes, serialize x = Some bytes /\ (length bytes <= length (get_data b s))%nat /\
    is_writable b = true /\ is_owned_by_current_program b s = true /\
    s' = view_write_data (get_index_in_transaction b) (overwrite bytes (get_data b s))
           (with_touched <[get_index_in_transaction b := true]> s).
Proof using BL.
  unfold set_state, get_data_mut, can_data_be_changed. unfold mbind, stm_bind.
  destruct (is_writable b); [|done]. destruct (is_owned_by_current_program b s); [|done].
  cbn [negb]. unfold borrowed_touch, touch. destruct (touched_flags s !! _); [|done].
  unfold st_gets, st_lift, fail_if. intros H.
  change (get_data b (with_touched _ s)) with (get_data b s) in H.
  destruct (serialized_size x) as [size|] eqn:Hs; [|done]. simpl in H.
  destruct (serialize_size x size Hs) as (bytes & Hb & Hlen). rewrite Hb in H. simpl in H.
  destruct (Z.ltb_spec (Z.of_nat (length (get_data b s))) size); [done|].
  unfold mret, stm_ret in H. cbv beta iota in H. head_if H; [done|]. injection H as <-.
  exists bytes. split_and!; [done|lia|done..].
Qed.

(** What was stored is what is read; balances and owners are kept. *)
Lemma set_state_stored b (x : A) s s' :
  (get_index_in_transaction b < length (private_account_fields s))%nat ->
  set_state b x s = (Ok tt, s') ->
  stored b s' = Some x /\ shared_account_fields s' = shared_account_fields s /\
  borrow_counters s' = borrow_counters s /\
  length (get_data b s') = length (get_data b s).
Proof using BL.
  intros Hi (bytes & Hb & Hl & _ & _ & ->)%set_state_inv. unfold stored, get_data. simpl.
  rewrite lookup_total_alter_eq by done. simpl. fold (get_data b s).
  rewrite overwrite_fits by done. split_and!; [by apply deserialize_serialize|done|done|].
  rewrite length_app, length_drop. lia.
Qed.
End state.
Arguments stored {_} _ {_} _ _.

(** ** Advancing *)

Section nonce.
Context {SI : SvmInterface} {SY : SysvarInterface} {NI : NonceInterface} {NL : NonceLaws NI}.
Implicit Types b : BorrowedInstructionAccount.
Implicit Types (env : EnvironmentConfig) (signers : gset Pubkey).

Abbreviation nonce_at b s := (stored Versions b s ≫= versions_state).
Abbreviation next_nonce env := (from_blockhash (blockhash env)).

Lemma advance_inv env b signers s s' :
  advance_nonce_account env b signers s = (Ok tt, s') ->
  is_writable b = true /\
  exists data, nonce_at b s = Some data /\ authority data ∈ signers /\
    durable_nonce data <> next_nonce env /\
    set_state b (versions_new (Some (nonce_data_new (authority data) (next_nonce env)
      (blockhash_lamports_per_signature env)))) s = (Ok tt, s').
Proof using.
  unfold advance_nonce_account, get_state, fail_if. unfold mbind, stm_bind, stored, option_bind.
  intros H. destruct (is_writable b); [|done]. cbn [negb] in H. unfold mret, stm_ret in H.
  cbv beta iota in H. split; [done|].
  destruct (deserialize (get_data b s)) as [v|]; [|done]. cbn [ok_or] in H.
  destruct (versions_state v) as [data|]; [|done]. exists data.
  case_bool_decide; [done|]. cbv beta iota in H. case_bool_decide; [done|]. cbv beta iota in H.
  split_and!; [done|done|done|done].
Qed.

(** With the stored nonce the one of the block, advancing fails. *)
Lemma advance_again env b signers s data :
  nonce_at b s = Some data -> durable_nonce data = next_nonce env -> is_writable b = true ->
  authority data ∈ signers ->
  advance_nonce_account env b signers s = (Err (SystemErr NonceBlockhashNotExpired), s).
Proof using.
  intros Hn Hd Hw Ha. apply bind_Some in Hn as (v & Hv & Hs). unfold stored in Hv.
  unfold advance_nonce_account, get_state, fail_if. unfold mbind, stm_bind.
  rewrite Hw. cbn [negb]. unfold mret, stm_ret. cbv beta iota. rewrite Hv. cbn [ok_or].
  cbv beta iota. rewrite Hs.
  rewrite bool_decide_false by (intros ?; done). cbv beta iota. by rewrite bool_decide_true.
Qed.

(** ** Withdrawing *)

Lemma check_withdrawal_inv env b l r signers s s' :
  check_nonce_withdrawal env b l r signers s = (Ok tt, s') ->
  exists v, stored Versions b s = Some v /\
  match versions_state v with
  | None => s' = s /\ l <= get_lamports b s /\ get_key b s ∈ signers
  | Some data =>
    authority data ∈ signers /\
    ((l = get_lamports b s /\ durable_nonce data <> next_nonce env /\
      set_state b (versions_new None) s = (Ok tt, s')) \/
     (s' = s /\ l <> get_lamports b s /\
      l + minimum_balance r (Z.of_nat (length (get_data b s))) <= get_lamports b s))
  end.
Proof using.
  unfold check_nonce_withdrawal, get_state, fail_if, stored. unfold mbind, stm_bind, st_gets.
  intros H. destruct (is_writable b); [|done]. cbn [negb] in H. unfold mret, stm_ret in H.
  cbv beta iota in H. destruct (deserialize (get_data b s)) as [v|]; [|done]. cbn [ok_or] in H.
  exists v. split; [done|]. destruct (versions_state v) as [data|].
  - destruct (Z.eqb_spec l (get_lamports b s)) as [->|Hne].
    + case_bool_decide as H1; [done|]. cbv beta iota in H. case_bool_decide as H2; [done|].
      cbv beta iota in H. split; [done|]. by left.
    + unfold st_lift, checked_add in H. destruct (_ <=? u64_max); [|done]. cbn [ok_or] in H.
      destruct (Z.ltb_spec (get_lamports b s)
        (l + minimum_balance r (Z.of_nat (length (get_data b s))))); [done|]. cbv beta iota in H.
      case_bool_decide as H2; [done|]. injection H as <-. split; [done|].
      by right.
  - destruct (Z.ltb_spec (get_lamports b s) l); [done|]. cbv beta iota in H.
    case_bool_decide as H2; [done|]. injection H as <-. split_and!; [done|done|].
    done.
Qed.

Lemma cf_check_withdrawal env b l r signers :
  counter_free (check_nonce_withdrawal env b l r signers).
Proof using.
  apply cf_bind; [apply cf_fail_if|]. intros _. apply cf_bind; [apply cf_get_state|]. intros v.
  apply cf_bind; [by apply cf_gets|]. intros x. destruct (versions_state v) as [data|].
  - case_bool.
    + apply cf_bind; [apply cf_fail_if|]. intros _.
      apply cf_bind; [apply cf_fail_if|]. intros _. apply cf_set_state.
    + apply cf_bind; [by apply cf_gets|]. intros d. apply cf_bind; [apply cf_lift|]. intros y.
      apply cf_bind; [apply cf_fail_if|]. intros _. apply cf_fail_if.
  - apply cf_bind; [apply cf_fail_if|]. intros _. apply cf_bind; [by apply cf_gets|]. intros k.
    apply cf_fail_if.
Qed.

(** A successful withdrawal: the checks lead to [s1], the lamports move from there. *)
Lemma withdraw_inv L T env ix from to f t l r signers s s' :
  ta_ok L T s ->
  instruction_accounts ix !! from = Some f -> instruction_accounts ix !! to = Some t ->
  borrow_counters s !! index_in_transaction f = Some 0 ->
  borrow_counters s !! index_in_transaction t = Some 0 -> 0 <= l ->
  withdraw_nonce_account env ix from l to r signers s = (Ok tt, s') ->
  exists s1, check_nonce_withdrawal env (borrowed_at ix f) l r signers s = (Ok tt, s1) /\
    accounts_len s1 = accounts_len s /\
    s' = pay (index_in_transaction t) l (pay (index_in_transaction f) (- l) s1).
Proof using NL.
  intros Hok Hf Ht Hcf Hct Hl H. pose proof (handle_at ix _ _ _ _ _ _ Hok eq_refl Hf Hcf) as Hh.
  apply st_bind_Ok in H as ([] & s2 & H1 & H2).
  rewrite (with_account_run L T (accounts_len s) ix from f) in H1; [|done|done|done|done|..].
  2: { apply cf_bind; [apply cf_check_withdrawal|]. intros _. apply cf_checked_sub. }
  2: { apply ix_safe_bind; [by apply check_nonce_withdrawal_safe|]. intros _.
       by apply checked_sub_lamports_safe. }
  apply st_bind_Ok in H1 as ([] & s1 & Hc & H1). exists s1. split; [done|].
  destruct (check_nonce_withdrawal_safe (accounts_len s) ix env _ l r signers Hh L T s Hok eq_refl)
    as [Hok1 He1 _]. rewrite Hc in Hok1, He1. cbn [snd] in Hok1, He1.
  assert (accounts_len s1 = accounts_len s) as Hn1.
  { unfold accounts_len. by rewrite <-(length_fmap key), (keys_kept _ _ _ He1), length_fmap. }
  split; [done|].
  destruct (checked_sub_lamports_safe (accounts_len s) _ _ _ Hh l Hl L T s1 Hok1 Hn1)
    as [Hok2 He2 _]. rewrite H1 in Hok2, He2. cbn [snd] in Hok2, He2.
  rewrite (checked_sub_run (accounts_len s) _ _ _ Hh L T s1 Hok1 Hn1 l Hl) in H1.
  do 3 (head_if H1; [done|]). injection H1 as <-.
  rewrite (credit_run ix L T (accounts_len s) _ to t l) in H2; [|done| |done| |done].
  - cbv zeta in H2. do 2 (head_if H2; [done|]). by injection H2 as <-.
  - by rewrite pay_len.
  - rewrite pay_counters, (counters_kept _ _ _ He1). done.
Qed.
End nonce.
