(* ===== verification/Programs.v ===== *)
(** * Programs that keep the contract of the runtime

    Two discharges of [program_ok] and [program_local]: the system program, and
    every program that reads what it likes but changes accounts only through the
    operations of [InstructionAccounts] and cross-program invocations.  The latter
    are given as a [script]: a tree of actions that may depend on all that the
    program has seen.  A script borrows one account at a time, and fails when an
    invocation fails. *)

From S2P Require Import Prelude SvmInterface TransactionAccounts InstructionAccounts.
From S2P Require Import TransactionContext SysvarCache InvokeContext AccountSafety.
From S2P Require Import RuntimeSafety RuntimeFuel SystemProgram SystemProofs.
Local Open Scope Z_scope.

Section scripts.
Context {SI : SvmInterface}.
Abbreviation runs_within := (fun n => within n transaction_context).

Inductive account_op :=
| OpSetOwner (k : Pubkey)
| OpSetLamports (x : Z)
| OpAddLamports (x : Z)
| OpSubLamports (x : Z)
| OpSetData (d : list Z)
| OpSetDataLength (n : nat)
| OpExtend (d : list Z)
| OpWrite (d : list Z)
| OpSetExecutable (x : bool).

Definition run_op (op : account_op) (b : BorrowedInstructionAccount) : TA unit :=
  match op with
  | OpSetOwner k => set_owner b k
  | OpSetLamports x => set_lamports b x
  | OpAddLamports x => checked_add_lamports b x
  | OpSubLamports x => checked_sub_lamports b x
  | OpSetData d => set_data_from_slice b d
  | OpSetDataLength n => set_data_length b n
  | OpExtend d => extend_from_slice b d
  | OpWrite d => fun s =>
    (get_data_mut b ;;
     st_modify (view_write_data (get_index_in_transaction b) (overwrite d (get_data b s)))) s
  | OpSetExecutable x => set_executable b x
  end.

(** Amounts are [u64]s. *)
Definition op_typed (op : account_op) : Prop :=
  match op with
  | OpSetLamports x | OpAddLamports x | OpSubLamports x => is_u u64_max x
  | _ => True
  end.

Lemma run_op_safe n ix b op : op_typed op -> ix_handle n ix b -> ix_safe n ix (run_op op b).
Proof.
  unfold ix_safe, ix_handle. intros Ht Hb. destruct op; simpl in *;
    [by apply set_owner_safe|by apply set_lamports_safe
    |destruct Ht; by apply checked_add_lamports_safe
    |destruct Ht; by apply checked_sub_lamports_safe|by apply set_data_from_slice_safe
    |by apply set_data_length_safe|by apply extend_from_slice_safe|by apply slice_write_safe
    |by apply set_executable_safe].
Qed.

(** A sequence of operations; a failed one is passed over. *)
Fixpoint run_ops (ix : InstructionContext) (l : list (nat * account_op)) : TA unit :=
  match l with
  | [] => mret tt
  | (i, op) :: l => st_try (with_account ix i (run_op op)) ;; run_ops ix l
  end.

Lemma run_ops_safe n ix l : Forall (fun p => op_typed p.2) l -> ix_safe n ix (run_ops ix l).
Proof.
  induction 1 as [|[i op] l Hop _ IH]; [by apply safe_read|]. apply safe_bind; [|done].
  apply safe_try, with_account_safe. intros b Hb. by apply run_op_safe.
Qed.

Inductive script :=
| Finish (result : outcome ProgramError unit)
| Look (next : InvokeContext SI -> script)
| Consume (units : Z) (next : script)
| Act (i : nat) (op : account_op) (next : outcome InstructionError unit -> script)
| Call (instruction : Instruction) (seeds : list (list (list Z))) (next : script).

Fixpoint run_script (p : script) : program := fun invoke =>
  match p with
  | Finish result => st_lift result
  | Look next => fun ic => run_script (next ic) invoke ic
  | Consume units next =>
    st_map_err InstrError (consume_checked units) ;; run_script next invoke
  | Act i op next =>
    o ← st_map_err InstrError (
      ix ← (fun ic => (get_current_instruction_context (transaction_context ic), ic));
      on_ta (st_try (with_account ix i (run_op op))));
    run_script (next o) invoke
  | Call instruction seeds next =>
    st_map_err InstrError (invoke instruction seeds) ;; run_script next invoke
  end.

Fixpoint script_typed (p : script) : Prop :=
  match p with
  | Finish _ => True
  | Look next => forall ic, script_typed (next ic)
  | Consume _ next => script_typed next
  | Act _ op next => op_typed op /\ forall o, script_typed (next o)
  | Call instruction _ next =>
    Z.of_nat (length (metas instruction)) <= u16_max /\ script_typed next
  end.

Lemma consume_within n ix units : runs_within n ix (consume_checked units).
Proof. apply within_read. intros ic. unfold consume_checked. by case_bool. Qed.

Lemma script_ok p : script_typed p -> program_ok (run_script p).
Proof.
  intros Ht n invoke ix Hi. induction p as [r|next IH|units next IH|i op next IH|ins seeds next IH];
    simpl in *.
  - by apply within_read.
  - intros L T ic. by apply IH.
  - apply within_bind; [by apply within_map_err, consume_within|]. intros _. by apply IH.
  - destruct Ht as [Ho Ht]. apply within_bind; [|intros o; by apply IH].
    apply within_map_err. apply within_current. apply within_accounts. apply safe_try.
    apply with_account_safe. intros b Hb. by apply run_op_safe.
  - destruct Ht as [Hm Ht]. apply within_bind; [|intros _; by apply IH].
    apply within_map_err. by apply Hi.
Qed.

Lemma keeps_map_err {S A E E'} (sh : S -> nat * nat) (f : E -> E') (m : stm S E A) :
  keeps_shape sh m -> keeps_shape sh (st_map_err f m).
Proof.
  intros Hm s a s' H. unfold st_map_err in H. destruct (m s) as [[x|e|] s1] eqn:E1; [|done|done].
  injection H as -> <-. by apply Hm in E1.
Qed.

Lemma consume_keeps units : keeps_shape shape (consume_checked units).
Proof. apply keeps_same. intros ic. unfold consume_checked. by case_bool. Qed.

Lemma act_keeps {A} (m : InstructionContext -> TA A) :
  keeps_shape shape (
    ix ← (fun ic => (get_current_instruction_context (transaction_context ic), ic));
    on_ta (m ix)).
Proof. apply keeps_bind; [by apply keeps_same|]. intros ix. apply keeps_on_ta. Qed.

Lemma script_keeps p invoke :
  (forall instruction seeds, keeps_shape shape (invoke instruction seeds)) ->
  keeps_shape shape (run_script p invoke).
Proof.
  intros Hi. induction p as [r|next IH|units next IH|i op next IH|ins seeds next IH]; simpl.
  - by apply keeps_same.
  - intros ic a ic' H. by apply IH in H.
  - apply keeps_bind; [by apply keeps_map_err, consume_keeps|]. by intros _.
  - apply keeps_bind; [|done]. apply keeps_map_err.
    apply (act_keeps (fun ix => st_try (with_account ix i (run_op op)))).
  - apply keeps_bind; [by apply keeps_map_err|]. by intros _.
Qed.

(** A computation that keeps the shape, followed by one that agrees. *)
Lemma bind_agree {A B E} (m : stm (InvokeContext SI) E A) (f g : A -> stm (InvokeContext SI) E B) ic :
  keeps_shape shape m -> (forall a ic', shape ic' = shape ic -> f a ic' = g a ic') ->
  (m ≫= f) ic = (m ≫= g) ic.
Proof.
  intros Hm Hfg. unfold mbind, stm_bind. destruct (m ic) as [[a|e|] ic'] eqn:E1; [|done|done].
  apply Hfg. by apply Hm in E1.
Qed.

Lemma script_local p : program_local (run_script p).
Proof.
  split; [|intros invoke; apply script_keeps].
  intros invoke1 invoke2 ic Ha Hk. revert ic Ha.
  induction p as [r|next IH|units next IH|i op next IH|ins seeds next IH]; intros ic Ha; simpl.
  - done.
  - by apply IH.
  - apply bind_agree; [by apply keeps_map_err, consume_keeps|]. intros _ ic' E. apply IH.
    by rewrite E.
  - apply bind_agree.
    + apply keeps_map_err, (act_keeps (fun ix => st_try (with_account ix i (run_op op)))).
    + intros o ic' E. apply IH. by rewrite E.
  - unfold mbind, stm_bind, st_map_err. rewrite <-(Ha ins seeds ic eq_refl).
    destruct (invoke1 ins seeds ic) as [[[]|e|] ic'] eqn:E1; [|done|done].
    apply IH. apply Hk in E1. by rewrite E1.
Qed.
End scripts.

(** ** The system program *)

Section system.
Context {SI : SvmInterface} {SY : SysvarInterface} {NI : NonceInterface}.
Context (decode_system_instruction : list Z -> Z -> option SystemInstruction).

(** The numbers of a decoded instruction are [u64]s. *)
Hypothesis decode_typed : forall d limit i,
  decode_system_instruction d limit = Some i -> system_instruction_typed i.

Lemma system_instruction_safe n env ix :
  ix_safe n ix (system_instruction decode_system_instruction env ix).
Proof using decode_typed.
  unfold system_instruction. intros L T s Hok Hn. unfold mbind, stm_bind, st_lift.
  destruct (decode_system_instruction _ _) as [i|] eqn:E; simpl; [|by apply step_refl].
  destruct (get_signers ix s) as [signers|e|]; simpl; [|by apply step_refl..].
  apply (dispatch_system_safe n ix env i signers); [by eapply decode_typed|done|done].
Qed.

Lemma system_ok env : program_ok (system_entrypoint decode_system_instruction env).
Proof using decode_typed.
  intros n invoke ix _. apply within_map_err. apply within_bind.
  - case_bool; [apply consume_within|by apply within_read].
  - intros _. apply within_current, within_accounts, system_instruction_safe.
Qed.

Lemma system_local env : program_local (system_entrypoint decode_system_instruction env).
Proof using.
  split; [done|]. intros invoke _. apply keeps_map_err, keeps_bind.
  - case_bool; [apply consume_keeps|by apply keeps_same].
  - intros _. apply act_keeps.
Qed.
End system.
