(* ===== verification/SvmModel.v ===== *)
(** * A concrete instance of the runtime's external code

    Small functions in place of the crates that [SvmInterface], [SysvarInterface]
    and [NonceInterface] stand for.  They satisfy the laws the proofs rely on, and
    make the runtime executable on concrete transactions. *)

From S2P Require Import Prelude SvmInterface TransactionAccounts InstructionAccounts.
From S2P Require Import TransactionContext SysvarCache InvokeContext SystemProgram SystemProofs.
From S2P Require Import RuntimeSafety RuntimeFuel Programs NonceProofs.
From stdpp Require Import strings.
Local Open Scope Z_scope.

Module Model.
Definition rent_for (r n : Z) : Z := Z.min u64_max (Z.abs r * (n + 128)).

#[export] Instance svm : SvmInterface := {|
  Rent := Z;
  minimum_balance := rent_for;
  is_exempt r b n := rent_for r n <=? b;
  create_with_seed base seed owner := inl (base * 1000 + Z.of_nat (String.length seed) + owner);
  create_program_address seeds k := inl (k * 1000 + Z.of_nat (length seeds));
  error_of_code := Custom;
  system_program_id := 1;
  vote_program_id := 2;
  native_loader_id := 3;
  bpf_loader_deprecated_id := 4;
  bpf_loader_id := 5;
  bpf_loader_upgradeable_id := 6;
  loader_v4_id := 7;
  sysvar_id := 8;
  instructions_sysvar_id := 9;
  clock_sysvar_id := 10;
  rent_sysvar_id := 11;
  slot_hashes_sysvar_id := 12;
  recent_blockhashes_sysvar_id := 13;
  store_current_index_checked d i :=
    if (length d =? 0)%nat then Err AccountDataTooSmall else Ok (<[(length d - 1)%nat := i]> d);
|}.

#[export] Instance svm_laws : SvmLaws svm.
Proof.
  split; simpl.
  - done.
  - intros r n Hn. unfold is_u, rent_for, u64_max. lia.
  - intros d i d'. case_bool; [done|]. intros [= <-]. apply length_insert.
Qed.

(** A value is written as a list of words, as many as [size]. *)
Definition words_bincode {A} (size : nat) (enc : A -> list Z) (dec : list Z -> option A) :
    Bincode A := {|
  serialized_size _ := Some (Z.of_nat size);
  serialize x := Some (enc x);
  deserialize d := if (length d <? size)%nat then None else dec (take size d);
|}.

Lemma words_laws {A} size (enc : A -> list Z) dec :
  (forall x, length (enc x) = size) -> (forall x, dec (enc x) = Some x) ->
  @BincodeLaws A (words_bincode size enc dec).
Proof.
  intros Hl Hd. split; simpl.
  - intros x n [= <-]. exists (enc x). by rewrite Hl.
  - intros x b rest [= <-]. rewrite length_app, Hl.
    destruct (Nat.ltb_spec (size + length rest) size); [lia|].
    by rewrite <-(Hl x), take_app_length.
Qed.

Definition word_bincode : Bincode Z := words_bincode 1 (fun x => [x]) head.
Definition words : Bincode (list Z) :=
  {| serialized_size l := Some (Z.of_nat (length l)); serialize := Some; deserialize := Some |}.

Definition enc_clock (c : Clock) : list Z :=
  [clock_slot c; epoch_start_timestamp c; clock_epoch c; leader_schedule_epoch c;
   unix_timestamp c].
Definition dec_clock (l : list Z) : option Clock :=
  match l with [a; b; c; d; e] => Some (mk_clock a b c d e) | _ => None end.
Definition enc_schedule (c : EpochSchedule) : list Z :=
  [slots_per_epoch c; leader_schedule_slot_offset c; u8_of_bool (warmup c);
   first_normal_epoch c; first_normal_slot c].
Definition dec_schedule (l : list Z) : option EpochSchedule :=
  match l with [a; b; c; d; e] => Some (mk_schedule a b (negb (c =? 0)) d e) | _ => None end.
Fixpoint dec_pairs (l : list Z) : option (list (Z * Z)) :=
  match l with
  | [] => Some []
  | a :: b :: l => m ← dec_pairs l; Some ((a, b) :: m)
  | _ => None
  end.

#[export] Instance sysvars : SysvarInterface := {|
  EpochRewards := Z;
  StakeHistory := Z;
  LastRestartSlot := Z;
  Fees := Z;
  clock_bincode := words_bincode 5 enc_clock dec_clock;
  schedule_bincode := words_bincode 5 enc_schedule dec_schedule;
  rent_bincode := word_bincode;
  rewards_bincode := word_bincode;
  restart_bincode := word_bincode;
  history_bincode := word_bincode;
  slot_hashes_bincode := {|
    serialized_size l := Some (Z.of_nat (2 * length l));
    serialize l := Some (l ≫= fun p => [p.1; p.2]);
    deserialize := dec_pairs |};
  fees_bincode := word_bincode;
  recent_bincode := words;
  epoch_schedule_sysvar_id := 14;
  epoch_rewards_sysvar_id := 15;
  stake_history_sysvar_id := 16;
  last_restart_slot_sysvar_id := 17;
  fees_sysvar_id := 18;
|}.

(** Nonce data: the authority, the durable nonce and the fee. *)
Definition enc_versions (v : option (Z * Z * Z)) : list Z :=
  match v with Some (a, d, f) => [1; a; d; f] | None => [0; 0; 0; 0] end.
Definition dec_versions (l : list Z) : option (option (Z * Z * Z)) :=
  match l with
  | [0; _; _; _] => Some None
  | [1; a; d; f] => Some (Some (a, d, f))
  | _ => None
  end.

#[export] Instance nonces : NonceInterface := {|
  DurableNonce := Z;
  from_blockhash h := h * 7 + 1;
  NonceData := Z * Z * Z;
  nonce_data_new a d f := (a, d, f);
  authority x := x.1.1;
  durable_nonce x := x.1.2;
  Versions := option (Z * Z * Z);
  versions_new x := x;
  versions_state x := x;
  versions_authorize v signers k :=
    match v with
    | None => inr NonceUninitialized
    | Some (a, d, f) =>
      if bool_decide (a ∈ signers) then inl (Some (k, d, f))
      else inr (NonceMissingRequiredSignature a)
    end;
  versions_upgrade _ := None;
  versions_bincode := words_bincode 4 enc_versions dec_versions;
|}.

#[export] Instance nonce_laws : NonceLaws nonces.
Proof.
  split; [done|done|done|]. apply words_laws; intros [[[a d] f]|]; done.
Qed.

(** The system instructions [CreateAccount] and [Transfer] on words. *)
Definition is_word (x : Z) : bool := (0 <=? x) && (x <=? u64_max).
Definition decode (d : list Z) (limit : Z) : option SystemInstruction :=
  if limit <? Z.of_nat (length d) then None
  else match d with
  | [0; l; space; k] => if is_word l && is_word space then Some (CreateAccount l space k) else None
  | [2; l] => if is_word l then Some (Transfer l) else None
  | [4] => Some AdvanceNonceAccount
  | _ => None
  end.

Lemma decode_is_typed d limit i : decode d limit = Some i -> system_instruction_typed i.
Proof.
  unfold decode. case_bool; [done|]. intros Hd.
  repeat (match type of Hd with context [match ?x with _ => _ end] => destruct x eqn:? end;
    try done); simplify_eq; simpl; unfold is_word in *; unfold is_u;
    rewrite ?andb_true_iff, ?Z.leb_le in *; lia.
Qed.

(** ** A transaction *)

Definition features : SVMFeatureSet := mk_features true true true true true true true true
  false false false.
Definition env : EnvironmentConfig := mk_env 55 5000 false features cache_reset.

Definition wallet (k l : Z) : Pubkey * AccountSharedData := (k, mk_asd l [] 1 false 0).
(** Two wallets, a new account, the system program and a program that forwards. *)
Definition keyed : list (Pubkey * AccountSharedData) :=
  [wallet 100 1000; wallet 101 50; wallet 102 0;
   (1, mk_asd 1 [] 3 true 0); (60, mk_asd 1 [] 3 true 0); (9, mk_asd 1 [0; 0] 8 false 0)].

(** The message: a transfer, then the same through the forwarding program. *)
Definition message : SVMMessage := mk_message (keyed.*1)
  [(1, mk_svm_instruction 3 [0; 1]%nat [2; 30]); (60, mk_svm_instruction 4 [0; 1; 3]%nat [2; 12])]
  (fun i => (i =? 0)%nat) (fun i => (i <? 3)%nat).

Definition forward : script :=
  Consume 10 (Look (fun ic =>
    let d := match get_current_instruction_context (transaction_context ic) with
             | Ok ix => instruction_data ix
             | _ => []
             end in
    Call (mk_instruction 1 [mk_meta 100 true true; mk_meta 101 false true] d) []
      (Finish (Ok tt)))).

Definition programs (id : Pubkey) : option program :=
  if id =? 1 then Some (system_entrypoint decode env)
  else if id =? 60 then Some (run_script forward)
  else None.

Lemma programs_kept id p : programs id = Some p -> program_ok p.
Proof.
  unfold programs. case_bool.
  - intros [= <-]. apply system_ok, decode_is_typed.
  - case_bool; [|done]. intros [= <-]. apply (script_ok forward). simpl. unfold u16_max. split; [lia|done].
Qed.

Lemma programs_are_local id p : programs id = Some p -> program_local p.
Proof.
  unfold programs. case_bool; [intros [= <-]; apply system_local|].
  case_bool; [|done]. intros [= <-]. apply (script_local forward).
Qed.

Definition start : InvokeContext svm :=
  mk_ic _ (context_new keyed 10 4 64 (length (program_instructions message))) 1000 [].
(** Accounts in the middle of an instruction of the system program: two wallets, a
    new account, a nonce account. *)
Definition loaded_accounts : list (Pubkey * AccountSharedData) :=
  [wallet 100 1000; wallet 101 50; wallet 102 0;
   (103, mk_asd 3000 [1; 100; 9; 5000] 1 false 0); (1, mk_asd 1 [] 3 true 0)].
Definition accs : TransactionAccounts := accounts_new loaded_accounts.
Definition ix : InstructionContext :=
  mk_ix (10 : @Rent svm) 0 0 u16_max 4
    [ia_new 0 true true; ia_new 1 false true; ia_new 2 true true; ia_new 3 false true]
    [0; 1; 2; 3; u16_max] [].
Definition signers : gset Pubkey := {[100; 102]}.

(** The forwarding program at the top, about to call the system program. *)
Definition calling : TransactionContext :=
  let m := mk_message (keyed.*1) [(60, mk_svm_instruction 4 [0; 1; 3]%nat [2; 12])]
    (fun i => (i =? 0)%nat) (fun i => (i <? 3)%nat) in
  (context_push (prepare_top_level_instructions m 0 (program_instructions m)
    (context_new keyed (10 : @Rent svm) 4 64 1)).2).2.
Definition call : Instruction :=
  mk_instruction 1 [mk_meta 100 true true; mk_meta 101 false true] [2; 12].

Definition no_precompile (_ : Pubkey) (_ : list Z) (_ : list (list Z)) :
    outcome InstructionError unit := Err InvalidArgument.
Definition outcome_of_message :=
  process_message programs (fun _ => false) no_precompile 5 message (start, 0).
Definition keyed_result :=
  (outcome_of_message.1, rec_accounts (execution_record (transaction_context outcome_of_message.2.1))).
End Model.
