(* ===== verification/MessageProofs.v ===== *)
(** * From the loaded accounts to the record of the execution

    A message that starts from [TransactionContext::new] and ends with the
    [ExecutionRecord]: the well-formedness of freshly loaded accounts, and what
    [RuntimeProofs] and [RuntimeFuel] say of the recorded accounts. *)

From S2P Require Import Prelude SvmInterface TransactionAccounts InstructionAccounts.
From S2P Require Import TransactionContext InvokeContext AccountSafety RuntimeSafety.
From S2P Require Import RuntimeProofs RuntimeFuel.
Local Open Scope Z_scope.

Abbreviation keyed_accounts := (list (Pubkey * AccountSharedData)).

(** What the accounts database hands over. *)
Record loadable (l : keyed_accounts) : Prop := {
  ld_few : (length l <= MAX_ACCOUNTS_PER_TRANSACTION)%nat;
  ld_lamports p : p ∈ l -> is_u u64_max (asd_lamports p.2);
  ld_small p : p ∈ l -> Z.of_nat (length (asd_data p.2)) <= MAX_ACCOUNT_DATA_LEN;
}.

Definition keyed_lamports (l : keyed_accounts) : Z := zsum (fun p => asd_lamports p.2) l.
Definition keyed_bytes (l : keyed_accounts) : Z :=
  zsum (fun p => Z.of_nat (length (asd_data p.2))) l.

Lemma zsum_imap {A B} (f : B -> Z) (g : nat -> A -> B) (h : A -> Z) l :
  (forall i x, f (g i x) = h x) -> zsum f (imap g l) = zsum h l.
Proof.
  revert g. induction l as [|x l IH]; intros g H; [done|]. simpl. rewrite H, IH; [done|].
  intros. apply H.
Qed.

Section accounts.
Context (l : keyed_accounts) (Hl : loadable l).

Lemma keyed_lamports_bound : 0 <= keyed_lamports l <= 256 * u64_max.
Proof using Hl.
  destruct (zsum_bound (fun p => asd_lamports p.2) l u64_max) as [H1 H2].
  { intros p Hp. by apply (ld_lamports _ Hl). }
  pose proof (ld_few _ Hl). unfold MAX_ACCOUNTS_PER_TRANSACTION in *.
  unfold keyed_lamports, u64_max in *. nia.
Qed.
Lemma keyed_bytes_bound : 0 <= keyed_bytes l <= 256 * MAX_ACCOUNT_DATA_LEN.
Proof using Hl.
  destruct (zsum_bound (fun p => Z.of_nat (length (asd_data p.2))) l MAX_ACCOUNT_DATA_LEN)
    as [H1 H2].
  { intros p Hp. pose proof (ld_small _ Hl p Hp). lia. }
  pose proof (ld_few _ Hl). unfold MAX_ACCOUNTS_PER_TRANSACTION in *.
  unfold keyed_bytes, MAX_ACCOUNT_DATA_LEN in *. nia.
Qed.

Lemma accounts_new_ok : ta_ok (keyed_bytes l) (keyed_lamports l) (accounts_new l).
Proof using Hl.
  assert (accounts_len (accounts_new l) = length l) as El by apply length_imap.
  split; rewrite ?El.
  - apply length_fmap.
  - apply length_replicate.
  - apply length_replicate.
  - apply Hl.
  - simpl. intros i a p. rewrite list_lookup_imap, list_lookup_fmap.
    destruct (l !! i) as [[k d]|] eqn:Hi; [|done]. intros [= <-] [= <-].
    apply list_elem_of_lookup_2 in Hi.
    split; simpl; [by apply (ld_lamports _ Hl (k, d))|by apply (ld_small _ Hl (k, d))|done].
  - unfold total_lamports. simpl. rewrite (zsum_imap _ _ (fun p => asd_lamports p.2)) by done.
    unfold keyed_lamports. lia.
  - unfold total_data. simpl. rewrite zsum_fmap. unfold keyed_bytes. simpl. lia.
  - done.
  - apply keyed_lamports_bound.
  - apply keyed_bytes_bound.
Qed.

(** Loading and recording loses nothing. *)
Lemma deconstruct_new : deconstruct_into_keyed_account_shared_data (accounts_new l) = l.
Proof using.
  unfold deconstruct_into_keyed_account_shared_data. simpl. generalize 0%nat as k. clear Hl.
  assert (forall h : nat -> nat, zip_with (fun sh pr => (key sh, mk_asd (lamports sh)
    (payload pr) (owner sh) (executable pr) (rent_epoch pr)))
    (imap (fun i => new_shared (h i)) l) (new_private <$> l) = l) as H.
  { induction l as [|[k []] l' IH]; intros h; [done|]. simpl. f_equal. apply (IH (h ∘ S)). }
  intros _. apply (H id).
Qed.
End accounts.

Lemma deconstruct_lookup s i :
  deconstruct_into_keyed_account_shared_data s !! i =
  (a ← shared_account_fields s !! i; p ← private_account_fields s !! i;
   Some (key a, mk_asd (lamports a) (payload p) (owner a) (executable p) (rent_epoch p))).
Proof.
  unfold deconstruct_into_keyed_account_shared_data. by rewrite lookup_zip_with.
Qed.

(** Induction on the rows of the two parallel arrays. *)
Ltac row_by_row Hok s :=
  let E := fresh "E" in let IH := fresh "IH" in
  pose proof (len_private _ _ _ Hok) as E; unfold accounts_len in E;
  unfold keyed_lamports, keyed_bytes, total_lamports, total_data;
  unfold deconstruct_into_keyed_account_shared_data;
  revert E; generalize (private_account_fields s);
  induction (shared_account_fields s) as [|a m IH]; intros [|p k] E; simplify_eq/=;
    [done|rewrite IH by done; done].

Section record.
Context (L T : Z) (s : TransactionAccounts) (Hok : ta_ok L T s).

Lemma deconstruct_keys :
  (deconstruct_into_keyed_account_shared_data s).*1 = key <$> shared_account_fields s.
Proof using Hok. row_by_row Hok s. Qed.
Lemma deconstruct_lamports :
  keyed_lamports (deconstruct_into_keyed_account_shared_data s) = total_lamports s.
Proof using Hok. row_by_row Hok s. Qed.
Lemma deconstruct_bytes :
  keyed_bytes (deconstruct_into_keyed_account_shared_data s) = total_data s.
Proof using Hok. row_by_row Hok s. Qed.
End record.

(** ** Running a message on loaded accounts *)

Section message.
Context {SI : SvmInterface} {SL : SvmLaws SI}.
Context (programs : Pubkey -> option program).
Context (is_precompile : Pubkey -> bool).
Context (precompile : Pubkey -> list Z -> list (list Z) -> outcome InstructionError unit).
Context (l : keyed_accounts) (r : Rent) (stack_capacity trace_capacity : nat).
Context (units : Z) (message : SVMMessage).

(** The context is created, the message processed, and the result recorded. *)
Definition run_message (fuel : nat) :
    outcome (Z * InstructionError) unit * ExecutionRecord :=
  let t := context_new l r stack_capacity trace_capacity
    (length (program_instructions message)) in
  let '(o, (ic, _)) := process_message programs is_precompile precompile fuel message
    (mk_ic _ t units [], 0) in
  (o, execution_record (transaction_context ic)).

Lemma context_new_loaded :
  loadable l ->
  loaded message (keyed_bytes l) (keyed_lamports l)
    (context_new l r stack_capacity trace_capacity (length (program_instructions message))).
Proof using.
  intros Hl. split; try done.
  - by apply accounts_new_ok.
  - simpl. by rewrite length_replicate.
Qed.

Section contract.
Hypothesis programs_ok : forall id p, programs id = Some p -> program_ok p.
Hypothesis Hl : loadable l.
Hypothesis Hm : message_ok message.

(** The final accounts, as the runtime left them. *)
Lemma run_message_accounts fuel : exists s,
  ta_ok (keyed_bytes l) (keyed_lamports l) s /\
  rt_evolves (message_writes message) (accounts_new l) s /\
  rec_accounts (run_message fuel).2 = deconstruct_into_keyed_account_shared_data s /\
  rec_touched_flags (run_message fuel).2 = touched_flags s /\
  rec_accounts_resize_delta (run_message fuel).2 = resize_delta s /\
  (is_ok (run_message fuel).1 = true -> lamports_delta s = 0).
Proof using programs_ok SL Hl Hm.
  unfold run_message.
  destruct (process_message_ok programs programs_ok message is_precompile precompile fuel
    _ _ (mk_ic _ (context_new l r stack_capacity trace_capacity _) units [], 0)
    Hm (context_new_loaded Hl)) as [[H1 H2] H3].
  destruct (process_message _ _ _ _ _ _) as [o [ic z]]. simpl in *.
  by exists (accounts (transaction_context ic)).
Qed.
End contract.
End message.
