(* ===== verification/SvmTheorems.v ===== *)
(** * The transaction runtime: what it guarantees

    The properties of the runtime and of the system program, stated on the record
    of an execution and on the accounts of a transaction, with concrete runs of
    the instance of [SvmModel]. *)

From S2P Require Import Prelude SvmInterface TransactionAccounts InstructionAccounts.
From S2P Require Import TransactionContext InvokeContext SysvarCache AccountSafety AccountRun.
From S2P Require Import CpiPrivileges RuntimeSafety RuntimeProofs RuntimeFuel SystemProgram.
From S2P Require Import SystemProofs SystemSpec NonceProofs Programs MessageProofs.
From S2P Require Import SvmModel.
Local Open Scope Z_scope.

Section messages.
Context {SI : SvmInterface} {SL : SvmLaws SI}.

(** C2: A message is run by programs that keep their contract on accounts as loaded.
    However it ends, the record lists the loaded accounts in order; an account
    other than the instructions sysvar is as loaded unless it is writable in the
    message and marked as touched; the data has grown by the recorded amount, which
    is within the limit.  If the message succeeds, the lamports add up to those
    loaded. *)
Theorem message_safe (programs : Pubkey -> option program) (is_precompile : Pubkey -> bool)
    (precompile : Pubkey -> list Z -> list (list Z) -> outcome InstructionError unit)
    (l : keyed_accounts) (r : Rent) (stack_capacity trace_capacity : nat) (units : Z)
    (message : SVMMessage) (fuel : nat) :
  (forall id p, programs id = Some p -> program_ok p) -> loadable l -> message_ok message ->
  let res := run_message programs is_precompile precompile l r stack_capacity
    trace_capacity units message fuel in
  let rec := res.2 in
  (rec_accounts rec).*1 = l.*1 /\
  (res.1 = Ok tt -> keyed_lamports (rec_accounts rec) = keyed_lamports l) /\
  keyed_bytes (rec_accounts rec) = keyed_bytes l + rec_accounts_resize_delta rec /\
  rec_accounts_resize_delta rec <= MAX_ACCOUNT_DATA_GROWTH_PER_TRANSACTION /\
  forall i k a, l !! i = Some (k, a) -> k <> instructions_sysvar_id ->
    rec_accounts rec !! i = Some (k, a) \/
    message_is_writable message i = true /\ rec_touched_flags rec !! i = Some true.
Proof using SL.
  intros Hp Hl Hm.
  destruct (run_message_accounts programs is_precompile precompile l r stack_capacity
    trace_capacity units message Hp Hl Hm fuel) as (s & Hok & He & Ea & Et & Er & Ed).
  cbv zeta. rewrite Ea, Et, Er.
  pose proof (accounts_new_ok l Hl) as Hok0. split_and!.
  - rewrite (deconstruct_keys _ _ _ Hok), (rt_keys _ _ _ He).
    by rewrite <-(deconstruct_keys _ _ _ Hok0), deconstruct_new.
  - intros Ho. rewrite Ho in Ed. specialize (Ed eq_refl). rewrite (deconstruct_lamports _ _ _ Hok).
    pose proof (lamports_exact _ _ _ Hok). lia.
  - rewrite (deconstruct_bytes _ _ _ Hok), (resize_exact _ _ _ Hok). lia.
  - apply Hok.
  - intros i k a Hi Hk. destruct (rt_changes _ _ _ He i) as [[E1 E2]|[H|[E _]]].
    + left. rewrite <-Hi, <-(deconstruct_new l) at 1. by rewrite !deconstruct_lookup, E1, E2.
    + by right.
    + unfold account_key in E. simpl in E. rewrite list_lookup_imap, Hi in E. simpl in E.
      congruence.
Qed.

End messages.

(** C32: The nesting of invocations is bounded by the capacity of the instruction
    stack: any fuel above it gives the result of [S stack_capacity], so no message
    ends for lack of fuel. *)
Theorem message_fuel_enough {SI : SvmInterface} (programs : Pubkey -> option program)
    (is_precompile : Pubkey -> bool)
    (precompile : Pubkey -> list Z -> list (list Z) -> outcome InstructionError unit)
    (l : keyed_accounts) (r : Rent) (stack_capacity trace_capacity : nat) (units : Z)
    (message : SVMMessage) (fuel : nat) :
  (forall id p, programs id = Some p -> program_local p) -> (stack_capacity < fuel)%nat ->
  run_message programs is_precompile precompile l r stack_capacity trace_capacity units
    message fuel =
  run_message programs is_precompile precompile l r stack_capacity trace_capacity units
    message (S stack_capacity).
Proof.
  intros Hp Hf. unfold run_message.
  by rewrite (process_message_fuel programs Hp is_precompile precompile fuel
    (S stack_capacity)) by (unfold shape, tx_shape; cbn; lia).
Qed.

(** C9: When a cross-program invocation is prepared, the callee has the accounts
    asked for, in order, each with the union of the flags asked for it; each is an
    account of the caller, writable only if it is writable for the caller, a signer
    only if it signed for the caller or its address was derived from the seeds.
    The accounts themselves are not changed. *)
Theorem cpi_no_escalation {SI : SvmInterface} (t t' : TransactionContext)
    (ix : InstructionContext) (instruction : Instruction) (signers : list Pubkey) :
  get_current_instruction_context t = Ok ix ->
  dedup_ok (instruction_accounts ix) (dedup_map ix) ->
  Z.of_nat (length (metas instruction)) <= u16_max ->
  prepare_next_cpi_instruction instruction signers t = (Ok tt, t') ->
  accounts t' = accounts t /\
  exists ias, tx_instruction_accounts t' = tx_instruction_accounts t ++ [ias] /\
    length ias = length (metas instruction) /\
    forall j ia, ias !! j = Some ia ->
      (exists meta, metas instruction !! j = Some meta /\
         find_index_of_account (pubkey meta) (accounts t) = Some (index_in_transaction ia)) /\
      ia_is_signer ia =
        wants (accounts t) meta_is_signer (index_in_transaction ia) (metas instruction) /\
      ia_is_writable ia =
        wants (accounts t) meta_is_writable (index_in_transaction ia) (metas instruction) /\
      exists caller_ia, caller_ia ∈ instruction_accounts ix /\
        index_in_transaction caller_ia = index_in_transaction ia /\
        (ia_is_writable ia = true -> ia_is_writable caller_ia = true) /\
        (ia_is_signer ia = true -> ia_is_signer caller_ia = true \/
           exists meta, meta ∈ metas instruction /\ pubkey meta ∈ signers /\
             find_index_of_account (pubkey meta) (accounts t) = Some (index_in_transaction ia)).
Proof.
  intros Hc Hd Hlen H. unfold prepare_next_cpi_instruction in H. rewrite Hc in H. simpl in H.
  destruct (prepare_callee ix instruction signers (accounts t)) as [[[prog ias] dm]|e|] eqn:Hp;
    [|done|done]. simpl in H.
  destruct (get_current_instruction_index t) as [c|e|]; [|done|done]. simpl in H.
  destruct (prepare_callee_ok _ _ _ Hd _ _ _ _ Hlen Hp) as ([G1 G2 G3] & _ & _).
  unfold configure_instruction_at_index in H. destruct (instruction_trace t !! _); [|done].
  injection H as <-. split; [done|]. exists ias. split_and!; [done|done|]. intros j ia Hj.
  destruct (lookup_lt_is_Some_2 (metas instruction) j) as [meta Hmeta].
  { rewrite <-G1. by eapply lookup_lt_Some. }
  destruct (G2 j meta Hmeta) as (ia' & Hj' & Hi & F1 & F2). simplify_eq.
  split_and!; [by exists meta|done|done|]. apply G3. by eapply list_elem_of_lookup_2.
Qed.

(** C13: Any sequence of operations on borrowed accounts keeps the two running
    totals exact and the growth of data within the limit; an account the program
    does not own keeps its owner, data and flags and loses no lamports; an account
    that is not writable in the instruction does not change. *)
Theorem account_ops_confined {SI : SvmInterface} (L T : Z) (ix : InstructionContext)
    (ops : list (nat * account_op)) (s : TransactionAccounts) :
  ta_ok L T s -> Forall (fun p => op_typed p.2) ops ->
  let s' := (run_ops ix ops s).2 in
  lamports_delta s' = total_lamports s' - T /\
  resize_delta s' = total_data s' - L /\
  resize_delta s' <= MAX_ACCOUNT_DATA_GROWTH_PER_TRANSACTION /\
  forall i a p, shared_account_fields s !! i = Some a -> private_account_fields s !! i = Some p ->
    exists a' p', shared_account_fields s' !! i = Some a' /\
      private_account_fields s' !! i = Some p' /\ key a' = key a /\
      is_u u64_max (lamports a') /\
      (account_key (ix_program ix) s = Some (owner a) \/
       owner a' = owner a /\ p' = p /\ lamports a <= lamports a') /\
      (writable_in (instruction_accounts ix) i \/ a' = a /\ p' = p).
Proof.
  intros Hok Hops. cbv zeta.
  destruct (run_ops_safe (accounts_len s) ix ops Hops L T s Hok eq_refl) as [Hok' He Hc].
  set (s' := (run_ops ix ops s).2) in *. destruct Hok' as [K1 K2 K3 K4 K5 K6 K7 K8 K9 K10].
  split_and!; [done..|]. intros i a p Ha Hp.
  assert (accounts_len s' = accounts_len s) as Hlen.
  { unfold accounts_len. by rewrite <-(length_fmap key), (keys_kept _ _ _ He), length_fmap. }
  destruct (lookup_lt_is_Some_2 (shared_account_fields s') i) as [a' Ha'].
  { unfold accounts_len in Hlen. rewrite Hlen. by eapply lookup_lt_Some. }
  destruct (lookup_lt_is_Some_2 (private_account_fields s') i) as [p' Hp'].
  { rewrite K1. by eapply lookup_lt_Some. }
  exists a', p'. split_and!; [done|done| | | |].
  - pose proof (f_equal (.!! i) (keys_kept _ _ _ He)) as E. simpl in E.
    rewrite !list_lookup_fmap, Ha, Ha' in E. by injection E.
  - by apply (K5 i a' p').
  - by apply (Hc i a a' p p').
  - destruct (changes _ _ _ He i) as [[E1 E2]|[Hw _]]; [right|by left].
    rewrite Ha, Ha' in E1. rewrite Hp, Hp' in E2. by simplify_eq.
Qed.


(** ** The system program *)

Section system.
Context {SI : SvmInterface} {SY : SysvarInterface} {NI : NonceInterface}.

(** C21: The result of a transfer on every branch.  If it succeeds, the payer signed
    and had the lamports, and the balances of payer and payee change by the amount
    and nothing else does. *)
Theorem transfer_correct (L T : Z) (ix : InstructionContext) (s : TransactionAccounts)
    (from to : nat) (f t : InstructionAccount) (l : Z) :
  ta_ok L T s ->
  instruction_accounts ix !! from = Some f -> instruction_accounts ix !! to = Some t ->
  borrow_counters s !! index_in_transaction f = Some 0 ->
  borrow_counters s !! index_in_transaction t = Some 0 -> is_u u64_max l ->
  let fi := index_in_transaction f in
  let ti := index_in_transaction t in
  let (o, s') := transfer ix from to l s in
  (o, s') = (if negb (ia_is_signer f) then (Err MissingRequiredSignature, s)
             else transfer_result ix f t l s) /\
  (o = Ok tt ->
    ia_is_signer f = true /\ l <= balance fi s /\
    forall j, owner_at j s' = owner_at j s /\ data_at j s' = data_at j s /\
      balance j s' = balance j s - (if decide (fi = j) then l else 0)
                                 + (if decide (ti = j) then l else 0)).
Proof.
  intros Hok Hf Ht Hcf Hct [Hl _]. cbv zeta.
  rewrite (transfer_run ix L T _ s Hok eq_refl from to f t l Hf Ht Hcf Hct Hl).
  destruct (if negb (ia_is_signer f) then _ else _) as [o s'] eqn:E. split; [done|]. intros ->.
  destruct (ia_is_signer f); [|done]. apply transfer_result_ok in E as [-> Hle].
  apply lookup_lt_Some in Hcf, Hct. rewrite (len_counters _ _ _ Hok) in Hcf, Hct.
  split_and!; [done|done|]. intros j. rewrite !pay_owner, !pay_data.
  rewrite !balance_pay by by rewrite ?pay_len. split_and!; [done|done|].
  repeat case_decide; lia.
Qed.

(** C22: The result of the creation of an account on every branch.  If it succeeds,
    the account had no lamports and no data and belonged to the system program; it
    now has the owner asked for, as many zero bytes as asked for and the lamports
    paid; no other account changes owner or data. *)
Theorem create_account_correct (L T : Z) (ix : InstructionContext) (s : TransactionAccounts)
    (from to : nat) (f t : InstructionAccount) (a : Address) (l space : Z) (k : Pubkey)
    (signers : gset Pubkey) :
  ta_ok L T s ->
  instruction_accounts ix !! from = Some f -> instruction_accounts ix !! to = Some t ->
  borrow_counters s !! index_in_transaction f = Some 0 ->
  borrow_counters s !! index_in_transaction t = Some 0 ->
  is_u u64_max l -> is_u u64_max space ->
  let fi := index_in_transaction f in
  let ti := index_in_transaction t in
  let (o, s') := create_account ix from to a l space k signers s in
  (o, s') = create_result ix s f t (address_is_signer a signers) l space k /\
  (o = Ok tt ->
    (balance ti s = 0 /\ data_at ti s = [] /\ owner_at ti s = system_program_id) /\
    (owner_at ti s' = k /\ data_at ti s' = replicate (Z.to_nat space) 0) /\
    (fi <> ti -> balance ti s' = l /\ balance fi s' = balance fi s - l) /\
    forall j, j <> ti -> owner_at j s' = owner_at j s /\ data_at j s' = data_at j s).
Proof.
  intros Hok Hf Ht Hcf Hct [Hl _] [Hsp _]. cbv zeta.
  rewrite (create_account_run ix L T _ s Hok eq_refl from to f t Hf Ht Hcf Hct a l space k
    signers Hl Hsp).
  destruct (create_result _ _ _ _ _ _ _ _) as [o s'] eqn:E. split; [done|]. intros ->.
  apply create_result_ok in E. destruct E as (-> & _ & _ & Hb & Hd & Ho & _).
  apply lookup_lt_Some in Hcf, Hct. rewrite (len_counters _ _ _ Hok) in Hcf, Hct.
  assert (0 <= balance (index_in_transaction t) s) as Hb0.
  { destruct (lookup_lt_is_Some_2 _ _ Hct) as [x Hx].
    destruct (ok_shared _ _ _ x Hok) as (? & ? & [[]] & _); [by eapply list_elem_of_lookup_2|].
    unfold balance. by rewrite (list_lookup_total_correct _ _ _ Hx). }
  split_and!; [lia|done|done|..].
  - rewrite !pay_owner, give_owner by by rewrite alloc_len. by rewrite decide_True.
  - rewrite !pay_data, give_data, alloc_data; [done|done|]. by rewrite (len_private _ _ _ Hok).
  - intros Hne. rewrite !balance_pay, !give_balance, !alloc_balance
      by by rewrite ?pay_len, ?give_len, ?alloc_len. repeat case_decide; simplify_eq; lia.
  - intros j Hj. rewrite !pay_owner, !pay_data, give_owner, give_data, alloc_other, alloc_owner
      by (rewrite ?alloc_len; done). by rewrite decide_False.
Qed.

(** C33: A nonce that is advanced was signed for by its authority and differed from
    the nonce of the block; the account then holds that nonce and its authority,
    and advancing it again under the same blockhash fails and changes nothing. *)
Theorem nonce_advances_once {NL : NonceLaws NI} (env : EnvironmentConfig)
    (b : BorrowedInstructionAccount) (signers : gset Pubkey) (s s' : TransactionAccounts) :
  (get_index_in_transaction b < length (private_account_fields s))%nat ->
  advance_nonce_account env b signers s = (Ok tt, s') ->
  exists data v, stored Versions b s ≫= versions_state = Some data /\
    authority data ∈ signers /\ durable_nonce data <> from_blockhash (blockhash env) /\
    stored Versions b s' = Some v /\
    versions_state v = Some (nonce_data_new (authority data) (from_blockhash (blockhash env))
      (blockhash_lamports_per_signature env)) /\
    shared_account_fields s' = shared_account_fields s /\
    forall signers', authority data ∈ signers' ->
      advance_nonce_account env b signers' s' =
      (Err (SystemErr NonceBlockhashNotExpired), s').
Proof.
  intros Hi (Hw & data & Hn & Ha & Hne & Hs)%advance_inv.
  apply set_state_stored in Hs as (Hv & Hsh & _ & _); [|done]. eexists data, _.
  split_and!; [done|done|done|exact Hv|apply versions_state_new|done|]. intros signers' Ha'.
  eapply advance_again; [by rewrite Hv; apply versions_state_new|by rewrite durable_nonce_new|done|].
  by rewrite authority_new.
Qed.

(** A withdrawal moves exactly the amount.  From an initialised account it is
    signed by the authority, and either empties the account, which is then reset
    and held a nonce older than the block, or leaves the minimum balance and the
    data; from an uninitialised one it is signed by the account. *)
Theorem withdraw_nonce_correct {NL : NonceLaws NI} (L T : Z) (env : EnvironmentConfig)
    (ix : InstructionContext) (from to : nat) (f t : InstructionAccount) (l : Z) (r : Rent)
    (signers : gset Pubkey) (s s' : TransactionAccounts) :
  ta_ok L T s ->
  instruction_accounts ix !! from = Some f -> instruction_accounts ix !! to = Some t ->
  borrow_counters s !! index_in_transaction f = Some 0 ->
  borrow_counters s !! index_in_transaction t = Some 0 ->
  index_in_transaction f <> index_in_transaction t -> is_u u64_max l ->
  withdraw_nonce_account env ix from l to r signers s = (Ok tt, s') ->
  let fi := index_in_transaction f in
  let ti := index_in_transaction t in
  let me := borrowed_at ix f in
  balance fi s' = balance fi s - l /\ balance ti s' = balance ti s + l /\
  exists v, stored Versions me s = Some v /\
  match versions_state v with
  | None => l <= balance fi s /\ get_key me s ∈ signers /\ data_at fi s' = data_at fi s
  | Some data =>
    authority data ∈ signers /\
    ((balance fi s' = 0 /\ durable_nonce data <> from_blockhash (blockhash env) /\
      stored Versions me s' = Some (versions_new None)) \/
     (minimum_balance r (Z.of_nat (length (data_at fi s))) <= balance fi s' /\
      data_at fi s' = data_at fi s))
  end.
Proof.
  intros Hok Hf Ht Hcf Hct Hne [Hl _] H. cbv zeta.
  destruct (withdraw_inv _ _ _ _ _ _ _ _ _ _ _ _ _ Hok Hf Ht Hcf Hct Hl H)
    as (s1 & Hc & Hn1 & ->).
  apply lookup_lt_Some in Hcf, Hct. rewrite (len_counters _ _ _ Hok) in Hcf, Hct.
  apply check_withdrawal_inv in Hc as (v & Hv & Hc).
  assert (shared_account_fields s1 = shared_account_fields s /\ (s1 = s \/
    set_state (borrowed_at ix f) (versions_new None) s = (Ok tt, s1))) as [Hsh Hs1].
  { destruct (versions_state v) as [data|]; [|destruct Hc as (-> & _); by split; [|left]].
    destruct Hc as (_ & [(_ & _ & Hs)|(-> & _)]); [|by split; [|left]].
    split; [|by right]. eapply set_state_stored; [|exact Hs]. by rewrite (len_private _ _ _ Hok). }
  assert (forall j, balance j s1 = balance j s) as Hbal by (intros j; unfold balance; by rewrite Hsh).
  rewrite !balance_pay, !pay_data by by rewrite ?pay_len, ?Hn1. rewrite !Hbal.
  split_and!; [repeat case_decide; simplify_eq; lia..|]. exists v. split; [done|].
  unfold get_lamports, get_data in Hc. change (get_index_in_transaction (borrowed_at ix f)) with (index_in_transaction f) in Hc.
  fold (balance (index_in_transaction f) s) (data_at (index_in_transaction f) s) in Hc.
  destruct (versions_state v) as [data|]; [|by destruct Hc as (-> & ? & ?)].
  destruct Hc as (Ha & [(-> & Hd & Hs)|(-> & _ & Hmin)]); split; try done.
  - left. split_and!; [repeat case_decide; simplify_eq; lia|done|].
    unfold stored, get_data. change (get_index_in_transaction (borrowed_at ix f)) with (index_in_transaction f).
    fold (data_at (index_in_transaction f) (pay (index_in_transaction t)
      (balance (index_in_transaction f) s) (pay (index_in_transaction f)
        (- balance (index_in_transaction f) s) s1))).
    rewrite !pay_data. apply (set_state_stored (borrowed_at ix f)) in Hs as (Hv' & _); [exact Hv'|].
    by rewrite (len_private _ _ _ Hok).
  - right. split; [|done]. repeat case_decide; simplify_eq; lia.
Qed.
End system.

(** ** A run of the model *)

Lemma model_loadable : loadable Model.keyed.
Proof.
  split.
  - unfold MAX_ACCOUNTS_PER_TRANSACTION. cbn. lia.
  - apply Forall_forall. repeat constructor; done.
  - apply Forall_forall. repeat constructor; done.
Qed.
Lemma model_message_ok : message_ok Model.message.
Proof.
  assert (Forall (fun p => Z.of_nat (length (account_indices p.2)) <= u16_max)
    (program_instructions Model.message)) as H by (repeat constructor; done).
  exact (proj1 (Forall_forall _ _) H).
Qed.

Definition model_run (fuel : nat) :=
  run_message Model.programs (fun _ => false) Model.no_precompile Model.keyed
    (10 : @Rent Model.svm) 4 64 1000 Model.message fuel.

Lemma message_safe_witness :
  (model_run 5).1 = Ok tt /\
  keyed_lamports (rec_accounts (model_run 5).2) = keyed_lamports Model.keyed /\
  rec_accounts (model_run 5).2 !! 3%nat = Some (1, mk_asd 1 [] 3 true 0).
Proof.
  split; [by vm_compute|]. unfold model_run.
  destruct (message_safe (SL := Model.svm_laws) Model.programs (fun _ => false)
    Model.no_precompile Model.keyed (10 : @Rent Model.svm) 4 64 1000 Model.message 5
    Model.programs_kept model_loadable model_message_ok) as (_ & H1 & _ & _ & H2).
  split; [apply H1; by vm_compute|].
  destruct (H2 3%nat 1 (mk_asd 1 [] 3 true 0) eq_refl) as [E|[E _]]; [done|exact E|done].
Defined.

Lemma message_fuel_enough_witness : (model_run 1000).1 = Ok tt.
Proof.
  transitivity (model_run 5).1; [|by vm_compute]. apply (f_equal fst). unfold model_run.
  apply (message_fuel_enough Model.programs); [exact Model.programs_are_local|lia].
Defined.

Lemma model_accs_ok :
  ta_ok (keyed_bytes Model.loaded_accounts) (keyed_lamports Model.loaded_accounts) Model.accs.
Proof.
  apply accounts_new_ok. split.
  - unfold MAX_ACCOUNTS_PER_TRANSACTION. cbn. lia.
  - apply Forall_forall. repeat constructor; done.
  - apply Forall_forall. repeat constructor; done.
Qed.

Lemma cpi_no_escalation_witness : exists t' ias,
  prepare_next_cpi_instruction Model.call [] Model.calling = (Ok tt, t') /\
  tx_instruction_accounts t' = tx_instruction_accounts Model.calling ++ [ias] /\
  length ias = 2%nat.
Proof.
  destruct (get_current_instruction_context Model.calling) as [ix|e|] eqn:Hc; [|by vm_compute in Hc..].
  destruct (prepare_next_cpi_instruction Model.call [] Model.calling) as [o t'] eqn:E.
  assert (o = Ok tt) as -> by (apply (f_equal fst) in E; vm_compute in E; by rewrite <-E).
  destruct (cpi_no_escalation Model.calling t' ix Model.call []) as (_ & ias & H1 & H2 & _).
  - exact Hc.
  - vm_compute in Hc. injection Hc as <-. intros i k Hi Hk.
    do 6 (destruct i as [|i]; [injection Hi as <-; split; [done|];
      (eexists; split; [reflexivity|done]) || (vm_compute in Hk; done)|]). done.
  - done.
  - exact E.
  - by exists t', ias.
Defined.

Lemma transfer_correct_witness :
  let (o, s') := transfer Model.ix 0 1 30 Model.accs in
  o = Ok tt /\ balance 0 s' = 970 /\ balance 1 s' = 80.
Proof.
  pose proof (transfer_correct _ _ Model.ix Model.accs 0 1 (ia_new 0 true true)
    (ia_new 1 false true) 30 model_accs_ok eq_refl eq_refl eq_refl eq_refl
    ltac:(done)) as H.
  assert ((transfer Model.ix 0 1 30 Model.accs).1 = Ok tt) as Ho by (by vm_compute).
  destruct (transfer Model.ix 0 1 30 Model.accs) as [o s']. cbn [fst] in Ho.
  destruct H as [_ H]. destruct (H Ho) as (_ & _ & Hb). split; [done|].
  by rewrite (proj2 (proj2 (Hb 0%nat))), (proj2 (proj2 (Hb 1%nat))).
Defined.

Lemma create_account_correct_witness :
  let (o, s') := create_account Model.ix 0 2 (mk_address 102 None) 500 3 77 Model.signers
    Model.accs in
  o = Ok tt /\ owner_at 2 s' = 77 /\ data_at 2 s' = [0; 0; 0].
Proof.
  pose proof (create_account_correct _ _ Model.ix Model.accs 0 2 (ia_new 0 true true)
    (ia_new 2 true true) (mk_address 102 None) 500 3 77 Model.signers model_accs_ok eq_refl
    eq_refl eq_refl eq_refl ltac:(done) ltac:(done)) as H.
  assert ((create_account Model.ix 0 2 (mk_address 102 None) 500 3 77 Model.signers
    Model.accs).1 = Ok tt) as Ho by (by vm_compute).
  destruct (create_account _ _ _ _ _ _ _ _ _) as [o s']. cbn [fst] in Ho.
  destruct H as [_ H]. by destruct (H Ho) as (_ & [H1 H2] & _).
Defined.

Lemma account_ops_confined_witness :
  let s' := (run_ops Model.ix [(1%nat, OpSubLamports 20); (0%nat, OpAddLamports 20);
    (3%nat, OpSetDataLength 8)] Model.accs).2 in
  lamports_delta s' = 0 /\ resize_delta s' = 4.
Proof.
  cbv zeta.
  destruct (account_ops_confined _ _ Model.ix [(1%nat, OpSubLamports 20);
    (0%nat, OpAddLamports 20); (3%nat, OpSetDataLength 8)] Model.accs model_accs_ok) as (H1 & H2 & _).
  { repeat constructor; done. }
  rewrite H1, H2. by vm_compute.
Defined.


Lemma nonce_advances_once_witness :
  let b := borrowed_at Model.ix (ia_new 3 false true) in
  let r := advance_nonce_account (NI := Model.nonces) Model.env b Model.signers Model.accs in
  r.1 = Ok tt /\
  (advance_nonce_account (NI := Model.nonces) Model.env b Model.signers r.2).1 =
    Err (SystemErr NonceBlockhashNotExpired).
Proof.
  cbv zeta. set (b := borrowed_at _ _).
  destruct (advance_nonce_account (NI := Model.nonces) Model.env b Model.signers Model.accs) as [o s'] eqn:E.
  assert (o = Ok tt) as -> by (apply (f_equal fst) in E; vm_compute in E; by rewrite <-E).
  split; [done|].
  destruct (nonce_advances_once (NL := Model.nonce_laws) Model.env b Model.signers Model.accs s')
    as (data & v & _ & Ha & _ & _ & _ & _ & H); [cbn; lia|exact E|].
  cbn [snd]. by rewrite (H Model.signers Ha).
Defined.

Lemma withdraw_nonce_correct_witness :
  let r := withdraw_nonce_account (NI := Model.nonces) Model.env Model.ix 3 1000 1 10 Model.signers Model.accs in
  r.1 = Ok tt /\ balance 3 r.2 = 2000 /\ balance 1 r.2 = 1050.
Proof.
  cbv zeta.
  destruct (withdraw_nonce_account (NI := Model.nonces) Model.env Model.ix 3 1000 1 10 Model.signers Model.accs)
    as [o s'] eqn:E.
  assert (o = Ok tt) as -> by (apply (f_equal fst) in E; vm_compute in E; by rewrite <-E).
  destruct (withdraw_nonce_correct (NL := Model.nonce_laws) _ _ Model.env Model.ix 3 1
    (ia_new 3 false true) (ia_new 1 false true) 1000 10 Model.signers Model.accs s'
    model_accs_ok eq_refl eq_refl eq_refl eq_refl ltac:(done) ltac:(done) E) as (H1 & H2 & _).
  split; [done|]. cbn [snd]. split; [exact H1|exact H2].
Defined.
