(* ===== verification/VoteAccount.v ===== *)
(** * Vote accounts

    Models the part of [programs/vote/src/vote_state/mod.rs] and
    [programs/vote/src/vote_state/handler.rs] that reads and writes vote accounts:
    loading and converting a stored vote state, storing it, and every operation of
    the vote program on an account.  The processing of the votes themselves is in
    [VoteState].

    An operation that needs only the accounts is a computation on them ([TA]); one
    that also charges compute units or invokes another program is a computation on
    the invocation context ([IC]).  The stored versions, the constructors of a new
    state and the BLS check belong to other crates ([VoteAccountInterface]). *)

From S2P Require Import Prelude VoteInterface VoteState SvmInterface TransactionAccounts.
From S2P Require Import InstructionAccounts TransactionContext SysvarCache InvokeContext.
From S2P Require Import SystemProgram.
From stdpp Require Import strings.
Local Open Scope Z_scope.

(** ** External types *)

Section versions.
Context {VI : VoteInterface}.

(** The older formats, with the fields that the conversion reads. *)
Record VoteState1_14_11 := mk_v1_14_11 {
  v1_node_pubkey : Pubkey;
  v1_authorized_withdrawer : Pubkey;
  v1_commission : Z;
  v1_votes : list Lockout;
  v1_root_slot : option Slot;
  v1_authorized_voters : AuthorizedVoters;
  v1_epoch_credits : list (Epoch * Z * Z);
  v1_last_timestamp : BlockTimestamp;
}.

Record VoteStateV3 := mk_v3 {
  v3_node_pubkey : Pubkey;
  v3_authorized_withdrawer : Pubkey;
  v3_commission : Z;
  v3_votes : list (LandedVote Lockout);
  v3_root_slot : option Slot;
  v3_authorized_voters : AuthorizedVoters;
  v3_epoch_credits : list (Epoch * Z * Z);
  v3_last_timestamp : BlockTimestamp;
}.

Inductive VoteStateVersions :=
| Uninitialized
| V1_14_11 (state : VoteState1_14_11)
| V3 (state : VoteStateV3)
| V4 (state : VoteStateV4).
End versions.

(** The new BLS key and the proof that its owner holds the secret key. *)
Record VoterWithBLSArgs := mk_bls_args { bls_pubkey : Z; bls_proof_of_possession : Z }.

Inductive VoteAuthorize :=
| Voter
| Withdrawer
| VoterWithBLS (args : VoterWithBLSArgs).

Inductive CommissionKind := InflationRewards | BlockRevenue.

Class VoteAccountInterface {VI : VoteInterface} := {
  (** [VoteStateVersions::deserialize], and [bincode] for the same type. *)
  vote_state_deserialize : list Z -> VoteStateVersions + InstructionError;
  vote_state_bincode :: Bincode VoteStateVersions;
  vote_state_is_uninitialized : VoteStateVersions -> bool;
  (** [VoteStateV4::size_of()]. *)
  V4_size_of : nat;
  VoteInit : Type;
  init_node_pubkey : VoteInit -> Pubkey;
  VoteInitV2 : Type;
  init2_node_pubkey : VoteInitV2 -> Pubkey;
  authorized_voter_bls_pubkey : VoteInitV2 -> Z;
  authorized_voter_bls_proof_of_possession : VoteInitV2 -> Z;
  (** [VoteStateV4::new_with_defaults] and [VoteStateV4::new]. *)
  V4_new_with_defaults : Pubkey -> VoteInit -> Clock -> VoteStateV4;
  V4_new : VoteInitV2 -> Pubkey -> Pubkey -> Clock -> VoteStateV4;
  (** The bytes of a key, and the verification of a proof of possession. *)
  pubkey_bytes : Pubkey -> list Z;
  bls_verify : Z -> Z -> list Z -> bool;
  (** [system_instruction::transfer]. *)
  system_transfer : Pubkey -> Pubkey -> Z -> Instruction;
}.

(** ** Fields of the handler *)

Section handler.
Context {VI : VoteInterface}.
Implicit Types h : VoteStateHandler.

Definition authorized_withdrawer h : Pubkey := authorized_withdrawer_ (v4_of h).
Definition node_pubkey h : Pubkey := node_pubkey_ (v4_of h).
Definition pending_delegator_rewards h : Z := pending_delegator_rewards_ (v4_of h).
Definition has_bls_pubkey h : bool :=
  match bls_pubkey_compressed_ (v4_of h) with Some _ => true | None => false end.

Definition set_authorized_withdrawer (x : Pubkey) h : VoteStateHandler :=
  match target_state h with
  | TV4 (mk_v4 a _ c d e f g i j k l m n) => new_v4 (mk_v4 a x c d e f g i j k l m n)
  end.
Definition set_node_pubkey (x : Pubkey) h : VoteStateHandler :=
  match target_state h with
  | TV4 (mk_v4 _ b c d e f g i j k l m n) => new_v4 (mk_v4 x b c d e f g i j k l m n)
  end.
Definition set_inflation_rewards_collector (x : Pubkey) h : VoteStateHandler :=
  match target_state h with
  | TV4 (mk_v4 a b _ d e f g i j k l m n) => new_v4 (mk_v4 a b x d e f g i j k l m n)
  end.
Definition set_block_revenue_collector (x : Pubkey) h : VoteStateHandler :=
  match target_state h with
  | TV4 (mk_v4 a b c _ e f g i j k l m n) => new_v4 (mk_v4 a b c x e f g i j k l m n)
  end.
Definition set_inflation_rewards_commission_bps (x : Z) h : VoteStateHandler :=
  match target_state h with
  | TV4 (mk_v4 a b c d _ f g i j k l m n) => new_v4 (mk_v4 a b c d x f g i j k l m n)
  end.
Definition set_block_revenue_commission_bps (x : Z) h : VoteStateHandler :=
  match target_state h with
  | TV4 (mk_v4 a b c d e _ g i j k l m n) => new_v4 (mk_v4 a b c d e x g i j k l m n)
  end.
(** The assignments of the handler to the fields without a setter. *)
Definition set_pending (x : Z) h : VoteStateHandler :=
  match target_state h with
  | TV4 (mk_v4 a b c d e f _ i j k l m n) => new_v4 (mk_v4 a b c d e f x i j k l m n)
  end.
Definition set_bls_pubkey (x : option Z) h : VoteStateHandler :=
  match target_state h with
  | TV4 (mk_v4 a b c d e f g _ j k l m n) => new_v4 (mk_v4 a b c d e f g x j k l m n)
  end.
Definition set_authorized_voters (x : AuthorizedVoters) h : VoteStateHandler :=
  match target_state h with
  | TV4 (mk_v4 a b c d e f g i j k _ m n) => new_v4 (mk_v4 a b c d e f g i j k x m n)
  end.

(** The commission in percent, of the one in basis points. *)
Definition commission h : Z := Z.min (inflation_rewards_commission_bps_ (v4_of h) / 100) u8_max.
(** [u8 * 100] fits the [u16]. *)
Definition set_commission (x : Z) h : VoteStateHandler :=
  set_inflation_rewards_commission_bps ((x * 100) mod (u16_max + 1)) h.

Definition add_pending_delegator_rewards (amount : Z) h :
    outcome InstructionError VoteStateHandler :=
  x ← ok_or ArithmeticOverflow (checked_add u64_max (pending_delegator_rewards h) amount);
  mret (set_pending x h).

Definition get_and_update_authorized_voter (current_epoch : Epoch) h :
    outcome InstructionError (Pubkey * VoteStateHandler) :=
  let (pubkey, voters) := av_get_and_cache current_epoch (authorized_voters_ (v4_of h)) in
  pubkey ← ok_or InvalidAccountData pubkey;
  mret (pubkey, set_authorized_voters (av_purge (saturating_sub current_epoch 1) voters) h).

Definition set_new_authorized_voter (authorized_pubkey : Pubkey)
    (current_epoch target_epoch : Epoch) (bls_pubkey : option Z)
    (verify : Pubkey -> outcome InstructionError unit) h :
    outcome InstructionError VoteStateHandler :=
  '(epoch_authorized_voter, h) ← get_and_update_authorized_voter current_epoch h;
  _ ← verify epoch_authorized_voter;
  let voters := authorized_voters_ (v4_of h) in
  if av_contains voters target_epoch then Err (VoteErr TooSoonToReauthorize)
  else
    let h := set_authorized_voters (av_insert target_epoch authorized_pubkey voters) h in
    mret (match bls_pubkey with Some _ => set_bls_pubkey bls_pubkey h | None => h end).

Definition landed_votes_from_lockouts (lockouts : list Lockout) : list (LandedVote Lockout) :=
  landed_from <$> lockouts.

Definition try_convert_to_vote_state_v4 (versioned : VoteStateVersions) (vote_pubkey : Pubkey) :
    outcome InstructionError VoteStateV4 :=
  match versioned with
  | Uninitialized => Err UninitializedAccount
  | V1_14_11 state =>
    Ok (mk_v4 (v1_node_pubkey state) (v1_authorized_withdrawer state) vote_pubkey
      (v1_node_pubkey state) (saturating_mul u16_max (v1_commission state) 100) 10000 0 None
      (landed_votes_from_lockouts (v1_votes state)) (v1_root_slot state)
      (v1_authorized_voters state) (v1_epoch_credits state) (v1_last_timestamp state))
  | V3 state =>
    Ok (mk_v4 (v3_node_pubkey state) (v3_authorized_withdrawer state) vote_pubkey
      (v3_node_pubkey state) (saturating_mul u16_max (v3_commission state) 100) 10000 0 None
      (v3_votes state) (v3_root_slot state)
      (v3_authorized_voters state) (v3_epoch_credits state) (v3_last_timestamp state))
  | V4 state => Ok state
  end.

(** [try_new_from_vote_state_versions] takes the current version only. *)
Definition try_new_from_vote_state_versions (versions : VoteStateVersions) :
    outcome InstructionError VoteStateHandler :=
  match versions with
  | V4 state => Ok (new_v4 state)
  | V3 _ | V1_14_11 _ | Uninitialized => Err InvalidAccountData
  end.
End handler.

(** ** Operations on an account *)

Section account.
Context {SI : SvmInterface} {SY : SysvarInterface} {VI : VoteInterface}.
Context {VA : VoteAccountInterface}.

Abbreviation IC := (stm (InvokeContext SI) InstructionError).
Implicit Types (b : BorrowedInstructionAccount) (ix : InstructionContext).
Implicit Types (h : VoteStateHandler) (signers : gset Pubkey) (clock : Clock).

Definition get_vote_state_handler_checked b : TA VoteStateHandler := fun s =>
  (match vote_state_deserialize (get_data b s) with
   | inr e => Err e
   | inl versioned =>
     if vote_state_is_uninitialized versioned then Err UninitializedAccount
     else
       vote_state ← try_convert_to_vote_state_v4 versioned (get_key b s);
       mret (new_v4 vote_state)
   end, s).

(** Makes room for the state, when the balance is rent exempt at that size. *)
Definition make_room b : TA bool :=
  data ← st_gets (get_data b);
  if (length data <? V4_size_of)%nat then
    exempt ← st_gets (is_rent_exempt_at_data_length b (Z.of_nat V4_size_of));
    if negb exempt then mret false
    else result ← st_try (set_data_length b V4_size_of); mret (is_ok result)
  else mret true.

Definition set_vote_account_state h b : TA unit :=
  room ← make_room b;
  fail_if (negb room) AccountNotRentExempt ;;
  set_state b (V4 (v4_of h)).

Definition init_vote_account_state b (vote_init : VoteInit) clock : TA unit :=
  k ← st_gets (get_key b);
  set_vote_account_state (new_v4 (V4_new_with_defaults k vote_init clock)) b.

Definition init_vote_account_state_v2 b (vote_init : VoteInitV2)
    (inflation_rewards_collector block_revenue_collector : Pubkey) clock : TA unit :=
  set_vote_account_state (new_v4 (V4_new vote_init inflation_rewards_collector
    block_revenue_collector clock)) b.

Definition deinitialize_vote_account_state b : TA unit :=
  get_data_mut b ;;
  data ← st_gets (get_data b);
  st_modify (view_write_data (get_index_in_transaction b) (replicate (length data) 0)).

Definition check_vote_account_length b : TA unit :=
  data ← st_gets (get_data b);
  fail_if (negb (length data =? V4_size_of)%nat) InvalidAccountData.

Definition verify_authorized_signer (authorized : Pubkey) signers :
    outcome InstructionError unit :=
  if bool_decide (authorized ∈ signers) then Ok tt else Err MissingRequiredSignature.

(** ** Authorities *)

Definition POP_LABEL : list Z := [65; 76; 80; 69; 78; 71; 76; 79; 87].
Definition generate_pop_message (vote_account_pubkey : Pubkey) : list Z :=
  POP_LABEL ++ pubkey_bytes vote_account_pubkey.

Definition verify_bls_proof_of_possession (vote_account_pubkey : Pubkey)
    (bls_pubkey bls_proof_of_possession : Z) (consume_pop_compute_units : IC unit) : IC unit :=
  consume_pop_compute_units ;;
  fail_if (negb (bls_verify bls_proof_of_possession bls_pubkey
    (generate_pop_message vote_account_pubkey))) InvalidArgument.

(** The check a new voter passes: the withdrawer or the voter of the epoch signed. *)
Definition voter_or_withdrawer (authorized_withdrawer_signer : bool) signers
    (epoch_authorized_voter : Pubkey) : outcome InstructionError unit :=
  if authorized_withdrawer_signer then Ok tt
  else verify_authorized_signer epoch_authorized_voter signers.

Definition target_epoch clock : outcome InstructionError Epoch :=
  ok_or InvalidAccountData (checked_add u64_max (leader_schedule_epoch clock) 1).

Definition authorize b (authorized : Pubkey) (vote_authorize : VoteAuthorize) signers clock
    (is_vote_authorize_with_bls_enabled : bool) (consume_pop_compute_units : IC unit) : IC unit :=
  vote_state ← on_ta (get_vote_state_handler_checked b);
  let authorized_withdrawer_signer :=
    is_ok (verify_authorized_signer (authorized_withdrawer vote_state) signers) in
  vote_state ←
    match vote_authorize with
    | Voter =>
      fail_if (is_vote_authorize_with_bls_enabled && has_bls_pubkey vote_state)
        InvalidInstructionData ;;
      epoch ← st_lift (target_epoch clock);
      st_lift (set_new_authorized_voter authorized (clock_epoch clock) epoch None
        (voter_or_withdrawer authorized_withdrawer_signer signers) vote_state)
    | Withdrawer =>
      st_lift (verify_authorized_signer (authorized_withdrawer vote_state) signers) ;;
      mret (set_authorized_withdrawer authorized vote_state)
    | VoterWithBLS args =>
      fail_if (negb is_vote_authorize_with_bls_enabled) InvalidInstructionData ;;
      k ← on_ta (st_gets (get_key b));
      verify_bls_proof_of_possession k (bls_pubkey args) (bls_proof_of_possession args)
        consume_pop_compute_units ;;
      epoch ← st_lift (target_epoch clock);
      st_lift (set_new_authorized_voter authorized (clock_epoch clock) epoch
        (Some (bls_pubkey args))
        (voter_or_withdrawer authorized_withdrawer_signer signers) vote_state)
    end;
  on_ta (set_vote_account_state vote_state b).

Definition update_validator_identity b (node_pubkey : Pubkey) signers
    (custom_commission_collector_enabled : bool) : TA unit :=
  vote_state ← get_vote_state_handler_checked b;
  st_lift (verify_authorized_signer (authorized_withdrawer vote_state) signers) ;;
  st_lift (verify_authorized_signer node_pubkey signers) ;;
  let vote_state := set_node_pubkey node_pubkey vote_state in
  let vote_state :=
    if negb custom_commission_collector_enabled
    then set_block_revenue_collector node_pubkey vote_state else vote_state in
  set_vote_account_state vote_state b.

(** ** Commissions *)

Definition is_commission_update_allowed (slot : Slot) (epoch_schedule : EpochSchedule) : bool :=
  let since := saturating_sub slot (first_normal_slot epoch_schedule) in
  if slots_per_epoch epoch_schedule =? 0 then true
  else
    let relative_slot := since mod slots_per_epoch epoch_schedule in
    saturating_mul u64_max relative_slot 2 <=? slots_per_epoch epoch_schedule.

Definition update_commission b (new_commission : Z) signers (epoch_schedule : EpochSchedule)
    clock (disable_commission_update_rule : bool) : TA unit :=
  vote_state_result ← st_try (get_vote_state_handler_checked b);
  let enforce_commission_update_rule :=
    negb disable_commission_update_rule &&
    match vote_state_result with
    | Ok decoded_vote_state => commission decoded_vote_state <? new_commission
    | _ => true
    end in
  fail_if (enforce_commission_update_rule &&
    negb (is_commission_update_allowed (clock_slot clock) epoch_schedule))
    (VoteErr CommissionUpdateTooLate) ;;
  vote_state ← st_lift vote_state_result;
  st_lift (verify_authorized_signer (authorized_withdrawer vote_state) signers) ;;
  set_vote_account_state (set_commission new_commission vote_state) b.

Definition update_commission_bps b (commission_bps : Z) (kind : CommissionKind) signers
    (block_revenue_sharing_enabled : bool) : TA unit :=
  fail_if (match kind with BlockRevenue => negb block_revenue_sharing_enabled | _ => false end)
    InvalidInstructionData ;;
  vote_state ← get_vote_state_handler_checked b;
  st_lift (verify_authorized_signer (authorized_withdrawer vote_state) signers) ;;
  let vote_state :=
    match kind with
    | InflationRewards => set_inflation_rewards_commission_bps commission_bps vote_state
    | BlockRevenue => set_block_revenue_commission_bps commission_bps vote_state
    end in
  set_vote_account_state vote_state b.

Inductive NewCommissionCollector :=
| VoteAccount
| NewAccount (collector_account : BorrowedInstructionAccount).

Definition validate_and_resolve_key (c : NewCommissionCollector) b (rent : Rent) : TA Pubkey :=
  match c with
  | VoteAccount => st_gets (get_key b)
  | NewAccount collector_account =>
    o ← st_gets (get_owner collector_account);
    fail_if (negb (o =? system_program_id)) InvalidAccountOwner ;;
    l ← st_gets (get_lamports collector_account);
    d ← st_gets (get_data collector_account);
    fail_if (negb (is_exempt rent l (Z.of_nat (length d)))) InsufficientFunds ;;
    fail_if (negb (is_writable collector_account)) InvalidArgument ;;
    st_gets (get_key collector_account)
  end.

Definition update_commission_collector b (new_collector : NewCommissionCollector)
    (kind : CommissionKind) signers (rent : Rent) : TA unit :=
  vote_state ← get_vote_state_handler_checked b;
  st_lift (verify_authorized_signer (authorized_withdrawer vote_state) signers) ;;
  new_collector_key ← validate_and_resolve_key new_collector b rent;
  let vote_state :=
    match kind with
    | InflationRewards => set_inflation_rewards_collector new_collector_key vote_state
    | BlockRevenue => set_block_revenue_collector new_collector_key vote_state
    end in
  set_vote_account_state vote_state b.

(** ** Lamports *)

(** The state of an account that holds the current version, and no other. *)
Definition load_v4 b : TA VoteStateHandler := fun s =>
  (match vote_state_deserialize (get_data b s) with
   | inr e => Err e
   | inl (V4 state) => Ok (new_v4 state)
   | inl _ => Err InvalidAccountData
   end, s).

Definition current_instruction : IC InstructionContext := fun ic =>
  (get_current_instruction_context (transaction_context ic), ic).

Definition deposit_delegator_rewards
    (invoke : Instruction -> list (list (list Z)) -> IC unit)
    (vote_account_index sender_account_index : IndexOfAccount) (deposit : Z) signers : IC unit :=
  ix ← current_instruction;
  vote_address ← on_ta (key_of ix vote_account_index);
  source_address ← on_ta (key_of ix sender_account_index);
  st_lift (verify_authorized_signer source_address signers) ;;
  vote_state ← on_ta (with_account ix vote_account_index load_v4);
  invoke (system_transfer source_address vote_address deposit) [] ;;
  ix ← current_instruction;
  on_ta (with_account ix vote_account_index (fun vote_account =>
    vote_state ← st_lift (add_pending_delegator_rewards deposit vote_state);
    set_vote_account_state vote_state vote_account)).

(** Credits in this epoch or in the one before it. *)
Definition reject_active_vote_account_close h clock : bool :=
  match last (epoch_credits h) with
  | Some (last_epoch_with_credits, _, _) =>
    saturating_sub (clock_epoch clock) last_epoch_with_credits <? 2
  | None => false
  end.

(** The checks of a withdrawal, and the reset of an account that is emptied. *)
Definition check_withdrawal b (lamports : Z) signers (rent_sysvar : Rent) clock : TA unit :=
  vote_state ← get_vote_state_handler_checked b;
  st_lift (verify_authorized_signer (authorized_withdrawer vote_state) signers) ;;
  balance ← st_gets (get_lamports b);
  remaining_balance ← st_lift (ok_or InsufficientFunds (checked_sub balance lamports));
  if remaining_balance =? 0 then
    fail_if (0 <? pending_delegator_rewards vote_state) InsufficientFunds ;;
    fail_if (reject_active_vote_account_close vote_state clock)
      (VoteErr ActiveVoteAccountClose) ;;
    deinitialize_vote_account_state b
  else
    data ← st_gets (get_data b);
    min_balance ← st_lift (ok_or ArithmeticOverflow (checked_add u64_max
      (minimum_balance rent_sysvar (Z.of_nat (length data)))
      (pending_delegator_rewards vote_state)));
    fail_if (remaining_balance <? min_balance) InsufficientFunds.

Definition withdraw ix (vote_account_index : IndexOfAccount) (lamports : Z)
    (to_account_index : IndexOfAccount) signers (rent_sysvar : Rent) clock : TA unit :=
  with_account ix vote_account_index (fun vote_account =>
    check_withdrawal vote_account lamports signers rent_sysvar clock ;;
    checked_sub_lamports vote_account lamports) ;;
  with_account ix to_account_index (fun to_account => checked_add_lamports to_account lamports).

(** ** Initialization *)

(** The account has the right size and holds no vote state yet. *)
Definition check_uninitialized b : TA unit :=
  check_vote_account_length b ;;
  versioned ← get_state (T := VoteStateVersions) b;
  fail_if (negb (vote_state_is_uninitialized versioned)) AccountAlreadyInitialized.

Definition initialize_account_v2 b (vote_init : VoteInitV2)
    (inflation_rewards_collector block_revenue_collector : NewCommissionCollector) signers clock
    (rent : Rent) (consume_pop_compute_units : IC unit) : IC unit :=
  on_ta (check_uninitialized b) ;;
  st_lift (verify_authorized_signer (init2_node_pubkey vote_init) signers) ;;
  inflation_rewards_collector_key ←
    on_ta (validate_and_resolve_key inflation_rewards_collector b rent);
  block_revenue_collector_key ←
    on_ta (validate_and_resolve_key block_revenue_collector b rent);
  k ← on_ta (st_gets (get_key b));
  verify_bls_proof_of_possession k (authorized_voter_bls_pubkey vote_init)
    (authorized_voter_bls_proof_of_possession vote_init) consume_pop_compute_units ;;
  on_ta (init_vote_account_state_v2 b vote_init inflation_rewards_collector_key
    block_revenue_collector_key clock).

Definition initialize_account b (vote_init : VoteInit) signers clock : TA unit :=
  check_uninitialized b ;;
  st_lift (verify_authorized_signer (init_node_pubkey vote_init) signers) ;;
  init_vote_account_state b vote_init clock.

(** ** Votes *)

(** Runs an operation that mutates the handler; the handler is lost on an error. *)
Definition run_handler (m : stm VoteStateHandler VoteError unit) h :
    outcome InstructionError VoteStateHandler :=
  match m h with
  | (Ok _, h) => Ok h
  | (Err e, _) => Err (VoteErr e)
  | (Panic, _) => Panic
  end.

Definition max_voted_slot (slots : list Slot) : option Slot :=
  match slots with [] => None | s :: slots => Some (foldl Z.max s slots) end.

(** Loads the state, and checks that the voter of the epoch signed. *)
Definition load_for_vote b clock signers : TA VoteStateHandler :=
  vote_state ← get_vote_state_handler_checked b;
  '(authorized_voter, vote_state) ←
    st_lift (get_and_update_authorized_voter (clock_epoch clock) vote_state);
  st_lift (verify_authorized_signer authorized_voter signers) ;;
  mret vote_state.

Definition process_vote_with_account b (slot_hashes : list (Slot * Hash)) clock (vote : Vote)
    signers : TA unit :=
  vote_state ← load_for_vote b clock signers;
  vote_state ← st_lift (map_err VoteErr
    (process_vote vote slot_hashes (clock_epoch clock) (clock_slot clock) vote_state));
  vote_state ← st_lift
    (match vote_timestamp vote with
     | Some timestamp =>
       slot ← ok_or (VoteErr EmptySlots) (max_voted_slot (vote_slots vote));
       run_handler (process_timestamp slot timestamp) vote_state
     | None => Ok vote_state
     end);
  set_vote_account_state vote_state b.

Definition process_vote_state_update b (slot_hashes : list (Slot * Hash)) clock
    (vote_state_update : TowerSync) signers : TA unit :=
  vote_state ← load_for_vote b clock signers;
  vote_state ← st_lift (run_handler (do_process_vote_state_update slot_hashes
    (clock_epoch clock) (clock_slot clock) vote_state_update) vote_state);
  set_vote_account_state vote_state b.

Definition process_tower_sync b (slot_hashes : list (Slot * Hash)) clock
    (tower_sync : TowerSync) signers : TA unit :=
  vote_state ← load_for_vote b clock signers;
  vote_state ← st_lift (run_handler (do_process_tower_sync slot_hashes
    (clock_epoch clock) (clock_slot clock) tower_sync) vote_state);
  set_vote_account_state vote_state b.
End account.
