(* ===== verification/VoteProgram.v ===== *)
(** * The vote program

    Models [programs/vote/src/vote_processor.rs]: the dispatch of an instruction
    to the operations of [VoteAccount].  The vote account is borrowed for the
    whole instruction, except that a withdrawal and a deposit release it first and
    borrow it again where they need it: the dispatch returns what is left to do
    after the release ([Released]). *)

From S2P Require Import Prelude VoteInterface VoteState SvmInterface TransactionAccounts.
From S2P Require Import InstructionAccounts TransactionContext SysvarCache InvokeContext.
From S2P Require Import SystemProgram VoteAccount.
From stdpp Require Import strings.
Local Open Scope Z_scope.

Record VoteAuthorizeWithSeedArgs := mk_seed_args {
  authorization_type : VoteAuthorize;
  current_authority_derived_key_owner : Pubkey;
  current_authority_derived_key_seed : string;
  new_authority : Pubkey;
}.

Record VoteAuthorizeCheckedWithSeedArgs := mk_checked_seed_args {
  checked_authorization_type : VoteAuthorize;
  checked_derived_key_owner : Pubkey;
  checked_derived_key_seed : string;
}.

(** The constructors [Vote] and [TowerSync] are named [VoteIx] and [TowerSyncIx]. *)
Inductive VoteInstruction {VI : VoteInterface} {VA : VoteAccountInterface} :=
| InitializeAccount (vote_init : VoteInit)
| Authorize (voter_pubkey : Pubkey) (vote_authorize : VoteAuthorize)
| VoteIx (vote : Vote)
| Withdraw (lamports : Z)
| UpdateValidatorIdentity
| UpdateCommission (commission : Z)
| VoteSwitch (vote : Vote) (hash : Hash)
| AuthorizeChecked (vote_authorize : VoteAuthorize)
| UpdateVoteState (vote_state_update : TowerSync)
| UpdateVoteStateSwitch (vote_state_update : TowerSync) (hash : Hash)
| AuthorizeWithSeed (args : VoteAuthorizeWithSeedArgs)
| AuthorizeCheckedWithSeed (args : VoteAuthorizeCheckedWithSeedArgs)
| CompactUpdateVoteState (vote_state_update : TowerSync)
| CompactUpdateVoteStateSwitch (vote_state_update : TowerSync) (hash : Hash)
| TowerSyncIx (tower_sync : TowerSync)
| TowerSyncSwitch (tower_sync : TowerSync) (hash : Hash)
| InitializeAccountV2 (vote_init : VoteInitV2)
| UpdateCommissionCollector (kind : CommissionKind)
| UpdateCommissionBps (commission_bps : Z) (kind : CommissionKind)
| DepositDelegatorRewards (deposit : Z).

Definition VOTE_COMPUTE_UNITS : Z := 2100.
Definition BLS_PROOF_OF_POSSESSION_VERIFICATION_COMPUTE_UNITS : Z := 34500.

Section VoteProgram.
Context {SI : SvmInterface} {SY : SysvarInterface} {VI : VoteInterface}.
Context {VA : VoteAccountInterface}.
(** [limited_deserialize] of the instruction data. *)
Context (decode_vote_instruction : list Z -> Z -> option VoteInstruction).

Abbreviation IC := (stm (InvokeContext SI) InstructionError).
Implicit Types (b me : BorrowedInstructionAccount) (ix : InstructionContext).
Implicit Types (env : EnvironmentConfig) (signers : gset Pubkey).

(** Borrows an instruction account for a scope that needs the whole context. *)
Definition with_borrowed {A} ix (i : IndexOfAccount) (f : BorrowedInstructionAccount -> IC A) :
    IC A :=
  b ← on_ta (try_borrow_instruction_account ix i);
  st_finally (f b) (fun ic =>
    let t := transaction_context ic in
    with_tx (with_accounts (drop_borrowed b (accounts t)) t) ic).

(** ** Features *)

Definition is_init_account_v2_enabled env : bool :=
  let f := feature_set env in
  bls_pubkey_management_in_vote_account f && commission_rate_in_basis_points f
  && custom_commission_collector f && block_revenue_sharing f && vote_account_initialize_v2 f.
Definition is_vote_authorize_with_bls_enabled env : bool :=
  bls_pubkey_management_in_vote_account (feature_set env).
Definition should_reject_legacy_vote_instructions env : bool :=
  deprecate_legacy_vote_ixs (feature_set env) || alpenglow_migration_succeeded env.

(** ** Parts of the handlers *)

Definition consume_pop_compute_units : IC unit :=
  consume_checked BLS_PROOF_OF_POSSESSION_VERIFICATION_COMPUTE_UNITS.

(** The only authority of these instructions is the one derived from account 2. *)
Definition expected_authority_keys ix (seed : string) (owner : Pubkey) : TA (gset Pubkey) :=
  signer ← st_lift (is_instruction_account_signer ix 2);
  if (signer : bool) then
    base_pubkey ← key_of ix 2;
    match create_with_seed base_pubkey seed owner with
    | inl k => mret {[k]}
    | inr code => st_err (error_of_code code)
    end
  else mret ∅.

Definition process_authorize_with_seed_instruction env ix b (new_authority : Pubkey)
    (authorization_type : VoteAuthorize) (owner : Pubkey) (seed : string) : IC unit :=
  clock ← on_ta (checked_clock env ix 1%nat);
  keys ← on_ta (expected_authority_keys ix seed owner);
  authorize b new_authority authorization_type keys clock
    (is_vote_authorize_with_bls_enabled env) consume_pop_compute_units.

(** The collector at [index], borrowed for the scope [f] unless it is the vote account. *)
Definition read_new_collector_account {A} ix b (index : IndexOfAccount)
    (f : NewCommissionCollector -> IC A) : IC A :=
  k ← on_ta (key_of ix index);
  vote_key ← on_ta (st_gets (get_key b));
  if k =? vote_key then f VoteAccount
  else with_borrowed ix index (fun collector_account => f (NewAccount collector_account)).

(** The key of account [i], which must have signed. *)
Definition signing_key ix (i : IndexOfAccount) : TA Pubkey :=
  k ← key_of ix i;
  signer ← st_lift (is_instruction_account_signer ix i);
  fail_if (negb signer) MissingRequiredSignature ;;
  mret k.

Definition legacy_state_update env me (update : TowerSync) signers : IC unit :=
  fail_if (should_reject_legacy_vote_instructions env) InvalidInstructionData ;;
  slot_hashes ← st_lift (get_slot_hashes (sysvar_cache env));
  clock ← st_lift (get_clock (sysvar_cache env));
  on_ta (process_vote_state_update me slot_hashes clock update signers).

Definition legacy_vote env ix me (vote : Vote) signers : IC unit :=
  fail_if (should_reject_legacy_vote_instructions env) InvalidInstructionData ;;
  slot_hashes ← on_ta (checked_slot_hashes env ix 1%nat);
  clock ← on_ta (checked_clock env ix 2%nat);
  on_ta (process_vote_with_account me slot_hashes clock vote signers).

Definition tower_sync_ix env me (tower_sync : TowerSync) signers : IC unit :=
  fail_if (alpenglow_migration_succeeded env) InvalidInstructionData ;;
  slot_hashes ← st_lift (get_slot_hashes (sysvar_cache env));
  clock ← st_lift (get_clock (sysvar_cache env));
  on_ta (process_tower_sync me slot_hashes clock tower_sync signers).

(** ** Dispatch *)

(** What is left to do once the vote account is released. *)
Inductive Released :=
| WithdrawReleased (lamports : Z) (rent_sysvar : Rent) (clock_sysvar : Clock)
| DepositReleased (deposit : Z).

(** The instruction is done, and the vote account still borrowed. *)
Definition finish (m : IC unit) : IC (option Released) := m ;; mret None.

(** Runs the instruction with the vote account borrowed as [me], up to the end or to
    the release of the vote account. *)
Definition dispatch_vote env ix me signers (instruction : VoteInstruction) :
    IC (option Released) :=
  match instruction with
  | InitializeAccount vote_init => finish (
    rent ← on_ta (checked_rent env ix 1%nat);
    l ← on_ta (st_gets (get_lamports me));
    d ← on_ta (st_gets (get_data me));
    fail_if (negb (is_exempt rent l (Z.of_nat (length d)))) InsufficientFunds ;;
    clock ← on_ta (checked_clock env ix 2%nat);
    on_ta (initialize_account me vote_init signers clock))
  | Authorize voter_pubkey vote_authorize => finish (
    clock ← on_ta (checked_clock env ix 1%nat);
    authorize me voter_pubkey vote_authorize signers clock
      (is_vote_authorize_with_bls_enabled env) consume_pop_compute_units)
  | AuthorizeWithSeed args => finish (
    on_ta (check_accounts_number ix 3) ;;
    process_authorize_with_seed_instruction env ix me (new_authority args)
      (authorization_type args) (current_authority_derived_key_owner args)
      (current_authority_derived_key_seed args))
  | AuthorizeCheckedWithSeed args => finish (
    on_ta (check_accounts_number ix 4) ;;
    new_authority ← on_ta (signing_key ix 3);
    process_authorize_with_seed_instruction env ix me new_authority
      (checked_authorization_type args) (checked_derived_key_owner args)
      (checked_derived_key_seed args))
  | UpdateValidatorIdentity => finish (
    on_ta (check_accounts_number ix 2) ;;
    node_pubkey ← on_ta (key_of ix 1);
    on_ta (update_validator_identity me node_pubkey signers
      (custom_commission_collector (feature_set env))))
  | UpdateCommission commission => finish (
    epoch_schedule ← st_lift (get_epoch_schedule (sysvar_cache env));
    clock ← st_lift (get_clock (sysvar_cache env));
    on_ta (update_commission me commission signers epoch_schedule clock
      (delay_commission_updates (feature_set env))))
  | VoteIx vote | VoteSwitch vote _ => finish (legacy_vote env ix me vote signers)
  | UpdateVoteState update | UpdateVoteStateSwitch update _
  | CompactUpdateVoteState update | CompactUpdateVoteStateSwitch update _ =>
    finish (legacy_state_update env me update signers)
  | TowerSyncIx tower_sync | TowerSyncSwitch tower_sync _ =>
    finish (tower_sync_ix env me tower_sync signers)
  | Withdraw lamports =>
    on_ta (check_accounts_number ix 2) ;;
    rent_sysvar ← st_lift (get_rent (sysvar_cache env));
    clock_sysvar ← st_lift (get_clock (sysvar_cache env));
    mret (Some (WithdrawReleased lamports rent_sysvar clock_sysvar))
  | AuthorizeChecked vote_authorize => finish (
    on_ta (check_accounts_number ix 4) ;;
    voter_pubkey ← on_ta (signing_key ix 3);
    clock ← on_ta (checked_clock env ix 1%nat);
    authorize me voter_pubkey vote_authorize signers clock
      (is_vote_authorize_with_bls_enabled env) consume_pop_compute_units)
  | InitializeAccountV2 vote_init => finish (
    fail_if (negb (is_init_account_v2_enabled env)) InvalidInstructionData ;;
    on_ta (check_accounts_number ix 4) ;;
    read_new_collector_account ix me 2 (fun inflation_rewards_collector =>
      read_new_collector_account ix me 3 (fun block_revenue_collector =>
        clock ← st_lift (get_clock (sysvar_cache env));
        rent ← st_lift (get_rent (sysvar_cache env));
        initialize_account_v2 me vote_init inflation_rewards_collector
          block_revenue_collector signers clock rent consume_pop_compute_units)))
  | UpdateCommissionBps commission_bps kind => finish (
    fail_if (negb (commission_rate_in_basis_points (feature_set env))
      || negb (delay_commission_updates (feature_set env))) InvalidInstructionData ;;
    on_ta (update_commission_bps me commission_bps kind signers
      (block_revenue_sharing (feature_set env))))
  | UpdateCommissionCollector kind => finish (
    fail_if (negb (custom_commission_collector (feature_set env))) InvalidInstructionData ;;
    on_ta (check_accounts_number ix 3) ;;
    read_new_collector_account ix me 1 (fun new_collector =>
      rent ← st_lift (get_rent (sysvar_cache env));
      on_ta (update_commission_collector me new_collector kind signers rent)))
  | DepositDelegatorRewards deposit =>
    fail_if (negb (commission_rate_in_basis_points (feature_set env))
      || negb (custom_commission_collector (feature_set env))
      || negb (block_revenue_sharing (feature_set env))) InvalidInstructionData ;;
    on_ta (check_accounts_number ix 2) ;;
    mret (Some (DepositReleased deposit))
  end.

Definition run_released (invoke : Instruction -> list (list (list Z)) -> IC unit) ix signers
    (r : Released) : IC unit :=
  match r with
  | WithdrawReleased lamports rent_sysvar clock_sysvar =>
    on_ta (withdraw ix 0 lamports 1 signers rent_sysvar clock_sysvar)
  | DepositReleased deposit => deposit_delegator_rewards invoke 0 1 deposit signers
  end.

(** The part that runs with the vote account borrowed. *)
Definition run_borrowed env ix : IC (gset Pubkey * option Released) :=
  with_borrowed ix 0 (fun me =>
    o ← on_ta (st_gets (get_owner me));
    fail_if (negb (o =? vote_program_id)) InvalidAccountOwner ;;
    signers ← on_ta (fun s => (get_signers ix s, s));
    instruction ← st_lift (ok_or InvalidInstructionData
      (decode_vote_instruction (instruction_data ix) PACKET_DATA_SIZE));
    released ← dispatch_vote env ix me signers instruction;
    mret (signers, released)).

Definition vote_instruction env invoke ix : IC unit :=
  '(signers, released) ← run_borrowed env ix;
  match released with Some r => run_released invoke ix signers r | None => mret tt end.

Definition vote_entrypoint env : program := fun invoke =>
  entrypoint VOTE_COMPUTE_UNITS (
    ix ← current_instruction;
    vote_instruction env invoke ix).
End VoteProgram.
