(* ===== verification/VoteSafety.v ===== *)
(** * The vote program keeps the contract of the runtime

    [vote_ok] and [vote_local]: the vote program changes only what an instruction
    may change, uses the invocation it is given only in frames of its own depth, and
    leaves every account borrowed or free as it found it. *)

From S2P Require Import Prelude VoteInterface VoteState SvmInterface TransactionAccounts.
From S2P Require Import InstructionAccounts TransactionContext SysvarCache InvokeContext.
From S2P Require Import AccountSafety AccountRun RuntimeSafety RuntimeFuel SystemProgram.
From S2P Require Import SystemProofs SystemSpec Programs VoteAccount VoteProgram.
Local Open Scope Z_scope.

(** The numbers of an instruction are of their width. *)
Definition vote_instruction_typed {VI : VoteInterface} {VA : VoteAccountInterface}
    (i : VoteInstruction) : Prop :=
  match i with
  | Withdraw l | DepositDelegatorRewards l => is_u u64_max l
  | UpdateCommission c => is_u u8_max c
  | UpdateCommissionBps c _ => is_u u16_max c
  | _ => True
  end.

Section accounts.
Context {SI : SvmInterface} {SY : SysvarInterface} {VI : VoteInterface}.
Context {VA : VoteAccountInterface}.
Context (n : nat) (ix : InstructionContext).
Local Abbreviation safe_here := (ix_safe n ix).
Implicit Types b : BorrowedInstructionAccount.

Lemma ix_safe_try {A} (m : TA A) : safe_here m -> safe_here (st_try m).
Proof. apply safe_try. Qed.

Lemma checked_vote_state_safe b : safe_here (get_vote_state_handler_checked b).
Proof. by apply safe_read. Qed.
Lemma make_room_safe b : ix_handle n ix b -> safe_here (make_room b).
Proof. intros. unfold make_room. repeat first [safe_step | apply ix_safe_try]. Qed.
Lemma set_vote_account_state_safe h b :
  ix_handle n ix b -> safe_here (set_vote_account_state h b).
Proof.
  intros. unfold set_vote_account_state. repeat first [safe_step | by apply make_room_safe].
Qed.

Lemma overwrite_all d e : length d = length e -> overwrite d e = d.
Proof. intros H. unfold overwrite. by rewrite <-H, take_ge, H, drop_all, app_nil_r. Qed.

Lemma deinitialize_safe b : ix_handle n ix b -> safe_here (deinitialize_vote_account_state b).
Proof.
  intros Hb. apply safe_state. intros L T s Hok Hn.
  eexists. split; [|exact (slice_write_safe n _ _ b Hb
    (replicate (length (get_data b s)) 0))].
  cbv beta. rewrite overwrite_all by apply length_replicate.
  unfold deinitialize_vote_account_state, get_data_mut, mbind, stm_bind.
  destruct (changed_cases b s) as [(-> & _)|[e ->]]; [|done].
  by rewrite touch_run by exact (handle_touched n _ _ b Hb L T s Hok Hn).
Qed.
End accounts.

Ltac vote_safe :=
  repeat first
    [ safe_step | apply ix_safe_try | by apply checked_vote_state_safe
    | by apply set_vote_account_state_safe | by apply deinitialize_safe
    | apply key_of_safe | apply check_accounts_number_safe | apply checked_sysvar_safe ].

Section operations.
Context {SI : SvmInterface} {SY : SysvarInterface} {VI : VoteInterface}.
Context {VA : VoteAccountInterface}.
Context (n : nat) (ix : InstructionContext).
Local Abbreviation safe_here := (ix_safe n ix).
Implicit Types b : BorrowedInstructionAccount.

Section borrowed.
Context (b : BorrowedInstructionAccount) (Hb : ix_handle n ix b).

Lemma update_validator_identity_safe k signers c :
  safe_here (update_validator_identity b k signers c).
Proof using Hb. unfold update_validator_identity. vote_safe. Qed.
Lemma update_commission_safe c signers e clock r :
  safe_here (update_commission b c signers e clock r).
Proof using Hb. unfold update_commission. vote_safe. Qed.
Lemma update_commission_bps_safe c kind signers r :
  safe_here (update_commission_bps b c kind signers r).
Proof using Hb. unfold update_commission_bps. vote_safe. Qed.
Lemma validate_collector_safe c r : safe_here (validate_and_resolve_key c b r).
Proof. unfold validate_and_resolve_key. vote_safe. Qed.
Lemma update_commission_collector_safe c kind signers r :
  safe_here (update_commission_collector b c kind signers r).
Proof using Hb.
  unfold update_commission_collector. vote_safe; by apply validate_collector_safe.
Qed.
Lemma check_uninitialized_safe : safe_here (check_uninitialized b).
Proof. unfold check_uninitialized, check_vote_account_length. vote_safe. Qed.
Lemma initialize_account_safe i signers clock : safe_here (initialize_account b i signers clock).
Proof using Hb.
  apply ix_safe_bind; [apply check_uninitialized_safe|]. unfold init_vote_account_state.
  vote_safe.
Qed.
Lemma load_for_vote_safe clock signers : safe_here (load_for_vote b clock signers).
Proof. unfold load_for_vote. vote_safe. Qed.
Lemma process_vote_safe hashes clock v signers :
  safe_here (process_vote_with_account b hashes clock v signers).
Proof using Hb. apply ix_safe_bind; [apply load_for_vote_safe|]. vote_safe. Qed.
Lemma process_update_safe hashes clock v signers :
  safe_here (process_vote_state_update b hashes clock v signers).
Proof using Hb. apply ix_safe_bind; [apply load_for_vote_safe|]. vote_safe. Qed.
Lemma process_tower_sync_safe hashes clock v signers :
  safe_here (process_tower_sync b hashes clock v signers).
Proof using Hb. apply ix_safe_bind; [apply load_for_vote_safe|]. vote_safe. Qed.
Lemma check_withdrawal_safe l signers r clock :
  safe_here (check_withdrawal b l signers r clock).
Proof using Hb. unfold check_withdrawal. vote_safe. Qed.
End borrowed.

Lemma withdraw_safe i l j signers r clock :
  0 <= l -> safe_here (withdraw ix i l j signers r clock).
Proof. intros. unfold withdraw. repeat safe_step; [by apply check_withdrawal_safe|done..]. Qed.
Lemma expected_authority_keys_safe seed k : safe_here (expected_authority_keys ix seed k).
Proof. unfold expected_authority_keys. vote_safe. Qed.
Lemma signing_key_safe i : safe_here (signing_key ix i).
Proof. unfold signing_key. vote_safe. Qed.
End operations.

(** ** Borrowing for a scope that runs in the invocation context *)

Section within.
Context {SI : SvmInterface}.
Abbreviation runs_within := (fun n => within n transaction_context).
Abbreviation IC := (stm (InvokeContext SI) InstructionError).

Lemma with_accounts_frames t a t' :
  frames_kept (with_accounts a t) t' -> frames_kept t t'.
Proof. intros [H1 H2 [B1 B2 B3 B4 B5 B6 B7]]. by split; [..|split]. Qed.
Lemma with_accounts_frames_r t t' a :
  frames_kept t t' -> frames_kept t (with_accounts a t').
Proof. intros [H1 H2 [B1 B2 B3 B4 B5 B6 B7]]. by split; [..|split]. Qed.

Lemma with_borrowed_within {A} n ix i (f : BorrowedInstructionAccount -> IC A) :
  (forall b, ix_handle n ix b -> runs_within n ix (f b)) ->
  runs_within n ix (with_borrowed ix i f).
Proof.
  intros Hf L T ic Hok Hs Hn Hc. pose proof (tx_accounts _ _ _ Hok) as Ha.
  assert (acc_step L T (writable_in (instruction_accounts ix)) (transaction_context ic)
    (transaction_context (with_tx (with_accounts (accounts (transaction_context ic))
      (transaction_context ic)) ic))) as Hsame.
  { simpl. rewrite with_accounts_id. by apply acc_refl. }
  unfold with_borrowed, on_ta, on_tx, on_accounts, st_zoom. unfold mbind, stm_bind.
  unfold try_borrow_instruction_account, mbind, stm_bind, st_lift.
  destruct (instruction_accounts ix !! i) as [ia|] eqn:Hia; [|done]. simpl.
  set (s := accounts (transaction_context ic)) in *.
  pose proof (borrow_mut_run s (index_in_transaction ia)) as Hr.
  destruct (try_borrow_mut _ s) as [[[]|e|] s1]; [|by subst|done]. destruct Hr as [Hj ->].
  pose proof (handle_at ix n ia i s L T Ha Hn Hia Hj) as Hh.
  change (mk_borrowed _ ia _) with (borrowed_at ix ia). set (s1 := with_counters _ s).
  set (ic1 := with_tx (with_accounts s1 (transaction_context ic)) ic).
  assert (ta_ok L T s1) as Ha1.
  { apply with_counters_ok; [|done]. rewrite length_insert. apply Ha. }
  destruct (Hf _ Hh L T ic1) as [[H1 H2] H3]; [by apply with_accounts_ok|done|done|done|].
  unfold st_finally, stm_ret. simpl. fold ic1. destruct (f (borrowed_at ix ia) ic1) as [o ic2]. simpl in *.
  destruct (drop_after L T _ s _ (index_in_transaction ia) Ha Hj H1 H2) as [D1 D2].
  split; [by split|]. intros Ho. destruct (H3 Ho) as [F1 F2 F3]. split; simpl.
  - by apply with_accounts_ok.
  - by apply with_accounts_frames_r, (with_accounts_frames _ s1).
  - done.
Qed.

(** As [within_bind], with what is known of the values the first part returns. *)
Lemma within_bind_post {A B} n ix (P : A -> Prop) (m : IC A) (f : A -> IC B) :
  runs_within n ix m -> (forall ic a ic', m ic = (Ok a, ic') -> P a) ->
  (forall a, P a -> runs_within n ix (f a)) -> runs_within n ix (m ≫= f).
Proof.
  intros Hm HP Hf L T ic Hok Hs Hn Hc.
  destruct (m ic) as [[a|e|] ic1] eqn:E; [|by specialize (Hm L T ic Hok Hs Hn Hc);
    unfold mbind, stm_bind; rewrite E in *..].
  replace ((m ≫= f) ic) with ((m ≫= (fun _ => f a)) ic)
    by (unfold mbind, stm_bind; by rewrite E).
  apply (within_bind n transaction_context ix m (fun _ => f a)); [done| |done..].
  intros _. by apply Hf, (HP ic a ic1).
Qed.

Lemma with_borrowed_keeps {A} ix i (f : BorrowedInstructionAccount -> IC A) :
  (forall b, keeps_shape shape (f b)) -> keeps_shape shape (with_borrowed ix i f).
Proof.
  intros Hf. apply keeps_bind; [apply keeps_on_ta|]. intros b ic a ic' H.
  unfold st_finally in H. destruct (f b ic) as [o ic1] eqn:E. injection H as -> <-.
  apply Hf in E. by rewrite <-E.
Qed.
End within.

Ltac within_step :=
  lazymatch goal with
  | |- forall _, _ => intro
  | |- within _ _ _ (_ ≫= _) => apply within_bind
  | |- within _ _ _ (if ?b then _ else _) => destruct b
  | |- within _ _ _ (match ?x with _ => _ end) => destruct x
  | |- within _ _ _ (fail_if ?b _) =>
      apply within_read; intros; unfold fail_if; destruct b; reflexivity
  | |- within _ _ _ (mret _) => apply within_read; reflexivity
  | |- within _ _ _ (st_lift _) => apply within_read; reflexivity
  | |- within _ _ _ current_instruction => apply within_read; reflexivity
  | |- within _ _ _ (consume_checked _) => apply consume_within
  | |- within _ _ _ (with_borrowed _ _ _) => apply with_borrowed_within
  | |- within _ _ _ (on_ta (st_gets _)) => apply within_accounts, safe_read; reflexivity
  | |- within _ _ _ (on_ta _) => apply within_accounts
  end.

Ltac keeps_step :=
  lazymatch goal with
  | |- forall _, _ => intro
  | |- keeps_shape _ (_ ≫= _) => apply keeps_bind
  | |- keeps_shape _ (if ?b then _ else _) => destruct b
  | |- keeps_shape _ (match ?x with _ => _ end) => destruct x
  | |- keeps_shape _ (fail_if ?b _) => 
      apply keeps_same; intros; unfold fail_if; destruct b; reflexivity
  | |- keeps_shape _ (mret _) => by apply keeps_same
  | |- keeps_shape _ (st_lift _) => by apply keeps_same
  | |- keeps_shape _ current_instruction => by apply keeps_same
  | |- keeps_shape _ (consume_checked _) => apply consume_keeps
  | |- keeps_shape _ (with_borrowed _ _ _) => apply with_borrowed_keeps
  | |- keeps_shape _ (on_ta _) => apply keeps_on_ta
  end.

(** ** The program *)

Section program.
Context {SI : SvmInterface} {SY : SysvarInterface} {VI : VoteInterface}.
Context {VA : VoteAccountInterface}.
Context (decode_vote_instruction : list Z -> Z -> option VoteInstruction).

(** The numbers of a decoded instruction are of their width. *)
Hypothesis decode_typed : forall d limit i,
  decode_vote_instruction d limit = Some i -> vote_instruction_typed i.
(** [system_instruction::transfer] names two accounts. *)
Hypothesis transfer_metas : forall from to l,
  Z.of_nat (length (metas (system_transfer from to l))) <= u16_max.

Abbreviation runs_within := (fun n => within n transaction_context).
Abbreviation IC := (stm (InvokeContext SI) InstructionError).
Implicit Types (env : EnvironmentConfig) (b : BorrowedInstructionAccount).

Lemma authorize_within n ix b k va signers clock bls pop :
  ix_handle n ix b -> runs_within n ix pop ->
  runs_within n ix (authorize b k va signers clock bls pop).
Proof using.
  intros Hb Hp. unfold authorize, verify_bls_proof_of_possession.
  repeat first [by apply Hp | within_step | by apply checked_vote_state_safe
               | by apply set_vote_account_state_safe].
Qed.

Lemma authorize_with_seed_within n env ix b k va o seed :
  ix_handle n ix b ->
  runs_within n ix (process_authorize_with_seed_instruction env ix b k va o seed).
Proof using.
  intros Hb. unfold process_authorize_with_seed_instruction, consume_pop_compute_units.
  repeat first [apply authorize_within; [done|] | within_step | apply checked_sysvar_safe
               | apply expected_authority_keys_safe].
Qed.

Lemma read_collector_within {A} n ix b i (f : NewCommissionCollector -> IC A) :
  (forall c, runs_within n ix (f c)) -> runs_within n ix (read_new_collector_account ix b i f).
Proof using.
  intros Hf. unfold read_new_collector_account.
  repeat first [by apply Hf | within_step | apply key_of_safe].
Qed.

Lemma initialize_v2_within n ix b vi c1 c2 signers clock r pop :
  ix_handle n ix b -> runs_within n ix pop ->
  runs_within n ix (initialize_account_v2 b vi c1 c2 signers clock r pop).
Proof using.
  intros Hb Hp. unfold initialize_account_v2, verify_bls_proof_of_possession.
  unfold init_vote_account_state_v2.
  repeat first [by apply Hp | within_step | apply check_uninitialized_safe
               | apply validate_collector_safe | by apply set_vote_account_state_safe].
Qed.

Lemma deposit_within n ix invoke i j l signers :
  cpi_ok invoke -> runs_within n ix (deposit_delegator_rewards invoke i j l signers).
Proof using transfer_metas.
  intros Hi. unfold deposit_delegator_rewards. apply within_current.
  do 2 (apply within_bind; [apply within_accounts, key_of_safe|]; intros ?).
  apply within_bind; [by apply within_read|]. intros _.
  apply within_bind; [apply within_accounts, with_account_safe; intros; by apply safe_read|].
  intros h. apply within_bind; [by apply Hi, transfer_metas|]. intros _.
  apply within_current, within_accounts, with_account_safe. intros b Hb. vote_safe.
Qed.

Lemma dispatch_within n env ix me signers i :
  ix_handle n ix me -> runs_within n ix (dispatch_vote env ix me signers i).
Proof using.
  intros Hb. destruct i; simpl; unfold finish, legacy_vote, legacy_state_update, tower_sync_ix,
    consume_pop_compute_units;
  repeat first
    [ apply read_collector_within | by apply authorize_with_seed_within
    | apply authorize_within; [done|] | apply initialize_v2_within; [done|]
    | within_step | apply checked_sysvar_safe | apply check_accounts_number_safe
    | apply key_of_safe | apply signing_key_safe | by apply initialize_account_safe
    | by apply update_validator_identity_safe | by apply update_commission_safe
    | by apply update_commission_bps_safe | by apply update_commission_collector_safe
    | by apply process_vote_safe | by apply process_update_safe
    | by apply process_tower_sync_safe ].
Qed.

(** What is left to do has numbers of their width. *)
Definition released_typed (r : Released) : Prop :=
  match r with WithdrawReleased l _ _ | DepositReleased l => is_u u64_max l end.

Lemma dispatch_released env ix me signers i ic r ic' :
  vote_instruction_typed i ->
  dispatch_vote env ix me signers i ic = (Ok (Some r), ic') -> released_typed r.
Proof using.
  intros Ht H. destruct i; simpl in *;
    try (apply st_bind_Ok in H as (? & ? & _ & H); discriminate H); unfold finish in H; inv_ok;
    by simplify_eq.
Qed.

Lemma borrowed_post {A} ix i (f : BorrowedInstructionAccount -> IC A) ic a ic' :
  with_borrowed ix i f ic = (Ok a, ic') -> exists b ic1 ic2, f b ic1 = (Ok a, ic2).
Proof using.
  intros (b & ic1 & _ & H)%st_bind_Ok. unfold st_finally in H.
  destruct (f b ic1) as [o ic2] eqn:E. injection H as -> _. eauto.
Qed.

Lemma run_borrowed_within n env ix :
  runs_within n ix (run_borrowed decode_vote_instruction env ix).
Proof using.
  unfold run_borrowed.
  repeat first [by apply dispatch_within | within_step | apply safe_read; reflexivity].
Qed.

Lemma run_borrowed_typed env ix ic signers r ic' :
  run_borrowed decode_vote_instruction env ix ic = (Ok (signers, Some r), ic') ->
  released_typed r.
Proof using decode_typed.
  intros (b & ic1 & ic2 & H)%borrowed_post. inv_ok. eapply dispatch_released; [|done].
  by eapply decode_typed.
Qed.

Lemma run_released_within n ix invoke signers r :
  cpi_ok invoke -> released_typed r -> runs_within n ix (run_released invoke ix signers r).
Proof using transfer_metas.
  intros Hi Hr. destruct r; simpl in *; [|by apply deposit_within].
  apply within_accounts, withdraw_safe, Hr.
Qed.

Lemma vote_ok env : program_ok (vote_entrypoint decode_vote_instruction env).
Proof using decode_typed transfer_metas.
  intros n invoke ix Hi. apply within_map_err. apply within_bind.
  { case_bool; [apply consume_within|by apply within_read]. }
  intros _. apply within_current. unfold vote_instruction.
  apply (within_bind_post n ix
    (fun r => match r.2 with Some x => released_typed x | _ => True end)).
  - apply run_borrowed_within.
  - intros ic [signers [r|]] ic' H; [|done]. by eapply run_borrowed_typed.
  - intros [signers [r|]] Hr; [by apply run_released_within|by apply within_read].
Qed.

(** ** The invocation is used at the depth of the program *)

Lemma dispatch_keeps env ix me signers i : keeps_shape shape (dispatch_vote env ix me signers i).
Proof using.
  destruct i; simpl; unfold finish, legacy_vote, legacy_state_update, tower_sync_ix,
    process_authorize_with_seed_instruction, authorize, initialize_account_v2,
    verify_bls_proof_of_possession, read_new_collector_account, consume_pop_compute_units;
  repeat keeps_step.
Qed.

Lemma run_borrowed_keeps env ix : keeps_shape shape (run_borrowed decode_vote_instruction env ix).
Proof using. unfold run_borrowed. repeat first [apply dispatch_keeps | keeps_step]. Qed.

Lemma deposit_local invoke1 invoke2 i j l signers ic :
  agree (shape ic) invoke1 invoke2 ->
  (forall instruction seeds, keeps_shape shape (invoke1 instruction seeds)) ->
  deposit_delegator_rewards invoke1 i j l signers ic =
  deposit_delegator_rewards invoke2 i j l signers ic.
Proof using.
  intros Ha Hk. unfold deposit_delegator_rewards.
  apply bind_agree; [keeps_step|]. intros ix ic1 E1.
  apply bind_agree; [keeps_step|]. intros k1 ic2 E2.
  apply bind_agree; [keeps_step|]. intros k2 ic3 E3.
  apply bind_agree; [keeps_step|]. intros _ ic4 E4.
  apply bind_agree; [keeps_step|]. intros h ic5 E5.
  unfold mbind, stm_bind. by rewrite <-(Ha _ _ ic5) by congruence.
Qed.

Lemma vote_local env : program_local (vote_entrypoint decode_vote_instruction env).
Proof using.
  assert (keeps_shape shape (if 0 <? VOTE_COMPUTE_UNITS
    then consume_checked VOTE_COMPUTE_UNITS else mret tt : IC unit)) as Hc by repeat keeps_step.
  split.
  - intros invoke1 invoke2 ic Ha Hk. unfold vote_entrypoint, entrypoint, st_map_err.
    assert (forall a b : IC unit, a ic = b ic -> st_map_err InstrError a ic = st_map_err InstrError b ic)
      as Hm by (intros a b E; unfold st_map_err; by rewrite E).
    apply Hm. apply bind_agree; [done|]. intros _ ic1 E1.
    apply bind_agree; [keeps_step|]. intros ix ic2 E2. unfold vote_instruction.
    apply bind_agree; [apply run_borrowed_keeps|]. intros [signers [[]|]] ic3 E3; [done| |done].
    apply deposit_local; [|done]. by rewrite E3, E2, E1.
  - intros invoke Hk. apply keeps_map_err, keeps_bind; [done|]. intros _.
    apply keeps_bind; [keeps_step|]. intros ix. apply keeps_bind; [apply run_borrowed_keeps|].
    intros [signers [[]|]]; simpl; unfold deposit_delegator_rewards;
      repeat first [by apply Hk | keeps_step].
Qed.
End program.
