(* ===== verification/VoteSpec.v ===== *)
(** * Who may change a vote account

    What a vote account holds ([vote_at]), that a stored state is read back, and the
    access control of the vote program: which signatures every change of the state
    needs ([changes_allowed]), for each operation and for a whole instruction. *)

From S2P Require Import Prelude VoteInterface VoteState SvmInterface TransactionAccounts.
From S2P Require Import InstructionAccounts TransactionContext SysvarCache InvokeContext.
From S2P Require Import AccountSafety AccountRun RuntimeSafety RuntimeFuel SystemProgram.
From S2P Require Import SystemProofs SystemSpec NonceProofs Programs VoteAccount VoteProgram.
From S2P Require Import VoteSafety.
Local Open Scope Z_scope.

(** The documented behaviour of the stored versions: a stored state of the current
    version is read back and is initialized; the two decoders agree; bytes that are
    all zero hold no vote state. *)
Class VoteAccountLaws {VI : VoteInterface} (VA : VoteAccountInterface) : Prop := {
  vote_state_bincode_laws :: BincodeLaws VoteStateVersions;
  vote_state_read_back x bytes rest : serialize (V4 x) = Some bytes ->
    vote_state_deserialize (bytes ++ rest) = inl (V4 x);
  v4_initialized x : vote_state_is_uninitialized (V4 x) = false;
  decoders_agree d v w : deserialize d = Some v -> vote_state_deserialize d = inl w -> w = v;
  zeros_uninitialized n v : vote_state_deserialize (replicate n 0) = inl v ->
    vote_state_is_uninitialized v = true;
}.

(** ** Inversion of successful steps *)

Lemma fail_if_Ok {S E} (c : bool) (e : E) (s s' : S) a :
  fail_if c e s = (Ok a, s') -> c = false /\ s' = s.
Proof. unfold fail_if, st_err. destruct c; [done|]. by intros [= _ <-]. Qed.

Lemma st_gets_Ok {S E A} (f : S -> A) (s s' : S) a :
  st_gets (E := E) f s = (Ok a, s') -> a = f s /\ s' = s.
Proof. by intros [= <- <-]. Qed.

Lemma on_ta_Ok {SI : SvmInterface} {A} (m : TA A) ic a ic' :
  on_ta m ic = (Ok a, ic') ->
  exists s', m (accounts (transaction_context ic)) = (Ok a, s') /\
    ic' = with_tx (with_accounts s' (transaction_context ic)) ic.
Proof.
  unfold on_ta, on_tx, on_accounts, st_zoom. destruct (m _) as [o s']. intros [= -> <-]. eauto.
Qed.

Section stored.
Context {SI : SvmInterface} {SY : SysvarInterface} {VI : VoteInterface}.
Context {VA : VoteAccountInterface} {VL : VoteAccountLaws VA}.
Implicit Types (b : BorrowedInstructionAccount) (s : TransactionAccounts).
Implicit Types (h : VoteStateHandler) (signers : gset Pubkey) (clock : Clock).

(** The vote state an account holds, as the vote program sees it. *)
Definition vote_at b s : option VoteStateHandler :=
  match (get_vote_state_handler_checked b s).1 with Ok h => Some h | _ => None end.

Lemma checked_inv b s h s' :
  get_vote_state_handler_checked b s = (Ok h, s') -> vote_at b s = Some h /\ s' = s.
Proof using.
  unfold vote_at. intros E. rewrite E. split; [done|].
  unfold get_vote_state_handler_checked in E. by injection E.
Qed.

Lemma vote_at_data b s s' :
  get_data b s' = get_data b s -> get_key b s' = get_key b s -> vote_at b s' = vote_at b s.
Proof using. intros E1 E2. unfold vote_at, get_vote_state_handler_checked. by rewrite E1, E2. Qed.

Lemma new_v4_of h : new_v4 (v4_of h) = h.
Proof using. by destruct h as [[v]]. Qed.

(** An account is an account of the transaction. *)
Definition present b s : Prop :=
  (get_index_in_transaction b < length (private_account_fields s))%nat.

(** The room for a state: the account is as it was, or longer. *)
Lemma make_room_inv n W pi b L T s s' room :
  handle n W pi b -> ta_ok L T s -> accounts_len s = n ->
  make_room b s = (Ok room, s') ->
  s' = s \/ s' = alloc (get_index_in_transaction b) V4_size_of s.
Proof using.
  intros Hb Hok Hn. unfold make_room. unfold mbind, stm_bind, st_gets, mret, stm_ret.
  case_bool; [|intros [= _ <-]; by left]. destruct (negb _); [intros [= _ <-]; by left|].
  unfold st_try. rewrite (set_data_length_run n W pi b Hb L T s Hok Hn).
  repeat (case_bool; [intros [= _ <-]; by left|]). intros [= _ <-]. by right.
Qed.

Lemma alloc_present b j m s : present b s -> present b (alloc j m s).
Proof using. unfold present, alloc. case_bool; [done|]. simpl. by rewrite length_alter. Qed.

Lemma handle_present n W pi b L T s :
  handle n W pi b -> ta_ok L T s -> accounts_len s = n -> present b s.
Proof using. intros [H _ _] Hok <-. unfold present. by rewrite (len_private _ _ _ Hok). Qed.

(** What was stored is what is read; balances, owners and keys are kept. *)
Lemma set_vote_account_state_inv n W pi h b L T s s' :
  handle n W pi b -> ta_ok L T s -> accounts_len s = n ->
  set_vote_account_state h b s = (Ok tt, s') ->
  vote_at b s' = Some h /\ (forall i, balance i s' = balance i s /\ owner_at i s' = owner_at i s).
Proof using VL.
  intros Hb Hok Hn. unfold set_vote_account_state. intros H.
  apply st_bind_Ok in H as (room & s1 & H1 & H). apply st_bind_Ok in H as ([] & s2 & H2 & H).
  apply fail_if_Ok in H2 as [_ ->].
  apply (make_room_inv _ _ _ _ _ _ _ _ _ Hb Hok Hn) in H1.
  assert (present b s1) as Hp.
  { destruct H1 as [->| ->]; [|apply alloc_present]; by eapply handle_present. }
  apply set_state_inv in H as (bytes & Hser & Hl & _ & _ & ->). split.
  - unfold vote_at, get_vote_state_handler_checked, get_data. simpl.
    rewrite lookup_total_alter_eq by done. simpl. fold (get_data b s1).
    rewrite overwrite_fits by done. rewrite (vote_state_read_back _ _ _ Hser), v4_initialized.
    simpl. by rewrite new_v4_of.
  - intros i. destruct H1 as [->| ->]; [done|].
    change (balance i (alloc (get_index_in_transaction b) V4_size_of s) = balance i s /\
      owner_at i (alloc (get_index_in_transaction b) V4_size_of s) = owner_at i s).
    by rewrite alloc_balance, alloc_owner.
Qed.
End stored.

(** ** What the processing of votes leaves alone *)

Section config.
Context {VI : VoteInterface}.
Implicit Types h : VoteStateHandler.

(** Everything but the tower, its credits and its timestamp. *)
Definition config h : VoteStateHandler :=
  set_votes [] (set_root_slot None (set_epoch_credits [] (set_last_timestamp (mk_ts 0 0) h))).

Lemma config_votes x h : config (set_votes x h) = config h.
Proof. by destruct h as [[[]]]. Qed.
Lemma config_root x h : config (set_root_slot x h) = config h.
Proof. by destruct h as [[[]]]. Qed.
Lemma config_credits x h : config (set_epoch_credits x h) = config h.
Proof. by destruct h as [[[]]]. Qed.
Lemma config_timestamp x h : config (set_last_timestamp x h) = config h.
Proof. by destruct h as [[[]]]. Qed.

Lemma config_fields h h' : config h' = config h ->
  node_pubkey_ (v4_of h') = node_pubkey_ (v4_of h) /\
  authorized_withdrawer h' = authorized_withdrawer h /\
  inflation_rewards_collector_ (v4_of h') = inflation_rewards_collector_ (v4_of h) /\
  block_revenue_collector_ (v4_of h') = block_revenue_collector_ (v4_of h) /\
  inflation_rewards_commission_bps_ (v4_of h') = inflation_rewards_commission_bps_ (v4_of h) /\
  block_revenue_commission_bps_ (v4_of h') = block_revenue_commission_bps_ (v4_of h) /\
  pending_delegator_rewards h' = pending_delegator_rewards h /\
  bls_pubkey_compressed_ (v4_of h') = bls_pubkey_compressed_ (v4_of h) /\
  authorized_voters_ (v4_of h') = authorized_voters_ (v4_of h).
Proof.
  destruct h as [[[]]], h' as [[[]]]. intros H. injection H as. by split_and!.
Qed.

Lemma increment_credits_config {E} e c h h' :
  increment_credits (E := E) e c h = Ok h' -> config h' = config h.
Proof. unfold increment_credits. intros H. inv_ok. apply config_credits. Qed.

Lemma next_vote_config {E} s e c h h' :
  process_next_vote_slot (E := E) s e c h = Ok h' -> config h' = config h.
Proof.
  unfold process_next_vote_slot. intros H. head_if H; [by simplify_eq|]. inv_ok.
  unfold double_lockouts. rewrite !config_votes. revert H0.
  destruct (_ =? _)%nat; [|intros [= <-]; apply config_votes].
  destruct (votes _); [done|]. intros H0%increment_credits_config.
  rewrite H0, config_root, config_votes. apply config_votes.
Qed.

Lemma vote_slots_config slots e c h h' :
  process_vote_slots slots e c h = Ok h' -> config h' = config h.
Proof.
  revert h. induction slots as [|s slots IH]; intros h H; simpl in H; [by simplify_eq|].
  apply bind_Ok in H as (h1 & H1 & H). by rewrite (IH _ H), (next_vote_config _ _ _ _ _ H1).
Qed.

Lemma process_vote_config vote hashes e c h h' :
  process_vote vote hashes e c h = Ok h' -> config h' = config h.
Proof.
  unfold process_vote, process_vote_unfiltered. intros H.
  head_if H; [done|]. head_if H; [done|]. apply bind_Ok in H as ([] & _ & H).
  by eapply vote_slots_config.
Qed.

Lemma timestamp_config slot t h h' :
  process_timestamp slot t h = (Ok tt, h') -> config h' = config h.
Proof.
  unfold process_timestamp. intros H. apply st_bind_Ok in H as (h1 & h2 & H1 & H).
  injection H1 as <- <-. simpl in H. head_if H; [done|]. injection H as <-. apply config_timestamp.
Qed.

Lemma new_vote_state_config l r t e c h h' :
  process_new_vote_state l r t e c h = (Ok tt, h') -> config h' = config h.
Proof.
  unfold process_new_vote_state. intros H. apply st_bind_Ok in H as (h0 & h1 & H0 & H).
  injection H0 as <- <-. do 2 (head_if H; [done|]).
  apply st_bind_Ok in H as ([] & ? & H1 & H). apply st_lift_Ok in H1 as [_ ->].
  apply st_bind_Ok in H as ([] & ? & H1 & H). apply st_lift_Ok in H1 as [_ ->].
  apply st_bind_Ok in H as ([earned i] & ? & H1 & H). apply st_lift_Ok in H1 as [_ ->].
  apply st_bind_Ok in H as (merged & ? & H1 & H). apply st_lift_Ok in H1 as [_ ->].
  apply st_bind_Ok in H as ([] & h2 & H2 & H). apply st_bind_Ok in H as ([] & h3 & H3 & H).
  apply st_bind_Ok in H as ([] & h4 & H4 & H). injection H4 as <-. injection H as <-.
  rewrite config_votes, config_root. transitivity (config h2).
  - destruct t; [|by injection H3 as <-]. apply st_bind_Ok in H3 as (v & ? & H4 & H3).
    apply st_lift_Ok in H4 as [_ ->]. by eapply timestamp_config.
  - case_decide; [|by injection H2 as <-]. apply st_bind_Ok in H2 as (h5 & ? & H4 & H2).
    apply st_lift_Ok in H4 as [H4 ->]. injection H2 as <-. by eapply increment_credits_config.
Qed.

Lemma state_update_config hashes e c u h h' :
  do_process_vote_state_update hashes e c u h = (Ok tt, h') -> config h' = config h.
Proof.
  unfold do_process_vote_state_update. intros H. apply st_bind_Ok in H as (h0 & h1 & H0 & H).
  injection H0 as <- <-. apply st_bind_Ok in H as ([l r] & h2 & H1 & H).
  apply st_lift_Ok in H1 as [_ ->]. by eapply new_vote_state_config.
Qed.

(** The two instructions process a proposed tower alike. *)
Lemma tower_sync_update hashes e c u h :
  do_process_tower_sync hashes e c u h = do_process_vote_state_update hashes e c u h.
Proof. done. Qed.
End config.
