(* ===== verification/VoteAccess.v ===== *)
(** * Access control of the vote program

    Which signatures a change of a vote state needs ([changes_allowed]), for every
    operation of [VoteAccount]. *)

From S2P Require Import Prelude VoteInterface VoteState SvmInterface TransactionAccounts.
From S2P Require Import InstructionAccounts TransactionContext SysvarCache InvokeContext.
From S2P Require Import AccountSafety AccountRun RuntimeSafety RuntimeFuel SystemProgram.
From S2P Require Import SystemProofs SystemSpec NonceProofs Programs VoteAccount VoteProgram.
From S2P Require Import VoteStateProofs VoteSafety VoteSpec.
Local Open Scope Z_scope.

Section changes.
Context {VI : VoteInterface}.
Implicit Types (h : VoteStateHandler) (keys : gset Pubkey).

(** The authorized voter of an epoch, and whether it is among [keys]. *)
Definition epoch_voter (e : Epoch) h : option Pubkey :=
  (av_get_and_cache e (authorized_voters_ (v4_of h))).1.
Definition voter_among (e : Epoch) keys h : Prop :=
  exists k, epoch_voter e h = Some k /\ k ∈ keys.

Definition tower_part h : list (LandedVote Lockout) * option Slot * list (Epoch * Z * Z) *
    BlockTimestamp :=
  (votes h, root_slot h, epoch_credits h, last_timestamp h).
Definition commission_part h : Z * Z * Pubkey * Pubkey :=
  (inflation_rewards_commission_bps_ (v4_of h), block_revenue_commission_bps_ (v4_of h),
   inflation_rewards_collector_ (v4_of h), block_revenue_collector_ (v4_of h)).
Definition voter_part h : AuthorizedVoters * option Z :=
  (authorized_voters_ (v4_of h), bls_pubkey_compressed_ (v4_of h)).

(** A well-formed vote state: the tower and the credits are, and the commissions and
    the pending rewards fit their integers. *)
Definition bps_typed h : Prop :=
  is_u u16_max (inflation_rewards_commission_bps_ (v4_of h)) /\
  is_u u16_max (block_revenue_commission_bps_ (v4_of h)).
Definition vote_wf h : Prop :=
  state_ok h /\ bps_typed h /\ is_u u64_max (pending_delegator_rewards h).

(** The changes that the signatures of [keys] allow in epoch [e]; a well-formed state
    stays well formed. *)
Record changes_allowed (e : Epoch) keys h h' : Prop := {
  ca_withdrawer : authorized_withdrawer h' <> authorized_withdrawer h ->
    authorized_withdrawer h ∈ keys;
  ca_node : node_pubkey h' <> node_pubkey h ->
    authorized_withdrawer h ∈ keys /\ node_pubkey h' ∈ keys;
  ca_commission : commission_part h' <> commission_part h -> authorized_withdrawer h ∈ keys;
  ca_voters : voter_part h' <> voter_part h ->
    authorized_withdrawer h ∈ keys \/ voter_among e keys h;
  ca_tower : tower_part h' <> tower_part h -> voter_among e keys h;
  ca_pending : pending_delegator_rewards h' = pending_delegator_rewards h;
  ca_wf : vote_wf h -> vote_wf h';
}.

(** What well-formedness depends on. *)
Lemma vote_wf_parts h h' :
  tower_part h' = tower_part h -> bps_typed h' ->
  pending_delegator_rewards h' = pending_delegator_rewards h -> vote_wf h -> vote_wf h'.
Proof.
  unfold vote_wf, state_ok, handler_ok. intros [= -> -> -> _] H -> (W1 & W2 & W3). exact (conj W1 (conj H W3)).
Qed.

Lemma allowed_refl e keys h : changes_allowed e keys h h.
Proof. by split. Qed.

(** The withdrawer signed: everything but the tower and the rewards may change. *)
Lemma allowed_withdrawer e keys h h' :
  authorized_withdrawer h ∈ keys ->
  node_pubkey h' = node_pubkey h \/ node_pubkey h' ∈ keys ->
  tower_part h' = tower_part h -> pending_delegator_rewards h' = pending_delegator_rewards h ->
  (bps_typed h -> bps_typed h') -> changes_allowed e keys h h'.
Proof.
  intros H1 H2 H3 H4 H5. split; try done; [by destruct H2|by left|].
  intros (W1 & W2 & W3). apply (vote_wf_parts h); [done|by apply H5|done|by split_and!].
Qed.

(** The voter signed: the voters and the tower may change. *)
Lemma allowed_voter e keys h h' v :
  voter_among e keys h -> config h' = config (set_authorized_voters v h) ->
  (state_ok (set_authorized_voters v h) -> state_ok h') -> changes_allowed e keys h h'.
Proof.
  intros H1 Hc Hwf. apply config_fields in Hc as (E1 & E2 & E3 & E4 & E5 & E6 & E7 & E8 & E9).
  assert (authorized_withdrawer (set_authorized_voters v h) = authorized_withdrawer h /\
    node_pubkey (set_authorized_voters v h) = node_pubkey h /\
    commission_part (set_authorized_voters v h) = commission_part h /\
    pending_delegator_rewards (set_authorized_voters v h) = pending_delegator_rewards h)
    as (F1 & F2 & F3 & F4) by by destruct h as [[[]]].
  split; [|intros []|intros []|by right|done| |].
  - intros []. by rewrite E2.
  - unfold node_pubkey at 1. by rewrite E1.
  - rewrite <-F3. unfold commission_part. by rewrite E3, E4, E5, E6.
  - by rewrite E7.
  - intros (W1 & W2 & W3). split_and!; [apply Hwf; by destruct h as [[[]]]| |].
    + destruct W2 as [W2 W4]. unfold bps_typed. rewrite E5, E6.
      destruct h as [[[]]]. by split.
    + rewrite E7. by destruct h as [[[]]].
Qed.

(** The voter or the withdrawer signed, and only the voters change. *)
Lemma allowed_authority e keys h h' v k :
  authorized_withdrawer h ∈ keys \/ voter_among e keys h ->
  h' = set_authorized_voters v h \/ h' = set_bls_pubkey k (set_authorized_voters v h) ->
  changes_allowed e keys h h'.
Proof.
  intros H1 [-> | ->]; destruct h as [[[]]]; by split.
Qed.
End changes.

(** ** The operations *)

Section operations.
Context {SI : SvmInterface} {SY : SysvarInterface} {VI : VoteInterface}.
Context {VIL : VoteInterfaceLaws VI}.
Context {VA : VoteAccountInterface} {VL : VoteAccountLaws VA}.
Context (n : nat) (W : nat -> Prop) (pi : nat) (b : BorrowedInstructionAccount).
Context (Hb : handle n W pi b) (L T : Z) (s : TransactionAccounts).
Context (Hok : ta_ok L T s) (Hn : accounts_len s = n).
Implicit Types (h : VoteStateHandler) (signers keys : gset Pubkey) (clock : Clock).

(** A state made by an initialization, to which its node agreed; the second form
    comes with a proof of possession of the BLS key. *)
Definition fresh_state keys (k : Pubkey) h : Prop :=
  (exists vote_init clock, h = new_v4 (V4_new_with_defaults k vote_init clock) /\
     init_node_pubkey vote_init ∈ keys) \/
  (exists vote_init c1 c2 clock, h = new_v4 (V4_new vote_init c1 c2 clock) /\
     init2_node_pubkey vote_init ∈ keys /\
     bls_verify (authorized_voter_bls_proof_of_possession vote_init)
       (authorized_voter_bls_pubkey vote_init) (generate_pop_message k) = true).

(** A state the account holds is the one before with allowed changes, or a fresh one
    where there was none. *)
Definition account_allowed (e : Epoch) keys (s s' : TransactionAccounts) : Prop :=
  forall h', vote_at b s' = Some h' ->
    (exists h, vote_at b s = Some h /\ changes_allowed e keys h h') \/
    (vote_at b s = None /\ fresh_state keys (get_key b s) h').

Lemma store_allowed e keys h h' s' :
  vote_at b s = Some h -> changes_allowed e keys h h' ->
  set_vote_account_state h' b s = (Ok tt, s') -> account_allowed e keys s s'.
Proof using VL Hb Hok Hn.
  intros Hh Hc H h1 H1. left. exists h. split; [done|].
  destruct (set_vote_account_state_inv _ _ _ _ _ _ _ _ _ Hb Hok Hn H) as [E _]. congruence.
Qed.

Lemma verify_Ok k signers :
  verify_authorized_signer k signers = Ok tt -> k ∈ signers.
Proof using. unfold verify_authorized_signer. by case_bool_decide. Qed.
Lemma verify_is_ok k signers :
  is_ok (verify_authorized_signer k signers) = true -> k ∈ signers.
Proof using. unfold verify_authorized_signer. by case_bool_decide. Qed.

(** A successful start: the state is loaded and the withdrawer signed. *)
Lemma load_inv {A} (f : VoteStateHandler -> TA A) r :
  (get_vote_state_handler_checked b ≫= f) s = r -> is_ok r.1 = true ->
  exists h, vote_at b s = Some h /\ f h s = r.
Proof using.
  intros H Hr. unfold mbind, stm_bind in H.
  destruct (get_vote_state_handler_checked b s) as [[h|e|] s1] eqn:E; [|by rewrite <-H in Hr..].
  apply checked_inv in E as [? ->]. eauto.
Qed.
Lemma verified_inv {A} k signers (f : unit -> TA A) s1 r :
  (st_lift (verify_authorized_signer k signers) ≫= f) s1 = r -> is_ok r.1 = true ->
  k ∈ signers /\ f tt s1 = r.
Proof using.
  intros H Hr. unfold mbind, stm_bind, st_lift in H.
  destruct (verify_authorized_signer k signers) as [[]|e|] eqn:E; [|by rewrite <-H in Hr..].
  by apply verify_Ok in E.
Qed.

Lemma update_validator_identity_allowed e k signers c s' :
  update_validator_identity b k signers c s = (Ok tt, s') -> account_allowed e signers s s'.
Proof using VL Hb Hok Hn.
  intros (h & Hh & H)%load_inv; [|done]. apply verified_inv in H as [H1 H]; [|done].
  apply verified_inv in H as [H2 H]; [|done]. eapply store_allowed; [done| |done].
  apply allowed_withdrawer; [done|right|..]; destruct h as [[[]]], c; done.
Qed.

(** Without the withdrawer the identity does not change, whoever else signs. *)
Lemma identity_needs_withdrawer h k signers c :
  vote_at b s = Some h -> authorized_withdrawer h ∉ signers ->
  update_validator_identity b k signers c s = (Err MissingRequiredSignature, s).
Proof using.
  unfold vote_at. destruct (get_vote_state_handler_checked b s) as [o s1] eqn:E.
  destruct o as [h1|e|]; [|done|done]. intros [= ->] Hs.
  pose proof (checked_inv _ _ _ _ E) as [_ ->].
  unfold update_validator_identity. unfold mbind, stm_bind. rewrite E. unfold st_lift.
  unfold verify_authorized_signer. by rewrite bool_decide_false.
Qed.

Lemma update_commission_allowed e c signers es clock r s' :
  update_commission b c signers es clock r s = (Ok tt, s') -> account_allowed e signers s s'.
Proof using VL Hb Hok Hn.
  unfold update_commission. intros H. apply st_bind_Ok in H as (o & s1 & H1 & H).
  apply st_bind_Ok in H as ([] & s2 & H2 & H). apply fail_if_Ok in H2 as [_ ->].
  apply st_bind_Ok in H as (h & s3 & H3 & H). apply st_lift_Ok in H3 as [-> ->].
  unfold st_try in H1. destruct (get_vote_state_handler_checked b s) as [o s1'] eqn:E.
  destruct o; [|done|done]. injection H1 as -> ->. apply checked_inv in E as [Hh ->].
  apply verified_inv in H as [H2 H]; [|done]. eapply store_allowed; [done| |done].
  apply allowed_withdrawer; [done|left|..]; destruct h as [[[]]]; [done..|].
  intros [_ W0]. split; [|done]. unfold is_u. simpl.
  pose proof (Z.mod_pos_bound (c * 100) (u16_max + 1)). unfold u16_max in *. lia.
Qed.

Lemma update_commission_bps_allowed e c kind signers r s' :
  is_u u16_max c ->
  update_commission_bps b c kind signers r s = (Ok tt, s') -> account_allowed e signers s s'.
Proof using VL Hb Hok Hn.
  unfold update_commission_bps. intros Hc H. apply st_bind_Ok in H as ([] & s2 & H2 & H).
  apply fail_if_Ok in H2 as [_ ->]. apply load_inv in H as (h & Hh & H); [|done].
  apply verified_inv in H as [H2 H]; [|done]. eapply store_allowed; [done| |done].
  apply allowed_withdrawer; [done|left|..]; destruct h as [[[]]], kind; try done;
    by intros [? ?].
Qed.

Lemma validate_reads c r k s1 s' : validate_and_resolve_key c b r s1 = (Ok k, s') -> s' = s1.
Proof using.
  destruct c as [|c]; simpl; [by intros [= _ <-]|]. intros H.
  repeat (apply st_bind_Ok in H as (? & ? & H1 & H);
    first [apply st_gets_Ok in H1 as [_ ->] | apply fail_if_Ok in H1 as [_ ->]]).
  by apply st_gets_Ok in H as [_ ->].
Qed.

Lemma update_collector_allowed e c kind signers r s' :
  update_commission_collector b c kind signers r s = (Ok tt, s') ->
  account_allowed e signers s s'.
Proof using VL Hb Hok Hn.
  intros (h & Hh & H)%load_inv; [|done]. apply verified_inv in H as [H1 H]; [|done].
  apply st_bind_Ok in H as (k & s1 & H2 & H). apply validate_reads in H2 as ->.
  eapply store_allowed; [done| |done].
  apply allowed_withdrawer; [done|left|..]; destruct h as [[[]]], kind; done.
Qed.

(** ** Votes *)

Lemma voter_update_inv e h k h' :
  get_and_update_authorized_voter e h = Ok (k, h') ->
  epoch_voter e h = Some k /\ exists v, h' = set_authorized_voters v h.
Proof using.
  unfold get_and_update_authorized_voter, epoch_voter.
  destruct (av_get_and_cache _ _) as [[k'|] v]; [|done]. simpl. intros [= -> <-]. eauto.
Qed.

Lemma load_for_vote_inv clock signers h' s' :
  load_for_vote b clock signers s = (Ok h', s') ->
  s' = s /\ exists h v, vote_at b s = Some h /\ h' = set_authorized_voters v h /\
    voter_among (clock_epoch clock) signers h.
Proof using.
  intros (h & Hh & H)%load_inv; [|done]. apply st_bind_Ok in H as ([k h1] & s1 & H1 & H).
  apply st_lift_Ok in H1 as [H1 ->]. apply verified_inv in H as [H2 H]; [|done].
  injection H as <- <-. apply voter_update_inv in H1 as (E & v & ->).
  split; [done|]. exists h, v. split_and!; [done|done|]. by exists k.
Qed.

Lemma store_tower clock signers h' h2 s' :
  (exists h v, vote_at b s = Some h /\ h' = set_authorized_voters v h /\
    voter_among (clock_epoch clock) signers h) ->
  config h2 = config h' -> (state_ok h' -> state_ok h2) -> set_vote_account_state h2 b s = (Ok tt, s') ->
  account_allowed (clock_epoch clock) signers s s'.
Proof using VL Hb Hok Hn.
  intros (h & v & Hh & -> & Hv) Hc Hwf H. eapply store_allowed; [done| |done].
  by eapply allowed_voter.
Qed.

Lemma run_handler_Ok m h h' : run_handler m h = Ok h' -> m h = (Ok tt, h').
Proof using. unfold run_handler. destruct (m h) as [[[]|e|] h1]; [|done|done]. by intros [= ->]. Qed.

Lemma process_vote_wf vote hashes e c h h' :
  state_ok h -> process_vote vote hashes e c h = Ok h' -> state_ok h'.
Proof using VIL.
  unfold process_vote, process_vote_unfiltered. intros Hs H. do 2 (head_if H; [done|]).
  apply bind_Ok in H as ([] & _ & H).
  match type of H with process_vote_slots ?l _ _ _ = _ =>
    destruct (process_vote_slots_ok l e c h Hs) as (h1 & E1 & Hs1 & _) end.
  rewrite E1 in H. by injection H as <-.
Qed.
Lemma state_update_wf hashes e c u h h' :
  state_ok h -> do_process_vote_state_update hashes e c u h = (Ok tt, h') -> state_ok h'.
Proof using VIL.
  unfold do_process_vote_state_update. intros Hs H. apply st_bind_Ok in H as (h0 & h1 & H0 & H).
  injection H0 as <- <-. apply st_bind_Ok in H as ([l r] & h2 & H1 & H).
  apply st_lift_Ok in H1 as [_ ->]. by apply process_new_vote_state_ok in H as [? _].
Qed.

Lemma process_vote_allowed hashes clock v signers s' :
  process_vote_with_account b hashes clock v signers s = (Ok tt, s') ->
  account_allowed (clock_epoch clock) signers s s'.
Proof using VIL VL Hb Hok Hn.
  intros (h1 & s1 & [-> H1]%load_for_vote_inv & H)%st_bind_Ok.
  apply st_bind_Ok in H as (h2 & ? & H2 & H). apply st_lift_Ok in H2 as [H2 ->].
  apply st_bind_Ok in H as (h3 & ? & H3 & H). apply st_lift_Ok in H3 as [H3 ->].
  destruct (process_vote v _ _ _ h1) as [h2'|e|] eqn:E; [|done|done]. injection H2 as ->.
  assert (config h3 = config h2 /\ (state_ok h2 -> state_ok h3)) as [E3 F3].
  { destruct (vote_timestamp v); [|by injection H3 as ->].
    apply bind_Ok in H3 as (slot & _ & H3%run_handler_Ok). split; [by eapply timestamp_config|].
    apply process_timestamp_votes in H3 as (V1 & V2 & V3). unfold state_ok, handler_ok.
    by rewrite V1, V2, V3. }
  eapply store_tower; [done| | |done].
  - by rewrite E3, (process_vote_config _ _ _ _ _ _ E).
  - intros Hs. apply F3. by apply (process_vote_wf _ _ _ _ _ _ Hs E).
Qed.

Lemma process_update_allowed hashes clock u signers s' :
  process_vote_state_update b hashes clock u signers s = (Ok tt, s') ->
  account_allowed (clock_epoch clock) signers s s'.
Proof using VIL VL Hb Hok Hn.
  intros (h1 & s1 & [-> H1]%load_for_vote_inv & H)%st_bind_Ok.
  apply st_bind_Ok in H as (h2 & ? & H2 & H). apply st_lift_Ok in H2 as [H2%run_handler_Ok ->].
  eapply store_tower; [done|by eapply state_update_config| |done].
  intros Hs. by apply (state_update_wf _ _ _ _ _ _ Hs H2).
Qed.
End operations.

(** ** Instructions *)

Section instructions.
Context {SI : SvmInterface} {SY : SysvarInterface} {VI : VoteInterface}.
Context {VIL : VoteInterfaceLaws VI}.
Context {VA : VoteAccountInterface} {VL : VoteAccountLaws VA}.
Context (n : nat) (L T : Z) (ix : InstructionContext).
Context (b : BorrowedInstructionAccount) (Hb : ix_handle n ix b).
Abbreviation accs ic := (accounts (transaction_context ic)).
Abbreviation IC := (stm (InvokeContext SI) InstructionError).
Implicit Types (h : VoteStateHandler) (signers keys : gset Pubkey) (clock : Clock).
Implicit Types (ic : InvokeContext SI) (env : EnvironmentConfig).

Lemma set_new_voter_inv k e target bls verify h h' :
  set_new_authorized_voter k e target bls verify h = Ok h' ->
  exists voter v, epoch_voter e h = Some voter /\ verify voter = Ok tt /\
    (h' = set_authorized_voters v h \/ h' = set_bls_pubkey bls (set_authorized_voters v h)).
Proof using.
  unfold set_new_authorized_voter. intros H. apply bind_Ok in H as ([voter h1] & H1 & H).
  apply voter_update_inv in H1 as (E & v & ->). apply bind_Ok in H as ([] & H2 & H).
  head_if H; [done|]. injection H as <-. exists voter. eexists. split_and!; [done|done|].
  destruct h as [[[]]]. simpl. destruct bls; [right|left]; done.
Qed.

Lemma new_voter_allowed k clock target bls keys h h' :
  set_new_authorized_voter k (clock_epoch clock) target bls
    (voter_or_withdrawer (is_ok (verify_authorized_signer (authorized_withdrawer h) keys)) keys) h
    = Ok h' ->
  changes_allowed (clock_epoch clock) keys h h'.
Proof using.
  intros (voter & v & E & Hv & Hh)%set_new_voter_inv. eapply allowed_authority; [|done].
  unfold voter_or_withdrawer in Hv.
  destruct (is_ok _) eqn:Ho; [left; by apply verify_is_ok|right]. exists voter. split; [done|].
  by apply verify_Ok.
Qed.

Lemma authorize_allowed k va keys clock bls pop ic ic' :
  ta_ok L T (accs ic) -> accounts_len (accs ic) = n ->
  (forall ic, accs (pop ic).2 = accs ic) ->
  authorize b k va keys clock bls pop ic = (Ok tt, ic') ->
  account_allowed b (clock_epoch clock) keys (accs ic) (accs ic').
Proof using VL Hb.
  intros Hok Hn Hp H. apply st_bind_Ok in H as (h & ic1 & H1 & H).
  apply on_ta_Ok in H1 as (s1 & H1 & ->). apply checked_inv in H1 as [Hh ->].
  rewrite with_accounts_id in H. change (with_tx _ ic) with (with_tx (transaction_context ic) ic) in H.
  replace (with_tx (transaction_context ic) ic) with ic in H by by destruct ic.
  apply st_bind_Ok in H as (h' & ic2 & H2 & H). apply on_ta_Ok in H as (s2 & H & ->). simpl.
  assert (accs ic2 = accs ic /\ changes_allowed (clock_epoch clock) keys h h') as [E Hc].
  { destruct va as [| |args].
    - apply st_bind_Ok in H2 as ([] & ic3 & [_ ->]%fail_if_Ok & H2).
      apply st_bind_Ok in H2 as (e & ic3 & [_ ->]%st_lift_Ok & H2).
      apply st_lift_Ok in H2 as [H2 ->]. split; [done|]. by eapply new_voter_allowed.
    - apply st_bind_Ok in H2 as ([] & ic3 & [Hv ->]%st_lift_Ok & H2). injection H2 as <- <-.
      split; [done|]. apply verify_Ok in Hv.
      apply allowed_withdrawer; [done|left|..]; destruct h as [[[]]]; done.
    - apply st_bind_Ok in H2 as ([] & ic3 & [_ ->]%fail_if_Ok & H2).
      apply st_bind_Ok in H2 as (key & ic3 & Hk & H2). apply on_ta_Ok in Hk as (s3 & Hk & ->).
      apply st_gets_Ok in Hk as [_ ->].
      apply st_bind_Ok in H2 as ([] & ic4 & H3 & H2).
      apply st_bind_Ok in H3 as ([] & ic5 & H3 & [_ ->]%fail_if_Ok).
      apply st_bind_Ok in H2 as (e & ic6 & [_ ->]%st_lift_Ok & H2).
      apply st_lift_Ok in H2 as [H2 ->]. split; [|by eapply new_voter_allowed].
      pose proof (Hp (with_tx (with_accounts (accs ic) (transaction_context ic)) ic)) as E.
      by rewrite H3 in E. }
  rewrite <-E in Hok, Hn, Hh |- *. by eapply store_allowed.
Qed.

Lemma uninitialized_no_state s s' :
  check_uninitialized b s = (Ok tt, s') -> vote_at b s = None /\ s' = s.
Proof using VL.
  unfold check_uninitialized, check_vote_account_length. intros H.
  apply st_bind_Ok in H as ([] & s1 & H1 & H).
  apply st_bind_Ok in H1 as (d & s2 & [_ ->]%st_gets_Ok & [_ ->]%fail_if_Ok).
  apply st_bind_Ok in H as (v & s2 & H1 & [Hu ->]%fail_if_Ok).
  apply negb_false_iff in Hu. unfold get_state in H1.
  destruct (deserialize (get_data b s)) as [v'|] eqn:E; [|done]. injection H1 as -> <-.
  split; [|done]. unfold vote_at, get_vote_state_handler_checked.
  destruct (vote_state_deserialize (get_data b s)) as [w|e] eqn:Ew; [|done].
  rewrite (decoders_agree _ _ _ E Ew), Hu. done.
Qed.

Lemma with_tx_id ic : with_tx (with_accounts (accs ic) (transaction_context ic)) ic = ic.
Proof using. rewrite with_accounts_id. by destruct ic. Qed.

(** A step that only reads. *)
Lemma on_ta_read {A} (m : TA A) ic a ic' :
  (forall s, (m s).2 = s) -> on_ta m ic = (Ok a, ic') ->
  m (accs ic) = (Ok a, accs ic) /\ ic' = ic.
Proof using.
  intros Hm (s' & H & ->)%on_ta_Ok. pose proof (Hm (accs ic)) as E. rewrite H in E. simpl in E.
  subst s'. by rewrite with_tx_id.
Qed.

Lemma validate_state c r s : (validate_and_resolve_key c b r s).2 = s.
Proof using.
  destruct c as [|c]; [done|]. unfold validate_and_resolve_key. unfold mbind, stm_bind, st_gets.
  unfold fail_if, st_err, mret, stm_ret. by repeat case_bool.
Qed.
Lemma signing_key_reads i s : (signing_key ix i s).2 = s.
Proof using.
  unfold signing_key, key_of. unfold mbind, stm_bind, st_lift, fail_if.
  destruct (get_key_of_instruction_account ix i s) as [k|e|]; [|done|done].
  destruct (is_instruction_account_signer ix i) as [[]|e|]; done.
Qed.
Lemma expected_keys_reads seed o s : (expected_authority_keys ix seed o s).2 = s.
Proof using.
  unfold expected_authority_keys, key_of. unfold mbind, stm_bind, st_lift.
  destruct (is_instruction_account_signer ix 2) as [[]|e|]; [|done..].
  destruct (get_key_of_instruction_account ix 2 s) as [k|e|]; [|done|done].
  by destruct (create_with_seed k seed o).
Qed.

Lemma checked_sysvar_inv {A} id get env i s (a : A) s' :
  checked_sysvar id get env ix i s = (Ok a, s') -> get (sysvar_cache env) = Ok a.
Proof using. unfold checked_sysvar. intros [= H _]. by apply bind_Ok in H as ([] & _ & H). Qed.

Lemma consume_pop_accounts ic : accs (consume_pop_compute_units ic).2 = accs ic.
Proof using. unfold consume_pop_compute_units, consume_checked. by case_bool. Qed.

Lemma vote_at_dropped j s : vote_at b (drop_ref_mut j s) = vote_at b s.
Proof using. apply vote_at_data; [done|]. by apply field_alter. Qed.

(** The scope of a borrow runs on the same accounts, but for the borrow counters. *)
Lemma borrowed_inv {A} i (f : BorrowedInstructionAccount -> IC A) ic a ic' :
  ta_ok L T (accs ic) -> with_borrowed ix i f ic = (Ok a, ic') ->
  exists ia c ic2, instruction_accounts ix !! i = Some ia /\
    borrow_counters (accs ic) !! index_in_transaction ia = Some 0 /\
    ta_ok L T (with_counters (fun _ => c) (accs ic)) /\
    f (borrowed_at ix ia) (with_tx (with_accounts (with_counters (fun _ => c) (accs ic))
      (transaction_context ic)) ic) = (Ok a, ic2) /\
    accs ic' = drop_ref_mut (index_in_transaction ia) (accs ic2).
Proof using.
  intros Hok H. apply st_bind_Ok in H as (bb & ic1 & H1 & H).
  apply on_ta_Ok in H1 as (s1 & H1 & ->). unfold try_borrow_instruction_account in H1.
  apply st_bind_Ok in H1 as (ia & s2 & H1 & H2). apply st_lift_Ok in H1 as [H1 ->].
  apply ok_or_Ok in H1. pose proof (borrow_mut_run (accs ic) (index_in_transaction ia)) as Hr.
  unfold mbind, stm_bind in H2. destruct (try_borrow_mut _ _) as [[[]|e|] s2]; [|done|done].
  destruct Hr as [Hj ->]. injection H2 as <- <-. unfold st_finally in H.
  match type of H with context [f ?x ?y] => destruct (f x y) as [o ic2] eqn:E end.
  injection H as -> <-. eexists ia, _, ic2.
  split_and!; [done|done| |exact E|done]. apply with_counters_ok; [|done].
  rewrite length_insert. apply Hok.
Qed.

Lemma read_collector_inv {A} i (f : NewCommissionCollector -> IC A) ic a ic' :
  ta_ok L T (accs ic) -> read_new_collector_account ix b i f ic = (Ok a, ic') ->
  exists c ic1 ic2, ta_ok L T (accs ic1) /\ accounts_len (accs ic1) = accounts_len (accs ic) /\
    get_key b (accs ic1) = get_key b (accs ic) /\
    vote_at b (accs ic1) = vote_at b (accs ic) /\ f c ic1 = (Ok a, ic2) /\
    vote_at b (accs ic') = vote_at b (accs ic2).
Proof using.
  intros Hok H. apply st_bind_Ok in H as (k & ic1 & H1 & H).
  apply on_ta_read in H1 as [_ ->]; [|done].
  apply st_bind_Ok in H as (k2 & ic1 & H1 & H). apply on_ta_read in H1 as [_ ->]; [|done].
  destruct (k =? k2); [by exists VoteAccount, ic, ic'|].
  apply (borrowed_inv _ _ _ _ _ Hok) in H as (ia & c & ic2 & _ & _ & Hc & H & E).
  exists (NewAccount (borrowed_at ix ia)), (with_tx (with_accounts (with_counters (fun _ => c)
    (accs ic)) (transaction_context ic)) ic), ic2.
  split_and!; [exact Hc|done|done|done|exact H|]. rewrite E. apply vote_at_dropped.
Qed.

(** The keys an instruction acts for: the signers, or the derived key. *)
Definition acting_keys signers (i : VoteInstruction) (s : TransactionAccounts) : gset Pubkey :=
  let derived seed o :=
    match (expected_authority_keys ix seed o s).1 with Ok keys => keys | _ => ∅ end in
  match i with
  | AuthorizeWithSeed args =>
    derived (current_authority_derived_key_seed args) (current_authority_derived_key_owner args)
  | AuthorizeCheckedWithSeed args =>
    derived (checked_derived_key_seed args) (checked_derived_key_owner args)
  | _ => signers
  end.

Lemma authorize_with_seed_allowed env k va o seed clock ic ic' :
  ta_ok L T (accs ic) -> accounts_len (accs ic) = n ->
  get_clock (sysvar_cache env) = Ok clock ->
  process_authorize_with_seed_instruction env ix b k va o seed ic = (Ok tt, ic') ->
  exists keys, (expected_authority_keys ix seed o (accs ic)).1 = Ok keys /\
    account_allowed b (clock_epoch clock) keys (accs ic) (accs ic').
Proof using VL Hb.
  intros Hok Hn Hclock H. apply st_bind_Ok in H as (clock' & ic1 & H1 & H).
  apply on_ta_read in H1 as [H1 ->]; [|done].
  apply st_bind_Ok in H as (keys & ic1 & H2 & H).
  apply on_ta_read in H2 as [H2 ->]; [|apply expected_keys_reads].
  exists keys. rewrite H2. split; [done|]. apply checked_sysvar_inv in H1.
  rewrite Hclock in H1. injection H1 as <-.
  eapply authorize_allowed; [done|done|apply consume_pop_accounts|exact H].
Qed.

(** Splits the guards and the reads at the start of a handler. *)
Ltac skip_reads H :=
  repeat (let x := fresh "x" in let ic1 := fresh "ic" in let H1 := fresh "R" in
    lazymatch type of H with (_ ≫= _) _ = _ => apply st_bind_Ok in H as (x & ic1 & H1 & H) end;
    lazymatch type of H1 with
    | fail_if _ _ _ = _ => apply fail_if_Ok in H1 as [_ ->]
    | st_lift _ _ = _ => apply st_lift_Ok in H1 as [H1 ->]
    | on_ta _ _ = _ =>
      apply on_ta_read in H1 as [H1 ->]; [|first [done | apply signing_key_reads]]
    end).

Lemma finish_Ok m ic r ic' :
  finish (SI := SI) m ic = (Ok r, ic') -> m ic = (Ok tt, ic') /\ r = None.
Proof using.
  unfold finish. intros H. apply st_bind_Ok in H as ([] & ic1 & H1 & H). by injection H as <- <-.
Qed.

Section state.
Context (env : EnvironmentConfig) (clock : Clock) (signers : gset Pubkey).
Context (ic ic' : InvokeContext SI).
Context (Hok : ta_ok L T (accs ic)) (Hn : accounts_len (accs ic) = n).
Context (Hclock : get_clock (sysvar_cache env) = Ok clock).
Local Abbreviation allowed := (account_allowed b (clock_epoch clock) signers (accs ic) (accs ic')).

Lemma update_ix_allowed u : legacy_state_update env b u signers ic = (Ok tt, ic') -> allowed.
Proof using VIL VL Hb Hok Hn Hclock.
  unfold legacy_state_update. intros H. skip_reads H. rewrite Hclock in R0. injection R0 as <-.
  apply on_ta_Ok in H as (s' & H & ->). by eapply process_update_allowed.
Qed.
Lemma tower_sync_ix_allowed u : tower_sync_ix env b u signers ic = (Ok tt, ic') -> allowed.
Proof using VIL VL Hb Hok Hn Hclock.
  unfold tower_sync_ix. intros H. skip_reads H. rewrite Hclock in R0. injection R0 as <-.
  apply on_ta_Ok in H as (s' & H & ->). by eapply process_update_allowed.
Qed.
Lemma vote_ix_allowed v : legacy_vote env ix b v signers ic = (Ok tt, ic') -> allowed.
Proof using VIL VL Hb Hok Hn Hclock.
  unfold legacy_vote. intros H. skip_reads H. apply checked_sysvar_inv in R0.
  rewrite Hclock in R0. injection R0 as <-.
  apply on_ta_Ok in H as (s' & H & ->). by eapply process_vote_allowed.
Qed.

(** The clock of a checked accessor is the clock of the cache. *)
Lemma authorize_ix_allowed k va i (s1 : TransactionAccounts) clock' :
  checked_clock env ix i s1 = (Ok clock', s1) ->
  authorize b k va signers clock' (is_vote_authorize_with_bls_enabled env)
    consume_pop_compute_units ic = (Ok tt, ic') -> allowed.
Proof using VL Hb Hok Hn Hclock.
  intros E%checked_sysvar_inv. rewrite Hclock in E. injection E as <-.
  apply authorize_allowed; [done|done|apply consume_pop_accounts].
Qed.

Lemma same_allowed e keys s : account_allowed b e keys s s.
Proof using. intros h' Hh'. left. exists h'. split; [done|apply allowed_refl]. Qed.

Lemma initialize_ix_allowed vi clock' s1 :
  initialize_account b vi signers clock' (accs ic) = (Ok tt, s1) ->
  account_allowed b (clock_epoch clock) signers (accs ic) s1.
Proof using VL Hb Hok Hn.
  unfold initialize_account. intros H. apply st_bind_Ok in H as ([] & s2 & H1 & H).
  destruct (uninitialized_no_state _ _ H1) as [Hnone ->].
  apply verified_inv in H as [Hv H]; [|done].
  apply st_bind_Ok in H as (k & s2 & [-> ->]%st_gets_Ok & H).
  destruct (set_vote_account_state_inv _ _ _ _ _ _ _ _ _ Hb Hok Hn H) as [E _].
  intros h' Hh'. right. split; [done|]. left. exists vi, clock'. split; [congruence|done].
Qed.

Lemma initialize_v2_allowed vi c1 c2 clock' r ic1 ic2 :
  ta_ok L T (accs ic1) -> accounts_len (accs ic1) = n ->
  initialize_account_v2 b vi c1 c2 signers clock' r consume_pop_compute_units ic1
    = (Ok tt, ic2) ->
  account_allowed b (clock_epoch clock) signers (accs ic1) (accs ic2).
Proof using VL Hb.
  intros Hok1 Hn1. unfold initialize_account_v2, verify_bls_proof_of_possession. intros H.
  apply st_bind_Ok in H as ([] & ic3 & H1 & H). apply on_ta_Ok in H1 as (s1 & H1 & ->).
  destruct (uninitialized_no_state _ _ H1) as [Hnone ->]. rewrite with_tx_id in H.
  apply st_bind_Ok in H as ([] & ic3 & H2 & H). apply st_lift_Ok in H2 as [Hv%verify_Ok ->].
  do 2 (apply st_bind_Ok in H as (? & ic3 & H2 & H);
    apply on_ta_read in H2 as [_ ->]; [|apply validate_state]).
  apply st_bind_Ok in H as (k & ic3 & H2 & H). apply on_ta_read in H2 as [H2 ->]; [|done].
  injection H2 as <-. apply st_bind_Ok in H as ([] & ic3 & H2 & H).
  apply st_bind_Ok in H2 as ([] & ic4 & H2 & [Hp ->]%fail_if_Ok).
  apply negb_false_iff in Hp. pose proof (consume_pop_accounts ic1) as E. rewrite H2 in E.
  cbn [snd] in E. apply on_ta_Ok in H as (s2 & H & ->). rewrite <-E in Hok1, Hn1, Hnone, Hp |- *.
  destruct (set_vote_account_state_inv _ _ _ _ _ _ _ _ _ Hb Hok1 Hn1 H) as [Ev _].
  intros h' Hh'. change (vote_at b s2 = Some h') in Hh'. rewrite Ev in Hh'. injection Hh' as <-.
  right. split; [done|]. right. eexists vi, _, _, clock'. by split_and!.
Qed.

(** A collector account is borrowed around a part that is allowed. *)
Lemma collector_allowed i (f : NewCommissionCollector -> IC unit) ic0 ic1 :
  ta_ok L T (accs ic0) -> accounts_len (accs ic0) = n ->
  (forall c ic1 ic2, ta_ok L T (accs ic1) -> accounts_len (accs ic1) = n ->
     f c ic1 = (Ok tt, ic2) ->
     account_allowed b (clock_epoch clock) signers (accs ic1) (accs ic2)) ->
  read_new_collector_account ix b i f ic0 = (Ok tt, ic1) ->
  account_allowed b (clock_epoch clock) signers (accs ic0) (accs ic1).
Proof using.
  intros Hok0 Hn0 Hf H.
  apply read_collector_inv in H as (c & ic2 & ic3 & K1 & K2 & K3 & E1 & H & E2); [|done].
  rewrite Hn0 in K2. specialize (Hf _ _ _ K1 K2 H). intros h' Hh'. rewrite E2 in Hh'.
  rewrite <-E1, <-K3. by apply Hf.
Qed.

Lemma initialize_v2_ix_allowed vi :
  read_new_collector_account ix b 2 (fun c1 =>
    read_new_collector_account ix b 3 (fun c2 =>
      clock ← st_lift (get_clock (sysvar_cache env));
      rent ← st_lift (get_rent (sysvar_cache env));
      initialize_account_v2 b vi c1 c2 signers clock rent consume_pop_compute_units)) ic
    = (Ok tt, ic') -> allowed.
Proof using VL Hb Hok Hn.
  apply collector_allowed; [done|done|]. intros c1 ic1 ic2 K1 K2.
  apply collector_allowed; [done|done|]. intros c2 ic3 ic4 K3 K4 H. skip_reads H.
  by eapply initialize_v2_allowed.
Qed.

Lemma collector_ix_allowed kind :
  read_new_collector_account ix b 1 (fun c =>
    rent ← st_lift (get_rent (sysvar_cache env));
    on_ta (update_commission_collector b c kind signers rent)) ic = (Ok tt, ic') -> allowed.
Proof using VL Hb Hok Hn.
  apply collector_allowed; [done|done|]. intros c ic1 ic2 K1 K2 H. skip_reads H.
  apply on_ta_Ok in H as (s' & H & ->).
  exact (update_collector_allowed _ _ _ _ Hb _ _ _ K1 K2 (clock_epoch clock) _ _ _ _ _ H).
Qed.
End state.

Lemma dispatch_allowed env signers i clock ic r ic' :
  ta_ok L T (accs ic) -> accounts_len (accs ic) = n ->
  get_clock (sysvar_cache env) = Ok clock -> vote_instruction_typed i ->
  dispatch_vote env ix b signers i ic = (Ok r, ic') ->
  account_allowed b (clock_epoch clock) (acting_keys signers i (accs ic)) (accs ic) (accs ic').
Proof using VIL VL Hb.
  intros Hok Hn Hclock Ht H. destruct i; simpl in H, Ht |- *;
    try (apply finish_Ok in H as [H _]);
    try (by eapply vote_ix_allowed); try (by eapply update_ix_allowed);
    try (by eapply tower_sync_ix_allowed); skip_reads H;
    try (by eapply authorize_ix_allowed); try (by eapply initialize_v2_ix_allowed);
    try (by eapply collector_ix_allowed);
    try (apply authorize_with_seed_allowed with (clock := clock) in H as (keys & -> & H); done);
    try (apply on_ta_Ok in H as (s' & H & ->)).
  - by eapply initialize_ix_allowed.
  - unfold mret, stm_ret in H. injection H as <- <-. apply same_allowed.
  - by eapply update_validator_identity_allowed.
  - by eapply update_commission_allowed.
  - by eapply update_commission_bps_allowed.
  - unfold mret, stm_ret in H. injection H as <- <-. apply same_allowed.
Qed.
End instructions.
