(* ===== verification/VoteFunds.v ===== *)
(** * Lamports of a vote account

    A withdrawal from a vote account: exactly when it succeeds, and what it does.
    The pending rewards of the delegators can not be withdrawn, and an account that
    still earns credits can not be closed. *)

From S2P Require Import Prelude VoteInterface VoteState SvmInterface TransactionAccounts.
From S2P Require Import InstructionAccounts TransactionContext SysvarCache InvokeContext.
From S2P Require Import AccountSafety AccountRun RuntimeSafety SystemProgram.
From S2P Require Import SystemProofs SystemSpec NonceProofs VoteAccount VoteProgram.
From S2P Require Import VoteSafety VoteSpec VoteAccess.
Local Open Scope Z_scope.

Section withdraw.
Context {SI : SvmInterface} {SY : SysvarInterface} {VI : VoteInterface}.
Context {VA : VoteAccountInterface} {VL : VoteAccountLaws VA}.
Implicit Types (b : BorrowedInstructionAccount) (s : TransactionAccounts).
Implicit Types (h : VoteStateHandler) (signers : gset Pubkey) (clock : Clock).

(** What a withdrawal of [l] lamports from a balance needs: it closes an account
    that has no pending rewards and no recent credits, or it leaves the rent exempt
    minimum and the pending rewards. *)
Definition withdrawal_allowed h (bal l : Z) (size : nat) signers (r : Rent) clock : Prop :=
  authorized_withdrawer h ∈ signers /\ l <= bal /\
  if bal - l =? 0
  then pending_delegator_rewards h <= 0 /\ reject_active_vote_account_close h clock = false
  else minimum_balance r (Z.of_nat size) + pending_delegator_rewards h <= bal - l.

(** The account with its data cleared. *)
Definition wiped b s : TransactionAccounts :=
  view_write_data (get_index_in_transaction b) (replicate (length (get_data b s)) 0)
    (with_touched <[get_index_in_transaction b := true]> s).

Lemma checked_run b s :
  exists o, get_vote_state_handler_checked b s = (o, s) /\
    vote_at b s = match o with Ok h => Some h | _ => None end.
Proof using. unfold vote_at. by eexists. Qed.

Section run.
Context (n : nat) (W : nat -> Prop) (pi : nat) (b : BorrowedInstructionAccount).
Context (Hb : handle n W pi b) (L T : Z) (s : TransactionAccounts).
Context (Hok : ta_ok L T s) (Hn : accounts_len s = n).
Context (Hw : is_writable b = true) (Ho : is_owned_by_current_program b s = true).

Lemma deinitialize_run : deinitialize_vote_account_state b s = (Ok tt, wiped b s).
Proof using Hb Hok Hn Hw Ho.
  unfold deinitialize_vote_account_state, get_data_mut, can_data_be_changed. unfold mbind, stm_bind.
  rewrite Hw, Ho. cbn [negb].
  by rewrite touch_run by exact (handle_touched n W pi b Hb L T s Hok Hn).
Qed.

Lemma check_withdrawal_cases l signers r clock :
  0 <= l ->
  (exists h, vote_at b s = Some h /\
     withdrawal_allowed h (get_lamports b s) l (length (get_data b s)) signers r clock /\
     check_withdrawal b l signers r clock s =
       (Ok tt, if get_lamports b s - l =? 0 then wiped b s else s)) \/
  (forall h, vote_at b s = Some h ->
     ~ withdrawal_allowed h (get_lamports b s) l (length (get_data b s)) signers r clock) /\
  is_ok (check_withdrawal b l signers r clock s).1 = false.
Proof using Hb Hok Hn Hw Ho.
  intros Hl0. destruct (checked_run b s) as (o & E & Ev). rewrite Ev. unfold check_withdrawal.
  unfold mbind, stm_bind. rewrite E. destruct o as [h|e|]; [|by right..].
  unfold withdrawal_allowed, st_lift, verify_authorized_signer.
  case_bool_decide as Hs; [|right; split; [naive_solver|done]].
  unfold st_gets, checked_sub. destruct (Z.leb_spec l (get_lamports b s)) as [Hl|Hl]; simpl;
    [|right; split; [|done]; intros h' [= <-] (_ & ? & _); lia].
  destruct (get_lamports b s - l =? 0) eqn:Ez; unfold fail_if, st_err, mret, stm_ret.
  - destruct (Z.ltb_spec 0 (pending_delegator_rewards h));
      [right; split; [|done]; intros h' [= <-] (_ & _ & ? & _); lia|].
    destruct (reject_active_vote_account_close h clock) eqn:Er;
      [right; split; [|done]; intros h' [= <-] (_ & _ & _ & Er'); congruence|].
    left. exists h. by rewrite deinitialize_run.
  - assert (get_lamports b s <= u64_max) as Hu by by eapply get_lamports_u64.
    unfold checked_add. destruct (Z.leb_spec (minimum_balance r (Z.of_nat (length (get_data b s)))
      + pending_delegator_rewards h) u64_max) as [|Hm]; simpl.
    + destruct (Z.ltb_spec (get_lamports b s - l) (minimum_balance r
        (Z.of_nat (length (get_data b s))) + pending_delegator_rewards h)) as [Hlt|];
        [right; split; [|done]; intros h' [= <-] (_ & _ & ?); lia|left; by exists h].
    + right. split; [|done]. intros h' [= <-] (_ & _ & ?). lia.
Qed.

Lemma wiped_vote_at : vote_at b (wiped b s) = None.
Proof using VL Hb Hok Hn.
  unfold vote_at, get_vote_state_handler_checked, wiped, get_data. simpl.
  rewrite lookup_total_alter_eq by (eapply handle_present; done). simpl.
  destruct (vote_state_deserialize _) as [v|e] eqn:E; [|done].
  by rewrite (zeros_uninitialized _ _ E).
Qed.
End run.

Lemma cf_deinitialize b : counter_free (deinitialize_vote_account_state b).
Proof using.
  apply cf_bind; [apply cf_get_data_mut|]. intros _. apply cf_bind; [by apply cf_gets|].
  intros d. by apply cf_modify.
Qed.
Lemma cf_vote_withdrawal b l signers r clock :
  counter_free (check_withdrawal b l signers r clock).
Proof using.
  unfold check_withdrawal.
  repeat first [apply cf_deinitialize | apply cf_bind; [|intros ?] | by apply cf_gets
    | apply cf_lift | apply cf_fail_if | by apply cf_reads | case_bool].
Qed.

(** ** The whole withdrawal *)

Lemma pay_vote_at b i d s : vote_at b (pay i d s) = vote_at b s.
Proof using.
  apply vote_at_data; [exact (pay_data i d (get_index_in_transaction b) s)|].
  unfold pay. case_bool; [done|]. by apply (field_alter key).
Qed.

Section transfer.
Context (ix : InstructionContext) (from to : nat) (f t : InstructionAccount).
Context (L T : Z) (s : TransactionAccounts) (l : Z).
Abbreviation fi := (index_in_transaction f).
Abbreviation ti := (index_in_transaction t).
Abbreviation me := (borrowed_at ix f).
Hypothesis Hok : ta_ok L T s.
Hypothesis Hf : instruction_accounts ix !! from = Some f.
Hypothesis Ht : instruction_accounts ix !! to = Some t.
Hypothesis Hcf : borrow_counters s !! fi = Some 0.
Hypothesis Hct : borrow_counters s !! ti = Some 0.
Hypothesis Hl : 0 <= l.
Hypothesis Hw : is_writable me = true.
Hypothesis Ho : is_owned_by_current_program me s = true.

Lemma debit_vote_run signers r clock :
  with_account ix from (fun vote_account =>
    check_withdrawal vote_account l signers r clock ;;
    checked_sub_lamports vote_account l) s =
  (check_withdrawal me l signers r clock ;; checked_sub_lamports me l) s.
Proof using Hok Hf Hcf Hl.
  pose proof (handle_at ix _ _ _ _ _ _ Hok eq_refl Hf Hcf) as Hh.
  apply (with_account_run L T (accounts_len s) ix from f); [done|done|done|done|..].
  - apply cf_bind; [apply cf_vote_withdrawal|]. intros _. apply cf_checked_sub.
  - apply ix_safe_bind; [by apply check_withdrawal_safe|]. intros _.
    by apply checked_sub_lamports_safe.
Qed.

Lemma withdraw_run signers r clock :
  withdraw ix from l to signers r clock s =
  match check_withdrawal me l signers r clock s with
  | (Ok _, s1) =>
    let s2 := pay fi (- l) s1 in
    if u64_max <? balance ti s2 + l then (Err ArithmeticOverflow, s2)
    else if negb (ia_is_writable t) then (Err ReadonlyLamportChange, s2)
    else (Ok tt, pay ti l s2)
  | (Err e, s1) => (Err e, s1)
  | (Panic, s1) => (Panic, s1)
  end.
Proof using Hok Hf Ht Hcf Hct Hl Hw Ho.
  pose proof (handle_at ix _ _ _ _ _ _ Hok eq_refl Hf Hcf) as Hh.
  unfold withdraw, mbind at 1, stm_bind at 1. rewrite debit_vote_run.
  unfold mbind at 1, stm_bind at 1.
  pose proof (check_withdrawal_safe (accounts_len s) ix me Hh l signers r clock L T s Hok eq_refl)
    as [Hok1 He1 _].
  pose proof (check_withdrawal_cases _ _ _ me Hh L T s Hok eq_refl Hw Ho l signers r clock Hl)
    as Hcase.
  destruct (check_withdrawal me l signers r clock s) as [[[]|e|] s1]; [|done|done].
  cbn [snd] in Hok1, He1. destruct Hcase as [(h & _ & (_ & Hle & _) & [= Es1])|[_ [=]]].
  assert (shared_account_fields s1 = shared_account_fields s) as Esh by (rewrite Es1; by case_bool).
  assert (accounts_len s1 = accounts_len s) as Hn1 by (unfold accounts_len; by rewrite Esh).
  pose proof (checked_sub_lamports_safe (accounts_len s) _ _ _ Hh l Hl L T s1 Hok1 Hn1)
    as [Hok2 He2 _].
  rewrite (checked_sub_run (accounts_len s) _ _ _ Hh L T s1 Hok1 Hn1 l Hl) in Hok2, He2 |- *.
  assert (balance (get_index_in_transaction me) s1 = get_lamports me s) as Eb
    by (unfold balance; by rewrite Esh).
  assert (is_owned_by_current_program me s1 = true) as Ho1.
  { rewrite <-Ho. unfold is_owned_by_current_program, get_key_of_account_at_index, account_key,
      get_owner. by rewrite Esh. }
  rewrite Eb, Ho1, Hw in Hok2, He2 |- *. cbn [negb andb] in *.
  destruct (Z.ltb_spec (get_lamports me s) l); [lia|]. cbn [fst snd] in *.
  rewrite (credit_run ix L T (accounts_len s) _ to t l); [done|done| |done| |done].
  - by rewrite pay_len.
  - rewrite pay_counters, (counters_kept _ _ _ He1). done.
Qed.

(** The accounts after a withdrawal, from the checks on. *)
Lemma withdrawn_state s1 :
  fi <> ti -> (fi < accounts_len s)%nat -> (ti < accounts_len s)%nat ->
  s1 = (if get_lamports me s - l =? 0 then wiped me s else s) ->
  let s' := pay ti l (pay fi (- l) s1) in
  balance fi s' = balance fi s - l /\ balance ti s' = balance ti s + l /\
  (forall j, j <> fi -> j <> ti -> balance j s' = balance j s) /\
  (forall j, j <> fi -> data_at j s' = data_at j s) /\
  vote_at me s' = if balance fi s - l =? 0 then None else vote_at me s.
Proof using VL Hok Hf Hcf.
  intros Hne Lf Lt E s'. pose proof (handle_at ix _ _ _ _ _ _ Hok eq_refl Hf Hcf) as Hh.
  assert (shared_account_fields s1 = shared_account_fields s) as Esh
    by (rewrite E; by case_bool).
  assert (accounts_len s1 = accounts_len s) as Hn1 by (unfold accounts_len; by rewrite Esh).
  assert (forall j, balance j s' = balance j s + (if decide (fi = j) then - l else 0)
    + (if decide (ti = j) then l else 0)) as Eb.
  { intros j. unfold s'. rewrite !balance_pay by (rewrite ?pay_len, Hn1; done).
    unfold balance. by rewrite Esh. }
  split_and!.
  - rewrite Eb, decide_True, decide_False by done. lia.
  - rewrite Eb, decide_False, decide_True by done. lia.
  - intros j H1 H2. rewrite Eb, !decide_False by done. lia.
  - intros j Hj. unfold s'. rewrite !pay_data, E. case_bool; [|done].
    unfold data_at, wiped. simpl. by rewrite lookup_total_alter_ne.
  - transitivity (vote_at me s1).
    + unfold s'. by rewrite !pay_vote_at.
    + rewrite E. change (get_lamports me s) with (balance fi s). case_bool; [|done].
      by eapply wiped_vote_at.
Qed.
End transfer.
End withdraw.
