(* ===== verification/VoteInstructions.v ===== *)
(** * Whole vote instructions

    The access control of [VoteAccess] for an instruction from its start to its end,
    with the part that runs after the vote account is released. *)

From S2P Require Import Prelude VoteInterface VoteState SvmInterface TransactionAccounts.
From S2P Require Import InstructionAccounts TransactionContext SysvarCache InvokeContext.
From S2P Require Import AccountSafety AccountRun RuntimeSafety SystemProgram.
From S2P Require Import SystemProofs SystemSpec NonceProofs VoteAccount VoteProgram.
From S2P Require Import VoteStateProofs VoteSafety VoteSpec VoteAccess VoteFunds.
Local Open Scope Z_scope.

Section lamports.
Context {SI : SvmInterface} {SY : SysvarInterface} {VI : VoteInterface}.
Context {VA : VoteAccountInterface} {VL : VoteAccountLaws VA}.
Implicit Types (b : BorrowedInstructionAccount) (s : TransactionAccounts).

(** Two states of the accounts with the same keys and data. *)
Definition same_data s s' : Prop :=
  private_account_fields s' = private_account_fields s /\
  key <$> shared_account_fields s' = key <$> shared_account_fields s.

Lemma same_data_vote_at b s s' : same_data s s' -> vote_at b s' = vote_at b s.
Proof using.
  intros [H1 H2]. apply vote_at_data; unfold get_data, get_key; [by rewrite H1|].
  rewrite !list_lookup_total_alt. set (j := get_index_in_transaction b).
  pose proof (f_equal (fun l => l !! j) H2) as E. cbv beta in E. rewrite !list_lookup_fmap in E.
  by destruct (shared_account_fields s' !! j), (shared_account_fields s !! j); simplify_eq/=.
Qed.

Lemma same_data_trans s1 s2 s3 : same_data s1 s2 -> same_data s2 s3 -> same_data s1 s3.
Proof using. intros [H1 H2] [H3 H4]. split; congruence. Qed.

Lemma alter_keys f i (l : list AccountSharedFields) :
  (forall a, key (f a) = key a) -> key <$> alter f i l = key <$> l.
Proof using.
  intros Hf. apply list_eq. intros j. rewrite !list_lookup_fmap. by apply field_alter_lookup.
Qed.

Lemma set_lamports_data b x s s' : set_lamports b x s = (Ok tt, s') -> same_data s s'.
Proof using.
  unfold set_lamports. intros H. do 2 (head_if H; [done|]). head_if H; [by simplify_eq|].
  apply st_bind_Ok in H as ([] & s1 & H1 & H). unfold add_lamports_delta in H1.
  destruct (checked_add_i128 _ _); [|done]. injection H1 as <-.
  apply st_bind_Ok in H as ([] & s2 & H2 & H). unfold borrowed_touch, touch in H2.
  destruct (touched_flags _ !! _); [|done]. injection H2 as <-. injection H as <-.
  split; [done|]. simpl. by apply alter_keys.
Qed.

Lemma checked_sub_data b x s s' : checked_sub_lamports b x s = (Ok tt, s') -> same_data s s'.
Proof using.
  unfold checked_sub_lamports. destruct (checked_sub _ _); [|done]. apply set_lamports_data.
Qed.
Lemma checked_add_data b x s s' : checked_add_lamports b x s = (Ok tt, s') -> same_data s s'.
Proof using.
  unfold checked_add_lamports. destruct (checked_add _ _ _); [|done]. apply set_lamports_data.
Qed.

Lemma dropped_data j s : same_data s (drop_ref_mut j s).
Proof using. split; [done|]. simpl. by apply alter_keys. Qed.

(** The scope of a borrow, as [borrowed_inv] for a computation on the accounts. *)
Lemma account_inv {A} ix i (f : BorrowedInstructionAccount -> TA A) s a s' L T :
  ta_ok L T s -> with_account ix i f s = (Ok a, s') ->
  exists ia c s2, instruction_accounts ix !! i = Some ia /\
    borrow_counters s !! index_in_transaction ia = Some 0 /\
    ta_ok L T (with_counters (fun _ => c) s) /\
    f (borrowed_at ix ia) (with_counters (fun _ => c) s) = (Ok a, s2) /\
    s' = drop_ref_mut (index_in_transaction ia) s2.
Proof using.
  intros Hok H. apply st_bind_Ok in H as (bb & s1 & H1 & H).
  unfold try_borrow_instruction_account in H1.
  apply st_bind_Ok in H1 as (ia & s2 & H1 & H2). apply st_lift_Ok in H1 as [H1 ->].
  apply ok_or_Ok in H1. pose proof (borrow_mut_run s (index_in_transaction ia)) as Hr.
  unfold mbind, stm_bind in H2. destruct (try_borrow_mut _ _) as [[[]|e|] s2]; [|done|done].
  destruct Hr as [Hj ->]. injection H2 as <- <-. unfold st_finally in H.
  match type of H with context [f ?x ?y] => destruct (f x y) as [o s2] eqn:E end.
  injection H as -> <-. eexists ia, _, s2.
  split_and!; [done|done| |exact E|done]. apply with_counters_ok; [|done].
  rewrite length_insert. apply Hok.
Qed.

(** After the checks of a withdrawal the state is the same, or there is none. *)
Lemma check_withdrawal_state n W pi b l signers r clock L T s s' :
  handle n W pi b -> ta_ok L T s -> accounts_len s = n ->
  check_withdrawal b l signers r clock s = (Ok tt, s') ->
  s' = s \/ vote_at b s' = None.
Proof using VL.
  intros Hb Hok Hn H. apply load_inv in H as (h & Hh & H); [|done].
  apply verified_inv in H as [_ H]; [|done].
  apply st_bind_Ok in H as (bal & s1 & [-> ->]%st_gets_Ok & H).
  apply st_bind_Ok in H as (rem & s1 & [_ ->]%st_lift_Ok & H). head_if H.
  - apply st_bind_Ok in H as ([] & s1 & [_ ->]%fail_if_Ok & H).
    apply st_bind_Ok in H as ([] & s1 & [_ ->]%fail_if_Ok & H). right.
    destruct (is_writable b) eqn:Hw;
      [|by unfold deinitialize_vote_account_state, get_data_mut, can_data_be_changed, mbind,
          stm_bind in H; rewrite Hw in H].
    destruct (is_owned_by_current_program b s) eqn:Ho;
      [|by unfold deinitialize_vote_account_state, get_data_mut, can_data_be_changed, mbind,
          stm_bind in H; rewrite Hw, Ho in H].
    rewrite (deinitialize_run n W pi b Hb L T s Hok Hn Hw Ho) in H. injection H as <-.
    by eapply wiped_vote_at.
  - apply st_bind_Ok in H as (d & s1 & [-> ->]%st_gets_Ok & H).
    apply st_bind_Ok in H as (m & s1 & [_ ->]%st_lift_Ok & [_ ->]%fail_if_Ok). by left.
Qed.

Lemma withdraw_state ix ia l j signers r clock L T s s' :
  ta_ok L T s -> 0 <= l -> instruction_accounts ix !! 0%nat = Some ia ->
  withdraw ix 0 l j signers r clock s = (Ok tt, s') ->
  vote_at (borrowed_at ix ia) s' = vote_at (borrowed_at ix ia) s \/
  vote_at (borrowed_at ix ia) s' = None.
Proof using VL.
  intros Hok Hl Hia H. apply st_bind_Ok in H as ([] & s1 & H1 & H).
  assert (ta_ok L T s1) as Hok1.
  { assert (ix_safe (accounts_len s) ix (with_account ix 0 (fun vote_account =>
      check_withdrawal vote_account l signers r clock ;; checked_sub_lamports vote_account l)))
      as Hs by (repeat safe_step; [by apply check_withdrawal_safe|done]).
    specialize (Hs L T s Hok eq_refl) as [Hs _ _]. by rewrite H1 in Hs. }
  apply (account_inv ix _ _ _ _ _ L T Hok) in H1 as (ia' & c & s2 & E & Hc & Hokc & H1 & ->).
  rewrite Hia in E. injection E as <-.
  pose proof (handle_at ix _ _ _ _ _ _ Hok eq_refl Hia Hc) as Hh.
  apply (account_inv ix _ _ _ _ _ L T Hok1) in H as (ta & c' & s3 & _ & _ & _ & H & ->).
  apply st_bind_Ok in H1 as ([] & s4 & H1 & H2).
  apply checked_add_data in H. apply checked_sub_data in H2.
  assert (vote_at (borrowed_at ix ia) (drop_ref_mut (index_in_transaction ta) s3) =
    vote_at (borrowed_at ix ia) s4) as ->.
  { apply same_data_vote_at. eapply same_data_trans; [exact H2|].
    eapply same_data_trans; [apply (dropped_data (index_in_transaction ia))|].
    eapply same_data_trans; [|apply dropped_data]. destruct H as [K1 K2]. by split. }
  destruct (check_withdrawal_state _ _ _ _ _ _ _ _ _ _ _ _ Hh Hokc eq_refl H1) as [->|]; auto.
Qed.
End lamports.

Section deposit.
Context {SI : SvmInterface} {SY : SysvarInterface} {VI : VoteInterface}.
Context {VA : VoteAccountInterface} {VL : VoteAccountLaws VA}.
Hypothesis transfer_metas : forall from to l,
  Z.of_nat (length (metas (system_transfer from to l))) <= u16_max.
Abbreviation accs ic := (accounts (transaction_context ic)).

Lemma load_v4_inv b s h s' : load_v4 b s = (Ok h, s') -> s' = s /\ vote_at b s = Some h.
Proof using VL.
  unfold load_v4, vote_at, get_vote_state_handler_checked. intros [= H <-]. split; [done|].
  destruct (vote_state_deserialize (get_data b s)) as [[| | |v]|e]; [done..| |done].
  injection H as <-. by rewrite v4_initialized.
Qed.

Lemma current_Ok ic ix ic1 (r : InstructionContext) :
  get_current_instruction_context (transaction_context ic) = Ok ix ->
  current_instruction ic = (Ok r, ic1) -> r = ix /\ ic1 = ic.
Proof using. unfold current_instruction. intros ->. by intros [= <- <-]. Qed.

(** Loading the state leaves a transaction from which an invocation can run. *)
Lemma load_state ix ia L T ic h ic' :
  tx_ok L T (transaction_context ic) -> synced (transaction_context ic) ->
  get_current_instruction_context (transaction_context ic) = Ok ix ->
  instruction_accounts ix !! 0%nat = Some ia ->
  on_ta (with_account ix 0 load_v4) ic = (Ok h, ic') ->
  vote_at (borrowed_at ix ia) (accs ic) = Some h /\ accounts_len (accs ic') = accounts_len (accs ic) /\
  frame_step L T (transaction_context ic) (transaction_context ic').
Proof using VL.
  intros Hok Hs Hc Hia H.
  destruct (within_accounts (accounts_len (accs ic)) ix (with_account ix 0 load_v4)
    (with_account_safe _ _ _ _ (fun b _ => safe_read _ _ _ (load_v4 b) (fun s => eq_refl)))
    L T ic Hok Hs eq_refl Hc) as [S1 S2]. rewrite H in S1, S2. specialize (S2 eq_refl).
  apply on_ta_Ok in H as (s1 & H & Eic). pose proof (tx_accounts _ _ _ Hok) as Ha.
  apply (account_inv ix _ _ _ _ _ L T Ha) in H as (ia' & c & s2 & E & _ & _ & H & ->).
  rewrite Hia in E. injection E as <-. apply load_v4_inv in H as [-> Hh].
  split_and!; [done|exact (rt_len _ _ _ (as_evolves _ _ _ _ _ S1))|done].
Qed.

Lemma store_pending ix ia d h L T ic ic' :
  ta_ok L T (accs ic) -> instruction_accounts ix !! 0%nat = Some ia ->
  on_ta (with_account ix 0 (fun vote_account =>
    vote_state ← st_lift (add_pending_delegator_rewards d h);
    set_vote_account_state vote_state vote_account)) ic = (Ok tt, ic') ->
  pending_delegator_rewards h + d <= u64_max /\
  vote_at (borrowed_at ix ia) (accs ic') = Some (set_pending (pending_delegator_rewards h + d) h).
Proof using VL.
  intros Ha Hia H. apply on_ta_Ok in H as (s3 & H & ->).
  apply (account_inv ix _ _ _ _ _ L T Ha) in H as (ia' & c' & s4 & E & Hj & Ha3 & H & ->).
  rewrite Hia in E. injection E as <-. apply st_bind_Ok in H as (h2 & s5 & H3 & H).
  apply st_lift_Ok in H3 as [H3 ->]. unfold add_pending_delegator_rewards, checked_add in H3.
  destruct (Z.leb_spec (pending_delegator_rewards h + d) u64_max); [|done]. injection H3 as <-.
  pose proof (handle_at ix _ _ _ _ _ _ Ha eq_refl Hia Hj) as Hh.
  apply (set_vote_account_state_inv _ _ _ _ _ _ _ _ _ Hh Ha3 eq_refl) in H as [H _].
  split; [done|]. simpl. by rewrite vote_at_dropped.
Qed.

Lemma deposit_state invoke ix ia d signers L T ic ic' :
  cpi_ok invoke -> tx_ok L T (transaction_context ic) -> synced (transaction_context ic) ->
  get_current_instruction_context (transaction_context ic) = Ok ix ->
  instruction_accounts ix !! 0%nat = Some ia ->
  deposit_delegator_rewards invoke 0 1 d signers ic = (Ok tt, ic') ->
  exists h k, vote_at (borrowed_at ix ia) (accs ic) = Some h /\
    get_key_of_instruction_account ix 1 (accs ic) = Ok k /\ k ∈ signers /\
    pending_delegator_rewards h + d <= u64_max /\
    vote_at (borrowed_at ix ia) (accs ic') =
      Some (set_pending (pending_delegator_rewards h + d) h).
Proof using VL transfer_metas.
  intros Hi Hok Hs Hc Hia H. apply st_bind_Ok in H as (ix1 & ic1 & H1 & H).
  apply (current_Ok _ _ _ _ Hc) in H1 as [-> ->].
  apply st_bind_Ok in H as (vk & ic1 & H1 & H). apply on_ta_read in H1 as [_ ->]; [|done].
  apply st_bind_Ok in H as (k & ic1 & H1 & H). apply on_ta_read in H1 as [Hk ->]; [|done].
  injection Hk as Hk. apply st_bind_Ok in H as ([] & ic1 & H1 & H).
  apply st_lift_Ok in H1 as [Hv%verify_Ok ->]. apply st_bind_Ok in H as (h & ic1 & H1 & H).
  destruct (load_state _ _ _ _ _ _ _ Hok Hs Hc Hia H1) as (Hh & Hl & [O1 O2 O3]).
  pose proof (current_kept _ _ _ _ _ Hok O2 Hc) as Hc1.
  apply st_bind_Ok in H as ([] & ic2 & H2 & H).
  destruct (Hi (accounts_len (accs ic)) _ [] ix (transfer_metas k vk d) L T ic1 O1 O3 Hl Hc1)
    as [_ S4]. rewrite H2 in S4. specialize (S4 eq_refl) as [P1 P2 P3]. cbn [snd] in P1, P2.
  apply st_bind_Ok in H as (ix2 & ic3 & H3 & H).
  apply (current_Ok _ _ _ _ (current_kept _ _ _ _ _ O1 P2 Hc1)) in H3 as [-> ->].
  destruct (store_pending _ _ _ _ _ _ _ _ (tx_accounts _ _ _ P1) Hia H) as [Hu Hp].
  by exists h, k.
Qed.
End deposit.

(** ** From the start to the end *)

Section instruction.
Context {SI : SvmInterface} {SY : SysvarInterface} {VI : VoteInterface}.
Context {VIL : VoteInterfaceLaws VI}.
Context {VA : VoteAccountInterface} {VL : VoteAccountLaws VA}.
Context (decode_vote_instruction : list Z -> Z -> option VoteInstruction).
Hypothesis decode_typed : forall d limit i,
  decode_vote_instruction d limit = Some i -> vote_instruction_typed i.
Hypothesis transfer_metas : forall from to l,
  Z.of_nat (length (metas (system_transfer from to l))) <= u16_max.
Abbreviation accs ic := (accounts (transaction_context ic)).

Lemma signers_keys ix s s' :
  (forall j, account_key j s' = account_key j s) -> get_signers ix s' = get_signers ix s.
Proof using.
  intros Hk. unfold get_signers. generalize (∅ : gset Pubkey).
  induction (instruction_accounts ix) as [|ia ias IH]; intros acc; [done|]. simpl.
  case_bool; [|done]. unfold get_key_of_account_at_index. rewrite Hk.
  by destruct (account_key _ s); simpl.
Qed.

Lemma acting_keys_counters ix signers i c s :
  acting_keys ix signers i (with_counters (fun _ => c) s) = acting_keys ix signers i s.
Proof using.
  assert (forall seed o, (expected_authority_keys ix seed o (with_counters (fun _ => c) s)).1 =
    (expected_authority_keys ix seed o s).1) as E.
  { intros seed o. unfold expected_authority_keys, key_of. unfold mbind, stm_bind, st_lift.
    destruct (is_instruction_account_signer ix 2) as [[]|e|]; [|done..].
    change (get_key_of_instruction_account ix 2 (with_counters (fun _ => c) s))
      with (get_key_of_instruction_account ix 2 s).
    destruct (get_key_of_instruction_account ix 2 s) as [k|e|]; [|done|done].
    by destruct (create_with_seed k seed o). }
  destruct i; simpl; by rewrite ?E.
Qed.

(** What an instruction leaves to do. *)
Lemma dispatch_rest env ix me signers i ic r ic' :
  dispatch_vote env ix me signers i ic = (Ok r, ic') ->
  match i with
  | Withdraw l => exists rent clock, r = Some (WithdrawReleased l rent clock)
  | DepositDelegatorRewards d => r = Some (DepositReleased d) /\ ic' = ic
  | _ => r = None
  end.
Proof using.
  destruct i; simpl; try (by intros [_ ->]%finish_Ok).
  - intros H. inv_ok. eauto.
  - intros H. apply st_bind_Ok in H as ([] & ic1 & [_ ->]%fail_if_Ok & H).
    apply st_bind_Ok in H as ([] & ic1 & H1 & H). apply on_ta_read in H1 as [_ ->]; [|done].
    unfold mret, stm_ret in H. by injection H as <- <-.
Qed.

Lemma run_borrowed_inv env ix ia i signers clock L T ic signers' r ic1 :
  ta_ok L T (accs ic) -> get_clock (sysvar_cache env) = Ok clock ->
  instruction_accounts ix !! 0%nat = Some ia ->
  decode_vote_instruction (instruction_data ix) PACKET_DATA_SIZE = Some i ->
  get_signers ix (accs ic) = Ok signers ->
  run_borrowed decode_vote_instruction env ix ic = (Ok (signers', r), ic1) ->
  owner_at (index_in_transaction ia) (accs ic) = vote_program_id /\ signers' = signers /\
  account_allowed (borrowed_at ix ia) (clock_epoch clock) (acting_keys ix signers i (accs ic))
    (accs ic) (accs ic1) /\
  match i with
  | Withdraw l => exists rent clock, r = Some (WithdrawReleased l rent clock)
  | DepositDelegatorRewards d => r = Some (DepositReleased d) /\
      vote_at (borrowed_at ix ia) (accs ic1) = vote_at (borrowed_at ix ia) (accs ic) /\
      get_key_of_instruction_account ix 1 (accs ic1) = get_key_of_instruction_account ix 1 (accs ic)
  | _ => r = None
  end.
Proof using VIL VL decode_typed.
  intros Hok Hclock Hia Hdec Hsig H.
  apply (borrowed_inv _ _ _ _ _ _ _ _ Hok) in H as (ia' & c & ic2 & E & Hj & Hokc & H & Ed).
  rewrite Hia in E. injection E as <-.
  pose proof (handle_at ix _ _ _ _ _ _ Hok eq_refl Hia Hj) as Hh.
  apply st_bind_Ok in H as (o & ic3 & H1 & H). apply on_ta_read in H1 as [H1 ->]; [|done].
  injection H1 as H1. apply st_bind_Ok in H as ([] & ic3 & [Hown ->]%fail_if_Ok & H).
  apply st_bind_Ok in H as (sg & ic3 & H2 & H). apply on_ta_read in H2 as [H2 ->]; [|done].
  injection H2 as H2. apply st_bind_Ok in H as (i' & ic3 & H3 & H).
  apply st_lift_Ok in H3 as [H3 ->]. rewrite Hdec in H3. injection H3 as <-.
  apply st_bind_Ok in H as (rel & ic3 & H3 & H). unfold mret, stm_ret in H.
  injection H as <- <- <-. rewrite (signers_keys ix (accs ic)), Hsig in H2 by done. injection H2 as <-.
  split_and!; [|done| |].
  - apply negb_false_iff, Z.eqb_eq in Hown. by rewrite <-Hown, <-H1.
  - intros h' Hv'. rewrite Ed, vote_at_dropped in Hv'.
    rewrite <-(acting_keys_counters ix signers i c).
    by apply (dispatch_allowed _ L T ix _ Hh env signers i clock
      (with_tx (with_accounts (with_counters (fun _ => c) (accs ic)) (transaction_context ic)) ic)
      rel ic3 Hokc eq_refl Hclock (decode_typed _ _ _ Hdec) H3).
  - apply dispatch_rest in H3. destruct i; try done. destruct H3 as [-> ->].
    split_and!; [done|by rewrite Ed, vote_at_dropped|]. rewrite Ed.
    unfold get_key_of_instruction_account. destruct (get_index_of_instruction_account_in_transaction ix 1)
      as [j|e|]; [|done|done]. simpl. unfold get_key_of_account_at_index, account_key. simpl.
    by rewrite (field_alter_lookup key).
Qed.

(** The signatures behind the state that a vote account holds after an instruction. *)
Definition state_authorized (ix : InstructionContext) (ia : InstructionAccount)
    (i : VoteInstruction) (signers : gset Pubkey) (clock : Clock) (s : TransactionAccounts)
    (h' : VoteStateHandler) : Prop :=
  let me := borrowed_at ix ia in
  match i with
  | DepositDelegatorRewards d =>
    (exists k, get_key_of_instruction_account ix 1 s = Ok k /\ k ∈ signers) /\
    exists h, vote_at me s = Some h /\
      h' = set_pending (pending_delegator_rewards h + d) h /\
      pending_delegator_rewards h + d <= u64_max
  | _ =>
    let keys := acting_keys ix signers i s in
    (exists h, vote_at me s = Some h /\ changes_allowed (clock_epoch clock) keys h h') \/
    (vote_at me s = None /\ fresh_state keys (get_key me s) h')
  end.

Lemma set_pending_wf x h : is_u u64_max x -> vote_wf h -> vote_wf (set_pending x h).
Proof using. intros Hx (W1 & W2 & W3). destruct h as [[[]]]. by split_and!. Qed.

Lemma state_authorized_wf ix ia i signers clock s h' :
  (forall k vote_init clock, vote_wf (new_v4 (V4_new_with_defaults k vote_init clock))) ->
  (forall vote_init c1 c2 clock, vote_wf (new_v4 (V4_new vote_init c1 c2 clock))) ->
  vote_instruction_typed i -> (forall h, vote_at (borrowed_at ix ia) s = Some h -> vote_wf h) ->
  state_authorized ix ia i signers clock s h' -> vote_wf h'.
Proof using.
  intros Hnew1 Hnew2 Ht Hwf Ha.
  assert (forall keys, (exists h, vote_at (borrowed_at ix ia) s = Some h /\
    changes_allowed (clock_epoch clock) keys h h') \/ (vote_at (borrowed_at ix ia) s = None /\
    fresh_state keys (get_key (borrowed_at ix ia) s) h') -> vote_wf h') as Hgen.
  { intros keys [(h & Hh & Hc)|[_ [(vi & c & -> & _)|(vi & c1 & c2 & c & -> & _)]]]; [|done|done].
    apply (ca_wf _ _ _ _ Hc). by apply Hwf. }
  destruct i; try (by eapply Hgen). destruct Ha as (_ & h & Hh & -> & Hu).
  specialize (Hwf h Hh). simpl in Ht. apply set_pending_wf; [|done].
  destruct Hwf as (_ & _ & [? ?]), Ht. unfold is_u. lia.
Qed.

Lemma vote_instruction_access env invoke ix ia i signers clock L T ic ic' :
  cpi_ok invoke -> tx_ok L T (transaction_context ic) -> synced (transaction_context ic) ->
  get_current_instruction_context (transaction_context ic) = Ok ix ->
  get_clock (sysvar_cache env) = Ok clock ->
  instruction_accounts ix !! 0%nat = Some ia ->
  decode_vote_instruction (instruction_data ix) PACKET_DATA_SIZE = Some i ->
  get_signers ix (accs ic) = Ok signers ->
  vote_instruction decode_vote_instruction env invoke ix ic = (Ok tt, ic') ->
  owner_at (index_in_transaction ia) (accs ic) = vote_program_id /\
  forall h', vote_at (borrowed_at ix ia) (accs ic') = Some h' ->
    state_authorized ix ia i signers clock (accs ic) h'.
Proof using VIL VL decode_typed transfer_metas.
  intros Hi Hok Hs Hc Hclock Hia Hdec Hsig H.
  apply st_bind_Ok in H as ([sg r] & ic1 & H1 & H).
  destruct (run_borrowed_within decode_vote_instruction (accounts_len (accs ic)) env ix L T ic
    Hok Hs eq_refl Hc) as [S1 S2]. rewrite H1 in S1, S2. specialize (S2 eq_refl) as [O1 O2 O3].
  pose proof (current_kept _ _ _ _ _ Hok O2 Hc) as Hc1. cbn [snd] in O1, O3, Hc1.
  destruct (run_borrowed_inv _ _ _ _ _ _ _ _ _ _ _ _ (tx_accounts _ _ _ Hok) Hclock Hia Hdec
    Hsig H1) as (Hown & -> & Hall & Hr). split; [done|]. intros h' Hh'.
  destruct i as [| | |l| | | | | | | | | | | | | | | |d];
    try (subst r; unfold mret, stm_ret in H; injection H as <-; by apply Hall).
  - destruct Hr as (rent & cl & ->). apply on_ta_Ok in H as (s' & H & ->). simpl in Hh'.
    apply withdraw_state with (ia := ia) (L := L) (T := T) in H;
      [|apply O1|by destruct (decode_typed _ _ _ Hdec)|done].
    destruct H as [H|H]; rewrite H in Hh'; [|done]. by apply Hall.
  - destruct Hr as (-> & Ev & Ek).
    destruct (deposit_state transfer_metas _ _ _ _ _ _ _ _ _ Hi O1 O3 Hc1 Hia H)
      as (h0 & k & Hv & Hk & Hsg & Hu & Hp). rewrite Hh' in Hp. injection Hp as ->.
    split; [exists k; by rewrite <-Ek|]. exists h0. by rewrite <-Ev.
Qed.
End instruction.
