(* ===== verification/VoteModel.v ===== *)
(** * A concrete instance of the vote account interface

    A vote state is stored as fourteen words; the laws of [VoteSpec] hold, and the
    vote program can be run on a concrete transaction. *)

From S2P Require Import Prelude VoteInterface VoteState SvmInterface TransactionAccounts.
From S2P Require Import InstructionAccounts TransactionContext SysvarCache InvokeContext.
From S2P Require Import AccountSafety RuntimeSafety SystemProgram SvmModel VoteAccount VoteProgram.
From S2P Require Import Programs MessageProofs VoteStateProofs VoteSafety VoteSpec VoteAccess.
Local Open Scope Z_scope.

Module VoteModel.
#[export] Existing Instance Model.svm.
#[export] Existing Instance Model.sysvars.
#[export] Existing Instance vote_model.
#[export] Existing Instance vote_model_laws.

#[export] Instance model_lockout_countable : Countable model_lockout.
Proof.
  refine (inj_countable' (fun l => (ml_slot l, ml_count l))
    (fun p => mk_model_lockout p.1 p.2) _). by intros [].
Defined.
#[export] Instance landed_eq_dec : EqDecision (LandedVote model_lockout).
Proof. solve_decision. Defined.
#[export] Instance landed_countable : Countable (LandedVote model_lockout).
Proof.
  refine (inj_countable' (fun l => (latency l, lockout l)) (fun p => mk_landed p.1 p.2) _).
  by intros [].
Defined.
#[export] Instance timestamp_countable : Countable BlockTimestamp.
Proof.
  refine (inj_countable' (fun l => (ts_slot l, ts_timestamp l)) (fun p => mk_ts p.1 p.2) _).
  by intros [].
Defined.

(** A value of a countable type as one word. *)
Definition word {A} `{Countable A} (x : A) : Z := Zpos (encode x).
Definition unword {A} `{Countable A} (z : Z) : option A :=
  match z with Zpos p => decode p | _ => None end.

Definition enc_v4 (x : VoteStateV4) : list Z :=
  [4; node_pubkey_ x; authorized_withdrawer_ x; inflation_rewards_collector_ x;
   block_revenue_collector_ x; inflation_rewards_commission_bps_ x;
   block_revenue_commission_bps_ x; pending_delegator_rewards_ x;
   word (bls_pubkey_compressed_ x); word (A := list (LandedVote model_lockout)) (votes_ x);
   word (root_slot_ x); word (A := gmap Z Z) (authorized_voters_ x); word (epoch_credits_ x);
   word (last_timestamp_ x)].

Definition dec_versions (d : list Z) : option VoteStateVersions :=
  match d with
  | 0 :: _ => Some Uninitialized
  | 4 :: a :: b :: c :: d :: e :: f :: g :: h :: i :: j :: k :: l :: m :: _ =>
    match unword (A := option Z) h, unword (A := list (LandedVote model_lockout)) i,
          unword (A := option Z) j, unword (A := gmap Z Z) k,
          unword (A := list (Z * Z * Z)) l, unword (A := BlockTimestamp) m with
    | Some h, Some i, Some j, Some k, Some l, Some m =>
      Some (V4 (mk_v4 a b c d e f g h i j k l m))
    | _, _, _, _, _, _ => None
    end
  | _ => None
  end.

Definition versions : Bincode VoteStateVersions := {|
  serialized_size v := match v with V4 _ => Some 14 | _ => None end;
  serialize v := match v with V4 x => Some (enc_v4 x) | _ => None end;
  deserialize := dec_versions;
|}.

Lemma unword_word {A} `{Countable A} (x : A) : unword (word x) = Some x.
Proof. apply decode_encode. Qed.

Lemma dec_enc x rest : dec_versions (enc_v4 x ++ rest) = Some (V4 x).
Proof. unfold enc_v4. cbn -[unword word]. rewrite !unword_word. by destruct x. Qed.

#[export] Instance vote_accounts : VoteAccountInterface := {|
  vote_state_deserialize d :=
    match dec_versions d with Some v => inl v | None => inr InvalidAccountData end;
  vote_state_bincode := versions;
  vote_state_is_uninitialized v := match v with Uninitialized => true | _ => false end;
  V4_size_of := 14;
  (* node, voter, withdrawer, commission *)
  VoteInit := Z * Z * Z * Z;
  init_node_pubkey v := v.1.1.1;
  VoteInitV2 := Z * Z * Z * Z * Z;
  init2_node_pubkey v := v.1.1.1.1;
  authorized_voter_bls_pubkey v := v.1.2;
  authorized_voter_bls_proof_of_possession v := v.2;
  V4_new_with_defaults k v clock :=
    mk_v4 v.1.1.1 v.1.2 k v.1.1.1 (v.2 mod 256 * 100) 10000 0 None [] None
      {[clock_epoch clock := v.1.1.2]} [] (mk_ts 0 0);
  V4_new v c1 c2 clock :=
    mk_v4 v.1.1.1.1 v.1.1.2 c1 c2 0 10000 0 (Some v.1.2) [] None
      {[clock_epoch clock := v.1.1.1.2]} [] (mk_ts 0 0);
  pubkey_bytes k := replicate 32 k;
  bls_verify pop key message := pop =? key + Z.of_nat (length message);
  system_transfer from to l :=
    mk_instruction 1 [mk_meta from true true; mk_meta to false true] [2; l];
|}.

#[export] Instance vote_account_laws : VoteAccountLaws vote_accounts.
Proof.
  split; [split| | | |].
  - intros [| | |x] n; [done..|]. intros [= <-]. by exists (enc_v4 x).
  - intros [| | |x] bytes rest; [done..|]. intros [= <-]. apply dec_enc.
  - intros x bytes rest [= <-]. unfold vote_state_deserialize. cbn -[enc_v4 dec_versions].
    by rewrite dec_enc.
  - done.
  - intros d v w. cbn. intros ->. by intros [= <-].
  - intros [|n] v; cbn; [done|]. by intros [= <-].
Qed.

Lemma empty_tower_wf h :
  votes h = [] -> root_slot h = None -> epoch_credits h = [] -> bps_typed h ->
  pending_delegator_rewards h = 0 -> vote_wf h.
Proof.
  intros E1 E2 E3 Hb Hp. unfold vote_wf, state_ok, handler_ok. rewrite E1, E2, E3, Hp.
  unfold tower_ok, credits_ok. cbn -[u64_max].
  split; [|by split]. split; [split; [split_and!; [lia|done|constructor]|done]|].
  split_and!; [lia|constructor|done].
Qed.

Lemma new_with_defaults_wf k v clock : vote_wf (new_v4 (V4_new_with_defaults k v clock)).
Proof.
  apply empty_tower_wf; [done..| |done]. unfold bps_typed, is_u, u16_max. cbn -[Z.mul Z.modulo].
  pose proof (Z.mod_pos_bound v.2 256). lia.
Qed.
Lemma new_wf v c1 c2 clock : vote_wf (new_v4 (V4_new v c1 c2 clock)).
Proof. apply empty_tower_wf; [done..| |done]. unfold bps_typed, is_u, u16_max. cbn. lia. Qed.

(** Vote instructions on words: withdraw, update the identity, deposit. *)
Definition decode (d : list Z) (limit : Z) : option VoteInstruction :=
  match d with
  | [3; l] => if Model.is_word l then Some (Withdraw l) else None
  | [4] => Some UpdateValidatorIdentity
  | [19; l] => if Model.is_word l then Some (DepositDelegatorRewards l) else None
  | _ => None
  end.

Lemma vote_decode_is_typed d limit i : decode d limit = Some i -> vote_instruction_typed i.
Proof.
  unfold decode. intros Hd.
  repeat (match type of Hd with context [match ?x with _ => _ end] => destruct x eqn:? end;
    try done); simplify_eq; simpl; unfold Model.is_word in *; unfold is_u;
    rewrite ?andb_true_iff, ?Z.leb_le in *; lia.
Qed.

Lemma transfer_is_short from to l :
  Z.of_nat (length (metas (system_transfer from to l))) <= u16_max.
Proof. cbn. unfold u16_max. lia. Qed.

(** ** A transaction *)

(** The clock is in epoch 9. *)
Definition env : EnvironmentConfig :=
  mk_env 55 5000 false Model.features
    (mk_cache (Some [1000; 0; 9; 10; 0]) None None (Some [10]) None None None None None None None).
Definition state : VoteStateV4 :=
  mk_v4 102 100 200 102 500 10000 40 None
    [mk_landed 1 (mk_model_lockout 5 2); mk_landed 1 (mk_model_lockout 6 1)] (Some 4)
    {[ 8 := 101 ]} [(6, 30, 10)] (mk_ts 6 77).

(** The vote account, its withdrawer, a wallet, the vote and the system program. *)
Definition keyed : list (Pubkey * AccountSharedData) :=
  [(200, mk_asd 5000 (enc_v4 state) 2 false 0); Model.wallet 100 1000; Model.wallet 101 50;
   (2, mk_asd 1 [] 3 true 0); (1, mk_asd 1 [] 3 true 0)].

(** The three accounts in front are writable, the wallets sign. *)
Definition message (d : list Z) : SVMMessage := mk_message (keyed.*1)
  [(2, mk_svm_instruction 3 [0; 2; 1; 4]%nat d)]
  (fun i => (i =? 1)%nat || (i =? 2)%nat) (fun i => (i <? 3)%nat).

(** The start of the vote instruction with data [d]. *)
Definition start (d : list Z) : InvokeContext Model.svm :=
  mk_ic _ (context_push (prepare_top_level_instructions (message d) 0
    (program_instructions (message d)) (context_new keyed (10 : @Rent Model.svm) 4 64 1)).2).2
    100000 [Placeholder].
Definition accs : TransactionAccounts := accounts_new keyed.
Definition ix (d : list Z) : InstructionContext :=
  mk_ix (10 : @Rent Model.svm) 0 0 u16_max 3
    [ia_new 0 false true; ia_new 2 true true; ia_new 1 true true; ia_new 4 false false]
    [0; 2; 1; u16_max; 3] d.
Definition clock : Clock := mk_clock 1000 0 9 10 0.
Definition signers : gset Pubkey := {[101; 100]}.
Definition ia0 : InstructionAccount := ia_new 0 false true.
End VoteModel.
