(* ===== verification/VoteTheorems.v ===== *)
(** * The vote program: what it guarantees

    The properties of the vote program on the accounts of a transaction, with
    concrete runs of the instance of [VoteModel]. *)

From S2P Require Import Prelude VoteInterface VoteState SvmInterface TransactionAccounts.
From S2P Require Import InstructionAccounts TransactionContext SysvarCache InvokeContext.
From S2P Require Import AccountSafety AccountRun RuntimeSafety RuntimeProofs RuntimeFuel.
From S2P Require Import SystemProgram SystemSpec Programs MessageProofs SvmModel.
From S2P Require Import VoteAccount VoteProgram VoteStateProofs VoteSafety VoteSpec VoteAccess.
From S2P Require Import VoteFunds VoteInstructions VoteModel.
Local Open Scope Z_scope.

Section theorems.
Context {SI : SvmInterface} {SY : SysvarInterface} {VI : VoteInterface}.
Context {VIL : VoteInterfaceLaws VI}.
Context {VA : VoteAccountInterface} {VL : VoteAccountLaws VA}.
Context (decode_vote_instruction : list Z -> Z -> option VoteInstruction).
Abbreviation accs ic := (accounts (transaction_context ic)).

(** C7: The vote program changes a vote state only with the signatures the change
    needs.  After a successful instruction the vote account belongs to the vote
    program, and the state it holds, if any, is the one before with changes that
    the acting keys allow: a new withdrawer, commission or collector needs the
    withdrawer; a new node also needs the node; a new voter needs the withdrawer or
    the voter of the epoch; a new tower needs the voter of the epoch; the pending
    rewards grow only by a deposit, which the source signed.  Or there was no state,
    and the one that was made has the agreement of its node. *)
Theorem vote_access_control (env : EnvironmentConfig)
    (invoke : Instruction -> list (list (list Z)) -> stm (InvokeContext SI) InstructionError unit)
    (ix : InstructionContext) (ia : InstructionAccount) (i : VoteInstruction)
    (signers : gset Pubkey) (clock : Clock) (L T : Z) (ic ic' : InvokeContext SI) :
  (forall d limit i, decode_vote_instruction d limit = Some i -> vote_instruction_typed i) ->
  (forall from to l, Z.of_nat (length (metas (system_transfer from to l))) <= u16_max) ->
  cpi_ok invoke -> tx_ok L T (transaction_context ic) -> synced (transaction_context ic) ->
  get_current_instruction_context (transaction_context ic) = Ok ix ->
  get_clock (sysvar_cache env) = Ok clock ->
  instruction_accounts ix !! 0%nat = Some ia ->
  decode_vote_instruction (instruction_data ix) PACKET_DATA_SIZE = Some i ->
  get_signers ix (accs ic) = Ok signers ->
  vote_instruction decode_vote_instruction env invoke ix ic = (Ok tt, ic') ->
  owner_at (index_in_transaction ia) (accs ic) = vote_program_id /\
  forall h', vote_at (borrowed_at ix ia) (accs ic') = Some h' ->
    state_authorized ix ia i signers clock (accs ic) h'.
Proof using VIL VL.
  intros Hd Hm. by apply (vote_instruction_access decode_vote_instruction Hd Hm).
Qed.

(** C18: A vote account that holds no state or a well-formed one still does after any
    successful vote instruction: the tower is ordered and within its lockouts, the
    root below it, the credit history bounded, the commissions are [u16]s and the
    pending rewards a [u64]. *)
Theorem vote_state_well_formed (env : EnvironmentConfig)
    (invoke : Instruction -> list (list (list Z)) -> stm (InvokeContext SI) InstructionError unit)
    (ix : InstructionContext) (ia : InstructionAccount) (i : VoteInstruction)
    (signers : gset Pubkey) (clock : Clock) (L T : Z) (ic ic' : InvokeContext SI) :
  (forall d limit i, decode_vote_instruction d limit = Some i -> vote_instruction_typed i) ->
  (forall from to l, Z.of_nat (length (metas (system_transfer from to l))) <= u16_max) ->
  (forall k vote_init clock, vote_wf (new_v4 (V4_new_with_defaults k vote_init clock))) ->
  (forall vote_init c1 c2 clock, vote_wf (new_v4 (V4_new vote_init c1 c2 clock))) ->
  cpi_ok invoke -> tx_ok L T (transaction_context ic) -> synced (transaction_context ic) ->
  get_current_instruction_context (transaction_context ic) = Ok ix ->
  get_clock (sysvar_cache env) = Ok clock ->
  instruction_accounts ix !! 0%nat = Some ia ->
  decode_vote_instruction (instruction_data ix) PACKET_DATA_SIZE = Some i ->
  get_signers ix (accs ic) = Ok signers ->
  vote_instruction decode_vote_instruction env invoke ix ic = (Ok tt, ic') ->
  (forall h, vote_at (borrowed_at ix ia) (accs ic) = Some h -> vote_wf h) ->
  forall h', vote_at (borrowed_at ix ia) (accs ic') = Some h' -> vote_wf h'.
Proof using VIL VL.
  intros Hdec Hm Hnew1 Hnew2 Hi Hok Hs Hc Hcl Hia Hd Hsg H Hwf h' Hh'.
  destruct (vote_instruction_access decode_vote_instruction Hdec Hm _ _ _ _ _ _ _ _ _ _ _
    Hi Hok Hs Hc Hcl Hia Hd Hsg H) as [_ Ha]. specialize (Ha h' Hh').
  pose proof (Hdec _ _ _ Hd) as Ht. eapply state_authorized_wf; eauto.
Qed.

(** C17: A withdrawal from a vote account to another account succeeds exactly when the
    withdrawer signed, the balance suffices, the target can take the lamports, and
    either the account is emptied, has no pending rewards and no credits in this or
    the previous epoch, or the rent exempt minimum and the pending rewards remain.
    It moves the lamports and nothing else; an emptied account holds no vote state
    any more, another one holds the same. *)
Theorem vote_withdraw_correct (ix : InstructionContext) (from to : nat)
    (f t : InstructionAccount) (L T : Z) (s : TransactionAccounts) (l : Z)
    (signers : gset Pubkey) (r : Rent) (clock : Clock) :
  let fi := index_in_transaction f in
  let ti := index_in_transaction t in
  let me := borrowed_at ix f in
  ta_ok L T s -> fi <> ti ->
  instruction_accounts ix !! from = Some f -> instruction_accounts ix !! to = Some t ->
  borrow_counters s !! fi = Some 0 -> borrow_counters s !! ti = Some 0 -> 0 <= l ->
  ia_is_writable f = true -> is_owned_by_current_program me s = true ->
  let res := withdraw ix from l to signers r clock s in
  (is_ok res.1 = true <->
   (exists h, vote_at me s = Some h /\
      withdrawal_allowed h (balance fi s) l (length (data_at fi s)) signers r clock) /\
   balance ti s + l <= u64_max /\ ia_is_writable t = true) /\
  (is_ok res.1 = true ->
   balance fi res.2 = balance fi s - l /\ balance ti res.2 = balance ti s + l /\
   (forall j, j <> fi -> j <> ti -> balance j res.2 = balance j s) /\
   (forall j, j <> fi -> data_at j res.2 = data_at j s) /\
   vote_at me res.2 = if balance fi s - l =? 0 then None else vote_at me s).
Proof using VL.
  intros fi ti me Hok Hne Hf Ht Hcf Hct Hl Hw Ho res.
  pose proof (withdraw_run ix from to f t L T s l Hok Hf Ht Hcf Hct Hl Hw Ho signers r clock) as Hr.
  fold res me fi ti in Hr.
  pose proof (handle_at ix _ _ _ _ _ _ Hok eq_refl Hf Hcf) as Hh.
  destruct (check_withdrawal_cases _ _ _ me Hh L T s Hok eq_refl Hw Ho l signers r clock Hl)
    as [(h & Hv & Ha & Hc)|[Hno Hc]].
  - rewrite Hc in Hr. cbv zeta in Hr. set (s1 := if _ =? 0 then wiped me s else s) in Hr.
    assert (shared_account_fields s1 = shared_account_fields s) as Esh by (unfold s1; by case_bool).
    assert (accounts_len s1 = accounts_len s) as Hn1 by (unfold accounts_len; by rewrite Esh).
    pose proof (lookup_lt_Some _ _ _ Hcf) as Lf. pose proof (lookup_lt_Some _ _ _ Hct) as Lt.
    rewrite (len_counters _ _ _ Hok) in Lf, Lt.
    assert (forall j, balance j s1 = balance j s) as Eb by (intros j; unfold balance; by rewrite Esh).
    rewrite balance_pay, decide_False, Eb, Z.add_0_r in Hr by (first [by rewrite Hn1 | done]).
    assert (is_ok res.1 = true <-> balance ti s + l <= u64_max /\ ia_is_writable t = true) as Hiff.
    { rewrite Hr. destruct (Z.ltb_spec u64_max (balance ti s + l)), (ia_is_writable t); simpl;
        split; try done; try (intros [? ?]; (lia || done)). }
    split; [rewrite Hiff; split; [|tauto]; intros Hx; split; [by exists h|done]|].
    intros Hx%Hiff. destruct Hx as [Hu Hwt]. rewrite Hwt in Hr.
    destruct (Z.ltb_spec u64_max (balance ti s + l)); [lia|]. simpl in Hr. rewrite Hr. cbn [snd].
    eapply withdrawn_state; try done.
  - destruct (check_withdrawal me l signers r clock s) as [[[]|e|] s1]; [done|..];
      rewrite Hr; (split; [|done]); (split; [done|]); intros [(h & Hv & Ha) _];
      by destruct (Hno h Hv).
Qed.
End theorems.


(** C30: The vote program keeps the contract of the runtime: run as an instruction, it
    changes only accounts that are writable in it, leaves the frames and the borrows
    as it found them, and uses invocations only at its own depth; so the guarantees
    of the runtime hold for messages with vote instructions. *)
Theorem vote_program_keeps_contract {SI : SvmInterface} {SY : SysvarInterface}
    {VI : VoteInterface} {VA : VoteAccountInterface}
    (decode_vote_instruction : list Z -> Z -> option VoteInstruction) (env : EnvironmentConfig) :
  (forall d limit i, decode_vote_instruction d limit = Some i -> vote_instruction_typed i) ->
  (forall from to l, Z.of_nat (length (metas (system_transfer from to l))) <= u16_max) ->
  program_ok (vote_entrypoint decode_vote_instruction env) /\
  program_local (vote_entrypoint decode_vote_instruction env).
Proof. intros Hd Hm. split; [by apply vote_ok|apply vote_local]. Qed.

(** ** Concrete runs *)

Import VoteModel.

Definition vote_programs (id : Pubkey) : option program :=
  if id =? 1 then Some (system_entrypoint (NI := Model.nonces) Model.decode env)
  else if id =? 2 then Some (vote_entrypoint decode env)
  else None.

Lemma vote_programs_ok id p : vote_programs id = Some p -> program_ok p.
Proof.
  unfold vote_programs. case_bool.
  - intros [= <-]. apply system_ok, Model.decode_is_typed.
  - case_bool; [|done]. intros [= <-]. apply vote_ok; [apply vote_decode_is_typed|apply transfer_is_short].
Qed.

Lemma vote_keyed_loadable : loadable keyed.
Proof.
  split; [unfold MAX_ACCOUNTS_PER_TRANSACTION; cbn; lia|..];
    apply Forall_forall; repeat constructor; done.
Qed.

Lemma vote_accs_ok : ta_ok (keyed_bytes keyed) (keyed_lamports keyed) accs.
Proof. apply accounts_new_ok, vote_keyed_loadable. Qed.

Lemma start_ok d :
  tx_ok (keyed_bytes keyed) (keyed_lamports keyed) (transaction_context (start d)).
Proof.
  split; [exact vote_accs_ok|done..| |].
  - intros [|k] ias dm; [|by destruct k]. intros [= <-] [= <-] j x Hj Hx.
    do 5 (destruct j as [|j]; [injection Hj as <-; first [done | split; [done|eexists; split; reflexivity]]|]).
    done.
  - intros k Hk. change (k ∈ [0%nat]) in Hk. apply list_elem_of_singleton in Hk as ->.
    vm_compute. lia.
Qed.

Definition vote_invoke := native_invoke_signed vote_programs 3.

Lemma vote_invoke_ok : cpi_ok vote_invoke.
Proof.
  apply (invoke_within (SL := Model.svm_laws)), (process_instruction_ok (SL := Model.svm_laws)).
  exact vote_programs_ok.
Qed.

Lemma pair_ok {A B} (p : A * B) a : p.1 = a -> p = (a, p.2).
Proof. destruct p. by intros <-. Qed.

(** The withdrawer 100 and the new node 101 sign a change of identity. *)
Abbreviation identity_run := (vote_instruction decode env vote_invoke (ix [4]) (start [4])).
Abbreviation vote_after := (fun d ic =>
  vote_at (borrowed_at (ix d) ia0) (accounts (transaction_context ic))).

Lemma start_synced d : synced (transaction_context (start d)).
Proof. done. Qed.
Lemma start_current d : get_current_instruction_context (transaction_context (start d)) = Ok (ix d).
Proof. done. Qed.
Lemma start_accs d : accounts (transaction_context (start d)) = accs.
Proof. done. Qed.
Lemma start_signers d : get_signers (ix d) (accounts (transaction_context (start d))) = Ok signers.
Proof. rewrite start_accs. vm_compute. reflexivity. Qed.

Lemma state_before d : vote_at (borrowed_at (ix d) ia0) accs = Some (new_v4 state).
Proof. vm_compute. reflexivity. Qed.

Lemma vote_access_control_witness :
  identity_run.1 = Ok tt /\
  exists h h', vote_after [4] identity_run.2 = Some h' /\ node_pubkey h' <> node_pubkey h /\
    authorized_withdrawer h ∈ signers /\ node_pubkey h' ∈ signers.
Proof.
  assert (identity_run.1 = Ok tt) as E by (vm_compute; reflexivity). split; [exact E|].
  destruct (vote_access_control decode env vote_invoke (ix [4]) ia0 UpdateValidatorIdentity
    signers clock _ _ (start [4]) identity_run.2 vote_decode_is_typed transfer_is_short vote_invoke_ok
    (start_ok [4]) (start_synced _) (start_current _) eq_refl eq_refl eq_refl (start_signers _)
    (pair_ok _ _ E)) as [_ H].
  assert (exists h', vote_after [4] identity_run.2 = Some h' /\ node_pubkey h' = 101)
    as (h' & Hh' & En) by (eexists; split; vm_compute; reflexivity).
  specialize (H h' Hh'). rewrite start_accs in H.
  destruct H as [(h & Hh & Hc)|[Hn _]]; rewrite state_before in *; [|discriminate].
  injection Hh as <-. exists (new_v4 state), h'. split; [exact Hh'|].
  assert (node_pubkey h' <> node_pubkey (new_v4 state)) as Hne by (rewrite En; discriminate).
  split; [exact Hne|]. exact (ca_node _ _ _ _ Hc Hne).
Defined.

(** A deposit of 25 lamports, through an invocation of the system program. *)
Abbreviation deposit_run := (vote_instruction decode env vote_invoke (ix [19; 25]) (start [19; 25])).

Lemma state_wf : vote_wf (new_v4 state).
Proof.
  split; [|by split].
  split; [split; [split_and!|]|split_and!]; cbn; try lia.
  - split; [|done]. unfold vote_step. split_and!; vm_compute; (reflexivity || discriminate).
  - repeat constructor; cbn; lia.
  - intros r [= <-]. split; [done|]. intros _. repeat constructor; cbn; lia.
  - repeat constructor; cbn; unfold u64_max; lia.
Qed.

Lemma vote_state_well_formed_witness :
  deposit_run.1 = Ok tt /\
  exists h', vote_after [19; 25] deposit_run.2 = Some h' /\ vote_wf h' /\
    pending_delegator_rewards h' = 65.
Proof.
  assert (deposit_run.1 = Ok tt) as E by (vm_compute; reflexivity). split; [exact E|].
  assert (exists h', vote_after [19; 25] deposit_run.2 = Some h' /\
    pending_delegator_rewards h' = 65) as (h' & Hh' & Ep) by (eexists; split; vm_compute; reflexivity).
  exists h'. split; [exact Hh'|]. split; [|exact Ep].
  refine (vote_state_well_formed decode env vote_invoke (ix [19; 25]) ia0
    (DepositDelegatorRewards 25) signers clock _ _ (start [19; 25]) deposit_run.2 vote_decode_is_typed
    transfer_is_short new_with_defaults_wf new_wf vote_invoke_ok (start_ok _) (start_synced _)
    (start_current _) eq_refl eq_refl eq_refl (start_signers _) (pair_ok _ _ E) _ h' Hh').
  intros h Hh. rewrite start_accs, state_before in Hh. injection Hh as <-. exact state_wf.
Defined.

(** A withdrawal of 3000 lamports leaves enough; one of 4000 does not. *)
Abbreviation withdraw_of := (fun l => withdraw (ix []) 0 l 1 signers (10 : @Rent Model.svm) clock accs).

Lemma vote_withdraw_correct_witness :
  is_ok (withdraw_of 3000).1 = true /\ balance 0 (withdraw_of 3000).2 = 2000 /\
  (withdraw_of 4000).1 = Err InsufficientFunds.
Proof.
  assert (is_ok (withdraw_of 3000).1 = true) as E by (vm_compute; reflexivity).
  split; [exact E|]. split; [|vm_compute; reflexivity].
  destruct (vote_withdraw_correct (ix []) 0 1 ia0 (ia_new 2 true true) _ _ accs 3000 signers
    (10 : @Rent Model.svm) clock vote_accs_ok) as [_ H]; [done..|].
  destruct (H E) as [Hb _]. exact Hb.
Defined.

Lemma vote_program_keeps_contract_witness :
  program_ok (vote_entrypoint decode env) /\ program_local (vote_entrypoint decode env).
Proof. apply vote_program_keeps_contract; [exact vote_decode_is_typed|exact transfer_is_short]. Defined.
