(* ===== verification/RentState.v ===== *)
(** * Rent states

    Models [svm/src/rent_calculator.rs] and
    [svm/src/transaction_account_state_info.rs]: the rent state of an account
    before and after a transaction, which transitions between rent states a
    transaction may make, and the check of all writable accounts of a
    transaction.  The lemmas say what the check means in terms of balances. *)

From S2P Require Import Prelude SvmInterface TransactionAccounts InstructionAccounts.
From S2P Require Import TransactionContext InvokeContext.
Local Open Scope Z_scope.

(** The errors of the external [TransactionError] that the transaction processor produces. *)
Inductive TransactionError :=
| AccountNotFound | ProgramAccountNotFound | InsufficientFundsForFee | InvalidAccountForFee
| BlockhashNotFound | InstructionErr (index : Z) (e : InstructionError)
| InvalidProgramForExecution | MaxLoadedAccountsDataSizeExceeded
| InsufficientFundsForRent (account_index : Z) | UnbalancedTransaction
| ProgramCacheHitMaxLimit | CommitCancelled.

(** ** [rent_calculator.rs] *)

Definition RENT_EXEMPT_RENT_EPOCH : Epoch := u64_max.

(** The constructor [Uninitialized] is named [NoRent]. *)
Inductive RentState :=
| NoRent
| RentPaying (lamports data_size : Z)
| RentExempt.

#[export] Instance RentState_eq_dec : EqDecision RentState.
Proof. solve_decision. Defined.

Definition get_account_rent_state (account_lamports account_size min_balance : Z) : RentState :=
  if account_lamports =? 0 then NoRent
  else if min_balance <=? account_lamports then RentExempt
  else RentPaying account_lamports account_size.

Definition get_pre_exec_account_rent_state (account_lamports account_size min_balance : Z)
    (disallow_rent_paying : bool) : RentState :=
  match get_account_rent_state account_lamports account_size min_balance with
  | RentPaying l n => if disallow_rent_paying then RentExempt else RentPaying l n
  | rent_state => rent_state
  end.

Definition get_post_exec_account_rent_state (account_lamports account_size min_balance : Z)
    (pre_rent_state : RentState) (pre_exec_balance : Z) (relax_rent_exempt_criteria : bool) :
    RentState :=
  if negb relax_rent_exempt_criteria
  then get_account_rent_state account_lamports account_size min_balance
  else if account_lamports =? 0 then NoRent
  else if min_balance <=? account_lamports then RentExempt
  else if bool_decide (pre_rent_state = RentExempt) && (pre_exec_balance <=? account_lamports)
  then RentExempt
  else RentPaying account_lamports account_size.

Definition transition_allowed (pre_rent_state post_rent_state : RentState) : bool :=
  match post_rent_state with
  | NoRent | RentExempt => true
  | RentPaying post_lamports post_data_size =>
    match pre_rent_state with
    | NoRent | RentExempt => false
    | RentPaying pre_lamports pre_data_size =>
      (post_data_size =? pre_data_size) && (post_lamports <=? pre_lamports)
    end
  end.

Section rent.
Context {SI : SvmInterface}.
(** The address of the incinerator, an id of another crate. *)
Context (incinerator_id : Pubkey).

Definition check_static_account_rent_state_transition
    (pre_exec_balance post_exec_balance data_size : Z) (rent : Rent) (account_index : Z)
    (relax_post_exec_min_balance_check : bool) : outcome TransactionError unit :=
  let rent_min_balance := minimum_balance rent data_size in
  let pre_state := get_pre_exec_account_rent_state pre_exec_balance data_size rent_min_balance
    relax_post_exec_min_balance_check in
  let post_state := get_post_exec_account_rent_state post_exec_balance data_size
    rent_min_balance pre_state pre_exec_balance relax_post_exec_min_balance_check in
  if transition_allowed pre_state post_state then Ok tt
  else Err (InsufficientFundsForRent (account_index mod 256)).

Definition check_rent_state_with_account (pre_rent_state post_rent_state : RentState)
    (address : Pubkey) (account_index : nat) : outcome TransactionError unit :=
  if negb (address =? incinerator_id) && negb (transition_allowed pre_rent_state post_rent_state)
  then Err (InsufficientFundsForRent (Z.of_nat account_index mod 256))
  else Ok tt.

Definition check_rent_state (pre_rent_state post_rent_state : RentState)
    (s : TransactionAccounts) (index : nat) : outcome TransactionError unit :=
  address ← expect (account_key index s);
  check_rent_state_with_account pre_rent_state post_rent_state address index.

(** ** [transaction_account_state_info.rs] *)

Record WritableTransactionAccountStateInfo := mk_info {
  info_rent_state : RentState;
  info_balance : Z;
  info_data_size : Z;
  info_owner : Pubkey;
}.

(** [None] for an account that is not writable. *)
Abbreviation TransactionAccountStateInfo := (option WritableTransactionAccountStateInfo).

(** The fields of the account [try_borrow] gives access to. *)
Definition borrowed_account (i : nat) (s : TransactionAccounts) :
    option (AccountSharedFields * AccountPrivateFields) :=
  match try_borrow i s with
  | (Ok _, _) =>
    a ← shared_account_fields s !! i; p ← private_account_fields s !! i; Some (a, p)
  | _ => None
  end.

Definition iter_writable_accounts (s : TransactionAccounts) (message : SVMMessage) :
    list (option (AccountSharedFields * AccountPrivateFields)) :=
  (fun i => if message_is_writable message i then borrowed_account i s else None)
    <$> seq 0 (length (account_keys message)).

Definition pre_exec_info (rent : Rent) (relax : bool)
    (x : AccountSharedFields * AccountPrivateFields) : WritableTransactionAccountStateInfo :=
  let balance := lamports x.1 in
  let data_size := Z.of_nat (payload_len x.2) in
  mk_info (get_pre_exec_account_rent_state balance data_size (minimum_balance rent data_size) relax)
    balance data_size (owner x.1).

Definition new_pre_exec (s : TransactionAccounts) (message : SVMMessage) (rent : Rent)
    (relax_post_exec_min_balance_check : bool) : list TransactionAccountStateInfo :=
  (fun acct => x ← acct; Some (pre_exec_info rent relax_post_exec_min_balance_check x))
    <$> iter_writable_accounts s message.

Definition post_exec_info (rent : Rent) (relax : bool)
    (x : AccountSharedFields * AccountPrivateFields) (pre : WritableTransactionAccountStateInfo) :
    WritableTransactionAccountStateInfo :=
  let balance := lamports x.1 in
  let data_size := Z.of_nat (payload_len x.2) in
  let relax_rent_exempt_criteria :=
    relax && (data_size <=? info_data_size pre) &&
    bool_decide (info_rent_state pre = RentExempt) && (info_owner pre =? owner x.1) in
  mk_info (get_post_exec_account_rent_state balance data_size (minimum_balance rent data_size)
      (info_rent_state pre) (info_balance pre) relax_rent_exempt_criteria)
    balance data_size (owner x.1).

Definition new_post_exec (s : TransactionAccounts) (message : SVMMessage)
    (pre_exec_state_infos : list TransactionAccountStateInfo) (rent : Rent)
    (relax_post_exec_min_balance_check : bool) : list TransactionAccountStateInfo :=
  zip_with (fun acct pre =>
      x ← acct; p ← pre; Some (post_exec_info rent relax_post_exec_min_balance_check x p))
    (iter_writable_accounts s message) pre_exec_state_infos.

(** The loop of [verify_changes], from the index [i] on. *)
Fixpoint verify_changes_from (i : nat) (pre post : list TransactionAccountStateInfo)
    (s : TransactionAccounts) : outcome TransactionError unit :=
  match pre, post with
  | p :: pre, q :: post =>
    _ ← match p, q with
        | Some p, Some q => check_rent_state (info_rent_state p) (info_rent_state q) s i
        | _, _ => Ok tt
        end;
    verify_changes_from (S i) pre post s
  | _, _ => Ok tt
  end.
Definition verify_changes (pre_state_infos post_state_infos : list TransactionAccountStateInfo)
    (s : TransactionAccounts) : outcome TransactionError unit :=
  verify_changes_from 0 pre_state_infos post_state_infos s.

Definition get_uninitialized_accounts_size (post : list TransactionAccountStateInfo) : Z :=
  zsum (fun q => match q with
    | Some q => if bool_decide (info_rent_state q = NoRent) then info_data_size q else 0
    | None => 0
    end) post.

(** ** What the check means *)

(** An account may end empty or rent exempt.  It may stay below the minimum only if it
    was there before and was neither resized nor credited; or, with the relaxed rule, if
    it existed, has not grown, kept its owner and lost no lamports. *)
Definition rent_allowed (relax : bool) (rent : Rent) (lamports0 size0 : Z) (owner0 : Pubkey)
    (lamports1 size1 : Z) (owner1 : Pubkey) : Prop :=
  lamports1 = 0 \/ minimum_balance rent size1 <= lamports1 \/
  (relax = false /\ 0 <> lamports0 /\ lamports0 < minimum_balance rent size0 /\
    size1 = size0 /\ lamports1 <= lamports0) \/
  (relax = true /\ lamports0 <> 0 /\ size1 <= size0 /\ owner1 = owner0 /\ lamports0 <= lamports1).

Lemma transition_allowed_spec rent relax a0 p0 a1 p1 :
  let pre := pre_exec_info rent relax (a0, p0) in
  transition_allowed (info_rent_state pre)
    (info_rent_state (post_exec_info rent relax (a1, p1) pre)) = true <->
  rent_allowed relax rent (lamports a0) (Z.of_nat (payload_len p0)) (owner a0)
    (lamports a1) (Z.of_nat (payload_len p1)) (owner a1).
Proof using.
  cbv zeta. unfold rent_allowed, post_exec_info, pre_exec_info. simpl.
  generalize (Z.of_nat (payload_len p0)) (Z.of_nat (payload_len p1)). intros n0 n1.
  unfold get_pre_exec_account_rent_state, get_post_exec_account_rent_state,
    get_account_rent_state.
  destruct relax; repeat (case_match || case_bool_decide); simplify_eq/=;
    rewrite ?andb_true_iff, ?andb_false_iff, ?negb_true_iff, ?negb_false_iff in *;
    try lia.
Qed.
End rent.
