(* ===== verification/AccountLoader.v ===== *)
(** * Loading the accounts of a transaction

    Models [svm/src/account_loader.rs], [svm/src/rollback_accounts.rs] and
    [svm/src/nonce_info.rs]: the loader, which keeps the accounts a batch has read
    or written in front of the accounts database; the fee payer check; the loading
    of the accounts of one transaction within its size limit; and the accounts kept
    for the case that the transaction fails.  Counters of errors are left out, and
    the inspection of accounts, which the bank leaves empty. *)

From S2P Require Import Prelude SvmInterface TransactionAccounts InstructionAccounts.
From S2P Require Import TransactionContext InvokeContext SysvarCache SystemProgram RentState.
Local Open Scope Z_scope.

Definition TRANSACTION_ACCOUNT_BASE_SIZE : Z := 64.
Definition ADDRESS_LOOKUP_TABLE_BASE_SIZE : Z := 8248.

Inductive SystemAccountKind := SystemKind | NonceKind.

(** An instruction with the keys and flags of its accounts. *)
Record BorrowedInstruction := mk_borrowed_instruction {
  bi_program_id : Pubkey;
  bi_accounts : list AccountMeta;
  bi_data : list Z;
}.

(** What the processor takes from other crates. *)
Class TransactionInterface {NI : NonceInterface} := {
  FeeDetails : Type;
  total_fee : FeeDetails -> Z;
  incinerator_id : Pubkey;
  (** [NonceState::size()] *)
  nonce_state_size : nat;
  get_system_account_kind : AccountSharedData -> option SystemAccountKind;
  (** The data of an initialized nonce account whose nonce is the given blockhash. *)
  verify_nonce_account : AccountSharedData -> Hash -> option NonceData;
  (** [StateMut::set_state] of a nonce account. *)
  set_nonce_state : AccountSharedData -> Versions -> option AccountSharedData;
  (** The address in the data of a program of the upgradeable loader. *)
  programdata_address : list Z -> option Pubkey;
  construct_instructions_data : list BorrowedInstruction -> option (list Z);
}.

(** The methods of [SVMTransaction] the processor calls, besides those of the message. *)
Record SVMTransaction := mk_transaction {
  tx_message : SVMMessage;
  fee_payer : Pubkey;
  recent_blockhash : Hash;
  num_lookup_tables : Z;
  is_invoked : nat -> bool;
  is_instruction_account : nat -> bool;
  get_ix_signers : nat -> list Pubkey;
}.

(** The fields of the budget the processor reads. *)
Record SVMTransactionExecutionBudget := mk_budget {
  compute_unit_limit : Z;
  max_instruction_stack_depth : nat;
  max_instruction_trace_length : nat;
}.

Definition set_lamports_of (a : AccountSharedData) (x : Z) : AccountSharedData :=
  mk_asd x (asd_data a) (asd_owner a) (asd_executable a) (asd_rent_epoch a).
Definition set_rent_epoch_of (a : AccountSharedData) (x : Epoch) : AccountSharedData :=
  mk_asd (asd_lamports a) (asd_data a) (asd_owner a) (asd_executable a) x.
Definition set_data_of (a : AccountSharedData) (d : list Z) : AccountSharedData :=
  mk_asd (asd_lamports a) d (asd_owner a) (asd_executable a) (asd_rent_epoch a).
(** [AccountSharedData::default()] *)
Definition default_account : AccountSharedData := mk_asd 0 [] 0 false 0.
Definition data_len (a : AccountSharedData) : Z := Z.of_nat (length (asd_data a)).

Section AccountLoader.
Context {SI : SvmInterface} {NI : NonceInterface} {TI : TransactionInterface}.

Record SVMTransactionExecutionAndFeeBudgetLimits := mk_limits {
  budget : SVMTransactionExecutionBudget;
  loaded_accounts_data_size_limit : Z;
  limits_fee_details : FeeDetails;
}.

Record CheckedTransactionDetails := mk_checked {
  nonce_address : option Pubkey;
  compute_budget_and_limits : SVMTransactionExecutionAndFeeBudgetLimits;
}.

(** ** [nonce_info.rs] and [rollback_accounts.rs] *)

Record NonceInfo := mk_nonce_info { ni_address : Pubkey; ni_account : AccountSharedData }.

Inductive RollbackAccounts :=
| FeePayerOnly (fee_payer : Pubkey * AccountSharedData)
| SameNonceAndFeePayer (nonce : Pubkey * AccountSharedData)
| SeparateNonceAndFeePayer (nonce fee_payer : Pubkey * AccountSharedData).

Definition rollback_accounts_new (nonce : option NonceInfo) (fee_payer_address : Pubkey)
    (fee_payer_account : AccountSharedData) (fee_payer_loaded_rent_epoch : Epoch) :
    RollbackAccounts :=
  match nonce with
  | Some nonce =>
    if fee_payer_address =? ni_address nonce
    then SameNonceAndFeePayer
      (fee_payer_address, set_data_of fee_payer_account (asd_data (ni_account nonce)))
    else SeparateNonceAndFeePayer (ni_address nonce, ni_account nonce)
      (fee_payer_address, fee_payer_account)
  | None => FeePayerOnly
      (fee_payer_address, set_rent_epoch_of fee_payer_account fee_payer_loaded_rent_epoch)
  end.

Definition rollback_fee_payer (r : RollbackAccounts) : Pubkey * AccountSharedData :=
  match r with
  | FeePayerOnly fee_payer => fee_payer
  | SameNonceAndFeePayer nonce => nonce
  | SeparateNonceAndFeePayer _ fee_payer => fee_payer
  end.

Definition rollback_count (r : RollbackAccounts) : nat :=
  match r with
  | FeePayerOnly _ | SameNonceAndFeePayer _ => 1
  | SeparateNonceAndFeePayer _ _ => 2
  end.

Definition rollback_iter (r : RollbackAccounts) : list (Pubkey * AccountSharedData) :=
  match r with
  | FeePayerOnly fee_payer => [fee_payer]
  | SameNonceAndFeePayer nonce => [nonce]
  | SeparateNonceAndFeePayer nonce fee_payer => [fee_payer; nonce]
  end.

Definition rollback_data_size (r : RollbackAccounts) : Z :=
  foldl (fun total_size p => saturating_add u64_max total_size (data_len p.2)) 0
    (rollback_iter r).

(** ** Results of validation and loading *)

Record LoadedTransactionAccount := mk_loaded_account {
  la_account : AccountSharedData;
  la_loaded_size : Z;
}.

Record ValidatedTransactionDetails := mk_validated {
  vd_rollback_accounts : RollbackAccounts;
  vd_compute_budget : SVMTransactionExecutionBudget;
  vd_loaded_accounts_bytes_limit : Z;
  vd_fee_details : FeeDetails;
  vd_loaded_fee_payer_account : LoadedTransactionAccount;
}.

Record LoadedTransaction := mk_loaded_tx {
  lt_accounts : list (Pubkey * AccountSharedData);
  lt_touched_flags : list bool;
  lt_fee_details : FeeDetails;
  lt_rollback_accounts : RollbackAccounts;
  lt_compute_budget : SVMTransactionExecutionBudget;
  lt_loaded_accounts_data_size : Z;
}.

Record FeesOnlyTransaction := mk_fees_only {
  fo_load_error : TransactionError;
  fo_rollback_accounts : RollbackAccounts;
  fo_fee_details : FeeDetails;
  fo_loaded_accounts_data_size : Z;
}.

Record NoOpTransaction := mk_noop {
  no_validation_error : TransactionError;
  no_fee_payer_balance : option Z;
  no_compute_unit_limit : Z;
  no_loaded_accounts_bytes_limit : Z;
}.

Inductive TransactionValidationResult :=
| ValidLoadable (tx_details : ValidatedTransactionDetails)
| ValidNoOp (no_op : NoOpTransaction)
| ValidUnprocessable (e : TransactionError).

Inductive TransactionLoadResult :=
| Loaded (tx : LoadedTransaction)
| FeesOnly (tx : FeesOnlyTransaction)
| NoOp (tx : NoOpTransaction)
| Unprocessable (e : TransactionError).

(** ** The loader *)

Abbreviation Store := (gmap Pubkey (AccountSharedData * Slot)).

(** [loaded_accounts]; the callbacks and the features are fixed for a batch. *)
Record AccountLoader := mk_loader { loaded_accounts : Store }.

(** The accounts database. *)
Context (get_account_shared_data : Pubkey -> option (AccountSharedData * Slot)).
Context (features : SVMFeatureSet).

(** The overrides contain the slot history if they override it. *)
Definition new_with_loaded_accounts_capacity
    (account_overrides : option (gmap Pubkey AccountSharedData)) : AccountLoader :=
  mk_loader (match account_overrides with
             | Some overrides => (fun account => (account, 0)) <$> overrides
             | None => ∅
             end).

Definition insert_account (k : Pubkey) (x : AccountSharedData * Slot) (l : AccountLoader) :
    AccountLoader := mk_loader (<[k := x]> (loaded_accounts l)).

(** The account, and whether the accounts database was asked. *)
Definition do_load (account_key : Pubkey) (l : AccountLoader) :
    option (AccountSharedData * Slot) * bool :=
  match loaded_accounts l !! account_key with
  | Some (account, slot) =>
    (if asd_lamports account =? 0 then None else Some (account, slot), false)
  | None => (get_account_shared_data account_key, true)
  end.

Definition load_account (account_key : Pubkey) (l : AccountLoader) :
    option AccountSharedData * AccountLoader :=
  match do_load account_key l with
  | (Some (account, _), false) => (Some account, l)
  | (None, false) => (None, l)
  | (Some (account, last_modification_slot), true) =>
    (Some account, insert_account account_key (account, last_modification_slot) l)
  | (None, true) => (None, insert_account account_key (default_account, 0) l)
  end.

(** [AccountLoader::load_transaction_account] *)
Definition loader_load_transaction_account (account_key : Pubkey) (l : AccountLoader) :
    option LoadedTransactionAccount * AccountLoader :=
  let (account, l) := load_account account_key l in
  ((fun account => mk_loaded_account account
      (saturating_add u64_max TRANSACTION_ACCOUNT_BASE_SIZE (data_len account))) <$> account, l).

Definition update_accounts_for_failed_tx (rollback_accounts : RollbackAccounts)
    (current_slot : Slot) (l : AccountLoader) : AccountLoader :=
  foldl (fun l p => insert_account p.1 (p.2, current_slot) l) l (rollback_iter rollback_accounts).

(** Whether the account at [i] is stored after a successful transaction. *)
Definition is_stored (tx : SVMTransaction) (touched : bool) (i : nat) : bool :=
  message_is_writable (tx_message tx) i && touched &&
  negb (is_invoked tx i && negb (is_instruction_account tx i)).

(** The loop over the first [length accounts] keys; indexing the flags out of range
    panics. *)
Fixpoint store_accounts (tx : SVMTransaction) (i : nat)
    (transaction_accounts : list (Pubkey * AccountSharedData)) (touched_flags : list bool)
    (current_slot : Slot) (l : AccountLoader) : outcome TransactionError AccountLoader :=
  match transaction_accounts with
  | [] => Ok l
  | (address, account) :: rest =>
    l ← (if message_is_writable (tx_message tx) i then
           touched ← expect (touched_flags !! i);
           mret (if is_stored tx touched i
                 then insert_account address (account, current_slot) l else l)
         else Ok l);
    store_accounts tx (S i) rest touched_flags current_slot l
  end.

Definition update_accounts_for_successful_tx (tx : SVMTransaction)
    (transaction_accounts : list (Pubkey * AccountSharedData)) (touched_flags : list bool)
    (current_slot : Slot) (l : AccountLoader) : outcome TransactionError AccountLoader :=
  store_accounts tx 0 (take (length (account_keys (tx_message tx))) transaction_accounts)
    touched_flags current_slot l.

(** ** Fees *)

Definition update_rent_exempt_status_for_account (rent : Rent) (account : AccountSharedData) :
    AccountSharedData :=
  if negb (asd_rent_epoch account =? RENT_EXEMPT_RENT_EPOCH)
     && is_exempt rent (asd_lamports account) (data_len account)
  then set_rent_epoch_of account RENT_EXEMPT_RENT_EPOCH else account.

(** [WritableAccount::checked_sub_lamports] *)
Definition asd_checked_sub_lamports (x : Z) : stm AccountSharedData TransactionError unit :=
  fun a => match checked_sub (asd_lamports a) x with
           | Some l => (Ok tt, set_lamports_of a l)
           | None => (Err InsufficientFundsForFee, a)
           end.

Definition validate_fee_payer (payer_index : Z) (rent : Rent) (fee : Z)
    (relax_post_exec_min_balance_check : bool) : stm AccountSharedData TransactionError unit :=
  pre_balance ← st_gets asd_lamports;
  fail_if (pre_balance =? 0) AccountNotFound ;;
  system_account_kind ← (fun a => (ok_or InvalidAccountForFee (get_system_account_kind a), a));
  let min_balance :=
    match system_account_kind with
    | SystemKind => 0
    | NonceKind => minimum_balance rent (Z.of_nat nonce_state_size)
    end in
  st_lift (ok_or InsufficientFundsForFee
    (v ← checked_sub pre_balance min_balance; checked_sub v fee)) ;;
  asd_checked_sub_lamports fee ;;
  post_balance ← st_gets asd_lamports;
  data_size ← st_gets data_len;
  st_lift (check_static_account_rent_state_transition pre_balance post_balance data_size rent
    payer_index relax_post_exec_min_balance_check).

(** ** Loading *)

Record LoadedTransactionDataSize := mk_size {
  loaded_accounts_data_size : Z;
  requested_loaded_accounts_data_size_limit : Z;
}.

Definition with_max_size (limit : Z) : LoadedTransactionDataSize := mk_size 0 limit.

Definition increase_calculated_data_size (data_size_delta : Z) :
    stm LoadedTransactionDataSize TransactionError unit := fun self =>
  let limit := requested_loaded_accounts_data_size_limit self in
  if u32_max <? data_size_delta
  then (Err MaxLoadedAccountsDataSizeExceeded, mk_size u32_max limit)
  else
    let size := saturating_add u32_max (loaded_accounts_data_size self) data_size_delta in
    (if limit <? size then Err MaxLoadedAccountsDataSizeExceeded else Ok tt, mk_size size limit).

(** [impl From<LoadedTransactionDataSize> for u32] *)
Definition final_data_size (value : LoadedTransactionDataSize) : Z :=
  Z.min (loaded_accounts_data_size value) (requested_loaded_accounts_data_size_limit value).

(** What the closure [collect_loaded_account] and the code around it mutate. *)
Record LoadState := mk_load_state {
  ls_loader : AccountLoader;
  ls_size : LoadedTransactionDataSize;
  ls_accounts : list (Pubkey * AccountSharedData);
  ls_additional : gset Pubkey;
}.
Abbreviation LS := (stm LoadState TransactionError).

Definition increase_size (data_size_delta : Z) : LS unit :=
  st_zoom ls_size (fun z s => mk_load_state (ls_loader s) z (ls_accounts s) (ls_additional s))
    (increase_calculated_data_size data_size_delta).
Definition on_loader {A} (f : AccountLoader -> A * AccountLoader) : LS A := fun s =>
  let (a, l) := f (ls_loader s) in
  (Ok a, mk_load_state l (ls_size s) (ls_accounts s) (ls_additional s)).
Definition push_account (x : Pubkey * AccountSharedData) : LS unit := fun s =>
  (Ok tt, mk_load_state (ls_loader s) (ls_size s) (ls_accounts s ++ [x]) (ls_additional s)).
Definition add_additional (k : Pubkey) : LS unit := fun s =>
  (Ok tt, mk_load_state (ls_loader s) (ls_size s) (ls_accounts s) ({[k]} ∪ ls_additional s)).

(** The programdata account of a program of the upgradeable loader is counted once. *)
Definition count_programdata (keys : list Pubkey) (account : AccountSharedData) : LS unit :=
  match (if asd_owner account =? bpf_loader_upgradeable_id
         then programdata_address (asd_data account) else None) with
  | Some address =>
    additional ← st_gets ls_additional;
    if bool_decide (address ∈ keys) || bool_decide (address ∈ additional) then mret tt
    else
      programdata_account ← on_loader (load_account address);
      match programdata_account with
      | Some programdata_account =>
        increase_size (saturating_add u64_max TRANSACTION_ACCOUNT_BASE_SIZE
          (data_len programdata_account)) ;;
        add_additional address
      | None => mret tt
      end
  | None => mret tt
  end.

Definition collect_loaded_account (keys : list Pubkey) (k : Pubkey)
    (loaded_account : LoadedTransactionAccount) : LS unit :=
  increase_size (la_loaded_size loaded_account) ;;
  count_programdata keys (la_account loaded_account) ;;
  push_account (k, la_account loaded_account).

Fixpoint borrowed_metas (message : SVMMessage) (indices : list nat) :
    outcome TransactionError (list AccountMeta) :=
  match indices with
  | [] => Ok []
  | account_index :: indices =>
    k ← expect (account_keys message !! account_index);
    metas ← borrowed_metas message indices;
    mret (mk_meta k (message_is_signer message account_index)
      (message_is_writable message account_index) :: metas)
  end.

Fixpoint decompile_instructions (message : SVMMessage) (l : list (Pubkey * SVMInstruction)) :
    outcome TransactionError (list BorrowedInstruction) :=
  match l with
  | [] => Ok []
  | (program_id, instruction) :: l =>
    metas ← borrowed_metas message (account_indices instruction);
    rest ← decompile_instructions message l;
    mret (mk_borrowed_instruction program_id metas (svm_data instruction) :: rest)
  end.

Definition construct_instructions_account (message : SVMMessage) :
    outcome TransactionError AccountSharedData :=
  decompiled_instructions ← decompile_instructions message (program_instructions message);
  data ← ok_or MaxLoadedAccountsDataSizeExceeded
    (construct_instructions_data decompiled_instructions);
  mret (mk_asd 0 data sysvar_id false 0).

Definition load_transaction_account (message : SVMMessage) (account_key : Pubkey)
    (account_index : nat) (rent : Rent) : LS LoadedTransactionAccount :=
  let is_writable := message_is_writable message account_index in
  if account_key =? instructions_sysvar_id then
    account ← st_lift (construct_instructions_account message);
    mret (mk_loaded_account account 0)
  else
    loaded_account ← on_loader (loader_load_transaction_account account_key);
    mret (match loaded_account with
          | Some loaded_account =>
            if is_writable then
              mk_loaded_account
                (update_rent_exempt_status_for_account rent (la_account loaded_account))
                (la_loaded_size loaded_account)
            else loaded_account
          | None =>
            let default_account := set_rent_epoch_of default_account RENT_EXEMPT_RENT_EPOCH in
            mk_loaded_account default_account (data_len default_account)
          end).

(** The loop over the accounts after the fee payer. *)
Fixpoint load_remaining (message : SVMMessage) (rent : Rent) (index : nat) (l : list Pubkey) :
    LS unit :=
  match l with
  | [] => mret tt
  | k :: l =>
    loaded_account ← load_transaction_account message k index rent;
    collect_loaded_account (account_keys message) k loaded_account ;;
    load_remaining message rent (S index) l
  end.

Definition PROGRAM_OWNERS : list Pubkey :=
  [bpf_loader_upgradeable_id; bpf_loader_id; bpf_loader_deprecated_id; loader_v4_id].

(** The programs of the instructions exist and belong to a loader. *)
Fixpoint check_programs (l : list (Pubkey * SVMInstruction)) : LS unit :=
  match l with
  | [] => mret tt
  | (program_id, _) :: l =>
    program_account ← on_loader (load_account program_id);
    match program_account with
    | Some program_account =>
      let owner_id := asd_owner program_account in
      fail_if (negb (owner_id =? native_loader_id)
        && negb (bool_decide (owner_id ∈ PROGRAM_OWNERS))) InvalidProgramForExecution ;;
      check_programs l
    | None => st_err ProgramAccountNotFound
    end
  end.

Definition load_transaction_accounts (tx : SVMTransaction)
    (loaded_fee_payer_account : LoadedTransactionAccount) (rent : Rent) :
    LS (list (Pubkey * AccountSharedData)) :=
  let message := tx_message tx in
  increase_size (saturating_mul u64_max (num_lookup_tables tx) ADDRESS_LOOKUP_TABLE_BASE_SIZE) ;;
  collect_loaded_account (account_keys message) (fee_payer tx) loaded_fee_payer_account ;;
  load_remaining message rent 1 (drop 1 (account_keys message)) ;;
  check_programs (program_instructions message) ;;
  st_gets ls_accounts.

Definition load_transaction (tx : SVMTransaction)
    (validation_result : TransactionValidationResult) (rent : Rent) :
    stm AccountLoader TransactionError TransactionLoadResult := fun l =>
  match validation_result with
  | ValidUnprocessable e => (Ok (Unprocessable e), l)
  | ValidNoOp tx_details => (Ok (NoOp tx_details), l)
  | ValidLoadable tx_details =>
    let rollback := vd_rollback_accounts tx_details in
    let (load_result, s) :=
      load_transaction_accounts tx (vd_loaded_fee_payer_account tx_details) rent
        (mk_load_state l (with_max_size (vd_loaded_accounts_bytes_limit tx_details)) [] ∅) in
    (match load_result with
     | Ok accounts => Ok (Loaded (mk_loaded_tx accounts [] (vd_fee_details tx_details) rollback
         (vd_compute_budget tx_details) (final_data_size (ls_size s))))
     | Err err => Ok (FeesOnly (mk_fees_only err rollback (vd_fee_details tx_details)
         (if define_ltds_fee_only_semantics features then final_data_size (ls_size s)
          else rollback_data_size rollback mod (u32_max + 1))))
     | Panic => Panic
     end, ls_loader s)
  end.
End AccountLoader.
