(* ===== verification/TransactionProcessor.v ===== *)
(** * Processing a batch of transactions

    Models [svm/src/transaction_processor.rs]: the validation of nonce and fee payer,
    the execution of a loaded transaction with the checks that follow it, and the loop
    over a batch.  The program cache is an interface ([ProgramCacheInterface]): which
    programs a transaction finds in it, and when it is full.  Recordings (logs, inner
    instructions, balances), timings and counters of errors are left out. *)

From S2P Require Import Prelude SvmInterface TransactionAccounts InstructionAccounts.
From S2P Require Import TransactionContext InvokeContext SysvarCache SystemProgram RentState.
From S2P Require Import AccountLoader.
Local Open Scope Z_scope.

Class ProgramCacheInterface {SI : SvmInterface} := {
  Cache : Type;
  cache_is_empty : Cache -> bool;
  hit_max_limit : Cache -> bool;
  (** [filter_executable_program_accounts] and [replenish_program_cache]: looks the
      programs among the keys up, in the accounts given, and adds the missing ones. *)
  replenish_program_cache :
    (Pubkey -> option (AccountSharedData * Slot)) -> list Pubkey -> Cache -> Cache;
  cache_programs : Cache -> Pubkey -> option program;
  (** The cache after the message, with what the loaders deployed. *)
  cache_executed : SVMMessage -> list (Pubkey * AccountSharedData) -> Cache -> Cache;
  ModifiedEntries : Type;
  drain_modified_entries : Cache -> ModifiedEntries * Cache;
  merge_entries : ModifiedEntries -> Cache -> Cache;
}.

Section TransactionProcessor.
Context {SI : SvmInterface} {NI : NonceInterface} {TI : TransactionInterface}.
Context {PC : ProgramCacheInterface}.

Record TransactionProcessingEnvironment := mk_processing_env {
  te_blockhash : Hash;
  te_lamports_per_signature : Z;
  te_feature_set : SVMFeatureSet;
  te_rent : Rent;
}.

Record TransactionProcessingConfig := mk_config {
  account_overrides : option (gmap Pubkey AccountSharedData);
  enable_return_data_recording : bool;
  drop_on_failure : bool;
  all_or_nothing : bool;
  strict_nonce_size_check : bool;
  drop_noop_transactions : bool;
  tip_accounts : option (gset Pubkey);
}.

Record TransactionExecutionDetails := mk_details {
  status : outcome TransactionError unit;
  return_data : option (Pubkey * list Z);
  executed_units : Z;
  (** [accounts_resize_delta] and [accounts_uninitialized_size] *)
  accounts_deltas : option (Z * Z);
  tips : Z;
}.

Record ExecutedTransaction := mk_executed {
  et_loaded_transaction : LoadedTransaction;
  et_execution_details : TransactionExecutionDetails;
}.

Inductive ProcessedTransaction :=
| PExecuted (tx : ExecutedTransaction)
| PFeesOnly (tx : FeesOnlyTransaction)
| PNoOp (tx : NoOpTransaction).

Abbreviation TransactionProcessingResult := (ProcessedTransaction + TransactionError)%type.

(** The accounts database, the slot of the bank, and the precompiles. *)
Context (get_account_shared_data : Pubkey -> option (AccountSharedData * Slot)).
Context (slot : Slot).
Context (is_precompile : Pubkey -> bool).
Context (precompile : Pubkey -> list Z -> list (list Z) -> outcome InstructionError unit).
Context (environment : TransactionProcessingEnvironment) (config : TransactionProcessingConfig).

Abbreviation AL := (stm AccountLoader TransactionError).
Abbreviation rent := (te_rent environment).
Abbreviation features := (te_feature_set environment).

Definition load_for (k : Pubkey) : AL (option LoadedTransactionAccount) := fun l =>
  let (a, l) := loader_load_transaction_account get_account_shared_data k l in (Ok a, l).

Definition load_balance (k : Pubkey) : AL (option Z) := fun l =>
  let (account, l) := load_account get_account_shared_data k l in
  (Ok (asd_lamports <$> account), l).

(** ** Validation *)

Definition validate_transaction_nonce (tx : SVMTransaction) (nonce_address : Pubkey)
    (next_durable_nonce : DurableNonce) (next_lamports_per_signature : Z)
    (strict_nonce_size_check : bool) : AL NonceInfo :=
  loaded ← load_for nonce_address;
  match loaded with
  | None => st_err AccountNotFound
  | Some loaded =>
    let nonce_account := la_account loaded in
    fail_if (strict_nonce_size_check
      && negb (length (asd_data nonce_account) =? nonce_state_size)%nat) BlockhashNotFound ;;
    nonce_data ← st_lift (ok_or BlockhashNotFound
      (verify_nonce_account nonce_account (recent_blockhash tx)));
    let nonce_can_be_advanced := bool_decide (durable_nonce nonce_data <> next_durable_nonce) in
    let nonce_authority_is_valid := bool_decide (authority nonce_data ∈ get_ix_signers tx 0) in
    if nonce_can_be_advanced && nonce_authority_is_valid then
      let next_nonce_state :=
        nonce_data_new (authority nonce_data) next_durable_nonce next_lamports_per_signature in
      nonce_account ← st_lift (expect
        (set_nonce_state nonce_account (versions_new (Some next_nonce_state))));
      mret (mk_nonce_info nonce_address nonce_account)
    else st_err BlockhashNotFound
  end.

Definition validate_transaction_fee_payer (tx : SVMTransaction) (nonce_info : option NonceInfo)
    (compute_budget_and_limits : SVMTransactionExecutionAndFeeBudgetLimits)
    (relax_post_exec_min_balance_check : bool) : AL ValidatedTransactionDetails :=
  let fee_payer_address := fee_payer tx in
  loaded ← load_for fee_payer_address;
  match loaded with
  | None => st_err AccountNotFound
  | Some loaded_fee_payer =>
    let fee_payer_loaded_rent_epoch := asd_rent_epoch (la_account loaded_fee_payer) in
    let account := update_rent_exempt_status_for_account rent (la_account loaded_fee_payer) in
    let fee_details := limits_fee_details compute_budget_and_limits in
    let (result, account) := validate_fee_payer 0 rent (total_fee fee_details)
      relax_post_exec_min_balance_check account in
    st_lift result ;;
    let rollback_accounts := rollback_accounts_new nonce_info fee_payer_address account
      fee_payer_loaded_rent_epoch in
    mret (mk_validated rollback_accounts (budget compute_budget_and_limits)
      (loaded_accounts_data_size_limit compute_budget_and_limits) fee_details
      (mk_loaded_account account (la_loaded_size loaded_fee_payer)))
  end.

Definition validate_transaction_nonce_and_fee_payer (tx : SVMTransaction)
    (checked_details : CheckedTransactionDetails) : AL TransactionValidationResult :=
  let limits := compute_budget_and_limits checked_details in
  nonce_result ←
    match nonce_address checked_details with
    | Some nonce_address =>
      st_try (validate_transaction_nonce tx nonce_address
        (from_blockhash (te_blockhash environment)) (te_lamports_per_signature environment)
        (strict_nonce_size_check config) ≫= fun nonce_info => mret (Some nonce_info))
    | None => mret (Ok None)
    end;
  match nonce_result with
  | Err e => mret (ValidUnprocessable e)
  | Panic => st_lift Panic
  | Ok nonce_info =>
    let is_blockhash_transaction := bool_decide (nonce_info = None) in
    fee_payer_result ← st_try (validate_transaction_fee_payer tx nonce_info limits
      (relax_post_exec_min_balance_check features));
    let allow_noop := relax_fee_payer_constraint features && is_blockhash_transaction in
    match fee_payer_result with
    | Ok details => mret (ValidLoadable details)
    | Err e =>
      if allow_noop then
        fee_payer_balance ← load_balance (fee_payer tx);
        mret (ValidNoOp (mk_noop e fee_payer_balance
          (compute_unit_limit (budget limits)) (loaded_accounts_data_size_limit limits)))
      else mret (ValidUnprocessable e)
    | Panic => st_lift Panic
    end
  end.
(** ** Execution *)

Definition tip_accounts_sum (accounts : list (Pubkey * AccountSharedData))
    (tip_accounts : gset Pubkey) : Z :=
  foldl (fun sum p => if bool_decide (p.1 ∈ tip_accounts)
                      then saturating_add u64_max sum (asd_lamports p.2) else sum) 0 accounts.

Definition transaction_accounts_lamports_sum (accounts : list (Pubkey * AccountSharedData)) :
    option Z :=
  foldl (fun sum p => s ← sum; checked_add u128_max s (asd_lamports p.2)) (Some 0) accounts.

(** The rent states after the message, if they are allowed. *)
Definition check_rent_states (message : SVMMessage)
    (pre_account_state_info : list (option WritableTransactionAccountStateInfo))
    (s : TransactionAccounts) :
    outcome TransactionError (list (option WritableTransactionAccountStateInfo)) :=
  let relax := relax_post_exec_min_balance_check features in
  let post := new_post_exec s message pre_account_state_info rent relax in
  _ ← verify_changes incinerator_id pre_account_state_info post s;
  mret post.

(** A panic of the message is a panic of the execution. *)
Definition execute_loaded_transaction (fuel : nat) (tx : SVMTransaction)
    (loaded_transaction : LoadedTransaction) (cache : Cache) :
    outcome TransactionError ExecutedTransaction :=
  let message := tx_message tx in
  let transaction_accounts := lt_accounts loaded_transaction in
  let tip_accounts_before_tx :=
    from_option (tip_accounts_sum transaction_accounts) 0 (tip_accounts config) in
  let lamports_before_tx :=
    default 0 (transaction_accounts_lamports_sum transaction_accounts) in
  let compute_budget := lt_compute_budget loaded_transaction in
  let transaction_context := context_new transaction_accounts rent
    (max_instruction_stack_depth compute_budget) (max_instruction_trace_length compute_budget)
    (length (program_instructions message)) in
  let pre_account_state_info := new_pre_exec (accounts transaction_context) message rent
    (relax_post_exec_min_balance_check features) in
  let '(process_result, (invoke_context, executed_units)) :=
    process_message (cache_programs cache) is_precompile precompile fuel message
      (mk_ic _ transaction_context (compute_unit_limit compute_budget) [], 0) in
  let transaction_context := InvokeContext.transaction_context invoke_context in
  let post_account_state_info_result :=
    _ ← map_err (fun p => InstructionErr p.1 p.2) process_result;
    check_rent_states message pre_account_state_info (accounts transaction_context) in
  let record := execution_record transaction_context in
  let touched_flags := <[0%nat := true]> (rec_touched_flags record) in
  let post_account_state_info_result :=
    post ← post_account_state_info_result;
    if bool_decide (transaction_accounts_lamports_sum (rec_accounts record)
                    = Some lamports_before_tx)
    then Ok post else Err UnbalancedTransaction in
  let executed status accounts_deltas :=
    let tips := from_option (fun tip_accounts => saturating_sub
      (tip_accounts_sum (rec_accounts record) tip_accounts) tip_accounts_before_tx) 0
      (tip_accounts config) in
    let return_data :=
      if enable_return_data_recording config && negb (length (rec_return_data record).2 =? 0)%nat
      then Some (rec_return_data record) else None in
    mk_executed
      (mk_loaded_tx (rec_accounts record) touched_flags (lt_fee_details loaded_transaction)
        (lt_rollback_accounts loaded_transaction) compute_budget
        (lt_loaded_accounts_data_size loaded_transaction))
      (mk_details status return_data executed_units accounts_deltas tips) in
  match post_account_state_info_result with
  | Ok post => Ok (executed (Ok tt)
      (Some (rec_accounts_resize_delta record, get_uninitialized_accounts_size post)))
  | Err err => Ok (executed (Err err) None)
  | Panic => Panic
  end.

(** ** The batch *)

Record BatchState := mk_batch { bs_loader : AccountLoader; bs_cache : Cache }.

(** How one round of the loop ends. *)
Inductive RoundResult :=
| Round (processing_result : TransactionProcessingResult)
| CacheFull.

(** The transaction was loaded: it is executed, and its accounts are stored. *)
Definition process_loaded (fuel : nat) (tx : SVMTransaction) (lt : LoadedTransaction) :
    stm BatchState TransactionError RoundResult := fun s =>
  let loader := bs_loader s in
  let cache := replenish_program_cache (fun k => (do_load get_account_shared_data k loader).1)
    (account_keys (tx_message tx)) (bs_cache s) in
  if hit_max_limit cache then (Ok CacheFull, mk_batch loader cache)
  else
    match execute_loaded_transaction fuel tx lt cache with
    | Ok executed_tx =>
      let (modified, cache) := drain_modified_entries
        (cache_executed (tx_message tx) (lt_accounts lt) cache) in
      let loaded := et_loaded_transaction executed_tx in
      match status (et_execution_details executed_tx), drop_on_failure config with
      | Ok _, _ =>
        match update_accounts_for_successful_tx tx (lt_accounts loaded)
                (lt_touched_flags loaded) slot loader with
        | Ok loader =>
          (Ok (Round (inl (PExecuted executed_tx))), mk_batch loader (merge_entries modified cache))
        | _ => (Panic, mk_batch loader cache)
        end
      | Err err, true => (Ok (Round (inr err)), mk_batch loader cache)
      | Err _, false =>
        (Ok (Round (inl (PExecuted executed_tx))),
         mk_batch (update_accounts_for_failed_tx (lt_rollback_accounts loaded) slot loader) cache)
      | Panic, _ => (Panic, mk_batch loader cache)
      end
    | _ => (Panic, mk_batch loader cache)
    end.

Definition on_batch_loader {A} (m : AL A) : stm BatchState TransactionError A :=
  st_zoom bs_loader (fun l s => mk_batch l (bs_cache s)) m.

(** One round of the loop: validate, load, execute. *)
Definition process_transaction (fuel : nat) (tx : SVMTransaction)
    (check_result : CheckedTransactionDetails + TransactionError) :
    stm BatchState TransactionError RoundResult :=
  validate_result ←
    match check_result with
    | inl tx_details => on_batch_loader (validate_transaction_nonce_and_fee_payer tx tx_details)
    | inr e => mret (ValidUnprocessable e)
    end;
  load_result ← on_batch_loader
    (load_transaction get_account_shared_data features tx validate_result rent);
  match load_result with
  | Unprocessable e => mret (Round (inr e))
  | NoOp no_op_tx =>
    mret (Round (if drop_on_failure config || drop_noop_transactions config
                 then inr (no_validation_error no_op_tx) else inl (PNoOp no_op_tx)))
  | FeesOnly fees_only_tx =>
    if drop_on_failure config then mret (Round (inr (fo_load_error fees_only_tx)))
    else fun s =>
      (Ok (Round (inl (PFeesOnly fees_only_tx))),
       mk_batch (update_accounts_for_failed_tx (fo_rollback_accounts fees_only_tx) slot
         (bs_loader s)) (bs_cache s))
  | Loaded loaded_transaction => process_loaded fuel tx loaded_transaction
  end.

Fixpoint process_transactions (fuel total : nat)
    (processing_results : list TransactionProcessingResult)
    (l : list (SVMTransaction * (CheckedTransactionDetails + TransactionError))) :
    stm BatchState TransactionError (list TransactionProcessingResult) :=
  match l with
  | [] => mret processing_results
  | (tx, check_result) :: l =>
    round ← process_transaction fuel tx check_result;
    match round with
    | CacheFull => mret (replicate total (inr ProgramCacheHitMaxLimit))
    | Round processing_result =>
      let failed := match processing_result with inl _ => false | inr _ => true end in
      if all_or_nothing config && failed then
        mret (replicate (length processing_results) (inr CommitCancelled)
          ++ processing_result ::
          replicate (total - S (length processing_results)) (inr CommitCancelled))
      else process_transactions fuel total (processing_results ++ [processing_result]) l
    end
  end.

(** [builtin_program_cache] is what an empty cache is replaced with. *)
Definition load_and_execute_sanitized_transactions (fuel : nat) (builtin_program_cache : Cache)
    (sanitized_txs : list SVMTransaction)
    (check_results : list (CheckedTransactionDetails + TransactionError)) (cache : Cache) :
    outcome TransactionError (list TransactionProcessingResult) * BatchState :=
  let cache := if cache_is_empty cache then builtin_program_cache else cache in
  let s := mk_batch (new_with_loaded_accounts_capacity (account_overrides config)) cache in
  let total := length sanitized_txs in
  if hit_max_limit cache then (Ok (replicate total (inr ProgramCacheHitMaxLimit)), s)
  else process_transactions fuel total [] (zip sanitized_txs check_results) s.
End TransactionProcessor.
