(* ===== verification/LoaderProofs.v ===== *)
(** * What loading does to the accounts

    The accounts as a batch sees them ([view]: those of the loader in front of those
    of the database, an account without lamports being no account), the proof that
    loading changes none of them, and the specification of the accounts a
    transaction is loaded with ([load_transaction_accounts_ok]).  Computations are
    specified by weakest preconditions ([wp]) that exclude a panic. *)

From S2P Require Import Prelude SvmInterface TransactionAccounts InstructionAccounts.
From S2P Require Import TransactionContext InvokeContext SysvarCache SystemProgram RentState.
From S2P Require Import AccountLoader AccountSafety RuntimeProofs MessageProofs.
Local Open Scope Z_scope.

(** ** Weakest preconditions *)

(** [m] does not panic in [s]; it ends in [Q] with a value or in [R] with an error. *)
Definition wp {S E A} (m : stm S E A) (Q : A -> S -> Prop) (R : E -> S -> Prop) (s : S) : Prop :=
  match m s with
  | (Ok a, s') => Q a s'
  | (Err e, s') => R e s'
  | (Panic, _) => False
  end.

Section wp.
Context {S E : Type}.
Implicit Types (s : S) (R : E -> S -> Prop).

Lemma wp_mono {A} (m : stm S E A) (Q Q' : A -> S -> Prop) R R' s :
  wp m Q R s -> (forall a s', Q a s' -> Q' a s') -> (forall e s', R e s' -> R' e s') ->
  wp m Q' R' s.
Proof. unfold wp. destruct (m s) as [[]?]; naive_solver. Qed.
Lemma wp_bind {A B} (m : stm S E A) (f : A -> stm S E B) Q R s :
  wp m (fun a => wp (f a) Q R) R s -> wp (m ≫= f) Q R s.
Proof. unfold wp, mbind, stm_bind. by destruct (m s) as [[]?]. Qed.
Lemma wp_ret {A} (a : A) (Q : A -> S -> Prop) R s : Q a s -> wp (mret a) Q R s.
Proof. done. Qed.
Lemma wp_gets {A} (f : S -> A) (Q : A -> S -> Prop) R s : Q (f s) s -> wp (st_gets f) Q R s.
Proof. done. Qed.
Lemma wp_err {A} e (Q : A -> S -> Prop) R s : R e s -> wp (st_err e) Q R s.
Proof. done. Qed.
Lemma wp_fail_if (b : bool) e (Q : unit -> S -> Prop) R s :
  (b = true -> R e s) -> (b = false -> Q tt s) -> wp (fail_if b e) Q R s.
Proof. destruct b; unfold wp; simpl; naive_solver. Qed.
Lemma wp_lift {A} (o : outcome E A) (Q : A -> S -> Prop) R s :
  (forall a, o = Ok a -> Q a s) -> (forall e, o = Err e -> R e s) -> o <> Panic ->
  wp (st_lift o) Q R s.
Proof. destruct o; unfold wp; simpl; naive_solver. Qed.
Lemma wp_try {A} (m : stm S E A) (Q : outcome E A -> S -> Prop) R s :
  wp m (fun a => Q (Ok a)) (fun e => Q (Err e)) s -> wp (st_try m) Q R s.
Proof. unfold wp, st_try. by destruct (m s) as [[]?]. Qed.
Lemma wp_zoom {T A} (get : T -> S) (set : S -> T -> T) (m : stm S E A) (Q : A -> T -> Prop)
    (R : E -> T -> Prop) (t : T) :
  wp m (fun a s => Q a (set s t)) (fun e s => R e (set s t)) (get t) ->
  wp (st_zoom get set m) Q R t.
Proof. unfold wp, st_zoom. by destruct (m (get t)) as [[]?]. Qed.
End wp.

(** ** Accounts as the batch sees them *)

(** An account without lamports does not exist. *)
Definition alive (o : option AccountSharedData) : option AccountSharedData :=
  a ← o; if asd_lamports a =? 0 then None else Some a.

Record account_typed (a : AccountSharedData) : Prop := {
  at_lamports : is_u u64_max (asd_lamports a);
  at_small : data_len a <= MAX_ACCOUNT_DATA_LEN;
}.

Lemma alive_lamports o : from_option asd_lamports 0 (alive o) = from_option asd_lamports 0 o.
Proof. destruct o as [a|]; [|done]. simpl. by destruct (Z.eqb_spec (asd_lamports a) 0). Qed.

Lemma default_typed : account_typed default_account.
Proof. split; [by split|done]. Qed.

(** The documented behaviour of the code of other crates. *)
Class TransactionLaws {NI : NonceInterface} (TI : TransactionInterface) : Prop := {
  total_fee_u64 d : is_u u64_max (total_fee d);
  (** The offsets and lengths in the data of the instructions sysvar are [u16]. *)
  instructions_data_small l d :
    construct_instructions_data l = Some d -> Z.of_nat (length d) <= MAX_ACCOUNT_DATA_LEN;
  (** Writing a state changes bytes in place, and fits an account that holds one. *)
  set_nonce_state_data a v a' : set_nonce_state a v = Some a' ->
    exists d, a' = set_data_of a d /\ length d = length (asd_data a);
  set_nonce_state_fits a h x y : verify_nonce_account a h = Some x ->
    is_Some (set_nonce_state a (versions_new (Some y)));
  (** The state read is the one written. *)
  set_nonce_state_reads a y a' h x :
    set_nonce_state a (versions_new (Some y)) = Some a' ->
    verify_nonce_account a' h = Some x -> x = y;
  verify_nonce_local a a' h : asd_owner a = asd_owner a' -> asd_data a = asd_data a' ->
    verify_nonce_account a h = verify_nonce_account a' h;
}.

(** What sanitizing a transaction guarantees, and the meaning of the methods of the
    message: the keys are distinct, the first one is the fee payer, which is writable
    and not a program, the instructions refer to keys, and the instructions sysvar
    is reserved. *)
Record tx_wf {SI : SvmInterface} (tx : SVMTransaction) : Prop := {
  wf_keys : NoDup (account_keys (tx_message tx));
  wf_few : (length (account_keys (tx_message tx)) <= MAX_ACCOUNTS_PER_TRANSACTION)%nat;
  wf_payer : account_keys (tx_message tx) !! 0%nat = Some (fee_payer tx);
  wf_payer_writable : message_is_writable (tx_message tx) 0 = true;
  wf_payer_not_invoked : is_invoked tx 0 = false;
  wf_indices p i : p ∈ program_instructions (tx_message tx) -> i ∈ account_indices p.2 ->
    (i < length (account_keys (tx_message tx)))%nat /\ is_instruction_account tx i = true;
  wf_instructions : message_ok (tx_message tx);
  wf_reserved i : account_keys (tx_message tx) !! i = Some instructions_sysvar_id ->
    message_is_writable (tx_message tx) i = false;
}.

Section loader.
Context {SI : SvmInterface} {SL : SvmLaws SI} {NI : NonceInterface} {TI : TransactionInterface}.
Context (db : Pubkey -> option (AccountSharedData * Slot)).
Context (db_typed : forall k a sl, db k = Some (a, sl) -> account_typed a).

Definition view (l : AccountLoader) (k : Pubkey) : option AccountSharedData :=
  alive (match loaded_accounts l !! k with
         | Some (a, _) => Some a
         | None => option_map fst (db k)
         end).
Definition balance_of (l : AccountLoader) (k : Pubkey) : Z :=
  from_option asd_lamports 0 (view l k).

Definition loader_typed (l : AccountLoader) : Prop :=
  forall k a sl, loaded_accounts l !! k = Some (a, sl) -> account_typed a.

(** [l'] is [l0] after loading: the same accounts, possibly from another place. *)
Record cached (l0 l' : AccountLoader) : Prop := {
  ca_view k : view l' k = view l0 k;
  ca_typed : loader_typed l';
}.

Lemma cached_refl l : loader_typed l -> cached l l.
Proof using. by split. Qed.
Lemma cached_trans l1 l2 l3 : cached l1 l2 -> cached l2 l3 -> cached l1 l3.
Proof using. intros [H1 _] [H2 H3]. split; [|done]. intros k. by rewrite H2. Qed.
Lemma cached_balance l0 l k : cached l0 l -> balance_of l k = balance_of l0 k.
Proof using. intros [H _]. unfold balance_of. by rewrite H. Qed.

Lemma view_insert k a sl l k' :
  view (insert_account k (a, sl) l) k' = if decide (k = k') then alive (Some a) else view l k'.
Proof using.
  unfold view, insert_account. simpl. case_decide as E.
  - subst. by rewrite lookup_insert_eq.
  - by rewrite lookup_insert_ne.
Qed.
Lemma insert_typed k a sl l :
  loader_typed l -> account_typed a -> loader_typed (insert_account k (a, sl) l).
Proof using.
  intros Hl Ha k' a' sl'. unfold insert_account. simpl.
  rewrite lookup_insert_Some. intros [[_ [= -> _]]|[_ H]]; [done|by apply (Hl k' _ sl')].
Qed.

Lemma load_account_ok k l : loader_typed l ->
  let (o, l') := load_account db k l in
  cached l l' /\ alive o = view l k /\ forall a, o = Some a -> account_typed a.
Proof using db_typed.
  intros Hl. unfold load_account, do_load.
  assert (view l k = alive (match loaded_accounts l !! k with
    Some (a, _) => Some a | None => option_map fst (db k) end)) as Hv by done.
  destruct (loaded_accounts l !! k) as [[a sl]|] eqn:Hk.
  - pose proof (Hl _ _ _ Hk) as Ha. simpl in Hv.
    destruct (Z.eqb_spec (asd_lamports a) 0) as [E|E]; rewrite Hv.
    + split_and!; [by apply cached_refl|done|done].
    + split_and!; [by apply cached_refl| |by intros ? [= <-]].
      simpl. by rewrite (proj2 (Z.eqb_neq _ _) E).
  - destruct (db k) as [[a sl]|] eqn:Hd; simpl in Hv.
    + pose proof (db_typed _ _ _ Hd) as Ha. split_and!; [|done|by intros ? [= <-]].
      split; [|by apply insert_typed]. intros k'. rewrite view_insert. by case_decide; subst.
    + split_and!; [|done|done]. split; [|apply insert_typed; [done|apply default_typed]].
      intros k'. rewrite view_insert. by case_decide; subst.
Qed.
(** ** Loading the accounts of a transaction *)

Context {TL : TransactionLaws TI}.
Context (l0 : AccountLoader) (rent : Rent).

(** The account loaded for key [k] at index [i], when the batch sees [l0]. *)
Record loads_as (message : SVMMessage) (i : nat) (k : Pubkey) (a : AccountSharedData) : Prop := {
  la_typed : account_typed a;
  la_balance : k <> instructions_sysvar_id -> asd_lamports a = balance_of l0 k;
  la_sysvar : k = instructions_sysvar_id -> asd_lamports a = 0;
  la_found a0 : k <> instructions_sysvar_id -> view l0 k = Some a0 ->
    a = if message_is_writable message i
        then update_rent_exempt_status_for_account rent a0 else a0;
}.

Lemma update_rent_fields a :
  let a' := update_rent_exempt_status_for_account rent a in
  asd_lamports a' = asd_lamports a /\ asd_data a' = asd_data a /\ asd_owner a' = asd_owner a /\
  asd_executable a' = asd_executable a.
Proof using. cbv zeta. unfold update_rent_exempt_status_for_account. by case_bool. Qed.
Lemma update_rent_typed a :
  account_typed a -> account_typed (update_rent_exempt_status_for_account rent a).
Proof using.
  intros [H1 H2]. destruct (update_rent_fields a) as (E1 & E2 & _). cbv zeta in *.
  split; unfold data_len; by rewrite ?E1, ?E2.
Qed.

Abbreviation seen := (fun (_ : TransactionError) (s : LoadState) => cached l0 (ls_loader s)).

Lemma wp_on_load k (Q : option AccountSharedData -> LoadState -> Prop) R s :
  cached l0 (ls_loader s) ->
  (forall o l, cached l0 l -> alive o = view l0 k ->
     (forall a, o = Some a -> account_typed a) ->
     Q o (mk_load_state l (ls_size s) (ls_accounts s) (ls_additional s))) ->
  wp (on_loader (load_account db k)) Q R s.
Proof using db_typed.
  intros Hs H. unfold wp, on_loader.
  pose proof (load_account_ok k (ls_loader s) (ca_typed _ _ Hs)) as Hl.
  destruct (load_account db k (ls_loader s)) as [o l]. destruct Hl as (Hc & Ho & Ht).
  apply H; [by eapply cached_trans|by rewrite Ho, (ca_view _ _ Hs)|done].
Qed.

Lemma increase_size_ok n (Q : unit -> LoadState -> Prop) s :
  cached l0 (ls_loader s) ->
  (forall z, Q tt (mk_load_state (ls_loader s) z (ls_accounts s) (ls_additional s))) ->
  wp (increase_size n) Q seen s.
Proof using.
  intros Hs H. unfold increase_size. apply wp_zoom. unfold wp, increase_calculated_data_size.
  repeat case_bool; simpl; auto.
Qed.

Lemma count_programdata_ok keys a s :
  cached l0 (ls_loader s) ->
  wp (count_programdata db keys a)
    (fun _ s' => cached l0 (ls_loader s') /\ ls_accounts s' = ls_accounts s) seen s.
Proof using db_typed.
  intros Hs. unfold count_programdata. destruct (if _ =? _ then _ else _) as [k|]; [|done].
  apply wp_bind, wp_gets. case_bool; [done|]. apply wp_bind, wp_on_load; [done|].
  intros [b|] l Hl _ _; [|done]. apply wp_bind, increase_size_ok; [done|]. intros z. done.
Qed.

Lemma collect_loaded_account_ok keys k a s :
  cached l0 (ls_loader s) ->
  wp (collect_loaded_account db keys k a)
    (fun _ s' => cached l0 (ls_loader s') /\ ls_accounts s' = ls_accounts s ++ [(k, la_account a)])
    seen s.
Proof using db_typed.
  intros Hs. unfold collect_loaded_account. apply wp_bind, increase_size_ok; [done|]. intros z.
  apply wp_bind. eapply wp_mono; [by apply count_programdata_ok| |done].
  intros [] s' [H1 H2]. simpl in *. unfold wp, push_account. simpl. by rewrite H2.
Qed.
Context (tx : SVMTransaction) (Htx : tx_wf tx).
Abbreviation message := (tx_message tx).

Lemma borrowed_metas_ok indices :
  (forall i, i ∈ indices -> (i < length (account_keys message))%nat) ->
  exists metas, borrowed_metas message indices = Ok metas.
Proof using.
  induction indices as [|i indices IH]; intros H; [by eexists|]. simpl.
  destruct (lookup_lt_is_Some_2 (account_keys message) i) as [k ->]; [apply H; left|].
  destruct IH as [metas ->]; [intros j Hj; apply H; by right|]. by eexists.
Qed.
Lemma decompile_instructions_ok l :
  (forall p, p ∈ l -> p ∈ program_instructions message) ->
  exists ds, decompile_instructions message l = Ok ds.
Proof using Htx.
  induction l as [|[id ins] l IH]; intros H; [by eexists|]. simpl.
  destruct (borrowed_metas_ok (account_indices ins)) as [metas ->].
  { intros i Hi. apply (wf_indices _ Htx (id, ins) i); [apply H; left|done]. }
  destruct IH as [ds ->]; [intros p Hp; apply H; by right|]. by eexists.
Qed.

Lemma construct_instructions_account_ok :
  match construct_instructions_account message with
  | Ok a => account_typed a /\ asd_lamports a = 0
  | Err _ => True
  | Panic => False
  end.
Proof using Htx TL.
  unfold construct_instructions_account.
  destruct (decompile_instructions_ok (program_instructions message)) as [ds ->]; [done|]. simpl.
  destruct (construct_instructions_data ds) as [d|] eqn:E; [|done]. simpl.
  split; [|done]. split; [by split|by apply (instructions_data_small ds)].
Qed.

Lemma load_transaction_account_ok k i s :
  cached l0 (ls_loader s) ->
  wp (load_transaction_account db message k i rent)
    (fun a s' => cached l0 (ls_loader s') /\ ls_accounts s' = ls_accounts s /\
       loads_as message i k (la_account a)) seen s.
Proof using db_typed Htx TL.
  intros Hs. unfold load_transaction_account. destruct (Z.eqb_spec k instructions_sysvar_id) as [E|E].
  - apply wp_bind. pose proof construct_instructions_account_ok as H.
    destruct (construct_instructions_account message) as [a|e|]; [|done|done].
    destruct H as [H1 H2]. split_and!; [done|done|]. by split.
  - apply wp_bind. unfold wp, on_loader, loader_load_transaction_account.
    pose proof (load_account_ok k (ls_loader s) (ca_typed _ _ Hs)) as Hl.
    destruct (load_account db k (ls_loader s)) as [o l]. destruct Hl as (Hc & Ho & Ht). simpl.
    split_and!; [by eapply cached_trans|done|]. rewrite (ca_view _ _ Hs) in Ho.
    pose proof (alive_lamports o) as Hb. rewrite Ho in Hb. fold (balance_of l0 k) in Hb.
    destruct o as [a|]; simpl in *.
    + specialize (Ht a eq_refl).
      assert (forall a0, view l0 k = Some a0 -> a = a0) as Hv.
      { intros a0 Ha0. rewrite Ha0 in Ho. destruct (asd_lamports a =? 0); [done|].
        by injection Ho. }
      destruct (message_is_writable message i) eqn:Hw; simpl.
      * destruct (update_rent_fields a) as (E1 & _). cbv zeta in E1.
        split; [by apply update_rent_typed|by rewrite E1|done|]. intros a0 _ Ha0.
        by rewrite Hw, (Hv a0 Ha0).
      * split; [done|done|done|]. intros a0 _ Ha0. by rewrite Hw, (Hv a0 Ha0).
    + split; [split; [by split|done]|done|done|]. intros a0 _ Ha0. congruence.
Qed.

Lemma load_remaining_ok l i s :
  cached l0 (ls_loader s) ->
  wp (load_remaining db message rent i l)
    (fun _ s' => cached l0 (ls_loader s') /\ exists new,
       ls_accounts s' = ls_accounts s ++ new /\ new.*1 = l /\
       forall j k a, new !! j = Some (k, a) -> loads_as message (i + j) k a) seen s.
Proof using db_typed Htx TL.
  revert i s. induction l as [|k l IH]; intros i s Hs; simpl.
  { split; [done|]. exists []. by rewrite app_nil_r. }
  apply wp_bind. eapply wp_mono; [by apply load_transaction_account_ok| |done].
  intros a s1 (H1 & E1 & Ha). apply wp_bind.
  eapply wp_mono; [by apply collect_loaded_account_ok| |done]. intros [] s2 [H2 E2].
  eapply wp_mono; [by apply IH| |done]. intros [] s3 (H3 & new & E3 & Ek & Hnew).
  split; [done|]. exists ((k, la_account a) :: new). split_and!.
  - by rewrite E3, E2, E1, <-app_assoc.
  - by rewrite fmap_cons, Ek.
  - intros [|j] k' a' Hj; simpl in Hj.
    + injection Hj as <- <-. by rewrite Nat.add_0_r.
    + rewrite Nat.add_succ_r. by apply Hnew.
Qed.

Lemma check_programs_ok l s :
  cached l0 (ls_loader s) ->
  wp (check_programs db l)
    (fun _ s' => cached l0 (ls_loader s') /\ ls_accounts s' = ls_accounts s) seen s.
Proof using db_typed.
  revert s. induction l as [|[id ins] l IH]; intros s Hs; [done|]. simpl.
  apply wp_bind, wp_on_load; [done|]. intros [a|] l' Hl _ _; [|done].
  apply wp_bind, wp_fail_if; [done|]. intros _. by apply (IH (mk_load_state _ _ _ _)).
Qed.

(** The accounts of the message in order: first the fee payer's as it was validated,
    then the others as the batch sees them. *)
Lemma load_transaction_accounts_ok payer size :
  loader_typed l0 ->
  wp (load_transaction_accounts db tx payer rent)
    (fun accounts s' => cached l0 (ls_loader s') /\
       accounts.*1 = account_keys message /\
       accounts !! 0%nat = Some (fee_payer tx, la_account payer) /\
       forall j k a, accounts !! S j = Some (k, a) -> loads_as message (S j) k a)
    seen (mk_load_state l0 size [] ∅).
Proof using db_typed Htx TL.
  intros Hl. unfold load_transaction_accounts.
  apply wp_bind, increase_size_ok; [by apply cached_refl|]. intros z.
  apply wp_bind. eapply wp_mono; [apply collect_loaded_account_ok; by apply cached_refl| |done].
  intros [] s1 [H1 E1]. apply wp_bind. eapply wp_mono; [by apply load_remaining_ok| |done].
  intros [] s2 (H2 & new & E2 & Ek & Hnew). apply wp_bind.
  eapply wp_mono; [by apply check_programs_ok| |done]. intros [] s3 [H3 E3].
  apply wp_gets. rewrite E3, E2, E1. split_and!; [done| |done|by apply Hnew].
  rewrite fmap_app, Ek. pose proof (wf_payer _ Htx) as Hp. destruct (account_keys message); [done|].
  simpl in *. by injection Hp as ->.
Qed.
End loader.
