(* ===== verification/FeeProofs.v ===== *)
(** * Fees, nonces and rollback

    The conditions under which a fee payer can pay ([validate_fee_payer_spec]), what
    the validation of a transaction establishes, and what a transaction that fails
    leaves behind ([rolled_back]): the fee is paid, the nonce is spent, and nothing
    else changes. *)

From S2P Require Import Prelude SvmInterface TransactionAccounts InstructionAccounts.
From S2P Require Import TransactionContext InvokeContext SysvarCache SystemProgram RentState.
From S2P Require Import AccountLoader TransactionProcessor AccountSafety RuntimeProofs.
From S2P Require Import NonceProofs MessageProofs LoaderProofs.
Local Open Scope Z_scope.

Section fees.
Context {SI : SvmInterface} {SL : SvmLaws SI} {NI : NonceInterface} {NL : NonceLaws NI}.
Context {TI : TransactionInterface} {TL : TransactionLaws TI} {PC : ProgramCacheInterface}.

(** ** The fee payer *)

Lemma static_transition_spec rent relax l0 l1 n i o :
  l0 <> 0 ->
  check_static_account_rent_state_transition l0 l1 n rent i relax = Ok tt <->
  rent_allowed relax rent l0 n o l1 n o.
Proof using.
  intros Hl. unfold check_static_account_rent_state_transition, rent_allowed.
  unfold get_pre_exec_account_rent_state, get_post_exec_account_rent_state,
    get_account_rent_state.
  destruct relax; repeat (case_match || case_bool_decide); simplify_eq/=;
    rewrite ?andb_true_iff, ?andb_false_iff, ?negb_true_iff, ?negb_false_iff in *; try lia;
    split; intros; try done; try lia.
Qed.

Definition min_balance_of (rent : Rent) (kind : SystemAccountKind) : Z :=
  match kind with
  | SystemKind => 0
  | NonceKind => minimum_balance rent (Z.of_nat nonce_state_size)
  end.

(** The account exists, is of a kind that may pay, keeps the minimum of its kind, and
    may have the balance that is left. *)
Definition can_pay (rent : Rent) (fee : Z) (relax : bool) (a : AccountSharedData) : Prop :=
  asd_lamports a <> 0 /\
  (exists kind, get_system_account_kind a = Some kind /\
     min_balance_of rent kind + fee <= asd_lamports a) /\
  rent_allowed relax rent (asd_lamports a) (data_len a) (asd_owner a)
    (asd_lamports a - fee) (data_len a) (asd_owner a).

Lemma min_balance_nonneg rent kind : 0 <= min_balance_of rent kind.
Proof using SL.
  destruct kind; simpl; [done|]. pose proof (minimum_balance_u64 rent (Z.of_nat nonce_state_size)).
  unfold is_u in *. lia.
Qed.

Lemma validate_fee_payer_spec i rent fee relax a : 0 <= fee ->
  (can_pay rent fee relax a /\
   validate_fee_payer i rent fee relax a = (Ok tt, set_lamports_of a (asd_lamports a - fee))) \/
  (~ can_pay rent fee relax a /\ exists e a', validate_fee_payer i rent fee relax a = (Err e, a')).
Proof using SL.
  intros Hfee. unfold can_pay, validate_fee_payer, mbind, stm_bind, st_gets, fail_if, st_lift.
  destruct (Z.eqb_spec (asd_lamports a) 0) as [E|E]; simpl.
  { right. split; [naive_solver|by eexists _, _]. }
  destruct (get_system_account_kind a) as [kind|]; simpl.
  2: { right. split; [naive_solver|by eexists _, _]. }
  fold (min_balance_of rent kind). pose proof (min_balance_nonneg rent kind) as Hm.
  assert (forall x y, checked_sub x y = if y <=? x then Some (x - y) else None) as Hc by done.
  rewrite Hc. destruct (Z.leb_spec (min_balance_of rent kind) (asd_lamports a)); simpl.
  2: { right. split; [|by eexists _, _]. intros (_ & (k & [= <-] & ?) & _). lia. }
  rewrite Hc. destruct (Z.leb_spec fee (asd_lamports a - min_balance_of rent kind)); simpl.
  2: { right. split; [|by eexists _, _]. intros (_ & (k & [= <-] & ?) & _). lia. }
  unfold asd_checked_sub_lamports. rewrite Hc.
  rewrite (proj2 (Z.leb_le fee (asd_lamports a))) by lia. simpl.
  pose proof (static_transition_spec rent relax (asd_lamports a) (asd_lamports a - fee)
    (data_len a) i (asd_owner a) E) as Hs.
  change (data_len (set_lamports_of a (asd_lamports a - fee))) with (data_len a).
  destruct (check_static_account_rent_state_transition _ _ _ _ _ _) as [[]|e|] eqn:Ec.
  - left. split; [|done]. split_and!; [done| |by apply Hs]. exists kind. split; [done|lia].
  - right. split; [|by eexists _, _]. intros (_ & _ & Ha). by apply Hs in Ha.
  - unfold check_static_account_rent_state_transition in Ec. by case_bool_in Ec.
Qed.
(** ** Validation *)

Context (db : Pubkey -> option (AccountSharedData * Slot)).
Context (db_typed : forall k a sl, db k = Some (a, sl) -> account_typed a).
Context (environment : TransactionProcessingEnvironment) (config : TransactionProcessingConfig).
Abbreviation rent := (te_rent environment).
Abbreviation next_nonce := (from_blockhash (te_blockhash environment)).
Abbreviation relax := (relax_post_exec_min_balance_check (te_feature_set environment)).
Abbreviation view := (view db).
Abbreviation balance_of := (balance_of db).
Abbreviation cached := (cached db).

(** The nonce account [a] of the batch was advanced to [ni_account n]. *)
Definition nonce_advanced (tx : SVMTransaction) (l : AccountLoader) (n : NonceInfo) : Prop :=
  exists a x y, alive (Some a) = view l (ni_address n) /\ account_typed a /\
    verify_nonce_account a (recent_blockhash tx) = Some x /\
    authority x ∈ get_ix_signers tx 0 /\ durable_nonce x <> next_nonce /\
    durable_nonce y = next_nonce /\
    set_nonce_state a (versions_new (Some y)) = Some (ni_account n).

Lemma load_for_ok k l (Q : option LoadedTransactionAccount -> AccountLoader -> Prop) R :
  loader_typed l ->
  (forall o l', cached l l' -> alive (la_account <$> o) = view l k ->
     (forall a, o = Some a -> account_typed (la_account a)) -> Q o l') ->
  wp (load_for db k) Q R l.
Proof using db_typed.
  intros Hl H. unfold wp, load_for, loader_load_transaction_account.
  pose proof (load_account_ok db db_typed k l Hl) as Hk.
  destruct (load_account db k l) as [o l']. destruct Hk as (Hc & Ho & Ht).
  apply H; [done| |].
  - by destruct o.
  - destruct o as [a|]; simpl; [|done]. intros ? [= <-]. by apply Ht.
Qed.

Lemma validate_transaction_nonce_ok tx k lps strict l :
  loader_typed l ->
  wp (validate_transaction_nonce db tx k next_nonce lps strict)
    (fun n l' => cached l l' /\ ni_address n = k /\ nonce_advanced tx l n)
    (fun _ l' => cached l l') l.
Proof using db_typed TL NL.
  intros Hl. unfold validate_transaction_nonce. apply wp_bind, load_for_ok; [done|].
  intros [a|] l' Hc Ha Ht; [|done]. specialize (Ht a eq_refl). simpl in Ha.
  apply wp_bind, wp_fail_if; [done|]. intros _. apply wp_bind, wp_lift.
  - intros x Hx%ok_or_Ok. destruct (_ && _) eqn:Hb; [|done].
    apply andb_true_iff in Hb as [H1%bool_decide_eq_true H2%bool_decide_eq_true]. apply wp_bind.
    destruct (set_nonce_state_fits _ _ _ (nonce_data_new (authority x) next_nonce lps) Hx)
      as [a' Ha']. rewrite Ha'. simpl. split_and!; [done|done|].
    exists (la_account a), x, (nonce_data_new (authority x) next_nonce lps).
    by rewrite durable_nonce_new.
  - done.
  - by destruct (verify_nonce_account _ _).
Qed.

(** The fee payer's account before validation, and what becomes of it. *)
Definition payer_charged (tx : SVMTransaction) (fee : Z) (l : AccountLoader)
    (nonce : option NonceInfo) (details : ValidatedTransactionDetails) : Prop :=
  exists a, view l (fee_payer tx) = Some a /\ account_typed a /\
    can_pay rent fee relax (update_rent_exempt_status_for_account rent a) /\
    let paid := set_lamports_of (update_rent_exempt_status_for_account rent a)
      (asd_lamports a - fee) in
    la_account (vd_loaded_fee_payer_account details) = paid /\
    vd_rollback_accounts details =
      rollback_accounts_new nonce (fee_payer tx) paid (asd_rent_epoch a).

Lemma validate_transaction_fee_payer_ok tx nonce limits l l0 :
  cached l0 l ->
  wp (validate_transaction_fee_payer db environment tx nonce limits relax)
    (fun d l' => cached l0 l' /\ vd_fee_details d = limits_fee_details limits /\
       payer_charged tx (total_fee (limits_fee_details limits)) l0 nonce d)
    (fun _ l' => cached l0 l') l.
Proof using db_typed TL SL.
  intros Hl. unfold validate_transaction_fee_payer.
  apply wp_bind, load_for_ok; [by apply (ca_typed _ _ _ Hl)|].
  intros [a|] l' Hc Ha Ht; [|by eapply cached_trans]. specialize (Ht a eq_refl). simpl in Ha.
  pose proof (cached_trans _ _ _ _ Hl Hc) as Hc'. rewrite (ca_view _ _ _ Hl) in Ha.
  set (fee := total_fee (limits_fee_details limits)).
  set (b := update_rent_exempt_status_for_account rent (la_account a)).
  assert (asd_lamports b = asd_lamports (la_account a)) as Eb by apply update_rent_fields.
  destruct (validate_fee_payer_spec 0 rent fee relax b) as [[Hp ->]|[_ (e & a' & ->)]].
  { apply (total_fee_u64 (limits_fee_details limits)). }
  - apply wp_bind. simpl. split_and!; [done|done|]. exists (la_account a). cbv zeta.
    rewrite <-Eb. split_and!; [|done|done|done|done]. rewrite <-Ha. destruct Hp as [Hp _]. rewrite Eb in Hp.
    simpl. by rewrite (proj2 (Z.eqb_neq _ _) Hp).
  - by apply wp_bind.
Qed.
(** The transaction passed validation, with the nonce info [nonce]. *)
Record validated (tx : SVMTransaction) (checked : CheckedTransactionDetails) (l : AccountLoader)
    (nonce : option NonceInfo) (d : ValidatedTransactionDetails) : Prop := {
  va_fee : vd_fee_details d = limits_fee_details (compute_budget_and_limits checked);
  va_address : nonce_address checked = ni_address <$> nonce;
  va_nonce n : nonce = Some n -> nonce_advanced tx l n;
  va_payer : payer_charged tx (total_fee (vd_fee_details d)) l nonce d;
}.

Lemma load_balance_ok k l l0 (Q : option Z -> AccountLoader -> Prop) R :
  cached l0 l -> (forall o l', cached l0 l' -> Q o l') -> wp (load_balance db k) Q R l.
Proof using db_typed.
  intros Hl H. unfold wp, load_balance.
  pose proof (load_account_ok db db_typed k l (ca_typed _ _ _ Hl)) as Hk.
  destruct (load_account db k l) as [o l']. destruct Hk as (Hc & _).
  by apply H; eapply cached_trans.
Qed.

Lemma validate_ok tx checked l :
  loader_typed l ->
  wp (validate_transaction_nonce_and_fee_payer db environment config tx checked)
    (fun r l' => cached l l' /\
       match r with ValidLoadable d => exists nonce, validated tx checked l nonce d | _ => True end)
    (fun _ _ => False) l.
Proof using db_typed TL SL NL.
  intros Hl. unfold validate_transaction_nonce_and_fee_payer. apply wp_bind.
  assert (forall nonce l', cached l l' -> nonce_address checked = ni_address <$> nonce ->
    (forall n, nonce = Some n -> nonce_advanced tx l n) ->
    forall (allow : bool) lim byt,
    wp (fee_payer_result ← st_try (validate_transaction_fee_payer db environment tx nonce
          (compute_budget_and_limits checked) relax);
        match fee_payer_result with
        | Ok details => mret (ValidLoadable details)
        | Err e => if allow then b ← load_balance db (fee_payer tx);
                     mret (ValidNoOp (mk_noop e b lim byt)) else mret (ValidUnprocessable e)
        | Panic => st_lift Panic
        end)
      (fun r l' => cached l l' /\
        match r with ValidLoadable d => exists nonce, validated tx checked l nonce d | _ => True end)
      (fun _ _ => False) l') as Hpay.
  { intros nonce l' Hc Ha Hn allow lim byt. apply wp_bind, wp_try.
    eapply wp_mono; [by apply (validate_transaction_fee_payer_ok tx nonce _ l' l)| |].
    - intros d l2 (Hc2 & Ef & Hp). split; [done|]. exists nonce. split; [done..|]. by rewrite Ef.
    - intros e l2 Hc2. destruct allow; [|done]. by apply wp_bind, (load_balance_ok _ _ l). }
  destruct (nonce_address checked) as [k|] eqn:Ek.
  - apply wp_try, wp_bind. eapply wp_mono; [by apply validate_transaction_nonce_ok| |done].
    intros n l' (Hc & <- & Hn). simpl. apply (Hpay (Some n)); [done|done|]. by intros ? [= <-].
  - simpl. apply (Hpay None); [by apply cached_refl|done|done].
Qed.

(** ** Rollback *)

(** The nonce account at [k] holds the nonce of this block, if it holds one. *)
Definition nonce_spent (l : AccountLoader) (k : Pubkey) : Prop :=
  forall a h x, view l k = Some a -> verify_nonce_account a h = Some x ->
    durable_nonce x = next_nonce.

(** From [l] to [l']: [payer] paid [fee], the nonce account at [nonce] was advanced,
    and nothing else happened. *)
Record rolled_back (payer : Pubkey) (fee : Z) (nonce : option Pubkey) (l l' : AccountLoader) :
    Prop := {
  rb_typed : loader_typed l';
  rb_others k : k <> payer -> nonce <> Some k -> view l' k = view l k;
  rb_fee : fee <= balance_of l payer /\ balance_of l' payer = balance_of l payer - fee;
  rb_payer a a' : view l payer = Some a -> view l' payer = Some a' ->
    asd_owner a' = asd_owner a /\ asd_executable a' = asd_executable a /\
    (nonce <> Some payer -> asd_data a' = asd_data a);
  rb_nonce k : nonce = Some k -> k <> payer -> balance_of l' k = balance_of l k /\
    forall a a', view l k = Some a -> view l' k = Some a' -> exists d, a' = set_data_of a d;
  rb_spent k : nonce = Some k -> nonce_spent l' k /\ is_Some (loaded_accounts l' !! k);
}.
Lemma alive_Some (a a' : AccountSharedData) : alive (Some a) = Some a' -> a' = a.
Proof using. simpl. destruct (asd_lamports a =? 0); [done|]. by intros [= <-]. Qed.
Lemma balance_insert k a sl l k' :
  balance_of (insert_account k (a, sl) l) k' =
  if decide (k = k') then asd_lamports a else balance_of l k'.
Proof using.
  unfold LoaderProofs.balance_of. rewrite view_insert. case_decide; [|done].
  by rewrite alive_lamports.
Qed.
Lemma nonce_advanced_spent tx l n a h x :
  nonce_advanced tx l n -> asd_owner a = asd_owner (ni_account n) ->
  asd_data a = asd_data (ni_account n) -> verify_nonce_account a h = Some x ->
  durable_nonce x = next_nonce.
Proof using TL.
  intros (b & y & z & _ & _ & _ & _ & _ & Hz & Hs) Ho Hd Hx.
  rewrite (verify_nonce_local _ _ h Ho Hd) in Hx.
  by rewrite (set_nonce_state_reads _ _ _ _ _ Hs Hx).
Qed.
Lemma nonce_advanced_account tx l n : nonce_advanced tx l n ->
  account_typed (ni_account n) /\ exists b d, alive (Some b) = view l (ni_address n) /\
    ni_account n = set_data_of b d /\ length d = length (asd_data b).
Proof using TL.
  intros (b & y & z & Hb & [H1 H2] & _ & _ & _ & _ & Hs).
  destruct (set_nonce_state_data _ _ _ Hs) as (d & E & El). split; [|by exists b, d].
  rewrite E. split; [done|]. unfold data_len. simpl. by rewrite El.
Qed.

(** The fields of the fee payer's account after the fee is taken. *)
Lemma paid_fields tx fee l nonce d : 0 <= fee -> payer_charged tx fee l nonce d ->
  exists a paid, view l (fee_payer tx) = Some a /\ fee <= asd_lamports a /\
    account_typed paid /\ asd_lamports paid = asd_lamports a - fee /\
    asd_owner paid = asd_owner a /\ asd_executable paid = asd_executable a /\
    asd_data paid = asd_data a /\ la_account (vd_loaded_fee_payer_account d) = paid /\
    vd_rollback_accounts d = rollback_accounts_new nonce (fee_payer tx) paid (asd_rent_epoch a).
Proof using SL.
  intros Hfee (a & Ha & Ht & (_ & (kind & _ & Hk) & _) & Ep & Er). cbv zeta in *.
  destruct (update_rent_fields rent a) as (E1 & E2 & E3 & E4). cbv zeta in *.
  pose proof (min_balance_nonneg rent kind). rewrite E1 in Hk. destruct Ht as [[T1 T2] T3].
  eexists a, (set_lamports_of (update_rent_exempt_status_for_account rent a)
    (asd_lamports a - fee)).
  split_and!; [done|lia| |reflexivity|done|done|done|exact Ep|exact Er].
  split; unfold is_u, data_len; simpl; [lia|]. by rewrite E2.
Qed.

(** The three cases of [rollback_accounts_new]. *)
Lemma rolled_back_payer tx fee l l1 a paid paid' sl :
  cached l l1 -> view l (fee_payer tx) = Some a -> fee <= asd_lamports a ->
  account_typed paid' -> asd_lamports paid' = asd_lamports a - fee ->
  asd_owner paid' = asd_owner a -> asd_executable paid' = asd_executable a ->
  asd_data paid' = asd_data paid -> asd_data paid = asd_data a ->
  rolled_back (fee_payer tx) fee None l (insert_account (fee_payer tx) (paid', sl) l1).
Proof using.
  intros Hc Ha Hf Ht El Eo Ee Ed Ed'. split.
  - apply insert_typed; [apply Hc|done].
  - intros k Hk _. rewrite view_insert, decide_False by done. apply Hc.
  - rewrite balance_insert, decide_True by done. unfold LoaderProofs.balance_of.
    rewrite Ha. simpl. lia.
  - intros b b'. rewrite Ha, view_insert, decide_True by done. intros [= <-] ->%alive_Some.
    split_and!; [done|done|]. intros _. congruence.
  - done.
  - done.
Qed.

Lemma rolled_back_same tx fee l l1 n a paid sl :
  cached l l1 -> view l (fee_payer tx) = Some a -> fee <= asd_lamports a ->
  account_typed paid -> asd_lamports paid = asd_lamports a - fee ->
  asd_owner paid = asd_owner a -> asd_executable paid = asd_executable a ->
  asd_data paid = asd_data a ->
  nonce_advanced tx l n -> ni_address n = fee_payer tx ->
  rolled_back (fee_payer tx) fee (Some (fee_payer tx)) l
    (insert_account (fee_payer tx) (set_data_of paid (asd_data (ni_account n)), sl) l1).
Proof using TL.
  intros Hc Ha Hf Ht El Eo Ee Ed Hn Ek.
  destruct (nonce_advanced_account _ _ _ Hn) as (Htn & b & d & Hb & En & Hd).
  rewrite Ek, Ha in Hb. apply alive_Some in Hb. subst b. split.
  - apply insert_typed; [apply Hc|]. split; [apply Ht|]. apply Htn.
  - intros k Hk _. rewrite view_insert, decide_False by done. apply Hc.
  - rewrite balance_insert, decide_True by done. unfold LoaderProofs.balance_of.
    rewrite Ha. simpl. lia.
  - intros b b'. rewrite Ha, view_insert, decide_True by done. intros [= <-] ->%alive_Some. done.
  - intros k [= <-]. done.
  - intros k [= <-]. split; [|simpl; by rewrite lookup_insert_eq].
    intros b h x. rewrite view_insert, decide_True by done. intros ->%alive_Some.
    apply (nonce_advanced_spent _ _ _ _ _ _ Hn); [|done]. by rewrite En.
Qed.

Lemma rolled_back_separate tx fee l l1 n a paid sl :
  cached l l1 -> view l (fee_payer tx) = Some a -> fee <= asd_lamports a ->
  account_typed paid -> asd_lamports paid = asd_lamports a - fee ->
  asd_owner paid = asd_owner a -> asd_executable paid = asd_executable a ->
  asd_data paid = asd_data a ->
  nonce_advanced tx l n -> fee_payer tx <> ni_address n ->
  rolled_back (fee_payer tx) fee (Some (ni_address n)) l
    (insert_account (ni_address n) (ni_account n, sl)
      (insert_account (fee_payer tx) (paid, sl) l1)).
Proof using TL.
  intros Hc Ha Hf Ht El Eo Ee Ed Hn Ek.
  destruct (nonce_advanced_account _ _ _ Hn) as (Htn & b & d & Hb & En & Hd).
  destruct (rolled_back_payer tx fee l l1 a paid paid sl) as [R1 R2 R3 R4 R5 R6]; [done..|]. split.
  - by apply insert_typed.
  - intros k Hk Hk'. rewrite view_insert, decide_False by congruence. by apply R2.
  - rewrite balance_insert, decide_False by done. done.
  - intros c c' Hx. rewrite view_insert, decide_False by done. intros Hx'.
    destruct (R4 c c' Hx Hx') as (? & ? & H). split_and!; [done|done|]. intros _. by apply H.
  - intros k [= <-] _. rewrite balance_insert, decide_True by done.
    unfold LoaderProofs.balance_of. rewrite <-Hb, alive_lamports, En. split; [done|].
    intros c c' ->%alive_Some. rewrite view_insert, decide_True by done.
    intros ->%alive_Some. by exists d.
  - intros k [= <-]. split; [|simpl; by rewrite lookup_insert_eq].
    intros c h x. rewrite view_insert, decide_True by done. intros ->%alive_Some.
    by apply (nonce_advanced_spent _ _ _ _ _ _ Hn).
Qed.

Lemma rollback_ok tx checked l l1 nonce d sl :
  validated tx checked l nonce d -> cached l l1 ->
  rolled_back (fee_payer tx) (total_fee (vd_fee_details d)) (nonce_address checked) l
    (update_accounts_for_failed_tx (vd_rollback_accounts d) sl l1).
Proof using TL SL.
  intros [V1 V2 V3 V4] Hc.
  destruct (paid_fields _ _ _ _ _ (proj1 (total_fee_u64 _)) V4)
    as (a & paid & Ha & Hf & Ht & El & Eo & Ee & Ed & _ & ->).
  rewrite V2. destruct nonce as [n|]; simpl.
  - destruct (Z.eqb_spec (fee_payer tx) (ni_address n)) as [E|E]; unfold update_accounts_for_failed_tx; simpl.
    + rewrite <-E. by apply (rolled_back_same tx _ l l1 n a paid); auto.
    + by apply (rolled_back_separate tx _ l l1 n a paid); auto.
  - unfold update_accounts_for_failed_tx. simpl.
    apply (rolled_back_payer tx _ l l1 a paid); try done. by destruct Ht.
Qed.
End fees.
