(* ===== verification/ExecutionProofs.v ===== *)
(** * What executing a loaded transaction does

    The accounts after a message, in terms of those it was loaded with
    ([message_accounts]): an account changes only if it is writable, passed to an
    instruction and marked as touched.  From it the specification of
    [execute_loaded_transaction]: when the status is a success the lamports are
    conserved and every writable account made an allowed transition of its rent
    state; the last check of the balance never fails. *)

From S2P Require Import Prelude SvmInterface TransactionAccounts InstructionAccounts.
From S2P Require Import TransactionContext InvokeContext SysvarCache SystemProgram RentState.
From S2P Require Import AccountLoader TransactionProcessor AccountSafety RuntimeSafety.
From S2P Require Import RuntimeProofs MessageProofs LoaderProofs.
Local Open Scope Z_scope.

(** ** Only accounts passed to an instruction are written *)

(** [message] with the accounts that are not passed to an instruction made readonly. *)
Definition restricted (tx : SVMTransaction) : SVMMessage :=
  let m := tx_message tx in
  mk_message (account_keys m) (program_instructions m) (message_is_signer m)
    (fun i => message_is_writable m i && is_instruction_account tx i).

Section restricted.
Context {SI : SvmInterface} (tx : SVMTransaction) (Htx : tx_wf tx).
Abbreviation message := (tx_message tx).

Lemma restricted_collect l c :
  (forall i, i ∈ l -> is_instruction_account tx i = true) ->
  collect_top_level_accounts (restricted tx) l c = collect_top_level_accounts message l c.
Proof using.
  revert c. induction l as [|i l IH]; intros [dm ias] H; [done|]. simpl.
  destruct (dm !! i); [|done]. simpl. rewrite (H i) by left. rewrite andb_true_r.
  apply IH. intros j Hj. apply H. by right.
Qed.

Lemma restricted_prepare l i :
  (forall p, p ∈ l -> p ∈ program_instructions message) ->
  forall t, prepare_top_level_instructions (restricted tx) i l t =
    prepare_top_level_instructions message i l t.
Proof using Htx.
  revert i. induction l as [|[id ins] l IH]; intros i H t; [done|]. simpl.
  unfold prepare_top_level_instruction, mbind, stm_bind, st_lift. simpl.
  rewrite restricted_collect.
  2: { intros j Hj. apply (wf_indices _ Htx (id, ins) j); [apply H; left|done]. }
  destruct (collect_top_level_accounts message _ _) as [[dm ias]|e|]; [|done|done].
  destruct (st_map_err _ _ t) as [[[]|e|] t']; [|done|done].
  apply IH. intros p Hp. apply H. by right.
Qed.

Context (programs : Pubkey -> option program) (is_precompile : Pubkey -> bool).
Context (precompile : Pubkey -> list Z -> list (list Z) -> outcome InstructionError unit).

Lemma restricted_process fuel i l s :
  process_instructions programs is_precompile precompile fuel (restricted tx) i l s =
  process_instructions programs is_precompile precompile fuel message i l s.
Proof using.
  revert i s. induction l as [|[id ins] l IH]; intros i s; [done|]. simpl.
  destruct (if is_precompile id then _ else _) as [[u|e|] s']; [|done|done]. apply IH.
Qed.

Lemma restricted_message fuel s :
  process_message programs is_precompile precompile fuel (restricted tx) s =
  process_message programs is_precompile precompile fuel message s.
Proof using Htx.
  destruct s as [ic z]. unfold process_message, on_tx, mbind, stm_bind, st_zoom. cbn [fst snd].
  change (program_instructions (restricted tx)) with (program_instructions message).
  rewrite restricted_prepare by done.
  destruct (prepare_top_level_instructions message 0 _ (transaction_context ic)) as [[[]|e|] t];
    [|done|done]. simpl. apply restricted_process.
Qed.
End restricted.

(** ** Rent states of the writable accounts *)

Section rent.
Context {SI : SvmInterface} (incinerator : Pubkey).

Lemma verify_changes_allowed n pre post s :
  verify_changes_from incinerator n pre post s = Ok tt ->
  forall j p q k, pre !! j = Some (Some p) -> post !! j = Some (Some q) ->
    account_key (n + j) s = Some k -> k <> incinerator ->
    transition_allowed (info_rent_state p) (info_rent_state q) = true.
Proof using.
  revert n post. induction pre as [|p0 pre IH]; intros n [|q0 post] H j p q k Hp Hq Hk Hne;
    [done..|]. simpl in H. apply bind_Ok in H as ([] & H0 & H). destruct j as [|j]; simpl in *.
  - injection Hp as ->. injection Hq as ->. rewrite Nat.add_0_r in Hk.
    unfold check_rent_state in H0. rewrite Hk in H0. simpl in H0.
    unfold check_rent_state_with_account in H0. rewrite (proj2 (Z.eqb_neq _ _) Hne) in H0.
    simpl in H0. by destruct (transition_allowed _ _).
  - rewrite Nat.add_succ_r in Hk. by apply (IH (S n) post H j p q k).
Qed.

Lemma verify_changes_error n pre post s e :
  verify_changes_from incinerator n pre post s = Err e -> exists i, e = InsufficientFundsForRent i.
Proof using.
  revert n post. induction pre as [|p pre IH]; intros n [|q post] H; [done..|]. simpl in H.
  destruct (match p with Some _ => _ | None => _ end) as [[]|e1|] eqn:E; simpl in H; [|..].
  - by apply (IH (S n) post).
  - injection H as <-. destruct p as [p|], q as [q|]; try done.
    unfold check_rent_state in E. destruct (account_key n s); [|done]. simpl in E.
    unfold check_rent_state_with_account in E. case_bool_in E; [|done]. injection E as <-.
    by eexists.
  - done.
Qed.

Lemma verify_changes_no_panic n pre post s :
  (forall j, (j < length pre)%nat -> is_Some (account_key (n + j) s)) ->
  verify_changes_from incinerator n pre post s <> Panic.
Proof using.
  revert n post. induction pre as [|p pre IH]; intros n [|q post] H; [done..|]. simpl.
  apply bind_not_Panic.
  - destruct p as [p|], q as [q|]; try done. destruct (H 0%nat) as [k Hk]; [simpl; lia|].
    rewrite Nat.add_0_r in Hk. unfold check_rent_state. rewrite Hk. simpl.
    unfold check_rent_state_with_account. by case_bool.
  - intros _ _. apply IH. intros j Hj. rewrite Nat.add_succ_comm. apply H. simpl. lia.
Qed.

Lemma iter_writable_lookup s message i a p :
  (i < length (account_keys message))%nat -> borrow_counters s !! i = Some 0 ->
  shared_account_fields s !! i = Some a -> private_account_fields s !! i = Some p ->
  iter_writable_accounts s message !! i =
    Some (if message_is_writable message i then Some (a, p) else None).
Proof using.
  intros Hi Hc Ha Hp. unfold iter_writable_accounts. rewrite list_lookup_fmap, lookup_seq_lt by done.
  simpl. case_bool; [|done]. unfold borrowed_account, try_borrow. rewrite Hc. cbn.
  by rewrite Ha, Hp.
Qed.
End rent.

(** ** The sum of the lamports *)

Lemma lamports_sum_from acc (l : keyed_accounts) :
  (forall p, p ∈ l -> 0 <= asd_lamports p.2) -> acc + keyed_lamports l <= u128_max ->
  foldl (fun sum p => s ← sum; checked_add u128_max s (asd_lamports p.2)) (Some acc) l =
  Some (acc + keyed_lamports l).
Proof.
  revert acc. induction l as [|p l IH]; intros acc H Hb; unfold keyed_lamports in *; simpl in *.
  { f_equal. lia. }
  assert (0 <= zsum (fun p => asd_lamports p.2) l) by (apply zsum_nonneg; set_solver).
  unfold checked_add at 2. rewrite (proj2 (Z.leb_le _ _)) by lia.
  rewrite IH; [f_equal; lia|set_solver|lia].
Qed.

Lemma lamports_sum (l : keyed_accounts) : loadable l ->
  transaction_accounts_lamports_sum l = Some (keyed_lamports l).
Proof.
  intros Hl. pose proof (keyed_lamports_bound l Hl) as Hb. apply (lamports_sum_from 0).
  - intros p Hp. apply (ld_lamports _ Hl p Hp).
  - unfold u128_max, u64_max in *. lia.
Qed.

(** ** Execution *)

Section execution.
Context {SI : SvmInterface} {SL : SvmLaws SI} {NI : NonceInterface}.
Context {TI : TransactionInterface} {PC : ProgramCacheInterface}.
Context (is_precompile : Pubkey -> bool).
Context (precompile : Pubkey -> list Z -> list (list Z) -> outcome InstructionError unit).
Context (environment : TransactionProcessingEnvironment) (config : TransactionProcessingConfig).
Context (tx : SVMTransaction) (Htx : tx_wf tx) (lt : LoadedTransaction) (cache : Cache).
Context (fuel : nat).
Hypothesis programs_ok : forall id p, cache_programs cache id = Some p -> program_ok p.
Abbreviation message := (tx_message tx).
Abbreviation l := (lt_accounts lt).
Hypothesis Hl : loadable l.
Hypothesis Hkeys : l.*1 = account_keys message.
Abbreviation rent := (te_rent environment).
Abbreviation relax := (relax_post_exec_min_balance_check (te_feature_set environment)).

Definition message_run : outcome (Z * InstructionError) unit * (InvokeContext SI * Z) :=
  process_message (cache_programs cache) is_precompile precompile fuel message
    (mk_ic _ (context_new l rent (max_instruction_stack_depth (lt_compute_budget lt))
        (max_instruction_trace_length (lt_compute_budget lt))
        (length (program_instructions message)))
      (compute_unit_limit (lt_compute_budget lt)) [], 0).
Definition final_accounts : TransactionAccounts :=
  accounts (transaction_context message_run.2.1).

(** Writable, and passed to an instruction. *)
Definition may_write (i : nat) : Prop :=
  message_is_writable message i = true /\ is_instruction_account tx i = true.

Lemma message_accounts :
  ta_ok (keyed_bytes l) (keyed_lamports l) final_accounts /\
  rt_evolves may_write (accounts_new l) final_accounts /\
  (is_ok message_run.1 = true -> lamports_delta final_accounts = 0).
Proof using programs_ok SL Hl Htx.
  unfold final_accounts, message_run. rewrite <-(restricted_message tx Htx).
  change (length (program_instructions message))
    with (length (program_instructions (restricted tx))).
  destruct (process_message_ok (cache_programs cache) programs_ok (restricted tx) is_precompile
    precompile fuel _ _ (mk_ic _ (context_new l rent (max_instruction_stack_depth (lt_compute_budget lt))
        (max_instruction_trace_length (lt_compute_budget lt))
        (length (program_instructions (restricted tx))))
      (compute_unit_limit (lt_compute_budget lt)) [], 0)
    (wf_instructions _ Htx) (context_new_loaded l rent _ _ (restricted tx) Hl)) as [[H1 H2] H3].
  split_and!; [done| |done]. destruct H2 as [K1 K2 K3 K4]. split; [done..|]. intros i.
  destruct (K4 i) as [H|[[H Ht]|H]]; [by left| |by right; right].
  right. left. split; [|done]. by apply andb_true_iff in H.
Qed.

Lemma row_exists i : (i < length l)%nat -> exists a p,
  shared_account_fields final_accounts !! i = Some a /\
  private_account_fields final_accounts !! i = Some p /\
  borrow_counters final_accounts !! i = Some 0 /\
  is_Some (touched_flags final_accounts !! i).
Proof using programs_ok SL Hl Htx.
  intros Hi. destruct message_accounts as (Hok & He & _).
  assert (accounts_len final_accounts = length l) as El.
  { rewrite (rt_len _ _ _ He). apply length_imap. }
  destruct (lookup_lt_is_Some_2 (shared_account_fields final_accounts) i) as [a Ha].
  { unfold accounts_len in El. by rewrite El. }
  destruct (lookup_lt_is_Some_2 (private_account_fields final_accounts) i) as [p Hp].
  { by rewrite (len_private _ _ _ Hok), El. }
  exists a, p. split_and!; [done|done| |].
  - rewrite (rt_counters _ _ _ He). by apply lookup_replicate_2.
  - apply lookup_lt_is_Some_2. by rewrite (len_touched _ _ _ Hok), El.
Qed.

(** Each row of the record, in terms of the account that was loaded. *)
Lemma recorded_row i k a : l !! i = Some (k, a) -> exists a',
  deconstruct_into_keyed_account_shared_data final_accounts !! i = Some (k, a') /\
  account_typed a' /\
  (may_write i /\ touched_flags final_accounts !! i = Some true \/ a' = a \/
   k = instructions_sysvar_id /\ asd_lamports a' = asd_lamports a).
Proof using programs_ok SL Hl Htx.
  intros Hi. destruct message_accounts as (Hok & He & _).
  destruct (row_exists i) as (x & p & Hx & Hp & _); [by eapply lookup_lt_Some|].
  assert (key x = k) as Ek.
  { pose proof (f_equal (.!! i) (rt_keys _ _ _ He)) as E. simpl in E.
    rewrite !list_lookup_fmap, Hx, list_lookup_imap, Hi in E. by injection E. }
  eexists. rewrite deconstruct_lookup, Hx. cbn. rewrite Hp. cbn. rewrite Ek. split_and!; [done| |].
  { destruct (accounts_are_ok _ _ _ Hok i x p Hx Hp) as [A1 A2 _]. by split. }
  destruct (rt_changes _ _ _ He i) as [[E1 E2]|[H|[E1 E2]]]; [|by left|].
  - right. left. rewrite Hx in E1. rewrite Hp in E2. simpl in E1, E2.
    rewrite list_lookup_imap, Hi in E1. rewrite list_lookup_fmap, Hi in E2.
    injection E1 as ->. injection E2 as ->. by destruct a.
  - right. right. rewrite Hx in E2. simpl in E2. rewrite list_lookup_imap, Hi in E2.
    injection E2 as ->. unfold account_key in E1. simpl in E1.
    rewrite list_lookup_imap, Hi in E1. by injection E1.
Qed.

Lemma recorded_keys :
  (deconstruct_into_keyed_account_shared_data final_accounts).*1 = account_keys message.
Proof using programs_ok SL Hl Htx Hkeys.
  destruct message_accounts as (Hok & He & _). pose proof (accounts_new_ok l Hl) as Hok0.
  rewrite (deconstruct_keys _ _ _ Hok), (rt_keys _ _ _ He).
  by rewrite <-(deconstruct_keys _ _ _ Hok0), deconstruct_new.
Qed.
Abbreviation pre_infos := (new_pre_exec (accounts_new l) message rent relax).

Lemma rent_row post i k a a' :
  check_rent_states environment message pre_infos final_accounts = Ok post ->
  l !! i = Some (k, a) -> message_is_writable message i = true -> k <> incinerator_id ->
  deconstruct_into_keyed_account_shared_data final_accounts !! i = Some (k, a') ->
  rent_allowed relax rent (asd_lamports a) (data_len a) (asd_owner a)
    (asd_lamports a') (data_len a') (asd_owner a').
Proof using programs_ok SL Hl Htx Hkeys.
  intros H Hi Hw Hk Ha'. apply bind_Ok in H as ([] & H & _).
  pose proof (lookup_lt_Some _ _ _ Hi) as Hlt.
  destruct (row_exists i Hlt) as (x & p & Hx & Hp & Hc & _).
  rewrite deconstruct_lookup, Hx in Ha'. cbn in Ha'. rewrite Hp in Ha'. cbn in Ha'.
  injection Ha' as Ek <-.
  assert (i < length (account_keys message))%nat as Hlt' by by rewrite <-Hkeys, length_fmap.
  assert (iter_writable_accounts (accounts_new l) message !! i =
    Some (Some (new_shared i (k, a), new_private (k, a)))) as H0.
  { rewrite (iter_writable_lookup _ _ _ (new_shared i (k, a)) (new_private (k, a)));
      [by rewrite Hw|done| | |].
    - by apply lookup_replicate_2.
    - simpl. by rewrite list_lookup_imap, Hi.
    - simpl. by rewrite list_lookup_fmap, Hi. }
  assert (pre_infos !! i =
    Some (Some (pre_exec_info rent relax (new_shared i (k, a), new_private (k, a))))) as Hpre
    by (unfold new_pre_exec; by rewrite list_lookup_fmap, H0).
  pose proof (verify_changes_allowed incinerator_id 0 _ _ _ H i _
    (post_exec_info rent relax (x, p)
      (pre_exec_info rent relax (new_shared i (k, a), new_private (k, a)))) k Hpre) as Ht.
  apply (transition_allowed_spec rent relax (new_shared i (k, a)) (new_private (k, a)) x p).
  apply Ht; [| |done].
  - unfold new_post_exec. rewrite lookup_zip_with.
    rewrite (iter_writable_lookup _ _ _ x p), Hw by done. cbn. by rewrite Hpre.
  - simpl. unfold account_key. rewrite Hx. simpl. by rewrite Ek.
Qed.

Lemma check_rent_no_panic :
  check_rent_states environment message pre_infos final_accounts <> Panic.
Proof using programs_ok SL Hl Htx Hkeys.
  unfold check_rent_states. apply bind_not_Panic; [|done]. apply verify_changes_no_panic.
  intros j Hj. simpl. unfold new_pre_exec, iter_writable_accounts in Hj.
  rewrite !length_fmap, length_seq, <-Hkeys, length_fmap in Hj.
  destruct (row_exists j Hj) as (x & p & Hx & _). unfold account_key. by rewrite Hx.
Qed.

(** ** The result *)

(** What a successful execution establishes of the recorded accounts. *)
Record executed_well (accounts : keyed_accounts) (flags : list bool) : Prop := {
  ew_keys : accounts.*1 = account_keys message;
  ew_lamports : keyed_lamports accounts = keyed_lamports l;
  ew_flags i : (i < length accounts)%nat -> is_Some (flags !! i);
  ew_payer : flags !! 0%nat = Some true;
  ew_row i k a : l !! i = Some (k, a) -> exists a', accounts !! i = Some (k, a') /\
    account_typed a' /\
    (may_write i /\ flags !! i = Some true \/ a' = a \/
     k = instructions_sysvar_id /\ asd_lamports a' = asd_lamports a) /\
    (message_is_writable message i = true -> k <> incinerator_id ->
     rent_allowed relax rent (asd_lamports a) (data_len a) (asd_owner a)
       (asd_lamports a') (data_len a') (asd_owner a'));
}.

Lemma recorded_lamports :
  is_ok message_run.1 = true ->
  transaction_accounts_lamports_sum (deconstruct_into_keyed_account_shared_data final_accounts) =
  Some (keyed_lamports l).
Proof using programs_ok SL Hl Htx Hkeys.
  intros Ho. destruct message_accounts as (Hok & He & Hd). specialize (Hd Ho).
  assert (keyed_lamports (deconstruct_into_keyed_account_shared_data final_accounts) =
    keyed_lamports l) as <-.
  { rewrite (deconstruct_lamports _ _ _ Hok). pose proof (lamports_exact _ _ _ Hok). lia. }
  apply lamports_sum. pose proof recorded_keys as Ek.
  assert (length (deconstruct_into_keyed_account_shared_data final_accounts) = length l) as El.
  { by rewrite <-(length_fmap fst), Ek, <-Hkeys, length_fmap. }
  assert (forall p, p ∈ deconstruct_into_keyed_account_shared_data final_accounts ->
    account_typed p.2) as Ht.
  { intros p [i Hp]%list_elem_of_lookup_1.
    destruct (lookup_lt_is_Some_2 l i) as [[k a] Hi]; [rewrite <-El; by eapply lookup_lt_Some|].
    destruct (recorded_row i k a Hi) as (a' & Hr & Ha & _). rewrite Hr in Hp.
    by injection Hp as <-. }
  split; [rewrite El; apply Hl|intros p Hp; apply (Ht p Hp)..].
Qed.

Lemma executed_well_ok post :
  is_ok message_run.1 = true ->
  check_rent_states environment message pre_infos final_accounts = Ok post ->
  executed_well (deconstruct_into_keyed_account_shared_data final_accounts)
    (<[0%nat := true]> (touched_flags final_accounts)).
Proof using programs_ok SL Hl Htx Hkeys.
  intros Ho Hr. destruct message_accounts as (Hok & He & Hd).
  assert (0 < length l)%nat as Hpos.
  { pose proof (lookup_lt_Some _ _ _ (wf_payer _ Htx)) as H. by rewrite <-Hkeys, length_fmap in H. }
  pose proof recorded_keys as Ek. split.
  - done.
  - rewrite (deconstruct_lamports _ _ _ Hok). pose proof (lamports_exact _ _ _ Hok).
    specialize (Hd Ho). lia.
  - intros i Hi. assert (i < length l)%nat as Hi'.
    { by rewrite <-(length_fmap fst), Ek, <-Hkeys, length_fmap in Hi. }
    destruct (row_exists i Hi') as (_ & _ & _ & _ & _ & [b Hb]).
    apply lookup_lt_is_Some_2. rewrite length_insert. by eapply lookup_lt_Some.
  - destruct (row_exists 0 Hpos) as (_ & _ & _ & _ & _ & [b Hb]).
    apply list_lookup_insert_eq. by eapply lookup_lt_Some.
  - intros i k a Hi. destruct (recorded_row i k a Hi) as (a' & Ha' & Ht & Hc).
    exists a'. split_and!; [done|done| |].
    + destruct Hc as [[H1 H2]|H]; [|by right]. left. split; [done|].
      destruct (decide (i = 0%nat)) as [->|]; [|by rewrite list_lookup_insert_ne].
      apply list_lookup_insert_eq. by eapply lookup_lt_Some.
    + intros Hw Hk. by apply (rent_row post i k a a').
Qed.

Lemma execute_ok :
  match execute_loaded_transaction is_precompile precompile environment config fuel tx lt cache with
  | Panic => message_run.1 = Panic
  | Err _ => False
  | Ok e =>
    lt_rollback_accounts (et_loaded_transaction e) = lt_rollback_accounts lt /\
    lt_fee_details (et_loaded_transaction e) = lt_fee_details lt /\
    match status (et_execution_details e) with
    | Ok _ => executed_well (lt_accounts (et_loaded_transaction e))
                (lt_touched_flags (et_loaded_transaction e))
    | Err err => err <> UnbalancedTransaction
    | Panic => False
    end
  end.
Proof using programs_ok SL Hl Htx Hkeys.
  unfold execute_loaded_transaction. fold message_run.
  pose proof recorded_lamports as Hs. pose proof executed_well_ok as Hw.
  pose proof check_rent_no_panic as Hp.
  unfold final_accounts in *. destruct message_run as [o [ic u]]. simpl in *.
  destruct o as [[]|[i e]|]; simpl; [|done|done]. rewrite (lamports_sum l Hl). simpl.
  specialize (Hs eq_refl). rewrite Hs.
  destruct (check_rent_states _ _ _ _) as [post|e|] eqn:Hr; simpl; [| |done].
  - rewrite bool_decide_true by done. split_and!; [done|done|]. by apply (Hw post).
  - split_and!; [done|done|]. unfold check_rent_states in Hr.
    destruct (verify_changes _ _ _ _) as [|e'|] eqn:E; [done| |done]. injection Hr as ->.
    by destruct (verify_changes_error _ _ _ _ _ _ E) as [i ->].
Qed.
End execution.
