(* ===== verification/BatchProofs.v ===== *)
(** * What processing a transaction does to the accounts of a batch

    The effect of one round of the batch loop on the accounts the batch sees
    ([process_transaction_ok]): a transaction that is dropped or a no-op changes
    nothing; one that fails pays its fee and spends its nonce; one that succeeds
    changes writable accounts only, keeps all lamports but the fee, and leaves every
    account in an allowed rent state. *)

From S2P Require Import Prelude SvmInterface TransactionAccounts InstructionAccounts.
From S2P Require Import TransactionContext InvokeContext SysvarCache SystemProgram RentState.
From S2P Require Import AccountLoader TransactionProcessor AccountSafety RuntimeSafety.
From S2P Require Import RuntimeProofs NonceProofs MessageProofs LoaderProofs FeeProofs.
From S2P Require Import ExecutionProofs.
Local Open Scope Z_scope.

(** Two lists of accounts with the same keys, and what their balances say about [f]. *)
Lemma zsum_rows (f : Pubkey -> Z) (l0 l1 : keyed_accounts) :
  l1.*1 = l0.*1 ->
  (forall i k a a', l0 !! i = Some (k, a) -> l1 !! i = Some (k, a') ->
     f k = asd_lamports a' - asd_lamports a) ->
  zsum f l0.*1 = keyed_lamports l1 - keyed_lamports l0.
Proof.
  revert l1. induction l0 as [|[k a] l0 IH]; intros [|[k' a'] l1] Hk H; simplify_eq/=; [done|].
  unfold keyed_lamports in *. simpl. rewrite (IH l1); [|done|].
  - rewrite (H 0%nat k a a') by done. lia.
  - intros i. apply (H (S i)).
Qed.

Lemma zsum_sub {A} (f g : A -> Z) l : zsum (fun x => f x - g x) l = zsum f l - zsum g l.
Proof. induction l; simpl; lia. Qed.

Section batch.
Context {SI : SvmInterface} {SL : SvmLaws SI} {NI : NonceInterface} {NL : NonceLaws NI}.
Context {TI : TransactionInterface} {TL : TransactionLaws TI} {PC : ProgramCacheInterface}.
Context (db : Pubkey -> option (AccountSharedData * Slot)).
Context (db_typed : forall k a sl, db k = Some (a, sl) -> account_typed a).
Context (slot : Slot) (is_precompile : Pubkey -> bool).
Context (precompile : Pubkey -> list Z -> list (list Z) -> outcome InstructionError unit).
Context (environment : TransactionProcessingEnvironment) (config : TransactionProcessingConfig).
Hypothesis programs_ok : forall cache id p, cache_programs cache id = Some p -> program_ok p.
Abbreviation rent := (te_rent environment).
Abbreviation relax := (relax_post_exec_min_balance_check (te_feature_set environment)).
Abbreviation view := (view db).
Abbreviation balance_of := (balance_of db).
Abbreviation cached := (cached db).

Definition size_of (l : AccountLoader) (k : Pubkey) : Z := from_option data_len 0 (view l k).
Definition owner_of (l : AccountLoader) (k : Pubkey) : Pubkey :=
  from_option asd_owner 0 (view l k).

(** ** Storing the accounts of a successful transaction *)

Section store.
Context (tx : SVMTransaction) (flags : list bool).

Lemma store_accounts_ok i accs l :
  loader_typed l -> NoDup accs.*1 -> (forall p, p ∈ accs -> account_typed p.2) ->
  (forall j, (j < length accs)%nat -> is_Some (flags !! (i + j)%nat)) ->
  exists l', store_accounts tx i accs flags slot l = Ok l' /\ loader_typed l' /\
    (forall k, k ∉ accs.*1 -> view l' k = view l k) /\
    forall j k a b, accs !! j = Some (k, a) -> flags !! (i + j)%nat = Some b ->
      view l' k = if is_stored tx b (i + j) then alive (Some a) else view l k.
Proof using.
  revert i l. induction accs as [|[k a] accs IH]; intros i l Hl Hnd Ht Hf.
  { by exists l. }
  rewrite fmap_cons in Hnd. apply NoDup_cons in Hnd as [Hk Hnd]. simpl in Hk.
  destruct (Hf 0%nat) as [b Hb]; [simpl; lia|]. rewrite Nat.add_0_r in Hb.
  set (l1 := if is_stored tx b i then insert_account k (a, slot) l else l).
  assert (store_accounts tx i ((k, a) :: accs) flags slot l =
    store_accounts tx (S i) accs flags slot l1) as E.
  { simpl. rewrite Hb. subst l1. unfold is_stored.
    by destruct (message_is_writable (tx_message tx) i). }
  rewrite E. destruct (IH (S i) l1) as (l' & E' & Hl' & Ho & Hr).
  - subst l1. case_bool; [|done]. apply insert_typed; [done|]. apply (Ht (k, a)). left.
  - done.
  - intros p Hp. apply Ht. by right.
  - intros j Hj. rewrite Nat.add_succ_comm. apply Hf. simpl. lia.
  - assert (forall k', view l1 k' = if is_stored tx b i then
      (if decide (k = k') then alive (Some a) else view l k') else view l k') as Hv.
    { intros k'. subst l1. case_bool; [apply view_insert|done]. }
    exists l'. split_and!; [done|done| |].
    + intros k' Hk'. rewrite fmap_cons, not_elem_of_cons in Hk'. destruct Hk' as [Hn Hk'].
      rewrite Ho, Hv by done. case_bool; [|done]. by rewrite decide_False by (simpl in Hn; done).
    + intros [|j] k' a' b' Hj Hb'; simpl in Hj.
      * injection Hj as <- <-. rewrite Nat.add_0_r in *. rewrite Hb in Hb'. injection Hb' as <-.
        rewrite Ho, Hv, decide_True by done. done.
      * rewrite <-Nat.add_succ_comm in *. rewrite (Hr j k' a' b' Hj Hb').
        case_bool; [done|]. rewrite Hv. case_bool; [|done].
        rewrite decide_False; [done|]. intros <-. apply Hk.
        apply (list_elem_of_fmap_2 fst accs (k, a')). by eapply list_elem_of_lookup_2.
Qed.
End store.
(** ** A successful transaction *)

(** From [l] to [l']: [tx] succeeded and its fee payer paid [fee]. *)
Record succeeded (tx : SVMTransaction) (fee : Z) (l l' : AccountLoader) : Prop := {
  su_typed : loader_typed l';
  su_others k : k ∉ account_keys (tx_message tx) -> view l' k = view l k;
  su_readonly i k : account_keys (tx_message tx) !! i = Some k ->
    message_is_writable (tx_message tx) i = false -> view l' k = view l k;
  su_total ks : NoDup ks -> (forall k, k ∈ account_keys (tx_message tx) -> k ∈ ks) ->
    zsum (balance_of l') ks = zsum (balance_of l) ks - fee;
  su_rent i k : account_keys (tx_message tx) !! i = Some k ->
    message_is_writable (tx_message tx) i = true -> k <> incinerator_id ->
    rent_allowed relax rent (balance_of l k - if decide (k = fee_payer tx) then fee else 0)
      (size_of l k) (owner_of l k) (balance_of l' k) (size_of l' k) (owner_of l' k);
}.

(** The accounts a validated transaction is loaded with. *)
Record loaded_rows (tx : SVMTransaction) (l : AccountLoader) (fee : Z) (accs : keyed_accounts) :
    Prop := {
  lr_keys : accs.*1 = account_keys (tx_message tx);
  lr_payer : exists a paid, view l (fee_payer tx) = Some a /\
    accs !! 0%nat = Some (fee_payer tx, paid) /\ account_typed paid /\
    asd_lamports paid = asd_lamports a - fee /\ asd_owner paid = asd_owner a /\
    asd_data paid = asd_data a;
  lr_row j k a : accs !! S j = Some (k, a) -> loads_as db l rent (tx_message tx) (S j) k a;
}.

Section success.
Context (tx : SVMTransaction) (Htx : tx_wf tx) (fee : Z) (l l1 : AccountLoader).
Context (lt : LoadedTransaction) (Hc : cached l l1) (Hrows : loaded_rows tx l fee (lt_accounts lt)).
Context (accs : keyed_accounts) (flags : list bool).
Context (Hw : executed_well environment tx lt accs flags).
Abbreviation keys := (account_keys (tx_message tx)).

Lemma loaded_rows_loadable : loadable (lt_accounts lt).
Proof using Htx Hrows.
  assert (forall p, p ∈ lt_accounts lt -> account_typed p.2) as H.
  { intros [k a] [i Hi]%list_elem_of_lookup_1. destruct i as [|i].
    - destruct (lr_payer _ _ _ _ Hrows) as (b & paid & _ & E & Ht & _). rewrite E in Hi.
      by injection Hi as _ <-.
    - by apply (la_typed _ _ _ _ _ _ _ (lr_row _ _ _ _ Hrows i k a Hi)). }
  split; [|intros p Hp; apply (H p Hp)..].
  rewrite <-(length_fmap fst), (lr_keys _ _ _ _ Hrows). apply Htx.
Qed.

(** The pre-state of the row at [i]. *)
Lemma loaded_row i k a : lt_accounts lt !! i = Some (k, a) ->
  k <> instructions_sysvar_id \/ message_is_writable (tx_message tx) i = true ->
  asd_lamports a = balance_of l k - (if decide (k = fee_payer tx) then fee else 0) /\
  forall b, view l k = Some b -> data_len a = data_len b /\ asd_owner a = asd_owner b.
Proof using Htx Hrows.
  intros Hi Hs.
  assert (keys !! i = Some k) as Hk by by rewrite <-(lr_keys _ _ _ _ Hrows), list_lookup_fmap, Hi.
  assert (k <> instructions_sysvar_id) as Hns.
  { intros ->. destruct Hs as [?|Hs]; [done|]. by rewrite (wf_reserved _ Htx i Hk) in Hs. }
  destruct i as [|i].
  - destruct (lr_payer _ _ _ _ Hrows) as (b & paid & Hb & E & _ & E1 & E2 & E3).
    rewrite E in Hi. injection Hi as <- <-. rewrite decide_True by done.
    unfold LoaderProofs.balance_of, data_len. rewrite Hb, E1, E2, E3. split; [done|].
    by intros ? [= <-].
  - destruct (lr_row _ _ _ _ Hrows i k a Hi) as [_ R2 _ R4]. rewrite decide_False.
    + rewrite R2 by done. split; [lia|]. intros b Hb. rewrite (R4 b Hns Hb). case_bool; [|done].
      destruct (update_rent_fields rent b) as (_ & E2 & E3 & _). cbv zeta in *.
      unfold data_len. by rewrite E2, E3.
    + intros ->. pose proof (NoDup_lookup _ _ _ _ (wf_keys _ Htx) Hk (wf_payer _ Htx)). done.
Qed.
(** The row at [i] before and after the execution, and what is stored of it. *)
Record stored_row (l' : AccountLoader) (i : nat) (k : Pubkey) (a a' : AccountSharedData) : Prop := {
  sr_view : message_is_writable (tx_message tx) i = true /\ view l' k = alive (Some a') \/ view l' k = view l k /\
    (a' = a \/ k = instructions_sysvar_id /\ asd_lamports a' = asd_lamports a);
  sr_readonly : message_is_writable (tx_message tx) i = false -> view l' k = view l k;
  sr_payer : i = 0%nat -> view l' k = alive (Some a');
}.

Lemma accs_typed p : p ∈ accs -> account_typed p.2.
Proof using Hw Hrows.
  intros [i Hi]%list_elem_of_lookup_1. destruct p as [k a'].
  assert (keys !! i = Some k) as Hk by by rewrite <-(ew_keys _ _ _ _ _ Hw), list_lookup_fmap, Hi.
  rewrite <-(lr_keys _ _ _ _ Hrows), list_lookup_fmap in Hk.
  destruct (lt_accounts lt !! i) as [[k0 a]|] eqn:E; [|done].
  destruct (ew_row _ _ _ _ _ Hw i k0 a E) as (b & Hb & Ht & _). rewrite Hi in Hb.
  by injection Hb as -> ->.
Qed.

Lemma update_success_ok : exists l',
  update_accounts_for_successful_tx tx accs flags slot l1 = Ok l' /\ loader_typed l' /\
  (forall k, k ∉ keys -> view l' k = view l k) /\
  forall i k a a', lt_accounts lt !! i = Some (k, a) -> accs !! i = Some (k, a') ->
    stored_row l' i k a a'.
Proof using Hw Hrows Hc Htx.
  unfold update_accounts_for_successful_tx.
  assert (length keys = length accs) as El by by rewrite <-(ew_keys _ _ _ _ _ Hw), length_fmap.
  rewrite El, firstn_all.
  destruct (store_accounts_ok tx flags 0 accs l1) as (l' & E & Hl' & Ho & Hr).
  - apply Hc.
  - rewrite (ew_keys _ _ _ _ _ Hw). apply Htx.
  - apply accs_typed.
  - apply (ew_flags _ _ _ _ _ Hw).
  - rewrite (ew_keys _ _ _ _ _ Hw) in Ho. exists l'. split_and!; [done|done| |].
    { intros k Hk. rewrite Ho by done. apply Hc. }
    intros i k a a' Ha Ha'.
    destruct (ew_flags _ _ _ _ _ Hw i) as [b Hb]; [by eapply lookup_lt_Some|].
    specialize (Hr i k a' b Ha' Hb). rewrite (ca_view _ _ _ Hc) in Hr. simpl in Hr.
    destruct (ew_row _ _ _ _ _ Hw i k a Ha) as (a2 & Ha2 & _ & Hch & _).
    rewrite Ha' in Ha2. injection Ha2 as <-. split.
    + destruct (is_stored tx b i) eqn:Es.
      { left. split; [|done]. unfold is_stored in Es.
        by destruct (message_is_writable (tx_message tx) i). }
      right. split; [done|].
      destruct Hch as [[[H1 H2] H3]|H]; [|done]. exfalso. rewrite Hb in H3. injection H3 as ->.
      unfold is_stored in Es. by rewrite H1, H2, andb_false_r in Es.
    + intros Hro. unfold is_stored in Hr. by rewrite Hro in Hr.
    + intros ->. rewrite (ew_payer _ _ _ _ _ Hw) in Hb. injection Hb as <-.
      unfold is_stored in Hr. by rewrite (wf_payer_writable _ Htx), (wf_payer_not_invoked _ Htx) in Hr.
Qed.

Lemma stored_balance l' i k a a' :
  lt_accounts lt !! i = Some (k, a) -> stored_row l' i k a a' ->
  balance_of l' k - balance_of l k =
  asd_lamports a' - asd_lamports a - if decide (k = fee_payer tx) then fee else 0.
Proof using Htx Hrows.
  intros Hi [S1 S2 S3].
  assert (keys !! i = Some k) as Hk by by rewrite <-(lr_keys _ _ _ _ Hrows), list_lookup_fmap, Hi.
  destruct (decide (k = instructions_sysvar_id)) as [E|E].
  - rewrite E in *. pose proof (wf_reserved _ Htx i Hk) as Hro. specialize (S2 Hro).
    unfold LoaderProofs.balance_of. rewrite S2. rewrite decide_False.
    + destruct S1 as [[S1 _]|[_ [->|[_ ->]]]]; [|lia|lia]. congruence.
    + intros Ep. rewrite Ep in Hk. pose proof (wf_payer _ Htx) as Hp.
      rewrite (NoDup_lookup _ _ _ _ (wf_keys _ Htx) Hk Hp) in Hro.
      by rewrite (wf_payer_writable _ Htx) in Hro.
  - destruct (loaded_row i k a Hi (or_introl E)) as [El _].
    destruct S1 as [[_ S1]|[S1 [->|[? _]]]]; [| |done].
    + unfold LoaderProofs.balance_of at 1. rewrite S1, alive_lamports. simpl. lia.
    + destruct (decide (k = fee_payer tx)) as [Ep|Ep].
      * rewrite Ep in Hk. pose proof (NoDup_lookup _ _ _ _ (wf_keys _ Htx) Hk (wf_payer _ Htx)) as H0.
        unfold LoaderProofs.balance_of at 1. rewrite (S3 H0), alive_lamports. simpl. lia.
      * unfold LoaderProofs.balance_of at 1. rewrite S1. fold (balance_of l k). lia.
Qed.
Section stored.
Context (l' : AccountLoader).
Hypothesis Hothers : forall k, k ∉ keys -> view l' k = view l k.
Hypothesis Hstored : forall i k a a', lt_accounts lt !! i = Some (k, a) ->
  accs !! i = Some (k, a') -> stored_row l' i k a a'.

Lemma row_at i k : keys !! i = Some k -> exists a a', lt_accounts lt !! i = Some (k, a) /\
  accs !! i = Some (k, a') /\ stored_row l' i k a a' /\
  (message_is_writable (tx_message tx) i = true -> k <> incinerator_id ->
   rent_allowed relax rent (asd_lamports a) (data_len a) (asd_owner a)
     (asd_lamports a') (data_len a') (asd_owner a')).
Proof using Hw Hrows Hstored.
  intros Hk. rewrite <-(lr_keys _ _ _ _ Hrows), list_lookup_fmap in Hk.
  destruct (lt_accounts lt !! i) as [[k0 a]|] eqn:Ei; [|done]. injection Hk as ->.
  destruct (ew_row _ _ _ _ _ Hw i k a Ei) as (a' & Ha' & _ & _ & Hren).
  exists a, a'. split_and!; [done|done|by apply Hstored|done].
Qed.

Lemma success_total ks :
  NoDup ks -> (forall k, k ∈ keys -> k ∈ ks) ->
  zsum (balance_of l') ks = zsum (balance_of l) ks - fee.
Proof using Hw Hrows Hstored Hothers Htx.
  intros Hnd Hks. pose proof (lr_keys _ _ _ _ Hrows) as Ek.
  assert (zsum (fun k => balance_of l' k - balance_of l k + if decide (fee_payer tx = k) then fee else 0)
    keys = 0) as Hz.
  { rewrite <-Ek. rewrite (zsum_rows _ (lt_accounts lt) accs).
    - rewrite (ew_lamports _ _ _ _ _ Hw). lia.
    - by rewrite Ek, (ew_keys _ _ _ _ _ Hw).
    - intros i k a a' Ha Ha'. rewrite (stored_balance l' i k a a' Ha) by by apply Hstored.
      repeat case_decide; try congruence; lia. }
  destruct (submseteq_Permutation keys ks) as [rest Hp].
  { apply NoDup_submseteq; [apply Htx|done]. }
  rewrite Hp, !zsum_app. rewrite (zsum_ext (balance_of l') (balance_of l) rest).
  - rewrite zsum_add, zsum_single, decide_True, zsum_sub in Hz; [lia| |apply Htx].
    eapply list_elem_of_lookup_2, Htx.
  - intros k Hk. unfold LoaderProofs.balance_of. rewrite Hothers; [done|]. intros Hk'.
    rewrite Hp, NoDup_app in Hnd. by apply (proj1 (proj2 Hnd) k).
Qed.

(** What the rows say of the sizes and owners the batch sees. *)
Lemma stored_fields i k a a' :
  lt_accounts lt !! i = Some (k, a) -> accs !! i = Some (k, a') ->
  message_is_writable (tx_message tx) i = true ->
  (asd_lamports a <> 0 -> size_of l k = data_len a /\ owner_of l k = asd_owner a) /\
  (asd_lamports a' <> 0 -> size_of l' k = data_len a' /\ owner_of l' k = asd_owner a').
Proof using Hrows Hstored Htx.
  intros Ha Ha' Hwr. destruct (loaded_row i k a Ha (or_intror Hwr)) as [El Ev].
  assert (asd_lamports a <> 0 -> size_of l k = data_len a /\ owner_of l k = asd_owner a) as Hpre.
  { intros Hne. unfold size_of, owner_of. destruct (view l k) as [b|] eqn:Eb.
    - destruct (Ev b eq_refl) as [-> ->]. done.
    - exfalso. apply Hne. rewrite El. unfold LoaderProofs.balance_of. rewrite Eb. simpl.
      case_decide as Ep; [|done]. exfalso.
      destruct (lr_payer _ _ _ _ Hrows) as (b & _ & Hb & _). congruence. }
  split; [done|]. intros Hne.
  destruct (sr_view _ _ _ _ _ (Hstored i k a a' Ha Ha')) as [[_ Hv]|[Hv [->|[Hs _]]]].
  - unfold size_of, owner_of. rewrite Hv. simpl. by rewrite (proj2 (Z.eqb_neq _ _) Hne).
  - destruct (Hpre Hne) as [<- <-]. unfold size_of, owner_of. by rewrite Hv.
  - exfalso. assert (keys !! i = Some instructions_sysvar_id) as Hk.
    { by rewrite <-(lr_keys _ _ _ _ Hrows), list_lookup_fmap, Ha, <-Hs. }
    by rewrite (wf_reserved _ Htx i Hk) in Hwr.
Qed.

Lemma success_rent i k :
  keys !! i = Some k -> message_is_writable (tx_message tx) i = true -> k <> incinerator_id ->
  rent_allowed relax rent (balance_of l k - if decide (k = fee_payer tx) then fee else 0)
    (size_of l k) (owner_of l k) (balance_of l' k) (size_of l' k) (owner_of l' k).
Proof using Hw Hrows Hstored Htx.
  intros Hk Hwr Hinc. destruct (row_at i k Hk) as (a & a' & Ha & Ha' & HS & Hren).
  specialize (Hren Hwr Hinc). destruct (loaded_row i k a Ha (or_intror Hwr)) as [El _].
  pose proof (stored_balance l' i k a a' Ha HS) as Hb.
  assert (balance_of l' k = asd_lamports a') as -> by lia. rewrite <-El.
  destruct (stored_fields i k a a' Ha Ha' Hwr) as [F1 F2].
  unfold rent_allowed in *. destruct (decide (asd_lamports a' = 0)) as [Hz|Hz]; [by left|].
  destruct (F2 Hz) as [-> ->]. destruct (decide (asd_lamports a = 0)) as [Hz0|Hz0].
  - rewrite Hz0 in *. destruct Hren as [?|[?|[(_ & ? & _)|(_ & ? & _)]]]; [by left|by right; left|done|done].
  - destruct (F1 Hz0) as [-> ->]. exact Hren.
Qed.
End stored.

(** Everything a success promises. *)
Lemma success_ok : exists l',
  update_accounts_for_successful_tx tx accs flags slot l1 = Ok l' /\ succeeded tx fee l l'.
Proof using Hw Hrows Hc Htx.
  destruct update_success_ok as (l' & E & Hl' & Ho & Hr). exists l'. split; [done|].
  split; [done|done| |by apply success_total|by apply success_rent].
  intros i k Hk Hro. destruct (row_at l' Hr i k Hk) as (a & a' & _ & _ & [_ S2 _] & _).
  by apply S2.
Qed.
End success.
(** ** One round of the loop *)

Abbreviation features := (te_feature_set environment).

(** What loading makes of a validation result. *)
Definition load_effect (tx : SVMTransaction) (l : AccountLoader)
    (v : TransactionValidationResult) (r : TransactionLoadResult) : Prop :=
  match v, r with
  | ValidUnprocessable e, Unprocessable e' => e' = e
  | ValidNoOp n, NoOp n' => n' = n
  | ValidLoadable d, Loaded lt =>
    lt_rollback_accounts lt = vd_rollback_accounts d /\ lt_fee_details lt = vd_fee_details d /\
    loaded_rows tx l (total_fee (vd_fee_details d)) (lt_accounts lt)
  | ValidLoadable d, FeesOnly f =>
    fo_rollback_accounts f = vd_rollback_accounts d /\ fo_fee_details f = vd_fee_details d
  | _, _ => False
  end.

Lemma load_transaction_ok tx checked l l1 v :
  tx_wf tx -> cached l l1 ->
  match v with
  | ValidLoadable d => exists nonce, validated db environment tx checked l nonce d
  | _ => True
  end ->
  wp (load_transaction db features tx v rent)
    (fun r l' => cached l l' /\ load_effect tx l v r) (fun _ _ => False) l1.
Proof using db_typed TL SL.
  intros Htx Hc Hv. destruct v as [d|n|e]; [|done|done]. destruct Hv as [nonce [V1 V2 V3 V4]].
  unfold wp, load_transaction.
  pose proof (load_transaction_accounts_ok db db_typed l1 rent tx Htx
    (vd_loaded_fee_payer_account d) (with_max_size (vd_loaded_accounts_bytes_limit d))
    (ca_typed _ _ _ Hc)) as H. unfold wp in H.
  destruct (load_transaction_accounts _ _ _ _ _) as [[accs|e|] s]; [| |done].
  - destruct H as (Hs & Hk & H0 & Hr). split; [by eapply cached_trans|]. simpl.
    split_and!; [done|done|].
    destruct (paid_fields _ _ _ _ _ _ _ (proj1 (total_fee_u64 _)) V4)
      as (a & paid & Ha & Hf & Ht & El & Eo & Ee & Ed & Ep & _).
    split; [done| |].
    + exists a, paid. rewrite Ep in H0. by split_and!.
    + intros j k b Hb. destruct (Hr j k b Hb) as [R1 R2 R3 R4]. split; [done| |done|].
      * by rewrite <-(cached_balance _ _ _ _ Hc).
      * intros a0 Hk'. rewrite <-(ca_view _ _ _ Hc). by apply R4.
  - split; [by eapply cached_trans|]. done.
Qed.

(** The effect of a round with result [r] on what the batch sees. *)
Definition round_effect (tx : SVMTransaction) (nonce : option Pubkey) (l l' : AccountLoader)
    (r : ProcessedTransaction + TransactionError) : Prop :=
  match r with
  | inr _ | inl (PNoOp _) => cached l l'
  | inl (PFeesOnly f) =>
    rolled_back db environment (fee_payer tx) (total_fee (fo_fee_details f)) nonce l l'
  | inl (PExecuted e) =>
    let fee := total_fee (lt_fee_details (et_loaded_transaction e)) in
    match status (et_execution_details e) with
    | Ok _ => succeeded tx fee l l'
    | Err err => rolled_back db environment (fee_payer tx) fee nonce l l' /\
                 err <> UnbalancedTransaction
    | Panic => False
    end
  end.

(** The message of the transaction panics on the accounts that validation and loading
    have given it from the state of the batch. *)
Definition message_panics (fuel : nat) (tx : SVMTransaction)
    (check : CheckedTransactionDetails + TransactionError) (s : BatchState) : Prop :=
  exists checked v l1 lt l2, check = inl checked /\
    validate_transaction_nonce_and_fee_payer db environment config tx checked (bs_loader s)
      = (Ok v, l1) /\
    load_transaction db (te_feature_set environment) tx v (te_rent environment) l1
      = (Ok (Loaded lt), l2) /\
    let cache := replenish_program_cache (fun k => (do_load db k l2).1)
      (account_keys (tx_message tx)) (bs_cache s) in
    (message_run is_precompile precompile environment tx lt cache fuel).1 = Panic.

Definition round_ok (tx : SVMTransaction) (nonce : option Pubkey) (s : BatchState)
    (panics : Prop) (r : outcome TransactionError RoundResult * BatchState) : Prop :=
  match r with
  | (Ok (Round res), s') => round_effect tx nonce (bs_loader s) (bs_loader s') res
  | (Ok CacheFull, s') => cached (bs_loader s) (bs_loader s')
  | (Err _, _) => False
  | (Panic, _) => panics
  end.

Lemma process_loaded_ok fuel tx checked l nonce d lt s :
  tx_wf tx -> validated db environment tx checked (bs_loader l) nonce d ->
  cached (bs_loader l) (bs_loader s) ->
  load_effect tx (bs_loader l) (ValidLoadable d) (Loaded lt) ->
  round_ok tx (nonce_address checked) l
    (let cache := replenish_program_cache (fun k => (do_load db k (bs_loader s)).1)
       (account_keys (tx_message tx)) (bs_cache s) in
     (message_run is_precompile precompile environment tx lt cache fuel).1 = Panic)
    (process_loaded db slot is_precompile precompile environment config fuel tx lt s).
Proof using programs_ok TL SL.
  intros Htx Hv Hc (Er & Ef & Hrows). unfold process_loaded. case_bool; [done|].
  set (cache := replenish_program_cache _ _ _).
  pose proof (execute_ok is_precompile precompile environment config tx Htx lt cache fuel
    (programs_ok cache) (loaded_rows_loadable tx Htx _ _ lt Hrows) (lr_keys _ _ _ _ Hrows)) as He.
  destruct (execute_loaded_transaction _ _ _ _ _ _ _ _) as [e|e|]; [|done|done].
  destruct He as (E1 & E2 & Hs). destruct (drain_modified_entries _) as [modified cache'].
  destruct (status (et_execution_details e)) as [[]|err|] eqn:Est; [| |done].
  - destruct (success_ok tx Htx _ _ _ lt Hc Hrows _ _ Hs) as (l' & -> & Hok). simpl.
    rewrite Est, E2, Ef. done.
  - destruct (drop_on_failure config); [done|]. simpl. rewrite Est, E1, Er, E2, Ef.
    split; [|done]. by apply (rollback_ok db environment tx checked _ _ nonce).
Qed.
Definition nonce_of (check : CheckedTransactionDetails + TransactionError) : option Pubkey :=
  match check with inl checked => nonce_address checked | inr _ => None end.

Lemma process_transaction_ok fuel tx check s :
  tx_wf tx -> loader_typed (bs_loader s) ->
  round_ok tx (nonce_of check) s (message_panics fuel tx check s)
    (process_transaction db slot is_precompile precompile environment config fuel tx check s).
Proof using db_typed programs_ok TL SL NL.
  intros Htx Hl. unfold process_transaction.
  destruct check as [checked|e]; [|by apply cached_refl].
  unfold mbind, stm_bind, on_batch_loader, st_zoom.
  pose proof (validate_ok db db_typed environment config tx checked _ Hl) as Hv. unfold wp in Hv.
  destruct (validate_transaction_nonce_and_fee_payer _ _ _ _ _ _) as [[v|e|] l1] eqn:Ev; [|done|done].
  destruct Hv as [Hc1 Hv]. simpl.
  pose proof (load_transaction_ok tx checked _ _ v Htx Hc1 Hv) as Hld. unfold wp in Hld.
  destruct (load_transaction _ _ _ _ _ _) as [[r|e|] l2] eqn:El; [|done|done].
  destruct Hld as [Hc2 Hld].
  destruct r as [lt|f|n|e], v as [d|n'|e']; try done.
  - destruct Hv as [nonce Hv].
    pose proof (process_loaded_ok fuel tx checked s nonce d lt (mk_batch l2 (bs_cache s)) Htx Hv Hc2
      Hld) as H. unfold round_ok in *.
    destruct (process_loaded _ _ _ _ _ _ _ _ _ _) as [[[res|]|e|] s']; [done|done|done|].
    by exists checked, (ValidLoadable d), l1, lt, l2.
  - destruct Hv as [nonce Hv]. destruct Hld as [Er Ef]. destruct (drop_on_failure config); [done|].
    simpl. rewrite Er, Ef. by apply (rollback_ok db environment tx checked _ _ nonce).
  - by destruct (drop_on_failure config || drop_noop_transactions config).
Qed.

(** ** The whole batch *)

(** The fee a result collects. *)
Definition fee_of (r : ProcessedTransaction + TransactionError) : Z :=
  match r with
  | inl (PExecuted e) => total_fee (lt_fee_details (et_loaded_transaction e))
  | inl (PFeesOnly f) => total_fee (fo_fee_details f)
  | _ => 0
  end.

Lemma rolled_back_total payer fee nonce l l' ks :
  rolled_back db environment payer fee nonce l l' -> NoDup ks -> payer ∈ ks ->
  zsum (balance_of l') ks = zsum (balance_of l) ks - fee.
Proof using.
  intros [R1 R2 [_ R3] _ R5 _] Hnd Hp.
  rewrite (zsum_ext _ (fun k => balance_of l k + if decide (payer = k) then - fee else 0)).
  - rewrite zsum_add, zsum_single, decide_True by done. lia.
  - intros k _. case_decide as E; [subst; lia|].
    destruct (decide (nonce = Some k)) as [En|En].
    + destruct (R5 k En) as [-> _]; [congruence|lia].
    + unfold LoaderProofs.balance_of. rewrite R2; [lia|congruence|done].
Qed.

Lemma round_total tx nonce l l' r ks :
  tx_wf tx -> round_effect tx nonce l l' r -> NoDup ks ->
  (forall k, k ∈ account_keys (tx_message tx) -> k ∈ ks) ->
  loader_typed l' /\ zsum (balance_of l') ks = zsum (balance_of l) ks - fee_of r.
Proof using.
  intros Htx Hr Hnd Hks.
  assert (fee_payer tx ∈ ks) as Hp by (apply Hks; eapply list_elem_of_lookup_2, Htx).
  assert (cached l l' -> loader_typed l' /\ zsum (balance_of l') ks = zsum (balance_of l) ks - 0) as Hca.
  { intros Hc. split; [apply Hc|]. rewrite (zsum_ext _ (balance_of l)); [lia|].
    intros k _. by apply cached_balance. }
  destruct r as [[e|f|n]|e]; simpl in *; [| |by apply Hca|by apply Hca].
  - destruct (status (et_execution_details e)) as [[]|err|]; [| |done].
    + split; [apply Hr|]. by apply Hr.
    + destruct Hr as [Hr _]. split; [apply Hr|]. by eapply rolled_back_total.
  - split; [apply Hr|]. by eapply rolled_back_total.
Qed.

Abbreviation tx_check := (SVMTransaction * (CheckedTransactionDetails + TransactionError))%type.
Definition is_error (r : ProcessedTransaction + TransactionError) : bool :=
  match r with inl _ => false | inr _ => true end.

(** How a batch ends that sees [l0] and [l1] before and after. *)
Definition batch_effect (ks : list Pubkey) (n : nat) (l0 l1 : AccountLoader)
    (results : list (ProcessedTransaction + TransactionError)) : Prop :=
  length results = n /\
  (Forall (fun r => is_error r = true) results \/
   zsum (balance_of l1) ks = zsum (balance_of l0) ks - zsum fee_of results /\
   (all_or_nothing config = true -> Forall (fun r => is_error r = false) results)).

(** A message panics in the state that the transactions before it have left. *)
Fixpoint batch_panics (fuel : nat) (l : list tx_check) (s : BatchState) : Prop :=
  match l with
  | [] => False
  | (tx, check) :: l =>
    message_panics fuel tx check s \/
    exists r s', process_transaction db slot is_precompile precompile environment config fuel tx
      check s = (Ok (Round r), s') /\ batch_panics fuel l s'
  end.

Definition batch_ok (ks : list Pubkey) (n : nat) (l0 : AccountLoader) (panics : Prop)
    (r : outcome TransactionError (list (ProcessedTransaction + TransactionError)) * BatchState) :
    Prop :=
  match r with
  | (Ok results, s') => batch_effect ks n l0 (bs_loader s') results
  | (Err _, _) => False
  | (Panic, _) => panics
  end.

Lemma batch_ok_mono ks n l0 (P Q : Prop) r : (P -> Q) -> batch_ok ks n l0 P r -> batch_ok ks n l0 Q r.
Proof using. destruct r as [[]?]; simpl; auto. Qed.

Lemma process_transactions_ok fuel ks (l : list tx_check) acc s l0 total :
  (forall p, p ∈ l -> tx_wf p.1 /\ forall k, k ∈ account_keys (tx_message p.1) -> k ∈ ks) ->
  NoDup ks -> loader_typed (bs_loader s) -> total = (length acc + length l)%nat ->
  zsum (balance_of (bs_loader s)) ks = zsum (balance_of l0) ks - zsum fee_of acc ->
  (all_or_nothing config = true -> Forall (fun r => is_error r = false) acc) ->
  batch_ok ks total l0 (batch_panics fuel l s) (process_transactions db slot is_precompile precompile
    environment config fuel total acc l s).
Proof using db_typed programs_ok TL SL NL.
  revert acc s. induction l as [|[tx check] l IH]; intros acc s Hl Hnd Hs Htot Hz Ha.
  { simpl in *. split; [lia|by right]. }
  destruct (Hl (tx, check)) as [Htx Hks]; [left|]. simpl in Htx, Hks, Htot.
  simpl. unfold mbind, stm_bind.
  pose proof (process_transaction_ok fuel tx check s Htx Hs) as Hr.
  destruct (process_transaction _ _ _ _ _ _ _ _ _ _) as [[[r|]|e|] s'] eqn:Ep;
    [| |done|by left].
  - destruct (all_or_nothing config && _) eqn:Hb.
    + simpl. split; [rewrite length_app, length_replicate; simpl; rewrite length_replicate; lia|].
      left. apply andb_true_iff in Hb as [_ Hb].
      apply Forall_app. split; [by apply Forall_replicate|]. constructor; [done|].
      by apply Forall_replicate.
    + destruct (round_total _ _ _ _ _ ks Htx Hr Hnd Hks) as [Hs' Hz'].
      apply (batch_ok_mono _ _ _ (batch_panics fuel l s')); [intros Hpan; right; by exists r, s'|].
      apply IH; [intros p Hp; apply Hl; by right|done|done| | |].
      * rewrite length_app. simpl. lia.
      * rewrite zsum_app. simpl. lia.
      * intros Hall. apply Forall_app. split; [by apply Ha|]. constructor; [|done].
        rewrite Hall in Hb. by destruct r.
  - simpl. split; [by rewrite length_replicate|]. left. by apply Forall_replicate.
Qed.

(** A nonce that is spent and in the loader is refused. *)
Lemma spent_nonce_refused fuel tx checked k s :
  loader_typed (bs_loader s) -> nonce_address checked = Some k ->
  nonce_spent db environment (bs_loader s) k -> is_Some (loaded_accounts (bs_loader s) !! k) ->
  exists e, process_transaction db slot is_precompile precompile environment config fuel tx
    (inl checked) s = (Ok (Round (inr e)), s).
Proof using.
  intros Hl Hk Hsp [[a sl] Ha]. unfold process_transaction. unfold mbind, stm_bind, on_batch_loader, st_zoom.
  unfold validate_transaction_nonce_and_fee_payer. rewrite Hk.
  assert (exists e, validate_transaction_nonce db tx k (from_blockhash (te_blockhash environment))
    (te_lamports_per_signature environment) (strict_nonce_size_check config) (bs_loader s) =
    (Err e, bs_loader s)) as [e He].
  { unfold validate_transaction_nonce, mbind, stm_bind, load_for, loader_load_transaction_account.
    unfold load_account, do_load. rewrite Ha.
    destruct (asd_lamports a =? 0) eqn:Ez; [by eexists|]. cbn -[bool_decide].
    destruct (_ && _); [by eexists|]. cbn -[bool_decide].
    destruct (verify_nonce_account a (recent_blockhash tx)) as [x|] eqn:Ev; [|by eexists].
    cbn -[bool_decide]. rewrite bool_decide_false; [by eexists|]. intros Hne. apply Hne.
    apply (Hsp a (recent_blockhash tx) x); [|done]. unfold LoaderProofs.view. rewrite Ha. simpl.
    by rewrite Ez. }
  unfold mbind, stm_bind, st_try. rewrite He. exists e. by destruct s.
Qed.
End batch.
