(* ===== verification/BatchModel.v ===== *)
(** * A concrete batch of transactions

    Small functions in place of the code that [TransactionInterface] and
    [ProgramCacheInterface] stand for, with the programs of [SvmModel], and a batch: a
    transfer, a transfer that fails, a nonce transaction that fails, and a transaction
    whose fee payer does not exist. *)

From S2P Require Import Prelude SvmInterface TransactionAccounts InstructionAccounts.
From S2P Require Import TransactionContext InvokeContext SysvarCache SystemProgram RentState.
From S2P Require Import AccountLoader TransactionProcessor RuntimeSafety NonceProofs SvmModel.
From S2P Require Import LoaderProofs.
Local Open Scope Z_scope.

Module BatchModel.
#[export] Existing Instance Model.svm.
#[export] Existing Instance Model.nonces.
#[export] Existing Instance Model.svm_laws.
#[export] Existing Instance Model.nonce_laws.

Definition read_nonce (a : AccountSharedData) : option (Z * Z * Z) :=
  if asd_owner a =? 1 then
    match Model.dec_versions (take 4 (asd_data a)) with Some (Some x) => Some x | _ => None end
  else None.

#[export] Instance interface : TransactionInterface := {|
  FeeDetails := Z;
  total_fee d := Z.min u64_max (Z.abs d);
  incinerator_id := 77;
  nonce_state_size := 4;
  get_system_account_kind a :=
    if asd_owner a =? 1 then
      match asd_data a with [] => Some SystemKind | _ => (fun _ => NonceKind) <$> read_nonce a end
    else None;
  verify_nonce_account a h :=
    match read_nonce a with
    | Some (k, d, f) => if d =? h then Some (k, d, f) else None
    | None => None
    end;
  set_nonce_state a v :=
    if (4 <=? length (asd_data a))%nat
    then Some (set_data_of a (Model.enc_versions v ++ drop 4 (asd_data a))) else None;
  programdata_address d := match d with [2; k] => Some k | _ => None end;
  construct_instructions_data l :=
    if (length l <=? 64)%nat then Some (replicate (length l) 0) else None;
|}.

Lemma enc_length v : length (Model.enc_versions v) = 4%nat.
Proof. by destruct v as [[[]]|]. Qed.
Lemma read_written a v : read_nonce (set_data_of a (Model.enc_versions v ++ drop 4 (asd_data a))) =
  if asd_owner a =? 1 then v else None.
Proof.
  unfold read_nonce. simpl. rewrite take_app_length' by by rewrite enc_length.
  by destruct v as [[[]]|].
Qed.
Lemma read_long a x : read_nonce a = Some x -> (4 <= length (asd_data a))%nat.
Proof.
  unfold read_nonce. case_bool; [|done]. destruct (asd_data a) as [|b1 [|b2 [|b3 [|b4 d]]]];
    simpl; try lia; try (by repeat case_match).
Qed.

#[export] Instance laws : TransactionLaws interface.
Proof.
  split; cbn -[Nat.leb read_nonce drop set_data_of Model.enc_versions app].
  - intros d. unfold is_u, u64_max. lia.
  - intros l d. case_bool; [|done]. intros [= <-]. rewrite length_replicate.
    apply Nat.leb_le in E. unfold MAX_ACCOUNT_DATA_LEN. lia.
  - intros a v a'. case_bool; [|done]. intros [= <-]. eexists. split; [done|].
    apply Nat.leb_le in E. rewrite length_app, enc_length, length_drop. lia.
  - intros a h x y. destruct (read_nonce a) as [[[]]|] eqn:E; [|done]. intros _.
    apply read_long, Nat.leb_le in E. by rewrite E.
  - intros a y a' h x. case_bool; [|done]. intros [= <-].
    destruct y as [[k d] f]. change [1; k; d; f] with (Model.enc_versions (Some (k, d, f))).
    rewrite read_written. case_bool; [|done]. case_bool; [|done]. by intros [= <-].
  - intros a a' h Ho Hd. unfold read_nonce. by rewrite Ho, Hd.
Qed.

(** A cache that always holds the programs of [SvmModel]. *)
#[export] Instance cache : ProgramCacheInterface := {|
  Cache := unit;
  cache_is_empty _ := false;
  hit_max_limit _ := false;
  replenish_program_cache _ _ c := c;
  cache_programs _ := Model.programs;
  cache_executed _ _ c := c;
  ModifiedEntries := unit;
  drain_modified_entries c := (tt, c);
  merge_entries _ c := c;
|}.

(** Wallets, a nonce account, the programs and the instructions sysvar. *)
Definition stored : list (Pubkey * AccountSharedData) :=
  [Model.wallet 100 10000; Model.wallet 101 5000; (103, mk_asd 3000 [1; 100; 9; 5000] 1 false 0);
   (1, mk_asd 1 [] 3 true 0); (60, mk_asd 1 [] 3 true 0)].
Definition db (k : Pubkey) : option (AccountSharedData * Slot) :=
  (fun p => (p.2.2, 0)) <$> list_find (fun p => p.1 = k) stored.

Definition payer_signs (i : nat) : bool := (i =? 0)%nat.
Definition message (d : list Z) : SVMMessage := mk_message [100; 101; 103; 1; 9]
  [(1, mk_svm_instruction 3 [0; 1]%nat d)] payer_signs (fun i => (i <? 3)%nat).
Definition transaction (d : list Z) (blockhash : Hash) : SVMTransaction :=
  mk_transaction (message d) 100 blockhash 0 (fun i => (i =? 3)%nat) (fun i => (i <? 2)%nat)
    (fun _ => [100]).
Definition checked (nonce : option Pubkey) : CheckedTransactionDetails :=
  mk_checked nonce (mk_limits (mk_budget 1000 4 64) 10000 5).

Definition transfers : SVMTransaction := transaction [2; 30] 55.
Definition overdraws : SVMTransaction := transaction [2; 1000000] 9.
Definition stranger : SVMTransaction := mk_transaction (mk_message [500; 1]
  [(1, mk_svm_instruction 1 [0]%nat [4])] payer_signs payer_signs) 500 55 0
  (fun i => (i =? 1)%nat) payer_signs (fun _ => [500]).

Definition environment : TransactionProcessingEnvironment :=
  mk_processing_env 55 5000 Model.features (10 : @Rent Model.svm).
Definition config : TransactionProcessingConfig := mk_config None false false false false false None.

Definition builtins : Cache := tt.
Definition start : BatchState := mk_batch (new_with_loaded_accounts_capacity None) builtins.
Abbreviation process := (fun (tx : SVMTransaction) (nonce : option Pubkey) (s : BatchState) =>
  process_transaction db 1 (fun _ => false) Model.no_precompile environment config 5 tx
    (inl (checked nonce)) s).
Definition txs : list SVMTransaction := [transfers; overdraws; overdraws; stranger].
Definition checks : list (CheckedTransactionDetails + TransactionError) :=
  [inl (checked None); inl (checked (Some 103)); inl (checked (Some 103)); inl (checked None)].
Definition keys : list Pubkey := [100; 101; 103; 1; 9; 500].

(** ** The hypotheses of the theorems hold *)

Lemma db_is_typed k a sl : db k = Some (a, sl) -> account_typed a.
Proof.
  unfold db. destruct (list_find _ _) as [[i [k' b]]|] eqn:E; [|done]. intros [= <- _].
  apply list_find_Some in E as (Hi & _ & _).
  assert (Forall (fun p => account_typed p.2) stored) as H
    by (repeat constructor; by vm_compute).
  by apply (Forall_lookup_1 _ _ _ _ H Hi).
Qed.

Lemma message_is_ok d blockhash : tx_wf (transaction d blockhash).
Proof.
  split; simpl.
  - by apply (bool_decide_unpack _).
  - unfold MAX_ACCOUNTS_PER_TRANSACTION. lia.
  - done.
  - done.
  - done.
  - intros p i ->%list_elem_of_singleton. simpl. rewrite !elem_of_cons. intros [->|[->|[]%not_elem_of_nil]];
      split; (lia || done).
  - intros p ->%list_elem_of_singleton. by vm_compute.
  - intros [|[|[|[|[|i]]]]]; simpl; try done.
Qed.

Lemma stranger_is_ok : tx_wf stranger.
Proof.
  split; simpl.
  - by apply (bool_decide_unpack _).
  - unfold MAX_ACCOUNTS_PER_TRANSACTION. lia.
  - done.
  - done.
  - done.
  - intros p i ->%list_elem_of_singleton. simpl. intros ->%list_elem_of_singleton. split; [lia|done].
  - intros p ->%list_elem_of_singleton. by vm_compute.
  - intros [|[|i]]; simpl; try done.
Qed.

Lemma txs_are_ok tx :
  tx ∈ txs -> tx_wf tx /\ forall k, k ∈ account_keys (tx_message tx) -> k ∈ keys.
Proof.
  unfold txs. rewrite !elem_of_cons.
  assert (forall d h, tx_wf (transaction d h) /\
    forall k, k ∈ account_keys (tx_message (transaction d h)) -> k ∈ keys) as H.
  { intros d h. split; [apply message_is_ok|]. unfold keys. simpl. set_solver. }
  intros [->|[->|[->|[->|[]%not_elem_of_nil]]]]; [apply H..|].
  split; [apply stranger_is_ok|]. unfold keys. simpl. set_solver.
Qed.

Lemma keys_distinct : NoDup keys.
Proof. by apply (bool_decide_unpack _). Qed.
Lemma start_is_typed : loader_typed (bs_loader start).
Proof. intros k a sl. simpl. by rewrite lookup_empty. Qed.
End BatchModel.
