(* ===== verification/TransactionTheorems.v ===== *)
(** * Processing transactions: what it guarantees

    The properties of the transaction processor of [TransactionProcessor]: the fee,
    the effect of a transaction on the accounts of a batch, the balance of a whole
    batch, and that a failed transaction cannot be repeated with the same nonce.
    [BatchModel] is a concrete instance with a batch of transactions. *)

From S2P Require Import Prelude SvmInterface TransactionAccounts InstructionAccounts.
From S2P Require Import TransactionContext InvokeContext SysvarCache SystemProgram RentState.
From S2P Require Import AccountLoader TransactionProcessor RuntimeSafety NonceProofs SvmModel.
From S2P Require Import LoaderProofs FeeProofs ExecutionProofs BatchProofs BatchModel.
Local Open Scope Z_scope.

Section theorems.
Context {SI : SvmInterface} {SL : SvmLaws SI} {NI : NonceInterface} {NL : NonceLaws NI}.
Context {TI : TransactionInterface} {TL : TransactionLaws TI} {PC : ProgramCacheInterface}.

(** C20: The fee payer can be charged exactly if it exists, is a system or nonce account,
    keeps the minimum balance of its kind, and ends in a rent state it may be in; then
    exactly the fee is taken and nothing else of the account changes. *)
Theorem fee_payer_charged_exactly (i : Z) (rent : Rent) (fee : Z) (relax : bool)
    (a : AccountSharedData) :
  0 <= fee ->
  ((validate_fee_payer i rent fee relax a).1 = Ok tt <->
   asd_lamports a <> 0 /\
   (exists kind, get_system_account_kind a = Some kind /\
      min_balance_of rent kind + fee <= asd_lamports a) /\
   rent_allowed relax rent (asd_lamports a) (data_len a) (asd_owner a)
     (asd_lamports a - fee) (data_len a) (asd_owner a)) /\
  ((validate_fee_payer i rent fee relax a).1 = Ok tt ->
   (validate_fee_payer i rent fee relax a).2 = set_lamports_of a (asd_lamports a - fee)) /\
  (validate_fee_payer i rent fee relax a).1 <> Panic.
Proof using SL.
  intros Hf. destruct (validate_fee_payer_spec i rent fee relax a Hf)
    as [[Hp ->]|[Hp (e & a' & ->)]]; simpl; split_and!; try done.
Qed.

Section batches.
Context (db : Pubkey -> option (AccountSharedData * Slot)) (slot : Slot).
Context (is_precompile : Pubkey -> bool).
Context (precompile : Pubkey -> list Z -> list (list Z) -> outcome InstructionError unit).
Context (environment : TransactionProcessingEnvironment) (config : TransactionProcessingConfig).

(** C3: The effect of processing one transaction on the accounts the batch sees.  If it
    is dropped, refused or a no-op, no account changes.  If it is charged without being
    executed, or executed and failed, the fee payer has paid the fee and the nonce is
    spent, and nothing else changes.  If it succeeded, only its writable accounts have
    changed, all lamports but the fee are still there, and every writable account is
    in a rent state it may be in.  Processing panics only if the message does, on the
    accounts loaded for it, and the final check of the balance never fails. *)
Theorem transaction_effects (fuel : nat) (tx : SVMTransaction)
    (check : CheckedTransactionDetails + TransactionError) (s : BatchState) :
  (forall k a sl, db k = Some (a, sl) -> account_typed a) ->
  (forall cache id p, cache_programs cache id = Some p -> program_ok p) ->
  tx_wf tx -> loader_typed (bs_loader s) ->
  match process_transaction db slot is_precompile precompile environment config fuel tx check s
  with
  | (Ok (Round r), s') =>
    round_effect db environment tx (nonce_of check) (bs_loader s) (bs_loader s') r
  | (Ok CacheFull, s') => cached db (bs_loader s) (bs_loader s')
  | (Err _, _) => False
  | (Panic, _) => message_panics db is_precompile precompile environment config fuel tx check s
  end.
Proof using SL NL TL. intros Hdb Hp Htx Hl. by apply process_transaction_ok. Qed.

(** C8: A whole batch: there is a result for every transaction; either all results are
    errors, or the accounts together have lost exactly the fees of the results, and in
    an all-or-nothing batch every result is a processed transaction.  The batch panics
    only if a message does, in the state the transactions before it have left. *)
Theorem batch_collects_fees (fuel : nat) (builtins cache : Cache) (txs : list SVMTransaction)
    (checks : list (CheckedTransactionDetails + TransactionError)) (ks : list Pubkey) :
  (forall k a sl, db k = Some (a, sl) -> account_typed a) ->
  (forall o k a, account_overrides config = Some o -> o !! k = Some a -> account_typed a) ->
  (forall cache id p, cache_programs cache id = Some p -> program_ok p) ->
  length checks = length txs -> NoDup ks ->
  (forall tx, tx ∈ txs -> tx_wf tx /\ forall k, k ∈ account_keys (tx_message tx) -> k ∈ ks) ->
  let l0 := new_with_loaded_accounts_capacity (account_overrides config) in
  match load_and_execute_sanitized_transactions db slot is_precompile precompile environment
          config fuel builtins txs checks cache with
  | (Ok results, s') =>
    length results = length txs /\
    (Forall (fun r => is_error r = true) results \/
     zsum (balance_of db (bs_loader s')) ks = zsum (balance_of db l0) ks - zsum fee_of results /\
     (all_or_nothing config = true -> Forall (fun r => is_error r = false) results))
  | (Err _, _) => False
  | (Panic, _) => batch_panics db slot is_precompile precompile environment config fuel
      (zip txs checks) (mk_batch l0 (if cache_is_empty cache then builtins else cache))
  end.
Proof using SL NL TL.
  intros Hdb Ho Hp Hlen Hnd Htx. cbv zeta. unfold load_and_execute_sanitized_transactions.
  case_bool.
  { split; [by rewrite length_replicate|]. left. by apply Forall_replicate. }
  set (s := mk_batch _ _). set (l0 := new_with_loaded_accounts_capacity _).
  assert (loader_typed (bs_loader s)) as Hs.
  { intros k a sl. subst s. simpl. unfold new_with_loaded_accounts_capacity.
    destruct (account_overrides config) as [o|] eqn:Eo; simpl; [|by rewrite lookup_empty].
    rewrite lookup_fmap. destruct (o !! k) as [b|] eqn:Eb; simpl; [|done].
    intros [= <- _]. by apply (Ho o k). }
  assert (length (zip txs checks) = length txs) as El by (rewrite length_zip_with; lia).
  pose proof (process_transactions_ok db Hdb slot is_precompile precompile environment config Hp
    fuel ks (zip txs checks) [] s l0 (length txs)) as H.
  assert (batch_ok db config ks (length txs) l0 (batch_panics db slot is_precompile precompile environment
    config fuel (zip txs checks) s) (process_transactions db slot is_precompile precompile
    environment config fuel (length txs) [] (zip txs checks) s)) as Hb.
  { apply H; [|done|done|simpl; lia|simpl; unfold s; simpl; fold l0; lia|done].
    intros [tx c] Hin%elem_of_zip_l. by apply Htx. }
  by destruct (process_transactions _ _ _ _ _ _ _ _ _ _ _) as [[results|e|] s'].
Qed.

(** C19: A nonce transaction that is charged but fails spends its nonce: as long as the
    nonce account is not stored again, no transaction of the batch with that nonce is
    processed, whoever signed it. *)
Theorem failed_nonce_not_replayed (fuel fuel' : nat) (tx tx' : SVMTransaction)
    (checked checked' : CheckedTransactionDetails) (k : Pubkey) (s s1 s2 : BatchState)
    (r : ProcessedTransaction) :
  (forall k a sl, db k = Some (a, sl) -> account_typed a) ->
  (forall cache id p, cache_programs cache id = Some p -> program_ok p) ->
  tx_wf tx -> loader_typed (bs_loader s) -> nonce_address checked = Some k ->
  process_transaction db slot is_precompile precompile environment config fuel tx (inl checked) s
    = (Ok (Round (inl r)), s1) ->
  match r with
  | PExecuted e => is_ok (status (et_execution_details e)) = false
  | PFeesOnly _ => True
  | PNoOp _ => False
  end ->
  nonce_address checked' = Some k -> loader_typed (bs_loader s2) ->
  loaded_accounts (bs_loader s2) !! k = loaded_accounts (bs_loader s1) !! k ->
  exists e, process_transaction db slot is_precompile precompile environment config fuel' tx'
    (inl checked') s2 = (Ok (Round (inr e)), s2).
Proof using SL NL TL.
  intros Hdb Hp Htx Hl Hk H Hr Hk' Hl2 Hsame.
  pose proof (process_transaction_ok db Hdb slot is_precompile precompile environment config Hp
    fuel tx (inl checked) s Htx Hl) as Hok. rewrite H in Hok. simpl in Hok. rewrite Hk in Hok.
  assert (exists fee, rolled_back db environment (fee_payer tx) fee (Some k) (bs_loader s)
    (bs_loader s1)) as [fee Hrb].
  { destruct r as [e|f|n]; simpl in *; [|by eexists|done].
    destruct (status (et_execution_details e)); [done| |done]. destruct Hok as [Hok _].
    by eexists. }
  destruct (rb_spent _ _ _ _ _ _ _ Hrb k eq_refl) as [Hsp Hin].
  apply (spent_nonce_refused db slot is_precompile precompile environment config fuel' tx'
    checked' k s2 Hl2 Hk').
  - intros a h x Ha. apply (Hsp a h x). revert Ha. unfold view. rewrite Hsame.
    by destruct Hin as [[b sl] ->].
  - by rewrite Hsame.
Qed.
End batches.
End theorems.

(** ** Concrete runs *)

Import BatchModel.

Lemma fee_payer_charged_exactly_witness :
  (validate_fee_payer 0 (10 : @Rent Model.svm) 5 false (mk_asd 10000 [] 1 false 0)).2 =
    mk_asd 9995 [] 1 false 0 /\ 5 <= asd_lamports (mk_asd 10000 [] 1 false 0).
Proof.
  assert ((validate_fee_payer 0 (10 : @Rent Model.svm) 5 false (mk_asd 10000 [] 1 false 0)).1 = Ok tt)
    as H by by vm_compute.
  destruct (fee_payer_charged_exactly 0 (10 : @Rent Model.svm) 5 false
    (mk_asd 10000 [] 1 false 0)) as (H1 & H2 & _); [lia|].
  split; [exact (H2 H)|].
  destruct (proj1 H1 H) as (_ & (kind & Hk & Hle) & _). revert Hk Hle. by intros [= <-].
Defined.

Abbreviation transferred := (process transfers None start).

Lemma transaction_effects_witness :
  zsum (balance_of db (bs_loader transferred.2)) keys = zsum (balance_of db (bs_loader start)) keys - 5 /\
  view db (bs_loader transferred.2) 1 = view db (bs_loader start) 1.
Proof.
  assert (match transferred.1 with
    | Ok (Round (inl (PExecuted e))) => is_ok (status (et_execution_details e)) &&
        (total_fee (lt_fee_details (et_loaded_transaction e)) =? 5)
    | _ => false end = true) as Hr by by vm_compute.
  pose proof (transaction_effects db 1 (fun _ => false) Model.no_precompile
    environment config 5 transfers (inl (checked None)) start db_is_typed
    (fun _ => Model.programs_kept) (message_is_ok _ _) start_is_typed) as H.
  destruct (txs_are_ok transfers) as [_ Hks]; [left|].
  destruct transferred as [[[[[e|f|n]|e]|]|e|] s']; cbn [fst] in Hr; try done.
  unfold round_effect in H. destruct (status (et_execution_details e)); [|done|done].
  apply andb_true_iff in Hr as [_ Hf%Z.eqb_eq]. destruct H as [_ _ H1 H2 _].
  cbn [fst snd]. split.
  - rewrite (H2 keys); [by rewrite Hf|exact keys_distinct|exact Hks].
  - by apply (H1 3%nat 1).
Defined.

Abbreviation processed_batch := (load_and_execute_sanitized_transactions db 1 (fun _ => false)
  Model.no_precompile environment config 5 builtins txs checks builtins).

Lemma batch_collects_fees_witness :
  zsum (balance_of db (bs_loader processed_batch.2)) keys = 18001 - 10.
Proof.
  assert (match processed_batch.1 with
    | Ok results => (zsum fee_of results =? 10) && existsb (fun r => negb (is_error r)) results
    | _ => false end = true) as Hr by by vm_compute.
  assert (zsum (balance_of db (new_with_loaded_accounts_capacity None)) keys = 18001) as H0
    by by vm_compute.
  pose proof (batch_collects_fees db 1 (fun _ => false) Model.no_precompile
    environment config 5 builtins builtins txs checks keys db_is_typed (fun o k a H => ltac:(discriminate H))
    (fun _ => Model.programs_kept) eq_refl keys_distinct txs_are_ok) as H.
  cbv zeta in H. destruct processed_batch as [[results|e|] s']; simpl in Hr; try done.
  apply andb_true_iff in Hr as [Hf%Z.eqb_eq He]. destruct H as [_ [H|[H _]]].
  - exfalso. apply existsb_exists in He as (r & Hin & He). apply list_elem_of_In in Hin.
    rewrite Forall_forall in H. by rewrite (H r Hin) in He.
  - cbn [fst snd]. change (account_overrides config) with (None : option (gmap Pubkey AccountSharedData)) in H.
    by rewrite H, H0, Hf.
Defined.

Abbreviation failed := (process overdraws (Some 103) start).

Lemma failed_is_typed : loader_typed (bs_loader failed.2).
Proof.
  pose proof (process_transaction_ok db db_is_typed 1 (fun _ => false)
    Model.no_precompile environment config (fun _ => Model.programs_kept) 5 overdraws
    (inl (checked (Some 103))) start (message_is_ok _ _) start_is_typed) as H.
  assert (match failed.1 with Ok (Round _) => true | _ => false end = true) as Hr by by vm_compute.
  destruct (txs_are_ok overdraws) as [Htx Hks]; [right; left|].
  destruct failed as [[[r|]|e|] s']; simpl in Hr; try done.
  by apply (round_total db environment _ _ _ _ _ keys Htx H keys_distinct).
Qed.

Lemma failed_nonce_not_replayed_witness : exists e,
  process overdraws (Some 103) failed.2 = (Ok (Round (inr e)), failed.2).
Proof.
  assert (match failed.1 with
    | Ok (Round (inl (PExecuted e))) => negb (is_ok (status (et_execution_details e)))
    | _ => false end = true) as Hr by by vm_compute.
  pose proof failed_is_typed as Ht.
  pose proof (fun r s1 => failed_nonce_not_replayed db 1 (fun _ => false)
    Model.no_precompile environment config 5 5 overdraws overdraws (checked (Some 103))
    (checked (Some 103)) 103 start s1 s1 r db_is_typed (fun _ => Model.programs_kept)
    (message_is_ok _ _) start_is_typed eq_refl) as H.
  destruct failed as [[[[[e|f|n]|e]|]|e|] s']; simpl in Hr; try done.
  apply (H (PExecuted e) s' eq_refl); [by apply negb_true_iff|done|exact Ht|done].
Defined.
